(* ===== verification/_CoqProject ===== *)
-Q . S2P
Prelude.v
Common.v
Selection.v
Rlp.v
RlpEnc.v
RlpDec.v
RlpRaw.v
Uint256.v
Uint256Spec.v
Uint256Div.v
Uint256Conv.v
Uint256Props.v
Trie.v
TrieMap.v
TrieHash.v
TrieDB.v
TrieEnc.v
TrieStore.v
TrieCommit.v
TriePersist.v
TrieBound.v
TrieSpec.v
Packets.v
StateSpec.v
StateDB.v
StateRefine.v
StateProps.v
Context.v
BlockValidator.v
Certificate.v
Peer.v
Consensus.v
ConsensusInv.v
ConsensusRun.v
EvmBase.v
EvmTable.v
EvmPre.v
Evm.v
EvmSim.v
EvmInv.v
EvmGas.v
EvmOps.v
EvmExec.v
EvmWrite.v
EvmCalls.v
EvmRun.v
EvmProps.v
