(* ===== verification/Prelude.v ===== *)
(** * Verification of the quantum-coin node

    The program is a fork of go-ethereum whose blocks are decided by a
    proof-of-stake consensus with signed proposals, acknowledgements, precommits
    and commits.  This library models parts of it as Rocq functions and proves what
    makes them correct.  This file is the prelude; the header describes the whole
    library.

    ** How Go is modelled

    A Go call returns, fails with an error, or panics ([outcome]).  Code with state
    runs in the monad [M S]: the state [S] is threaded, a failing call keeps the
    writes made before the failure, and [ext] reads the next answer of an outside
    oracle (clock, random numbers, the disk).  Iterating over a Go map ([range])
    yields the entries in an order chosen by the oracle, so a theorem about such a
    function is about every order.  Machine integers are integers with their
    wrap-around written out ([u8], [u64], [i64], ...); big integers are [Z]; byte
    strings are lists of bytes; maps are finite maps of stdpp; a nil slice and an
    empty one are told apart where the code does ([slice]).  Code outside the
    repository (Keccak-256, signatures, the random generator, floating point, the
    p2p layer, the clean cache) is a class whose fields state its documented
    behaviour; every theorem that assumes such a class has a witness with a
    concrete instance.

    ** The files

    - Prelude: outcomes, the monad and its weakest-precondition calculus, ranges,
      integers, generic lemmas on lists, options and maps.
    - Common: src/common (hashes, addresses, big integers, byte helpers), the
      hashing of src/crypto/crypto.go, the wire packet of
      src/eth/protocols/eth/protocol.go.
    - Rlp, RlpEnc, RlpDec, RlpRaw: src/rlp.  The buffered encoder equals a recursive
      reference encoding; the stream decoder accepts exactly the canonical encodings
      and never panics; the slice helpers find the values of an encoding.
    - Trie, TrieMap, TrieHash, TrieDB, TrieEnc, TrieStore, TrieCommit, TriePersist,
      TrieBound, TrieSpec: src/trie (encoding.go, node.go, trie.go, hasher.go,
      committer.go, database.go).  Trie holds lookup, insertion and deletion on
      partly loaded nodes; TrieMap shows that they implement a finite map and keep
      the minimal form; TrieHash and TrieDB hold hashing, committing and the node
      database; TrieSpec states the contract: a trie with its database refines a
      finite map, its root hash stands for the map, a committed trie opens again.
    - Selection: filterValidators, canPropose and getBlockProposer of
      src/consensus/proofofstake/PacketHandler.go: exactly what is selected, by the
      lottery and by its completion, independence of the map order, quorum
      intersection by deposits, the back-off.
    - Packets: packet types, hashes of the votes, clock functions.
    - Context: the keys of consensus contexts (context.go) and the part of Finalize
      that stores them; the contract that holds them is a map.
    - BlockValidator, Certificate: BlockValidator.go; what an accepted block proves,
      and that two conflicting blocks expose double signers.
    - Peer: PeerHandler.go, with its goroutines as tasks; no peer is handed a packet
      twice.  The order in which its two mutexes are taken is a model of its own.
    - Consensus, ConsensusInv, ConsensusRun: the consensus handler of
      PacketHandler.go, its invariant, and its runs: votes are final, a decided
      round carries a certificate, conflicting decisions are accountable, the block
      that is built passes validation.
    - Uint256, Uint256Spec, Uint256Div, Uint256Conv, Uint256Props: src/uint256, the
      256-bit integers as four 64-bit words.  Uint256 translates the operations;
      Uint256Spec, Uint256Div and Uint256Conv show what each computes; Uint256Props
      states the contract: arithmetic modulo 2^256, exact division, faithful
      conversions.
    - StateSpec, StateDB, StateRefine, StateProps: src/core/state (statedb.go,
      state_object.go, journal.go, access_list.go).  StateSpec holds the interface
      that the EVM uses (src/core/vm/interface.go) and the abstract state: a map of
      accounts with a stack of copies; StateDB the journaled database over tries;
      StateRefine and StateProps show that it refines the abstract state, that a
      snapshot brings everything back, and what finalising leaves.
    - EvmBase, EvmTable, EvmPre, Evm: src/core/vm.  EvmBase holds gas constants,
      checked arithmetic, stack, memory, opcodes and the analysis of jump
      destinations; EvmTable the instruction tables of every fork and the facts that
      their entries agree with; EvmPre the precompiled contracts; Evm the
      instructions with their gas functions, calls, creations and the interpreter,
      over any state database ([StateDB]).  The state of the EVM is a record; a frame
      adds memory, stack, contract and program counter.
    - EvmSim: a run over a database that implements the interface does what the run
      over the abstract state does.  EvmInv, EvmGas, EvmOps, EvmExec, EvmWrite,
      EvmCalls, EvmRun: over the abstract state, the invariant of a frame and that
      gas functions, instructions, calls, creations and the loop keep it.  EvmProps
      states the contract: a call returns, within its gas and without a fault;
      failures restore the state, static calls change nothing, no money is made,
      memory and refunds are bounded by gas; together with StateProps this holds for
      the EVM over the journaled database.  It also states what RETURNDATA is after a
      call of the identity contract, whose output aliases the memory of the caller.

    ** Fuel

    Recursion that is not structural takes fuel, and a theorem shows that the fuel
    given is enough.  The decoders of RLP recurse at most once per byte of input;
    the operations of the trie descend at most twice per nibble of the key
    ([keyFuel]); decodeNode recurses on strictly shorter buffers; the loop over the
    rounds of a block is bounded by the 255 rounds a byte can count, and the one
    value for which it does not end is the subject of a theorem.  The loop of the
    EVM and the calls it makes share one fuel, which is enough when it exceeds the
    gas: every turn that goes on costs gas, and a call gets less gas than its caller
    has left.

    ** Assumptions

    The state database rests on tries that answer without errors and on hashes of
    addresses that do not collide ([BaseState]).  The EVM runs with the rules of
    Homestead and EIP-150 or later ([envOk]), with at most 2^55 units of gas and a
    refund counter that leaves room for what this gas can add ([callable]); the
    calls of the node itself, which start with 2^64-1 units, are not covered.  Jump
    analyses are shared by the hash of the code and nothing is assumed of the hash
    function, so the panic of an analysis that is read past its end is not excluded.

    ** Not modelled

    Logging, metrics and statistics that are only printed.  Network and disk I/O
    below the interfaces the modelled code calls.  The signature schemes (C code).
    Data races: a method that holds a mutex runs to its end before another starts,
    except in the section on locks of Peer.  The reflection of package rlp is
    replaced by a universe of types.  The nodes that a lookup moves from disk to
    the clean cache are not tracked in the runs of TrieSpec; lookups that do so are
    modelled by [db_node].  The tracer of the EVM, and the change of its abort flag
    by another goroutine; the BLS12-381 contracts, which no fork lists.  The hash of
    the state: the pushing of storage and accounts into their tries.  The
    transaction pool, the state transition of a transaction, block import, the
    freezer, the downloader, accounts, RPC and user interfaces. *)

From Stdlib Require Export ZArith Lia.
From Stdlib Require Import Strings.Byte.
From stdpp Require Export base tactics option list gmap strings sorting fin_maps numbers.
From stdpp Require Export list_relations.

Declare Scope go_scope.
Delimit Scope go_scope with go.
#[global] Open Scope Z_scope.
#[global] Open Scope go_scope.

(** * Errors and outcomes of Go calls

    A Go function returns normally, returns a non-nil [error], or panics (nil
    dereference, index out of range, write to a nil map).  A returned error does
    not undo the writes made before it, so the monad below keeps the state on
    every outcome. *)

(** [Sentinel] is a package-level error variable, compared by identity
    ([errors.Is]); [ErrorsNew] is an error built on the spot; [DecodeErr] is the
    [*decodeError] of package rlp. *)
Inductive error :=
| Sentinel (var : string)
| ErrorsNew (msg : string)
| DecodeErr (msg : string).

#[export] Instance error_eq_dec : EqDecision error.
Proof. solve_decision. Defined.

Inductive outcome (A : Type) :=
| Ok (a : A)
| Fail (e : error)
| Panic (why : string).
Arguments Ok {A} a.
Arguments Fail {A} e.
Arguments Panic {A} why.

#[export] Instance outcome_eq_dec {A} `{EqDecision A} : EqDecision (outcome A).
Proof. solve_decision. Defined.

Definition is_ok {A} (o : outcome A) : bool :=
  match o with Ok _ => true | _ => false end.

Definition is_panic {A} (o : outcome A) : bool :=
  match o with Panic _ => true | _ => false end.

#[export] Instance outcome_ret : MRet outcome := fun A a => Ok a.
#[export] Instance outcome_bind : MBind outcome := fun A B k o =>
  match o with Ok a => k a | Fail e => Fail e | Panic p => Panic p end.

Definition outcome_map {A B} (f : A -> B) (o : outcome A) : outcome B :=
  match o with Ok a => Ok (f a) | Fail e => Fail e | Panic p => Panic p end.

(** * The state and outcome monad

    [w_tick] counts the interactions with the outside of the program: the
    wall clock, the iteration order of a map, the random source, an external
    call.  Every such interaction reads an oracle at the current tick and
    increments it, so that two reads of the clock may differ. *)

Record World (S : Type) := mkWorld { w_tick : nat; w_st : S }.
Arguments mkWorld {S} _ _.
Arguments w_tick {S} _.
Arguments w_st {S} _.

Definition M (S A : Type) : Type := World S -> outcome A * World S.

#[export] Instance M_ret S : MRet (M S) := fun A a w => (Ok a, w).
#[export] Instance M_bind S : MBind (M S) := fun A B k m w =>
  match m w with
  | (Ok a, w') => k a w'
  | (Fail e, w') => (Fail e, w')
  | (Panic p, w') => (Panic p, w')
  end.

#[export] Instance M_fmap S : FMap (M S) := fun A B f m => m ≫= fun a => mret (f a).

Definition fail {S A} (e : error) : M S A := fun w => (Fail e, w).
Definition panic {S A} (why : string) : M S A := fun w => (Panic why, w).
Definition get {S} : M S S := fun w => (Ok (w_st w), w).
Definition gets {S A} (f : S -> A) : M S A := fun w => (Ok (f (w_st w)), w).
Definition modify {S} (f : S -> S) : M S unit :=
  fun w => (Ok (), mkWorld (w_tick w) (f (w_st w))).

(** Consult an oracle: [f] at the current tick. *)
Definition ext {S A} (f : nat -> A) : M S A :=
  fun w => (Ok (f (w_tick w)), mkWorld (Datatypes.S (w_tick w)) (w_st w)).

(** The value of an outcome computed outside the monad. *)
Definition lift {S A} (o : outcome A) : M S A := fun w => (o, w).

(** A nil dereference or a missing element panics. *)
Definition must {S A} (why : string) (o : option A) : M S A :=
  match o with Some a => mret a | None => panic why end.

(** [err := f()] with the error inspected by the caller. *)
Definition try_ {S A} (m : M S A) : M S (A + error) := fun w =>
  match m w with
  | (Ok a, w') => (Ok (inl a), w')
  | (Fail e, w') => (Ok (inr e), w')
  | (Panic p, w') => (Panic p, w')
  end.

(** A call whose error result is dropped. *)
Definition ignore {S A} (m : M S A) : M S unit := try_ m;; mret ().

Definition when {S} (b : bool) (m : M S unit) : M S unit :=
  if b then m else mret ().

(** [if cond { return err }]. *)
Definition fail_if {S} (b : bool) (e : error) : M S unit :=
  if b then fail e else mret ().

(** A loop over a slice, threading an accumulator. *)
Fixpoint foldM {S A B} (f : B -> A -> M S B) (acc : B) (l : list A) : M S B :=
  match l with
  | [] => mret acc
  | a :: l => acc' ← f acc a; foldM f acc' l
  end.

Fixpoint forM {S A} (f : A -> M S unit) (l : list A) : M S unit :=
  match l with
  | [] => mret ()
  | a :: l => f a;; forM f l
  end.

(** [for ; cond(r); r++ { body }] on a byte counter, which wraps around: after
    [byteFuel] iterations the counter is back where it started, and a loop that
    is still running reports [out_of_fuel], an outcome no other statement has. *)
Definition byteFuel : nat := 256.
Definition out_of_fuel : string := "out of fuel".

Fixpoint byteFor {S A} (fuel : nat) (cond : Z -> bool) (body : A -> Z -> M S A) (acc : A) (r : Z) : M S A :=
  if cond r then
    match fuel with
    | O => panic out_of_fuel
    | Datatypes.S fuel => acc' ← body acc r; byteFor fuel cond body acc' ((r + 1) mod 2 ^ 8)
    end
  else mret acc.

(** Run an operation of a component held inside a larger state. *)
Definition zoom {S T A} (getT : S -> T) (putT : T -> S -> S) (m : M T A) : M S A :=
  fun w =>
    let '(o, w') := m (mkWorld (w_tick w) (getT (w_st w))) in
    (o, mkWorld (w_tick w') (putT (w_st w') (w_st w))).

(** * The Go runtime

    The clock ([time.Now().UnixNano()]), the order in which [range] visits the
    entries of a map, and [math/rand]. *)
Class GoRuntime := {
  Now : nat -> Z;
  map_order : nat -> forall A : Type, list A -> list A;
  rand_Intn : nat -> Z -> Z;
  map_order_perm : forall t A (l : list A), map_order t A l ≡ₚ l;
  rand_Intn_range : forall t n, 0 < n -> 0 <= rand_Intn t n < n;
}.

(** A runtime that visits maps in key order, or in the reverse order. *)
Definition steadyRuntime : GoRuntime :=
  {| Now := fun t => Z.of_nat t; map_order := fun _ _ l => l; rand_Intn := fun _ _ => 0;
     map_order_perm := fun _ _ l => Permutation_refl l;
     rand_Intn_range := fun _ n Hn => conj (Z.le_refl 0) Hn |}.

Definition reverseRuntime : GoRuntime :=
  {| Now := fun t => Z.of_nat t; map_order := fun _ _ l => reverse l; rand_Intn := fun _ _ => 0;
     map_order_perm := fun _ _ l => reverse_Permutation l;
     rand_Intn_range := fun _ n Hn => conj (Z.le_refl 0) Hn |}.

Definition time_Now {S} `{GoRuntime} : M S Z := ext Now.

(** The entries of a map in the order one [range] statement visits them. *)
Definition range {S K V} `{GoRuntime} `{Countable K} (m : gmap K V) : M S (list (K * V)) :=
  ext (fun t => map_order t _ (map_to_list m)).

(** * Weakest preconditions *)

Definition wp {S A} (m : M S A) (Q : outcome A -> World S -> Prop) (w : World S) : Prop :=
  let '(o, w') := m w in Q o w'.

(** The continuation of a bind, by cases on the outcome. *)
Definition wp_k {S A B} (k : A -> M S B) (Q : outcome B -> World S -> Prop)
  (o : outcome A) (w : World S) : Prop :=
  match o with
  | Ok a => wp (k a) Q w
  | Fail e => Q (Fail e) w
  | Panic p => Q (Panic p) w
  end.

Section wp_rules.
Context {S : Type}.
Implicit Types w : World S.

Lemma wp_mono {A} (m : M S A) (P Q : outcome A -> World S -> Prop) w :
  wp m P w -> (forall o w', P o w' -> Q o w') -> wp m Q w.
Proof. unfold wp. destruct (m w). auto. Qed.

Lemma wp_conj {A} (m : M S A) (P Q : outcome A -> World S -> Prop) w :
  wp m P w -> wp m Q w -> wp m (fun o w' => P o w' /\ Q o w') w.
Proof. unfold wp. destruct (m w). auto. Qed.

Lemma wp_bind {A B} (m : M S A) (k : A -> M S B) Q w :
  wp m (wp_k k Q) w -> wp (m ≫= k) Q w.
Proof.
  unfold wp, mbind, M_bind, wp_k. destruct (m w) as [[] ?]; auto.
Qed.

Lemma wp_fmap {A B} (m : M S A) (f : A -> B) Q w :
  wp m (wp_k (fun a => mret (f a)) Q) w -> wp (f <$> m) Q w.
Proof. apply wp_bind. Qed.

Lemma wp_bind_inv {A B} (m : M S A) (k : A -> M S B) Q w :
  wp (m ≫= k) Q w -> wp m (wp_k k Q) w.
Proof.
  unfold wp, mbind, M_bind, wp_k. destruct (m w) as [[] ?]; auto.
Qed.

Lemma wp_ret {A} (a : A) (Q : outcome A -> World S -> Prop) w : Q (Ok a) w -> wp (mret a) Q w.
Proof. auto. Qed.
Lemma wp_fail {A} e (Q : outcome A -> World S -> Prop) w : Q (Fail e) w -> wp (fail e) Q w.
Proof. auto. Qed.
Lemma wp_panic {A} e (Q : outcome A -> World S -> Prop) w : Q (Panic e) w -> wp (panic e) Q w.
Proof. auto. Qed.
Lemma wp_get (Q : outcome S -> World S -> Prop) w : Q (Ok (w_st w)) w -> wp get Q w.
Proof. auto. Qed.
Lemma wp_gets {A} (f : S -> A) (Q : outcome A -> World S -> Prop) w :
  Q (Ok (f (w_st w))) w -> wp (gets f) Q w.
Proof. auto. Qed.
Lemma wp_modify f (Q : outcome unit -> World S -> Prop) w :
  Q (Ok ()) (mkWorld (w_tick w) (f (w_st w))) -> wp (modify f) Q w.
Proof. auto. Qed.
Lemma wp_lift {A} (o : outcome A) (Q : outcome A -> World S -> Prop) w : Q o w -> wp (lift o) Q w.
Proof. auto. Qed.

(** An oracle may answer anything. *)
Lemma wp_ext {A} (f : nat -> A) (Q : outcome A -> World S -> Prop) w :
  (forall a, Q (Ok a) (mkWorld (Datatypes.S (w_tick w)) (w_st w))) -> wp (ext f) Q w.
Proof. unfold wp, ext. auto. Qed.

Lemma wp_time_Now `{GoRuntime} (Q : outcome Z -> World S -> Prop) w :
  (forall t, Q (Ok t) (mkWorld (Datatypes.S (w_tick w)) (w_st w))) -> wp time_Now Q w.
Proof. apply wp_ext. Qed.

(** [range] visits every entry once, in some order. *)
Lemma wp_range `{GoRuntime} {K V} `{Countable K} (m : gmap K V)
    (Q : outcome (list (K * V)) -> World S -> Prop) w :
  (forall l, l ≡ₚ map_to_list m -> Q (Ok l) (mkWorld (Datatypes.S (w_tick w)) (w_st w))) ->
  wp (range m) Q w.
Proof. intros HQ. unfold wp, range, ext. apply HQ, map_order_perm. Qed.

Lemma wp_must {A} why (o : option A) (Q : outcome A -> World S -> Prop) w :
  match o with Some a => Q (Ok a) w | None => Q (Panic why) w end -> wp (must why o) Q w.
Proof. destruct o; auto. Qed.

Lemma wp_try {A} (m : M S A) (Q : outcome (A + error) -> World S -> Prop) w :
  wp m (fun o w' => match o with
                    | Ok a => Q (Ok (inl a)) w'
                    | Fail e => Q (Ok (inr e)) w'
                    | Panic p => Q (Panic p) w'
                    end) w ->
  wp (try_ m) Q w.
Proof. unfold wp, try_. destruct (m w) as [[] ?]; auto. Qed.

Lemma wp_ignore {A} (m : M S A) (Q : outcome unit -> World S -> Prop) w :
  wp m (fun o w' => match o with Panic p => Q (Panic p) w' | _ => Q (Ok ()) w' end) w ->
  wp (ignore m) Q w.
Proof.
  intros Hm. unfold ignore. apply wp_bind, wp_try.
  eapply wp_mono; [exact Hm|]. intros [] ?; auto.
Qed.

Lemma wp_when (b : bool) (m : M S unit) Q w :
  (b = true -> wp m Q w) -> (b = false -> Q (Ok ()) w) -> wp (when b m) Q w.
Proof. destruct b; unfold when; auto using wp_ret. Qed.

Lemma wp_fail_if (b : bool) e (Q : outcome unit -> World S -> Prop) w :
  (b = true -> Q (Fail e) w) -> (b = false -> Q (Ok ()) w) -> wp (fail_if b e) Q w.
Proof. destruct b; unfold fail_if; auto using wp_ret, wp_fail. Qed.

Lemma wp_zoom {T A} (getT : S -> T) (putT : T -> S -> S) (m : M T A) Q w :
  wp m (fun o (w' : World T) => Q o (mkWorld (w_tick w') (putT (w_st w') (w_st w))))
     (mkWorld (w_tick w) (getT (w_st w))) ->
  wp (zoom getT putT m) Q w.
Proof. unfold wp, zoom. destruct (m _). auto. Qed.

(** Loop rule: an invariant over the part of the slice visited so far; the
    postcondition is also met on every early exit. *)
Lemma wp_foldM {A B} (f : B -> A -> M S B) (I : list A -> B -> World S -> Prop)
    (Q : outcome B -> World S -> Prop) l acc w :
  I [] acc w ->
  (forall dn a rest acc w, l = dn ++ a :: rest -> I dn acc w ->
     wp (f acc a) (fun o w' => match o with Ok b => I (dn ++ [a]) b w' | Fail e => Q (Fail e) w'
                               | Panic p => Q (Panic p) w' end) w) ->
  (forall acc w, I l acc w -> Q (Ok acc) w) ->
  wp (foldM f acc l) Q w.
Proof.
  intros HI Hf HQ.
  enough (Hgen : forall l' dn acc w, l = dn ++ l' -> I dn acc w -> wp (foldM f acc l') Q w)
    by (by apply (Hgen l [])).
  clear acc w HI. induction l' as [|a l' IH]; intros dn acc w Hl HI; simpl.
  { apply wp_ret, HQ. by rewrite Hl, app_nil_r. }
  apply wp_bind. eapply wp_mono; [by eapply Hf|].
  intros [b|e|p] w'; simpl; auto. intros HI'.
  apply (IH (dn ++ [a])); [by rewrite <- app_assoc|done].
Qed.

Lemma wp_forM {A} (f : A -> M S unit) (I : World S -> Prop)
    (Q : outcome unit -> World S -> Prop) l : forall w,
  I w ->
  (forall a w, a ∈ l -> I w ->
     wp (f a) (fun o w' => match o with Ok _ => I w' | Fail e => Q (Fail e) w'
                           | Panic p => Q (Panic p) w' end) w) ->
  (forall w, I w -> Q (Ok ()) w) ->
  wp (forM f l) Q w.
Proof.
  induction l as [|a l IH]; intros w HI Hf HQ; simpl; [by apply wp_ret, HQ|].
  apply wp_bind. eapply wp_mono; [apply Hf; [left|exact HI]|].
  intros [b|e|p] w'; simpl; auto. intros HI'.
  apply IH; auto. intros. apply Hf; auto. by right.
Qed.

(** Loop rule for byte counters; running out of fuel is an outcome of its own. *)
Lemma wp_byteFor {A} cond (body : A -> Z -> M S A) (I : A -> Z -> World S -> Prop)
    (Q : outcome A -> World S -> Prop) : forall fuel acc r w,
  I acc r w ->
  (forall acc r w, cond r = true -> I acc r w ->
     wp (body acc r) (fun o w' => match o with Ok a => I a ((r + 1) mod 2 ^ 8) w' | Fail e => Q (Fail e) w'
                                  | Panic p => Q (Panic p) w' end) w) ->
  (forall acc r w, cond r = false -> I acc r w -> Q (Ok acc) w) ->
  (forall acc r w, cond r = true -> I acc r w -> Q (Panic out_of_fuel) w) ->
  wp (byteFor fuel cond body acc r) Q w.
Proof.
  induction fuel as [|fuel IH]; intros acc r w HI Hb HQ Hf; simpl; destruct (cond r) eqn:Hc;
    try (by eapply wp_ret, HQ); [by eapply wp_panic, Hf|].
  apply wp_bind. eapply wp_mono; [by apply Hb|]. intros [a|e|p] w' Hw'; simpl; auto.
Qed.
End wp_rules.

(** One symbolic execution step on a [wp] goal: the next statement of the
    computation is run, its result substituted in the continuation. *)
Ltac wp_prim :=
  lazymatch goal with
  | |- wp (mret _) _ _ => apply wp_ret
  | |- wp (fail _) _ _ => apply wp_fail
  | |- wp (panic _) _ _ => apply wp_panic
  | |- wp get _ _ => apply wp_get
  | |- wp (gets _) _ _ => apply wp_gets
  | |- wp (modify _) _ _ => apply wp_modify
  | |- wp (lift _) _ _ => apply wp_lift
  | |- wp time_Now _ _ => apply wp_time_Now; intros ?
  | |- wp (range _) _ _ => apply wp_range; intros ? ?
  | |- wp (must _ ?o) _ _ => apply wp_must; destruct o eqn:?
  | |- wp (try_ _) _ _ => apply wp_try
  | |- wp (ignore _) _ _ => apply wp_ignore
  | |- wp (when _ _) _ _ => apply wp_when; intros ?
  | |- wp (fail_if _ _) _ _ => apply wp_fail_if; intros ?
  | |- wp (ext _) _ _ => apply wp_ext; intros ?
  | |- wp (if ?b then _ else _) _ _ => destruct b eqn:?
  | |- wp (match ?o with _ => _ end) _ _ => destruct o eqn:?
  | |- wp (let '_ := ?o in _) _ _ => destruct o eqn:?
  end.

Ltac wp_norm :=
  repeat lazymatch goal with
  | |- wp_k _ _ (Ok _) _ => unfold wp_k at 1
  | |- wp_k _ _ (Fail _) _ => unfold wp_k at 1
  | |- wp_k _ _ (Panic _) _ => unfold wp_k at 1
  | |- wp (_ ≫= _) _ _ => apply wp_bind
  | |- wp (_ <$> _) _ _ => apply wp_fmap
  end; cbn beta iota.

Ltac wp_step := wp_norm; wp_prim; wp_norm.

Ltac wp_steps := repeat wp_step.

(** Comparisons of integers that hold or fail, as propositions. *)
Ltac b2p :=
  repeat match goal with
  | H : Z.ltb _ _ = true |- _ => apply Z.ltb_lt in H
  | H : Z.ltb _ _ = false |- _ => apply Z.ltb_ge in H
  | H : Z.leb _ _ = true |- _ => apply Z.leb_le in H
  | H : Z.leb _ _ = false |- _ => apply Z.leb_gt in H
  | H : Z.eqb _ _ = true |- _ => apply Z.eqb_eq in H
  | H : Z.eqb _ _ = false |- _ => apply Z.eqb_neq in H
  | H : _ && _ = true |- _ => apply andb_true_iff in H as [? ?]
  | H : _ && _ = false |- _ => apply andb_false_iff in H as [?|?]
  | H : _ || _ = true |- _ => apply orb_true_iff in H as [?|?]
  | H : _ || _ = false |- _ => apply orb_false_iff in H as [? ?]
  | H : negb _ = true |- _ => apply negb_true_iff in H
  | H : negb _ = false |- _ => apply negb_false_iff in H
  end.

(** Run a statement whose behaviour is given by the [wp] lemma [H]. *)
Tactic Notation "wp_use" uconstr(H) := wp_norm; eapply wp_mono; [apply H|].

(** A computation keeps a state predicate. *)
Definition preserves {S A} (P : S -> Prop) (m : M S A) : Prop :=
  forall w, P (w_st w) -> wp m (fun _ w' => P (w_st w')) w.

(** [preserves P] is compositional; the hint database runs through a
    computation and leaves the writes ([modify]) to prove. *)
Create HintDb preserves.

Section preserves.
Context {S : Type} (P : S -> Prop).

Lemma preserves_ret {A} (a : A) : preserves P (mret a).
Proof. by intros w. Qed.
Lemma preserves_fail {A} e : preserves P (fail e : M S A).
Proof. by intros w. Qed.
Lemma preserves_panic {A} e : preserves P (panic e : M S A).
Proof. by intros w. Qed.
Lemma preserves_get : preserves P get.
Proof. by intros w. Qed.
Lemma preserves_gets {A} (f : S -> A) : preserves P (gets f).
Proof. by intros w. Qed.
Lemma preserves_ext {A} (f : nat -> A) : preserves P (ext f).
Proof. by intros w. Qed.
Lemma preserves_lift {A} (o : outcome A) : preserves P (lift o).
Proof. by intros w. Qed.
Lemma preserves_must {A} why (o : option A) : preserves P (must why o).
Proof. by destruct o; intros w. Qed.
Lemma preserves_range `{GoRuntime} {K V} `{Countable K} (m : gmap K V) : preserves P (range m).
Proof. apply preserves_ext. Qed.
Lemma preserves_time_Now `{GoRuntime} : preserves P time_Now.
Proof. apply preserves_ext. Qed.
Lemma preserves_modify f : (forall s, P s -> P (f s)) -> preserves P (modify f).
Proof. intros Hf w Hw. by apply Hf. Qed.
Lemma preserves_bind {A B} (m : M S A) (k : A -> M S B) :
  preserves P m -> (forall a, preserves P (k a)) -> preserves P (m ≫= k).
Proof.
  intros Hm Hk w Hw. apply wp_bind. eapply wp_mono; [by apply Hm|].
  intros [a|e|p] w' Hw'; simpl; [by apply Hk|done|done].
Qed.
Lemma preserves_fmap {A B} (m : M S A) (f : A -> B) : preserves P m -> preserves P (f <$> m).
Proof. intros Hm. apply preserves_bind; [done|]. intros. apply preserves_ret. Qed.
Lemma preserves_try {A} (m : M S A) : preserves P m -> preserves P (try_ m).
Proof. intros Hm w Hw. apply wp_try. eapply wp_mono; [by apply Hm|]. by intros []. Qed.
Lemma preserves_ignore {A} (m : M S A) : preserves P m -> preserves P (ignore m).
Proof. intros Hm w Hw. apply wp_ignore. eapply wp_mono; [by apply Hm|]. by intros []. Qed.
Lemma preserves_when b m : preserves P m -> preserves P (when b m).
Proof. intros Hm. by destruct b; [|apply preserves_ret]. Qed.
Lemma preserves_fail_if b e : preserves P (fail_if b e).
Proof. destruct b; [apply preserves_fail|apply preserves_ret]. Qed.
Lemma preserves_if {A} (b : bool) (m m' : M S A) :
  preserves P m -> preserves P m' -> preserves P (if b then m else m').
Proof. by destruct b. Qed.
Lemma preserves_foldM {A B} (f : B -> A -> M S B) l : (forall b a, preserves P (f b a)) ->
  forall acc, preserves P (foldM f acc l).
Proof.
  intros Hf. induction l as [|a l IH]; intros acc; simpl; [apply preserves_ret|].
  apply preserves_bind; auto.
Qed.
Lemma preserves_forM {A} (f : A -> M S unit) l : (forall a, preserves P (f a)) -> preserves P (forM f l).
Proof.
  intros Hf. induction l as [|a l IH]; simpl; [apply preserves_ret|]. apply preserves_bind; auto.
Qed.
Lemma preserves_byteFor {A} cond (body : A -> Z -> M S A) : (forall a r, preserves P (body a r)) ->
  forall fuel acc r, preserves P (byteFor fuel cond body acc r).
Proof.
  intros Hb. induction fuel as [|fuel IH]; intros acc r; simpl; (destruct (cond r); [|apply preserves_ret]).
  - apply preserves_panic.
  - apply preserves_bind; auto.
Qed.
Lemma preserves_run {A} (m : M S A) w : preserves P m -> P (w_st w) -> P (w_st (snd (m w))).
Proof. intros Hm Hw. specialize (Hm w Hw). unfold wp in Hm. by destruct (m w). Qed.
End preserves.

#[export] Hint Resolve preserves_ret preserves_fail preserves_panic preserves_get preserves_gets
  preserves_ext preserves_lift preserves_must preserves_range preserves_time_Now preserves_bind
  preserves_fmap preserves_try preserves_ignore preserves_when preserves_fail_if preserves_if
  preserves_foldM preserves_forM preserves_byteFor : preserves.

(** Decompose a [preserves] goal; the leaves that remain are calls and writes. *)
Ltac preserves_steps :=
  repeat first
    [ progress cbn beta
    | lazymatch goal with
      | |- forall _, preserves _ _ => intros ?
      | |- forall _ _, preserves _ _ => intros ? ?
      | |- preserves _ (mret _) => apply preserves_ret
      | |- preserves _ (fail _) => apply preserves_fail
      | |- preserves _ (panic _) => apply preserves_panic
      | |- preserves _ get => apply preserves_get
      | |- preserves _ (gets _) => apply preserves_gets
      | |- preserves _ (ext _) => apply preserves_ext
      | |- preserves _ (lift _) => apply preserves_lift
      | |- preserves _ (must _ _) => apply preserves_must
      | |- preserves _ (range _) => apply preserves_range
      | |- preserves _ time_Now => apply preserves_time_Now
      | |- preserves _ (modify _) => apply preserves_modify
      | |- preserves _ (_ ≫= _) => apply preserves_bind
      | |- preserves _ (_ <$> _) => apply preserves_fmap
      | |- preserves _ (try_ _) => apply preserves_try
      | |- preserves _ (ignore _) => apply preserves_ignore
      | |- preserves _ (when _ _) => apply preserves_when
      | |- preserves _ (fail_if _ _) => apply preserves_fail_if
      | |- preserves _ (foldM _ _ _) => apply preserves_foldM
      | |- preserves _ (forM _ _) => apply preserves_forM
      | |- preserves _ (byteFor _ _ _ _ _) => apply preserves_byteFor
      | |- preserves _ (if _ then _ else _) => apply preserves_if
      | |- preserves _ (match ?x with _ => _ end) => destruct x
      | |- preserves _ (let '_ := ?x in _) => destruct x
      end
    | solve [auto with preserves] ].

(** [safe P Q m]: from a state with [P] the computation keeps [P] and panics only
    for the reasons [Q]. *)
Definition safe {S A} (P : S -> Prop) (Q : string -> Prop) (m : M S A) : Prop :=
  forall w, P (w_st w) -> wp m (fun o w' => P (w_st w') /\ match o with Panic p => Q p | _ => True end) w.

Create HintDb safe.

Section safe.
Context {S : Type} (P : S -> Prop) (Q : string -> Prop).

Lemma safe_ret {A} (a : A) : safe P Q (mret a).
Proof. by intros w. Qed.
Lemma safe_fail {A} e : safe P Q (fail e : M S A).
Proof. by intros w. Qed.
Lemma safe_panic {A} e : Q e -> safe P Q (panic e : M S A).
Proof. by intros HQ w. Qed.
Lemma safe_get : safe P Q get.
Proof. by intros w. Qed.
Lemma safe_gets {A} (f : S -> A) : safe P Q (gets f).
Proof. by intros w. Qed.
Lemma safe_ext {A} (f : nat -> A) : safe P Q (ext f).
Proof. by intros w. Qed.
Lemma safe_lift {A} (o : outcome A) : (forall p, o = Panic p -> Q p) -> safe P Q (lift o).
Proof. intros HQ w Hw. split; [done|]. destruct o; auto. Qed.
Lemma safe_must {A} why (o : option A) : (o = None -> Q why) -> safe P Q (must why o).
Proof. intros HQ w Hw. destruct o; split; simpl; auto. Qed.
Lemma safe_range `{GoRuntime} {K V} `{Countable K} (m : gmap K V) : safe P Q (range m).
Proof. apply safe_ext. Qed.
Lemma safe_time_Now `{GoRuntime} : safe P Q time_Now.
Proof. apply safe_ext. Qed.
Lemma safe_modify f : (forall s, P s -> P (f s)) -> safe P Q (modify f).
Proof. intros Hf w Hw. split; [by apply Hf|done]. Qed.
Lemma safe_bind {A B} (m : M S A) (k : A -> M S B) :
  safe P Q m -> (forall a, safe P Q (k a)) -> safe P Q (m ≫= k).
Proof.
  intros Hm Hk w Hw. apply wp_bind. eapply wp_mono; [by apply Hm|].
  intros [a|e|p] w' [Hw' Hp]; simpl; [by apply Hk|done|done].
Qed.
Lemma safe_bind_ret {A B} (a : A) (k : A -> M S B) : safe P Q (k a) -> safe P Q (mret a ≫= k).
Proof. intros Hk w Hw. apply wp_bind, wp_ret. by apply Hk. Qed.
Lemma safe_bind_fail {A B} e (k : A -> M S B) : safe P Q (fail e ≫= k).
Proof. by intros w. Qed.
Lemma safe_bind_gets {A B} (f : S -> A) (k : A -> M S B) :
  (forall s, P s -> safe P Q (k (f s))) -> safe P Q (gets f ≫= k).
Proof. intros Hk w Hw. apply wp_bind, wp_gets. by apply (Hk (w_st w)). Qed.
Lemma safe_bind_get {B} (k : S -> M S B) : (forall s, P s -> safe P Q (k s)) -> safe P Q (get ≫= k).
Proof. intros Hk w Hw. apply wp_bind, wp_get. by apply (Hk (w_st w)). Qed.
Lemma safe_fmap {A B} (m : M S A) (f : A -> B) : safe P Q m -> safe P Q (f <$> m).
Proof. intros Hm. apply safe_bind; [done|]. intros. apply safe_ret. Qed.
Lemma safe_try {A} (m : M S A) : safe P Q m -> safe P Q (try_ m).
Proof. intros Hm w Hw. apply wp_try. eapply wp_mono; [by apply Hm|]. by intros []. Qed.
Lemma safe_ignore {A} (m : M S A) : safe P Q m -> safe P Q (ignore m).
Proof. intros Hm w Hw. apply wp_ignore. eapply wp_mono; [by apply Hm|]. intros [] ? [? ?]; by split. Qed.
Lemma safe_when b m : (b = true -> safe P Q m) -> safe P Q (when b m).
Proof. intros Hm. destruct b; [by apply Hm|apply safe_ret]. Qed.
Lemma safe_fail_if b e : safe P Q (fail_if b e).
Proof. destruct b; [apply safe_fail|apply safe_ret]. Qed.
Lemma safe_foldM {A B} (f : B -> A -> M S B) l : (forall b a, a ∈ l -> safe P Q (f b a)) ->
  forall acc, safe P Q (foldM f acc l).
Proof.
  induction l as [|a l IH]; intros Hf acc; simpl; [apply safe_ret|].
  apply safe_bind; [apply Hf; by left|]. intros. apply IH. intros. apply Hf. by right.
Qed.
Lemma safe_forM {A} (f : A -> M S unit) l : (forall a, a ∈ l -> safe P Q (f a)) -> safe P Q (forM f l).
Proof.
  induction l as [|a l IH]; intros Hf; simpl; [apply safe_ret|].
  apply safe_bind; [apply Hf; by left|]. intros. apply IH. intros. apply Hf. by right.
Qed.
Lemma safe_preserves {A} (m : M S A) : safe P Q m -> preserves P m.
Proof. intros Hm w Hw. eapply wp_mono; [by apply Hm|]. by intros o w' [? _]. Qed.
End safe.

(** Decompose a [safe] goal; what remains are calls, writes and possible panics. *)
Ltac safe_steps :=
  repeat first
    [ progress cbn beta
    | lazymatch goal with
      | |- forall _, safe _ _ _ => intros ?
      | |- forall _ _, safe _ _ _ => intros ? ?
      | |- forall _, _ -> safe _ _ _ => intros ? ?
      | |- forall _ _, _ -> safe _ _ _ => intros ? ? ?
      | |- _ = true -> safe _ _ _ => intros ?
      | |- safe _ _ (mret _) => apply safe_ret
      | |- safe _ _ (fail _) => apply safe_fail
      | |- safe _ _ (panic _) => apply safe_panic
      | |- safe _ _ get => apply safe_get
      | |- safe _ _ (gets _) => apply safe_gets
      | |- safe _ _ (ext _) => apply safe_ext
      | |- safe _ _ (lift _) => first [solve [auto with safe] | apply safe_lift]
      | |- safe _ _ (must _ _) => apply safe_must
      | |- safe _ _ (range _) => apply safe_range
      | |- safe _ _ time_Now => apply safe_time_Now
      | |- safe _ _ (modify _) => apply safe_modify
      | |- safe _ _ (mret _ ≫= _) => apply safe_bind_ret
      | |- safe _ _ (fail _ ≫= _) => apply safe_bind_fail
      | |- safe _ _ (gets _ ≫= _) => apply safe_bind_gets; intros ? ?
      | |- safe _ _ (get ≫= _) => apply safe_bind_get; intros ? ?
      | |- safe _ _ (_ ≫= _) => apply safe_bind
      | |- safe _ _ (_ <$> _) => apply safe_fmap
      | |- safe _ _ (try_ _) => apply safe_try
      | |- safe _ _ (ignore _) => apply safe_ignore
      | |- safe _ _ (when _ _) => apply safe_when
      | |- safe _ _ (fail_if _ _) => apply safe_fail_if
      | |- safe _ _ (foldM _ _ _) => apply safe_foldM
      | |- safe _ _ (forM _ _) => apply safe_forM
      | |- safe _ _ (if ?b then _ else _) => destruct b eqn:?
      | |- safe _ _ (match ?x with _ => _ end) => destruct x eqn:?
      | |- safe _ _ (let '_ := ?x in _) => destruct x eqn:?
      end
    | solve [auto with safe] ].

(** The state after a computation, and its outcome. *)
Definition exec {S A} (m : M S A) (w : World S) : S := w_st (snd (m w)).
Definition out {S A} (m : M S A) (w : World S) : outcome A := fst (m w).

Lemma wp_exec {S A} (m : M S A) w (P : outcome A -> S -> Prop) :
  wp m (fun o w' => P o (w_st w')) w <-> P (out m w) (exec m w).
Proof. unfold wp, exec, out. by destruct (m w). Qed.

Lemma wp_run {S A} (m : M S A) w Q : wp m Q w <-> Q (out m w) (snd (m w)).
Proof. unfold wp, out. by destruct (m w). Qed.

Lemma wp_out {S A} (m : M S A) w Q : wp m Q w -> wp m (fun o w' => Q o w' /\ o = out m w) w.
Proof. unfold wp, out. by destruct (m w). Qed.

Lemma preserves_exec {S A} (P : S -> Prop) (m : M S A) w :
  preserves P m -> P (w_st w) -> P (exec m w).
Proof. intros Hp HP. by apply (wp_exec m w (fun _ s => P s)), Hp. Qed.

(** Computations that neither read nor change the world. *)
Definition pureM {S A} (m : M S A) : Prop := exists o, forall w, m w = (o, w).

Create HintDb pureM.

Section pureM.
Context {S : Type}.

Lemma pureM_ret {A} (a : A) : pureM (mret a : M S A).
Proof. by exists (Ok a). Qed.
Lemma pureM_fail {A} e : pureM (fail e : M S A).
Proof. by exists (Fail e). Qed.
Lemma pureM_must {A} why (o : option A) : pureM (must why o : M S A).
Proof. destruct o as [a|]; [by exists (Ok a)|by exists (Panic why)]. Qed.
Lemma pureM_fail_if b e : pureM (fail_if b e : M S unit).
Proof. destruct b; [by exists (Fail e)|by exists (Ok ())]. Qed.

Lemma pureM_bind {A B} (m : M S A) (k : A -> M S B) :
  pureM m -> (forall a, pureM (k a)) -> pureM (m ≫= k).
Proof.
  intros [o Ho] Hk. unfold mbind, M_bind. destruct o as [a|e|p].
  - destruct (Hk a) as [o' Ho']. exists o'. intros w. by rewrite Ho.
  - exists (Fail e). intros w. by rewrite Ho.
  - exists (Panic p). intros w. by rewrite Ho.
Qed.

Lemma pureM_foldM {A B} (f : B -> A -> M S B) l : (forall b a, pureM (f b a)) ->
  forall acc, pureM (foldM f acc l).
Proof.
  intros Hf. induction l as [|a l IH]; intros acc; simpl; [apply pureM_ret|].
  apply pureM_bind; auto.
Qed.

Lemma pureM_out {A} (m : M S A) w w' : pureM m -> out m w = out m w'.
Proof. intros [o Ho]. unfold out. by rewrite !Ho. Qed.

Lemma pureM_wp {A} (m : M S A) w w0 Q :
  pureM m -> Q (out m w0) w -> wp m Q w.
Proof. intros [o Ho]. unfold wp, out. by rewrite !Ho. Qed.
End pureM.

#[export] Hint Resolve pureM_ret pureM_fail pureM_must pureM_fail_if pureM_bind pureM_foldM : pureM.

(** * Record update

    [r <| f := v |>] replaces one field.  The setter of a field is derived from
    the eta expansion of the record by abstracting the projection. *)
Class Eta (R : Type) := eta : R -> R.
Class Setter {R T : Type} (p : R -> T) := upd : (T -> T) -> R -> R.
Arguments upd {R T} p {_} f r.

Ltac derive_setter :=
  match goal with
  | |- @Setter ?R ?T ?p =>
      let inst := constr:(_ : Eta R) in
      let e := eval hnf in (inst : R -> R) in
      let pe := eval pattern p in e in
      match pe with
      | ?F p => let t := eval cbv beta in (fun (f : T -> T) => F (fun r => f (p r))) in exact t
      end
  end.

Notation "r <| p := v |>" := (upd p (fun _ => v) r)
  (at level 1, left associativity, p at level 0, v at level 60, format "r <| p  :=  v |>") : go_scope.
Notation "r <| p ::= f |>" := (upd p f r)
  (at level 1, left associativity, p at level 0, f at level 60, format "r <| p  ::=  f |>") : go_scope.

(** * Machine integers *)

Definition u8 (z : Z) : Z := z mod 2 ^ 8.
Definition u64 (z : Z) : Z := z mod 2 ^ 64.

(** Two's complement reading of the low 64 bits. *)
Definition i64 (z : Z) : Z := (z + 2 ^ 63) mod 2 ^ 64 - 2 ^ 63.

Definition is_u8 (z : Z) : Prop := 0 <= z < 2 ^ 8.
Definition is_u64 (z : Z) : Prop := 0 <= z < 2 ^ 64.

Lemma u8_range z : is_u8 (u8 z).
Proof. apply Z.mod_pos_bound. lia. Qed.
Lemma u64_range z : is_u64 (u64 z).
Proof. apply Z.mod_pos_bound. lia. Qed.
Lemma u8_small z : is_u8 z -> u8 z = z.
Proof. apply Z.mod_small. Qed.
Lemma u64_small z : is_u64 z -> u64 z = z.
Proof. apply Z.mod_small. Qed.
Lemma i64_small z : - 2 ^ 63 <= z < 2 ^ 63 -> i64 z = z.
Proof. intros. unfold i64. rewrite Z.mod_small; lia. Qed.

(** * Bytes *)

#[export] Instance byte_eq_dec : EqDecision byte := Byte.byte_eq_dec.

Definition Zb (b : byte) : Z := Z.of_N (Byte.to_N b).
Definition bZ (z : Z) : byte := default Byte.x00 (Byte.of_N (Z.to_N (z mod 256))).

Lemma Zb_range b : 0 <= Zb b < 256.
Proof. unfold Zb. pose proof (Byte.to_N_bounded b). lia. Qed.

Lemma bZ_Zb b : bZ (Zb b) = b.
Proof.
  unfold bZ. rewrite Z.mod_small by apply Zb_range. unfold Zb.
  by rewrite N2Z.id, Byte.of_to_N.
Qed.

Lemma Zb_bZ z : Zb (bZ z) = z mod 256.
Proof.
  unfold bZ. pose proof (Z.mod_pos_bound z 256 ltac:(lia)) as Hb.
  destruct (Byte.of_N (Z.to_N (z mod 256))) as [b|] eqn:Hof; simpl.
  - unfold Zb. apply Byte.to_of_N in Hof. rewrite Hof. lia.
  - apply Byte.of_N_None_iff in Hof. lia.
Qed.

Lemma Zb_bZ_small z : 0 <= z < 256 -> Zb (bZ z) = z.
Proof. intros. by rewrite Zb_bZ, Z.mod_small. Qed.

Lemma Zb_inj b c : Zb b = Zb c -> b = c.
Proof. intros H. by rewrite <- (bZ_Zb b), H, bZ_Zb. Qed.

#[export] Instance byte_countable : Countable byte.
Proof.
  refine (inj_countable' (fun b => Byte.to_N b) (fun n => default Byte.x00 (Byte.of_N n)) _).
  intros b. by rewrite Byte.of_to_N.
Defined.

(** The bytes of a Go string literal. *)
Definition bytes_of_string (s : string) : list byte :=
  map (fun a => bZ (Z.of_nat (Ascii.nat_of_ascii a))) (String.list_ascii_of_string s).

(** [bytes.Compare]: lexicographic, a strict prefix is smaller. *)
Fixpoint bytes_Compare (a b : list byte) : comparison :=
  match a, b with
  | [], [] => Eq
  | [], _ :: _ => Lt
  | _ :: _, [] => Gt
  | x :: a, y :: b =>
      match Z.compare (Zb x) (Zb y) with
      | Eq => bytes_Compare a b
      | c => c
      end
  end.

Lemma bytes_Compare_refl a : bytes_Compare a a = Eq.
Proof. induction a as [|x a IH]; simpl; [done|]. by rewrite Z.compare_refl. Qed.

Lemma bytes_Compare_eq a : forall b, bytes_Compare a b = Eq <-> a = b.
Proof.
  induction a as [|x a IH]; intros [|y b]; simpl; try (split; congruence).
  destruct (Z.compare_spec (Zb x) (Zb y)) as [Heq|Hlt|Hgt].
  - apply Zb_inj in Heq as ->. rewrite IH. split; congruence.
  - split; [done|]. intros [= -> ->]. lia.
  - split; [done|]. intros [= -> ->]. lia.
Qed.

Lemma bytes_Compare_antisym a : forall b, bytes_Compare b a = CompOpp (bytes_Compare a b).
Proof.
  induction a as [|x a IH]; intros [|y b]; simpl; auto.
  rewrite Z.compare_antisym. destruct (Zb x ?= Zb y); simpl; auto.
Qed.

Definition bytes_le (a b : list byte) : Prop := bytes_Compare a b <> Gt.
#[export] Instance bytes_le_dec a b : Decision (bytes_le a b).
Proof. unfold bytes_le. apply _. Defined.

#[export] Instance bytes_le_refl : Reflexive bytes_le.
Proof. intros a. unfold bytes_le. by rewrite bytes_Compare_refl. Qed.

#[export] Instance bytes_le_total : Total bytes_le.
Proof.
  intros a b. unfold bytes_le. rewrite (bytes_Compare_antisym a b).
  destruct (bytes_Compare a b); simpl; auto; by left.
Qed.

#[export] Instance bytes_le_trans : Transitive bytes_le.
Proof.
  intros a. unfold bytes_le. induction a as [|x a IH]; intros [|y b] [|z c]; simpl; auto.
  destruct (Z.compare_spec (Zb x) (Zb y)), (Z.compare_spec (Zb y) (Zb z)),
    (Z.compare_spec (Zb x) (Zb z)); try congruence; try lia; eauto.
Qed.

#[export] Instance bytes_le_antisymm : AntiSymm (=) bytes_le.
Proof.
  intros a b. unfold bytes_le. rewrite (bytes_Compare_antisym a b).
  destruct (bytes_Compare a b) eqn:E; simpl; try congruence.
  intros _ _. by apply bytes_Compare_eq.
Qed.

Lemma filter_iff_in {A} (P Q : A -> Prop) `{forall x, Decision (P x)} `{forall x, Decision (Q x)} (l : list A) :
  (forall x, x ∈ l -> P x <-> Q x) -> filter P l = filter Q l.
Proof.
  induction l as [|x l IH]; intros Hl; [done|]. rewrite !filter_cons, IH by set_solver.
  pose proof (Hl x ltac:(set_solver)). destruct (decide (P x)), (decide (Q x)); naive_solver.
Qed.

(** [sort.Slice(l, less)] where [less x y] compares keys with [bytes.Compare]:
    the result is a sorted permutation (entries with equal keys in input order). *)
Definition sort_by_key {A} (key : A -> list byte) (l : list A) : list A :=
  merge_sort (fun x y => bytes_le (key x) (key y)) l.

Section sort_by_key.
Context {A : Type} (key : A -> list byte).

Lemma sort_by_key_perm l : sort_by_key key l ≡ₚ l.
Proof. apply merge_sort_Permutation. Qed.

Lemma sort_by_key_sorted l :
  StronglySorted (fun x y => bytes_le (key x) (key y)) (sort_by_key key l).
Proof.
  apply StronglySorted_merge_sort.
  - intros x y z. apply bytes_le_trans.
  - intros x y. apply bytes_le_total.
Qed.

(** Without key collisions the result does not depend on the input order. *)
Lemma sort_by_key_unique l1 l2 :
  (forall x y, x ∈ l1 -> y ∈ l1 -> key x = key y -> x = y) ->
  l1 ≡ₚ l2 -> sort_by_key key l1 = sort_by_key key l2.
Proof.
  intros Hinj Hp.
  pose proof (sort_by_key_sorted l1) as S1. pose proof (sort_by_key_sorted l2) as S2.
  assert (P12 : sort_by_key key l1 ≡ₚ sort_by_key key l2).
  { by rewrite !sort_by_key_perm. }
  assert (Hin : forall x, x ∈ sort_by_key key l1 -> x ∈ l1).
  { intros x. by rewrite sort_by_key_perm. }
  revert S1 S2 P12 Hin.
  generalize (sort_by_key key l1) as k1, (sort_by_key key l2) as k2.
  intros k1. induction k1 as [|x k1 IH]; intros k2 S1 S2 P12 Hin.
  { apply Permutation_nil_l in P12. done. }
  destruct k2 as [|y k2]; [by apply Permutation_nil_r in P12|].
  apply StronglySorted_inv in S1 as [S1 F1]. apply StronglySorted_inv in S2 as [S2 F2].
  assert (x = y) as <-.
  { apply Hinj; [apply Hin; by left| |].
    - apply Hin. rewrite P12. by left.
    - apply (anti_symm bytes_le).
      + assert (y ∈ x :: k1) as [->|Hy]%elem_of_cons by (rewrite P12; by left); [apply bytes_le_refl|].
        rewrite Forall_forall in F1. by apply F1.
      + assert (x ∈ y :: k2) as [->|Hx]%elem_of_cons by (rewrite <- P12; by left); [apply bytes_le_refl|].
        rewrite Forall_forall in F2. by apply F2. }
  f_equal. apply IH; auto; [by apply Permutation_cons_inv in P12|].
  intros. apply Hin. by right.
Qed.
End sort_by_key.

(** * Sums of integers over lists and maps *)

Definition zsum (l : list Z) : Z := foldr Z.add 0 l.

Lemma zsum_nil : zsum [] = 0.
Proof. done. Qed.
Lemma zsum_cons x l : zsum (x :: l) = x + zsum l.
Proof. done. Qed.
Lemma zsum_app l k : zsum (l ++ k) = zsum l + zsum k.
Proof. induction l as [|x l IH]; [done|]. rewrite <- app_comm_cons, !zsum_cons, IH. lia. Qed.
Lemma zsum_singleton x : zsum [x] = x.
Proof. unfold zsum. simpl. lia. Qed.

#[export] Instance zsum_perm : Proper ((≡ₚ) ==> (=)) zsum.
Proof. intros l k Hp. induction Hp; rewrite ?zsum_cons; unfold zsum in *; simpl; lia. Qed.

Lemma zsum_nonneg l : Forall (Z.le 0) l -> 0 <= zsum l.
Proof. induction 1; [done|]. rewrite zsum_cons. lia. Qed.

Create Rewrite HintDb zsum.
#[export] Hint Rewrite zsum_nil zsum_cons zsum_app zsum_singleton : zsum.

Lemma alter_Some {K V} `{Countable K} (f : V -> V) (m : gmap K V) k v : m !! k = Some v -> alter f k m = <[k := f v]> m.
Proof.
  intros Hk. apply map_eq. intros i. destruct (decide (i = k)) as [->|].
  - by rewrite lookup_alter_eq, lookup_insert_eq, Hk.
  - by rewrite lookup_alter_ne, lookup_insert_ne.
Qed.

(** The sum of [f] over a finite set of keys. *)
Definition sum_over {K} `{Countable K} (f : K -> Z) (X : gset K) : Z :=
  zsum (map f (elements X)).

Section sum_over.
Context {K : Type} `{Countable K}.
Implicit Types (f : K -> Z) (X Y : gset K).

Lemma sum_over_empty f : sum_over f ∅ = 0.
Proof. unfold sum_over. by rewrite elements_empty. Qed.

Lemma sum_over_union f X Y : X ## Y -> sum_over f (X ∪ Y) = sum_over f X + sum_over f Y.
Proof.
  intros Hd. unfold sum_over. rewrite <- zsum_app, <- map_app.
  apply zsum_perm, Permutation_map. by apply elements_disj_union.
Qed.

Lemma sum_over_singleton f x : sum_over f {[x]} = f x.
Proof. unfold sum_over. rewrite elements_singleton. apply zsum_singleton. Qed.

Lemma sum_over_nonneg f X : (forall x, x ∈ X -> 0 <= f x) -> 0 <= sum_over f X.
Proof.
  intros Hf. apply zsum_nonneg. rewrite Forall_forall. intros z Hz.
  apply list_elem_of_fmap in Hz as (x & -> & Hx). apply Hf. by apply elem_of_elements in Hx.
Qed.

Lemma sum_over_split f X Y : sum_over f X = sum_over f (X ∩ Y) + sum_over f (X ∖ Y).
Proof.
  rewrite <- sum_over_union by set_solver. f_equal.
  apply set_eq. intros x. destruct (decide (x ∈ Y)); set_solver.
Qed.

Lemma sum_over_subset f X Y :
  (forall x, x ∈ Y -> 0 <= f x) -> X ⊆ Y -> sum_over f X <= sum_over f Y.
Proof.
  intros Hf Hs. rewrite (sum_over_split f Y X).
  replace (Y ∩ X) with X by set_solver.
  pose proof (sum_over_nonneg f (Y ∖ X) ltac:(set_solver)). lia.
Qed.

(** Inclusion and exclusion: two subsets of [T] overlap in at least the
    excess of their weights over the weight of [T]. *)
Lemma sum_over_overlap f X Y T :
  (forall x, x ∈ T -> 0 <= f x) -> X ⊆ T -> Y ⊆ T ->
  sum_over f X + sum_over f Y - sum_over f T <= sum_over f (X ∩ Y).
Proof.
  intros Hf HX HY.
  assert (Hu : sum_over f (X ∪ Y) <= sum_over f T) by (apply sum_over_subset; set_solver).
  replace (X ∪ Y) with (X ∪ (Y ∖ X)) in Hu
    by (apply set_eq; intros x; destruct (decide (x ∈ X)); set_solver).
  rewrite sum_over_union in Hu by set_solver.
  rewrite (sum_over_split f Y X) . replace (Y ∩ X) with (X ∩ Y) by set_solver. lia.
Qed.
End sum_over.

(** * Deleting from a map while ranging over it *)

Section map_delete.
Context {K V : Type} `{Countable K}.
Implicit Types (m : gmap K V) (f : K -> V -> bool).

Lemma range_delete_lookup f (l : list (K * V)) m k :
  ((exists v, (k, v) ∈ l /\ f k v = false) ->
     foldl (fun m '(k, v) => if f k v then m else delete k m) m l !! k = None)
  /\ ((forall v, (k, v) ∈ l -> f k v = true) ->
     foldl (fun m '(k, v) => if f k v then m else delete k m) m l !! k = m !! k).
Proof.
  revert m. induction l as [|[k' v'] l IH]; intros m; simpl.
  { split; [|done]. by intros (v & []%not_elem_of_nil & _). }
  destruct (IH (if f k' v' then m else delete k' m)) as [IH1 IH2]. split.
  - intros (v & [[= <- <-]|Hin]%elem_of_cons & Hf); [|apply IH1; eauto].
    rewrite Hf in *. destruct (decide (Exists (fun kv => kv.1 = k /\ f kv.1 kv.2 = false) l)) as [He|Hn].
    + apply IH1. apply Exists_exists in He as ([? w] & Hin & Hk & Hw). simpl in *. subst. eauto.
    + rewrite IH2; [apply lookup_delete_eq|]. intros w Hw. apply not_false_is_true. intros Hfw.
      apply Hn, Exists_exists. exists (k, w). auto.
  - intros Hall. rewrite IH2 by (intros; apply Hall; by right).
    destruct (f k' v') eqn:Hf; [done|]. apply lookup_delete_ne. intros ->.
    rewrite Hall in Hf by (by left). done.
Qed.

Lemma range_delete_filter f (l : list (K * V)) m : l ≡ₚ map_to_list m ->
  foldl (fun m '(k, v) => if f k v then m else delete k m) m l = filter (fun kv => f kv.1 kv.2 = true) m.
Proof.
  intros Hl. apply map_eq. intros k. destruct (range_delete_lookup f l m k) as [H1 H2].
  rewrite map_lookup_filter. destruct (m !! k) as [v|] eqn:Hk; simpl.
  - assert (Hin : forall v', (k, v') ∈ l <-> v' = v).
    { intros v'. rewrite Hl, elem_of_map_to_list, Hk. split; congruence. }
    destruct (f k v) eqn:Hf.
    + rewrite option_guard_True by done. rewrite H2; [done|]. by intros v' ->%Hin.
    + rewrite option_guard_False by (simpl; congruence). apply H1. exists v. by rewrite Hin.
  - rewrite H2; [done|]. intros v. rewrite Hl, elem_of_map_to_list. congruence.
Qed.
End map_delete.

(** * Byte loops *)

Lemma seqZ_cons' r n : 0 < n -> seqZ r n = r :: seqZ (r + 1) (n - 1).
Proof. intros Hn. rewrite seqZ_cons by done. f_equal; lia. Qed.

(** A loop up to a bound below 255 runs over the bytes from [r] to the bound. *)
Lemma byteFor_le {S A} (body : A -> Z -> M S A) last : last < 255 -> forall fuel acc r w,
  0 <= r -> last - r < Z.of_nat fuel ->
  byteFor fuel (fun r => Z.leb r last) body acc r w = foldM body acc (seqZ r (last - r + 1)) w.
Proof.
  intros Hlast. induction fuel as [|fuel IH]; intros acc r w Hr Hf; simpl.
  - destruct (Z.leb_spec r last); [lia|]. by rewrite seqZ_nil by lia.
  - destruct (Z.leb_spec r last) as [Hle|Hgt]; [|by rewrite seqZ_nil by lia].
    rewrite seqZ_cons' by lia. simpl. unfold mbind, M_bind. destruct (body acc r w) as [[a|e|p] w']; try done.
    rewrite Z.mod_small by lia. rewrite IH by lia. do 2 f_equal. lia.
Qed.

Lemma byteFor_lt {S A} (body : A -> Z -> M S A) last : last <= 255 -> forall fuel acc r w,
  0 <= r -> last - r <= Z.of_nat fuel ->
  byteFor fuel (fun r => Z.ltb r last) body acc r w = foldM body acc (seqZ r (last - r)) w.
Proof.
  intros Hlast. induction fuel as [|fuel IH]; intros acc r w Hr Hf; simpl.
  - destruct (Z.ltb_spec r last); [lia|]. by rewrite seqZ_nil by lia.
  - destruct (Z.ltb_spec r last) as [Hle|Hgt]; [|by rewrite seqZ_nil by lia].
    rewrite seqZ_cons' by lia. simpl. unfold mbind, M_bind. destruct (body acc r w) as [[a|e|p] w']; try done.
    rewrite Z.mod_small by lia. rewrite IH by lia. do 2 f_equal. lia.
Qed.

(** Such loops end; they panic only when their body does. *)
Lemma safe_byteFor_le {S A} (P : S -> Prop) (Q : string -> Prop) (body : A -> Z -> M S A) last acc r :
  0 <= r -> last < 255 -> (forall a r, safe P Q (body a r)) ->
  safe P Q (byteFor byteFuel (fun r => Z.leb r last) body acc r).
Proof.
  intros Hr Hlast Hb w Hw. unfold wp. rewrite byteFor_le by (unfold byteFuel; lia).
  apply (safe_foldM P Q body); auto.
Qed.

Lemma safe_byteFor_lt {S A} (P : S -> Prop) (Q : string -> Prop) (body : A -> Z -> M S A) last acc r :
  0 <= r -> last <= 255 -> (forall a r, safe P Q (body a r)) ->
  safe P Q (byteFor byteFuel (fun r => Z.ltb r last) body acc r).
Proof.
  intros Hr Hlast Hb w Hw. unfold wp. rewrite byteFor_lt by (unfold byteFuel; lia).
  apply (safe_foldM P Q body); auto.
Qed.

(** A loop of checks that succeeds has checked every value of its counter. *)
Lemma byteFor_le_check {S} (body : unit -> Z -> M S unit) (C : Z -> Prop) last (w : World S) : last < 255 ->
  (forall r w', wp (body () r) (fun o w'' => w'' = w' /\ is_panic o = false /\ (o = Ok () -> C r)) w') ->
  wp (byteFor byteFuel (fun r => Z.leb r last) body () 1)
    (fun o w' => w' = w /\ is_panic o = false /\ (o = Ok () -> forall r, 1 <= r <= last -> C r)) w.
Proof.
  intros Hlast Hb. unfold wp. rewrite byteFor_le by (unfold byteFuel; lia).
  apply (wp_foldM body (fun dn _ w' => w' = w /\ Forall C dn)); [done|..].
  - intros dn r rest [] w' _ [-> Hdn]. eapply wp_mono; [apply Hb|]. intros [[]|e|p] w' (-> & Hp & HC); try done.
    split; [done|]. apply Forall_app. split; [done|]. constructor; [by apply HC|done].
  - intros [] w' [-> Hall]. split_and!; try done. intros _ r Hr. rewrite Forall_forall in Hall.
    apply Hall, elem_of_seqZ. lia.
Qed.

(** A loop up to 255 never ends: whatever the fuel, it runs out as long as the
    body succeeds. *)
Lemma byteFor_255 {S A} (body : A -> Z -> M S A) :
  (forall acc r, is_u8 r -> forall w, exists a w', body acc r w = (Ok a, w')) ->
  forall fuel acc r w, is_u8 r -> out (byteFor fuel (fun r => Z.leb r 255) body acc r) w = Panic out_of_fuel.
Proof.
  intros Hbody. unfold out. induction fuel as [|fuel IH]; intros acc r w Hr; simpl.
  - unfold is_u8 in Hr. by destruct (Z.leb_spec r 255); [|lia].
  - unfold is_u8 in Hr. destruct (Z.leb_spec r 255); [|lia]. unfold mbind, M_bind.
    destruct (Hbody acc r Hr w) as (a & w' & ->). apply IH. apply u8_range.
Qed.
