(* ===== verification/Common.v ===== *)
(** Package common: fixed-size byte arrays ([Hash], [Address]), big integers,
    little-endian integers, the length-prefixed pair of byte strings that carries
    a signature with its public key; and package crypto's use of Keccak-256.

    Models src/common/types.go, src/common/big.go, src/common/bytes.go,
    src/crypto/crypto.go and the packet type of src/eth/protocols/eth/protocol.go. *)

From S2P Require Import Prelude.
From Stdlib Require Import Strings.Byte.

(** * Slices whose nilness is observed *)

(** [None] is the nil slice; [len] of it is 0. *)
Abbreviation slice A := (option (list A)).
Definition data {A} (s : slice A) : list A := default [] s.
Definition len {A} (l : list A) : Z := Z.of_nat (length l).
(** [len] of a map. *)
Definition mlen {K V} `{Countable K} (m : gmap K V) : Z := Z.of_nat (size m).

(** * common.Hash and common.Address *)

Definition HashLength : nat := 32.
Definition AddressLength : nat := 32.

(** A [[n]byte] array. *)
Definition byteArray (n : nat) : Type := dsig (fun l : list byte => length l = n).

#[export] Instance byteArray_eq_dec n : EqDecision (byteArray n).
Proof. apply _. Defined.
#[export] Instance byteArray_countable n : Countable (byteArray n).
Proof. apply _. Defined.

(** [a[:]]. *)
Definition arr_bytes {n} (a : byteArray n) : list byte := proj1_sig a.

Lemma arr_bytes_length {n} (a : byteArray n) : length (arr_bytes a) = n.
Proof. exact (proj2_dsig a). Qed.

Lemma arr_bytes_inj {n} (a b : byteArray n) : arr_bytes a = arr_bytes b -> a = b.
Proof. intros. by apply dsig_eq. Qed.

Lemma SetBytes_length n (old b : list byte) :
  length old = n ->
  length (take (n - length (drop (length b - n) b)) old ++ drop (length b - n) b) = n.
Proof. intros. rewrite length_app, length_take, length_drop. lia. Qed.

(** [SetBytes]: crop [b] from the left, then copy it over the tail of the
    array; a shorter [b] leaves the leading bytes of the array in place. *)
Definition SetBytes {n} (a : byteArray n) (b : list byte) : byteArray n :=
  dexist (take (n - length (drop (length b - n) b)) (arr_bytes a) ++ drop (length b - n) b)
    (SetBytes_length n _ b (arr_bytes_length a)).

(** The zero value of the array type. *)
Definition arr_zero n : byteArray n := dexist (replicate n Byte.x00) (length_replicate n _).

Definition BytesToArr n (b : list byte) : byteArray n := SetBytes (arr_zero n) b.

Abbreviation Hash := (byteArray 32).
Abbreviation Address := (byteArray 32).
Definition BytesToHash (b : list byte) : Hash := BytesToArr HashLength b.
Definition BytesToAddress (b : list byte) : Address := BytesToArr AddressLength b.

Definition CopyFrom {n} (a from : byteArray n) : byteArray n := SetBytes a (arr_bytes from).

Definition IsEqualTo {n} (a b : byteArray n) : bool :=
  match bytes_Compare (arr_bytes a) (arr_bytes b) with Eq => true | _ => false end.

Definition ZERO_HASH : Hash := BytesToHash [Byte.x00].
Definition ZERO_ADDRESS : Address := BytesToAddress [Byte.x00].

Lemma IsEqualTo_true {n} (a b : byteArray n) : IsEqualTo a b = true <-> a = b.
Proof.
  unfold IsEqualTo. split.
  - destruct (bytes_Compare _ _) eqn:E; try done. intros _.
    apply arr_bytes_inj. by apply bytes_Compare_eq.
  - intros ->. by rewrite bytes_Compare_refl.
Qed.

Lemma IsEqualTo_false {n} (a b : byteArray n) : IsEqualTo a b = false <-> a <> b.
Proof. rewrite <- not_true_iff_false, IsEqualTo_true. done. Qed.

Lemma IsEqualTo_refl {n} (a : byteArray n) : IsEqualTo a a = true.
Proof. by apply IsEqualTo_true. Qed.

(** [SetBytes] with exactly [n] bytes overwrites the whole array. *)
Lemma arr_bytes_SetBytes_full {n} (a : byteArray n) b :
  length b = n -> arr_bytes (SetBytes a b) = b.
Proof.
  intros Hl. unfold SetBytes, arr_bytes. simpl. rewrite Hl, Nat.sub_diag, drop_0, Hl, Nat.sub_diag. done.
Qed.

(** [CopyFrom] makes an exact copy whatever the destination held. *)
Lemma CopyFrom_eq {n} (a from : byteArray n) : CopyFrom a from = from.
Proof. apply arr_bytes_inj, arr_bytes_SetBytes_full, arr_bytes_length. Qed.

Lemma BytesToArr_arr_bytes {n} (a : byteArray n) : BytesToArr n (arr_bytes a) = a.
Proof. apply CopyFrom_eq. Qed.

(** * Big integers (common/big.go)

    [*big.Int] is [Z]; [Div] is Euclidean division. *)

Definition SafeAddBigInt (x y : Z) : Z := x + y.
Definition SafeSubBigInt (x y : Z) : Z := x - y.
Definition SafeMulBigInt (x y : Z) : Z := x * y.

(** [big.Int.Div]: Euclidean quotient (the remainder is never negative). *)
Definition big_Div (x y : Z) : Z :=
  if Z.ltb y 0 then - (x / - y) else x / y.
Definition SafeDivBigInt (x y : Z) : Z := big_Div x y.
Definition SafePercentageOfBigInt (x y : Z) : Z := SafeDivBigInt (SafeMulBigInt 100 x) y.
Definition SafeRelativePercentageBigInt (total percentage : Z) : Z :=
  SafeDivBigInt (SafeMulBigInt total percentage) 100.

Lemma big_Div_euclid x y : y <> 0 -> 0 <= x - y * big_Div x y < Z.abs y.
Proof.
  intros Hy. unfold big_Div. destruct (Z.ltb_spec y 0).
  - pose proof (Z.mod_pos_bound x (- y) ltac:(lia)).
    pose proof (Z.div_mod x (- y) ltac:(lia)). lia.
  - pose proof (Z.mod_pos_bound x y ltac:(lia)).
    pose proof (Z.div_mod x y ltac:(lia)). lia.
Qed.

Lemma SafeRelativePercentageBigInt_bounds total p :
  100 * SafeRelativePercentageBigInt total p <= total * p
  < 100 * SafeRelativePercentageBigInt total p + 100.
Proof.
  unfold SafeRelativePercentageBigInt, SafeDivBigInt, SafeMulBigInt.
  pose proof (big_Div_euclid (total * p) 100 ltac:(lia)). lia.
Qed.

(** * Little-endian and big-endian integers *)

Fixpoint le_bytes (n : nat) (z : Z) : list byte :=
  match n with
  | O => []
  | S n => bZ z :: le_bytes n (Z.shiftr z 8)
  end.

Fixpoint le_val (l : list byte) : Z :=
  match l with
  | [] => 0
  | b :: l => Zb b + 256 * le_val l
  end.

Definition be_bytes (n : nat) (z : Z) : list byte := rev (le_bytes n z).
Definition be_val (l : list byte) : Z := le_val (rev l).

Lemma length_le_bytes n z : length (le_bytes n z) = n.
Proof. revert z. induction n; simpl; auto. Qed.

Lemma length_be_bytes n z : length (be_bytes n z) = n.
Proof. unfold be_bytes. rewrite length_rev. apply length_le_bytes. Qed.

Lemma le_val_range l : 0 <= le_val l < 256 ^ len l.
Proof.
  unfold len. induction l as [|b l IH]; simpl le_val; [simpl; lia|].
  pose proof (Zb_range b).
  replace (Z.of_nat (length (b :: l))) with (Z.succ (Z.of_nat (length l))) by (simpl; lia).
  rewrite Z.pow_succ_r by lia. lia.
Qed.

Lemma le_val_le_bytes n z : le_val (le_bytes n z) = z mod 256 ^ Z.of_nat n.
Proof.
  revert z. induction n as [|n IH]; intros z; simpl le_bytes; simpl le_val.
  { by rewrite Z.mod_1_r. }
  rewrite IH, Zb_bZ, Z.shiftr_div_pow2 by lia. change (2 ^ 8) with 256.
  replace (Z.of_nat (S n)) with (Z.succ (Z.of_nat n)) by lia.
  rewrite Z.pow_succ_r, Z.rem_mul_r by lia. lia.
Qed.

Lemma le_bytes_le_val l : le_bytes (length l) (le_val l) = l.
Proof.
  induction l as [|b l IH]; simpl; [done|].
  assert (Hs : Z.shiftr (Zb b + 256 * le_val l) 8 = le_val l).
  { rewrite Z.shiftr_div_pow2 by lia. change (2 ^ 8) with 256.
    pose proof (Zb_range b). rewrite Z.mul_comm, Z.div_add by lia. rewrite Z.div_small; lia. }
  rewrite Hs, IH. f_equal. rewrite <- (bZ_Zb b) at 2. unfold bZ.
  rewrite Z.mul_comm, Z.mod_add by lia. done.
Qed.

Lemma be_val_be_bytes n z : be_val (be_bytes n z) = z mod 256 ^ Z.of_nat n.
Proof. unfold be_val, be_bytes. by rewrite rev_involutive, le_val_le_bytes. Qed.

Lemma be_bytes_be_val l : be_bytes (length l) (be_val l) = l.
Proof.
  unfold be_bytes, be_val. rewrite <- length_rev, le_bytes_le_val. apply rev_involutive.
Qed.

Lemma be_val_range l : 0 <= be_val l < 256 ^ len l.
Proof. unfold be_val, len. rewrite <- length_rev. apply le_val_range. Qed.

Definition Uint64ToBytes (val : Z) : list byte := le_bytes 8 val.

(** [binary.LittleEndian.Uint64(b)] reads 8 bytes and panics on a shorter slice. *)
Definition BytesToUint64 (b : list byte) : outcome Z :=
  if decide (8 <= length b)%nat then Ok (le_val (take 8 b)) else Panic "index out of range".

(** * Length-prefixed pairs (common/bytes.go) *)

Definition LengthByteSize : Z := 2.
Definition MaxLenSize : Z := 256 * 256 - 1.

Definition BytesToLen (b : list byte) : outcome Z :=
  if decide (2 <= length b)%nat then Ok (le_val (take 2 b)) else Panic "index out of range".

Definition LenToBytes (n : Z) : outcome (list byte) :=
  if Z.ltb MaxLenSize n then Panic "LenToBytes max length exceeded"
  else
    let b := le_bytes 2 n in
    match BytesToLen b with
    | Ok n1 => if decide (n1 = n) then Ok b else Panic "len compare failed"
    | Fail e => Fail e
    | Panic p => Panic p
    end.

Definition CombineTwoParts (part1 part2 : list byte) : outcome (list byte) :=
  if decide (length part1 = 0 \/ length part2 = 0)%nat then Panic "CombineTwoParts nil"
  else
    match LenToBytes (len part1 + len part2), LenToBytes (len part1) with
    | Ok total, Ok l1 => Ok (total ++ l1 ++ part1 ++ part2)
    | Panic p, _ | _, Panic p => Panic p
    | Fail e, _ | _, Fail e => Fail e
    end.

Definition ExtractTwoParts (d : list byte) : outcome (list byte * list byte) :=
  if Z.ltb (len d) (LengthByteSize + LengthByteSize) then Fail (ErrorsNew "nvalid length 1")
  else
    match BytesToLen (take 2 d) with
    | Ok totalLen =>
        if negb (Z.eqb (len d) (totalLen + LengthByteSize + LengthByteSize))
        then Fail (ErrorsNew "invalid length 2")
        else
          match BytesToLen (take 2 (drop 2 d)) with
          | Ok part1Len =>
              if Z.ltb (len d - LengthByteSize - LengthByteSize) part1Len
              then Fail (ErrorsNew "invalid length 3")
              else Ok (take (Z.to_nat part1Len) (drop 4 d), drop (4 + Z.to_nat part1Len) d)
          | Fail e => Fail e
          | Panic p => Panic p
          end
    | Fail e => Fail e
    | Panic p => Panic p
    end.

Lemma LenToBytes_ok n : 0 <= n <= MaxLenSize -> LenToBytes n = Ok (le_bytes 2 n).
Proof.
  unfold MaxLenSize. intros. unfold LenToBytes, BytesToLen, MaxLenSize.
  destruct (Z.ltb_spec (256 * 256 - 1) n); [lia|].
  rewrite decide_True by (rewrite length_le_bytes; lia).
  rewrite (firstn_all2 (le_bytes 2 n)) by (rewrite length_le_bytes; lia).
  rewrite le_val_le_bytes, Z.mod_small by lia. by rewrite decide_True.
Qed.

Lemma BytesToLen_le_bytes n k : 0 <= n <= MaxLenSize -> BytesToLen (take 2 (le_bytes 2 n ++ k)) = Ok n.
Proof.
  unfold MaxLenSize. intros. rewrite take_app_length' by (by rewrite length_le_bytes).
  unfold BytesToLen. rewrite decide_True by (rewrite length_le_bytes; lia).
  rewrite (firstn_all2 (le_bytes 2 n)) by (rewrite length_le_bytes; lia).
  rewrite le_val_le_bytes, Z.mod_small by lia. done.
Qed.

(** The pair is recovered exactly from its combination. *)
Lemma ExtractTwoParts_Combine p1 p2 :
  p1 <> [] -> p2 <> [] -> len p1 + len p2 <= MaxLenSize ->
  exists b, CombineTwoParts p1 p2 = Ok b /\ ExtractTwoParts b = Ok (p1, p2).
Proof.
  intros H1 H2 Hmax. unfold len in *. unfold CombineTwoParts.
  rewrite decide_False by (intros [?%nil_length_inv|?%nil_length_inv]; auto).
  unfold len. rewrite !LenToBytes_ok by lia.
  eexists; split; [done|]. unfold ExtractTwoParts, len, LengthByteSize.
  rewrite !length_app, !length_le_bytes. destruct (Z.ltb_spec (Z.of_nat (2 + (2 + (length p1 + length p2)))) (2 + 2)); [lia|].
  rewrite BytesToLen_le_bytes by lia.
  destruct (Z.eqb_spec (Z.of_nat (2 + (2 + (length p1 + length p2)))) (Z.of_nat (length p1) + Z.of_nat (length p2) + 2 + 2)); [simpl negb|lia].
  cbn iota. rewrite drop_app_length' by (by rewrite length_le_bytes).
  rewrite BytesToLen_le_bytes by lia.
  destruct (Z.ltb_spec (Z.of_nat (2 + (2 + (length p1 + length p2))) - 2 - 2) (Z.of_nat (length p1))); [lia|].
  rewrite Nat2Z.id. f_equal. rewrite !app_assoc.
  rewrite <- (app_assoc (_ ++ _) p1 p2) at 1.
  rewrite drop_app_length' by (by rewrite length_app, !length_le_bytes).
  rewrite take_app_length.
  rewrite drop_app_length' by (rewrite !length_app, !length_le_bytes; lia). done.
Qed.

(** * Keccak-256 (crypto.go)

    The sponge itself is golang.org/x/crypto/sha3; its documented promise used
    here is the digest size. *)
Class Crypto := {
  sha3_keccak256 : list byte -> list byte;
  sha3_keccak256_size : forall b, length (sha3_keccak256 b) = 32%nat;
}.

Lemma windowHash_size b : length (take 32 (drop 32 b ++ replicate 32 Byte.x00)) = 32%nat.
Proof. rewrite length_take, length_app, length_replicate. lia. Qed.

(** A stand-in digest for closed examples: bytes 32 to 63 of the input. *)
Definition windowHash : Crypto :=
  {| sha3_keccak256 := fun b => take 32 (drop 32 b ++ replicate 32 Byte.x00);
     sha3_keccak256_size := windowHash_size |}.

Section keccak.
Context `{Crypto}.

(** [Keccak256(data ...)] writes every part into one hash state. *)
Definition Keccak256 (parts : list (list byte)) : list byte := sha3_keccak256 (concat parts).
Definition Keccak256Hash (parts : list (list byte)) : Hash := BytesToHash (Keccak256 parts).

Lemma Keccak256Hash_bytes parts : arr_bytes (Keccak256Hash parts) = Keccak256 parts.
Proof. apply arr_bytes_SetBytes_full, sha3_keccak256_size. Qed.
End keccak.

(** The window digest of two or more parts, the first two of 32 bytes, is the second part. *)
Lemma windowHash_second (a b : byteArray 32) rest :
  @Keccak256Hash windowHash (arr_bytes a :: arr_bytes b :: rest) = b.
Proof.
  apply arr_bytes_inj. rewrite (@Keccak256Hash_bytes windowHash). unfold Keccak256.
  cbn [sha3_keccak256 windowHash concat].
  rewrite drop_app_length' by (by rewrite arr_bytes_length). rewrite <- app_assoc.
  apply take_app_length'. by rewrite arr_bytes_length.
Qed.

(** * Consensus packets (eth/protocols/eth/protocol.go) *)

Record ConsensusPacket := mkConsensusPacket {
  ParentHash : Hash;
  Signature : slice byte;
  ConsensusData : slice byte;
}.

#[export] Instance ConsensusPacket_eq_dec : EqDecision ConsensusPacket.
Proof. solve_decision. Defined.

Record RequestConsensusDataPacket := mkRequestConsensusDataPacket {
  Req_ParentHash : Hash;
  RequestData : slice byte;
}.

(** [NewConsensusPacket]: a deep copy; nil slices become empty ones. *)
Definition NewConsensusPacket (other : ConsensusPacket) : ConsensusPacket :=
  {| ParentHash := CopyFrom (arr_zero 32) (ParentHash other);
     Signature := Some (data (Signature other));
     ConsensusData := Some (data (ConsensusData other)) |}.

Definition packet_Hash `{Crypto} (c : ConsensusPacket) : Hash :=
  match ConsensusData c, Signature c with
  | Some cd, Some sg => Keccak256Hash [cd; arr_bytes (ParentHash c); sg]
  | _, _ => ParentHash c
  end.

Lemma NewConsensusPacket_idemp p : NewConsensusPacket (NewConsensusPacket p) = NewConsensusPacket p.
Proof. unfold NewConsensusPacket. simpl. by rewrite !CopyFrom_eq. Qed.

(** A packet read off the wire has no nil slice: its copy is the packet. *)
Lemma NewConsensusPacket_wire h sg cd :
  NewConsensusPacket (mkConsensusPacket h (Some sg) (Some cd)) = mkConsensusPacket h (Some sg) (Some cd).
Proof. unfold NewConsensusPacket. simpl. by rewrite CopyFrom_eq. Qed.
