(* ===== verification/Selection.v ===== *)
(** Validator selection: the constants of the consensus engine, the weighted
    selection of the validators of a block ([filterValidators]), the back-off of
    validators that missed their slots ([canPropose]) and the choice of the block
    proposer ([getBlockProposer], [getBlockProposerV2]).

    Models the selection functions of src/consensus/proofofstake/PacketHandler.go
    with the constants of proofofstake.go and the validator record of validator.go. *)

From S2P Require Import Prelude Common.
From Stdlib Require Import Strings.Byte.

(** * Constants *)

(** Fork blocks (proofofstake.go). *)
Definition rewardStartBlockNumber : Z := 277204.
Definition slashStartBlockNumber : Z := 1497600.
Definition FULL_SIGN_PROPOSAL_CUTOFF_BLOCK : Z := 421888.
Definition FULL_SIGN_PROPOSAL_FREQUENCY_BLOCKS : Z := 4096.
Definition STAKING_CONTRACT_V2_CUTOFF_BLOCK : Z := FULL_SIGN_PROPOSAL_CUTOFF_BLOCK.
Definition CONSENSUS_CONTEXT_START_BLOCK : Z := FULL_SIGN_PROPOSAL_CUTOFF_BLOCK.
Definition CONSENSUS_CONTEXT_MAX_BLOCK_COUNT : Z := 512000.
Definition VALIDATOR_NIL_BLOCK_START_BLOCK : Z := STAKING_CONTRACT_V2_CUTOFF_BLOCK + 1.
Definition BLOCK_PROPOSER_NIL_BLOCK_START_BLOCK : Z := VALIDATOR_NIL_BLOCK_START_BLOCK + 16.
Definition CONTEXT_BASED_START_BLOCK : Z := 536000.
Definition CONTEXT_BASED_BLOCK_THRESHOLD : Z := 64000.
Definition BLOCK_TIME_ORIG_START_BLOCK : Z := CONTEXT_BASED_START_BLOCK + 1.
Definition PACKET_PROTOCOL_START_BLOCK : Z := BLOCK_TIME_ORIG_START_BLOCK + 32.
Definition PROPOSAL_TIME_HASH_START_BLOCK : Z := 1507600.
Definition BLOCK_PROPOSER_OFFLINE_V2_START_BLOCK : Z := 1597600.
Definition SixtyVoteStartBlock : Z := 1386825.

(** Limits (PacketHandler.go). *)
Definition BLOCK_PROPOSER_OFFLINE_NIL_BLOCK_MULTIPLIER : Z := 2.
Definition BLOCK_PROPOSER_OFFLINE_MAX_DELAY_BLOCK_COUNT : Z := 1024.
Definition BLOCK_PROPOSER_OFFLINE_MAX_DELAY_BLOCK_COUNT_V2 : Z := 16384.
Definition MAX_VALIDATORS : Z := 128.

Definition Ether : Z := 10 ^ 18.
Definition EtherToWei (val : Z) : Z := val * Ether.
Definition MIN_VALIDATOR_DEPOSIT : Z := EtherToWei 5000000.
Definition MIN_BLOCK_DEPOSIT : Z := EtherToWei 500000000000.
Definition MIN_BLOCK_TRANSACTION_WEIGHTED_PROPOSALS_PERCENTAGE : Z := 70.
Definition MIN_BLOCK_TRANSACTION_WEIGHTED_PROPOSALS_PERCENTAGE_V2 : Z := 60.

(** [MIN_VALIDATORS] is 3 unless the environment variable of that name sets it
    to a value between 1 and [MAX_VALIDATORS]. *)
Class NodeConfig := {
  MIN_VALIDATORS : Z;
  MIN_VALIDATORS_range : 1 <= MIN_VALIDATORS <= MAX_VALIDATORS;
}.

(** The deterministic random generator (crypto/drng): a stream of bytes seeded
    by a hash, ChaCha20 of golang.org/x/crypto. [None] is an initialisation error. *)
Class DRNG := {
  InitializeWithSeed : Hash -> option (nat -> byte);
}.

(** * Validator records (validator.go) *)

Record ValidatorDetailsV2 := mkValidatorDetailsV2 {
  Depositor : Address;
  Validator : Address;
  Balance : Z;
  NetBalance : Z;
  BlockRewards : Z;
  Slashings : Z;
  IsValidationPaused : bool;
  WithdrawalBlock : Z;
  WithdrawalAmount : Z;
  LastNiLBlock : Z;
  NilBlockCount : Z;
}.

#[export] Instance ValidatorDetailsV2_eq_dec : EqDecision ValidatorDetailsV2.
Proof. solve_decision. Defined.

(** * Proposer back-off *)

(** [uint64(math.Pow(2.0, n))] for an integral [n >= 0].  Powers of two are exact
    in a float64 up to 2^1023 and [+Inf] above.  The conversion of a float
    outside the uint64 range is implementation-dependent by the Go
    specification: the oracle [float_overflow] stands for it. *)
Class FloatConv := { float_overflow : Z -> Z }.

Definition pow2_uint64 `{FloatConv} (n : Z) : Z :=
  if Z.ltb n 64 then 2 ^ n else u64 (float_overflow n).

Section proposer.
Context `{FloatConv} `{NodeConfig} `{Crypto} `{GoRuntime}.

Definition maxBlockDelay (currentBlockNumber : Z) : Z :=
  if Z.leb BLOCK_PROPOSER_OFFLINE_V2_START_BLOCK currentBlockNumber
  then BLOCK_PROPOSER_OFFLINE_MAX_DELAY_BLOCK_COUNT_V2
  else BLOCK_PROPOSER_OFFLINE_MAX_DELAY_BLOCK_COUNT.

(** [big.Int.Uint64]: the low 64 bits of the absolute value. *)
Definition big_Uint64 (z : Z) : Z := u64 (Z.abs z).

Definition canPropose (valDetails : ValidatorDetailsV2) (currentBlockNumber : Z) : bool :=
  if Z.eqb (LastNiLBlock valDetails) 0 then true
  else
    let slotsMissed := big_Uint64 (NilBlockCount valDetails) / BLOCK_PROPOSER_OFFLINE_NIL_BLOCK_MULTIPLIER in
    let blockDelay := pow2_uint64 slotsMissed in
    let blockDelay := if Z.ltb (maxBlockDelay currentBlockNumber) blockDelay
                      then maxBlockDelay currentBlockNumber else blockDelay in
    let nextProposalBlock := u64 (big_Uint64 (LastNiLBlock valDetails) + blockDelay) in
    Z.leb nextProposalBlock currentBlockNumber.

(** * Proposer selection *)

(** The sort key of a validator: the hash of the seed, its address and the round. *)
Definition proposerKey (seed : Hash) (round : Z) (v : Address) : list byte :=
  arr_bytes (Keccak256Hash [arr_bytes seed; arr_bytes v; [bZ round]]).

Definition getBlockProposerV2 {S} (contextHash : Hash) (validatorMap : gmap Address ValidatorDetailsV2)
    (round blockNumber : Z) : M S Address :=
  fail_if (Z.ltb (Z.of_nat (size validatorMap)) MIN_VALIDATORS)
    (ErrorsNew "getBlockProposerV2 min validators not found");;
  entries ← range validatorMap;
  let selectedValMap : gmap Address ValidatorDetailsV2 :=
    foldl (fun sel '(valAddr, valDetails) =>
             if canPropose valDetails blockNumber then <[valAddr := valDetails]> sel else sel)
      ∅ entries in
  (* If fewer proposers than MIN_VALIDATORS, then select everyone *)
  selectedValMap ←
    (if Z.ltb (Z.of_nat (size selectedValMap)) MIN_VALIDATORS then
       entries ← range validatorMap;
       mret (foldl (fun sel '(valAddr, valDetails) => <[valAddr := valDetails]> sel) selectedValMap entries)
     else mret selectedValMap);
  entries ← range selectedValMap;
  let validators := sort_by_key (proposerKey contextHash round) (map fst entries) in
  must "index out of range" (head validators).

Definition getBlockProposerV1 {S} (parentHash : Hash) (filteredValidatorDepositMap : gmap Address Z)
    (round : Z) : M S Address :=
  fail_if (Z.ltb (Z.of_nat (size filteredValidatorDepositMap)) MIN_VALIDATORS)
    (ErrorsNew "min validators not found");;
  entries ← range filteredValidatorDepositMap;
  let validators := sort_by_key (proposerKey parentHash round) (map fst entries) in
  must "index out of range" (head validators).

(** [validatorDetailsMap] is a pointer that is nil below
    [BLOCK_PROPOSER_NIL_BLOCK_START_BLOCK]; dereferencing it then panics. *)
Definition getBlockProposer {S} (parentHash : Hash) (filteredValidatorDepositMap : gmap Address Z)
    (round : Z) (validatorDetailsMap : option (gmap Address ValidatorDetailsV2))
    (blockNumber : Z) (contextHash : Hash) : M S Address :=
  if Z.leb CONTEXT_BASED_START_BLOCK blockNumber then
    vm ← must "nil validatorDetailsMap" validatorDetailsMap;
    getBlockProposerV2 contextHash vm round blockNumber
  else if Z.leb BLOCK_PROPOSER_NIL_BLOCK_START_BLOCK blockNumber then
    vm ← must "nil validatorDetailsMap" validatorDetailsMap;
    getBlockProposerV2 parentHash vm round blockNumber
  else getBlockProposerV1 parentHash filteredValidatorDepositMap round.
End proposer.

(** * Validator filtering *)

Section filter.
Context `{NodeConfig} `{Crypto} `{DRNG} `{GoRuntime}.

Definition filterKey (parentHash : Hash) (v : Address) : list byte :=
  arr_bytes (Keccak256Hash [arr_bytes parentHash; arr_bytes v]).

(** State of the lottery loop: the selected validators and their deposits. *)
Record Lottery := mkLottery {
  filteredValidators : gset Address;
  depositValueSoFar : Z;
  drngPos : nat;
}.

(** One draw: the validator is taken when its deposit, normalised to a byte,
    reaches the next random byte. *)
Definition lotteryStep {S} (rng : nat -> byte) (deposits : gmap Address Z) (totalDepositValue : Z)
    (acc : Lottery) (validator : Address) : M S Lottery :=
  depositValue ← must "nil deposit" (deposits !! validator);
  let randByte := Zb (rng (drngPos acc)) in
  let normalizedDepositValue := SafeDivBigInt (SafeMulBigInt 255 depositValue) totalDepositValue in
  fail_if (Z.ltb normalizedDepositValue 0 || Z.ltb 255 normalizedDepositValue)
    (ErrorsNew "invalid normalizedDepositValue");;
  mret (if Z.leb randByte normalizedDepositValue
        then mkLottery ({[validator]} ∪ filteredValidators acc)
               (SafeAddBigInt (depositValueSoFar acc) depositValue) (Datatypes.S (drngPos acc))
        else mkLottery (filteredValidators acc) (depositValueSoFar acc) (Datatypes.S (drngPos acc))).

(** The top-up loop: validators not drawn are added in list order until the
    selection has exactly [MAX_VALIDATORS] members and enough deposits. *)
Fixpoint topUp {S} (deposits : gmap Address Z) (acc : gset Address * Z) (l : list Address)
  : M S (gset Address * Z) :=
  match l with
  | [] => mret acc
  | validator :: l =>
      if decide (validator ∈ acc.1) then topUp deposits acc l
      else
        depositValue ← must "nil deposit" (deposits !! validator);
        let acc' := ({[validator]} ∪ acc.1, SafeAddBigInt acc.2 depositValue) in
        if Z.eqb (Z.of_nat (size acc'.1)) MAX_VALIDATORS && Z.leb MIN_BLOCK_DEPOSIT acc'.2
        then mret acc' else topUp deposits acc' l
  end.

(** The weighted selection used when there are more than [MAX_VALIDATORS] validators. *)
Definition selectValidators {S} (parentHash : Hash) (deposits : gmap Address Z)
    (totalDepositValue : Z) : M S (gset Address) :=
  match InitializeWithSeed parentHash with
  | None => fail (ErrorsNew "drng")
  | Some rng =>
      entries ← range deposits;
      let validatorList := sort_by_key (filterKey parentHash) (map fst entries) in
      lot ← foldM (lotteryStep rng deposits totalDepositValue) (mkLottery ∅ 0 0) validatorList;
      if Z.ltb (Z.of_nat (size (filteredValidators lot))) MAX_VALIDATORS
         || Z.ltb (depositValueSoFar lot) MIN_BLOCK_DEPOSIT
      then '(sel, _) ← topUp deposits (filteredValidators lot, depositValueSoFar lot) validatorList;
           mret sel
      else mret (filteredValidators lot)
  end.

Record FilterResult := mkFilterResult {
  fr_validators : gset Address;
  fr_depositValue : Z;
  fr_minRequired : Z;
  (** the argument map after the in-place deletions *)
  fr_deposits : gmap Address Z;
}.

Definition minPercentage (blockNumber : Z) : Z :=
  if Z.leb SixtyVoteStartBlock blockNumber
  then MIN_BLOCK_TRANSACTION_WEIGHTED_PROPOSALS_PERCENTAGE_V2
  else MIN_BLOCK_TRANSACTION_WEIGHTED_PROPOSALS_PERCENTAGE.

(** First loop: drop small deposits from the map, total up the others. *)
Definition dropSmall (acc : gmap Address Z * Z * Z) (e : Address * Z) : gmap Address Z * Z * Z :=
  let '(deps, total, count) := acc in
  let '(val, depositValue) := e in
  if Z.ltb depositValue MIN_VALIDATOR_DEPOSIT then (delete val deps, total, count)
  else (deps, SafeAddBigInt total depositValue, count + 1).

(** Last loop: the deposits of the selected validators. *)
Definition addDeposit {S} (deps : gmap Address Z) (acc : Z) (v : Address * unit) : M S Z :=
  d ← must "nil deposit" (deps !! v.1);
  mret (SafeAddBigInt acc d).

(** The deletions are made in the caller's map; a caller that gets an error
    returns at once and drops that map, so only a success hands it back. *)
Definition filterValidators {S} (parentHash : Hash) (valDepMap : gmap Address Z) (blockNumber : Z)
  : M S FilterResult :=
  entries ← range valDepMap;
  let '(deps, totalDepositValue, valCount) := foldl dropSmall (valDepMap, 0, 0) entries in
  fail_if (Z.ltb valCount MIN_VALIDATORS) (ErrorsNew "number of validators less than minimum");;
  fail_if (Z.ltb totalDepositValue MIN_BLOCK_DEPOSIT) (ErrorsNew "min block deposit not met");;
  sel ← (if Z.leb (Z.of_nat (size deps)) MAX_VALIDATORS then mret (dom deps)
         else selectValidators parentHash deps totalDepositValue);
  vals ← range (gset_to_gmap () sel);
  filteredDepositValue ← foldM (addDeposit deps) 0 vals;
  fail_if (Z.ltb filteredDepositValue MIN_BLOCK_DEPOSIT)
    (ErrorsNew "min block deposit not met for filteredDepositValue");;
  mret {| fr_validators := sel;
          fr_depositValue := filteredDepositValue;
          fr_minRequired := SafeRelativePercentageBigInt filteredDepositValue (minPercentage blockNumber);
          fr_deposits := deps |}.
End filter.

(** * Properties of the helpers *)

(** The deposit of a validator, 0 when it has none. *)
Definition dep (m : gmap Address Z) (v : Address) : Z := default 0 (m !! v).

(** The deposits of a set of validators. *)
Definition weight (m : gmap Address Z) (X : gset Address) : Z := sum_over (dep m) X.

Section map_loops.
Context {K V : Type} `{Countable K}.

Lemma foldl_insert_filter (f : K -> V -> bool) (l : list (K * V)) : forall acc : gmap K V,
  NoDup l.*1 ->
  foldl (fun sel '(k, v) => if f k v then <[k := v]> sel else sel) acc l
  = list_to_map (filter (fun kv => f kv.1 kv.2 = true) l) ∪ acc.
Proof.
  induction l as [|[k v] l IH]; intros acc Hnd; simpl.
  { by rewrite (left_id_L ∅ (∪)). }
  inversion_clear Hnd as [|?? Hk Hnd']. rewrite IH by done.
  rewrite filter_cons. simpl.
  destruct (f k v) eqn:Hf; [rewrite decide_True by done|by rewrite decide_False by congruence].
  simpl. rewrite <- insert_union_l, insert_union_r; [done|].
  apply not_elem_of_list_to_map_1. intros Hin. apply Hk.
  apply list_elem_of_fmap in Hin as (kv & -> & Hkv%list_elem_of_filter).
  apply list_elem_of_fmap. naive_solver.
Qed.

Lemma perm_map_to_list_NoDup (m : gmap K V) l : l ≡ₚ map_to_list m -> NoDup l.*1.
Proof. intros ->. apply NoDup_fst_map_to_list. Qed.

Lemma list_to_map_filter_perm (P : K * V -> Prop) `{forall x, Decision (P x)} (m : gmap K V) l :
  l ≡ₚ map_to_list m -> list_to_map (filter P l) = filter P m.
Proof.
  intros Hp. rewrite map_filter_alt. apply list_to_map_proper.
  - pose proof (perm_map_to_list_NoDup m l Hp) as Hnd.
    eapply sublist_NoDup; [exact Hnd|]. apply fmap_sublist, sublist_filter.
  - by rewrite Hp.
Qed.
End map_loops.

(** The keys visited by [range] enumerate the domain. *)
Lemma range_keys_perm {K V} `{Countable K} (m : gmap K V) l :
  l ≡ₚ map_to_list m -> l.*1 ≡ₚ elements (dom m).
Proof.
  intros ->. rewrite dom_alt, elements_list_to_set; [done|].
  apply NoDup_fst_map_to_list.
Qed.

Lemma zsum_weight (m : gmap Address Z) l :
  l ≡ₚ map_to_list m -> zsum l.*2 = weight m (dom m).
Proof.
  intros Hp. unfold weight, sum_over. rewrite <- (range_keys_perm m l Hp).
  change (@map ?A ?B) with (@fmap list _ A B).
  rewrite <- list_fmap_compose. f_equal. apply list_fmap_ext.
  intros i [k v] Hi%list_elem_of_lookup_2. simpl. rewrite Hp, elem_of_map_to_list in Hi.
  unfold dep. by rewrite Hi.
Qed.

Lemma weight_dom_subset (m m' : gmap Address Z) X :
  m ⊆ m' -> X ⊆ dom m -> weight m X = weight m' X.
Proof.
  intros Hm HX. unfold weight, sum_over. f_equal.
  change (@map ?A ?B) with (@fmap list _ A B). apply list_fmap_ext.
  intros i v Hi%list_elem_of_lookup_2. apply elem_of_elements, HX in Hi.
  apply elem_of_dom in Hi as [d Hd]. unfold dep.
  by rewrite Hd, (lookup_weaken _ _ _ _ Hd Hm).
Qed.

(** Validators with a sufficient deposit. *)
Definition big_deposits (m : gmap Address Z) : gmap Address Z :=
  filter (fun kv => MIN_VALIDATOR_DEPOSIT <= kv.2) m.

Lemma foldl_dropSmall l : forall deps t c,
  foldl dropSmall (deps, t, c) l =
    (foldl (fun d kv => delete kv.1 d) deps (filter (fun kv => kv.2 < MIN_VALIDATOR_DEPOSIT) l),
     t + zsum (filter (fun kv => MIN_VALIDATOR_DEPOSIT <= kv.2) l).*2,
     c + len (filter (fun kv => MIN_VALIDATOR_DEPOSIT <= kv.2) l)).
Proof.
  induction l as [|[k v] l IH]; intros deps t c.
  { simpl. unfold len. simpl. f_equal; [f_equal|]; lia. }
  simpl foldl. rewrite !filter_cons. cbn [fst snd].
  destruct (Z.ltb_spec v MIN_VALIDATOR_DEPOSIT).
  - rewrite IH. rewrite (decide_True (P := v < MIN_VALIDATOR_DEPOSIT)) by lia.
    rewrite (decide_False (P := MIN_VALIDATOR_DEPOSIT <= v)) by lia. done.
  - rewrite IH. rewrite (decide_False (P := v < MIN_VALIDATOR_DEPOSIT)) by lia.
    rewrite (decide_True (P := MIN_VALIDATOR_DEPOSIT <= v)) by lia.
    unfold SafeAddBigInt, len. rewrite fmap_cons, zsum_cons. cbn [length fst snd].
    f_equal; [f_equal|]; lia.
Qed.

Lemma foldl_delete_lookup {K V} `{Countable K} (l : list (K * V)) : forall (m : gmap K V) k,
  foldl (fun d kv => delete kv.1 d) m l !! k = if decide (k ∈ l.*1) then None else m !! k.
Proof.
  induction l as [|[k' v'] l IH]; intros m k; simpl; [done|].
  rewrite IH. destruct (decide (k ∈ l.*1)).
  - rewrite decide_True; [done|]. by right.
  - destruct (decide (k = k')) as [->|].
    + rewrite lookup_delete_eq, decide_True; [done|]. left.
    + rewrite lookup_delete_ne, decide_False by set_solver. done.
Qed.

(** What the first loop of [filterValidators] computes, in any visiting order. *)
Lemma dropSmall_range (m : gmap Address Z) l :
  l ≡ₚ map_to_list m ->
  foldl dropSmall (m, 0, 0) l =
    (big_deposits m, weight m (dom (big_deposits m)), Z.of_nat (size (big_deposits m))).
Proof.
  intros Hp. rewrite foldl_dropSmall.
  assert (Hb : filter (fun kv => MIN_VALIDATOR_DEPOSIT <= kv.2) l ≡ₚ map_to_list (big_deposits m)).
  { unfold big_deposits. rewrite map_filter_alt, map_to_list_to_map; [by rewrite Hp|].
    eapply sublist_NoDup; [apply (NoDup_fst_map_to_list m)|]. apply fmap_sublist, sublist_filter. }
  f_equal; [f_equal|].
  - apply map_eq. intros k. rewrite foldl_delete_lookup. unfold big_deposits.
    rewrite map_lookup_filter. destruct (m !! k) as [v|] eqn:Hk.
    + destruct (decide (k ∈ (filter (fun kv => kv.2 < MIN_VALIDATOR_DEPOSIT) l).*1)) as [Hin|Hnin].
      * apply list_elem_of_fmap in Hin as ([k' v'] & -> & [Hlt Hin]%list_elem_of_filter).
        rewrite Hp, elem_of_map_to_list in Hin. simpl in *. simplify_eq.
        simpl. rewrite option_guard_False by (simpl; lia). done.
      * simpl. rewrite option_guard_True; [done|]. simpl.
        destruct (decide (MIN_VALIDATOR_DEPOSIT <= v)); [done|]. exfalso. apply Hnin.
        apply list_elem_of_fmap. exists (k, v). split; [done|].
        apply list_elem_of_filter. split; [simpl; lia|]. by rewrite Hp, elem_of_map_to_list.
    + by destruct (decide _).
  - rewrite Z.add_0_l, (zsum_weight _ _ Hb). apply weight_dom_subset; [|done].
    apply map_filter_subseteq.
  - rewrite Z.add_0_l. unfold len. by rewrite Hb, length_map_to_list.
Qed.

Lemma sort_by_key_head {A} (key : A -> list byte) l :
  match head (sort_by_key key l) with
  | Some p => p ∈ l /\ forall q, q ∈ l -> bytes_le (key p) (key q)
  | None => l = []
  end.
Proof.
  pose proof (sort_by_key_perm key l) as Hp. pose proof (sort_by_key_sorted key l) as Hs.
  destruct (sort_by_key key l) as [|p k]; simpl.
  { by apply Permutation_nil_l in Hp. }
  apply StronglySorted_inv in Hs as [_ Hall]. rewrite Forall_forall in Hall.
  split; [rewrite <- Hp; by left|]. intros q. rewrite <- Hp.
  intros [->|Hq]%elem_of_cons; [apply bytes_le_refl|auto].
Qed.

(** * Proposer selection: specification and determinism *)

(** [p] has the least key in [X]. *)
Definition least_key (key : Address -> list byte) (X : gset Address) (p : Address) : Prop :=
  p ∈ X /\ forall q, q ∈ X -> bytes_le (key p) (key q).

Lemma least_key_unique key X p q :
  (forall x y, x ∈ X -> y ∈ X -> key x = key y -> x = y) ->
  least_key key X p -> least_key key X q -> p = q.
Proof.
  intros Hinj [Hp Hp'] [Hq Hq']. apply Hinj; auto. apply (anti_symm bytes_le); auto.
Qed.

(** Sorting the keys visited by [range] and taking the first one. *)
Lemma range_sort_head {V} (key : Address -> list byte) (m : gmap Address V) l :
  l ≡ₚ map_to_list m ->
  match head (sort_by_key key (map fst l)) with
  | Some p => least_key key (dom m) p
  | None => m = ∅
  end.
Proof.
  intros Hp. pose proof (sort_by_key_head key (map fst l)) as Hh.
  pose proof (range_keys_perm m l Hp) as Hk. change (map fst l) with l.*1 in *.
  destruct (head _).
  - destruct Hh as [Hin Hle]. rewrite Hk in Hin. split; [by apply elem_of_elements|].
    intros q Hq. apply Hle. rewrite Hk. by apply elem_of_elements.
  - rewrite Hh in Hk. symmetry in Hk. apply Permutation_nil_r, elements_empty_inv in Hk.
    apply dom_empty_inv_L. set_solver.
Qed.

Section proposer_props.
Context `{FloatConv} `{NodeConfig} `{Crypto} `{GoRuntime}.

(** The validators whose back-off has expired. *)
Definition eligible (vm : gmap Address ValidatorDetailsV2) (n : Z) : gmap Address ValidatorDetailsV2 :=
  filter (fun kv => canPropose kv.2 n = true) vm.

(** Those among which the proposer is drawn. *)
Definition candidates (vm : gmap Address ValidatorDetailsV2) (n : Z) : gset Address :=
  if Z.ltb (Z.of_nat (size (eligible vm n))) MIN_VALIDATORS then dom vm else dom (eligible vm n).

Lemma candidates_size vm n :
  MIN_VALIDATORS <= Z.of_nat (size vm) -> MIN_VALIDATORS <= Z.of_nat (size (candidates vm n)).
Proof.
  unfold candidates. destruct (Z.ltb_spec (Z.of_nat (size (eligible vm n))) MIN_VALIDATORS).
  - by rewrite (size_dom vm).
  - by rewrite (size_dom (eligible vm n)).
Qed.

Lemma candidates_subset vm n : candidates vm n ⊆ dom vm.
Proof. unfold candidates, eligible. case_match; [done|]. apply dom_filter_subseteq. Qed.

(** The fallback loop adds everyone when too few are eligible. *)
Lemma select_everyone_wp {S} vm n (w : World S) :
  wp (if Z.ltb (Z.of_nat (size (eligible vm n))) MIN_VALIDATORS then
        entries ← range vm;
        mret (foldl (fun sel '(valAddr, valDetails) => <[valAddr := valDetails]> sel) (eligible vm n) entries)
      else mret (eligible vm n))
    (fun o w' => w_st w' = w_st w /\ exists m, o = Ok m /\ dom m = candidates vm n) w.
Proof.
  unfold candidates. destruct (Z.ltb _ _) eqn:Hel.
  - do 2 wp_step. simpl. split; [done|]. eexists; split; [done|].
    rewrite (foldl_insert_filter (fun _ _ => true)) by (by eapply perm_map_to_list_NoDup).
    rewrite (list_to_map_filter_perm _ vm) by done.
    rewrite map_filter_id by done. rewrite dom_union_L.
    pose proof (dom_filter_subseteq (fun kv : Address * ValidatorDetailsV2 => canPropose kv.2 n = true) vm).
    unfold eligible. set_solver.
  - wp_step. split; [done|]. by eexists.
Qed.

Lemma getBlockProposerV2_wp {S} ctx vm round n (w : World S) :
  wp (getBlockProposerV2 ctx vm round n)
    (fun o w' => w_st w' = w_st w /\
       match o with
       | Ok p => MIN_VALIDATORS <= Z.of_nat (size vm) /\
                 least_key (proposerKey ctx round) (candidates vm n) p
       | Fail e => Z.of_nat (size vm) < MIN_VALIDATORS /\
                   e = ErrorsNew "getBlockProposerV2 min validators not found"
       | Panic _ => False
       end) w.
Proof.
  pose proof MIN_VALIDATORS_range. unfold getBlockProposerV2.
  wp_step; [split; [done|split; [lia|done]]|]. wp_step.
  rewrite (foldl_insert_filter (fun _ v => canPropose v n)) by (by eapply perm_map_to_list_NoDup).
  rewrite (right_id_L ∅ (∪)), (list_to_map_filter_perm _ vm) by done.
  change (filter (fun kv => canPropose kv.2 n = true) vm) with (eligible vm n).
  wp_use (select_everyone_wp vm n). intros o w1 (Hst & m & -> & Hdom). wp_step. cbn zeta.
  pose proof (range_sort_head (proposerKey ctx round) m l0 ltac:(done)) as Hh.
  rewrite Hdom in Hh. wp_step; simpl; (split; [done|]); rewrite ?Heqo in Hh.
  - split; [lia|done].
  - subst m. rewrite dom_empty_L in Hdom. pose proof (candidates_size vm n ltac:(lia)) as Hs.
    rewrite <- Hdom, size_empty in Hs. lia.
Qed.

(** The validators among which the proposer of a block is drawn, and the hash
    that seeds the draw, by block number. *)
Definition electorate (deposits : gmap Address Z) (details : option (gmap Address ValidatorDetailsV2))
    (n : Z) : option (gset Address) :=
  if Z.leb BLOCK_PROPOSER_NIL_BLOCK_START_BLOCK n then vm ← details; Some (candidates vm n)
  else Some (dom deposits).

Definition isProposer (parentHash : Hash) (deposits : gmap Address Z) (r : Z)
    (details : option (gmap Address ValidatorDetailsV2)) (n : Z) (ctx : Hash) (p : Address) : Prop :=
  exists X, electorate deposits details n = Some X /\
    least_key (proposerKey (if Z.leb CONTEXT_BASED_START_BLOCK n then ctx else parentHash) r) X p.

Lemma getBlockProposerV1_wp {S} parentHash deposits round (w : World S) :
  wp (getBlockProposerV1 parentHash deposits round)
    (fun o w' => w_st w' = w_st w /\
       match o with
       | Ok p => least_key (proposerKey parentHash round) (dom deposits) p
       | Fail e => Z.of_nat (size deposits) < MIN_VALIDATORS
       | Panic _ => False
       end) w.
Proof.
  pose proof MIN_VALIDATORS_range. unfold getBlockProposerV1.
  wp_step; [split; [done|b2p; lia]|]. b2p. wp_step. cbn zeta.
  pose proof (range_sort_head (proposerKey parentHash round) deposits l ltac:(done)) as Hh.
  wp_step; rewrite ?Heqo in Hh; simpl; split; try done. subst deposits. rewrite map_size_empty in *. lia.
Qed.

(** [getBlockProposer] changes nothing; it fails only with too few validators
    and panics only without validator details. *)
Lemma getBlockProposer_wp {S} parentHash deposits round details n ctx (w : World S) :
  wp (getBlockProposer parentHash deposits round details n ctx)
    (fun o w' => w_st w' = w_st w /\
       match o with
       | Ok p => isProposer parentHash deposits round details n ctx p
       | Fail _ => Z.of_nat (size deposits) < MIN_VALIDATORS \/
                   exists vm, details = Some vm /\ Z.of_nat (size vm) < MIN_VALIDATORS
       | Panic _ => BLOCK_PROPOSER_NIL_BLOCK_START_BLOCK <= n /\ details = None
       end) w.
Proof.
  unfold getBlockProposer, isProposer, electorate.
  assert (HN : CONTEXT_BASED_START_BLOCK <= n -> BLOCK_PROPOSER_NIL_BLOCK_START_BLOCK <= n) 
    by (unfold CONTEXT_BASED_START_BLOCK, BLOCK_PROPOSER_NIL_BLOCK_START_BLOCK, VALIDATOR_NIL_BLOCK_START_BLOCK,
          STAKING_CONTRACT_V2_CUTOFF_BLOCK, FULL_SIGN_PROPOSAL_CUTOFF_BLOCK; lia).
  destruct (Z.leb_spec CONTEXT_BASED_START_BLOCK n), (Z.leb_spec BLOCK_PROPOSER_NIL_BLOCK_START_BLOCK n); try lia.
  1, 2: wp_norm; apply wp_must; destruct details as [vm|]; [|done].
  1, 2: wp_use getBlockProposerV2_wp; intros [p|e|] w1 [Hst Ho]; [|naive_solver..].
  1, 2: split; [done|]; exists (candidates vm n); split; [done|]; naive_solver.
  wp_use getBlockProposerV1_wp. intros [p|e|] w1 [Hst Ho]; naive_solver.
Qed.

Lemma getBlockProposer_preserves {S} (P : S -> Prop) parentHash deposits round details n ctx :
  preserves P (getBlockProposer parentHash deposits round details n ctx).
Proof. intros w Hw. wp_use getBlockProposer_wp. by intros o w' [-> _]. Qed.

Lemma getBlockProposer_safe {S} (P : S -> Prop) Q parentHash deposits round details n ctx :
  (BLOCK_PROPOSER_NIL_BLOCK_START_BLOCK <= n -> details <> None) ->
  safe P Q (getBlockProposer parentHash deposits round details n ctx).
Proof.
  intros Hd w Hw. wp_use getBlockProposer_wp. intros [p|e|e] w' [-> Ho]; (split; [done|]); try done.
  destruct Ho as [? ?]. by destruct (Hd ltac:(done)).
Qed.
End proposer_props.
#[export] Hint Resolve getBlockProposer_preserves : preserves.
#[export] Hint Resolve getBlockProposer_safe : safe.

(** * Validator filtering: specification and determinism *)

Section filter_props.
Context `{NodeConfig} `{Crypto} `{DRNG} `{GoRuntime}.

Lemma weight_add m X v :
  v ∉ X -> weight m ({[v]} ∪ X) = weight m X + dep m v.
Proof.
  intros Hv. unfold weight. rewrite sum_over_union by set_solver. rewrite sum_over_singleton. lia.
Qed.

Lemma big_deposits_lookup m v d :
  big_deposits m !! v = Some d <-> m !! v = Some d /\ MIN_VALIDATOR_DEPOSIT <= d.
Proof. unfold big_deposits. by rewrite map_lookup_filter_Some. Qed.

Lemma MIN_VALIDATOR_DEPOSIT_pos : 0 < MIN_VALIDATOR_DEPOSIT.
Proof. done. Qed.

Lemma big_deposits_dep m v : v ∈ dom (big_deposits m) -> 0 < dep (big_deposits m) v.
Proof.
  intros [d Hd]%elem_of_dom. unfold dep. rewrite Hd. apply big_deposits_lookup in Hd.
  pose proof MIN_VALIDATOR_DEPOSIT_pos. simpl. lia.
Qed.

(** A deposit is at most the total, so its normalised value is a byte. *)
Lemma normalized_range d total : 0 <= d <= total -> 0 < total ->
  0 <= SafeDivBigInt (SafeMulBigInt 255 d) total <= 255.
Proof.
  intros. unfold SafeDivBigInt, SafeMulBigInt, big_Div.
  destruct (Z.ltb_spec total 0); [lia|]. split.
  - apply Z.div_pos; lia.
  - apply Z.div_le_upper_bound; lia.
Qed.

Lemma dep_le_weight m v :
  (forall x, x ∈ dom m -> 0 <= dep m x) -> v ∈ dom m -> dep m v <= weight m (dom m).
Proof.
  intros Hpos Hv. unfold weight. rewrite <- (sum_over_singleton (dep m) v).
  apply sum_over_subset; set_solver.
Qed.

(** The deposit of a validator, normalised to a byte. *)
Definition share (deps : gmap Address Z) (v : Address) : Z := 255 * dep deps v / weight deps (dom deps).

(** The validators of the sorted list [l] whose share of the deposits reaches the
    random byte drawn at their position. *)
Definition drawn (rng : nat -> byte) (deps : gmap Address Z) (l : list Address) : gset Address :=
  list_to_set (concat (imap (fun i v => if bool_decide (Zb (rng i) <= share deps v) then [v] else []) l)).

Lemma drawn_snoc rng deps l v :
  drawn rng deps (l ++ [v])
  = drawn rng deps l ∪ (if bool_decide (Zb (rng (length l)) <= share deps v) then {[v]} else ∅).
Proof.
  unfold drawn. rewrite imap_app, concat_app, list_to_set_app_L. simpl. rewrite Nat.add_0_r, app_nil_r.
  f_equal. case_bool_decide; set_solver.
Qed.

Lemma elem_of_drawn rng deps l v :
  v ∈ drawn rng deps l <-> exists i, l !! i = Some v /\ Zb (rng i) <= share deps v.
Proof.
  unfold drawn. rewrite elem_of_list_to_set, list_elem_of_In, in_concat. split.
  - intros (x & Hx & Hv). apply list_elem_of_In, elem_of_lookup_imap in Hx as (i & y & -> & Hi).
    case_bool_decide; [|done]. destruct Hv as [<-|[]]. eauto.
  - intros (i & Hi & Hle). exists [v]. split; [|by left].
    apply list_elem_of_In, elem_of_lookup_imap. exists i, v. by rewrite bool_decide_true.
Qed.

(** The lottery never fails on positive deposits, and takes exactly the drawn
    validators. *)
Lemma lottery_wp {S} rng deps l (w : World S) :
  NoDup l -> (forall v, v ∈ l -> v ∈ dom deps) -> (forall v, v ∈ dom deps -> 0 < dep deps v) ->
  wp (foldM (lotteryStep rng deps (weight deps (dom deps))) (mkLottery ∅ 0 0) l)
    (fun o w' => w' = w /\ exists lot, o = Ok lot /\ filteredValidators lot = drawn rng deps l /\
       depositValueSoFar lot = weight deps (filteredValidators lot)) w.
Proof.
  intros Hnd Hl Hpos.
  apply wp_foldM with (I := fun dn lot w' => w' = w /\ filteredValidators lot = drawn rng deps dn /\
       drngPos lot = length dn /\ depositValueSoFar lot = weight deps (filteredValidators lot)).
  - split; [done|]. split; [done|]. split; [done|]. simpl. unfold weight. by rewrite sum_over_empty.
  - intros dn v rest lot w1 -> (-> & Hdr & Hpn & Hdep). unfold lotteryStep.
    assert (Hv : v ∈ dom deps) by (apply Hl; set_solver).
    pose proof (Hpos v Hv) as Hv0. pose proof (dep_le_weight deps v (fun x Hx => Z.lt_le_incl _ _ (Hpos x Hx)) Hv) as Hle.
    opose proof* (normalized_range (dep deps v) (weight deps (dom deps))); [lia..|].
    assert (Hfresh : v ∉ filteredValidators lot).
    { rewrite Hdr, elem_of_drawn. intros (i & Hi%list_elem_of_lookup_2 & _).
      apply NoDup_app in Hnd as (_ & Hd & _). set_solver. }
    assert (Hsh : SafeDivBigInt (SafeMulBigInt 255 (dep deps v)) (weight deps (dom deps)) = share deps v).
    { unfold SafeDivBigInt, SafeMulBigInt, big_Div, share. by destruct (Z.ltb_spec (weight deps (dom deps)) 0); [lia|]. }
    assert (deps !! v = Some (dep deps v)) as ->.
    { apply elem_of_dom in Hv as [d Hd]. unfold dep. by rewrite Hd. }
    wp_step; [|done]. simplify_eq.
    wp_step; [lia|]. wp_step. rewrite Hsh, drawn_snoc, length_app, <- Hdr, <- Hpn.
    destruct (Z.leb_spec (Zb (rng (drngPos lot))) (share deps v)); simpl; (split; [done|]).
    + rewrite bool_decide_true by done. split; [set_solver|]. split; [lia|].
      rewrite weight_add by done. unfold SafeAddBigInt. lia.
    + rewrite bool_decide_false by lia. split; [set_solver|]. split; [lia|done].
  - intros lot w1 (-> & ? & _ & ?). eauto.
Qed.

(** The selection at which the top-up loop stops. *)
Definition full (deps : gmap Address Z) (X : gset Address) : Prop :=
  Z.of_nat (size X) = MAX_VALIDATORS /\ MIN_BLOCK_DEPOSIT <= weight deps X.

(** The drawn validators [X] completed with the first [k] of the others. *)
Definition upTo (X : gset Address) (l : list Address) (k : nat) : gset Address :=
  X ∪ list_to_set (take k (filter (fun v => v ∉ X) l)).

Lemma upTo_in X v l k : v ∈ X -> upTo X (v :: l) k = upTo X l k.
Proof. intros Hv. unfold upTo. by rewrite filter_cons, decide_False by set_solver. Qed.

Lemma upTo_cons X v l k : v ∉ X -> v ∉ l -> upTo X (v :: l) (Datatypes.S k) = upTo ({[v]} ∪ X) l k.
Proof.
  intros Hv Hl. unfold upTo. rewrite filter_cons, decide_True by done. simpl.
  rewrite (filter_iff_in (fun y => y ∉ {[v]} ∪ X) (fun y => y ∉ X)) by set_solver. set_solver.
Qed.

(** The loop adds the others one by one, until the selection is full or there is
    no other left. *)
Lemma topUp_wp {S} deps l : forall acc (w : World S),
  NoDup l -> (forall v, v ∈ l -> v ∈ dom deps) -> acc.2 = weight deps acc.1 ->
  wp (topUp deps acc l)
    (fun o w' => w' = w /\ exists sel k, o = Ok sel /\ sel.1 = upTo acc.1 l k
       /\ (full deps sel.1 \/ acc.1 ∪ list_to_set l ⊆ sel.1)
       /\ forall j, (0 < j < k)%nat -> ~ full deps (upTo acc.1 l j)) w.
Proof.
  induction l as [|v l IH]; intros acc w Hnd Hl Hw; simpl.
  { apply wp_ret. split; [done|]. exists acc, 0%nat. unfold upTo. simpl.
    split_and!; [done|set_solver|set_solver|lia]. }
  inversion_clear Hnd as [|?? Hvl Hnd']. destruct (decide (v ∈ acc.1)) as [Hin|Hnin].
  { eapply wp_mono; [apply IH; [done|set_solver|done]|]. simpl.
    intros o w' (-> & sel & k & -> & Heq & Hc & Hj). split; [done|]. exists sel, k.
    rewrite upTo_in by done. split_and!; [done..|set_solver|]. intros j. rewrite upTo_in by done. auto. }
  assert (Hv : v ∈ dom deps) by (apply Hl; set_solver).
  assert (deps !! v = Some (dep deps v)) as ->.
  { apply elem_of_dom in Hv as [d Hd]. unfold dep. by rewrite Hd. }
  wp_step; [|done]. simplify_eq.
  assert (Hw' : SafeAddBigInt acc.2 (dep deps v) = weight deps ({[v]} ∪ acc.1)).
  { rewrite weight_add by done. unfold SafeAddBigInt. lia. }
  assert (Hfirst : upTo acc.1 (v :: l) 1 = {[v]} ∪ acc.1).
  { rewrite upTo_cons by done. unfold upTo. simpl. set_solver. }
  wp_step.
  - wp_step. split; [done|]. eexists _, 1%nat. split; [done|]. simpl in *. rewrite Hfirst.
    split_and!; [done|left; unfold full; lia|lia].
  - wp_use IH; [done|set_solver|done|]. simpl in *.
    intros o w' (-> & sel & k & -> & Heq & Hc & Hj). split; [done|]. exists sel, (Datatypes.S k).
    rewrite upTo_cons by done. split_and!; [done..|set_solver|].
    intros [|[|j]] Hjk; [lia| |rewrite upTo_cons by done; apply Hj; lia].
    rewrite Hfirst. unfold full. lia.
Qed.

(** The weighted selection among the deposits [deps]: the validators are listed by
    the hash of their address with the parent hash; those that the lottery draws
    are selected, and if they are fewer than [MAX_VALIDATORS] or hold too little,
    the others are added from the start of the list until there are
    [MAX_VALIDATORS] that hold enough, or no other is left. *)
Definition selection (parentHash : Hash) (rng : nat -> byte) (deps : gmap Address Z) (sel : gset Address) : Prop :=
  exists l, l ≡ₚ elements (dom deps)
    /\ StronglySorted (fun x y => bytes_le (filterKey parentHash x) (filterKey parentHash y)) l
    /\ let X := drawn rng deps l in
       if decide (MAX_VALIDATORS <= Z.of_nat (size X) /\ MIN_BLOCK_DEPOSIT <= weight deps X)
       then sel = X
       else exists k, sel = upTo X l k /\ (full deps sel \/ sel = dom deps)
              /\ forall j, (j < k)%nat -> ~ full deps (upTo X l j).

Lemma size_dom_le (deps : gmap Address Z) (X : gset Address) : dom deps ⊆ X -> (size deps <= size X)%nat.
Proof. intros. rewrite <- (size_dom (D := gset Address) deps). by apply subseteq_size. Qed.

Lemma drawn_subset rng deps l : drawn rng deps l ⊆ list_to_set l.
Proof. intros v (i & Hi%list_elem_of_lookup_2 & _)%elem_of_drawn. by apply elem_of_list_to_set. Qed.

Lemma upTo_subset X l k : upTo X l k ⊆ X ∪ list_to_set l.
Proof.
  unfold upTo. intros v [Hv|Hv%elem_of_list_to_set]%elem_of_union; [set_solver|].
  apply elem_of_take in Hv as (i & Hi & _). apply list_elem_of_lookup_2, list_elem_of_filter in Hi. set_solver.
Qed.

(** A selection has at least [MAX_VALIDATORS] members and enough deposits. *)
Lemma selection_bounds parentHash rng deps sel :
  MAX_VALIDATORS < Z.of_nat (size deps) -> MIN_BLOCK_DEPOSIT <= weight deps (dom deps) ->
  selection parentHash rng deps sel ->
  sel ⊆ dom deps /\ MAX_VALIDATORS <= Z.of_nat (size sel) /\ MIN_BLOCK_DEPOSIT <= weight deps sel.
Proof.
  intros Hsize Htotal (l & Hp & _ & Hs). cbn zeta in Hs. set (X := drawn rng deps l) in *.
  assert (Hl : list_to_set l = (dom deps : gset Address)).
  { apply set_eq. intros v. by rewrite elem_of_list_to_set, Hp, elem_of_elements. }
  assert (HX : X ⊆ dom deps) by (rewrite <- Hl; apply drawn_subset).
  destruct (decide _) as [[? ?]|_]; [by subst sel|].
  destruct Hs as (k & -> & Hf & _). split.
  { etrans; [apply upTo_subset|]. rewrite Hl. set_solver. }
  destruct Hf as [[-> ?]| ->]; [done|]. rewrite size_dom. split; [lia|done].
Qed.

Lemma selectValidators_wp {S} parentHash deps (w : World S) :
  (forall v, v ∈ dom deps -> 0 < dep deps v) ->
  wp (selectValidators parentHash deps (weight deps (dom deps)))
    (fun o w' => w_st w' = w_st w /\
       match InitializeWithSeed parentHash with
       | None => o = Fail (ErrorsNew "drng")
       | Some rng => exists sel, o = Ok sel /\ selection parentHash rng deps sel
       end) w.
Proof.
  intros Hpos. unfold selectValidators.
  destruct (InitializeWithSeed parentHash) as [rng|]; [|by wp_step]. wp_step.
  pose proof (range_keys_perm deps _ H3) as Hk. change (map fst l) with l.*1.
  pose proof (sort_by_key_perm (filterKey parentHash) l.*1) as Hs.
  apply (Permutation_trans Hs) in Hk. clear Hs. rename Hk into Hs.
  pose proof (sort_by_key_sorted (filterKey parentHash) l.*1) as Hsort.
  revert Hs Hsort. generalize (sort_by_key (filterKey parentHash) l.*1) as vl. intros vl Hs Hsort.
  assert (Hin : forall v, v ∈ vl <-> v ∈ dom deps) by (intros v; rewrite Hs; apply elem_of_elements).
  assert (Hnd : NoDup vl) by (rewrite Hs; apply NoDup_elements).
  wp_use lottery_wp; [done|naive_solver|done|].
  intros o w1 (-> & lot & -> & Hdr & Hdep). rewrite Hdr in Hdep. wp_step.
  - wp_use topUp_wp; [done|naive_solver|simpl; congruence|].
    simpl. intros o w1 (-> & [sel dv] & k & -> & Hsel & Hc & Hj). simpl in *. wp_step.
    split; [done|]. exists sel. split; [done|]. exists vl. split_and!; [done..|]. cbn zeta.
    rewrite Hdr in *. rewrite decide_False by lia. exists k. split; [done|].
    assert (Hall : list_to_set vl = (dom deps : gset Address)).
    { apply set_eq. intros v. rewrite elem_of_list_to_set. apply Hin. }
    pose proof (drawn_subset rng deps vl) as HX. rewrite Hall in HX. split.
    + destruct Hc as [Hc|Hc]; [by left|right]. pose proof (upTo_subset (drawn rng deps vl) vl k). set_solver.
    + intros [|j] Hjk; [|apply Hj; lia]. unfold upTo, full. simpl. rewrite (right_id_L ∅ (∪)). intros [? ?]. lia.
  - wp_step. split; [done|]. eexists. split; [done|]. exists vl. split_and!; [done..|]. cbn zeta.
    rewrite Hdr in *. rewrite decide_True by lia. done.
Qed.

(** The deposits of the selection are added up in any order. *)
Lemma addDeposits_wp {S} deps sel vals (w : World S) :
  sel ⊆ dom deps -> vals ≡ₚ map_to_list (gset_to_gmap () sel) ->
  wp (foldM (addDeposit deps) 0 vals) (fun o w' => w' = w /\ o = Ok (weight deps sel)) w.
Proof.
  intros Hsub Hp. pose proof (range_keys_perm _ _ Hp) as Hk. rewrite dom_gset_to_gmap in Hk.
  apply wp_foldM with (I := fun dn acc w' => w' = w /\ acc = zsum (dep deps <$> dn.*1)); [done|..].
  - intros dn [v []] rest acc w1 Heq [-> ->]. unfold addDeposit. simpl.
    assert (Hv : v ∈ vals.*1) by (rewrite Heq, fmap_app; set_solver).
    rewrite Hk in Hv. apply elem_of_elements, Hsub, elem_of_dom in Hv as [d Hd].
    rewrite Hd. wp_step; [|done]. wp_step. split; [done|]. simplify_eq.
    rewrite !fmap_app, zsum_app. simpl. unfold dep at 3. rewrite Hd. simpl. unfold SafeAddBigInt, zsum. simpl. lia.
  - intros acc w1 [-> ->]. split; [done|]. f_equal. unfold weight, sum_over. by rewrite Hk.
Qed.

(** What [filterValidators] promises on success. *)
Record filter_spec (vd : gmap Address Z) (n : Z) (r : FilterResult) : Prop := {
  fs_deposits : fr_deposits r = big_deposits vd;
  fs_subset : fr_validators r ⊆ dom (big_deposits vd);
  fs_all : Z.of_nat (size (big_deposits vd)) <= MAX_VALIDATORS -> fr_validators r = dom (big_deposits vd);
  fs_many : MAX_VALIDATORS < Z.of_nat (size (big_deposits vd)) -> MAX_VALIDATORS <= Z.of_nat (size (fr_validators r));
  fs_count : MIN_VALIDATORS <= Z.of_nat (size (fr_validators r));
  fs_value : fr_depositValue r = weight vd (fr_validators r);
  fs_min_block : MIN_BLOCK_DEPOSIT <= fr_depositValue r;
  fs_required : fr_minRequired r = SafeRelativePercentageBigInt (fr_depositValue r) (minPercentage n);
}.

(** The three reasons for which it refuses a block. *)
Definition filter_outcome (parentHash : Hash) (vd : gmap Address Z) (n : Z) (o : outcome FilterResult) : Prop :=
  if decide (Z.of_nat (size (big_deposits vd)) < MIN_VALIDATORS)
  then o = Fail (ErrorsNew "number of validators less than minimum")
  else if decide (weight vd (dom (big_deposits vd)) < MIN_BLOCK_DEPOSIT)
  then o = Fail (ErrorsNew "min block deposit not met")
  else if decide (MAX_VALIDATORS < Z.of_nat (size (big_deposits vd)) /\ InitializeWithSeed parentHash = None)
  then o = Fail (ErrorsNew "drng")
  else exists r, o = Ok r /\ filter_spec vd n r
    /\ forall rng, MAX_VALIDATORS < Z.of_nat (size (big_deposits vd)) -> InitializeWithSeed parentHash = Some rng ->
         selection parentHash rng (big_deposits vd) (fr_validators r).

Lemma weight_big vd X : X ⊆ dom (big_deposits vd) -> weight (big_deposits vd) X = weight vd X.
Proof. apply weight_dom_subset, map_filter_subseteq. Qed.

Lemma filterValidators_wp {S} parentHash vd n (w : World S) :
  wp (filterValidators parentHash vd n)
    (fun o w' => w_st w' = w_st w /\ filter_outcome parentHash vd n o) w.
Proof.
  pose proof MIN_VALIDATORS_range. unfold filterValidators, filter_outcome. wp_step.
  rewrite dropSmall_range by done.
  destruct (decide (Z.of_nat (size (big_deposits vd)) < MIN_VALIDATORS)).
  { wp_step; [done|lia]. }
  wp_step; [lia|]. destruct (decide (weight vd (dom (big_deposits vd)) < MIN_BLOCK_DEPOSIT)).
  { wp_step; [done|lia]. }
  wp_step; [lia|].
  set (big := big_deposits vd) in *.
  assert (Hb : weight vd (dom big) = weight big (dom big)) by (symmetry; by apply weight_big).
  (* the selection, then the sum *)
  wp_norm. eapply wp_mono with (P := fun o w' => w_st w' = w_st w /\
    if decide (MAX_VALIDATORS < Z.of_nat (size big) /\ InitializeWithSeed parentHash = None)
    then o = Fail (ErrorsNew "drng")
    else exists sel, o = Ok sel /\ sel ⊆ dom big /\ MIN_BLOCK_DEPOSIT <= weight big sel /\
      (if decide (Z.of_nat (size big) <= MAX_VALIDATORS) then sel = dom big
       else MAX_VALIDATORS <= Z.of_nat (size sel)) /\
      forall rng, MAX_VALIDATORS < Z.of_nat (size big) -> InitializeWithSeed parentHash = Some rng ->
        selection parentHash rng big sel).
  - wp_step.
    + wp_step. split; [done|]. rewrite decide_False by lia. exists (dom big).
      rewrite decide_True by lia. repeat split; [done|lia..].
    + rewrite Hb. eapply wp_mono; [apply selectValidators_wp; apply big_deposits_dep|].
      intros o w1 [Hst Ho]. split; [done|].
      destruct (InitializeWithSeed parentHash) eqn:Hi.
      * rewrite decide_False by (intros [_ ?]; done). destruct Ho as (sel & -> & Hs).
        apply selection_bounds in Hs as Hs'; [destruct Hs' as (? & ? & ?)|lia..].
        exists sel. rewrite decide_False by lia. split_and!; [done..|]. by intros rng _ [= <-].
      * rewrite decide_True by (split; [lia|done]). done.
  - intros o w1 [Hst Ho]. destruct (decide _) as [Hd|Hd].
    { subst o. simpl. by split. }
    destruct Ho as (sel & -> & Hsub & Hmin & Hsel & Hlot). wp_norm. wp_step.
    wp_use addDeposits_wp; [done|done|]. intros o w2 [-> ->].
    wp_step; [lia|]. wp_step. split; [done|]. eexists. split; [done|]. split; [|exact Hlot].
    assert (Hsz : size (dom big : gset Address) = size big) by apply size_dom.
    split; simpl; auto; try (by apply weight_big);
      destruct (decide (Z.of_nat (size big) <= MAX_VALIDATORS)); subst sel || idtac; fold big; try lia; try done.
Qed.

Lemma filterValidators_preserves {S} (P : S -> Prop) parentHash vd n : preserves P (filterValidators parentHash vd n).
Proof. intros w Hw. wp_use filterValidators_wp. by intros o w' [-> _]. Qed.

Lemma filterValidators_safe {S} (P : S -> Prop) Q parentHash vd n : safe P Q (filterValidators parentHash vd n).
Proof.
  intros w Hw. wp_use filterValidators_wp. intros o w' [-> Ho]. split; [done|].
  unfold filter_outcome in Ho. repeat case_decide; naive_solver.
Qed.
End filter_props.
#[export] Hint Resolve filterValidators_preserves : preserves.
#[export] Hint Resolve filterValidators_safe : safe.

(** ** The selection does not depend on the runtime *)

Section filter_det.
Context `{NodeConfig} `{Crypto} `{DRNG}.

Lemma topUp_pure {S} deps l : forall acc, pureM (topUp deps acc l : M S _).
Proof.
  induction l as [|v l IH]; intros acc; simpl; [auto with pureM|].
  destruct (decide _); [done|]. apply pureM_bind; [auto with pureM|]. intros d.
  case_match; auto with pureM.
Qed.

Lemma lotteryStep_pure {S} rng deps t acc v : pureM (lotteryStep rng deps t acc v : M S _).
Proof. unfold lotteryStep. auto with pureM. Qed.

(** The selection for a given order of the validators. *)
Definition selectFrom {S} rng deps total (l : list Address) : M S (gset Address) :=
  lot ← foldM (lotteryStep rng deps total) (mkLottery ∅ 0 0) l;
  if Z.ltb (Z.of_nat (size (filteredValidators lot))) MAX_VALIDATORS
     || Z.ltb (depositValueSoFar lot) MIN_BLOCK_DEPOSIT
  then '(sel, _) ← topUp deps (filteredValidators lot, depositValueSoFar lot) l; mret sel
  else mret (filteredValidators lot).

Lemma selectFrom_pure {S} rng deps total l : pureM (selectFrom rng deps total l : M S _).
Proof.
  unfold selectFrom. apply pureM_bind; [apply pureM_foldM; intros; apply lotteryStep_pure|].
  intros lot. case_match; [|auto with pureM].
  apply pureM_bind; [apply topUp_pure|]. intros []; auto with pureM.
Qed.

(** [selectValidators] runs [selectFrom] on the one sorted list of the map's keys. *)
Lemma selectValidators_canonical `{GoRuntime} {S} parentHash deps total (w w0 : World S) :
  (forall x y, x ∈ dom deps -> y ∈ dom deps -> filterKey parentHash x = filterKey parentHash y -> x = y) ->
  wp (selectValidators parentHash deps total)
    (fun o w' => o = match InitializeWithSeed parentHash with
                     | None => Fail (ErrorsNew "drng")
                     | Some rng => out (selectFrom rng deps total
                         (sort_by_key (filterKey parentHash) (elements (dom deps)))) w0
                     end) w.
Proof.
  intros Hinj. unfold selectValidators. destruct (InitializeWithSeed parentHash) as [rng|]; [|by wp_step].
  wp_step. pose proof (range_keys_perm _ _ H3) as Hk. change (map fst l) with l.*1.
  rewrite (sort_by_key_unique _ l.*1 (elements (dom deps))); [|intros x y; rewrite Hk, !elem_of_elements; auto|done].
  apply wp_bind_inv, (pureM_wp (selectFrom rng deps total _) _ w0); [apply selectFrom_pure|done].
Qed.

(** The reference: the filter on the sorted list of validators. *)
Definition select_ref {S} parentHash deps total (w0 : World S) : outcome (gset Address) :=
  if Z.leb (Z.of_nat (size deps)) MAX_VALIDATORS then Ok (dom deps)
  else match InitializeWithSeed parentHash with
       | None => Fail (ErrorsNew "drng")
       | Some rng => out (selectFrom rng deps total
           (sort_by_key (filterKey parentHash) (elements (dom deps)))) w0
       end.

Definition filter_ref {S} parentHash (vd : gmap Address Z) n (w0 : World S) : outcome FilterResult :=
  let big := big_deposits vd in
  if Z.ltb (Z.of_nat (size big)) MIN_VALIDATORS
  then Fail (ErrorsNew "number of validators less than minimum")
  else if Z.ltb (weight vd (dom big)) MIN_BLOCK_DEPOSIT
  then Fail (ErrorsNew "min block deposit not met")
  else outcome_map (fun sel => {| fr_validators := sel; fr_depositValue := weight big sel;
      fr_minRequired := SafeRelativePercentageBigInt (weight big sel) (minPercentage n);
      fr_deposits := big |}) (select_ref parentHash big (weight vd (dom big)) w0).

Lemma filterValidators_canonical `{GoRuntime} {S} parentHash vd n (w w0 : World S) :
  (forall x y, x ∈ dom vd -> y ∈ dom vd -> filterKey parentHash x = filterKey parentHash y -> x = y) ->
  wp (filterValidators parentHash vd n) (fun o _ => o = filter_ref parentHash vd n w0) w.
Proof.
  intros Hinj. unfold filterValidators, filter_ref. wp_step. rewrite dropSmall_range by done.
  cbn zeta. set (big := big_deposits vd) in *.
  assert (Hsubd : (dom big : gset Address) ⊆ dom vd) by apply dom_filter_subseteq.
  assert (Hb : weight vd (dom big) = weight big (dom big)) by (symmetry; by apply weight_big).
  destruct (Z.ltb_spec (Z.of_nat (size big)) MIN_VALIDATORS); [by wp_step|]. wp_step; [done|].
  destruct (Z.ltb_spec (weight vd (dom big)) MIN_BLOCK_DEPOSIT); [by wp_step|]. wp_step; [done|].
  wp_norm. eapply wp_mono with (P := fun o w' => o = select_ref parentHash big (weight vd (dom big)) w0 /\
    forall sel, o = Ok sel -> sel ⊆ dom big /\ MIN_BLOCK_DEPOSIT <= weight big sel).
  - unfold select_ref. wp_step; [wp_step; split; [done|]; intros ? [= <-]; split; [done|lia]|].
    rewrite Hb. eapply wp_mono; [apply wp_conj; [apply (selectValidators_canonical _ _ _ _ w0)
      |apply selectValidators_wp; apply big_deposits_dep]|]; [set_solver|].
    intros o w1 [-> [_ Ho]]. split; [done|]. intros sel Hsel.
    destruct (InitializeWithSeed parentHash); [|congruence].
    destruct Ho as (sel' & Ho & Hs). rewrite Ho in Hsel. simplify_eq.
    apply selection_bounds in Hs as (? & _ & ?); [done|lia..].
  - intros o w1 [Heq Hsel]. rewrite <- Heq. destruct o as [sel|e|p]; [|done..].
    destruct (Hsel sel eq_refl) as [Hsub Hmin]. wp_step.
    wp_use addDeposits_wp; [done|done|]. intros o w2 [-> ->]. wp_step; [lia|]. by wp_step.
Qed.
End filter_det.

(** * Facts used by the theorems *)

Lemma maxBlockDelay_range n : 1024 <= maxBlockDelay n <= 16384.
Proof.
  unfold maxBlockDelay, BLOCK_PROPOSER_OFFLINE_MAX_DELAY_BLOCK_COUNT_V2,
    BLOCK_PROPOSER_OFFLINE_MAX_DELAY_BLOCK_COUNT. case_match; lia.
Qed.

Lemma minPercentage_range n : 60 <= minPercentage n <= 70.
Proof.
  unfold minPercentage, MIN_BLOCK_TRANSACTION_WEIGHTED_PROPOSALS_PERCENTAGE,
    MIN_BLOCK_TRANSACTION_WEIGHTED_PROPOSALS_PERCENTAGE_V2. case_match; lia.
Qed.

Lemma filter_outcome_ok `{NodeConfig} `{Crypto} `{DRNG} ph vd n r :
  filter_outcome ph vd n (Ok r) -> filter_spec vd n r.
Proof. unfold filter_outcome. repeat (destruct (decide _); [done|]). naive_solver. Qed.

Lemma filter_dep_nonneg `{NodeConfig} vd n r v :
  filter_spec vd n r -> v ∈ fr_validators r -> 0 <= dep vd v.
Proof.
  intros Hs Hv%(fs_subset _ _ _ Hs). apply elem_of_dom in Hv as [d Hd].
  apply big_deposits_lookup in Hd as [Hd ?]. unfold dep. rewrite Hd. simpl.
  pose proof MIN_VALIDATOR_DEPOSIT_pos. lia.
Qed.

(** The deposits that remain after the deletion of the validators that were not
    selected. *)
Definition selectedDeposits (r : FilterResult) : gmap Address Z :=
  filter (fun kv => kv.1 ∈ fr_validators r) (fr_deposits r).

Section selected.
Context `{NodeConfig} (vd : gmap Address Z) (n : Z) (r : FilterResult) (Hs : filter_spec vd n r).

Lemma selectedDeposits_lookup v d :
  selectedDeposits r !! v = Some d <-> v ∈ fr_validators r /\ vd !! v = Some d /\ MIN_VALIDATOR_DEPOSIT <= d.
Proof.
  unfold selectedDeposits. rewrite (fs_deposits _ _ _ Hs), map_lookup_filter_Some, big_deposits_lookup.
  simpl. tauto.
Qed.

Lemma selectedDeposits_dom : dom (selectedDeposits r) = fr_validators r.
Proof.
  apply set_eq. intros v. rewrite elem_of_dom. split.
  - intros [d Hd%selectedDeposits_lookup]. naive_solver.
  - intros Hv. pose proof (fs_subset _ _ _ Hs v Hv) as [d Hd]%elem_of_dom.
    exists d. apply selectedDeposits_lookup. by apply big_deposits_lookup in Hd.
Qed.

Lemma selectedDeposits_subseteq : selectedDeposits r ⊆ vd.
Proof. apply map_subseteq_spec. intros v d Hd%selectedDeposits_lookup. naive_solver. Qed.

Lemma selectedDeposits_weight X : X ⊆ fr_validators r -> weight (selectedDeposits r) X = weight vd X.
Proof.
  intros HX. apply weight_dom_subset; [apply selectedDeposits_subseteq|]. by rewrite selectedDeposits_dom.
Qed.

Lemma selectedDeposits_pos v : v ∈ fr_validators r -> 0 < dep (selectedDeposits r) v.
Proof.
  rewrite <- selectedDeposits_dom, elem_of_dom. intros [d Hd]. unfold dep. rewrite Hd. simpl.
  apply selectedDeposits_lookup in Hd. pose proof MIN_VALIDATOR_DEPOSIT_pos. lia.
Qed.

Lemma selectedDeposits_total : weight (selectedDeposits r) (dom (selectedDeposits r)) = fr_depositValue r.
Proof. by rewrite selectedDeposits_dom, selectedDeposits_weight, <- (fs_value _ _ _ Hs). Qed.

(** No deposit of a selected validator is small. *)
Lemma selectedDeposits_big : big_deposits (selectedDeposits r) = selectedDeposits r.
Proof.
  apply map_filter_id. intros v d Hd%selectedDeposits_lookup. naive_solver.
Qed.

Lemma required_pos : 0 < fr_minRequired r.
Proof.
  pose proof (SafeRelativePercentageBigInt_bounds (fr_depositValue r) (minPercentage n)) as Hp.
  rewrite <- (fs_required _ _ _ Hs) in Hp. pose proof (fs_min_block _ _ _ Hs).
  pose proof (minPercentage_range n). unfold MIN_BLOCK_DEPOSIT, EtherToWei, Ether in *. nia.
Qed.

(** Two groups that hold the required deposit overlap. *)
Lemma quorum_overlap X Y :
  X ⊆ fr_validators r -> Y ⊆ fr_validators r ->
  fr_minRequired r <= weight vd X -> fr_minRequired r <= weight vd Y ->
  (2 * minPercentage n - 100) * fr_depositValue r - 200 < 100 * weight vd (X ∩ Y) /\ X ∩ Y <> ∅.
Proof.
  intros HX HY HwX HwY.
  pose proof (SafeRelativePercentageBigInt_bounds (fr_depositValue r) (minPercentage n)) as Hp.
  rewrite <- (fs_required _ _ _ Hs) in Hp.
  pose proof (sum_over_overlap (dep vd) X Y (fr_validators r)
    (fun v Hv => filter_dep_nonneg vd n r v Hs Hv) HX HY) as Hov.
  fold (weight vd X) (weight vd Y) (weight vd (fr_validators r)) (weight vd (X ∩ Y)) in Hov.
  rewrite <- (fs_value _ _ _ Hs) in Hov.
  assert (Hgt : (2 * minPercentage n - 100) * fr_depositValue r - 200 < 100 * weight vd (X ∩ Y)) by lia.
  split; [done|]. intros He. rewrite He in Hgt. unfold weight in Hgt. rewrite sum_over_empty in Hgt.
  pose proof (fs_min_block _ _ _ Hs). pose proof (minPercentage_range n).
  unfold MIN_BLOCK_DEPOSIT, EtherToWei, Ether in *. nia.
Qed.
End selected.

(** * Theorems *)

Section theorems.
Context `{FloatConv} `{NodeConfig} `{Crypto} `{DRNG}.

(** C23: [getBlockProposerV2] is total and correct.  With at least
    [MIN_VALIDATORS] validators it returns the validator whose hash key is least
    among the candidates (those whose back-off has expired, or everyone when
    fewer than [MIN_VALIDATORS] have); with fewer it returns the error; it never
    panics, whatever the order in which the maps are visited. *)
Theorem getBlockProposerV2_correct `{GoRuntime} {S} ctx vm round n (w : World S) :
  if decide (MIN_VALIDATORS <= Z.of_nat (size vm))
  then exists p, out (getBlockProposerV2 ctx vm round n) w = Ok p /\
         least_key (proposerKey ctx round) (candidates vm n) p /\ p ∈ dom vm
  else exists e, out (getBlockProposerV2 ctx vm round n) w = Fail e.
Proof.
  pose proof (getBlockProposerV2_wp ctx vm round n w) as [_ Hw]%wp_run.
  destruct (decide _); destruct (out _ w) as [p|e|]; try (exfalso; lia); try done; [|by eexists].
  destruct Hw as [_ Hleast]. exists p. split; [done|]. split; [done|].
  apply (candidates_subset vm n), Hleast.
Qed.

(** Every node picks the same proposer.  When the hash separates the
    validators of the map, the outcome of [getBlockProposerV2] is the same under
    any two runtimes (map iteration orders, clocks) and any two states. *)
Theorem getBlockProposerV2_deterministic {S} (R1 R2 : GoRuntime) ctx vm round n (w1 w2 : World S)
  (Hinj : forall x y, x ∈ dom vm -> y ∈ dom vm ->
     proposerKey ctx round x = proposerKey ctx round y -> x = y) :
  @out S _ (@getBlockProposerV2 _ _ _ R1 S ctx vm round n) w1 =
  @out S _ (@getBlockProposerV2 _ _ _ R2 S ctx vm round n) w2.
Proof.
  pose proof (@getBlockProposerV2_wp _ _ _ R1 _ ctx vm round n w1) as [_ Hw1]%wp_run.
  pose proof (@getBlockProposerV2_wp _ _ _ R2 _ ctx vm round n w2) as [_ Hw2]%wp_run.
  destruct (@out _ _ (@getBlockProposerV2 _ _ _ R1 _ _ _ _ _) w1) as [p|e|] eqn:E1,
    (@out _ _ (@getBlockProposerV2 _ _ _ R2 _ _ _ _ _) w2) as [q|e'|] eqn:E2; try done; try (exfalso; lia).
  - f_equal. apply (least_key_unique (proposerKey ctx round) (candidates vm n)); [|naive_solver..].
    intros x y Hx%candidates_subset Hy%candidates_subset. auto.
  - destruct Hw1, Hw2. congruence.
Qed.

(** The exact back-off of [canPropose].  For counters below 128 (where the
    float conversion is defined) and no wrap of the 64-bit sum, a validator may
    propose exactly when it never missed a block, or when
    min(2^(missed/2), maximum delay) blocks have passed since its last nil block. *)
Theorem canPropose_backoff v n
  (Hcount : 0 <= NilBlockCount v < 128)
  (Hlast : 0 <= LastNiLBlock v < 2 ^ 64 - 16384) :
  canPropose v n = true <->
  LastNiLBlock v = 0 \/
  LastNiLBlock v + Z.min (2 ^ (NilBlockCount v / 2)) (maxBlockDelay n) <= n.
Proof.
  unfold canPropose, big_Uint64, BLOCK_PROPOSER_OFFLINE_NIL_BLOCK_MULTIPLIER, pow2_uint64.
  rewrite !Z.abs_eq, (u64_small (NilBlockCount v)), (u64_small (LastNiLBlock v)) by (unfold is_u64; lia).
  destruct (Z.eqb_spec (LastNiLBlock v) 0); [naive_solver|].
  pose proof (Z.div_lt_upper_bound (NilBlockCount v) 2 64 ltac:(lia) ltac:(lia)).
  pose proof (Z.div_pos (NilBlockCount v) 2 ltac:(lia) ltac:(lia)).
  destruct (Z.ltb_spec (NilBlockCount v / 2) 64); [|lia].
  pose proof (Z.pow_pos_nonneg 2 (NilBlockCount v / 2) ltac:(lia) ltac:(lia)).
  pose proof (maxBlockDelay_range n).
  destruct (Z.ltb_spec (maxBlockDelay n) (2 ^ (NilBlockCount v / 2)));
    rewrite u64_small by (unfold is_u64; lia); rewrite Z.leb_le; lia.
Qed.

(** The back-off is bounded.  Whatever the nil-block counter and whatever
    the platform's conversion of an out-of-range float to uint64, a validator
    may propose again [maxBlockDelay] (1024, later 16384) blocks after its last
    nil block. *)
Theorem canPropose_bounded v n
  (Hlast : 0 <= LastNiLBlock v < 2 ^ 64 - 16384)
  (Hpassed : LastNiLBlock v + maxBlockDelay n <= n) :
  canPropose v n = true.
Proof.
  unfold canPropose. destruct (Z.eqb _ 0); [done|]. cbn zeta. pose proof (maxBlockDelay_range n).
  set (d := pow2_uint64 _). assert (Hd : 0 <= d).
  { unfold d, pow2_uint64. case_match; [apply Z.pow_nonneg; lia|apply u64_range]. }
  unfold big_Uint64. rewrite Z.abs_eq, (u64_small (LastNiLBlock v)) by (unfold is_u64; lia).
  destruct (Z.ltb_spec (maxBlockDelay n) d); rewrite u64_small by (unfold is_u64; lia);
    apply Z.leb_le; lia.
Qed.

(** C22: [filterValidators] is total and correct.  It refuses only for too few
    validators, too small a total deposit, or a failing random generator; it
    never panics and its later checks never fail.  On success it keeps exactly
    the validators with a sufficient deposit when there are at most
    [MAX_VALIDATORS] of them.  When there are more, it makes the [selection]:
    the validators sorted by hash are drawn when 255 times their share of the
    deposits reaches the random byte of their position, and if those are too few
    or hold too little, the others are added in the same order until there are
    exactly [MAX_VALIDATORS] that hold enough, or all are selected.  (A draw of
    more than [MAX_VALIDATORS] is kept as it is: there are at least, not at most,
    [MAX_VALIDATORS].)  The returned deposit is the sum of the selected deposits
    and reaches [MIN_BLOCK_DEPOSIT]; the required deposit is 70% (60% from
    [SixtyVoteStartBlock] on) of it. *)
Theorem filterValidators_correct `{GoRuntime} {S} parentHash vd n (w : World S) :
  filter_outcome parentHash vd n (out (filterValidators parentHash vd n) w) /\
  exec (filterValidators parentHash vd n) w = w_st w.
Proof. by pose proof (filterValidators_wp parentHash vd n w) as [? ?]%wp_run. Qed.

(** Every node selects the same validators: when the hash separates the
    validators, the outcome of [filterValidators] is the same under any two
    runtimes and any two states. *)
Theorem filterValidators_deterministic {S} (R1 R2 : GoRuntime) parentHash vd n (w1 w2 : World S)
  (Hinj : forall x y, x ∈ dom vd -> y ∈ dom vd ->
     filterKey parentHash x = filterKey parentHash y -> x = y) :
  @out S _ (@filterValidators _ _ _ R1 S parentHash vd n) w1 =
  @out S _ (@filterValidators _ _ _ R2 S parentHash vd n) w2.
Proof.
  pose proof (@filterValidators_canonical _ _ _ R1 _ parentHash vd n w1 w1 Hinj) as ->%wp_run.
  by pose proof (@filterValidators_canonical _ _ _ R2 _ parentHash vd n w2 w1 Hinj) as ->%wp_run.
Qed.

(** Quorum intersection.  Two groups of selected validators that each hold
    the required deposit share validators holding more than
    (2 * percentage - 100)% of the deposits, up to the rounding of the two
    thresholds: more than 40% before [SixtyVoteStartBlock], 20% from it on. *)
Theorem quorum_intersection `{GoRuntime} {S} parentHash vd n (w : World S) r X Y
  (Hr : out (filterValidators parentHash vd n) w = Ok r)
  (HX : X ⊆ fr_validators r) (HY : Y ⊆ fr_validators r)
  (HwX : fr_minRequired r <= weight vd X) (HwY : fr_minRequired r <= weight vd Y) :
  (2 * minPercentage n - 100) * fr_depositValue r - 200 < 100 * weight vd (X ∩ Y) /\
  X ∩ Y <> ∅.
Proof.
  pose proof (filterValidators_wp parentHash vd n w) as [_ Ho]%wp_run. rewrite Hr in Ho.
  apply filter_outcome_ok in Ho as Hs. by apply quorum_overlap.
Qed.
End theorems.

(** * Closed instances *)

Definition threeValidators : NodeConfig :=
  {| MIN_VALIDATORS := 3; MIN_VALIDATORS_range := ltac:(unfold MAX_VALIDATORS; lia) |}.
Definition zeroFloat : FloatConv := {| float_overflow := fun _ => 0 |}.
Definition zeroDRNG : DRNG := {| InitializeWithSeed := fun _ => Some (fun _ => Byte.x00) |}.

(** The [n]-th example address, and its validator record. *)
Definition addr (n : Z) : Address := BytesToAddress (be_bytes 2 n).
Definition idleValidator (n : Z) : ValidatorDetailsV2 :=
  mkValidatorDetailsV2 (addr n) (addr n) (EtherToWei n) (EtherToWei n) 0 0 false 0 0 0 0.
Definition exampleValidators (k : nat) : gmap Address ValidatorDetailsV2 :=
  list_to_map (map (fun i => (addr (Z.of_nat i), idleValidator (Z.of_nat i))) (seq 1 k)).
Definition exampleDeposits (k : nat) (d : Z) : gmap Address Z :=
  list_to_map (map (fun i => (addr (Z.of_nat i), d)) (seq 1 k)).

Section witnesses.
#[local] Existing Instances zeroFloat threeValidators windowHash zeroDRNG.

Lemma window_proposerKey_inj s r x y : proposerKey s r x = proposerKey s r y -> x = y.
Proof. unfold proposerKey. rewrite !windowHash_second. apply arr_bytes_inj. Qed.

Lemma window_filterKey_inj p x y : filterKey p x = filterKey p y -> x = y.
Proof. unfold filterKey. rewrite !windowHash_second. apply arr_bytes_inj. Qed.

Lemma getBlockProposerV2_deterministic_witness :
  out (@getBlockProposerV2 _ _ _ steadyRuntime unit ZERO_HASH (exampleValidators 4) 1 600000) (mkWorld 0 ()) =
  out (@getBlockProposerV2 _ _ _ reverseRuntime unit ZERO_HASH (exampleValidators 4) 1 600000) (mkWorld 7 ()).
Proof.
  apply (getBlockProposerV2_deterministic steadyRuntime reverseRuntime).
  intros x y _ _. apply window_proposerKey_inj.
Defined.

Lemma canPropose_backoff_witness :
  let v := mkValidatorDetailsV2 (addr 1) (addr 1) 0 0 0 0 false 0 0 600000 5 in
  canPropose v 600004 = true /\ canPropose v 600003 <> true.
Proof.
  split.
  - apply canPropose_backoff; simpl; try lia. right. vm_compute. discriminate.
  - rewrite canPropose_backoff by (simpl; lia). vm_compute. intros [|H]; [discriminate|apply H; reflexivity].
Defined.

Lemma canPropose_bounded_witness :
  canPropose (mkValidatorDetailsV2 (addr 1) (addr 1) 0 0 0 0 false 0 0 600000 1000) 601024 = true.
Proof. apply canPropose_bounded; vm_compute; split || idtac; discriminate || reflexivity. Defined.

Lemma filterValidators_deterministic_witness :
  out (@filterValidators _ _ _ steadyRuntime unit ZERO_HASH (exampleDeposits 4 MIN_BLOCK_DEPOSIT) 600000) (mkWorld 0 ()) =
  out (@filterValidators _ _ _ reverseRuntime unit ZERO_HASH (exampleDeposits 4 MIN_BLOCK_DEPOSIT) 600000) (mkWorld 7 ()).
Proof.
  apply (filterValidators_deterministic steadyRuntime reverseRuntime).
  intros x y _ _. apply window_filterKey_inj.
Defined.

(** Three of four equal deposits reach the 70% threshold. *)
Definition exampleFilter : outcome FilterResult :=
  out (@filterValidators _ _ _ steadyRuntime unit ZERO_HASH (exampleDeposits 4 MIN_BLOCK_DEPOSIT) 600000) (mkWorld 0 ()).
Definition quorumX : gset Address := {[addr 1; addr 2; addr 3]}.
Definition quorumY : gset Address := {[addr 2; addr 3; addr 4]}.

Lemma exampleFilter_ok : exists r, exampleFilter = Ok r /\
  quorumX ⊆ fr_validators r /\ quorumY ⊆ fr_validators r /\
  fr_minRequired r <= weight (exampleDeposits 4 MIN_BLOCK_DEPOSIT) quorumX /\
  fr_minRequired r <= weight (exampleDeposits 4 MIN_BLOCK_DEPOSIT) quorumY.
Proof.
  assert (Hc : match exampleFilter with
    | Ok r => bool_decide (quorumX ⊆ fr_validators r /\ quorumY ⊆ fr_validators r /\
        fr_minRequired r <= weight (exampleDeposits 4 MIN_BLOCK_DEPOSIT) quorumX /\
        fr_minRequired r <= weight (exampleDeposits 4 MIN_BLOCK_DEPOSIT) quorumY)
    | _ => false end = true) by (vm_compute; reflexivity).
  destruct exampleFilter as [r| |]; [|done..]. apply bool_decide_eq_true in Hc. eauto.
Qed.

Lemma quorum_intersection_witness :
  exists r, exampleFilter = Ok r /\
  (2 * minPercentage 600000 - 100) * fr_depositValue r - 200
    < 100 * weight (exampleDeposits 4 MIN_BLOCK_DEPOSIT) (quorumX ∩ quorumY) /\ quorumX ∩ quorumY <> ∅.
Proof.
  destruct exampleFilter_ok as (r & Hr & HX & HY & HwX & HwY). exists r. split; [exact Hr|].
  exact (@quorum_intersection _ _ _ steadyRuntime unit ZERO_HASH _ 600000 (mkWorld 0%nat ()) r
    quorumX quorumY Hr HX HY HwX HwY).
Defined.

(** The lottery of [filterValidators] has no upper cap: with a generator
    that draws zeros, all of 129 validators are selected, one more than
    [MAX_VALIDATORS] (a count the block validation then refuses). *)
Theorem filterValidators_no_cap :
  outcome_map (fun r => Z.of_nat (size (fr_validators r)))
    (out (@filterValidators _ _ _ steadyRuntime unit ZERO_HASH
       (exampleDeposits 129 (EtherToWei 10000000000)) 600000) (mkWorld 0 ()))
  = Ok (MAX_VALIDATORS + 1).
Proof. vm_compute. reflexivity. Qed.
End witnesses.
