(* ===== verification/Rlp.v ===== *)
(** Package rlp: the encoder over its two-part buffer ([encbuf]: string data and
    deferred list headers), the streaming decoder ([Stream]) and the slice
    functions of raw.go.

    Models src/rlp/encode.go, src/rlp/decode.go and src/rlp/raw.go.  The writers
    and decoders that reflection derives from a Go type are defined by recursion
    over [rtype], the universe of the types the consensus packets use: unsigned
    integers, booleans, strings, byte slices, byte arrays, big integers, slices,
    arrays and structs.  Struct tags (nil, optional, tail), interfaces and types
    with their own EncodeRLP / DecodeRLP are outside it.

    The proofs are in RlpEnc (the encoder equals a recursive reference encoder)
    and RlpDec (round trip, canonicity, totality of the decoder). *)

From S2P Require Import Prelude Common.
From Stdlib Require Import Strings.Byte.

(** * Types and values *)

Inductive rtype :=
| TUint (bits : Z)
| TBool
| TString
| TBytes
| TByteArray (n : nat)
| TBigInt
| TSlice (elem : rtype)
| TArray (n : nat) (elem : rtype)
| TStruct (fields : list rtype).

Inductive rval :=
| VUint (i : Z)
| VBool (b : bool)
| VBytes (b : list byte)
| VBig (i : Z)
| VList (l : list rval).

(** * Encoder (encode.go) *)

(** [intsize]: the loop shifts a byte out until nothing is left; eight rounds
    exhaust a uint64. *)
Fixpoint intsize_loop (fuel : nat) (size i : Z) : Z :=
  match fuel with
  | O => size
  | S fuel =>
      let i := Z.shiftr i 8 in
      if Z.eqb i 0 then size else intsize_loop fuel (size + 1) i
  end.
Definition intsize (i : Z) : Z := intsize_loop 8 1 i.

(** [putint]: the bytes written, big endian, as few as needed. *)
Definition putint (i : Z) : list byte :=
  if Z.ltb i (Z.shiftl 1 8) then be_bytes 1 i
  else if Z.ltb i (Z.shiftl 1 16) then be_bytes 2 i
  else if Z.ltb i (Z.shiftl 1 24) then be_bytes 3 i
  else if Z.ltb i (Z.shiftl 1 32) then be_bytes 4 i
  else if Z.ltb i (Z.shiftl 1 40) then be_bytes 5 i
  else if Z.ltb i (Z.shiftl 1 48) then be_bytes 6 i
  else if Z.ltb i (Z.shiftl 1 56) then be_bytes 7 i
  else be_bytes 8 i.

Definition headsize (size : Z) : Z := if Z.ltb size 56 then 1 else 1 + intsize size.

(** [puthead]: the header bytes written at the start of the buffer. *)
Definition puthead (smalltag largetag size : Z) : list byte :=
  if Z.ltb size 56 then [bZ (smalltag + size)]
  else bZ (largetag + len (putint size)) :: putint size.

Record listhead := mkListhead {
  offset : Z;
  lh_size : Z;
}.

Definition listhead_encode (head : listhead) : list byte := puthead 0xC0 0xF7 (lh_size head).

Record encbuf := mkEncbuf {
  str : list byte;
  lheads : list listhead;
  lhsize : Z;
}.

Definition reset : encbuf := mkEncbuf [] [] 0.

Definition append (w : encbuf) (b : list byte) : encbuf :=
  mkEncbuf (str w ++ b) (lheads w) (lhsize w).

Definition encodeStringHeader (w : encbuf) (size : Z) : encbuf :=
  if Z.ltb size 56 then append w [bZ (0x80 + size)]
  else append w (bZ (0xB7 + len (putint size)) :: putint size).

Definition encodeString (w : encbuf) (b : list byte) : encbuf :=
  match b with
  | [c] => if Z.leb (Zb c) 0x7F then append w [c]
           else append (encodeStringHeader w 1) [c]
  | _ => append (encodeStringHeader w (len b)) b
  end.

Definition encodeUint (w : encbuf) (i : Z) : encbuf :=
  if Z.eqb i 0 then append w [bZ 0x80]
  else if Z.ltb i 128 then append w [bZ i]
  else append w (bZ (0x80 + len (putint i)) :: putint i).

Definition encbuf_size (w : encbuf) : Z := len (str w) + lhsize w.

(** [list] returns the index of the new header. *)
Definition list_ (w : encbuf) : encbuf * nat :=
  (mkEncbuf (str w) (lheads w ++ [mkListhead (len (str w)) (lhsize w)]) (lhsize w), length (lheads w)).

Definition listEnd (w : encbuf) (index : nat) : outcome encbuf :=
  match lheads w !! index with
  | None => Panic "index out of range"
  | Some lh =>
      let size := encbuf_size w - offset lh - lh_size lh in
      Ok (mkEncbuf (str w) (<[index := mkListhead (offset lh) size]> (lheads w))
            (if Z.ltb size 56 then lhsize w + 1 else lhsize w + (1 + intsize size)))
  end.

(** [copy(out[pos:], src)]: overwrite in place, truncated at the end of [out]. *)
Definition copy_at (out : list byte) (pos : nat) (src : list byte) : list byte :=
  let n := Nat.min (length src) (length out - pos) in
  take pos out ++ take n src ++ drop (pos + n) out.

(** [s[i:j]]. *)
Definition sub_slice (s : list byte) (i j : nat) : outcome (list byte) :=
  if decide (i <= j <= length s)%nat then Ok (take (j - i) (drop i s))
  else Panic "slice bounds out of range".

Fixpoint toBytes_loop (str out : list byte) (strpos pos : nat) (heads : list listhead)
  : outcome (list byte) :=
  match heads with
  | [] =>
      match sub_slice str strpos (length str) with
      | Ok rest => Ok (copy_at out pos rest)
      | Fail e => Fail e
      | Panic p => Panic p
      end
  | head :: heads =>
      match sub_slice str strpos (Z.to_nat (offset head)) with
      | Ok piece =>
          let n := Nat.min (length piece) (length out - pos) in
          let out := copy_at out pos piece in
          let enc := listhead_encode head in
          if decide (pos + n + length enc <= length out)%nat
          then toBytes_loop str (copy_at out (pos + n) enc) (strpos + n) (pos + n + length enc) heads
          else Panic "index out of range"
      | Fail e => Fail e
      | Panic p => Panic p
      end
  end.

Definition toBytes (w : encbuf) : outcome (list byte) :=
  toBytes_loop (str w) (replicate (Z.to_nat (encbuf_size w)) Byte.x00) 0 0 (lheads w).

(** [big.Int.BitLen]. *)
Definition BitLen (i : Z) : Z := if Z.eqb i 0 then 0 else Z.log2 (Z.abs i) + 1.

(** [writeBigInt]: the copy loop fills [length] bytes from the words, most
    significant byte first. *)
Definition writeBigInt (w : encbuf) (i : Z) : outcome encbuf :=
  if Z.ltb i 0 then Fail (ErrorsNew "rlp: cannot encode negative *big.Int")
  else
    let bitlen := BitLen i in
    if Z.leb bitlen 64 then Ok (encodeUint w (u64 i))
    else
      let length := Z.shiftr (Z.land (bitlen + 7) (-8)) 3 in
      Ok (append (encodeStringHeader w length) (be_bytes (Z.to_nat length) i)).

Definition writeBool (w : encbuf) (b : bool) : encbuf :=
  append w [if b then bZ 0x01 else bZ 0x80].

(** [makeByteArrayWriter]. *)
Definition writeByteArray (n : nat) (w : encbuf) (b : list byte) : encbuf :=
  match n, b with
  | O, _ => append w [bZ 0x80]
  | S O, c :: _ => if Z.leb (Zb c) 0x7f then append w [c] else append w [bZ 0x81; c]
  | _, _ => append (encodeStringHeader w (len b)) b
  end.

(** Run a writer between [list] and [listEnd]. *)
Definition in_list (w : encbuf) (body : encbuf -> outcome encbuf) : outcome encbuf :=
  let '(w1, lh) := list_ w in
  match body w1 with
  | Ok w2 => listEnd w2 lh
  | Fail e => Fail e
  | Panic p => Panic p
  end.

(** A loop over the elements of a list value. *)
Fixpoint write_elems (writer : rval -> encbuf -> outcome encbuf) (vs : list rval) (w : encbuf)
  : outcome encbuf :=
  match vs with
  | [] => Ok w
  | v :: vs =>
      match writer v w with
      | Ok w' => write_elems writer vs w'
      | Fail e => Fail e
      | Panic p => Panic p
      end
  end.

(** [makeWriter]: the writer of a type.  A value that does not have the type
    cannot occur in Go (reflection panics). *)
Fixpoint writer (t : rtype) (v : rval) (w : encbuf) : outcome encbuf :=
  match t, v with
  | TUint _, VUint i => Ok (encodeUint w i)
  | TBool, VBool b => Ok (writeBool w b)
  | TString, VBytes b => Ok (encodeString w b)
  | TBytes, VBytes b => Ok (encodeString w b)
  | TByteArray n, VBytes b => Ok (writeByteArray n w b)
  | TBigInt, VBig i => writeBigInt w i
  | TSlice t, VList vs => in_list w (write_elems (writer t) vs)
  | TArray _ t, VList vs => in_list w (write_elems (writer t) vs)
  | TStruct ts, VList vs =>
      in_list w
        ((fix fields (ts : list rtype) (vs : list rval) (w : encbuf) : outcome encbuf :=
            match ts, vs with
            | [], [] => Ok w
            | t :: ts, v :: vs =>
                match writer t v w with
                | Ok w' => fields ts vs w'
                | Fail e => Fail e
                | Panic p => Panic p
                end
            | _, _ => Panic "reflect"
            end) ts vs)
  | _, _ => Panic "reflect"
  end.

Definition EncodeToBytes (t : rtype) (v : rval) : outcome (list byte) :=
  match writer t v reset with
  | Ok w => toBytes w
  | Fail e => Fail e
  | Panic p => Panic p
  end.

(** * Decoder (decode.go) *)

Inductive Kind := Byte_ | String_ | List_.

#[export] Instance Kind_eq_dec : EqDecision Kind.
Proof. solve_decision. Defined.

Definition EOL := Sentinel "rlp.EOL".
Definition ErrExpectedString := Sentinel "rlp.ErrExpectedString".
Definition ErrExpectedList := Sentinel "rlp.ErrExpectedList".
Definition ErrCanonInt := Sentinel "rlp.ErrCanonInt".
Definition ErrCanonSize := Sentinel "rlp.ErrCanonSize".
Definition ErrElemTooLarge := Sentinel "rlp.ErrElemTooLarge".
Definition ErrValueTooLarge := Sentinel "rlp.ErrValueTooLarge".
Definition ErrMoreThanOneValue := Sentinel "rlp.ErrMoreThanOneValue".
Definition errNotInList := Sentinel "rlp.errNotInList".
Definition errNotAtEOL := Sentinel "rlp.errNotAtEOL".
Definition errUintOverflow := Sentinel "rlp.errUintOverflow".
Definition io_EOF := Sentinel "io.EOF".
Definition io_ErrUnexpectedEOF := Sentinel "io.ErrUnexpectedEOF".

(** The stream over a [bytes.Reader]: [r] is its unread part, [kind = None] is
    the armed state (-1).  The head of [stack] is the innermost list.  The
    scratch buffer [uintbuf] is overwritten before every use. *)
Record Stream := mkStream {
  r : list byte;
  remaining : Z;
  size : Z;
  kinderr : option error;
  stack : list Z;
  kind : option Kind;
  byteval : byte;
  limited : bool;
}.

#[export] Instance eta_Stream : Eta Stream := fun s =>
  mkStream (r s) (remaining s) (size s) (kinderr s) (stack s) (kind s) (byteval s) (limited s).
#[export] Instance set_r : Setter r := ltac:(derive_setter).
#[export] Instance set_remaining : Setter remaining := ltac:(derive_setter).
#[export] Instance set_size : Setter size := ltac:(derive_setter).
#[export] Instance set_kinderr : Setter kinderr := ltac:(derive_setter).
#[export] Instance set_stack : Setter stack := ltac:(derive_setter).
#[export] Instance set_kind : Setter kind := ltac:(derive_setter).
#[export] Instance set_byteval : Setter byteval := ltac:(derive_setter).

Abbreviation D := (M Stream).

(** [listLimit]: the bytes left in the innermost list, [None] outside lists. *)
Definition listLimit (s : Stream) : option Z := head (stack s).

Definition rearm : D unit := modify (fun s => s <| kind := None |>).

Definition willRead (n : Z) : D unit :=
  rearm;;
  s ← get;
  match stack s with
  | limit :: st =>
      fail_if (Z.ltb limit n) ErrElemTooLarge;;
      modify (fun s => s <| stack := u64 (limit - n) :: st |>)
  | [] => mret ()
  end;;
  s ← get;
  if limited s then
    fail_if (Z.ltb (remaining s) n) ErrValueTooLarge;;
    modify (fun s => s <| remaining := u64 (remaining s - n) |>)
  else mret ().

(** [readFull]: the bytes read into a buffer of [n] bytes. *)
Definition readFull (n : Z) : D (list byte) :=
  willRead n;;
  s ← get;
  let b := take (Z.to_nat n) (r s) in
  modify (fun s => s <| r := drop (Z.to_nat n) (r s) |>);;
  fail_if (Z.ltb (len b) n) io_ErrUnexpectedEOF;;
  mret b.

Definition readByte : D byte :=
  willRead 1;;
  s ← get;
  match r s with
  | [] => fail io_ErrUnexpectedEOF
  | b :: rest => modify (fun s => s <| r := rest |>);; mret b
  end.

Definition readUint (sz : Z) : D Z :=
  if Z.eqb sz 0 then rearm;; mret 0
  else if Z.eqb sz 1 then b ← readByte; mret (Zb b)
  else
    (if Z.ltb 8 sz then panic "slice bounds out of range" else mret ());;
    buffer ← readFull sz;
    match buffer with
    | b :: _ => fail_if (Z.eqb (Zb b) 0) ErrCanonSize;; mret (be_val buffer)
    | [] => panic "index out of range"
    end.

(** [readKind]: a size error is returned with the kind, and kept by [Kind]. *)
Definition readKind : D (Kind * Z * option error) :=
  b ← try_ readByte;
  match b with
  | inr err =>
      s ← get;
      let err := match stack s with
                 | [] => if decide (err = io_ErrUnexpectedEOF \/ err = ErrValueTooLarge) then io_EOF else err
                 | _ => err
                 end in
      mret (Byte_, 0, Some err)
  | inl b =>
      modify (fun s => s <| byteval := Byte.x00 |>);;
      let b' := Zb b in
      let long (k : Kind) (n : Z) : D (Kind * Z * option error) :=
        size ← try_ (readUint n);
        match size with
        | inl size => mret (k, size, if Z.ltb size 56 then Some ErrCanonSize else None)
        | inr err => mret (k, 0, Some err)
        end in
      if Z.ltb b' 0x80 then modify (fun s => s <| byteval := b |>);; mret (Byte_, 0, None)
      else if Z.ltb b' 0xB8 then mret (String_, b' - 0x80, None)
      else if Z.ltb b' 0xC0 then long String_ (b' - 0xB7)
      else if Z.ltb b' 0xF8 then mret (List_, b' - 0xC0, None)
      else long List_ (b' - 0xF7)
  end.

(** [Kind]: the kind and size of the value ahead, cached until it is consumed. *)
Definition Kind_ : D (Kind * Z) :=
  s ← get;
  match kind s with
  | Some k =>
      match kinderr s with Some e => fail e | None => mret (k, size s) end
  | None =>
      let lim := listLimit s in
      fail_if (match lim with Some l => Z.eqb l 0 | None => false end) EOL;;
      '(k, sz, err) ← readKind;
      modify (fun s => s <| kind := Some k |> <| size := sz |> <| kinderr := err |>);;
      match err with
      | Some e => fail e
      | None =>
          s ← get;
          let err :=
            if match lim with Some l => Z.ltb l sz | None => false end then Some ErrElemTooLarge
            else if limited s && Z.ltb (remaining s) sz then Some ErrValueTooLarge
            else None in
          modify (fun s => s <| kinderr := err |>);;
          match err with Some e => fail e | None => mret (k, sz) end
      end
  end.

Definition Bytes : D (list byte) :=
  '(k, sz) ← Kind_;
  match k with
  | Byte_ => rearm;; s ← get; mret [byteval s]
  | String_ =>
      b ← readFull sz;
      match b with
      | [c] => fail_if (Z.ltb (Zb c) 128) ErrCanonSize;; mret b
      | _ => mret b
      end
  | List_ => fail ErrExpectedString
  end.

Definition uint_ (maxbits : Z) : D Z :=
  '(k, sz) ← Kind_;
  match k with
  | Byte_ =>
      s ← get;
      fail_if (Z.eqb (Zb (byteval s)) 0) ErrCanonInt;;
      rearm;;
      mret (Zb (byteval s))
  | String_ =>
      fail_if (Z.ltb (maxbits / 8) sz) errUintOverflow;;
      v ← try_ (readUint (u8 sz));
      match v with
      | inr err => fail (if decide (err = ErrCanonSize) then ErrCanonInt else err)
      | inl v => fail_if (Z.ltb 0 sz && Z.ltb v 128) ErrCanonSize;; mret v
      end
  | List_ => fail ErrExpectedString
  end.

Definition Bool_ : D bool :=
  num ← uint_ 8;
  if Z.eqb num 0 then mret false
  else if Z.eqb num 1 then mret true
  else fail (ErrorsNew "rlp: invalid boolean value").

Definition List__ : D Z :=
  '(k, sz) ← Kind_;
  match k with
  | List_ =>
      s ← get;
      match stack s with
      | limit :: st => modify (fun s => s <| stack := u64 (limit - sz) :: st |>)
      | [] => mret ()
      end;;
      modify (fun s => s <| stack := sz :: stack s |> <| kind := None |> <| size := 0 |>);;
      mret sz
  | _ => fail ErrExpectedList
  end.

Definition ListEnd : D unit :=
  s ← get;
  match stack s with
  | [] => fail errNotInList
  | limit :: st =>
      fail_if (Z.ltb 0 limit) errNotAtEOL;;
      modify (fun s => s <| stack := st |> <| kind := None |> <| size := 0 |>)
  end.

(** [wrapStreamError]: sentinel errors become decode errors. *)
Definition wrapStreamError (err : error) : error :=
  if decide (err = ErrCanonInt) then DecodeErr "non-canonical integer (leading zero bytes)"
  else if decide (err = ErrCanonSize) then DecodeErr "non-canonical size information"
  else if decide (err = ErrExpectedList) then DecodeErr "expected input list"
  else if decide (err = ErrExpectedString) then DecodeErr "expected input string or byte"
  else if decide (err = errUintOverflow) then DecodeErr "input string too long"
  else if decide (err = errNotAtEOL) then DecodeErr "input list has too many elements"
  else err.

Definition wrap {A} (m : D A) : D A :=
  x ← try_ m;
  match x with inl a => mret a | inr err => fail (wrapStreamError err) end.

Definition decodeByteArray (n : nat) : D (list byte) :=
  '(k, sz) ← Kind_;
  match k with
  | Byte_ =>
      fail_if (Nat.eqb n 0) (DecodeErr "input string too long");;
      fail_if (Nat.ltb 1 n) (DecodeErr "input string too short");;
      s ← get;
      rearm;;
      mret [byteval s]
  | String_ =>
      fail_if (Z.ltb (Z.of_nat n) sz) (DecodeErr "input string too long");;
      fail_if (Z.ltb sz (Z.of_nat n)) (DecodeErr "input string too short");;
      b ← readFull (Z.of_nat n);
      match b with
      | [c] => fail_if (Z.ltb (Zb c) 128) (wrapStreamError ErrCanonSize);; mret b
      | _ => mret b
      end
  | List_ => fail (wrapStreamError ErrExpectedString)
  end.

(** The bytes of a big integer.  Only a buffer of at most 32 bytes ([uintbuf])
    has the single-byte check, which a longer one cannot fail. *)
Definition decodeBigInt_buffer : D (list byte) :=
  '(k, sz) ← wrap Kind_;
  match k with
  | List_ => fail (wrapStreamError ErrExpectedString)
  | Byte_ => s ← get; rearm;; mret [byteval s]
  | String_ =>
      if Z.eqb sz 0 then rearm;; mret []
      else if Z.leb sz 32 then
        b ← wrap (readFull sz);
        match b with
        | [c] => fail_if (Z.ltb (Zb c) 128) (wrapStreamError ErrCanonSize);; mret b
        | _ => mret b
        end
      else wrap (readFull sz)
  end.

Definition decodeBigInt : D Z :=
  buffer ← decodeBigInt_buffer;
  fail_if (match buffer with b :: _ => Z.eqb (Zb b) 0 | [] => false end) (wrapStreamError ErrCanonInt);;
  mret (be_val buffer).

(** [decodeSliceElems]: elements are decoded until the decoder reports EOL.
    Every element takes at least one byte of input, so the unread input bounds
    the number of rounds. *)
Fixpoint decodeSliceElems_loop (fuel : nat) (elemdec : D rval) (acc : list rval) : D (list rval) :=
  match fuel with
  | O => panic "fuel"
  | S fuel =>
      x ← try_ elemdec;
      match x with
      | inr err => if decide (err = EOL) then mret (reverse acc) else fail err
      | inl v => decodeSliceElems_loop fuel elemdec (v :: acc)
      end
  end.

Definition decodeSliceElems (elemdec : D rval) : D (list rval) :=
  s ← get;
  decodeSliceElems_loop (S (length (r s))) elemdec [].

Definition decodeListSlice (elemdec : D rval) : D (list rval) :=
  sz ← wrap List__;
  if Z.eqb sz 0 then ListEnd;; mret []
  else l ← decodeSliceElems elemdec; ListEnd;; mret l.

(** The loop of [decodeListArray]. *)
Fixpoint decodeArrayElems (n : nat) (elemdec : D rval) : D (list rval) :=
  match n with
  | O => mret []
  | S n =>
      x ← try_ elemdec;
      match x with
      | inr err => fail (if decide (err = EOL) then DecodeErr "input list has too few elements" else err)
      | inl v => l ← decodeArrayElems n elemdec; mret (v :: l)
      end
  end.

Definition decodeListArray (n : nat) (elemdec : D rval) : D (list rval) :=
  wrap List__;;
  l ← decodeArrayElems n elemdec;
  wrap ListEnd;;
  mret l.

(** The loop over the fields of a struct. *)
Fixpoint decodeFields (decs : list (D rval)) : D (list rval) :=
  match decs with
  | [] => mret []
  | dec :: decs =>
      x ← try_ dec;
      match x with
      | inr err => fail (if decide (err = EOL) then DecodeErr "too few elements" else err)
      | inl v => l ← decodeFields decs; mret (v :: l)
      end
  end.

Definition decodeStruct (decs : list (D rval)) : D (list rval) :=
  wrap List__;;
  l ← decodeFields decs;
  wrap ListEnd;;
  mret l.

(** [makeDecoder]: the decoder of a type. *)
Fixpoint decoder (t : rtype) : D rval :=
  match t with
  | TUint bits => VUint <$> wrap (uint_ bits)
  | TBool => VBool <$> wrap Bool_
  | TString => VBytes <$> wrap Bytes
  | TBytes => VBytes <$> wrap Bytes
  | TByteArray n => VBytes <$> decodeByteArray n
  | TBigInt => VBig <$> decodeBigInt
  | TSlice t => VList <$> decodeListSlice (decoder t)
  | TArray n t => VList <$> decodeListArray n (decoder t)
  | TStruct ts => VList <$> decodeStruct (map decoder ts)
  end.

(** [Reset] on a [bytes.Reader]. *)
Definition Reset (b : list byte) : Stream :=
  mkStream b (len b) 0 None [] None Byte.x00 true.

Definition DecodeBytes (t : rtype) (b : list byte) : outcome rval :=
  match decoder t (mkWorld 0 (Reset b)) with
  | (Ok v, w) => if decide (r (w_st w) = []) then Ok v else Fail ErrMoreThanOneValue
  | (o, _) => o
  end.

(** * Slice functions (raw.go) *)

Definition ListSize (contentSize : Z) : Z := u64 (headsize contentSize + contentSize).
Definition IntSize (x : Z) : Z := if Z.ltb x 0x80 then 1 else 1 + intsize x.

Definition readSize (b : list byte) (slen : Z) : outcome Z :=
  if Z.ltb (len b) slen then Fail io_ErrUnexpectedEOF
  else
    let s := be_val (take (Z.to_nat slen) b) in
    if Z.ltb s 56 || match b with c :: _ => Z.eqb (Zb c) 0 | [] => false end
    then Fail ErrCanonSize else Ok s.

(** [readKind] of raw.go: kind, tag size and content size of the first value. *)
Definition raw_readKind (buf : list byte) : outcome (Kind * Z * Z) :=
  match buf with
  | [] => Fail io_ErrUnexpectedEOF
  | b :: rest =>
      let b := Zb b in
      let check (k : Kind) (tagsize contentsize : Z) :=
        if Z.ltb (len buf - tagsize) contentsize then Fail ErrValueTooLarge
        else Ok (k, tagsize, contentsize) in
      let long (k : Kind) (n : Z) :=
        match readSize rest n with
        | Ok contentsize => check k (n + 1) contentsize
        | Fail e => Fail e
        | Panic p => Panic p
        end in
      if Z.ltb b 0x80 then check Byte_ 0 1
      else if Z.ltb b 0xB8 then
        match rest with
        | c :: _ =>
            if Z.eqb (b - 0x80) 1 && Z.ltb (Zb c) 128 then Fail ErrCanonSize
            else check String_ 1 (b - 0x80)
        | [] => check String_ 1 (b - 0x80)
        end
      else if Z.ltb b 0xC0 then long String_ (b - 0xB7)
      else if Z.ltb b 0xF8 then check List_ 1 (b - 0xC0)
      else long List_ (b - 0xF7)
  end.

Definition Split (b : list byte) : outcome (Kind * list byte * list byte) :=
  match raw_readKind b with
  | Ok (k, ts, cs) =>
      Ok (k, take (Z.to_nat cs) (drop (Z.to_nat ts) b), drop (Z.to_nat (ts + cs)) b)
  | Fail e => Fail e
  | Panic p => Panic p
  end.

Definition SplitString (b : list byte) : outcome (list byte * list byte) :=
  match Split b with
  | Ok (List_, _, _) => Fail ErrExpectedString
  | Ok (_, content, rest) => Ok (content, rest)
  | Fail e => Fail e
  | Panic p => Panic p
  end.

Definition SplitList (b : list byte) : outcome (list byte * list byte) :=
  match Split b with
  | Ok (List_, content, rest) => Ok (content, rest)
  | Ok _ => Fail ErrExpectedList
  | Fail e => Fail e
  | Panic p => Panic p
  end.

Definition SplitUint64 (b : list byte) : outcome (Z * list byte) :=
  match SplitString b with
  | Ok ([], rest) => Ok (0, rest)
  | Ok ([c], rest) => if Z.eqb (Zb c) 0 then Fail ErrCanonInt else Ok (Zb c, rest)
  | Ok (content, rest) =>
      if Z.ltb 8 (len content) then Fail errUintOverflow
      else match readSize content (len content) with
           | Ok x => Ok (x, rest)
           | _ => Fail ErrCanonInt
           end
  | Fail e => Fail e
  | Panic p => Panic p
  end.

(** [CountValues]: each round drops at least one byte. *)
Fixpoint CountValues_loop (fuel : nat) (i : Z) (b : list byte) : outcome Z :=
  match fuel with
  | O => Panic "fuel"
  | S fuel =>
      match b with
      | [] => Ok i
      | _ =>
          match raw_readKind b with
          | Ok (_, tagsize, size) => CountValues_loop fuel (i + 1) (drop (Z.to_nat (tagsize + size)) b)
          | Fail e => Fail e
          | Panic p => Panic p
          end
      end
  end.
Definition CountValues (b : list byte) : outcome Z := CountValues_loop (S (length b)) 0 b.

Definition AppendUint64 (b : list byte) (i : Z) : list byte :=
  if Z.eqb i 0 then b ++ [bZ 0x80]
  else if Z.ltb i 128 then b ++ [bZ i]
  else if Z.ltb i (Z.shiftl 1 8) then b ++ bZ 0x81 :: be_bytes 1 i
  else if Z.ltb i (Z.shiftl 1 16) then b ++ bZ 0x82 :: be_bytes 2 i
  else if Z.ltb i (Z.shiftl 1 24) then b ++ bZ 0x83 :: be_bytes 3 i
  else if Z.ltb i (Z.shiftl 1 32) then b ++ bZ 0x84 :: be_bytes 4 i
  else if Z.ltb i (Z.shiftl 1 40) then b ++ bZ 0x85 :: be_bytes 5 i
  else if Z.ltb i (Z.shiftl 1 48) then b ++ bZ 0x86 :: be_bytes 6 i
  else if Z.ltb i (Z.shiftl 1 56) then b ++ bZ 0x87 :: be_bytes 7 i
  else b ++ bZ 0x88 :: be_bytes 8 i.

(** * Reference encoding and typing *)

(** The string encoding of a byte sequence: a small byte is itself, anything
    else gets a length header. *)
Definition enc_string (b : list byte) : list byte :=
  match b with
  | [c] => if Z.leb (Zb c) 0x7F then [c] else puthead 0x80 0xB7 1 ++ [c]
  | _ => puthead 0x80 0xB7 (len b) ++ b
  end.

(** The shortest big-endian representation of an integer, empty for 0. *)
Definition min_bytes (i : Z) : list byte := be_bytes (Z.to_nat ((BitLen i + 7) / 8)) i.

Definition enc_list (payload : list byte) : list byte := puthead 0xC0 0xF7 (len payload) ++ payload.

Fixpoint enc (v : rval) : list byte :=
  match v with
  | VUint i => enc_string (min_bytes i)
  | VBool b => enc_string (if b then [bZ 1] else [])
  | VBytes b => enc_string b
  | VBig i => enc_string (min_bytes i)
  | VList l => enc_list (concat (map enc l))
  end.

(** The fields of a struct value have the types of the struct. *)
Definition fields_type (ht : rtype -> rval -> Prop) : list rtype -> list rval -> Prop :=
  fix go ts vs :=
    match ts, vs with
    | [], [] => True
    | t :: ts, v :: vs => ht t v /\ go ts vs
    | _, _ => False
    end.

(** Values of a type; every string and list payload shorter than 2^64 bytes. *)
Fixpoint has_type (t : rtype) (v : rval) : Prop :=
  match t, v with
  | TUint bits, VUint i => 0 <= i < 2 ^ bits
  | TBool, VBool _ => True
  | TString, VBytes b => len b < 2 ^ 64
  | TBytes, VBytes b => len b < 2 ^ 64
  | TByteArray n, VBytes b => length b = n /\ len b < 2 ^ 64
  | TBigInt, VBig i => 0 <= i /\ len (min_bytes i) < 2 ^ 64
  | TSlice t, VList l => Forall (has_type t) l /\ len (concat (map enc l)) < 2 ^ 64
  | TArray n t, VList l => length l = n /\ Forall (has_type t) l /\ len (concat (map enc l)) < 2 ^ 64
  | TStruct ts, VList l => fields_type has_type ts l /\ len (concat (map enc l)) < 2 ^ 64
  | _, _ => False
  end.

(** The same as a boolean. *)
Fixpoint has_typeb (t : rtype) (v : rval) : bool :=
  match t, v with
  | TUint bits, VUint i => Z.leb 0 i && Z.ltb i (2 ^ bits)
  | TBool, VBool _ => true
  | TString, VBytes b => Z.ltb (len b) (2 ^ 64)
  | TBytes, VBytes b => Z.ltb (len b) (2 ^ 64)
  | TByteArray n, VBytes b => Nat.eqb (length b) n && Z.ltb (len b) (2 ^ 64)
  | TBigInt, VBig i => Z.leb 0 i && Z.ltb (len (min_bytes i)) (2 ^ 64)
  | TSlice t, VList l => forallb (has_typeb t) l && Z.ltb (len (concat (map enc l))) (2 ^ 64)
  | TArray n t, VList l =>
      Nat.eqb (length l) n && (forallb (has_typeb t) l && Z.ltb (len (concat (map enc l))) (2 ^ 64))
  | TStruct ts, VList l =>
      (fix go ts vs :=
         match ts, vs with
         | [], [] => true
         | t :: ts, v :: vs => has_typeb t v && go ts vs
         | _, _ => false
         end) ts l && Z.ltb (len (concat (map enc l))) (2 ^ 64)
  | _, _ => false
  end.
