(* ===== verification/RlpEnc.v ===== *)
(** Correctness of the RLP encoder: the two-part buffer of encode.go, with its
    deferred list headers and precomputed sizes, produces exactly the recursive
    reference encoding [enc]. *)

From S2P Require Import Prelude Common Rlp.
From Stdlib Require Import Strings.Byte.

(** Induction over types with the hypothesis for every field of a struct. *)
Lemma rtype_ind' (P : rtype -> Prop)
  (Hu : forall bits, P (TUint bits)) (Hb : P TBool) (Hs : P TString) (Hy : P TBytes)
  (Ha : forall n, P (TByteArray n)) (Hi : P TBigInt)
  (Hsl : forall t, P t -> P (TSlice t)) (Har : forall n t, P t -> P (TArray n t))
  (Hst : forall ts, Forall P ts -> P (TStruct ts)) :
  forall t, P t.
Proof.
  fix IH 1. intros [bits| | | |n| |t|n t|ts].
  - apply Hu.
  - exact Hb.
  - exact Hs.
  - exact Hy.
  - apply Ha.
  - exact Hi.
  - apply Hsl, IH.
  - apply Har, IH.
  - apply Hst. induction ts as [|t ts IHts]; constructor; [apply IH|exact IHts].
Qed.

Lemma has_typeb_sound t : forall v, has_typeb t v = true -> has_type t v.
Proof.
  induction t as [bits| | | |n| |t IH|n t IH|ts IH] using rtype_ind'; intros [i|b|b|i|l]; simpl; try done;
    rewrite ?andb_true_iff, ?Z.leb_le, ?Z.ltb_lt, ?Nat.eqb_eq; try done; try naive_solver.
  - intros [Hl ?]. split; [|done]. rewrite forallb_forall in Hl. apply Forall_forall. intros v Hv.
    apply IH, Hl. by apply list_elem_of_In.
  - intros (? & Hl & ?). split; [done|]. split; [|done]. rewrite forallb_forall in Hl.
    apply Forall_forall. intros v Hv. apply IH, Hl. by apply list_elem_of_In.
  - intros [Hl ?]. split; [|done]. revert l Hl H.
    induction IH as [|t ts Ht _ IHts]; intros [|v l] Hl Hlen; simpl; try done.
    apply andb_true_iff in Hl as [Hv Hl]. split; [auto|]. apply IHts; [done|].
    simpl in Hlen. unfold len in *. rewrite length_app in Hlen. lia.
Qed.

(** * Integer sizes *)

Lemma log2_div8 i k : 0 < k -> 2 ^ (8 * (k - 1)) <= i < 2 ^ (8 * k) -> Z.log2 i / 8 = k - 1.
Proof.
  intros Hk [Hlo Hhi].
  assert (0 < i) by (pose proof (Z.pow_pos_nonneg 2 (8 * (k - 1)) ltac:(lia) ltac:(lia)); lia).
  assert (8 * (k - 1) <= Z.log2 i) by (apply Z.log2_le_pow2; lia).
  assert (Z.log2 i < 8 * k) by (apply Z.log2_lt_pow2; lia).
  symmetry. apply (Z.div_unique _ 8 _ (Z.log2 i - 8 * (k - 1))); lia.
Qed.

Lemma min_bytes_pos i : 0 < i -> min_bytes i = be_bytes (Z.to_nat (Z.log2 i / 8 + 1)) i.
Proof.
  intros Hi. unfold min_bytes, BitLen. destruct (Z.eqb_spec i 0); [lia|].
  rewrite Z.abs_eq by lia. f_equal. f_equal.
  replace (Z.log2 i + 1 + 7) with (Z.log2 i + 1 * 8) by lia. by rewrite Z.div_add by lia.
Qed.

Lemma min_bytes_case i (k : nat) :
  (0 < k)%nat -> 2 ^ (8 * (Z.of_nat k - 1)) <= i < 2 ^ (8 * Z.of_nat k) -> min_bytes i = be_bytes k i.
Proof.
  intros Hk Hi. pose proof (log2_div8 i (Z.of_nat k) ltac:(lia) Hi) as Hl.
  rewrite min_bytes_pos, Hl; [f_equal; lia|].
  pose proof (Z.pow_pos_nonneg 2 (8 * (Z.of_nat k - 1)) ltac:(lia) ltac:(lia)). lia.
Qed.

Lemma min_bytes_0 : min_bytes 0 = [].
Proof. done. Qed.

(** [putint] writes the shortest representation. *)
Lemma putint_min i : 0 < i < 2 ^ 64 -> putint i = min_bytes i.
Proof.
  intros Hi. unfold putint.
  repeat match goal with
  | |- (if Z.ltb i ?b then _ else _) = _ => destruct (Z.ltb_spec i b)
  end; symmetry; apply min_bytes_case; try lia;
    repeat match goal with H : context [Z.shiftl 1 ?n] |- _ => change (Z.shiftl 1 n) with (2 ^ n) in H end;
    match goal with |- 2 ^ ?a <= _ < 2 ^ ?b =>
      let a' := eval vm_compute in a in let b' := eval vm_compute in b in
      change a with a'; change b with b' end; lia.
Qed.

Lemma intsize_loop_log2 fuel : forall sz i, 0 < i < 256 ^ (Z.of_nat fuel + 1) ->
  intsize_loop fuel sz i = sz + Z.log2 i / 8.
Proof.
  induction fuel as [|fuel IH]; intros sz i Hi; simpl.
  { change (256 ^ (Z.of_nat 0 + 1)) with 256 in Hi.
    assert (Z.log2 i < 8) by (apply Z.log2_lt_pow2; lia).
    rewrite Z.div_small; [lia|]. pose proof (Z.log2_nonneg i). lia. }
  pose proof (Z.log2_shiftr i 8 ltac:(lia)) as Hl.
  destruct (Z.eqb_spec (Z.shiftr i 8) 0) as [Hz|Hnz].
  - rewrite Z.shiftr_div_pow2 in Hz by lia. apply Z.div_small_iff in Hz; [|lia].
    assert (Z.log2 i < 8) by (apply Z.log2_lt_pow2; lia).
    pose proof (Z.log2_nonneg i). rewrite Z.div_small; lia.
  - assert (Hs : 0 < Z.shiftr i 8 < 256 ^ (Z.of_nat fuel + 1)).
    { rewrite Z.shiftr_div_pow2 in * by lia. change (2 ^ 8) with 256 in *.
      pose proof (Z.div_pos i 256 ltac:(lia) ltac:(lia)).
      split; [lia|]. apply Z.div_lt_upper_bound; [lia|].
      replace (256 * 256 ^ (Z.of_nat fuel + 1)) with (256 ^ (Z.of_nat (S fuel) + 1)); [lia|].
      rewrite <- Z.pow_succ_r by lia. f_equal. lia. }
    rewrite IH by done. rewrite Hl.
    assert (8 <= Z.log2 i).
    { apply Z.log2_le_pow2; [lia|]. rewrite Z.shiftr_div_pow2 in Hs by lia.
      destruct (Z.lt_ge_cases i (2 ^ 8)); [|lia]. rewrite Z.div_small in Hs; lia. }
    rewrite Z.max_r by lia. replace (Z.log2 i) with (Z.log2 i - 8 + 1 * 8) at 2 by lia.
    rewrite Z.div_add by lia. lia.
Qed.

Lemma intsize_min i : 0 < i < 2 ^ 64 -> intsize i = len (min_bytes i).
Proof.
  intros Hi. unfold intsize. rewrite intsize_loop_log2 by (simpl; lia).
  rewrite min_bytes_pos by lia. unfold len. rewrite length_be_bytes.
  pose proof (Z.log2_nonneg i). pose proof (Z.div_pos (Z.log2 i) 8 ltac:(lia) ltac:(lia)). lia.
Qed.

Lemma min_bytes_len i : 0 < i < 2 ^ 64 -> 1 <= len (min_bytes i) <= 8.
Proof.
  intros Hi. rewrite min_bytes_pos by lia. unfold len. rewrite length_be_bytes.
  pose proof (Z.log2_nonneg i). assert (Z.log2 i < 64) by (apply Z.log2_lt_pow2; lia).
  pose proof (Z.div_pos (Z.log2 i) 8 ltac:(lia) ltac:(lia)).
  pose proof (Z.div_lt_upper_bound (Z.log2 i) 8 8 ltac:(lia) ltac:(lia)). lia.
Qed.

(** The shortest representation has the value and no leading zero. *)
Lemma min_bytes_val i : 0 <= i -> be_val (min_bytes i) = i.
Proof.
  intros Hi. destruct (Z.eq_dec i 0) as [->|]; [done|].
  rewrite min_bytes_pos by lia. rewrite be_val_be_bytes, Z.mod_small; [done|].
  split; [done|]. pose proof (Z.log2_nonneg i).
  pose proof (Z.div_pos (Z.log2 i) 8 ltac:(lia) ltac:(lia)).
  change 256 with (2 ^ 8). rewrite Z2Nat.id, <- Z.pow_mul_r by lia.
  apply Z.log2_lt_pow2; [lia|].
  pose proof (Z.div_mod (Z.log2 i) 8 ltac:(lia)). pose proof (Z.mod_pos_bound (Z.log2 i) 8 ltac:(lia)). lia.
Qed.

Lemma puthead_length st lt size : 0 <= size < 2 ^ 64 -> len (puthead st lt size) = headsize size.
Proof.
  intros Hs. unfold puthead, headsize. destruct (Z.ltb_spec size 56); [done|].
  rewrite intsize_min, <- putint_min by lia. unfold len. simpl. lia.
Qed.

(** * Strings and integers *)

Lemma enc_string_long b : length b <> 1%nat -> enc_string b = puthead 0x80 0xB7 (len b) ++ b.
Proof. destruct b as [|c [|d b]]; simpl; auto; lia. Qed.

Lemma encodeString_enc w b : encodeString w b = append w (enc_string b).
Proof.
  unfold encodeString, encodeStringHeader, append, enc_string, puthead.
  destruct b as [|c [|d b]]; simpl; [by rewrite app_nil_r| |].
  - case_match; [done|]. simpl. by rewrite <- app_assoc.
  - case_match; simpl; rewrite <- app_assoc; done.
Qed.

Lemma encodeStringHeader_long w b : length b <> 1%nat ->
  append (encodeStringHeader w (len b)) b = append w (enc_string b).
Proof.
  intros. rewrite enc_string_long by done. unfold encodeStringHeader, append, puthead.
  case_match; simpl; by rewrite <- app_assoc.
Qed.

Lemma min_bytes_small i : 0 < i < 256 -> min_bytes i = [bZ i].
Proof. intros. rewrite (min_bytes_case i 1); [done|lia|]. simpl. lia. Qed.

Lemma min_bytes_large i : 256 <= i -> (2 <= length (min_bytes i))%nat.
Proof.
  intros. rewrite min_bytes_pos by lia. rewrite length_be_bytes.
  assert (8 <= Z.log2 i) by (apply Z.log2_le_pow2; lia).
  pose proof (Z.div_le_mono 8 (Z.log2 i) 8 ltac:(lia) ltac:(lia)) as Hd.
  change (8 / 8) with 1 in Hd. lia.
Qed.

Lemma encodeUint_enc w i : 0 <= i < 2 ^ 64 -> encodeUint w i = append w (enc_string (min_bytes i)).
Proof.
  intros Hi. unfold encodeUint. destruct (Z.eqb_spec i 0) as [->|Hnz]; [done|].
  destruct (Z.ltb_spec i 128).
  { rewrite min_bytes_small by lia. simpl. rewrite Zb_bZ_small by lia.
    destruct (Z.leb_spec i 127); [done|lia]. }
  rewrite putint_min by lia. destruct (Z.lt_ge_cases i 256).
  { rewrite min_bytes_small by lia. simpl. rewrite Zb_bZ_small by lia.
    destruct (Z.leb_spec i 127); [lia|done]. }
  pose proof (min_bytes_large i ltac:(lia)). pose proof (min_bytes_len i ltac:(lia)).
  rewrite enc_string_long by lia. unfold puthead. destruct (Z.ltb_spec (len (min_bytes i)) 56); [done|lia].
Qed.

Lemma BitLen_le i n : 0 <= i -> 0 <= n -> BitLen i <= n -> i < 2 ^ n.
Proof.
  unfold BitLen. intros Hi Hn Hb. destruct (Z.eqb_spec i 0) as [->|]; [by apply Z.pow_pos_nonneg|].
  rewrite Z.abs_eq in Hb by lia. apply Z.log2_lt_pow2; lia.
Qed.

Lemma land_shift_div8 x : 0 <= x -> Z.shiftr (Z.land x (-8)) 3 = x / 8.
Proof.
  intros. apply Z.bits_inj'. intros n Hn.
  rewrite Z.shiftr_spec, Z.land_spec by lia.
  change 8 with (2 ^ 3). rewrite <- (Z.shiftr_div_pow2 x 3), Z.shiftr_spec by lia.
  replace (Z.testbit (-8) (n + 3)) with true; [by rewrite andb_true_r|].
  change (-8) with (Z.lnot 7). rewrite Z.lnot_spec by lia.
  change 7 with (Z.ones 3). rewrite Z.ones_spec_high by lia. done.
Qed.

Lemma writeBigInt_enc w i : 0 <= i -> writeBigInt w i = Ok (append w (enc_string (min_bytes i))).
Proof.
  intros Hi. unfold writeBigInt. destruct (Z.ltb_spec i 0); [lia|]. cbn zeta.
  destruct (Z.leb_spec (BitLen i) 64) as [Hb|Hb].
  { apply (BitLen_le i 64) in Hb; [|lia..]. rewrite u64_small by (unfold is_u64; lia).
    by rewrite encodeUint_enc by lia. }
  assert (Hl : 0 <= BitLen i + 7) by lia.
  assert (Hbig : (2 <= length (min_bytes i))%nat).
  { apply min_bytes_large. unfold BitLen in Hb. destruct (Z.eqb_spec i 0); [lia|].
    rewrite Z.abs_eq in Hb by lia. change 256 with (2 ^ 8). apply Z.log2_le_pow2; lia. }
  rewrite land_shift_div8 by lia.
  replace ((BitLen i + 7) / 8) with (len (min_bytes i)).
  2:{ unfold len, min_bytes. rewrite length_be_bytes. pose proof (Z.div_pos (BitLen i + 7) 8). lia. }
  f_equal. rewrite <- encodeStringHeader_long by lia. f_equal.
  unfold len. rewrite Nat2Z.id. rewrite <- (min_bytes_val i Hi) at 2. apply be_bytes_be_val.
Qed.

Lemma writeByteArray_enc n w b : length b = n -> writeByteArray n w b = append w (enc_string b).
Proof.
  intros <-. destruct b as [|c [|d b]]; simpl; [done| |].
  - case_match; done.
  - by rewrite (encodeStringHeader_long w (c :: d :: b)).
Qed.

(** * The buffer with deferred headers *)

(** The final text of string data [s], written from position [base] on, with
    the headers [hs] inserted at their offsets. *)
Fixpoint flush (base : Z) (s : list byte) (hs : list listhead) : list byte :=
  match hs with
  | [] => s
  | h :: hs =>
      take (Z.to_nat (offset h - base)) s ++ listhead_encode h
        ++ flush (offset h) (drop (Z.to_nat (offset h - base)) s) hs
  end.

(** The headers are in order, inside [base, lim], with encodable sizes. *)
Fixpoint wf_heads (base lim : Z) (hs : list listhead) : Prop :=
  match hs with
  | [] => base <= lim
  | h :: hs => base <= offset h <= lim /\ 0 <= lh_size h < 2 ^ 64 /\ wf_heads (offset h) lim hs
  end.

Definition heads_size (hs : list listhead) : Z := zsum (map (fun h => headsize (lh_size h)) hs).

Lemma flush_length hs : forall base s,
  wf_heads base (base + len s) hs -> len (flush base s hs) = len s + heads_size hs.
Proof.
  unfold len, heads_size. induction hs as [|h hs IH]; intros base s Hwf; cbn [flush wf_heads map] in *;
    [rewrite zsum_nil; lia|].
  destruct Hwf as (Ho & Hsz & Hwf).
  pose proof (puthead_length 0xC0 0xF7 (lh_size h) Hsz) as Hp. unfold len in Hp.
  rewrite !length_app, !Nat2Z.inj_add, IH, length_take, length_drop, zsum_cons.
  - unfold listhead_encode. lia.
  - unfold len in *. rewrite length_drop. replace (offset h + _) with (base + Z.of_nat (length s)) by lia. done.
Qed.

Lemma flush_prefix hs : forall base p s,
  wf_heads (base + len p) (base + len p + len s) hs ->
  flush base (p ++ s) hs = p ++ flush (base + len p) s hs.
Proof.
  unfold len. destruct hs as [|h hs]; intros base p s Hwf; simpl in *; [done|].
  destruct Hwf as (Ho & _).
  rewrite take_app, drop_app, take_ge, drop_ge by lia. rewrite app_nil_l, <- app_assoc.
  replace (Z.to_nat (offset h - base) - length p)%nat
    with (Z.to_nat (offset h - (base + Z.of_nat (length p)))) by lia. done.
Qed.

Lemma flush_app hs1 : forall base s1 s2 hs2,
  wf_heads base (base + len s1) hs1 -> wf_heads (base + len s1) (base + len s1 + len s2) hs2 ->
  flush base (s1 ++ s2) (hs1 ++ hs2) = flush base s1 hs1 ++ flush (base + len s1) s2 hs2.
Proof.
  induction hs1 as [|h hs1 IH]; intros base s1 s2 hs2 H1 H2; simpl in *.
  { by apply flush_prefix. }
  destruct H1 as (Ho & Hsz & H1). unfold len in *.
  rewrite take_app_le, drop_app_le by lia. rewrite <- !app_assoc. f_equal. f_equal.
  rewrite IH.
  - f_equal. f_equal. unfold len. rewrite length_drop. lia.
  - unfold len. rewrite length_drop. replace (offset h + _) with (base + Z.of_nat (length s1)) by lia. done.
  - unfold len. rewrite length_drop. replace (offset h + _) with (base + Z.of_nat (length s1)) by lia. done.
Qed.

Lemma wf_heads_app hs1 : forall base mid lim hs2,
  wf_heads base mid hs1 -> wf_heads mid lim hs2 -> wf_heads base lim (hs1 ++ hs2).
Proof.
  induction hs1 as [|h hs1 IH]; intros base mid lim hs2 H1 H2; simpl in *.
  - destruct hs2; simpl in *; [lia|]. destruct H2 as (? & ? & ?). repeat split; try lia. done.
  - destruct H1 as (? & ? & H1). split; [|eauto].
    split; [lia|]. clear IH. assert (mid <= lim); [|lia].
    clear -H2. revert mid H2. induction hs2 as [|h' hs2 IH']; intros mid H2; simpl in *; [done|].
    destruct H2 as (? & ? & ?%IH'). lia.
Qed.

(** [w'] is [w] with some more data and headers that will be flushed as [p]. *)
Definition extends (w w' : encbuf) (p : list byte) : Prop :=
  exists s hs,
    str w' = str w ++ s /\ lheads w' = lheads w ++ hs /\ lhsize w' = lhsize w + heads_size hs /\
    wf_heads (len (str w)) (len (str w) + len s) hs /\ flush (len (str w)) s hs = p.

Lemma len_app {A} (l k : list A) : len (l ++ k) = len l + len k.
Proof. unfold len. rewrite length_app. lia. Qed.

Lemma len_nonneg {A} (l : list A) : 0 <= len l.
Proof. unfold len. lia. Qed.

Lemma extends_refl w : extends w w [].
Proof.
  exists [], []. rewrite !app_nil_r. pose proof (len_nonneg (str w)).
  unfold heads_size, zsum, len in *. repeat split; simpl; lia.
Qed.

Lemma extends_append w b : extends w (append w b) b.
Proof.
  exists b, []. rewrite app_nil_r. pose proof (len_nonneg b). unfold heads_size, append, zsum.
  repeat split; simpl; lia.
Qed.

Lemma heads_size_app hs1 hs2 : heads_size (hs1 ++ hs2) = heads_size hs1 + heads_size hs2.
Proof. unfold heads_size. by rewrite map_app, zsum_app. Qed.

Lemma extends_trans w1 w2 w3 p q : extends w1 w2 p -> extends w2 w3 q -> extends w1 w3 (p ++ q).
Proof.
  intros (s1 & h1 & Hs1 & Hh1 & Hl1 & Hw1 & <-) (s2 & h2 & Hs2 & Hh2 & Hl2 & Hw2 & <-).
  rewrite Hs1, len_app in Hw2. exists (s1 ++ s2), (h1 ++ h2).
  rewrite Hs2, Hs1, Hh2, Hh1, Hl2, Hl1, <- !app_assoc, heads_size_app, !len_app.
  repeat split; [lia| |].
  - rewrite Z.add_assoc. eapply wf_heads_app; eauto.
  - by apply flush_app.
Qed.

(** Closing a list puts the header in front of everything written since. *)
Lemma extends_in_list w body p :
  len p < 2 ^ 64 ->
  (forall w1, exists w2, body w1 = Ok w2 /\ extends w1 w2 p) ->
  exists w', in_list w body = Ok w' /\ extends w w' (enc_list p).
Proof.
  intros Hp Hbody. unfold in_list, list_. cbn zeta.
  destruct (Hbody (mkEncbuf (str w) (lheads w ++ [mkListhead (len (str w)) (lhsize w)]) (lhsize w)))
    as (w2 & -> & s & hs & Hs & Hh & Hl & Hwf & Hf). simpl in *.
  pose proof (flush_length hs _ _ Hwf) as Hlen. rewrite Hf in Hlen.
  unfold listEnd. rewrite Hh, <- app_assoc. simpl.
  rewrite list_lookup_middle by done. cbn zeta. unfold encbuf_size. rewrite Hs, Hl, len_app.
  simpl. rewrite insert_app_r_alt by lia. rewrite Nat.sub_diag. simpl.
  replace (len (str w) + len s + (lhsize w + heads_size hs) - len (str w) - lhsize w)
    with (len p) by lia.
  eexists; split; [done|]. exists s, (mkListhead (len (str w)) (len p) :: hs). simpl.
  pose proof (len_nonneg p). pose proof (len_nonneg s).
  repeat split; try lia; try done.
  - unfold heads_size. rewrite map_cons, zsum_cons. fold (heads_size hs). simpl. unfold headsize.
    case_match; lia.
  - rewrite Z.sub_diag. change (Z.to_nat 0) with 0%nat. rewrite take_0, drop_0, Hf. done.
Qed.

Lemma write_elems_enc wr : forall vs,
  Forall (fun v => forall w, exists w', wr v w = Ok w' /\ extends w w' (enc v)) vs ->
  forall w, exists w', write_elems wr vs w = Ok w' /\ extends w w' (concat (map enc vs)).
Proof.
  induction 1 as [|v vs Hv _ IH]; intros w; simpl; [eexists; split; [done|apply extends_refl]|].
  destruct (Hv w) as (w1 & -> & He). destruct (IH w1) as (w2 & -> & He2).
  eexists; split; [done|]. by eapply extends_trans.
Qed.

Lemma write_fields_enc ts vs :
  Forall (fun t => forall v w, has_type t v -> exists w', writer t v w = Ok w' /\ extends w w' (enc v)) ts ->
  fields_type has_type ts vs -> forall w, exists w',
  ((fix fields (ts : list rtype) (vs : list rval) (w : encbuf) : outcome encbuf :=
     match ts, vs with
     | [], [] => Ok w
     | t :: ts, v :: vs =>
         match writer t v w with
         | Ok w' => fields ts vs w'
         | Fail e => Fail e
         | Panic p => Panic p
         end
     | _, _ => Panic "reflect"
     end) ts vs) w = Ok w' /\ extends w w' (concat (map enc vs)).
Proof.
  intros Hts. revert vs. induction Hts as [|t ts Ht _ IH]; intros [|v vs] Hf w; simpl in *; try done.
  { eexists; split; [done|apply extends_refl]. }
  destruct Hf as [Hv Hf]. destruct (Ht v w Hv) as (w1 & -> & He).
  destruct (IH vs Hf w1) as (w2 & Heq & He2). rewrite Heq.
  eexists; split; [done|]. by eapply extends_trans.
Qed.

(** Go's unsigned integer kinds. *)
Fixpoint wf_type (t : rtype) : Prop :=
  match t with
  | TUint bits => bits = 8 \/ bits = 16 \/ bits = 32 \/ bits = 64
  | TSlice t | TArray _ t => wf_type t
  | TStruct ts => fold_right and True (map wf_type ts)
  | _ => True
  end.

Lemma wf_fields ts : fold_right and True (map wf_type ts) <-> Forall wf_type ts.
Proof. induction ts; simpl; rewrite ?Forall_cons, ?Forall_nil; naive_solver. Qed.

Lemma uint_range bits i : wf_type (TUint bits) -> 0 <= i < 2 ^ bits -> 0 <= i < 2 ^ 64.
Proof. intros [-> | [-> | [-> | ->]]]; lia. Qed.

(** Every writer appends the reference encoding of its value. *)
Lemma writer_enc t : wf_type t -> forall v w, has_type t v ->
  exists w', writer t v w = Ok w' /\ extends w w' (enc v).
Proof.
  induction t as [bits| | | |n| |t IH|n t IH|ts IH] using rtype_ind';
    intros Hwf [i|b|b|i|l] w Ht; try done; simpl in Ht |- *.
  - rewrite encodeUint_enc by (by eapply uint_range). eauto using extends_append.
  - eexists; split; [done|]. unfold writeBool. destruct b; apply extends_append.
  - rewrite encodeString_enc. eauto using extends_append.
  - rewrite encodeString_enc. eauto using extends_append.
  - rewrite writeByteArray_enc by naive_solver. eauto using extends_append.
  - rewrite writeBigInt_enc by naive_solver. eauto using extends_append.
  - destruct Ht as [Hl Hlen]. apply extends_in_list; [done|]. apply write_elems_enc.
    eapply Forall_impl; [exact Hl|]. auto.
  - destruct Ht as (_ & Hl & Hlen). apply extends_in_list; [done|]. apply write_elems_enc.
    eapply Forall_impl; [exact Hl|]. auto.
  - destruct Ht as [Hl Hlen]. apply extends_in_list; [done|].
    apply write_fields_enc; [|done]. simpl in Hwf. rewrite wf_fields in Hwf.
    rewrite Forall_forall in *. auto.
Qed.

(** * The output buffer is filled exactly *)

Lemma copy_at_fit out pos src :
  (pos + length src <= length out)%nat ->
  copy_at out pos src = take pos out ++ src ++ drop (pos + length src) out.
Proof.
  intros. unfold copy_at. rewrite Nat.min_l by lia. by rewrite (take_ge src) by lia.
Qed.

Lemma length_copy_at out pos src : (pos <= length out)%nat -> length (copy_at out pos src) = length out.
Proof. intros. unfold copy_at. rewrite !length_app, !length_take, length_drop. lia. Qed.

Lemma take_copy_at out pos src :
  (pos + length src <= length out)%nat -> take (pos + length src) (copy_at out pos src) = take pos out ++ src.
Proof.
  intros. rewrite copy_at_fit by done. rewrite app_assoc. apply take_app_length'.
  rewrite length_app, length_take. lia.
Qed.

Lemma toBytes_loop_flush data : forall heads out strpos pos,
  wf_heads (Z.of_nat strpos) (len data) heads ->
  length out = (pos + length (flush (Z.of_nat strpos) (drop strpos data) heads))%nat ->
  toBytes_loop data out strpos pos heads = Ok (take pos out ++ flush (Z.of_nat strpos) (drop strpos data) heads).
Proof.
  unfold len. induction heads as [|h heads IH]; intros out strpos pos Hwf Hlen; cbn [toBytes_loop flush wf_heads] in *.
  { unfold sub_slice. rewrite decide_True by lia. rewrite (take_ge (drop _ _)) by (rewrite length_drop; lia).
    rewrite copy_at_fit by lia. rewrite (drop_ge out), app_nil_r by lia. done. }
  destruct Hwf as (Ho & Hsz & Hwf). unfold sub_slice. rewrite decide_True by lia.
  set (piece := take (Z.to_nat (offset h) - strpos) (drop strpos data)).
  replace (Z.to_nat (offset h - Z.of_nat strpos)) with (Z.to_nat (offset h) - strpos)%nat in * by lia.
  fold piece in Hlen |- *.
  assert (Hpl : length piece = (Z.to_nat (offset h) - strpos)%nat).
  { unfold piece. rewrite length_take, length_drop. lia. }
  rewrite !length_app in Hlen. rewrite drop_drop in *.
  replace (strpos + (Z.to_nat (offset h) - strpos))%nat with (Z.to_nat (offset h)) in * by lia.
  rewrite Nat.min_l by lia. cbn zeta. rewrite length_copy_at by lia. rewrite decide_True by lia.
  replace (strpos + length piece)%nat with (Z.to_nat (offset h)) by lia.
  rewrite IH.
  - rewrite take_copy_at by (rewrite length_copy_at; lia). rewrite take_copy_at by lia.
    rewrite Z2Nat.id by lia. by rewrite <- !app_assoc.
  - by rewrite Z2Nat.id by lia.
  - rewrite !length_copy_at by (rewrite ?length_copy_at; lia). rewrite Z2Nat.id by lia. lia.
Qed.

Lemma toBytes_extends w p : extends reset w p -> toBytes w = Ok p.
Proof.
  intros (s & hs & Hs & Hh & Hl & Hwf & Hf). unfold reset in *. simpl in *.
  pose proof (flush_length hs 0 s) as Hlen. rewrite Z.add_0_l in Hlen. change (len []) with 0 in *.
  rewrite Hf in Hlen. specialize (Hlen Hwf). unfold len in Hlen.
  unfold toBytes. rewrite toBytes_loop_flush; rewrite ?Hs, ?Hh, ?drop_0.
  - change (Z.of_nat 0) with 0. by rewrite Hf, take_0.
  - done.
  - change (Z.of_nat 0) with 0. rewrite Hf, length_replicate. unfold encbuf_size, len. rewrite Hs, Hl. lia.
Qed.

Lemma EncodeToBytes_typed t v : wf_type t -> has_type t v -> EncodeToBytes t v = Ok (enc v).
Proof.
  intros Hwf Hv. unfold EncodeToBytes. destruct (writer_enc t Hwf v reset Hv) as (w & -> & He).
  by apply toBytes_extends.
Qed.

(** C35: the RLP encoder is correct: for every type and every value of it, the
    buffer with deferred headers (offsets, precomputed sizes, in-place copies)
    never fails or panics and yields the recursive reference encoding. *)
Theorem EncodeToBytes_enc t v
  (Hwf : wf_type t) (Hv : has_type t v) : EncodeToBytes t v = Ok (enc v).
Proof. by apply EncodeToBytes_typed. Qed.

Lemma EncodeToBytes_enc_witness :
  EncodeToBytes (TStruct [TSlice (TByteArray 2); TUint 8; TUint 64])
    (VList [VList [VBytes [Byte.x01; Byte.xff]]; VUint 2; VUint 1700000040])
  = Ok (enc (VList [VList [VBytes [Byte.x01; Byte.xff]]; VUint 2; VUint 1700000040])).
Proof.
  apply EncodeToBytes_enc.
  - simpl. naive_solver.
  - apply has_typeb_sound. vm_compute. reflexivity.
Defined.

(** [AppendUint64] of raw.go agrees with the stream encoder on every uint64. *)
Lemma AppendUint64_enc b i : 0 <= i < 2 ^ 64 -> AppendUint64 b i = b ++ enc (VUint i).
Proof.
  intros Hi. assert (Hu : str (encodeUint (mkEncbuf b [] 0) i) = b ++ enc (VUint i))
    by (by rewrite encodeUint_enc).
  rewrite <- Hu. unfold AppendUint64, encodeUint, putint, append. simpl str.
  destruct (Z.eqb_spec i 0); [done|]. destruct (Z.ltb_spec i 128); [done|].
  repeat match goal with |- context [if Z.ltb i ?n then _ else _] => destruct (Z.ltb_spec i n); [done|] end.
  done.
Qed.
