(* ===== verification/RlpDec.v ===== *)
(** Properties of the RLP decoder on arbitrary input: it terminates and never
    panics, it accepts only the canonical encoding of a value of the requested
    type, and it accepts that encoding. *)

From S2P Require Import Prelude Common Rlp RlpEnc.
From Stdlib Require Import Strings.Byte.

(** * The state of a stream *)

(** [at_ s input st]: the unread input is [input], exactly what the limit
    counts, and [st] is the stack of list limits. *)
Record at_ (s : Stream) (input : list byte) (st : list Z) : Prop := {
  at_r : r s = input;
  at_remaining : remaining s = len input;
  at_limited : limited s = true;
  at_stack : stack s = st;
  at_u64 : Forall is_u64 st;
  at_small : len input < 2 ^ 63;
}.

(** ... with no value header pending. *)
Definition at0 (s : Stream) (input : list byte) (st : list Z) : Prop :=
  at_ s input st /\ kind s = None.

(** The stack after consuming [n] bytes: the innermost limit shrinks (modulo
    2^64, as the code computes it). *)
Definition adv (st : list Z) (n : Z) : list Z :=
  match st with [] => [] | l :: st => u64 (l - n) :: st end.

Lemma adv_adv st a b : adv (adv st a) b = adv st (a + b).
Proof.
  destruct st as [|l st]; simpl; [done|]. f_equal. unfold u64.
  rewrite Zminus_mod_idemp_l. f_equal. lia.
Qed.

Lemma adv_0 st : Forall is_u64 st -> adv st 0 = st.
Proof. destruct 1 as [|l st Hl _]; simpl; [done|]. by rewrite Z.sub_0_r, u64_small. Qed.

Lemma adv_u64 st n : Forall is_u64 st -> Forall is_u64 (adv st n).
Proof. destruct 1; simpl; constructor; [apply u64_range|done]. Qed.

(** [n] bytes fit in the innermost list. *)
Definition fits (st : list Z) (n : Z) : Prop :=
  match st with [] => True | l :: _ => n <= l end.

Lemma fits_adv st a b : Forall is_u64 st -> 0 <= a -> 0 <= b -> fits st (a + b) -> fits (adv st a) b.
Proof.
  destruct 1 as [|l st Hl _]; simpl; [done|]. unfold is_u64 in Hl. intros.
  rewrite u64_small; [lia|]. unfold is_u64. lia.
Qed.

Lemma at_eta s input st : at_ s input st ->
  s = mkStream input (len input) (size s) (kinderr s) st (kind s) (byteval s) true.
Proof. destruct s. intros []. simpl in *. by subst. Qed.

(** Replace a stream by its fields. *)
Ltac at_destruct w :=
  destruct w as [?t [?r ?rm ?sz ?ke ?st ?k ?bv ?lim]];
  let Hr := fresh in let Hm := fresh in let Hl := fresh in let Hs := fresh in
  intros [Hr Hm Hl Hs Hu Hsmall]; simpl in Hr, Hm, Hl, Hs; subst.

Ltac dec_red :=
  cbv beta delta [upd set_r set_remaining set_size set_kinderr set_stack set_kind set_byteval];
  cbn [w_st w_tick r remaining size kinderr stack kind byteval limited].
Ltac dec_step := wp_step; dec_red.

Ltac at_split := constructor; simpl; try done; auto using adv_u64.

(** * Reading primitives *)

(** [willRead] only checks and updates the limits. *)
Lemma willRead_wp n (w : World Stream) input st :
  at_ (w_st w) input st -> 0 <= n ->
  wp (willRead n) (fun o w' =>
    match o with
    | Ok _ => n <= len input /\ fits st n /\
        w_st w' = mkStream input (len input - n) (size (w_st w)) (kinderr (w_st w)) (adv st n) None
                    (byteval (w_st w)) true
    | Fail e => (e = ErrElemTooLarge /\ ~ fits st n) \/ (e = ErrValueTooLarge /\ len input < n)
    | Panic _ => False
    end) w.
Proof.
  at_destruct w. intros Hn.
  unfold willRead, rearm. do 2 dec_step. destruct st as [|l st]; cbn [adv fits].
  - do 2 dec_step. dec_step; [right; split; [done|lia]|]. dec_step.
    split; [lia|]. split; [done|]. rewrite u64_small by (unfold is_u64; lia). done.
  - dec_step; [left; split; [done|lia]|]. do 2 dec_step.
    dec_step; [right; split; [done|lia]|]. dec_step.
    split; [lia|]. split; [lia|]. rewrite (u64_small (len input - n)) by (unfold is_u64; lia). done.
Qed.

(** The result of reading [n] bytes from a stream in state [s]. *)
Definition read_post (s : Stream) (input : list byte) (st : list Z) (n : Z)
    (o : outcome (list byte)) (s' : Stream) : Prop :=
  match o with
  | Ok b => exists rest, input = b ++ rest /\ len b = n /\ fits st n /\
      s' = mkStream rest (len rest) (size s) (kinderr s) (adv st n) None (byteval s) true
  | Fail e => (e = ErrElemTooLarge /\ ~ fits st n) \/ (e = ErrValueTooLarge /\ len input < n)
  | Panic _ => False
  end.

Lemma readFull_wp n (w : World Stream) input st :
  at_ (w_st w) input st -> 0 <= n ->
  wp (readFull n) (fun o w' => read_post (w_st w) input st n o (w_st w')) w.
Proof.
  intros Hat Hn. unfold readFull. wp_use willRead_wp; [done..|].
  intros [[]|e|p] w1 Hw; simpl; [|done..]. destruct Hw as (Hle & Hf & Hw). unfold len in *.
  dec_step. rewrite Hw. do 2 dec_step.
  { exfalso. b2p. unfold len in *. rewrite length_take in *. lia. }
  dec_step. exists (drop (Z.to_nat n) input). rewrite take_drop. unfold len. rewrite length_take.
  split_and!; [done|lia|done|]. rewrite Hw. dec_red. f_equal. rewrite length_drop. lia.
Qed.

Lemma readByte_wp (w : World Stream) input st :
  at_ (w_st w) input st ->
  wp readByte (fun o w' => read_post (w_st w) input st 1 (outcome_map (fun b => [b]) o) (w_st w')) w.
Proof.
  intros Hat. unfold readByte. wp_use willRead_wp; [done..|].
  intros [[]|e|p] w1 Hw; simpl; [|done..]. destruct Hw as (Hle & Hf & Hw). unfold len in *.
  dec_step. rewrite Hw. dec_red. destruct input as [|b rest]; [simpl in Hle; lia|].
  do 2 dec_step. exists rest. split_and!; [done..|]. rewrite Hw. dec_red. f_equal.
  unfold len. simpl. lia.
Qed.

Lemma le_val_app l k : le_val (l ++ k) = le_val l + 256 ^ len l * le_val k.
Proof.
  unfold len. induction l as [|b l IH]; simpl le_val.
  { simpl. lia. }
  simpl app. cbn [le_val]. rewrite IH. replace (Z.of_nat (length (b :: l))) with (Z.succ (Z.of_nat (length l))) by (simpl; lia).
  rewrite Z.pow_succ_r by lia. lia.
Qed.

Lemma be_val_cons c b : be_val (c :: b) = Zb c * 256 ^ len b + be_val b.
Proof.
  unfold be_val. simpl. rewrite le_val_app. unfold len. rewrite length_rev. simpl. lia.
Qed.

(** A byte string without a leading zero is the shortest form of its value. *)
Lemma min_bytes_be_val c b : Zb c <> 0 -> min_bytes (be_val (c :: b)) = c :: b.
Proof.
  intros Hc. pose proof (Zb_range c). pose proof (be_val_range b) as Hb.
  rewrite (min_bytes_case _ (length (c :: b))).
  - apply be_bytes_be_val.
  - simpl. lia.
  - rewrite be_val_cons. unfold len in *. simpl length.
    replace (8 * (Z.of_nat (S (length b)) - 1)) with (8 * Z.of_nat (length b)) by lia.
    replace (8 * Z.of_nat (S (length b))) with (8 + 8 * Z.of_nat (length b)) by lia.
    rewrite Z.pow_add_r by lia. rewrite !(Z.pow_mul_r 2 8) by lia. change (2 ^ 8) with 256.
    pose proof (Z.pow_pos_nonneg 256 (Z.of_nat (length b)) ltac:(lia) ltac:(lia)). nia.
Qed.

(** [readUint] of more than one byte accepts exactly shortest forms. *)
Lemma readUint_wp n (w : World Stream) input st :
  at_ (w_st w) input st -> 0 <= n <= 8 ->
  wp (readUint n) (fun o w' =>
    match o with
    | Ok v => exists b rest, input = b ++ rest /\ len b = n /\ be_val b = v /\ fits st n /\
        (n <> 1 -> min_bytes v = b) /\
        (0 < n -> w_st w' = mkStream rest (len rest) (size (w_st w)) (kinderr (w_st w)) (adv st n) None (byteval (w_st w)) true) /\
        (n = 0 -> w_st w' = mkStream input (len input) (size (w_st w)) (kinderr (w_st w)) st None (byteval (w_st w)) true)
    | Fail e =>
        (e = ErrElemTooLarge /\ ~ fits st n) \/ (e = ErrValueTooLarge /\ len input < n) \/
        (e = ErrCanonSize /\ 1 < n /\ exists b rest, input = Byte.x00 :: b ++ rest /\ 1 + len b = n)
    | Panic _ => False
    end) w.
Proof.
  intros Hat Hn. unfold readUint. destruct (Z.eqb_spec n 0) as [->|Hn0].
  { unfold rearm. do 2 dec_step. exists [], input. pose proof (at_eta _ _ _ Hat) as ->.
    split_and!; try done. destruct Hat as [_ _ _ _ Hu _]. destruct Hu as [|l st Hl _]; simpl; [done|].
    unfold is_u64 in Hl. lia. }
  destruct (Z.eqb_spec n 1) as [->|Hn1].
  { wp_use readByte_wp; [done|]. intros [b|e|p] w1 Hw; simpl in *; [|tauto..].
    destruct Hw as (rest & -> & _ & Hf & Hw). dec_step. exists [b], rest.
    split_and!; try done. unfold be_val. simpl. lia. }
  destruct (Z.ltb_spec 8 n); [lia|]. dec_step.
  wp_use readFull_wp; [done|lia|]. intros [b|e|p] w1 Hw; simpl in *; [|tauto..].
  destruct Hw as (rest & -> & Hl & Hf & Hw). destruct b as [|c b]; [unfold len in Hl; simpl in Hl; lia|].
  dec_step.
  - right. right. apply Z.eqb_eq in H0. split_and!; [done|lia|]. exists b, rest.
    split; [|unfold len in *; simpl in Hl; lia].
    simpl. f_equal. by apply Zb_inj.
  - dec_step. exists (c :: b), rest. split_and!; try done; try lia.
    intros _. apply min_bytes_be_val. by apply Z.eqb_neq.
Qed.

(** * Headers *)

(** [hdr] is the header of a value of kind [k] and size [sz]; a single byte is
    its own header. *)
Definition valid_head (k : Kind) (sz : Z) (bv : byte) (hdr : list byte) : Prop :=
  match k with
  | Byte_ => hdr = [bv] /\ Zb bv < 128 /\ sz = 0
  | String_ => hdr = puthead 0x80 0xB7 sz /\ 0 <= sz < 2 ^ 64
  | List_ => hdr = puthead 0xC0 0xF7 sz /\ 0 <= sz < 2 ^ 64
  end.

Lemma puthead_long st lt v bs :
  56 <= v < 2 ^ 64 -> min_bytes v = bs -> puthead st lt v = bZ (lt + len bs) :: bs.
Proof.
  intros Hv <-. unfold puthead. destruct (Z.ltb_spec v 56); [lia|]. by rewrite putint_min by lia.
Qed.

Lemma be_val_u64 b : len b <= 8 -> 0 <= be_val b < 2 ^ 64.
Proof.
  intros Hb. pose proof (be_val_range b). pose proof (len_nonneg b).
  pose proof (Z.pow_le_mono_r 256 (len b) 8 ltac:(lia) Hb). lia.
Qed.

(** The part of [readKind] that reads a long size. *)
Definition readLong (k : Kind) (n : Z) : D (Kind * Z * option error) :=
  size ← try_ (readUint n);
  match size with
  | inl size => mret (k, size, if Z.ltb size 56 then Some ErrCanonSize else None)
  | inr err => mret (k, 0, Some err)
  end.

Lemma readLong_wp k n (w : World Stream) input st :
  at_ (w_st w) input st -> 1 <= n <= 8 ->
  wp (readLong k n) (fun o w' =>
    match o with
    | Ok (k', sz, None) => k' = k /\ exists bs rest, input = bs ++ rest /\ len bs = n /\
        min_bytes sz = bs /\ 56 <= sz < 2 ^ 64 /\ fits st n /\
        w_st w' = mkStream rest (len rest) (size (w_st w)) (kinderr (w_st w)) (adv st n) None (byteval (w_st w)) true
    | Ok (_, _, Some e) => e <> EOL
    | _ => False
    end) w.
Proof.
  intros Hat Hn. unfold readLong. wp_step. wp_use readUint_wp; [done|lia|].
  intros [v|e|p] w1 Hw; [| |done].
  - wp_norm. wp_step. destruct Hw as (b & rest & -> & Hl & Hv & Hf & Hm & Hw & _).
    destruct (Z.ltb_spec v 56); [done|]. pose proof (be_val_u64 b ltac:(lia)).
    split; [done|]. exists b, rest. split_and!; try done; try lia; [|apply Hw; lia].
    destruct (decide (n = 1)) as [->|]; [|auto].
    destruct b as [|c [|? ?]]; unfold len in Hl; simpl in Hl; try lia.
    subst v. apply min_bytes_be_val. unfold be_val in *. simpl in *. lia.
  - wp_norm. wp_step. destruct Hw as [[-> _]|[[-> _]|[-> _]]]; done.
Qed.

Lemma fits_0 st : Forall is_u64 st -> fits st 0.
Proof. destruct 1 as [|l st Hl _]; simpl; [done|]. apply Hl. Qed.

Lemma fits_add st a b : Forall is_u64 st -> 0 <= b -> fits st a -> fits (adv st a) b -> 0 <= a -> fits st (a + b).
Proof.
  destruct 1 as [|l st Hl _]; simpl; [done|]. unfold is_u64 in *. intros.
  rewrite u64_small in * by (unfold is_u64; lia). lia.
Qed.

(** The header that a successful [readKind] has read, and the state after it. *)
Definition kind_post (s : Stream) (input : list byte) (st : list Z)
    (o : outcome (Kind * Z * option error)) (s' : Stream) : Prop :=
  match o with
  | Ok (k, sz, None) => exists hdr rest, input = hdr ++ rest /\
      valid_head k sz (byteval s') hdr /\ fits st (len hdr) /\
      s' = mkStream rest (len rest) (size s) (kinderr s) (adv st (len hdr)) None (byteval s') true
  | Ok (_, _, Some e) => e <> EOL
  | _ => False
  end.

(** A long header: the tag [b] followed by [n] bytes of size. *)
Lemma readLong_kind k lt b n (w : World Stream) s input rest st :
  (k = String_ /\ lt = 0xB7) \/ (k = List_ /\ lt = 0xF7) ->
  Zb b = lt + n -> 1 <= n <= 8 -> input = b :: rest -> fits st 1 -> Forall is_u64 st ->
  at_ (w_st w) rest (adv st 1) ->
  size (w_st w) = size s -> kinderr (w_st w) = kinderr s ->
  wp (readLong k n) (fun o w' => kind_post s input st o (w_st w')) w.
Proof.
  intros Hk Hb Hn -> Hf Hu Hat Hsz1 Hke. eapply wp_mono; [by apply readLong_wp|].
  intros [[[k' sz] [e|]]| |] w2 Hw2; try done.
  destruct Hw2 as (-> & bs & rest' & -> & Hl & Hm & Hsz & Hf' & ->).
  exists (b :: bs), rest'. rewrite adv_adv, Hsz1, Hke.
  replace (len (b :: bs)) with (1 + n) by (unfold len in *; simpl; lia).
  split_and!; [done| |apply fits_add; auto; lia|done].
  destruct Hk as [[-> ->]|[-> ->]]; simpl; (split; [|lia]); rewrite (puthead_long _ _ _ _ Hsz Hm), Hl;
    rewrite <- Hb, bZ_Zb; done.
Qed.

Lemma readKind_wp (w : World Stream) input st :
  at_ (w_st w) input st ->
  wp readKind (fun o w' => kind_post (w_st w) input st o (w_st w')) w.
Proof.
  intros Hat. unfold readKind. wp_step. wp_use readByte_wp; [done|].
  intros [b|e|p] w1 Hw; simpl in Hw; [| |done].
  2:{ wp_norm. do 2 wp_step. destruct Hw as [[-> _]|[-> _]]; destruct (stack (w_st w1)); try done;
      simpl; case_decide; done. }
  destruct Hw as (rest & -> & _ & Hf & Hw). wp_norm. wp_step. rewrite Hw. dec_red.
  fold (readLong String_ (Zb b - 183)). fold (readLong List_ (Zb b - 247)).
  destruct Hat as [_ _ _ _ Hu Hs].
  assert (Hs' : len rest < 2 ^ 63) by (unfold len in *; simpl in Hs; lia).
  pose proof (Zb_range b).
  destruct (Z.ltb_spec (Zb b) 128).
  { do 2 dec_step. exists [b], rest. split_and!; done. }
  destruct (Z.ltb_spec (Zb b) 184).
  { dec_step. exists [b], rest. unfold valid_head, puthead.
    destruct (Z.ltb_spec (Zb b - 128) 56); [|lia].
    replace (128 + (Zb b - 128)) with (Zb b) by lia. rewrite bZ_Zb. split_and!; try done; lia. }
  destruct (Z.ltb_spec (Zb b) 192).
  { eapply (readLong_kind _ 183); eauto; try lia. at_split. }
  destruct (Z.ltb_spec (Zb b) 248).
  { dec_step. exists [b], rest. unfold valid_head, puthead.
    destruct (Z.ltb_spec (Zb b - 192) 56); [|lia].
    replace (192 + (Zb b - 192)) with (Zb b) by lia. rewrite bZ_Zb. split_and!; try done; lia. }
  eapply (readLong_kind _ 247); eauto; try lia. at_split.
Qed.

(** [Kind]: the state after a header has been read and checked. *)
Definition head_read (s' : Stream) (input : list byte) (st : list Z) (k : Kind) (sz : Z)
    (hdr rest : list byte) : Prop :=
  input = hdr ++ rest /\ valid_head k sz (byteval s') hdr /\ fits st (len hdr) /\ fits st sz /\
  0 <= sz <= len rest /\
  s' = mkStream rest (len rest) sz None (adv st (len hdr)) (Some k) (byteval s') true.

Lemma Kind_wp (w : World Stream) input st :
  at0 (w_st w) input st ->
  wp Kind_ (fun o w' =>
    match o with
    | Ok (k, sz) => head st <> Some 0 /\ exists hdr rest, head_read (w_st w') input st k sz hdr rest
    | Fail e => e = EOL -> head st = Some 0 /\ at0 (w_st w') input st
    | Panic _ => False
    end) w.
Proof.
  intros [Hat Hk]. unfold Kind_, listLimit. wp_step. rewrite Hk, (at_stack _ _ _ Hat).
  wp_step. { intros _. split; [|done]. destruct st as [|l st]; [done|]. simpl in *. b2p. by subst. }
  assert (Hne : head st <> Some 0).
  { destruct st as [|l st]; [done|]. simpl in *. b2p. congruence. }
  wp_use readKind_wp; [done|]. intros [[[k sz] [e|]]| |] w1 Hw; simpl in Hw; try done.
  destruct Hw as (hdr & rest & Hin & Hv & Hf & Hw). wp_norm.
  assert (Hsz : 0 <= sz) by (destruct k; simpl in Hv; lia).
  do 3 wp_step. rewrite Hw. dec_red.
  destruct (match head st with Some l => Z.ltb l sz | None => false end) eqn:Hl; [wp_step; by intros ?|].
  destruct (Z.ltb_spec (len rest) sz) as [Hr|Hr]; simpl; [wp_step; by intros ?|].
  dec_step.
  split; [done|]. exists hdr, rest. split_and!; try done.
  destruct st as [|l st]; simpl in *; [done|]. by b2p.
Qed.

Lemma head_read_at s' input st k sz hdr rest :
  head_read s' input st k sz hdr rest -> len input < 2 ^ 63 -> Forall is_u64 st ->
  at_ s' rest (adv st (len hdr)).
Proof.
  intros (-> & _ & _ & _ & _ & ->) Hs Hu. rewrite len_app in Hs. pose proof (len_nonneg hdr). at_split. lia.
Qed.

Lemma head_read_rearm s' input st k sz hdr rest :
  head_read s' input st k sz hdr rest ->
  mkStream (r s') (remaining s') (size s') (kinderr s') (stack s') None (byteval s') (limited s')
  = mkStream rest (len rest) sz None (adv st (len hdr)) None (byteval s') true.
Proof. intros (_ & _ & _ & _ & _ & Hs). destruct s'. simpl in *. by injection Hs as -> -> -> -> -> -> ->. Qed.

(** * Error wrapping *)

Lemma wrapStreamError_EOL e : wrapStreamError e = EOL -> e = EOL.
Proof. unfold wrapStreamError. repeat (case_decide; [done|]). done. Qed.

Lemma wrapStreamError_ne e : e <> EOL -> wrapStreamError e <> EOL.
Proof. intros He Hw. by apply wrapStreamError_EOL in Hw. Qed.

Lemma wp_wrap {A} (m : D A) Q w :
  wp m (fun o w' => match o with Fail e => Q (Fail (wrapStreamError e)) w' | _ => Q o w' end) w ->
  wp (wrap m) Q w.
Proof.
  intros Hm. unfold wrap. apply wp_bind, wp_try. eapply wp_mono; [exact Hm|]. intros [] ?; auto.
Qed.

(** * Decoders *)

(** The result of a decoder that produces a value with encoding [f a]. *)
Definition reads {A} (f : A -> list byte) (P : A -> Prop) (input : list byte) (st : list Z)
    (o : outcome A) (s' : Stream) : Prop :=
  match o with
  | Ok a => P a /\ exists rest, input = f a ++ rest /\ at0 s' rest (adv st (len (f a)))
  | Fail e => e = EOL -> head st = Some 0 /\ at0 s' input st
  | Panic _ => False
  end.

Definition dec_spec {A} (f : A -> list byte) (P : A -> Prop) (dec : D A) : Prop :=
  forall (w : World Stream) input st, at0 (w_st w) input st ->
  wp dec (fun o w' => reads f P input st o (w_st w')) w.

Lemma dec_spec_wrap {A} (f : A -> list byte) P (dec : D A) :
  dec_spec f P dec -> dec_spec f P (wrap dec).
Proof.
  intros Hd w input st Hat. apply wp_wrap. eapply wp_mono; [by apply Hd|].
  intros [a|e|p] w'; simpl; auto. intros He Hw. apply He. by apply wrapStreamError_EOL.
Qed.

Lemma dec_spec_fmap {A B} (g : A -> B) f (P : A -> Prop) f' (P' : B -> Prop) (dec : D A) :
  (forall a, f' (g a) = f a) -> (forall a, P a -> P' (g a)) ->
  dec_spec f P dec -> dec_spec f' P' (g <$> dec).
Proof.
  intros Hf HP Hd w input st Hat. apply wp_fmap. eapply wp_mono; [by apply Hd|].
  intros [a|e|p] w'; simpl; auto. intros (Ha & rest & Hin & Hat'). wp_step. simpl.
  rewrite Hf. eauto.
Qed.

(** The end of a read of [sz] bytes after a string header. *)
Lemma read_after_head s' input st k sz hdr rest b rest' szo keo :
  head_read s' input st k sz hdr rest -> len input < 2 ^ 63 -> Forall is_u64 st ->
  rest = b ++ rest' ->
  input = (hdr ++ b) ++ rest' /\
  at0 (mkStream rest' (len rest') szo keo (adv (adv st (len hdr)) (len b)) None (byteval s') true)
    rest' (adv st (len (hdr ++ b))).
Proof.
  intros (-> & _) Hs Hu ->. rewrite app_assoc. split; [done|]. split; [|done].
  rewrite adv_adv, len_app. at_split. rewrite !len_app in Hs.
  pose proof (len_nonneg hdr). pose proof (len_nonneg b). lia.
Qed.

(** A string with its header, where a single byte is not below 128. *)
Lemma enc_string_head b sz :
  len b = sz -> (length b = 1%nat -> exists c, b = [c] /\ 128 <= Zb c) ->
  enc_string b = puthead 0x80 0xB7 sz ++ b.
Proof.
  intros Hl Hone. destruct (decide (length b = 1%nat)) as [H1|H1].
  - destruct (Hone H1) as (c & -> & Hc). simpl. destruct (Z.leb_spec (Zb c) 127); [lia|].
    unfold len in Hl. simpl in Hl. by rewrite <- Hl.
  - by rewrite enc_string_long, Hl by done.
Qed.

(** The whole read of a string value: header [hdr], then the bytes [b]. *)
Lemma string_reads {A} (f : A -> list byte) (P : A -> Prop) w1 w2 input st sz hdr rest b a :
  head_read (w_st w1) input st String_ sz hdr rest -> len input < 2 ^ 63 -> Forall is_u64 st ->
  read_post (w_st w1) rest (adv st (len hdr)) sz (Ok b) (w_st w2) ->
  (length b = 1%nat -> exists c, b = [c] /\ 128 <= Zb c) ->
  f a = enc_string b -> (len b < 2 ^ 63 -> P a) ->
  reads f P input st (Ok a) (w_st (w2 : World Stream)).
Proof.
  intros Hh Hs Hu (rest' & Hr & Hl & Hf & Hw2) Hone Hfa HP.
  destruct (read_after_head _ _ _ _ _ _ _ b rest' (size (w_st w1)) (kinderr (w_st w1)) Hh Hs Hu Hr)
    as [Hin Hat2]. rewrite Hl in Hat2. rewrite <- Hw2 in Hat2.
  destruct Hh as (_ & (-> & Hsz) & _ & _ & Hle & _).
  split.
  - apply HP. rewrite Hin, !len_app in Hs. pose proof (len_nonneg rest').
    pose proof (len_nonneg (puthead 128 183 sz)). lia.
  - exists rest'. by rewrite Hfa, (enc_string_head b sz).
Qed.

(** A value read from its single byte. *)
Lemma byte_reads {A} (f : A -> list byte) (P : A -> Prop) s input st sz hdr rest a :
  head_read s input st Byte_ sz hdr rest -> len input < 2 ^ 63 -> Forall is_u64 st ->
  f a = [byteval s] -> P a ->
  reads f P input st (Ok a) (mkStream rest (len rest) sz None (adv st (len hdr)) None (byteval s) true).
Proof.
  intros (-> & (-> & Hb & ->) & _ & _ & _ & _) Hs Hu Hf HP. split; [done|]. exists rest. rewrite Hf.
  split; [done|]. split; [|done]. at_split. rewrite len_app in Hs. unfold len in *. simpl in *. lia.
Qed.

Lemma Bytes_spec : dec_spec enc_string (fun b => len b < 2 ^ 63) Bytes.
Proof.
  intros w input st [Hat Hk0]. destruct (Hat) as [_ _ _ _ Hu Hs]. unfold Bytes.
  wp_use Kind_wp; [by split|]. intros [[k sz]|e|p] w1 Hw; [|done..].
  destruct Hw as (_ & hdr & rest & Hh). pose proof (head_read_at _ _ _ _ _ _ _ Hh Hs Hu) as Hat1.
  wp_norm. destruct k; [| |by wp_step].
  - unfold rearm. do 3 dec_step. pose proof Hh as (_ & (_ & Hb & _) & _).
    rewrite (head_read_rearm _ _ _ _ _ _ _ Hh). eapply byte_reads; try done.
    simpl. destruct (Z.leb_spec (Zb (byteval (w_st w1))) 127); [done|lia].
  - wp_use readFull_wp; [done|destruct Hh; lia|]. intros [b|e|p] w2 Hw2; [| |done].
    2:{ destruct Hw2 as [[-> _]|[-> _]]; by intros ?. }
    assert (Hgoal := string_reads enc_string (fun b => len b < 2 ^ 63) w1 w2 _ _ _ _ _ b b Hh Hs Hu Hw2).
    wp_norm. destruct b as [|c [|c' b]]; [wp_step; by (apply Hgoal; intros)| |wp_step; by (apply Hgoal; intros)].
    wp_step; [by intros ?|]. wp_step. apply Hgoal; [|done..]. b2p. eauto.
Qed.

Lemma enc_uint_byte b : Zb b <> 0 -> Zb b < 128 -> enc_string (min_bytes (Zb b)) = [b].
Proof.
  intros. pose proof (Zb_range b). rewrite min_bytes_small by lia. rewrite bZ_Zb. simpl.
  destruct (Z.leb_spec (Zb b) 127); [done|lia].
Qed.

Lemma uint_spec bits : wf_type (TUint bits) ->
  dec_spec (fun i => enc_string (min_bytes i)) (fun i => 0 <= i < 2 ^ bits) (uint_ bits).
Proof.
  intros Hwf w input st [Hat Hk0]. destruct (Hat) as [_ _ _ _ Hu Hs]. unfold uint_.
  assert (Hbits : 8 <= bits <= 64 /\ bits = 8 * (bits / 8)).
  { destruct Hwf as [-> | [-> | [-> | ->]]]; (split; [lia|reflexivity]). }
  wp_use Kind_wp; [by split|]. intros [[k sz]|e|p] w1 Hw; [|done..].
  destruct Hw as (_ & hdr & rest & Hh). pose proof (head_read_at _ _ _ _ _ _ _ Hh Hs Hu) as Hat1.
  wp_norm. destruct k; [| |by wp_step].
  - wp_step. wp_step; [by intros ?|]. unfold rearm. do 2 dec_step.
    pose proof Hh as (_ & (_ & Hb & _) & _). rewrite (head_read_rearm _ _ _ _ _ _ _ Hh). b2p.
    pose proof (Zb_range (byteval (w_st w1))). pose proof (Z.pow_le_mono_r 2 8 bits ltac:(lia) ltac:(lia)).
    eapply byte_reads; try done; [by apply enc_uint_byte|lia].
  - wp_step; [by intros ?|]. b2p. assert (Hsz : 0 <= sz <= 8) by (destruct Hh; lia).
    rewrite u8_small by (unfold is_u8; lia). wp_step. wp_use readUint_wp; [done|lia|].
    intros [v|e|p] w2 Hw2; [| |done].
    2:{ wp_norm. wp_step. destruct Hw2 as [[-> _]|[[-> _]|[-> _]]]; case_decide; by intros ?. }
    destruct Hw2 as (b & rest' & Hr & Hl & Hv & Hf & Hm & Hw2 & Hw2').
    wp_norm. wp_step; [by intros ?|]. wp_step.
    apply (string_reads _ _ w1 w2 input st sz hdr rest b v Hh Hs Hu).
    + exists rest'. split_and!; try done. destruct (decide (sz = 0)) as [->|]; [|apply Hw2; lia].
      rewrite Hw2' by done. destruct b; [|unfold len in Hl; simpl in Hl; lia].
      subst rest. rewrite adv_0 by (by apply adv_u64). done.
    + intros H1. destruct b as [|c [|? ?]]; simpl in H1; try lia. exists c. split; [done|].
      unfold len in Hl. simpl in Hl. b2p; [lia|]. subst v. unfold be_val in *. simpl in *. lia.
    + f_equal. destruct (decide (sz = 1)) as [->|]; [|auto].
      destruct b as [|c [|? ?]]; unfold len in Hl; simpl in Hl; try lia.
      subst v. apply min_bytes_be_val. b2p; [lia|]. unfold be_val in *. simpl in *. lia.
    + intros _. pose proof (be_val_range b) as Hb. rewrite Hl, Hv in Hb.
      change 256 with (2 ^ 8) in Hb. rewrite <- Z.pow_mul_r in Hb by lia.
      pose proof (Z.pow_le_mono_r 2 (8 * sz) bits ltac:(lia) ltac:(lia)). lia.
Qed.

Lemma Bool_spec : dec_spec (fun b : bool => enc_string (if b then [bZ 1] else [])) (fun _ => True) Bool_.
Proof.
  intros w input st Hat. unfold Bool_. wp_use (uint_spec 8); [by left|done|].
  intros [v|e|p] w1 Hw; [|done..]. destruct Hw as (Hv & rest & Hin & Hat1).
  wp_norm. wp_step; b2p; subst; [wp_step; split; eauto|].
  wp_step; b2p; subst; [wp_step; split; eauto|]. by wp_step.
Qed.

Lemma decodeByteArray_spec n :
  dec_spec enc_string (fun b => length b = n /\ len b < 2 ^ 64) (decodeByteArray n).
Proof.
  intros w input st [Hat Hk0]. destruct (Hat) as [_ _ _ _ Hu Hs]. unfold decodeByteArray.
  wp_use Kind_wp; [by split|]. intros [[k sz]|e|p] w1 Hw; [|done..].
  destruct Hw as (_ & hdr & rest & Hh). pose proof (head_read_at _ _ _ _ _ _ _ Hh Hs Hu) as Hat1.
  wp_norm. destruct k; [| |by wp_step].
  - wp_step; [by intros ?|]. wp_step; [by intros ?|]. unfold rearm. do 3 dec_step.
    rewrite (head_read_rearm _ _ _ _ _ _ _ Hh). pose proof Hh as (_ & (_ & Hb & _) & _).
    apply Nat.eqb_neq in H. apply Nat.ltb_ge in H0.
    eapply byte_reads; try done; [|split; [simpl; lia|done]].
    simpl. destruct (Z.leb_spec (Zb (byteval (w_st w1))) 127); [done|lia].
  - wp_step; [by intros ?|]. wp_step; [by intros ?|]. b2p. assert (sz = Z.of_nat n) as -> by lia.
    wp_use readFull_wp; [done|lia|]. intros [b|e|p] w2 Hw2; [| |done].
    2:{ destruct Hw2 as [[-> _]|[-> _]]; by intros ?. }
    assert (Hgoal := string_reads enc_string (fun b => length b = n /\ len b < 2 ^ 64) w1 w2 _ _ _ _ _ b b Hh Hs Hu Hw2).
    assert (Hn : length b = n) by (destruct Hw2 as (? & _ & Hl & _); unfold len in Hl; lia).
    assert (HP : len b < 2 ^ 63 -> length b = n /\ len b < 2 ^ 64) by (intros; split; [done|lia]).
    wp_norm. destruct b as [|c [|c' b]]; [wp_step; apply Hgoal; [by intros ?|done..]|
      |wp_step; apply Hgoal; [by intros ?|done..]].
    wp_step; [by intros ?|]. wp_step. apply Hgoal; [|done..]. b2p. eauto.
Qed.

(** A buffer without a leading zero is the shortest form of its value. *)
Lemma min_bytes_buffer b :
  match b with c :: _ => Z.eqb (Zb c) 0 | [] => false end = false -> min_bytes (be_val b) = b.
Proof. destruct b; [done|]. intros. b2p. by apply min_bytes_be_val. Qed.

Lemma decodeBigInt_buffer_spec : dec_spec enc_string (fun b => len b < 2 ^ 63) decodeBigInt_buffer.
Proof.
  intros w input st [Hat Hk0]. destruct (Hat) as [_ _ _ _ Hu Hs]. unfold decodeBigInt_buffer.
  wp_norm. apply wp_wrap. eapply wp_mono; [apply Kind_wp; by split|].
  intros [[k sz]|e|p] w1 Hw; [| |done]. 2:{ intros He%wrapStreamError_EOL. auto. }
  destruct Hw as (_ & hdr & rest & Hh). pose proof (head_read_at _ _ _ _ _ _ _ Hh Hs Hu) as Hat1.
  wp_norm. destruct k; [| |by wp_step].
  - wp_step. unfold rearm. do 2 dec_step. rewrite (head_read_rearm _ _ _ _ _ _ _ Hh).
    pose proof Hh as (_ & (_ & Hb & _) & _). eapply byte_reads; try done.
    simpl. destruct (Z.leb_spec (Zb (byteval (w_st w1))) 127); [done|lia].
  - pose proof Hh as (_ & _ & _ & _ & Hsz & _).
    assert (Hstep : wp (wrap (readFull sz)) (fun o w2 =>
      match o with Ok b => read_post (w_st w1) rest (adv st (len hdr)) sz (Ok b) (w_st w2)
      | Fail e => e <> EOL | Panic _ => False end) w1).
    { apply wp_wrap. eapply wp_mono; [apply readFull_wp; [done|lia]|].
      intros [b|e|p] w2 Hw2; [done| |done]. destruct Hw2 as [[-> _]|[-> _]]; done. }
    assert (Hgoal := fun w2 b Hw2 Hone => string_reads enc_string (fun b => len b < 2 ^ 63) w1 w2 _ _ _ _ _ b b
      Hh Hs Hu Hw2 Hone eq_refl (fun H => H)).
    destruct (Z.eqb_spec sz 0) as [->|].
    { unfold rearm. do 2 dec_step. apply (Hgoal (mkWorld 0%nat _)); [|done]. exists rest.
      simpl. rewrite (head_read_rearm _ _ _ _ _ _ _ Hh), adv_0 by (by apply adv_u64).
      destruct Hh as (_ & _ & _ & _ & _ & Hw). rewrite Hw at 2 3. split_and!; try done.
      apply fits_0. by apply adv_u64. }
    destruct (Z.leb_spec sz 32).
    + wp_norm. eapply wp_mono; [exact Hstep|]. intros [b|e|p] w2 Hw2; [|by intros ?|done].
      wp_norm. destruct b as [|c [|c' b]]; [wp_step; by apply Hgoal| |wp_step; by apply Hgoal].
      wp_step; [by intros ?|]. wp_step. apply Hgoal; [done|]. b2p. eauto.
    + eapply wp_mono; [exact Hstep|]. intros [b|e|p] w2 Hw2; [|by intros ?|done].
      apply Hgoal; [done|]. destruct Hw2 as (_ & _ & Hl & _). intros H1. unfold len in Hl. lia.
Qed.

Lemma decodeBigInt_spec :
  dec_spec (fun i => enc_string (min_bytes i)) (fun i => 0 <= i /\ len (min_bytes i) < 2 ^ 64) decodeBigInt.
Proof.
  intros w input st Hat. unfold decodeBigInt. wp_use decodeBigInt_buffer_spec; [done|].
  intros [b|e|p] w1 Hw; [|done..]. wp_norm. wp_step; [by intros ?|]. wp_step.
  destruct Hw as (Hb & Hw). unfold reads. rewrite min_bytes_buffer by done.
  split; [|done]. pose proof (be_val_range b). lia.
Qed.

(** ** Lists *)

(** Entering a list: its size is pushed, and taken from the enclosing list. *)
Definition in_list_state (s' : Stream) (input : list byte) (st : list Z) (sz : Z) : Prop :=
  exists rest, input = puthead 0xC0 0xF7 sz ++ rest /\ 0 <= sz <= len rest /\
    at0 s' rest (sz :: adv st (len (puthead 0xC0 0xF7 sz) + sz)).

Lemma List_wp (w : World Stream) input st :
  at0 (w_st w) input st ->
  wp List__ (fun o w' =>
    match o with
    | Ok sz => in_list_state (w_st w') input st sz
    | Fail e => e = EOL -> head st = Some 0 /\ at0 (w_st w') input st
    | Panic _ => False
    end) w.
Proof.
  intros [Hat Hk0]. destruct (Hat) as [_ _ _ _ Hu Hs]. unfold List__.
  wp_use Kind_wp; [by split|]. intros [[k sz]|e|p] w1 Hw; [|done..].
  destruct Hw as (_ & hdr & rest & Hh). pose proof (head_read_at _ _ _ _ _ _ _ Hh Hs Hu) as Hat1.
  wp_norm. destruct k; [by wp_step..|]. wp_step.
  destruct Hh as (Hin & (-> & Hsz) & _ & _ & Hle & Hw). destruct (Hat1) as [_ _ _ Hst Hu1 Hs1].
  rewrite Hst. destruct st as [|l st]; simpl adv in *.
  - wp_step. do 2 dec_step. exists rest. split_and!; [done|lia|lia|]. rewrite Hw. dec_red.
    split; [|done]. by at_split.
  - wp_step. do 2 dec_step. exists rest. split_and!; [done|lia|lia|]. rewrite Hw. dec_red.
    split; [|done]. pose proof (adv_adv (l :: st) (len (puthead 192 247 sz)) sz) as Haa.
    cbn [adv] in Haa. rewrite Haa. at_split. apply Forall_cons in Hu as [_ Hu].
    repeat constructor; try done; unfold is_u64; try lia; apply u64_range.
Qed.

Lemma ListEnd_wp (w : World Stream) input l st :
  at0 (w_st w) input (l :: st) ->
  wp ListEnd (fun o w' =>
    match o with
    | Ok _ => l = 0 /\ at0 (w_st w') input st
    | Fail e => e <> EOL
    | Panic _ => False
    end) w.
Proof.
  intros [Hat Hk0]. destruct (Hat) as [Hr Hm Hl Hst Hu Hs]. apply Forall_cons in Hu as [[Hl0 _] Hu].
  unfold ListEnd. wp_step. rewrite Hst. wp_step; [done|]. wp_step. b2p. split; [lia|].
  dec_red. split; [|done]. at_split.
Qed.

(** The body of a list: decoding [p] bytes inside it uses its limit up. *)
Lemma list_body_end input st sz p rest s' :
  len input < 2 ^ 63 -> input = puthead 0xC0 0xF7 sz ++ p ++ rest -> 0 <= sz <= len (p ++ rest) ->
  u64 (sz - len p) = 0 -> at0 s' rest (adv st (len (puthead 0xC0 0xF7 sz) + sz)) ->
  input = enc_list p ++ rest /\ at0 s' rest (adv st (len (enc_list p))) /\ len p < 2 ^ 64.
Proof.
  intros Hs Hin Hsz Hz Hat. rewrite Hin, !len_app in *. pose proof (len_nonneg p).
  pose proof (len_nonneg rest). pose proof (len_nonneg (puthead 192 247 sz)).
  assert (sz = len p) as ->.
  { unfold u64 in Hz. apply Z.mod_divide in Hz as [q Hq]; [|lia]. lia. }
  unfold enc_list. rewrite len_app, <- app_assoc. split_and!; [done|done|lia].
Qed.

Lemma enc_head_nonempty v : exists b l, enc v = b :: l.
Proof.
  assert (Hp : forall st lt sz, exists b l, puthead st lt sz = b :: l).
  { intros. unfold puthead. case_match; eauto. }
  assert (Hes : forall b, exists c l, enc_string b = c :: l).
  { intros [|c [|d b]]; simpl; [eauto|case_match; eauto|].
    destruct (Hp 128 183 (len (c :: d :: b))) as (? & ? & ->). simpl. eauto. }
  destruct v; simpl; auto. unfold enc_list. destruct (Hp 192 247 (len (concat (map enc l)))) as (? & ? & ->).
  simpl. eauto.
Qed.

(** The elements of a slice, up to the end of the list. *)
Lemma decodeSliceElems_loop_wp P elemdec : dec_spec enc P elemdec ->
  forall fuel acc (w : World Stream) input st,
  at0 (w_st w) input st -> (length input < fuel)%nat ->
  wp (decodeSliceElems_loop fuel elemdec acc) (fun o w' =>
    match o with
    | Ok l => exists vs rest, l = reverse acc ++ vs /\ Forall P vs /\ input = concat (map enc vs) ++ rest /\
        head (adv st (len (concat (map enc vs)))) = Some 0 /\
        at0 (w_st w') rest (adv st (len (concat (map enc vs))))
    | Fail e => e <> EOL
    | Panic _ => False
    end) w.
Proof.
  intros Hd. induction fuel as [|fuel IH]; intros acc w input st Hat Hf; [lia|].
  cbn [decodeSliceElems_loop]. wp_step. wp_use Hd; [done|].
  intros [v|e|p] w1 Hw; [| |done].
  - destruct Hw as (Hv & rest & -> & Hat1). wp_norm.
    destruct (enc_head_nonempty v) as (b & l & Hb). rewrite length_app, Hb in Hf. simpl in Hf.
    eapply wp_mono; [apply (IH (v :: acc) w1 rest); [done|lia]|].
    intros [vl|e|p] w2 Hw2; [|done..]. destruct Hw2 as (vs & rest' & -> & Hvs & -> & Hz & Hat2).
    exists (v :: vs), rest'. rewrite reverse_cons. simpl. rewrite <- !app_assoc, len_app, <- adv_adv.
    split_and!; try done. by constructor.
  - wp_norm. wp_step; [|by wp_step]. subst e. destruct (Hw eq_refl) as [Hz Hat1]. wp_step.
    exists [], input. rewrite app_nil_r. simpl. change (len []) with 0.
    destruct (Hat) as [[_ _ _ _ Hu _] _]. rewrite adv_0 by done. split_and!; done.
Qed.

Lemma decodeListSlice_spec P elemdec : dec_spec enc P elemdec ->
  dec_spec (fun l => enc_list (concat (map enc l)))
    (fun l => Forall P l /\ len (concat (map enc l)) < 2 ^ 64) (decodeListSlice elemdec).
Proof.
  intros Hd w input st Hat. pose proof Hat as [[_ _ _ _ Hu Hs] _]. unfold decodeListSlice.
  wp_norm. apply wp_wrap. eapply wp_mono; [by apply List_wp|].
  intros [sz|e|p] w1 Hw; [| |done]. 2:{ intros He%wrapStreamError_EOL. auto. }
  destruct Hw as (rest & Hin & Hsz & Hat1). wp_norm. wp_step; b2p.
  - subst sz. wp_use ListEnd_wp; [done|]. intros [[]|e|p] w2 Hw2; [|by intros ?|done].
    destruct Hw2 as [_ Hat2]. wp_norm. wp_step. split; [split; [constructor|done]|].
    exists rest. simpl. rewrite Z.add_0_r in Hat2. done.
  - wp_norm. unfold decodeSliceElems. wp_step. rewrite (at_r _ _ _ (proj1 Hat1)).
    wp_use (decodeSliceElems_loop_wp P); [done|done|lia|].
    intros [l|e|p] w2 Hw2; [|by intros ?|done].
    destruct Hw2 as (vs & rest' & -> & Hvs & -> & Hz & Hat2). wp_norm.
    cbn [adv head] in Hz, Hat2. injection Hz as Hz. rewrite Hz in Hat2.
    wp_use ListEnd_wp; [done|]. intros [[]|e|p] w3 Hw3; [|by intros ?|done].
    destruct Hw3 as [_ Hat3]. wp_norm. wp_step.
    destruct (list_body_end _ _ _ _ _ _ Hs Hin Hsz Hz Hat3) as (-> & Hat4 & Hlen).
    rewrite reverse_nil, app_nil_l. split; [done|]. by exists rest'.
Qed.

(** A fixed sequence of values: the body of an array or of a struct. *)
Definition body_spec (P : list rval -> Prop) (body : D (list rval)) : Prop :=
  forall (w : World Stream) input st, at0 (w_st w) input st ->
  wp body (fun o w' =>
    match o with
    | Ok vs => P vs /\ exists rest, input = concat (map enc vs) ++ rest /\
        at0 (w_st w') rest (adv st (len (concat (map enc vs))))
    | Fail e => e <> EOL
    | Panic _ => False
    end) w.

Lemma body_nil : body_spec (fun vs => vs = []) (mret []).
Proof.
  intros w input st Hat. wp_step. split; [done|]. exists input. simpl. change (len []) with 0.
  destruct (Hat) as [[_ _ _ _ Hu _] _]. by rewrite adv_0.
Qed.

(** One more value in front; a missing one is the error [err]. *)
Lemma body_cons (P : rval -> Prop) (Ps Q : list rval -> Prop) dec body msg :
  (forall v vs, P v -> Ps vs -> Q (v :: vs)) ->
  dec_spec enc P dec -> body_spec Ps body ->
  body_spec Q (x ← try_ dec;
    match x with
    | inr err => fail (if decide (err = EOL) then DecodeErr msg else err)
    | inl v => l ← body; mret (v :: l)
    end).
Proof.
  intros HQ Hd Hb w input st Hat. wp_step. wp_use Hd; [done|].
  intros [v|e|p] w1 Hw; [| |done].
  - destruct Hw as (Hv & rest & -> & Hat1). wp_norm. wp_use Hb; [done|].
    intros [vs|e|p] w2 Hw2; [|done..]. destruct Hw2 as (Hvs & rest' & -> & Hat2). wp_norm. wp_step.
    split; [auto|]. exists rest'. simpl. by rewrite <- app_assoc, len_app, <- adv_adv.
  - wp_norm. wp_step. case_decide; done.
Qed.

Lemma framed_spec P body : body_spec P body ->
  dec_spec (fun l => enc_list (concat (map enc l)))
    (fun l => P l /\ len (concat (map enc l)) < 2 ^ 64)
    (wrap List__;; l ← body; wrap ListEnd;; mret l).
Proof.
  intros Hb w input st Hat. pose proof Hat as [[_ _ _ _ Hu Hs] _].
  wp_norm. apply wp_wrap. eapply wp_mono; [by apply List_wp|].
  intros [sz|e|p] w1 Hw; [| |done]. 2:{ intros He%wrapStreamError_EOL. auto. }
  destruct Hw as (rest & Hin & Hsz & Hat1). wp_norm. wp_use Hb; [done|].
  intros [l|e|p] w2 Hw2; [|by intros ?|done].
  destruct Hw2 as (Hvs & rest' & -> & Hat2). wp_norm. apply wp_wrap. cbn [adv] in Hat2.
  eapply wp_mono; [by eapply ListEnd_wp|].
  intros [[]|e|p] w3 Hw3; [|by intros ?%wrapStreamError_EOL|done].
  destruct Hw3 as [Hz Hat3]. wp_norm. wp_step.
  destruct (list_body_end _ _ _ _ _ _ Hs Hin Hsz Hz Hat3) as (-> & Hat4 & Hlen).
  split; [done|]. by exists rest'.
Qed.

Lemma decodeListArray_spec P n elemdec : dec_spec enc P elemdec ->
  dec_spec (fun l => enc_list (concat (map enc l)))
    (fun l => (length l = n /\ Forall P l) /\ len (concat (map enc l)) < 2 ^ 64) (decodeListArray n elemdec).
Proof.
  intros Hd. apply framed_spec. induction n as [|n IH]; cbn [decodeArrayElems].
  - intros w input st Hat. eapply wp_mono; [by apply body_nil|].
    intros [vs|e|p] w'; [|done..]. intros [-> ?]. split; [by split; [|constructor]|done].
  - eapply body_cons; [|exact Hd|exact IH]. intros v vs Hv [<- Hvs]. split; [done|]. by constructor.
Qed.

Lemma decodeStruct_spec (P : rtype -> rval -> Prop) ts :
  Forall (fun t => dec_spec enc (P t) (decoder t)) ts ->
  dec_spec (fun l => enc_list (concat (map enc l)))
    (fun l => fields_type P ts l /\ len (concat (map enc l)) < 2 ^ 64) (decodeStruct (map decoder ts)).
Proof.
  intros Hts. apply framed_spec. induction Hts as [|t ts Ht _ IH]; cbn [map decodeFields].
  - intros w input st Hat. eapply wp_mono; [by apply body_nil|].
    intros [vs|e|p] w'; [|done..]. by intros [-> ?].
  - eapply body_cons; [|exact Ht|exact IH]. intros v vs Hv Hvs. by split.
Qed.

(** Every derived decoder accepts only canonical encodings of values of its type. *)
Lemma decoder_spec t : wf_type t -> dec_spec enc (has_type t) (decoder t).
Proof.
  induction t as [bits| | | |n| |t IH|n t IH|ts IH] using rtype_ind'; intros Hwf; cbn [decoder].
  - eapply dec_spec_fmap; [| |by apply dec_spec_wrap, uint_spec]; done.
  - eapply dec_spec_fmap; [| |apply dec_spec_wrap, Bool_spec]; done.
  - eapply dec_spec_fmap; [| |apply dec_spec_wrap, Bytes_spec]; [done|simpl; lia].
  - eapply dec_spec_fmap; [| |apply dec_spec_wrap, Bytes_spec]; [done|simpl; lia].
  - eapply dec_spec_fmap; [| |apply decodeByteArray_spec]; done.
  - eapply dec_spec_fmap; [| |apply decodeBigInt_spec]; done.
  - eapply dec_spec_fmap; [| |apply decodeListSlice_spec, IH, Hwf]; done.
  - eapply dec_spec_fmap; [| |apply decodeListArray_spec, IH, Hwf]; [done|]. simpl. tauto.
  - eapply dec_spec_fmap; [| |apply (decodeStruct_spec has_type)]; [done|done|].
    simpl in Hwf. rewrite wf_fields in Hwf. rewrite Forall_forall in *. auto.
Qed.

Lemma at0_Reset b : len b < 2 ^ 63 -> at0 (Reset b) b [].
Proof. intros. split; [|done]. by at_split. Qed.

(** What [DecodeBytes] does on any input. *)
Lemma DecodeBytes_spec t b : wf_type t -> len b < 2 ^ 63 ->
  match DecodeBytes t b with
  | Ok v => has_type t v /\ b = enc v
  | Fail _ => True
  | Panic _ => False
  end.
Proof.
  intros Hwf Hb. unfold DecodeBytes.
  pose proof (decoder_spec t Hwf (mkWorld 0%nat (Reset b)) b [] (at0_Reset b Hb)) as Hw.
  unfold wp in Hw. destruct (decoder t _) as [[v|e|p] w']; simpl in *; try done.
  case_decide as Hr; [|done]. destruct Hw as (Hv & rest & -> & [Hat _]).
  rewrite (at_r _ _ _ Hat) in Hr. subst rest. by rewrite app_nil_r.
Qed.

(** C34: the RLP decoder is total on untrusted input: for every type and every
    byte string, [DecodeBytes] returns a value or an error; it never panics
    (index or slice out of range) and its element loop terminates. *)
Theorem DecodeBytes_total t b (Hwf : wf_type t) (Hb : len b < 2 ^ 63) :
  is_panic (DecodeBytes t b) = false.
Proof. pose proof (DecodeBytes_spec t b Hwf Hb) as Hd. by destruct (DecodeBytes t b). Qed.

Lemma DecodeBytes_total_witness :
  is_panic (DecodeBytes (TStruct [TSlice (TByteArray 32); TUint 8]) [Byte.xf8; Byte.xff; Byte.xc0]) = false.
Proof. apply DecodeBytes_total; [simpl; naive_solver|vm_compute; reflexivity]. Defined.

(** C32: RLP decoding is canonical: an accepted byte string is the encoding of
    the decoded value, which has the requested type.  Hence no two byte strings
    decode to the same value: a packet cannot be altered without changing what
    it says. *)
Theorem DecodeBytes_canonical t b v
  (Hwf : wf_type t) (Hb : len b < 2 ^ 63) (Hd : DecodeBytes t b = Ok v) :
  has_type t v /\ EncodeToBytes t v = Ok b.
Proof.
  pose proof (DecodeBytes_spec t b Hwf Hb) as Hs. rewrite Hd in Hs. destruct Hs as [Hv ->].
  split; [done|]. by apply EncodeToBytes_typed.
Qed.

Lemma DecodeBytes_canonical_witness :
  has_type (TStruct [TUint 8; TBool]) (VList [VUint 7; VBool true]) /\
  EncodeToBytes (TStruct [TUint 8; TBool]) (VList [VUint 7; VBool true]) = Ok [Byte.xc2; Byte.x07; Byte.x01].
Proof.
  apply DecodeBytes_canonical; [simpl; naive_solver|vm_compute; reflexivity|vm_compute; reflexivity].
Defined.

(** * Acceptance: the decoder reads back every encoding *)

Lemma min_bytes_head i c b : 0 < i -> min_bytes i = c :: b -> Zb c <> 0.
Proof.
  intros Hi Hm Hc. pose proof (min_bytes_val i ltac:(lia)) as Hv. rewrite Hm, be_val_cons, Hc in Hv.
  pose proof (be_val_range b) as Hb. rewrite min_bytes_pos in Hm by lia.
  apply (f_equal length) in Hm. rewrite length_be_bytes in Hm. simpl in Hm.
  pose proof (Z.log2_spec i Hi) as [Hl _]. pose proof (Z.log2_nonneg i).
  pose proof (Z.div_pos (Z.log2 i) 8 ltac:(lia) ltac:(lia)).
  assert (Hlen : len b = Z.log2 i / 8) by (unfold len; lia).
  rewrite Hlen in Hb. change 256 with (2 ^ 8) in Hb. rewrite <- Z.pow_mul_r in Hb by lia.
  pose proof (Z.mul_div_le (Z.log2 i) 8 ltac:(lia)).
  pose proof (Z.pow_le_mono_r 2 (8 * (Z.log2 i / 8)) (Z.log2 i) ltac:(lia) ltac:(lia)). lia.
Qed.

Lemma app_inj_len {A} (a b x y : list A) : len a = len b -> a ++ x = b ++ y -> a = b /\ x = y.
Proof. intros Hl Heq. apply app_inj_1; [unfold len in Hl; lia|done]. Qed.

Lemma fits_mono st a b : 0 <= b <= a -> fits st a -> fits st b.
Proof. destruct st; simpl; [done|]. lia. Qed.

(** [readByte] on a non-empty input inside a list with room. *)
Lemma readByte_fwd (w : World Stream) b rest st :
  at_ (w_st w) (b :: rest) st -> fits st 1 ->
  wp readByte (fun o w' => o = Ok b /\
    w_st w' = mkStream rest (len rest) (size (w_st w)) (kinderr (w_st w)) (adv st 1) None (byteval (w_st w)) true) w.
Proof.
  intros Hat Hf. eapply wp_mono; [by apply readByte_wp|]. intros [b'|e|p] w1 Hw; simpl in Hw; [| |done].
  - destruct Hw as (rest' & [= <- <-] & _ & _ & Hw). done.
  - destruct Hw as [[_ Hn]|[_ Hn]]; [done|]. unfold len in Hn. simpl in Hn. lia.
Qed.

Lemma readFull_fwd n (w : World Stream) b rest st :
  at_ (w_st w) (b ++ rest) st -> len b = n -> fits st n ->
  wp (readFull n) (fun o w' => o = Ok b /\ read_post (w_st w) (b ++ rest) st n (Ok b) (w_st w')) w.
Proof.
  intros Hat Hl Hf. pose proof (len_nonneg b). eapply wp_mono; [apply readFull_wp; [done|lia]|].
  intros [b'|e|p] w1 Hw; [| |done].
  - pose proof Hw as (rest' & Heq & Hl' & _). apply app_inj_len in Heq as [-> ->]; [done|lia].
  - destruct Hw as [[_ Hn]|[_ Hn]]; [done|]. rewrite len_app in Hn. pose proof (len_nonneg rest). lia.
Qed.

Lemma readUint_fwd v (w : World Stream) rest st :
  at_ (w_st w) (min_bytes v ++ rest) st -> 0 <= v < 2 ^ 64 -> fits st (len (min_bytes v)) ->
  wp (readUint (len (min_bytes v))) (fun o w' => o = Ok v /\
    w_st w' = mkStream rest (len rest) (size (w_st w)) (kinderr (w_st w)) (adv st (len (min_bytes v))) None
                (byteval (w_st w)) true) w.
Proof.
  intros Hat Hv Hf. pose proof (len_nonneg (min_bytes v)) as Hn0.
  assert (Hn : len (min_bytes v) <= 8).
  { destruct (decide (v = 0)) as [->|]; [vm_compute; discriminate|]. pose proof (min_bytes_len v). lia. }
  eapply wp_mono; [apply readUint_wp; [done|lia]|].
  intros [x|e|p] w1 Hw; [| |done].
  - destruct Hw as (b & rest' & Heq & Hl & Hx & _ & _ & Hw & Hw0).
    apply app_inj_len in Heq as [Hb Hr]; [|lia]. subst rest' b.
    rewrite min_bytes_val in Hx by lia. subst x. split; [done|].
    destruct (decide (len (min_bytes v) = 0)) as [Hz|]; [|apply Hw; lia].
    rewrite Hw0 by done. destruct (Hat) as [_ _ _ _ Hu _].
    assert (Hnil : min_bytes v = []) by (apply nil_length_inv; unfold len in Hz; lia).
    rewrite Hnil. change (len []) with 0. by rewrite adv_0.
  - exfalso. destruct Hw as [[_ ?]|[[_ Hlt]|(_ & Hgt & b & rest' & Heq & Hl)]]; [done| |].
    + rewrite len_app in Hlt. pose proof (len_nonneg rest). lia.
    + destruct (decide (v = 0)) as [->|]; [vm_compute in Hgt; discriminate|].
      destruct (min_bytes v) as [|c bs] eqn:Hm; [unfold len in Hgt; simpl in Hgt; lia|].
      injection Heq as -> _. by eapply (min_bytes_head v); [lia|exact Hm|].
Qed.

Lemma readLong_fwd k sz (w : World Stream) rest st :
  at_ (w_st w) (min_bytes sz ++ rest) st -> 56 <= sz < 2 ^ 64 -> fits st (len (min_bytes sz)) ->
  wp (readLong k (len (min_bytes sz))) (fun o w' => o = Ok (k, sz, None) /\
    w_st w' = mkStream rest (len rest) (size (w_st w)) (kinderr (w_st w)) (adv st (len (min_bytes sz))) None
                (byteval (w_st w)) true) w.
Proof.
  intros Hat Hsz Hf. unfold readLong. wp_step. wp_use readUint_fwd; [done|lia|done|].
  intros o w1 [-> Hw]. wp_norm. wp_step. destruct (Z.ltb_spec sz 56); [lia|done].
Qed.

(** The two shapes of a header. *)
Lemma puthead_short st lt sz : 0 <= sz < 56 -> puthead st lt sz = [bZ (st + sz)].
Proof. intros. unfold puthead. destruct (Z.ltb_spec sz 56); [done|lia]. Qed.

Ltac ltb_dec :=
  repeat match goal with
  | |- context [Z.ltb ?a ?b] => destruct (Z.ltb_spec a b); [try (exfalso; lia)|try (exfalso; lia)]
  end.

Lemma long_tag lt sz b bs : 56 <= sz < 2 ^ 64 -> 0 <= lt <= 247 ->
  b :: bs = bZ (lt + len (min_bytes sz)) :: min_bytes sz -> lt + 1 <= Zb b <= lt + 8.
Proof.
  intros Hsz Hlt [= -> _]. pose proof (min_bytes_len sz ltac:(lia)). rewrite Zb_bZ_small; lia.
Qed.

(** The long form, after its tag byte [b]. *)
Lemma readLong_after k lt sz b bs rest (w : World Stream) s st :
  56 <= sz < 2 ^ 64 -> b :: bs = bZ (lt + len (min_bytes sz)) :: min_bytes sz -> 0 <= lt <= 247 ->
  Forall is_u64 st -> fits st (len (b :: bs)) -> at_ (w_st w) (bs ++ rest) (adv st 1) ->
  size (w_st w) = size s -> kinderr (w_st w) = kinderr s ->
  wp (readLong k (Zb b - lt)) (fun o w' => o = Ok (k, sz, None) /\ byteval (w_st w') = byteval (w_st w) /\
    w_st w' = mkStream rest (len rest) (size s) (kinderr s) (adv st (len (b :: bs))) None
      (byteval (w_st w')) true) w.
Proof.
  intros Hsz [= Hb Hbs] Hlt Hu Hf Hat Hs1 Hs2. pose proof (min_bytes_len sz ltac:(lia)) as Hml.
  assert (Hzb : Zb b = lt + len (min_bytes sz)) by (by rewrite Hb, Zb_bZ_small by lia).
  rewrite Hzb. replace (lt + len (min_bytes sz) - lt) with (len (min_bytes sz)) by lia.
  assert (Hlen : len (b :: bs) = 1 + len (min_bytes sz)) by (rewrite <- Hbs; unfold len; simpl; lia).
  rewrite Hbs in Hat. eapply wp_mono; [apply readLong_fwd; [done|lia|apply fits_adv; auto; try lia; by rewrite <- Hlen]|].
  intros o w2 [-> ->]. cbn [byteval]. split_and!; try done. by rewrite adv_adv, Hlen, Hs1, Hs2.
Qed.

Lemma readKind_fwd k sz bv hdr rest (w : World Stream) st :
  at_ (w_st w) (hdr ++ rest) st -> valid_head k sz bv hdr -> fits st (len hdr) ->
  wp readKind (fun o w' => o = Ok (k, sz, None) /\
    byteval (w_st w') = (if decide (k = Byte_) then bv else Byte.x00) /\
    w_st w' = mkStream rest (len rest) (size (w_st w)) (kinderr (w_st w)) (adv st (len hdr)) None
                (byteval (w_st w')) true) w.
Proof.
  intros Hat Hv Hf. destruct (Hat) as [_ _ _ _ Hu Hs].
  assert (Hcase : exists b bs, hdr = b :: bs) by (destruct k; simpl in Hv; [naive_solver|
    destruct Hv as [-> _]; unfold puthead; case_match; eauto..]).
  destruct Hcase as (b & bs & ->). unfold readKind. wp_step.
  assert (Hlen : len (b :: bs) = 1 + len bs) by (unfold len; simpl; lia).
  pose proof (len_nonneg bs). pose proof (len_nonneg rest).
  wp_use (readByte_fwd _ b (bs ++ rest)); [done|eapply fits_mono; [|done]; lia|].
  intros o w1 [-> Hw]. wp_norm. wp_step. rewrite Hw. dec_red.
  fold (readLong String_ (Zb b - 183)). fold (readLong List_ (Zb b - 247)).
  assert (Hat1 : forall bv, at_ (mkStream (bs ++ rest) (len (bs ++ rest)) (size (w_st w)) (kinderr (w_st w))
            (adv st 1) None bv true) (bs ++ rest) (adv st 1)).
  { intros. at_split. rewrite len_app, Hlen in Hs. rewrite len_app. lia. }
  destruct k; simpl in Hv.
  - destruct Hv as ([= -> ->] & Hb & ->). destruct (Z.ltb_spec (Zb bv) 128); [|lia].
    do 2 dec_step. split_and!; done.
  - destruct Hv as [Hh Hsz]. destruct (Z.lt_ge_cases sz 56).
    + rewrite puthead_short in Hh by lia. injection Hh as -> ->. rewrite Zb_bZ_small by lia.
      ltb_dec. wp_step. replace (128 + sz - 128) with sz by lia. split_and!; done.
    + rewrite (puthead_long _ _ sz (min_bytes sz)) in Hh by (done || lia).
      pose proof (long_tag 183 sz b bs ltac:(lia) ltac:(lia) Hh).
      destruct (Z.ltb_spec (Zb b) 128); [lia|]. destruct (Z.ltb_spec (Zb b) 184); [lia|].
      destruct (Z.ltb_spec (Zb b) 192); [|lia]. apply readLong_after; auto; try lia; apply Hat1.
  - destruct Hv as [Hh Hsz]. destruct (Z.lt_ge_cases sz 56).
    + rewrite puthead_short in Hh by lia. injection Hh as -> ->. rewrite Zb_bZ_small by lia.
      ltb_dec. wp_step. replace (192 + sz - 192) with sz by lia. split_and!; done.
    + rewrite (puthead_long _ _ sz (min_bytes sz)) in Hh by (done || lia).
      pose proof (long_tag 247 sz b bs ltac:(lia) ltac:(lia) Hh).
      destruct (Z.ltb_spec (Zb b) 128); [lia|]. destruct (Z.ltb_spec (Zb b) 184); [lia|].
      destruct (Z.ltb_spec (Zb b) 192); [lia|]. destruct (Z.ltb_spec (Zb b) 248); [lia|]. apply readLong_after; auto; try lia; apply Hat1.
Qed.

Lemma Kind_fwd k sz bv hdr rest (w : World Stream) st :
  at0 (w_st w) (hdr ++ rest) st -> valid_head k sz bv hdr -> 0 <= sz <= len rest -> fits st (len hdr + sz) ->
  wp Kind_ (fun o w' => o = Ok (k, sz) /\ head_read (w_st w') (hdr ++ rest) st k sz hdr rest /\
    (k = Byte_ -> byteval (w_st w') = bv)) w.
Proof.
  intros [Hat Hk] Hv Hsz Hf. destruct (Hat) as [_ _ _ _ Hu Hs].
  assert (Hpos : 0 < len hdr) by (destruct k; simpl in Hv; destruct Hv as [-> _]; unfold puthead, len;
    repeat case_match; simpl; lia).
  assert (Hfh : fits st (len hdr)) by (eapply fits_mono; [|exact Hf]; lia).
  assert (Hfs : fits st sz) by (eapply fits_mono; [|exact Hf]; lia).
  unfold Kind_, listLimit. wp_step. rewrite Hk, (at_stack _ _ _ Hat).
  wp_step. { exfalso. destruct st as [|l st]; [done|]. simpl in *. b2p. lia. }
  wp_use readKind_fwd; [done..|]. intros o w1 (-> & Hbv & Hw). wp_norm.
  do 3 wp_step. rewrite Hw. dec_red.
  assert (match head st with Some l => Z.ltb l sz | None => false end = false) as ->.
  { destruct st as [|l st]; [done|]. simpl in *. apply Z.ltb_ge. lia. }
  destruct (Z.ltb_spec (len rest) sz); [lia|]. cbn [andb]. dec_step. split; [done|]. split; [split_and!; try done; try lia|].
  - destruct k; simpl in *; [|done..]. by rewrite Hbv.
  - by intros ->.
Qed.

(** [dec] returns [a] on its encoding. *)
Definition accepts {A} (f : A -> list byte) (dec : D A) (a : A) : Prop :=
  forall (w : World Stream) rest st, at0 (w_st w) (f a ++ rest) st -> fits st (len (f a)) ->
  wp dec (fun o _ => o = Ok a) w.

Lemma accepts_at {A} (f : A -> list byte) P (dec : D A) a (w : World Stream) rest st :
  dec_spec f P dec -> accepts f dec a -> at0 (w_st w) (f a ++ rest) st -> fits st (len (f a)) ->
  wp dec (fun o w' => o = Ok a /\ at0 (w_st w') rest (adv st (len (f a)))) w.
Proof.
  intros Hd Ha Hat Hf. eapply wp_mono; [apply wp_conj; [by apply Hd|by eapply Ha]|].
  intros o w' [Hr ->]. split; [done|]. destruct Hr as (_ & rest' & Heq & Hat').
  by apply app_inv_head in Heq as ->.
Qed.

Lemma accepts_wrap {A} (f : A -> list byte) (dec : D A) a : accepts f dec a -> accepts f (wrap dec) a.
Proof.
  intros Ha w rest st Hat Hf. apply wp_wrap. eapply wp_mono; [by eapply Ha|]. by intros o w' ->.
Qed.

Lemma accepts_fmap {A B} (g : A -> B) f f' (dec : D A) a :
  f' (g a) = f a -> accepts f dec a -> accepts f' (g <$> dec) (g a).
Proof.
  intros Hf Ha w rest st Hat Hfi. rewrite Hf in *. apply wp_fmap. eapply wp_mono; [by eapply Ha|].
  intros o w' ->. by wp_step.
Qed.

Lemma enc_string_cases b :
  (exists c, b = [c] /\ Zb c < 128 /\ enc_string b = [c]) \/
  (enc_string b = puthead 0x80 0xB7 (len b) ++ b /\ (length b = 1%nat -> exists c, b = [c] /\ 128 <= Zb c)).
Proof.
  destruct (decide (length b = 1%nat)) as [H1|H1].
  - destruct b as [|c [|? ?]]; simpl in H1; try lia. simpl. destruct (Z.leb_spec (Zb c) 127).
    + left. exists c. split_and!; [done|lia|done].
    + right. split; [done|]. intros _. exists c. split; [done|lia].
  - right. split; [by apply enc_string_long|]. intros; lia.
Qed.

(** [Kind] in front of the encoding of a string. *)
Lemma Kind_string b (w : World Stream) rest st :
  at0 (w_st w) (enc_string b ++ rest) st -> fits st (len (enc_string b)) ->
  wp Kind_ (fun o w' =>
    (exists c, b = [c] /\ Zb c < 128 /\ o = Ok (Byte_, 0) /\ byteval (w_st w') = c) \/
    ((length b = 1%nat -> exists c, b = [c] /\ 128 <= Zb c) /\ o = Ok (String_, len b) /\
      let st' := adv st (len (puthead 0x80 0xB7 (len b))) in
      at_ (w_st w') (b ++ rest) st' /\ fits st' (len b))) w.
Proof.
  intros Hat Hf. pose proof Hat as [[_ _ _ _ Hu Hs] _]. destruct (enc_string_cases b) as [(c & -> & Hc & He)|[He Hone]].
  - rewrite He in *. eapply wp_mono; [apply (Kind_fwd Byte_ 0 c [c] rest); [done|done| |done]|].
    { pose proof (len_nonneg rest). lia. }
    intros o w' (-> & _ & Hb). left. exists c. auto.
  - rewrite He in *. rewrite <- app_assoc in *. rewrite len_app in Hf. rewrite !len_app in Hs.
    pose proof (len_nonneg b). pose proof (len_nonneg rest). pose proof (len_nonneg (puthead 128 183 (len b))).
    eapply wp_mono; [apply (Kind_fwd String_ (len b) Byte.x00 (puthead 0x80 0xB7 (len b)) (b ++ rest)); [done|split; [done|lia]|rewrite len_app; lia|done]|].
    intros o w' (-> & Hh & _). right. split; [done|]. split; [done|]. cbn zeta.
    split; [eapply head_read_at; [done|rewrite !len_app; lia|done]|]. apply fits_adv; auto; lia.
Qed.

Lemma Bytes_accepts b : accepts enc_string Bytes b.
Proof.
  intros w rest st Hat Hf. unfold Bytes. wp_use Kind_string; [done..|].
  intros o w1 [(c & -> & Hc & -> & <-)|(Hone & -> & Hat1 & Hf1)]; wp_norm.
  - unfold rearm. by do 3 dec_step.
  - wp_use readFull_fwd; [done..|]. intros o w2 [-> _]. wp_norm.
    destruct b as [|c [|c' b]]; [by wp_step| |by wp_step].
    destruct (Hone eq_refl) as (c0 & [= <-] & Hc). wp_step; b2p; [lia|]. by wp_step.
Qed.

Lemma min_bytes_single i c : 0 <= i -> min_bytes i = [c] -> i = Zb c /\ Zb c <> 0.
Proof.
  intros Hi Hm. pose proof (min_bytes_val i Hi) as Hv. rewrite Hm in Hv. unfold be_val in Hv. simpl in Hv.
  assert (i <> 0) by (intros ->; done). split; [lia|]. eapply min_bytes_head; [|exact Hm]. lia.
Qed.

Lemma min_bytes_bits i bits : 0 <= i < 2 ^ (8 * bits) -> 0 <= bits -> len (min_bytes i) <= bits.
Proof.
  intros Hi Hb. destruct (decide (i = 0)) as [->|]; [done|].
  rewrite min_bytes_pos by lia. unfold len. rewrite length_be_bytes. pose proof (Z.log2_nonneg i).
  assert (Z.log2 i < 8 * bits) by (apply Z.log2_lt_pow2; lia).
  pose proof (Z.div_lt_upper_bound (Z.log2 i) 8 bits ltac:(lia) ltac:(lia)).
  pose proof (Z.div_pos (Z.log2 i) 8 ltac:(lia) ltac:(lia)). lia.
Qed.

Lemma uint_accepts bits i : wf_type (TUint bits) -> 0 <= i < 2 ^ bits ->
  accepts (fun i => enc_string (min_bytes i)) (uint_ bits) i.
Proof.
  intros Hwf Hi w rest st Hat Hf. pose proof (uint_range bits i Hwf Hi).
  assert (Hbits : 0 <= bits / 8 <= 8 /\ bits = 8 * (bits / 8)).
  { destruct Hwf as [-> | [-> | [-> | ->]]]; (split; [split; vm_compute; discriminate|reflexivity]). }
  unfold uint_. wp_use Kind_string; [done..|].
  intros o w1 [(c & Hm & Hc & -> & <-)|(Hone & -> & Hat1 & Hf1)]; wp_norm.
  - destruct (min_bytes_single i _ ltac:(lia) Hm). wp_step. wp_step; b2p; [done|].
    unfold rearm. do 2 dec_step. f_equal. lia.
  - pose proof (min_bytes_bits i (bits / 8) ltac:(destruct Hbits as [_ <-]; lia) ltac:(lia)).
    pose proof (len_nonneg (min_bytes i)).
    wp_step; b2p; [lia|]. rewrite u8_small by (unfold is_u8; lia). wp_step.
    wp_use readUint_fwd; [done|lia|done|]. intros o w2 [-> _]. wp_norm. wp_step; [|by wp_step].
    b2p. exfalso. assert (Hm : min_bytes i = [bZ i]).
    { apply min_bytes_small. assert (i <> 0); [|lia]. intros ->. vm_compute in H2. discriminate. }
    rewrite Hm in Hone. destruct (Hone eq_refl) as (c & [= <-] & Hc). rewrite Zb_bZ in Hc.
    pose proof (Z.mod_le i 256). lia.
Qed.

Lemma Bool_accepts b : accepts (fun b : bool => enc_string (if b then [bZ 1] else [])) Bool_ b.
Proof.
  intros w rest st Hat Hf. unfold Bool_.
  assert (Hu : wp (uint_ 8) (fun o _ => o = Ok (if b then 1 else 0)) w).
  { apply (uint_accepts 8) with rest st; [by left|destruct b; lia|destruct b; exact Hat|by destruct b]. }
  wp_norm. eapply wp_mono; [exact Hu|]. intros o w1 ->. wp_norm. destruct b; simpl; by wp_step.
Qed.

Lemma decodeByteArray_accepts n b : length b = n -> accepts enc_string (decodeByteArray n) b.
Proof.
  intros Hn w rest st Hat Hf. unfold decodeByteArray. wp_use Kind_string; [done..|].
  intros o w1 [(c & -> & Hc & -> & <-)|(Hone & -> & Hat1 & Hf1)]; wp_norm.
  - subst n. do 2 (wp_step; [done|]). wp_step. unfold rearm. by do 2 dec_step.
  - unfold len in *. rewrite Hn in *. do 2 (wp_step; [b2p; lia|]).
    wp_use readFull_fwd; [done|unfold len; lia|done|]. intros o w2 [-> _]. wp_norm.
    destruct b as [|c [|c' b]]; [by wp_step| |by wp_step].
    destruct (Hone) as (c0 & [= <-] & Hc); [by rewrite <- Hn|]. wp_step; b2p; [lia|]. by wp_step.
Qed.

Lemma decodeBigInt_buffer_accepts b : accepts enc_string decodeBigInt_buffer b.
Proof.
  intros w rest st Hat Hf. unfold decodeBigInt_buffer. wp_norm. apply wp_wrap.
  eapply wp_mono; [by eapply Kind_string|].
  intros o w1 [(c & -> & Hc & -> & <-)|(Hone & -> & Hat1 & Hf1)]; wp_norm.
  - wp_step. unfold rearm. by do 2 dec_step.
  - destruct (Z.eqb_spec (len b) 0) as [Hz|Hz].
    { unfold rearm. do 2 dec_step. f_equal. symmetry. apply nil_length_inv. unfold len in Hz. lia. }
    destruct (Z.leb_spec (len b) 32); [|apply wp_wrap; eapply wp_mono; [by apply readFull_fwd|]; by intros o w2 [-> _]].
    wp_norm. apply wp_wrap. eapply wp_mono; [by apply readFull_fwd|]. intros o w2 [-> _]. wp_norm.
    destruct b as [|c [|c' b]]; [by wp_step| |by wp_step].
    destruct (Hone eq_refl) as (c0 & [= <-] & Hc). wp_step; b2p; [lia|]. by wp_step.
Qed.

Lemma decodeBigInt_accepts i : 0 <= i -> accepts (fun i => enc_string (min_bytes i)) decodeBigInt i.
Proof.
  intros Hi w rest st Hat Hf. unfold decodeBigInt. wp_norm. eapply wp_mono; [by eapply decodeBigInt_buffer_accepts|].
  intros o w1 ->. wp_norm. wp_step.
  - exfalso. destruct (min_bytes i) as [|c b] eqn:Hm; [done|]. b2p.
    eapply (min_bytes_head i c b); [|done|done]. assert (i <> 0); [|lia]. by intros ->.
  - wp_step. f_equal. by apply min_bytes_val.
Qed.

(** At the end of a list every decoder reports EOL. *)
Definition ends {A} (dec : D A) : Prop :=
  forall (w : World Stream) input st, at0 (w_st w) input st -> head st = Some 0 ->
  wp dec (fun o _ => o = Fail EOL) w.

Lemma Kind_ends : ends Kind_.
Proof.
  intros w input st [Hat Hk] Hz. unfold Kind_, listLimit. wp_step.
  rewrite Hk, (at_stack _ _ _ Hat), Hz. by wp_step.
Qed.

Lemma ends_bind {A B} (m : D A) (k : A -> D B) : ends m -> ends (m ≫= k).
Proof.
  intros Hm w input st Hat Hz. apply wp_bind. eapply wp_mono; [by eapply Hm|]. by intros o w' ->.
Qed.

Lemma ends_wrap {A} (m : D A) : ends m -> ends (wrap m).
Proof.
  intros Hm w input st Hat Hz. apply wp_wrap. eapply wp_mono; [by eapply Hm|]. by intros o w' ->.
Qed.

Lemma decoder_ends t : ends (decoder t).
Proof.
  pose proof Kind_ends as HK.
  destruct t; cbn [decoder]; apply ends_bind; unfold decodeBigInt, decodeBigInt_buffer, decodeListSlice,
    decodeListArray, decodeStruct, Bool_, uint_, Bytes, decodeByteArray, List__;
    repeat (exact HK || apply ends_wrap || apply ends_bind).
Qed.

Lemma List_accepts p (w : World Stream) rest st :
  at0 (w_st w) (enc_list p ++ rest) st -> fits st (len (enc_list p)) ->
  wp List__ (fun o w' => o = Ok (len p) /\ at0 (w_st w') (p ++ rest) (len p :: adv st (len (enc_list p)))) w.
Proof.
  intros Hat Hf. pose proof Hat as [[_ _ _ _ Hu Hs] _]. unfold enc_list in *.
  rewrite <- app_assoc in *. rewrite len_app in *. rewrite len_app in Hs.
  pose proof (len_nonneg p). pose proof (len_nonneg rest). pose proof (len_nonneg (puthead 192 247 (len p))).
  assert (Ho : wp List__ (fun o _ => o = Ok (len p)) w).
  { unfold List__. wp_norm.
    eapply wp_mono; [apply (Kind_fwd List_ (len p) Byte.x00 (puthead 0xC0 0xF7 (len p)) (p ++ rest));
      [done|split; [done|lia]|rewrite len_app; lia|done]|].
    intros o w1 (-> & _). wp_norm. wp_step. destruct (stack (w_st w1)); do 3 wp_step; done. }
  eapply wp_mono; [apply wp_conj; [exact Ho|by apply List_wp]|].
  intros o w1 [-> (rest' & Hin & _ & Hat1)]. split; [done|]. by apply app_inv_head in Hin as ->.
Qed.

Lemma ListEnd_accepts (w : World Stream) input st :
  at0 (w_st w) input (0 :: st) -> wp ListEnd (fun o w' => o = Ok () /\ at0 (w_st w') input st) w.
Proof.
  intros Hat. assert (Ho : wp ListEnd (fun o _ => o = Ok ()) w).
  { unfold ListEnd. wp_step. rewrite (at_stack _ _ _ (proj1 Hat)). wp_step; [done|]. by wp_step. }
  eapply wp_mono; [apply wp_conj; [exact Ho|by eapply ListEnd_wp]|]. by intros o w' [-> [_ ?]].
Qed.

Lemma adv_full (p : list byte) st : len p < 2 ^ 63 -> adv (len p :: st) (len p) = 0 :: st.
Proof. intros. simpl. by rewrite Z.sub_diag, u64_small by (unfold is_u64; lia). Qed.

Lemma slice_loop_accepts P elemdec : dec_spec enc P elemdec -> ends elemdec ->
  forall vs fuel acc (w : World Stream) rest st,
  Forall (accepts enc elemdec) vs ->
  at0 (w_st w) (concat (map enc vs) ++ rest) (len (concat (map enc vs)) :: st) ->
  (length (concat (map enc vs) ++ rest) < fuel)%nat ->
  wp (decodeSliceElems_loop fuel elemdec acc) (fun o w' => o = Ok (reverse acc ++ vs)) w.
Proof.
  intros Hd He. induction vs as [|v vs IH]; intros fuel acc w rest st Hvs Hat Hf;
    (destruct fuel as [|fuel]; [lia|]); cbn [decodeSliceElems_loop]; wp_step.
  - eapply wp_mono; [by eapply He|]. intros o w1 ->. wp_norm. rewrite decide_True by done. wp_step.
    by rewrite app_nil_r.
  - apply Forall_cons in Hvs as [Hv Hvs]. simpl in Hat, Hf. rewrite <- app_assoc in *.
    pose proof Hat as [[_ _ _ _ _ Hs] _]. rewrite !len_app in *. pose proof (len_nonneg (concat (map enc vs))).
    pose proof (len_nonneg (enc v)). pose proof (len_nonneg rest).
    eapply wp_mono; [eapply accepts_at; [done..|simpl; lia]|]. intros o w1 [-> Hat1]. wp_norm.
    eapply wp_mono; [eapply (IH fuel (v :: acc) w1 rest st); [done| |]|].
    + simpl in Hat1. rewrite u64_small in Hat1 by (unfold is_u64; lia).
      replace (len (enc v) + len (concat (map enc vs)) - len (enc v)) with (len (concat (map enc vs))) in Hat1 by lia.
      done.
    + destruct (enc_head_nonempty v) as (b & l & Hb). rewrite length_app, Hb in Hf. simpl in Hf. lia.
    + intros o w2 ->. by rewrite reverse_cons, <- app_assoc.
Qed.

Lemma decodeListSlice_accepts P elemdec vs : dec_spec enc P elemdec -> ends elemdec ->
  Forall (accepts enc elemdec) vs ->
  accepts (fun l => enc_list (concat (map enc l))) (decodeListSlice elemdec) vs.
Proof.
  intros Hd He Hvs w rest st Hat Hf. unfold decodeListSlice. wp_norm. apply wp_wrap.
  eapply wp_mono; [by apply List_accepts|]. intros o w1 [-> Hat1]. wp_norm.
  wp_step; b2p.
  - assert (Hnil : concat (map enc vs) = []) by (apply nil_length_inv; unfold len in *; lia).
    rewrite Heqb in Hat1. wp_norm. eapply wp_mono; [by eapply ListEnd_accepts|]. intros o w2 [-> _]. wp_norm.
    wp_step. f_equal. destruct vs as [|v vs]; [done|]. simpl in Hnil.
    destruct (enc_head_nonempty v) as (b & l & Hb). by rewrite Hb in Hnil.
  - wp_norm. unfold decodeSliceElems. wp_step. rewrite (at_r _ _ _ (proj1 Hat1)).
    assert (Hloop := slice_loop_accepts P elemdec Hd He vs _ [] w1 rest _ Hvs Hat1
      (Nat.lt_succ_diag_r _)).
    pose proof (decodeSliceElems_loop_wp P elemdec Hd _ [] w1 _ _ Hat1 (Nat.lt_succ_diag_r _)) as Hw.
    eapply wp_mono; [apply wp_conj; [exact Hloop|exact Hw]|].
    intros o w2 [-> (vs' & rest' & Heq & _ & Hin & Hz & Hat2)]. wp_norm.
    rewrite reverse_nil, !app_nil_l in Heq. subst vs'. cbn [adv head] in Hz, Hat2.
    injection Hz as Hz. rewrite Hz in Hat2. eapply wp_mono; [by eapply ListEnd_accepts|].
    intros o w3 [-> _]. wp_norm. by wp_step.
Qed.

(** A body that reads exactly [vs]. *)
Definition body_accepts (body : D (list rval)) (vs : list rval) : Prop :=
  forall (w : World Stream) rest st,
  at0 (w_st w) (concat (map enc vs) ++ rest) st -> fits st (len (concat (map enc vs))) ->
  wp body (fun o w' => o = Ok vs) w.

Lemma body_accepts_cons P dec body v vs msg : dec_spec enc P dec ->
  accepts enc dec v -> body_accepts body vs ->
  body_accepts (x ← try_ dec;
    match x with
    | inr err => fail (if decide (err = EOL) then DecodeErr msg else err)
    | inl v => l ← body; mret (v :: l)
    end) (v :: vs).
Proof.
  intros Hd Hv Hvs w rest st Hat Hf. simpl in *. rewrite <- app_assoc in Hat. rewrite len_app in Hf.
  pose proof Hat as [[_ _ _ _ Hu Hs] _].
  pose proof (len_nonneg (concat (map enc vs))). pose proof (len_nonneg (enc v)).
  wp_step. eapply wp_mono; [eapply accepts_at; [done..|eapply fits_mono; [|exact Hf]; lia]|].
  intros o w1 [-> Hat1]. wp_norm. eapply wp_mono; [eapply Hvs; [done|apply fits_adv; auto; lia]|].
  intros o w2 ->. wp_norm. by wp_step.
Qed.

Lemma framed_accepts P body vs : body_spec P body -> body_accepts body vs ->
  accepts (fun l => enc_list (concat (map enc l))) (wrap List__;; l ← body; wrap ListEnd;; mret l) vs.
Proof.
  intros Hb Ha w rest st Hat Hf. pose proof Hat as [[_ _ _ _ Hu Hs] _].
  assert (Hlen : len (concat (map enc vs)) < 2 ^ 63).
  { unfold enc_list in Hs. rewrite !len_app in Hs. pose proof (len_nonneg rest).
    pose proof (len_nonneg (puthead 192 247 (len (concat (map enc vs))))). lia. }
  wp_norm. apply wp_wrap. eapply wp_mono; [by apply List_accepts|].
  intros o w1 [-> Hat1]. wp_norm.
  eapply wp_mono; [apply wp_conj; [eapply Ha; [done|simpl; lia]|by eapply Hb]|].
  intros o w2 [-> (_ & rest' & Heq & Hat2)]. rewrite adv_full in Hat2 by done. wp_norm. apply wp_wrap.
  eapply wp_mono; [by eapply ListEnd_accepts|]. intros o w3 [-> _]. wp_norm. by wp_step.
Qed.

Lemma decodeListArray_accepts P elemdec vs : dec_spec enc P elemdec ->
  Forall (accepts enc elemdec) vs ->
  accepts (fun l => enc_list (concat (map enc l))) (decodeListArray (length vs) elemdec) vs.
Proof.
  intros Hd Hvs.
  assert (Hb : body_spec (fun _ => True) (decodeArrayElems (length vs) elemdec)).
  { generalize (length vs) as n. induction n as [|n IH]; cbn [decodeArrayElems].
    - intros w input st Hat. eapply wp_mono; [by apply body_nil|]. intros [vl|e|p] w'; [|done..]. by intros [_ ?].
    - by eapply body_cons; [|exact Hd|exact IH]. }
  eapply framed_accepts; [exact Hb|]. clear Hb.
  induction Hvs as [|v vs Hv _ IH]; cbn [length decodeArrayElems]; [by intros w rest st _ _; wp_step|].
  by eapply body_accepts_cons.
Qed.

Lemma decodeStruct_accepts (P : rtype -> rval -> Prop) ts vs :
  Forall (fun t => dec_spec enc (P t) (decoder t)) ts ->
  fields_type (fun t v => accepts enc (decoder t) v) ts vs ->
  accepts (fun l => enc_list (concat (map enc l))) (decodeStruct (map decoder ts)) vs.
Proof.
  intros Hts Hvs. assert (Hb : body_spec (fun _ => True) (decodeFields (map decoder ts))).
  { clear Hvs. induction Hts as [|t ts Ht _ IH]; cbn [map decodeFields].
    - intros w input st Hat. eapply wp_mono; [by apply body_nil|]. intros [vl|e|p] w'; [|done..]. by intros [_ ?].
    - by eapply body_cons; [|exact Ht|exact IH]. }
  eapply framed_accepts; [exact Hb|]. clear Hb. revert vs Hvs.
  induction Hts as [|t ts Ht _ IH]; intros [|v vs] Hvs; try done.
  destruct Hvs as [Hv Hvs]. by eapply body_accepts_cons; [| |apply IH].
Qed.

Lemma decoder_accepts t : wf_type t -> forall v, has_type t v -> accepts enc (decoder t) v.
Proof.
  induction t as [bits| | | |n| |t IH|n t IH|ts IH] using rtype_ind';
    intros Hwf [i|b|b|i|l] Ht; try done; cbn [decoder].
  - apply (accepts_fmap VUint (fun i => enc_string (min_bytes i)) enc _ i eq_refl). by apply accepts_wrap, uint_accepts.
  - apply (accepts_fmap VBool (fun b : bool => enc_string (if b then [bZ 1] else [])) enc _ b eq_refl). apply accepts_wrap, Bool_accepts.
  - apply (accepts_fmap VBytes enc_string enc _ b eq_refl). apply accepts_wrap, Bytes_accepts.
  - apply (accepts_fmap VBytes enc_string enc _ b eq_refl). apply accepts_wrap, Bytes_accepts.
  - apply (accepts_fmap VBytes enc_string enc _ b eq_refl). apply decodeByteArray_accepts, Ht.
  - apply (accepts_fmap VBig (fun i => enc_string (min_bytes i)) enc _ i eq_refl). apply decodeBigInt_accepts, Ht.
  - apply (accepts_fmap VList (fun l => enc_list (concat (map enc l))) enc _ l eq_refl). destruct Ht as [Ht _].
    eapply decodeListSlice_accepts; [by apply decoder_spec|apply decoder_ends|].
    eapply Forall_impl; [exact Ht|]. intros v. by apply IH.
  - apply (accepts_fmap VList (fun l => enc_list (concat (map enc l))) enc _ l eq_refl). destruct Ht as (<- & Ht & _).
    eapply decodeListArray_accepts; [by apply decoder_spec|].
    eapply Forall_impl; [exact Ht|]. intros v. by apply IH.
  - apply (accepts_fmap VList (fun l => enc_list (concat (map enc l))) enc _ l eq_refl). destruct Ht as [Ht _]. simpl in Hwf. rewrite wf_fields in Hwf.
    apply (decodeStruct_accepts has_type).
    { eapply Forall_impl; [exact Hwf|]. apply decoder_spec. }
    revert l Ht. induction IH as [|t ts IHt _ IHts]; intros [|v l] Ht; try done.
    apply Forall_cons in Hwf as [Hwt Hwf]. destruct Ht as [Hv Ht]. split; [auto|]. by apply IHts.
Qed.

(** The decoder reads back the reference encoding. *)
Lemma DecodeBytes_enc t v : wf_type t -> has_type t v -> len (enc v) < 2 ^ 63 ->
  DecodeBytes t (enc v) = Ok v.
Proof.
  intros Hwf Hv Hb.
  pose proof (accepts_at enc (has_type t) (decoder t) v (mkWorld 0%nat (Reset (enc v))) [] []
    (decoder_spec t Hwf) (decoder_accepts t Hwf v Hv)) as Hw.
  rewrite app_nil_r in Hw. specialize (Hw (at0_Reset _ Hb) I). unfold DecodeBytes. unfold wp in Hw.
  destruct (decoder t _) as [o w']. destruct Hw as [-> [Hat _]].
  by rewrite (at_r _ _ _ Hat), decide_True.
Qed.

(** C33: RLP round trip: for every type and every value of it, decoding the bytes
    that [EncodeToBytes] produces gives the value back. *)
Theorem DecodeBytes_EncodeToBytes t v b
  (Hwf : wf_type t) (Hv : has_type t v) (Henc : EncodeToBytes t v = Ok b) (Hb : len b < 2 ^ 63) :
  DecodeBytes t b = Ok v.
Proof.
  rewrite (EncodeToBytes_typed t v Hwf Hv) in Henc. injection Henc as <-. by apply DecodeBytes_enc.
Qed.

Lemma DecodeBytes_EncodeToBytes_witness :
  DecodeBytes (TStruct [TSlice (TByteArray 2); TUint 64])
    [Byte.xc7; Byte.xc3; Byte.x82; Byte.x01; Byte.xff; Byte.x82; Byte.x04; Byte.x00]
  = Ok (VList [VList [VBytes [Byte.x01; Byte.xff]]; VUint 1024]).
Proof.
  apply DecodeBytes_EncodeToBytes; [simpl; naive_solver|apply has_typeb_sound|..]; vm_compute; reflexivity.
Defined.

(** The size check of [Kind] uses the list limit from before the header is
    read, so a nested list that overruns its parent by its own header is not
    refused with [ErrElemTooLarge]: [List] enters it and the limit of the parent
    wraps around to 2^64 - 1.  (The later [ListEnd] of the parent then fails.) *)
Theorem List_parent_limit_wraps :
  let s := mkStream [Byte.xc1; Byte.x05] 2 0 None [1] None Byte.x00 true in
  out List__ (mkWorld 0 s) = Ok 1 /\ stack (exec List__ (mkWorld 0 s)) = [1; 2 ^ 64 - 1].
Proof. vm_compute. split; reflexivity. Qed.
