(* ===== verification/RlpRaw.v ===== *)
(** The slice functions of raw.go agree with the encoder: they find the content
    and the end of an encoded value, and count the values of a concatenation. *)

From S2P Require Import Prelude Common Rlp RlpEnc RlpDec.
From Stdlib Require Import Strings.Byte.

Lemma readSize_enc sz x : 56 <= sz < 2 ^ 64 ->
  readSize (min_bytes sz ++ x) (len (min_bytes sz)) = Ok sz.
Proof.
  intros Hsz. unfold readSize. rewrite len_app. pose proof (len_nonneg x).
  destruct (Z.ltb_spec (len (min_bytes sz) + len x) (len (min_bytes sz))); [lia|].
  unfold len. rewrite Nat2Z.id, take_app_length. rewrite min_bytes_val by lia.
  destruct (Z.ltb_spec sz 56); [lia|]. simpl.
  destruct (min_bytes sz) as [|c b] eqn:Hm.
  { apply (f_equal be_val) in Hm. rewrite min_bytes_val in Hm by lia. unfold be_val in Hm. simpl in Hm. lia. }
  simpl. destruct (Z.eqb_spec (Zb c) 0); [|done]. exfalso. by eapply (min_bytes_head sz); [lia|exact Hm|].
Qed.

(** The content of a value: what follows its header. *)
Definition content (v : rval) : list byte :=
  match v with
  | VUint i | VBig i => min_bytes i
  | VBool b => if b then [bZ 1] else []
  | VBytes b => b
  | VList l => concat (map enc l)
  end.

Definition is_list (v : rval) : bool := match v with VList _ => true | _ => false end.

(** Decide the comparisons of the tag [a]. *)
Ltac tag_dec a :=
  repeat match goal with
  | |- context [Z.ltb a ?b] => destruct (Z.ltb_spec a b); [try (exfalso; lia)|try (exfalso; lia)]
  end.

(** A header followed by [sz] bytes. *)
Lemma raw_readKind_head k st lt sz body rest :
  (k = String_ /\ st = 0x80 /\ lt = 0xB7) \/ (k = List_ /\ st = 0xC0 /\ lt = 0xF7) ->
  len body = sz -> sz < 2 ^ 64 ->
  (k = String_ -> length body = 1%nat -> exists c, body = [c] /\ 128 <= Zb c) ->
  raw_readKind (puthead st lt sz ++ body ++ rest) = Ok (k, len (puthead st lt sz), sz).
Proof.
  intros Hk Hl Hsz Hone. pose proof (len_nonneg body). pose proof (len_nonneg rest).
  destruct (Z.lt_ge_cases sz 56).
  - rewrite puthead_short by lia. unfold raw_readKind. cbn [app]. cbn beta iota zeta.
    assert (Hzb : Zb (bZ (st + sz)) = st + sz) by (rewrite Zb_bZ_small; [done|destruct Hk as [(_ & -> & _)|(_ & -> & _)]; lia]).
    rewrite Hzb. replace (len (bZ (st + sz) :: body ++ rest)) with (1 + len body + len rest)
      by (unfold len; simpl; rewrite length_app; lia).
    destruct Hk as [(-> & -> & ->)|(-> & -> & ->)]; [tag_dec (128 + sz)|tag_dec (192 + sz)].
    + replace (128 + sz - 128) with sz by lia. change (len [bZ (128 + sz)]) with 1.
      assert (Hc : Z.ltb (1 + len body + len rest - 1) sz = false) by (apply Z.ltb_ge; lia). rewrite Hc.
      destruct (body ++ rest) as [|c l] eqn:Hb; [done|].
      destruct (Z.eqb_spec sz 1) as [->|]; [|done]. simpl.
      destruct (Hone eq_refl) as (c' & -> & Hc'); [unfold len in Hl; lia|]. injection Hb as <- <-.
      destruct (Z.ltb_spec (Zb c') 128); [lia|done].
    + replace (192 + sz - 192) with sz by lia. change (len [bZ (192 + sz)]) with 1.
      assert (Hc : Z.ltb (1 + len body + len rest - 1) sz = false) by (apply Z.ltb_ge; lia). by rewrite Hc.
  - rewrite (puthead_long _ _ sz (min_bytes sz)) by (done || lia). pose proof (min_bytes_len sz ltac:(lia)).
    unfold raw_readKind. cbn [app]. cbn beta iota zeta.
    assert (Hzb : Zb (bZ (lt + len (min_bytes sz))) = lt + len (min_bytes sz))
      by (rewrite Zb_bZ_small; [done|destruct Hk as [(_ & _ & ->)|(_ & _ & ->)]; lia]).
    rewrite Hzb.
    replace (len (bZ (lt + len (min_bytes sz)) :: min_bytes sz ++ body ++ rest))
      with (1 + len (min_bytes sz) + sz + len rest) by (unfold len in *; simpl; rewrite !length_app; lia).
    replace (len (bZ (lt + len (min_bytes sz)) :: min_bytes sz)) with (len (min_bytes sz) + 1)
      by (unfold len; simpl; lia).
    assert (Hc : Z.ltb (1 + len (min_bytes sz) + sz + len rest - (len (min_bytes sz) + 1)) sz = false)
      by (apply Z.ltb_ge; lia).
    destruct Hk as [(-> & -> & ->)|(-> & -> & ->)];
      [tag_dec (183 + len (min_bytes sz))|tag_dec (247 + len (min_bytes sz))].
    + replace (183 + len (min_bytes sz) - 183) with (len (min_bytes sz)) by lia.
      by rewrite readSize_enc, Hc by lia.
    + replace (247 + len (min_bytes sz) - 247) with (len (min_bytes sz)) by lia.
      by rewrite readSize_enc, Hc by lia.
Qed.

(** [readKind] of raw.go on an encoded value: where its content starts and ends. *)
Lemma raw_readKind_enc v rest : len (content v) < 2 ^ 64 ->
  exists k ts, raw_readKind (enc v ++ rest) = Ok (k, ts, len (content v)) /\
    (k = List_ <-> is_list v = true) /\ 0 <= ts /\ enc v = take (Z.to_nat ts) (enc v) ++ content v /\
    len (enc v) = ts + len (content v).
Proof.
  intros Hl. destruct (is_list v) eqn:Hv.
  - destruct v; try done. simpl in *. unfold enc_list. rewrite <- app_assoc.
    exists List_, (len (puthead 0xC0 0xF7 (len (concat (map enc l))))).
    split; [apply raw_readKind_head; [right|..]; done|].
    unfold len. rewrite Nat2Z.id, take_app_length, length_app. split_and!; try done; lia.
  - assert (He : enc v = enc_string (content v)) by (by destruct v). rewrite He.
    destruct (enc_string_cases (content v)) as [(c & Hc & Hlt & ->)|[-> Hone]].
    + rewrite Hc. exists Byte_, 0. split; [|split_and!; try done; lia]. simpl. destruct (Z.ltb_spec (Zb c) 128); [|lia].
      unfold len. simpl. destruct (Z.ltb_spec (Z.of_nat (S (length rest)) - 0) 1); [lia|done].
    + rewrite <- app_assoc. exists String_, (len (puthead 0x80 0xB7 (len (content v)))).
      split; [apply raw_readKind_head; [left|..]; auto|].
      unfold len. rewrite Nat2Z.id, take_app_length, length_app. split_and!; try done; lia.
Qed.

Lemma Split_enc_eq v rest : len (content v) < 2 ^ 64 ->
  exists k, Split (enc v ++ rest) = Ok (k, content v, rest) /\ (k = List_ <-> is_list v = true).
Proof.
  intros Hl. destruct (raw_readKind_enc v rest Hl) as (k & ts & Hk & Hkl & Hts & He & Hlen).
  exists k. split; [|done]. unfold Split. rewrite Hk. pose proof (len_nonneg (content v)).
  rewrite <- Hlen. unfold len at 2. rewrite Nat2Z.id, drop_app_length. f_equal. f_equal. f_equal.
  rewrite He, <- app_assoc, drop_app_length'.
  2:{ rewrite length_take. unfold len in *. lia. }
  unfold len. by rewrite Nat2Z.id, take_app_length.
Qed.

(** [Split] of raw.go cuts an encoded value exactly: it returns the content
    of the first value and the bytes after it, and [SplitList] / [SplitString]
    accept it according to its kind. *)
Theorem Split_enc v rest (Hl : len (content v) < 2 ^ 64) :
  (exists k, Split (enc v ++ rest) = Ok (k, content v, rest)) /\
  SplitList (enc v ++ rest) = (if is_list v then Ok (content v, rest) else Fail ErrExpectedList) /\
  SplitString (enc v ++ rest) = (if is_list v then Fail ErrExpectedString else Ok (content v, rest)).
Proof.
  destruct (Split_enc_eq v rest Hl) as (k & Hs & Hk). split; [eauto|]. unfold SplitList, SplitString.
  rewrite Hs. destruct (is_list v), k; try done; exfalso; naive_solver.
Qed.

Lemma Split_enc_witness :
  (exists k, Split (enc (VUint 1024) ++ [Byte.x07]) = Ok (k, [Byte.x04; Byte.x00], [Byte.x07])) /\
  SplitList (enc (VUint 1024) ++ [Byte.x07]) = Fail ErrExpectedList /\
  SplitString (enc (VUint 1024) ++ [Byte.x07]) = Ok ([Byte.x04; Byte.x00], [Byte.x07]).
Proof. apply (Split_enc (VUint 1024) [Byte.x07]). vm_compute. reflexivity. Defined.

(** [SplitUint64] reads back what [AppendUint64] wrote, for every uint64,
    and leaves the rest of the input. *)
Theorem SplitUint64_AppendUint64 i rest (Hi : 0 <= i < 2 ^ 64) :
  SplitUint64 (AppendUint64 [] i ++ rest) = Ok (i, rest).
Proof.
  rewrite AppendUint64_enc by done. rewrite app_nil_l.
  assert (Hm : len (min_bytes i) <= 8).
  { destruct (decide (i = 0)) as [->|]; [vm_compute; discriminate|]. pose proof (min_bytes_len i). lia. }
  assert (Hl : len (content (VUint i)) < 2 ^ 64) by (simpl; lia).
  destruct (Split_enc_eq (VUint i) rest Hl) as (k & Hs & Hk).
  unfold SplitUint64, SplitString. rewrite Hs. simpl content in *.
  assert (Hkl : forall X (a b : X), match k with List_ => a | _ => b end = b) by (destruct k; try done; naive_solver).
  replace (match k with List_ => Fail ErrExpectedString | _ => Ok (min_bytes i, rest) end)
    with (Ok (min_bytes i, rest)) by (symmetry; apply Hkl).
  destruct (min_bytes i) as [|c [|d b]] eqn:Hmb.
  - by rewrite <- (min_bytes_val i ltac:(lia)), Hmb.
  - destruct (min_bytes_single i c ltac:(lia) Hmb) as [-> Hc]. destruct (Z.eqb_spec (Zb c) 0); [lia|done].
  - destruct (Z.ltb_spec 8 (len (c :: d :: b))); [lia|]. rewrite <- Hmb.
    assert (256 <= i).
    { destruct (Z.lt_ge_cases i 256); [|done]. destruct (decide (i = 0)) as [->|]; [done|].
      by rewrite min_bytes_small in Hmb by lia. }
    rewrite <- (app_nil_r (min_bytes i)) at 1. by rewrite readSize_enc by lia.
Qed.

Lemma SplitUint64_AppendUint64_witness :
  SplitUint64 (AppendUint64 [] 70000 ++ [Byte.x01]) = Ok (70000, [Byte.x01]).
Proof. apply SplitUint64_AppendUint64. lia. Defined.

Lemma CountValues_enc vs : Forall (fun v => len (content v) < 2 ^ 64) vs ->
  CountValues (concat (map enc vs)) = Ok (len vs).
Proof.
  intros Hvs.
  unfold CountValues.
  enough (Hloop : forall fuel i, (length (concat (map enc vs)) < fuel)%nat ->
    CountValues_loop fuel i (concat (map enc vs)) = Ok (i + len vs)) by (by rewrite Hloop by lia).
  induction Hvs as [|v vs Hv _ IH]; intros [|fuel] i Hf; simpl in *; try lia.
  { f_equal. unfold len. simpl. lia. }
  destruct (enc_head_nonempty v) as (b & l & Hb).
  destruct (raw_readKind_enc v (concat (map enc vs)) Hv) as (k & ts & Hk & _ & Hts & _ & Hlen).
  rewrite length_app, Hb in Hf. simpl in Hf. rewrite Hk.
  destruct (enc v ++ concat (map enc vs)) eqn:He; [by rewrite Hb in He|]. rewrite <- He, <- Hlen.
  unfold len at 1. rewrite Nat2Z.id, drop_app_length, IH by lia. f_equal. unfold len. simpl. lia.
Qed.

(** [CountValues] counts the values of a concatenation of encodings. *)
Theorem CountValues_concat vs (Hvs : Forall (fun v => len (content v) < 2 ^ 64) vs) :
  CountValues (concat (map enc vs)) = Ok (len vs).
Proof. by apply CountValues_enc. Qed.

Lemma CountValues_concat_witness : CountValues (concat (map enc [VUint 1024; VList []; VBytes []])) = Ok 3.
Proof. apply CountValues_concat. repeat constructor; vm_compute; reflexivity. Defined.
