(* ===== verification/Uint256.v ===== *)
(** Package uint256: 256-bit unsigned integers as four 64-bit words.

    Models src/uint256/uint256.go, src/uint256/div.go and src/uint256/conversion.go.
    An [Int] is the array of four words, least significant first; a method that sets
    its receiver returns the new value.  The words are integers and every operation
    on them wraps at 64 bits as written.  The functions that divide return an
    [outcome], since indexing and [bits.Div64] can panic; Uint256Div shows that they
    never do.  The receiver of a method may be one of its arguments: every method
    reads the words it needs before it overwrites them, or copies the argument first,
    so a value per receiver is enough. *)

From S2P Require Import Prelude Common.
From Stdlib Require Import Strings.Byte.

(** * Package math/bits *)

Definition B64 : Z := 2 ^ 64.
Definition MaxUint64 : Z := 2 ^ 64 - 1.

(** [bits.Add64]: sum and carry. *)
Definition Add64 (x y carry : Z) : Z * Z := (u64 (x + y + carry), (x + y + carry) / B64).
(** [bits.Sub64]: difference and borrow. *)
Definition Sub64 (x y borrow : Z) : Z * Z := (u64 (x - y - borrow), if Z.ltb (x - y - borrow) 0 then 1 else 0).
(** [bits.Mul64]: high and low word. *)
Definition Mul64 (x y : Z) : Z * Z := (x * y / B64, u64 (x * y)).
(** [bits.Div64]: panics for a zero divisor and when the quotient does not fit. *)
Definition Div64 (hi lo y : Z) : outcome (Z * Z) :=
  if Z.eqb y 0 then Panic "integer divide by zero"
  else if Z.leb y hi then Panic "integer overflow"
  else Ok ((hi * B64 + lo) / y, (hi * B64 + lo) mod y).
(** [bits.Len64] and [bits.LeadingZeros64]. *)
Definition Len64 (x : Z) : Z := if Z.eqb x 0 then 0 else Z.log2 x + 1.
Definition LeadingZeros64 (x : Z) : Z := 64 - Len64 x.

(** Shifts of a word; the bits that leave it are lost. *)
Definition shl64 (x n : Z) : Z := u64 (Z.shiftl x n).
Definition shr64 (x n : Z) : Z := Z.shiftr x n.
(** [^x] of a word. *)
Definition not64 (x : Z) : Z := MaxUint64 - x.

(** Indexing and slicing, which panic outside the bounds. *)
Definition idx {A} (l : list A) (i : nat) : outcome A :=
  match l !! i with Some x => Ok x | None => Panic "index out of range" end.
Definition setIdx {A} (l : list A) (i : nat) (x : A) : outcome (list A) :=
  if Nat.ltb i (length l) then Ok (<[i := x]> l) else Panic "index out of range".
Definition slc {A} (l : list A) (i j : nat) : outcome (list A) :=
  if Nat.leb i j && Nat.leb j (length l) then Ok (take (j - i) (drop i l)) else Panic "slice bounds out of range".

(** * The type *)

Record Int := mkInt { w0 : Z; w1 : Z; w2 : Z; w3 : Z }.

#[export] Instance Int_eq_dec : EqDecision Int.
Proof. solve_decision. Defined.

(** The words as a slice, and back. *)
Definition words (z : Int) : list Z := [w0 z; w1 z; w2 z; w3 z].
Definition ofWords (l : list Z) : Int :=
  mkInt (default 0 (l !! 0%nat)) (default 0 (l !! 1%nat)) (default 0 (l !! 2%nat)) (default 0 (l !! 3%nat)).
(** The word with a given index. *)
Definition word (z : Int) (i : Z) : Z :=
  if Z.eqb i 0 then w0 z else if Z.eqb i 1 then w1 z else if Z.eqb i 2 then w2 z else w3 z.

(** The integer that the words stand for. *)
Definition toZ (z : Int) : Z := w0 z + B64 * (w1 z + B64 * (w2 z + B64 * w3 z)).
(** Every word fits in 64 bits. *)
Definition wf (z : Int) : Prop := is_u64 (w0 z) /\ is_u64 (w1 z) /\ is_u64 (w2 z) /\ is_u64 (w3 z).

Module U256.
Definition Clear : Int := mkInt 0 0 0 0.
Definition SetOne : Int := mkInt 1 0 0 0.
Definition SetAllOne : Int := mkInt MaxUint64 MaxUint64 MaxUint64 MaxUint64.
Definition SetUint64 (x : Z) : Int := mkInt x 0 0 0.
Definition NewInt (val : Z) : Int := SetUint64 val.
Definition Uint64 (z : Int) : Z := w0 z.
Definition Uint64WithOverflow (z : Int) : Z * bool := (w0 z, negb (Z.eqb (Z.lor (Z.lor (w1 z) (w2 z)) (w3 z)) 0)).

(** ** Predicates and comparisons *)

Definition IsUint64 (z : Int) : bool := Z.eqb (Z.lor (Z.lor (w1 z) (w2 z)) (w3 z)) 0.
Definition IsZero (z : Int) : bool := Z.eqb (Z.lor (Z.lor (Z.lor (w0 z) (w1 z)) (w2 z)) (w3 z)) 0.
Definition Lt (z x : Int) : bool :=
  let '(_, carry) := Sub64 (w0 z) (w0 x) 0 in
  let '(_, carry) := Sub64 (w1 z) (w1 x) carry in
  let '(_, carry) := Sub64 (w2 z) (w2 x) carry in
  let '(_, carry) := Sub64 (w3 z) (w3 x) carry in
  negb (Z.eqb carry 0).
Definition Gt (z x : Int) : bool := Lt x z.
Definition Eq (z x : Int) : bool := Z.eqb (w0 z) (w0 x) && Z.eqb (w1 z) (w1 x) && Z.eqb (w2 z) (w2 x) && Z.eqb (w3 z) (w3 x).
Definition Cmp (z x : Int) : Z := if Gt z x then 1 else if Lt z x then -1 else 0.
Definition LtUint64 (z : Int) (n : Z) : bool := Z.ltb (w0 z) n && Z.eqb (Z.lor (Z.lor (w1 z) (w2 z)) (w3 z)) 0.
Definition GtUint64 (z : Int) (n : Z) : bool := Z.ltb n (w0 z) || negb (Z.eqb (Z.lor (Z.lor (w1 z) (w2 z)) (w3 z)) 0).
Definition Sign (z : Int) : Z := if IsZero z then 0 else if Z.ltb (w3 z) 0x8000000000000000 then 1 else -1.
Definition Slt (z x : Int) : bool :=
  let zSign := Sign z in let xSign := Sign x in
  if Z.leb 0 zSign && Z.ltb xSign 0 then false
  else if Z.ltb zSign 0 && Z.leb 0 xSign then true
  else Lt z x.
Definition Sgt (z x : Int) : bool :=
  let zSign := Sign z in let xSign := Sign x in
  if Z.leb 0 zSign && Z.ltb xSign 0 then true
  else if Z.ltb zSign 0 && Z.leb 0 xSign then false
  else Gt z x.
Definition BitLen (z : Int) : Z :=
  if negb (Z.eqb (w3 z) 0) then 192 + Len64 (w3 z)
  else if negb (Z.eqb (w2 z) 0) then 128 + Len64 (w2 z)
  else if negb (Z.eqb (w1 z) 0) then 64 + Len64 (w1 z)
  else Len64 (w0 z).
Definition ByteLen (z : Int) : Z := (BitLen z + 7) / 8.
Definition isBitSet (z : Int) (n : Z) : bool := negb (Z.eqb (Z.land (word z (n / 64)) (shl64 1 (n mod 64))) 0).

(** ** Addition and subtraction *)

Definition Add (x y : Int) : Int :=
  let '(z0, carry) := Add64 (w0 x) (w0 y) 0 in
  let '(z1, carry) := Add64 (w1 x) (w1 y) carry in
  let '(z2, carry) := Add64 (w2 x) (w2 y) carry in
  let '(z3, _) := Add64 (w3 x) (w3 y) carry in
  mkInt z0 z1 z2 z3.
Definition AddOverflow (x y : Int) : Int * bool :=
  let '(z0, carry) := Add64 (w0 x) (w0 y) 0 in
  let '(z1, carry) := Add64 (w1 x) (w1 y) carry in
  let '(z2, carry) := Add64 (w2 x) (w2 y) carry in
  let '(z3, carry) := Add64 (w3 x) (w3 y) carry in
  (mkInt z0 z1 z2 z3, negb (Z.eqb carry 0)).
Definition AddUint64 (x : Int) (y : Z) : Int :=
  let '(z0, carry) := Add64 (w0 x) y 0 in
  let '(z1, carry) := Add64 (w1 x) 0 carry in
  let '(z2, carry) := Add64 (w2 x) 0 carry in
  let '(z3, _) := Add64 (w3 x) 0 carry in
  mkInt z0 z1 z2 z3.
Definition SubUint64 (x : Int) (y : Z) : Int :=
  let '(z0, carry) := Sub64 (w0 x) y 0 in
  let '(z1, carry) := Sub64 (w1 x) 0 carry in
  let '(z2, carry) := Sub64 (w2 x) 0 carry in
  let '(z3, _) := Sub64 (w3 x) 0 carry in
  mkInt z0 z1 z2 z3.
Definition SubOverflow (x y : Int) : Int * bool :=
  let '(z0, carry) := Sub64 (w0 x) (w0 y) 0 in
  let '(z1, carry) := Sub64 (w1 x) (w1 y) carry in
  let '(z2, carry) := Sub64 (w2 x) (w2 y) carry in
  let '(z3, carry) := Sub64 (w3 x) (w3 y) carry in
  (mkInt z0 z1 z2 z3, negb (Z.eqb carry 0)).
Definition Sub (x y : Int) : Int :=
  let '(z0, carry) := Sub64 (w0 x) (w0 y) 0 in
  let '(z1, carry) := Sub64 (w1 x) (w1 y) carry in
  let '(z2, carry) := Sub64 (w2 x) (w2 y) carry in
  let '(z3, _) := Sub64 (w3 x) (w3 y) carry in
  mkInt z0 z1 z2 z3.
Definition Neg (x : Int) : Int := Sub Clear x.
Definition Abs (x : Int) : Int := if Z.ltb (w3 x) 0x8000000000000000 then x else Sub Clear x.

(** ** Multiplication *)

Definition umulStep (z x y carry : Z) : Z * Z :=
  let '(hi, lo) := Mul64 x y in
  let '(lo, carry) := Add64 lo carry 0 in
  let '(hi, _) := Add64 hi 0 carry in
  let '(lo, carry) := Add64 lo z 0 in
  let '(hi, _) := Add64 hi 0 carry in
  (hi, lo).
Definition umulHop (z x y : Z) : Z * Z :=
  let '(hi, lo) := Mul64 x y in
  let '(lo, carry) := Add64 lo z 0 in
  let '(hi, _) := Add64 hi 0 carry in
  (hi, lo).
(** The full product, eight words. *)
Definition umul (x y : Int) : list Z :=
  let '(carry, r0) := Mul64 (w0 x) (w0 y) in
  let '(carry, res1) := umulHop carry (w1 x) (w0 y) in
  let '(carry, res2) := umulHop carry (w2 x) (w0 y) in
  let '(carry4, res3) := umulHop carry (w3 x) (w0 y) in
  let '(carry, r1) := umulHop res1 (w0 x) (w1 y) in
  let '(carry, res2) := umulStep res2 (w1 x) (w1 y) carry in
  let '(carry, res3) := umulStep res3 (w2 x) (w1 y) carry in
  let '(carry5, res4) := umulStep carry4 (w3 x) (w1 y) carry in
  let '(carry, r2) := umulHop res2 (w0 x) (w2 y) in
  let '(carry, res3) := umulStep res3 (w1 x) (w2 y) carry in
  let '(carry, res4) := umulStep res4 (w2 x) (w2 y) carry in
  let '(carry6, res5) := umulStep carry5 (w3 x) (w2 y) carry in
  let '(carry, r3) := umulHop res3 (w0 x) (w3 y) in
  let '(carry, r4) := umulStep res4 (w1 x) (w3 y) carry in
  let '(carry, r5) := umulStep res5 (w2 x) (w3 y) carry in
  let '(r7, r6) := umulStep carry6 (w3 x) (w3 y) carry in
  [r0; r1; r2; r3; r4; r5; r6; r7].
Definition Mul (x y : Int) : Int :=
  let '(carry, r0) := Mul64 (w0 x) (w0 y) in
  let '(carry, res1) := umulHop carry (w1 x) (w0 y) in
  let '(carry, res2) := umulHop carry (w2 x) (w0 y) in
  let res3 := u64 (w3 x * w0 y + carry) in
  let '(carry, r1) := umulHop res1 (w0 x) (w1 y) in
  let '(carry, res2) := umulStep res2 (w1 x) (w1 y) carry in
  let res3 := u64 (res3 + w2 x * w1 y + carry) in
  let '(carry, r2) := umulHop res2 (w0 x) (w2 y) in
  let res3 := u64 (res3 + w1 x * w2 y + carry) in
  mkInt r0 r1 r2 (u64 (res3 + w0 x * w3 y)).
Definition MulOverflow (x y : Int) : Int * bool :=
  let p := umul x y in
  (ofWords (take 4 p), negb (Z.eqb (foldr Z.lor 0 (drop 4 p)) 0)).
Definition squared (z : Int) : Int :=
  let '(carry0, r0) := Mul64 (w0 z) (w0 z) in
  let '(carry0, res1) := umulHop carry0 (w0 z) (w1 z) in
  let '(carry0, res2) := umulHop carry0 (w0 z) (w2 z) in
  let '(carry1, r1) := umulHop res1 (w0 z) (w1 z) in
  let '(carry1, res2) := umulStep res2 (w1 z) (w1 z) carry1 in
  let '(carry2, r2) := umulHop res2 (w0 z) (w2 z) in
  mkInt r0 r1 r2 (u64 (2 * (w0 z * w3 z + w1 z * w2 z) + carry0 + carry1 + carry2)).

(** ** Exponentiation

    The loop over the bits of one word of the exponent, [n] turns of it. *)
Fixpoint expLoop (n : nat) (word : Z) (res multiplier : Int) : Int * Int :=
  match n with
  | O => (res, multiplier)
  | S n => expLoop n (shr64 word 1) (if Z.eqb (Z.land word 1) 1 then Mul res multiplier else res) (squared multiplier)
  end.
(** The turns that the bound [top] and the length of the exponent leave from [curBit] on. *)
Definition expTurns (expBitLen curBit top : Z) : nat := Z.to_nat (Z.min expBitLen top - curBit).
Definition Exp (base exponent : Int) : Int :=
  let expBitLen := BitLen exponent in
  let '(res, multiplier) := expLoop (expTurns expBitLen 0 64) (w0 exponent) SetOne base in
  let '(res, multiplier) := expLoop (expTurns expBitLen 64 128) (w1 exponent) res multiplier in
  let '(res, multiplier) := expLoop (expTurns expBitLen 128 192) (w2 exponent) res multiplier in
  let '(res, _) := expLoop (expTurns expBitLen 192 256) (w3 exponent) res multiplier in
  res.

(** ** Bits and shifts *)

Definition Not (x : Int) : Int := mkInt (not64 (w0 x)) (not64 (w1 x)) (not64 (w2 x)) (not64 (w3 x)).
Definition Or (x y : Int) : Int := mkInt (Z.lor (w0 x) (w0 y)) (Z.lor (w1 x) (w1 y)) (Z.lor (w2 x) (w2 y)) (Z.lor (w3 x) (w3 y)).
Definition And (x y : Int) : Int := mkInt (Z.land (w0 x) (w0 y)) (Z.land (w1 x) (w1 y)) (Z.land (w2 x) (w2 y)) (Z.land (w3 x) (w3 y)).
Definition Xor (x y : Int) : Int := mkInt (Z.lxor (w0 x) (w0 y)) (Z.lxor (w1 x) (w1 y)) (Z.lxor (w2 x) (w2 y)) (Z.lxor (w3 x) (w3 y)).

Definition lsh64 (x : Int) : Int := mkInt 0 (w0 x) (w1 x) (w2 x).
Definition lsh128 (x : Int) : Int := mkInt 0 0 (w0 x) (w1 x).
Definition lsh192 (x : Int) : Int := mkInt 0 0 0 (w0 x).
Definition rsh64 (x : Int) : Int := mkInt (w1 x) (w2 x) (w3 x) 0.
Definition rsh128 (x : Int) : Int := mkInt (w2 x) (w3 x) 0 0.
Definition rsh192 (x : Int) : Int := mkInt (w3 x) 0 0 0.
Definition srsh64 (x : Int) : Int := mkInt (w1 x) (w2 x) (w3 x) MaxUint64.
Definition srsh128 (x : Int) : Int := mkInt (w2 x) (w3 x) MaxUint64 MaxUint64.
Definition srsh192 (x : Int) : Int := mkInt (w3 x) MaxUint64 MaxUint64 MaxUint64.

(** The labels of [Lsh]: the code from each of them to the end. *)
Definition lsh_sh192 (z : Int) (n a : Z) : Int := mkInt (w0 z) (w1 z) (w2 z) (Z.lor (shl64 (w3 z) n) a).
Definition lsh_sh128 (z : Int) (n b : Z) : Int :=
  let a := shr64 (w2 z) (64 - n) in
  lsh_sh192 (mkInt (w0 z) (w1 z) (Z.lor (shl64 (w2 z) n) b) (w3 z)) n a.
Definition lsh_sh64 (z : Int) (n a : Z) : Int :=
  let b := shr64 (w1 z) (64 - n) in
  lsh_sh128 (mkInt (w0 z) (Z.lor (shl64 (w1 z) n) a) (w2 z) (w3 z)) n b.
Definition Lsh (x : Int) (n : Z) : Int :=
  if Z.eqb (Z.land n 0x3f) 0 then
    if Z.eqb n 0 then x else if Z.eqb n 64 then lsh64 x else if Z.eqb n 128 then lsh128 x
    else if Z.eqb n 192 then lsh192 x else Clear
  else if Z.ltb 192 n then
    if Z.ltb 256 n then Clear else lsh_sh192 (lsh192 x) (n - 192) 0
  else if Z.ltb 128 n then lsh_sh128 (lsh128 x) (n - 128) 0
  else if Z.ltb 64 n then lsh_sh64 (lsh64 x) (n - 64) 0
  else
    let a := shr64 (w0 x) (64 - n) in
    lsh_sh64 (mkInt (shl64 (w0 x) n) (w1 x) (w2 x) (w3 x)) n a.

(** The labels of [Rsh]. *)
Definition rsh_sh192 (z : Int) (n a : Z) : Int := mkInt (Z.lor (shr64 (w0 z) n) a) (w1 z) (w2 z) (w3 z).
Definition rsh_sh128 (z : Int) (n b : Z) : Int :=
  let a := shl64 (w1 z) (64 - n) in
  rsh_sh192 (mkInt (w0 z) (Z.lor (shr64 (w1 z) n) b) (w2 z) (w3 z)) n a.
Definition rsh_sh64 (z : Int) (n a : Z) : Int :=
  let b := shl64 (w2 z) (64 - n) in
  rsh_sh128 (mkInt (w0 z) (w1 z) (Z.lor (shr64 (w2 z) n) a) (w3 z)) n b.
Definition Rsh (x : Int) (n : Z) : Int :=
  if Z.eqb (Z.land n 0x3f) 0 then
    if Z.eqb n 0 then x else if Z.eqb n 64 then rsh64 x else if Z.eqb n 128 then rsh128 x
    else if Z.eqb n 192 then rsh192 x else Clear
  else if Z.ltb 192 n then
    if Z.ltb 256 n then Clear else rsh_sh192 (rsh192 x) (n - 192) 0
  else if Z.ltb 128 n then rsh_sh128 (rsh128 x) (n - 128) 0
  else if Z.ltb 64 n then rsh_sh64 (rsh64 x) (n - 64) 0
  else
    let a := shl64 (w3 x) (64 - n) in
    rsh_sh64 (mkInt (w0 x) (w1 x) (w2 x) (shr64 (w3 x) n)) n a.

(** The labels of [SRsh]. *)
Definition srsh_sh192 (z : Int) (n a : Z) : Int := mkInt (Z.lor (shr64 (w0 z) n) a) (w1 z) (w2 z) (w3 z).
Definition srsh_sh128 (z : Int) (n a : Z) : Int :=
  srsh_sh192 (mkInt (w0 z) (Z.lor (shr64 (w1 z) n) a) (w2 z) (w3 z)) n (shl64 (w1 z) (64 - n)).
Definition srsh_sh64 (z : Int) (n a : Z) : Int :=
  srsh_sh128 (mkInt (w0 z) (w1 z) (Z.lor (shr64 (w2 z) n) a) (w3 z)) n (shl64 (w2 z) (64 - n)).
Definition SRsh (x : Int) (n : Z) : Int :=
  if negb (isBitSet x 255) then Rsh x n
  else if Z.eqb (n mod 64) 0 then
    if Z.eqb n 0 then x else if Z.eqb n 64 then srsh64 x else if Z.eqb n 128 then srsh128 x
    else if Z.eqb n 192 then srsh192 x else SetAllOne
  else
    let a := shl64 MaxUint64 (64 - n mod 64) in
    if Z.ltb 192 n then
      if Z.ltb 256 n then SetAllOne else srsh_sh192 (srsh192 x) (n - 192) a
    else if Z.ltb 128 n then srsh_sh128 (srsh128 x) (n - 128) a
    else if Z.ltb 64 n then srsh_sh64 (srsh64 x) (n - 64) a
    else srsh_sh64 (mkInt (w0 x) (w1 x) (w2 x) (Z.lor (shr64 (w3 x) n) a)) n (shl64 (w3 x) (64 - n)).

Definition Byte (z n : Int) : Int :=
  let '(number, overflow) := Uint64WithOverflow n in
  if negb overflow && Z.ltb number 32 then
    let number := word z (4 - 1 - number / 8) in
    let offset := shl64 (Z.land (w0 n) 0x7) 3 in
    mkInt (shr64 (Z.land number (shr64 0xff00000000000000 offset)) (u64 (56 - offset))) 0 0 0
  else Clear.
Definition ExtendSign (x byteNum : Int) : Int :=
  if GtUint64 byteNum 31 then x
  else
    let bit := u64 (Uint64 byteNum * 8 + 7) in
    let mask := SubUint64 (Lsh SetOne bit) 1 in
    if isBitSet x bit then Or x (Not mask) else And x mask.

(** ** Division *)

Definition reciprocal2by1 (d : Z) : outcome Z := '(reciprocal, _) ← Div64 (not64 d) MaxUint64 d; Ok reciprocal.
Definition udivrem2by1 (uh ul d reciprocal : Z) : Z * Z :=
  let '(qh, ql) := Mul64 reciprocal uh in
  let '(ql, carry) := Add64 ql ul 0 in
  let '(qh, _) := Add64 qh uh carry in
  let qh := u64 (qh + 1) in
  let r := u64 (ul - qh * d) in
  let '(qh, r) := if Z.ltb ql r then (u64 (qh - 1), u64 (r + d)) else (qh, r) in
  if Z.leb d r then (u64 (qh + 1), u64 (r - d)) else (qh, r).

(** [x += y], with the carry; the words of [x] beyond those of [y] stay. *)
Fixpoint addTo (x y : list Z) (carry : Z) {struct y} : outcome (list Z * Z) :=
  match y, x with
  | [], _ => Ok (x, carry)
  | yi :: y, xi :: x =>
      let '(s, carry) := Add64 xi yi carry in
      '(x, carry) ← addTo x y carry;
      Ok (s :: x, carry)
  | _ :: _, [] => Panic "index out of range"
  end.
(** [x -= y * multiplier], with the borrow. *)
Fixpoint subMulTo (x y : list Z) (multiplier borrow : Z) {struct y} : outcome (list Z * Z) :=
  match y, x with
  | [], _ => Ok (x, borrow)
  | yi :: y, xi :: x =>
      let '(s, carry1) := Sub64 xi borrow 0 in
      let '(ph, pl) := Mul64 yi multiplier in
      let '(t, carry2) := Sub64 s pl 0 in
      '(x, borrow) ← subMulTo x y multiplier (u64 (ph + carry1 + carry2));
      Ok (t :: x, borrow)
  | _ :: _, [] => Panic "index out of range"
  end.

(** The loop of [udivremBy1]; [n] is [j + 1]. *)
Fixpoint udivremBy1_loop (n : nat) (quot u : list Z) (d reciprocal rem : Z) : outcome (list Z * Z) :=
  match n with
  | O => Ok (quot, rem)
  | S j =>
      uj ← idx u j;
      let '(q, rem) := udivrem2by1 rem uj d reciprocal in
      quot ← setIdx quot j q;
      udivremBy1_loop j quot u d reciprocal rem
  end.
Definition udivremBy1 (quot u : list Z) (d : Z) : outcome (list Z * Z) :=
  reciprocal ← reciprocal2by1 d;
  rem ← idx u (length u - 1);
  udivremBy1_loop (length u - 1) quot u d reciprocal rem.

(** The trial digit of Knuth's algorithm from the top three words. *)
Definition trialDigit (u2 u1 u0 dh dl reciprocal : Z) : Z :=
  if Z.leb dh u2 then MaxUint64
  else
    let '(qhat, rhat) := udivrem2by1 u2 u1 dh reciprocal in
    let '(ph, pl) := Mul64 qhat dl in
    if Z.ltb rhat ph || (Z.eqb ph rhat && Z.ltb u0 pl) then u64 (qhat - 1) else qhat.
(** The loop of [udivremKnuth]; [n] is [j + 1].  [u[j:]] is passed to [subMulTo]
    and [addTo], which change the first [len(d)] words of it. *)
Fixpoint udivremKnuth_loop (n : nat) (quot u d : list Z) (dh dl reciprocal : Z) : outcome (list Z * list Z) :=
  match n with
  | O => Ok (quot, u)
  | S j =>
      u2 ← idx u (j + length d);
      u1 ← idx u (j + length d - 1);
      u0 ← idx u (j + length d - 2);
      let qhat := trialDigit u2 u1 u0 dh dl reciprocal in
      '(uj, borrow) ← subMulTo (drop j u) d qhat 0;
      u ← setIdx (take j u ++ uj) (j + length d) (u64 (u2 - borrow));
      '(qhat, u) ← (if Z.ltb u2 borrow then
                      '(uj, carry) ← addTo (drop j u) d 0;
                      top ← idx (take j u ++ uj) (j + length d);
                      u ← setIdx (take j u ++ uj) (j + length d) (u64 (top + carry));
                      Ok (u64 (qhat - 1), u)
                    else Ok (qhat, u));
      quot ← setIdx quot j qhat;
      udivremKnuth_loop j quot u d dh dl reciprocal
  end.
(** Subtraction of array indices is in int; a negative index panics. *)
Definition udivremKnuth (quot u d : list Z) : outcome (list Z * list Z) :=
  if Nat.ltb (length d) 2 then Panic "index out of range"
  else
    dh ← idx d (length d - 1);
    dl ← idx d (length d - 2);
    reciprocal ← reciprocal2by1 dh;
    udivremKnuth_loop (length u - length d) quot u d dh dl reciprocal.

(** The number of words up to the most significant one that is not zero. *)
Fixpoint sigWords (l : list Z) : nat :=
  match l with
  | [] => O
  | x :: l => match sigWords l with O => if Z.eqb x 0 then O else 1%nat | n => S n end
  end.
(** The words shifted to the left: each takes the high bits of the one below. *)
Fixpoint shlFrom (shift below : Z) (l : list Z) : list Z :=
  match l with
  | [] => []
  | x :: l => Z.lor (shl64 x shift) (shr64 below (64 - shift)) :: shlFrom shift x l
  end.
Definition shlWords (shift : Z) (l : list Z) : list Z :=
  match l with
  | [] => []
  | x :: l => shl64 x shift :: shlFrom shift x l
  end.
(** The words shifted to the right. *)
Fixpoint shrWords (shift : Z) (l : list Z) : list Z :=
  match l with
  | [] => []
  | x :: l =>
      match l with
      | [] => [shr64 x shift]
      | y :: _ => Z.lor (shr64 x shift) (shl64 y (64 - shift)) :: shrWords shift l
      end
  end.
(** Quotient words and remainder. *)
Definition udivrem (quot u : list Z) (d : Int) : outcome (list Z * Int) :=
  let dLen := sigWords (words d) in
  if Nat.eqb dLen 0 then Panic "index out of range"
  else
    dtop ← idx (words d) (dLen - 1);
    let shift := LeadingZeros64 dtop in
    let dn := shlWords shift (take dLen (words d)) in
    let uLen := sigWords u in
    if Nat.eqb uLen 0 then Panic "index out of range"
    else
      utop ← idx u (uLen - 1);
      let un := shlWords shift (take uLen u) ++ [shr64 utop (64 - shift)] in
      if Nat.eqb dLen 1 then
        dn0 ← idx dn 0;
        '(quot, r) ← udivremBy1 quot un dn0;
        Ok (quot, SetUint64 (shr64 r shift))
      else
        '(quot, un) ← udivremKnuth quot un dn;
        rem ← slc un 0 dLen;
        Ok (quot, ofWords (shrWords shift rem)).

Definition Div (x y : Int) : outcome Int :=
  if IsZero y || Gt y x then Ok Clear
  else if Eq x y then Ok SetOne
  else if IsUint64 x then Ok (SetUint64 (Uint64 x / Uint64 y))
  else '(quot, _) ← udivrem [0; 0; 0; 0] (words x) y; Ok (ofWords quot).
Definition Mod (x y : Int) : outcome Int :=
  if IsZero x || IsZero y then Ok Clear
  else
    let c := Cmp x y in
    if Z.eqb c (-1) then Ok x
    else if Z.eqb c 0 then Ok Clear
    else if IsUint64 x then Ok (SetUint64 (Uint64 x mod Uint64 y))
    else '(_, rem) ← udivrem [0; 0; 0; 0] (words x) y; Ok rem.
Definition AddMod (x y m : Int) : outcome Int :=
  if IsZero m then Ok Clear
  else
    let '(z, overflow) := AddOverflow x y in
    if overflow then '(_, rem) ← udivrem (replicate 5 0) (words z ++ [1]) m; Ok rem
    else Mod z m.
Definition MulMod (x y m : Int) : outcome Int :=
  if IsZero x || IsZero y || IsZero m then Ok Clear
  else
    let p := umul x y in
    let pl := ofWords (take 4 p) in
    let ph := ofWords (drop 4 p) in
    if IsZero ph then Mod pl m
    else '(_, rem) ← udivrem (replicate 8 0) p m; Ok rem.
Definition SMod (x y : Int) : outcome Int :=
  let ys := Sign y in
  let xs := Sign x in
  let x := if Z.eqb xs (-1) then Neg x else x in
  let y := if Z.eqb ys (-1) then Neg y else y in
  z ← Mod x y;
  Ok (if Z.eqb xs (-1) then Neg z else z).
Definition SDiv (n d : Int) : outcome Int :=
  if Z.ltb 0 (Sign n) then
    if Z.ltb 0 (Sign d) then Div n d
    else z ← Div n (Neg d); Ok (Neg z)
  else if Z.ltb (Sign d) 0 then Div (Neg n) (Neg d)
  else z ← Div (Neg n) d; Ok (Neg z).

(** ** Bytes *)

Definition Bytes32 (z : Int) : list byte := be_bytes 8 (w3 z) ++ be_bytes 8 (w2 z) ++ be_bytes 8 (w1 z) ++ be_bytes 8 (w0 z).
Definition BytesAddress (z : Int) : list byte := Bytes32 z.
(** [uint32(x)] keeps the low half of a word. *)
Definition Bytes20 (z : Int) : list byte := be_bytes 4 (w2 z mod 2 ^ 32) ++ be_bytes 8 (w1 z) ++ be_bytes 8 (w0 z).
Definition Bytes28 (z : Int) : list byte := be_bytes 4 (w3 z mod 2 ^ 32) ++ be_bytes 8 (w2 z) ++ be_bytes 8 (w1 z) ++ be_bytes 8 (w0 z).
Definition Bytes (z : Int) : list byte := drop (32 - Z.to_nat (ByteLen z)) (Bytes32 z).

(** [byte(z[i/8] >> uint64(8*(i%8)))] *)
Definition byteAt (z : Int) (i : nat) : byte := bZ (shr64 (word z (Z.of_nat i / 8)) (8 * (Z.of_nat i mod 8))).
(** The loops that write the bytes [0..n-1] from the index [end_] downwards. *)
Definition writeBytes (z : Int) (n end_ : nat) (dest : list byte) : list byte :=
  foldl (fun dest i => <[(end_ - i)%nat := byteAt z i]> dest) dest (seq 0 n).
Definition WriteToSlice (z : Int) (dest : list byte) : list byte :=
  let n := Nat.min (length dest) 32 in writeBytes z n (n - 1) dest.
Definition WriteToArray32 (z : Int) : list byte := writeBytes z 32 31 (replicate 32 Byte.x00).
Definition WriteToArray20 (z : Int) : list byte := writeBytes z 20 19 (replicate 20 Byte.x00).
Definition PaddedBytes (z : Int) (n : nat) : list byte := writeBytes z (Nat.min n 32) (n - 1) (replicate n Byte.x00).

(** [binary.BigEndian.Uint64] and its narrower kin, of the slice [in[i:j]]. *)
Definition beUint (b : list byte) (i j : nat) : outcome Z := s ← slc b i j; Ok (be_val s).
Definition at_ (b : list byte) (i : nat) : outcome Z := x ← idx b i; Ok (Zb x).

Definition bigEndianUint40 (b : list byte) : outcome Z :=
  b4 ← at_ b 4; b3 ← at_ b 3; b2 ← at_ b 2; b1 ← at_ b 1; b0 ← at_ b 0;
  Ok (Z.lor (Z.lor (Z.lor (Z.lor b4 (shl64 b3 8)) (shl64 b2 16)) (shl64 b1 24)) (shl64 b0 32)).
Definition bigEndianUint48 (b : list byte) : outcome Z :=
  b5 ← at_ b 5; b4 ← at_ b 4; b3 ← at_ b 3; b2 ← at_ b 2; b1 ← at_ b 1; b0 ← at_ b 0;
  Ok (Z.lor (Z.lor (Z.lor (Z.lor (Z.lor b5 (shl64 b4 8)) (shl64 b3 16)) (shl64 b2 24)) (shl64 b1 32)) (shl64 b0 40)).
Definition bigEndianUint56 (b : list byte) : outcome Z :=
  b6 ← at_ b 6; b5 ← at_ b 5; b4 ← at_ b 4; b3 ← at_ b 3; b2 ← at_ b 2; b1 ← at_ b 1; b0 ← at_ b 0;
  Ok (Z.lor (Z.lor (Z.lor (Z.lor (Z.lor (Z.lor b6 (shl64 b5 8)) (shl64 b4 16)) (shl64 b3 24)) (shl64 b2 32)) (shl64 b1 40)) (shl64 b0 48)).

Definition SetBytes1 (b : list byte) : outcome Int :=
  top ← at_ b 0;
  Ok (mkInt top 0 0 0).
Definition SetBytes2 (b : list byte) : outcome Int :=
  idx b 1;;
  top ← beUint b 0 2;
  Ok (mkInt top 0 0 0).
Definition SetBytes3 (b : list byte) : outcome Int :=
  idx b 2;;
  lo ← beUint b 1 3; hi ← at_ b 0; let top := Z.lor lo (shl64 hi 16) in
  Ok (mkInt top 0 0 0).
Definition SetBytes4 (b : list byte) : outcome Int :=
  idx b 3;;
  top ← beUint b 0 4;
  Ok (mkInt top 0 0 0).
Definition SetBytes5 (b : list byte) : outcome Int :=
  idx b 4;;
  s ← slc b 0 5; top ← bigEndianUint40 s;
  Ok (mkInt top 0 0 0).
Definition SetBytes6 (b : list byte) : outcome Int :=
  idx b 5;;
  s ← slc b 0 6; top ← bigEndianUint48 s;
  Ok (mkInt top 0 0 0).
Definition SetBytes7 (b : list byte) : outcome Int :=
  idx b 6;;
  s ← slc b 0 7; top ← bigEndianUint56 s;
  Ok (mkInt top 0 0 0).
Definition SetBytes8 (b : list byte) : outcome Int :=
  idx b 7;;
  v0 ← beUint b 0 8;
  Ok (mkInt v0 0 0 0).
Definition SetBytes9 (b : list byte) : outcome Int :=
  idx b 8;;
  top ← at_ b 0;
  v0 ← beUint b 1 9;
  Ok (mkInt v0 top 0 0).
Definition SetBytes10 (b : list byte) : outcome Int :=
  idx b 9;;
  top ← beUint b 0 2;
  v0 ← beUint b 2 10;
  Ok (mkInt v0 top 0 0).
Definition SetBytes11 (b : list byte) : outcome Int :=
  idx b 10;;
  lo ← beUint b 1 3; hi ← at_ b 0; let top := Z.lor lo (shl64 hi 16) in
  v0 ← beUint b 3 11;
  Ok (mkInt v0 top 0 0).
Definition SetBytes12 (b : list byte) : outcome Int :=
  idx b 11;;
  top ← beUint b 0 4;
  v0 ← beUint b 4 12;
  Ok (mkInt v0 top 0 0).
Definition SetBytes13 (b : list byte) : outcome Int :=
  idx b 12;;
  s ← slc b 0 5; top ← bigEndianUint40 s;
  v0 ← beUint b 5 13;
  Ok (mkInt v0 top 0 0).
Definition SetBytes14 (b : list byte) : outcome Int :=
  idx b 13;;
  s ← slc b 0 6; top ← bigEndianUint48 s;
  v0 ← beUint b 6 14;
  Ok (mkInt v0 top 0 0).
Definition SetBytes15 (b : list byte) : outcome Int :=
  idx b 14;;
  s ← slc b 0 7; top ← bigEndianUint56 s;
  v0 ← beUint b 7 15;
  Ok (mkInt v0 top 0 0).
Definition SetBytes16 (b : list byte) : outcome Int :=
  idx b 15;;
  v0 ← beUint b 0 8;
  v1 ← beUint b 8 16;
  Ok (mkInt v1 v0 0 0).
Definition SetBytes17 (b : list byte) : outcome Int :=
  idx b 16;;
  top ← at_ b 0;
  v0 ← beUint b 1 9;
  v1 ← beUint b 9 17;
  Ok (mkInt v1 v0 top 0).
Definition SetBytes18 (b : list byte) : outcome Int :=
  idx b 17;;
  top ← beUint b 0 2;
  v0 ← beUint b 2 10;
  v1 ← beUint b 10 18;
  Ok (mkInt v1 v0 top 0).
Definition SetBytes19 (b : list byte) : outcome Int :=
  idx b 18;;
  lo ← beUint b 1 3; hi ← at_ b 0; let top := Z.lor lo (shl64 hi 16) in
  v0 ← beUint b 3 11;
  v1 ← beUint b 11 19;
  Ok (mkInt v1 v0 top 0).
Definition SetBytes20 (b : list byte) : outcome Int :=
  idx b 19;;
  top ← beUint b 0 4;
  v0 ← beUint b 4 12;
  v1 ← beUint b 12 20;
  Ok (mkInt v1 v0 top 0).
Definition SetBytes21 (b : list byte) : outcome Int :=
  idx b 20;;
  s ← slc b 0 5; top ← bigEndianUint40 s;
  v0 ← beUint b 5 13;
  v1 ← beUint b 13 21;
  Ok (mkInt v1 v0 top 0).
Definition SetBytes22 (b : list byte) : outcome Int :=
  idx b 21;;
  s ← slc b 0 6; top ← bigEndianUint48 s;
  v0 ← beUint b 6 14;
  v1 ← beUint b 14 22;
  Ok (mkInt v1 v0 top 0).
Definition SetBytes23 (b : list byte) : outcome Int :=
  idx b 22;;
  s ← slc b 0 7; top ← bigEndianUint56 s;
  v0 ← beUint b 7 15;
  v1 ← beUint b 15 23;
  Ok (mkInt v1 v0 top 0).
Definition SetBytes24 (b : list byte) : outcome Int :=
  idx b 23;;
  v0 ← beUint b 0 8;
  v1 ← beUint b 8 16;
  v2 ← beUint b 16 24;
  Ok (mkInt v2 v1 v0 0).
Definition SetBytes25 (b : list byte) : outcome Int :=
  idx b 24;;
  top ← at_ b 0;
  v0 ← beUint b 1 9;
  v1 ← beUint b 9 17;
  v2 ← beUint b 17 25;
  Ok (mkInt v2 v1 v0 top).
Definition SetBytes26 (b : list byte) : outcome Int :=
  idx b 25;;
  top ← beUint b 0 2;
  v0 ← beUint b 2 10;
  v1 ← beUint b 10 18;
  v2 ← beUint b 18 26;
  Ok (mkInt v2 v1 v0 top).
Definition SetBytes27 (b : list byte) : outcome Int :=
  idx b 26;;
  lo ← beUint b 1 3; hi ← at_ b 0; let top := Z.lor lo (shl64 hi 16) in
  v0 ← beUint b 3 11;
  v1 ← beUint b 11 19;
  v2 ← beUint b 19 27;
  Ok (mkInt v2 v1 v0 top).
Definition SetBytes28 (b : list byte) : outcome Int :=
  idx b 27;;
  top ← beUint b 0 4;
  v0 ← beUint b 4 12;
  v1 ← beUint b 12 20;
  v2 ← beUint b 20 28;
  Ok (mkInt v2 v1 v0 top).
Definition SetBytes29 (b : list byte) : outcome Int :=
  idx b 23;;
  s ← slc b 0 5; top ← bigEndianUint40 s;
  v0 ← beUint b 5 13;
  v1 ← beUint b 13 21;
  v2 ← beUint b 21 29;
  Ok (mkInt v2 v1 v0 top).
Definition SetBytes30 (b : list byte) : outcome Int :=
  idx b 29;;
  s ← slc b 0 6; top ← bigEndianUint48 s;
  v0 ← beUint b 6 14;
  v1 ← beUint b 14 22;
  v2 ← beUint b 22 30;
  Ok (mkInt v2 v1 v0 top).
Definition SetBytes31 (b : list byte) : outcome Int :=
  idx b 30;;
  s ← slc b 0 7; top ← bigEndianUint56 s;
  v0 ← beUint b 7 15;
  v1 ← beUint b 15 23;
  v2 ← beUint b 23 31;
  Ok (mkInt v2 v1 v0 top).
Definition SetBytes32 (b : list byte) : outcome Int :=
  idx b 31;;
  v0 ← beUint b 0 8;
  v1 ← beUint b 8 16;
  v2 ← beUint b 16 24;
  v3 ← beUint b 24 32;
  Ok (mkInt v3 v2 v1 v0).

Definition SetBytes (buf : list byte) : outcome Int :=
  match length buf with
  | 0 => Ok Clear
  | 1 => SetBytes1 buf
  | 2 => SetBytes2 buf
  | 3 => SetBytes3 buf
  | 4 => SetBytes4 buf
  | 5 => SetBytes5 buf
  | 6 => SetBytes6 buf
  | 7 => SetBytes7 buf
  | 8 => SetBytes8 buf
  | 9 => SetBytes9 buf
  | 10 => SetBytes10 buf
  | 11 => SetBytes11 buf
  | 12 => SetBytes12 buf
  | 13 => SetBytes13 buf
  | 14 => SetBytes14 buf
  | 15 => SetBytes15 buf
  | 16 => SetBytes16 buf
  | 17 => SetBytes17 buf
  | 18 => SetBytes18 buf
  | 19 => SetBytes19 buf
  | 20 => SetBytes20 buf
  | 21 => SetBytes21 buf
  | 22 => SetBytes22 buf
  | 23 => SetBytes23 buf
  | 24 => SetBytes24 buf
  | 25 => SetBytes25 buf
  | 26 => SetBytes26 buf
  | 27 => SetBytes27 buf
  | 28 => SetBytes28 buf
  | 29 => SetBytes29 buf
  | 30 => SetBytes30 buf
  | 31 => SetBytes31 buf
  | l => s ← slc buf (l - 32) l; SetBytes32 s
  end%nat.

(** ** big.Int *)

(** [b.Bits()]: the words of the absolute value, without leading zeros. *)
Definition bigBits (b : Z) : list Z :=
  let n := Z.abs b in map (fun i => n / B64 ^ Z.of_nat i mod B64) (seq 0 (Z.to_nat (((if Z.eqb n 0 then 0 else Z.log2 n + 1) + 63) / 64))).
(** [SetBits] *)
Definition bigSetBits (l : list Z) : Z := foldr (fun w acc => w + B64 * acc) 0 l.
Definition ToBig (z : Int) : Z := bigSetBits (words z).
Definition SetFromBig (b : Z) : Int * bool :=
  let ws := bigBits b in
  let z := ofWords ws in
  (if Z.ltb b 0 then Neg z else z, Nat.ltb 4 (length ws)).
Definition FromBig (b : Z) : Int * bool := SetFromBig b.

(** ** Hexadecimal strings *)

Definition ErrEmptyString : error := Sentinel "ErrEmptyString".
Definition ErrSyntax : error := Sentinel "ErrSyntax".
Definition ErrMissingPrefix : error := Sentinel "ErrMissingPrefix".
Definition ErrEmptyNumber : error := Sentinel "ErrEmptyNumber".
Definition ErrLeadingZero : error := Sentinel "ErrLeadingZero".
Definition ErrBig256Range : error := Sentinel "ErrBig256Range".
Definition ErrNonString : error := Sentinel "ErrNonString".

Definition checkNumberS (input : list byte) : option error :=
  match input with
  | [] => Some ErrEmptyString
  | c0 :: rest =>
      match rest with
      | [] => Some ErrMissingPrefix
      | c1 :: rest =>
          if negb (bool_decide (c0 = "0"%byte)) || (negb (bool_decide (c1 = "x"%byte)) && negb (bool_decide (c1 = "X"%byte))) then Some ErrMissingPrefix
          else match rest with
               | [] => Some ErrEmptyNumber
               | c2 :: rest => match rest with [] => None | _ :: _ => if bool_decide (c2 = "0"%byte) then Some ErrLeadingZero else None end
               end
      end
  end.
(** [bintable]: the value of a digit, none where the table holds [badNibble]. *)
Definition bintable (c : byte) : option Z :=
  let z := Zb c in
  if Z.leb 48 z && Z.leb z 57 then Some (z - 48)
  else if Z.leb 97 z && Z.leb z 102 then Some (z - 87)
  else if Z.leb 65 z && Z.leb z 70 then Some (z - 55)
  else None.
(** The digits of one word, read into it from the left. *)
Fixpoint readWord (digits : list byte) (w : Z) : outcome Z :=
  match digits with
  | [] => Ok w
  | c :: digits =>
      match bintable c with
      | None => Fail ErrSyntax
      | Some nib => readWord digits (u64 (shl64 w 4 + nib))
      end
  end.
(** [fromHex] into [z]: the words from the end of the string on, sixteen digits each.
    The words of [z] are not cleared before, and those written before an error stay;
    the callers drop [z] then. *)
Definition fromHex (z : Int) (hex : list byte) : outcome Int :=
  match checkNumberS hex with
  | Some e => Fail e
  | None =>
      if Nat.ltb 66 (length hex) then Fail ErrBig256Range
      else
        let e0 := length hex in let s0 := Nat.max (e0 - 16) 2 in
        let s1 := Nat.max (s0 - 16) 2 in let s2 := Nat.max (s1 - 16) 2 in let s3 := Nat.max (s2 - 16) 2 in
        let digits i j := take (j - i) (drop i hex) in
        z0 ← readWord (digits s0 e0) (w0 z);
        z1 ← readWord (digits s1 s0) (w1 z);
        z2 ← readWord (digits s2 s1) (w2 z);
        z3 ← readWord (digits s3 s2) (w3 z);
        Ok (mkInt z0 z1 z2 z3)
  end.
Definition FromHex (hex : list byte) : outcome Int := fromHex Clear hex.
Definition UnmarshalText (z : Int) (input : list byte) : outcome Int := fromHex z input.
(** [UnmarshalJSON]: a quoted text. *)
Definition UnmarshalJSON (z : Int) (input : list byte) : outcome Int :=
  if Z.ltb (len input) 2 || negb (bool_decide (head input = Some Byte.x22)) || negb (bool_decide (last input = Some Byte.x22)) then Fail ErrNonString
  else UnmarshalText z (take (length input - 2) (drop 1 input)).

(** [hextable] *)
Definition hexDigit (n : Z) : byte := bZ (if Z.ltb n 10 then n + 48 else n + 87).
(** The sixteen digits of a word: [hextable[byte(z[i]>>60)&0xf]], ... *)
Definition hexWord (w : Z) : list byte := map (fun i => hexDigit (Z.land (u8 (shr64 w (4 * i))) 0xf)) (rev (seqZ 0 16)).
Definition Hex (z : Int) : list byte :=
  let nibbles := Z.max 1 ((BitLen z + 3) / 4) in
  let zWord := (nibbles - 1) / 16 in
  let out i := if Z.leb i zWord then hexWord (word z i) else replicate 16 Byte.x00 in
  let output := [Byte.x00; Byte.x00] ++ out 3 ++ out 2 ++ out 1 ++ out 0 in
  let output := <[Z.to_nat (65 - nibbles) := "x"%byte]> (<[Z.to_nat (64 - nibbles) := "0"%byte]> output) in
  drop (Z.to_nat (64 - nibbles)) output.
Definition MarshalText (z : Int) : list byte := Hex z.
Definition String (z : Int) : list byte := Hex z.

(** [EncodeRLP] of a non-nil number. *)
Definition EncodeRLP (z : Int) : list byte :=
  let nBits := BitLen z in
  if Z.eqb nBits 0 then [Byte.x80]
  else if Z.leb nBits 7 then [bZ (w0 z)]
  else
    let nBytes := u8 ((nBits + 7) / 8) in
    let b := Byte.x00 :: be_bytes 8 (w3 z) ++ be_bytes 8 (w2 z) ++ be_bytes 8 (w1 z) ++ be_bytes 8 (w0 z) in
    drop (Z.to_nat (32 - nBytes)) (<[Z.to_nat (32 - nBytes) := bZ (0x80 + nBytes)]> b).

End U256.
