(* ===== verification/Uint256Spec.v ===== *)
(** The arithmetic of uint256.go on four words is arithmetic modulo 2^256: addition,
    subtraction, multiplication, exponentiation, comparisons, shifts and the bitwise
    operations.  Division is in Uint256Div. *)

From S2P Require Import Prelude Common Uint256.
Import U256.

(** * Words *)

Lemma B64_val : B64 = 18446744073709551616.
Proof. reflexivity. Qed.

Lemma MaxUint64_val : MaxUint64 = 18446744073709551615.
Proof. reflexivity. Qed.

(** Opens the ranges of words for [lia]. *)
Ltac words_lia := unfold is_u64 in *; rewrite ?B64_val, ?MaxUint64_val in *; change (2 ^ 64) with 18446744073709551616 in *; lia.

Lemma u64_spec z : exists k, z = u64 z + B64 * k.
Proof. exists (z / B64). unfold u64, B64. pose proof (Z.div_mod z (2 ^ 64)). lia. Qed.

Lemma Add64_spec x y c : is_u64 x -> is_u64 y -> 0 <= c <= 1 ->
  exists s k, Add64 x y c = (s, k) /\ x + y + c = s + B64 * k /\ is_u64 s /\ 0 <= k <= 1.
Proof.
  intros Hx Hy Hc. eexists _, _. split; [reflexivity|]. unfold u64, B64. pose proof (Z.div_mod (x + y + c) (2 ^ 64)).
  pose proof (Z.mod_pos_bound (x + y + c) (2 ^ 64)). split; [lia|]. split; [words_lia|]. words_lia.
Qed.

Lemma Sub64_spec x y c : is_u64 x -> is_u64 y -> 0 <= c <= 1 ->
  exists s k, Sub64 x y c = (s, k) /\ x - y - c = s - B64 * k /\ is_u64 s /\ 0 <= k <= 1.
Proof.
  intros Hx Hy Hc. eexists _, _. split; [reflexivity|]. unfold u64, B64. pose proof (Z.div_mod (x - y - c) (2 ^ 64)).
  pose proof (Z.mod_pos_bound (x - y - c) (2 ^ 64)). destruct (Z.ltb_spec (x - y - c) 0); split; words_lia.
Qed.

Lemma Mul64_spec x y : is_u64 x -> is_u64 y ->
  exists hi lo, Mul64 x y = (hi, lo) /\ x * y = hi * B64 + lo /\ is_u64 lo /\ 0 <= hi <= B64 - 2.
Proof.
  intros Hx Hy. eexists _, _. split; [reflexivity|]. unfold u64, B64. pose proof (Z.div_mod (x * y) (2 ^ 64)).
  pose proof (Z.mod_pos_bound (x * y) (2 ^ 64)). split; [lia|]. split; [words_lia|].
  assert (0 <= x * y <= (2 ^ 64 - 1) * (2 ^ 64 - 1)) by (unfold is_u64 in *; nia). split; [apply Z.div_pos; lia|].
  assert (x * y / 2 ^ 64 < 2 ^ 64 - 1); [|lia]. apply Z.div_lt_upper_bound; lia.
Qed.

(** One step of a chain of carries, borrows or products. *)
Ltac word_step :=
  match goal with
  | |- context [Add64 ?x ?y ?c] =>
      let s := fresh "s" in let k := fresh "k" in let E := fresh "E" in
      destruct (Add64_spec x y c) as (s & k & E & ? & ? & ?); [words_lia..|rewrite E; clear E; cbv beta iota]
  | |- context [Sub64 ?x ?y ?c] =>
      let s := fresh "s" in let k := fresh "k" in let E := fresh "E" in
      destruct (Sub64_spec x y c) as (s & k & E & ? & ? & ?); [words_lia..|rewrite E; clear E; cbv beta iota]
  | |- context [Mul64 ?x ?y] =>
      let s := fresh "hi" in let k := fresh "lo" in let E := fresh "E" in
      destruct (Mul64_spec x y) as (s & k & E & ? & ? & ?); [words_lia..|rewrite E; clear E; cbv beta iota]
  end.

Lemma umulStep_spec z x y c : is_u64 z -> is_u64 x -> is_u64 y -> is_u64 c ->
  exists hi lo, umulStep z x y c = (hi, lo) /\ z + x * y + c = hi * B64 + lo /\ is_u64 lo /\ is_u64 hi.
Proof.
  intros Hz Hx Hy Hc. unfold umulStep. repeat word_step. eexists _, _. split; [reflexivity|].
  assert (x * y <= (B64 - 1) * (B64 - 1)) by (unfold is_u64, B64 in *; nia). split; words_lia.
Qed.

Lemma umulHop_spec z x y : is_u64 z -> is_u64 x -> is_u64 y ->
  exists hi lo, umulHop z x y = (hi, lo) /\ z + x * y = hi * B64 + lo /\ is_u64 lo /\ is_u64 hi.
Proof.
  intros Hz Hx Hy. unfold umulHop. repeat word_step. eexists _, _. split; [reflexivity|].
  assert (x * y <= (B64 - 1) * (B64 - 1)) by (unfold is_u64, B64 in *; nia). split; words_lia.
Qed.

(** * Integers *)

Definition M256 : Z := 2 ^ 256.

Lemma M256_val : M256 = B64 * B64 * B64 * B64.
Proof. reflexivity. Qed.

Ltac open_wf := repeat match goal with H : wf _ |- _ => let a := fresh in let b := fresh in let c := fresh in let d := fresh in destruct H as (a & b & c & d) end.
Ltac int_lia := unfold toZ; cbn [w0 w1 w2 w3] in *; rewrite ?M256_val in *; words_lia.

Lemma toZ_range x : wf x -> 0 <= toZ x < M256.
Proof. intros Hx. open_wf. int_lia. Qed.

Lemma toZ_inj x y : wf x -> wf y -> toZ x = toZ y -> x = y.
Proof. destruct x as [x0 x1 x2 x3], y as [y0 y1 y2 y3]. intros Hx Hy. open_wf. cbn [w0 w1 w2 w3] in *. intros E. f_equal; revert E; int_lia. Qed.

(** A value that is congruent and in range is the remainder. *)
Lemma mod256 r z k : 0 <= r < M256 -> z = r + M256 * k -> r = z mod M256.
Proof. intros Hr ->. symmetry. replace (r + M256 * k) with (r + k * M256) by ring. rewrite Z_mod_plus_full. by apply Z.mod_small. Qed.

(** The result is well-formed and congruent to the exact value. *)
Definition is256 (r : Int) (z : Z) : Prop := wf r /\ toZ r = z mod M256.

Lemma is256_intro r z k : wf r -> z = toZ r + M256 * k -> is256 r z.
Proof. intros Hw E. split; [done|]. eapply mod256; [by apply toZ_range|done]. Qed.

Lemma is256_small r z : is256 r z -> 0 <= z < M256 -> toZ r = z.
Proof. intros [_ ->] ?. by apply Z.mod_small. Qed.

Ltac wf_done := unfold wf; cbn [Clear SetOne SetAllOne w0 w1 w2 w3]; split_and!; words_lia.

Lemma wf_Clear : wf Clear.
Proof. wf_done. Qed.
Lemma wf_SetOne : wf SetOne.
Proof. wf_done. Qed.
Lemma wf_SetAllOne : wf SetAllOne.
Proof. wf_done. Qed.
Lemma wf_SetUint64 x : is_u64 x -> wf (SetUint64 x).
Proof. intros. unfold SetUint64. wf_done. Qed.
Lemma toZ_SetUint64 x : toZ (SetUint64 x) = x.
Proof. unfold toZ. cbn [SetUint64 w0 w1 w2 w3]. lia. Qed.

Lemma AddOverflow_spec x y : wf x -> wf y -> exists r c, AddOverflow x y = (r, c) /\ wf r /\ toZ x + toZ y = toZ r + M256 * (if c : bool then 1 else 0).
Proof.
  intros Hx Hy. open_wf. unfold AddOverflow. repeat word_step. eexists _, _. split; [reflexivity|]. split; [wf_done|].
  destruct (Z.eqb_spec k2 0); cbn [negb]; int_lia.
Qed.

Lemma Add_AddOverflow x y : Add x y = fst (AddOverflow x y).
Proof. reflexivity. Qed.

Lemma Add_is256 x y : wf x -> wf y -> is256 (Add x y) (toZ x + toZ y).
Proof. intros Hx Hy. rewrite Add_AddOverflow. destruct (AddOverflow_spec x y Hx Hy) as (r & c & -> & Hr & E). by eapply is256_intro. Qed.

Lemma AddUint64_is256 x y : wf x -> is_u64 y -> is256 (AddUint64 x y) (toZ x + y).
Proof.
  intros Hx Hy. open_wf. unfold AddUint64. repeat word_step. apply (is256_intro _ _ k2); [wf_done|int_lia].
Qed.

Lemma SubOverflow_spec x y : wf x -> wf y -> exists r c, SubOverflow x y = (r, c) /\ wf r /\ toZ x - toZ y = toZ r - M256 * (if c : bool then 1 else 0).
Proof.
  intros Hx Hy. open_wf. unfold SubOverflow. repeat word_step. eexists _, _. split; [reflexivity|]. split; [wf_done|].
  destruct (Z.eqb_spec k2 0); cbn [negb]; int_lia.
Qed.

Lemma Sub_is256 x y : wf x -> wf y -> is256 (Sub x y) (toZ x - toZ y).
Proof.
  intros Hx Hy. change (Sub x y) with (fst (SubOverflow x y)). destruct (SubOverflow_spec x y Hx Hy) as (r & c & -> & Hr & E).
  apply (is256_intro _ _ (- (if c then 1 else 0))); [done|]. cbn [fst]. lia.
Qed.

Lemma SubUint64_is256 x y : wf x -> is_u64 y -> is256 (SubUint64 x y) (toZ x - y).
Proof.
  intros Hx Hy. open_wf. unfold SubUint64. repeat word_step. apply (is256_intro _ _ (- k2)); [wf_done|int_lia].
Qed.

Lemma Neg_is256 x : wf x -> is256 (Neg x) (- toZ x).
Proof. intros Hx. unfold Neg. replace (- toZ x) with (toZ Clear - toZ x) by (change (toZ Clear) with 0; lia). apply Sub_is256; [apply wf_Clear|done]. Qed.

Lemma Lt_spec z x : wf z -> wf x -> Lt z x = Z.ltb (toZ z) (toZ x).
Proof.
  intros Hz Hx. change (Lt z x) with (snd (SubOverflow z x)). destruct (SubOverflow_spec z x Hz Hx) as (r & c & -> & Hr & E).
  pose proof (toZ_range r Hr). cbn [snd]. destruct c, (Z.ltb_spec (toZ z) (toZ x)); lia.
Qed.

Lemma Gt_spec z x : wf z -> wf x -> Gt z x = Z.ltb (toZ x) (toZ z).
Proof. intros Hz Hx. by apply Lt_spec. Qed.

Lemma Eq_spec z x : wf z -> wf x -> Eq z x = Z.eqb (toZ z) (toZ x).
Proof.
  intros Hz Hx. apply eq_true_iff_eq. unfold Eq. rewrite !andb_true_iff, !Z.eqb_eq. split.
  - intros [[[? ?] ?] ?]. unfold toZ. congruence.
  - intros E. apply toZ_inj in E as ->; auto.
Qed.

Lemma lor_zero a b : Z.eqb (Z.lor a b) 0 = Z.eqb a 0 && Z.eqb b 0.
Proof. apply eq_true_iff_eq. rewrite andb_true_iff, !Z.eqb_eq. apply Z.lor_eq_0_iff. Qed.

Lemma IsZero_spec z : wf z -> IsZero z = Z.eqb (toZ z) 0.
Proof.
  intros Hz. open_wf. unfold IsZero. rewrite !lor_zero. apply eq_true_iff_eq. rewrite !andb_true_iff, !Z.eqb_eq. unfold toZ. words_lia.
Qed.

Lemma high_zero z : wf z -> Z.eqb (Z.lor (Z.lor (w1 z) (w2 z)) (w3 z)) 0 = Z.ltb (toZ z) B64.
Proof.
  intros Hz. open_wf. rewrite !lor_zero. apply eq_true_iff_eq. rewrite !andb_true_iff, !Z.eqb_eq, Z.ltb_lt. unfold toZ. words_lia.
Qed.

Lemma IsUint64_spec z : wf z -> IsUint64 z = Z.ltb (toZ z) B64.
Proof. apply high_zero. Qed.

Lemma toZ_IsUint64 z : wf z -> toZ z < B64 -> toZ z = w0 z.
Proof. intros Hz. open_wf. unfold toZ. words_lia. Qed.

Lemma Uint64WithOverflow_spec z : wf z -> Uint64WithOverflow z = (toZ z mod B64, Z.leb B64 (toZ z)).
Proof.
  intros Hz. unfold Uint64WithOverflow. rewrite high_zero by done. f_equal.
  - unfold toZ. rewrite Z.add_comm, Z.mul_comm, Z_mod_plus_full || rewrite (Z.mul_comm B64), Z_mod_plus_full.
    all: open_wf; symmetry; apply Z.mod_small; done.
  - destruct (Z.ltb_spec (toZ z) B64), (Z.leb_spec B64 (toZ z)); done || lia.
Qed.

Lemma Cmp_spec z x : wf z -> wf x -> Cmp z x = match Z.compare (toZ z) (toZ x) with Datatypes.Lt => -1 | Datatypes.Eq => 0 | Datatypes.Gt => 1 end.
Proof.
  intros Hz Hx. unfold Cmp. rewrite Gt_spec, Lt_spec by done.
  destruct (Z.compare_spec (toZ z) (toZ x)), (Z.ltb_spec (toZ x) (toZ z)), (Z.ltb_spec (toZ z) (toZ x)); done || lia.
Qed.

Lemma LtUint64_spec z n : wf z -> is_u64 n -> LtUint64 z n = Z.ltb (toZ z) n.
Proof.
  intros Hz Hn. unfold LtUint64. rewrite high_zero by done. destruct (Z.ltb_spec (toZ z) B64) as [Hs|Hs].
  - rewrite (toZ_IsUint64 z) by done. by rewrite andb_true_r.
  - rewrite andb_false_r. symmetry. apply Z.ltb_ge. words_lia.
Qed.

Lemma GtUint64_spec z n : wf z -> is_u64 n -> GtUint64 z n = Z.ltb n (toZ z).
Proof.
  intros Hz Hn. unfold GtUint64. rewrite high_zero by done. destruct (Z.ltb_spec (toZ z) B64) as [Hs|Hs].
  - rewrite (toZ_IsUint64 z) by done. by rewrite orb_false_r.
  - rewrite orb_true_r. symmetry. apply Z.ltb_lt. words_lia.
Qed.

(** * Multiplication *)

Ltac mul_step :=
  match goal with
  | |- context [umulStep ?z ?x ?y ?c] =>
      let s := fresh "hi" in let k := fresh "lo" in let E := fresh "E" in
      destruct (umulStep_spec z x y c) as (s & k & E & ? & ? & ?); [words_lia..|rewrite E; clear E; cbv beta iota]
  | |- context [umulHop ?z ?x ?y] =>
      let s := fresh "hi" in let k := fresh "lo" in let E := fresh "E" in
      destruct (umulHop_spec z x y) as (s & k & E & ? & ? & ?); [words_lia..|rewrite E; clear E; cbv beta iota]
  | _ => word_step
  end.
Ltac open_u64 :=
  repeat match goal with
  | |- context [u64 ?z] => let r := fresh "r" in let k := fresh "k" in
      destruct (u64_spec z) as [k ?]; pose proof (u64_range z); set (r := u64 z) in *; clearbody r
  | _ : context [u64 ?z] |- _ => let r := fresh "r" in let k := fresh "k" in
      destruct (u64_spec z) as [k ?]; pose proof (u64_range z); set (r := u64 z) in *; clearbody r
  end.

(** The number that a list of words stands for. *)
Definition val (l : list Z) : Z := foldr (fun w acc => w + B64 * acc) 0 l.

Lemma val_words x : val (words x) = toZ x.
Proof. unfold val, words, toZ. cbn [foldr]. lia. Qed.

Lemma umul_spec x y : wf x -> wf y -> Forall is_u64 (umul x y) /\ length (umul x y) = 8%nat /\ val (umul x y) = toZ x * toZ y.
Proof.
  intros Hx Hy. open_wf. unfold umul. repeat mul_step. split; [repeat constructor; words_lia|]. split; [done|].
  unfold val, toZ. cbn [foldr]. rewrite B64_val in *. lia.
Qed.

Lemma Mul_is256 x y : wf x -> wf y -> is256 (Mul x y) (toZ x * toZ y).
Proof.
  intros Hx Hy. open_wf. unfold Mul. repeat mul_step. open_u64.
  match goal with |- is256 ?r _ => assert (wf r) by wf_done end.
  assert (Hk : exists k, toZ x * toZ y = w0 x * w0 y + B64 * (w1 x * w0 y + w0 x * w1 y) + B64 * B64 * (w2 x * w0 y + w1 x * w1 y + w0 x * w2 y)
    + B64 * B64 * B64 * (w3 x * w0 y + w2 x * w1 y + w1 x * w2 y + w0 x * w3 y) + M256 * k).
  { exists ((w3 x * w1 y + w2 x * w2 y + w1 x * w3 y) + B64 * (w3 x * w2 y + w2 x * w3 y) + B64 * B64 * (w3 x * w3 y)). rewrite M256_val. unfold toZ. ring. }
  destruct Hk as [K HK]. rewrite HK. apply (is256_intro _ _ (K + k + k0 + k1 + k2)); [done|].
  rewrite M256_val in *. unfold toZ. cbn [w0 w1 w2 w3]. rewrite B64_val in *. lia.
Qed.

Lemma squared_is256 x : wf x -> is256 (squared x) (toZ x * toZ x).
Proof.
  intros Hx. open_wf. unfold squared. repeat mul_step. open_u64.
  match goal with |- is256 ?r _ => assert (wf r) by wf_done end.
  assert (Hk : exists k, toZ x * toZ x = w0 x * w0 x + B64 * (2 * (w0 x * w1 x)) + B64 * B64 * (2 * (w0 x * w2 x) + w1 x * w1 x)
    + B64 * B64 * B64 * (2 * (w0 x * w3 x + w1 x * w2 x)) + M256 * k).
  { exists ((2 * (w1 x * w3 x) + w2 x * w2 x) + B64 * (2 * (w2 x * w3 x)) + B64 * B64 * (w3 x * w3 x)). rewrite M256_val. unfold toZ. ring. }
  destruct Hk as [K HK]. rewrite HK. apply (is256_intro _ _ (K + k)); [done|].
  rewrite M256_val in *. unfold toZ. cbn [w0 w1 w2 w3]. rewrite B64_val in *. lia.
Qed.

Lemma squared_Mul x : wf x -> squared x = Mul x x.
Proof.
  intros Hx. destruct (squared_is256 x Hx) as [H1 E1]. destruct (Mul_is256 x x Hx Hx) as [H2 E2]. apply toZ_inj; congruence.
Qed.

Lemma val_cons w l : val (w :: l) = w + B64 * val l.
Proof. reflexivity. Qed.

Lemma val_app l k : val (l ++ k) = val l + B64 ^ len l * val k.
Proof.
  induction l as [|w l IH]; [cbn [app val foldr]; unfold len; simpl length; rewrite Z.pow_0_r; unfold val; lia|].
  cbn [app]. rewrite !val_cons, IH. replace (len (w :: l)) with (1 + len l) by (unfold len; simpl length; lia).
  rewrite Z.pow_add_r, Z.pow_1_r by (unfold len; lia). ring.
Qed.

Lemma val_range l : Forall is_u64 l -> 0 <= val l < B64 ^ len l.
Proof.
  induction 1 as [|w l Hw Hl IH]; [done|]. rewrite val_cons. replace (len (w :: l)) with (1 + len l) by (unfold len; simpl length; lia).
  rewrite Z.pow_add_r, Z.pow_1_r by (unfold len; lia). unfold is_u64 in Hw. change (2 ^ 64) with B64 in Hw. nia.
Qed.

Lemma val_ofWords l : Forall is_u64 l -> length l = 4%nat -> wf (ofWords l) /\ toZ (ofWords l) = val l.
Proof.
  intros Hl. destruct l as [|a [|b [|c [|d [|]]]]]; try done. intros _. inversion_clear Hl as [|? ? Ha Hl']. inversion_clear Hl' as [|? ? Hb Hl].
  inversion_clear Hl as [|? ? Hc Hl']. inversion_clear Hl' as [|? ? Hd _]. split; [done|]. unfold toZ, val. cbn. lia.
Qed.

Lemma lor_list_zero l : Z.eqb (foldr Z.lor 0 l) 0 = forallb (fun w => Z.eqb w 0) l.
Proof. induction l as [|w l IH]; [done|]. cbn [foldr forallb]. by rewrite lor_zero, IH. Qed.

Lemma val_zero l : Forall is_u64 l -> forallb (fun w => Z.eqb w 0) l = Z.eqb (val l) 0.
Proof.
  induction 1 as [|w l Hw Hl IH]; [done|]. cbn [forallb]. rewrite val_cons, IH. pose proof (val_range l Hl). apply eq_true_iff_eq.
  rewrite andb_true_iff, !Z.eqb_eq. words_lia.
Qed.

(** The high and the low half of a product. *)
Lemma umul_halves x y : wf x -> wf y -> let p := umul x y in
  wf (ofWords (take 4 p)) /\ wf (ofWords (drop 4 p)) /\ toZ x * toZ y = toZ (ofWords (take 4 p)) + M256 * toZ (ofWords (drop 4 p))
  /\ Forall is_u64 (drop 4 p) /\ toZ (ofWords (drop 4 p)) = val (drop 4 p).
Proof.
  intros Hx Hy p. destruct (umul_spec x y Hx Hy) as (Hp & Hl & Hv). fold p in Hp, Hl, Hv.
  destruct (val_ofWords (take 4 p)) as [Hw1 E1]; [by apply Forall_take|rewrite length_take; lia|].
  destruct (val_ofWords (drop 4 p)) as [Hw2 E2]; [by apply Forall_drop|rewrite length_drop; lia|].
  assert (Ev : val p = val (take 4 p) + M256 * val (drop 4 p)).
  { rewrite <- (take_drop 4 p) at 1. rewrite val_app. unfold len. by rewrite length_take, Hl. }
  rewrite <- Hv, E1, E2. split; [exact Hw1|]. split; [exact Hw2|]. split; [exact Ev|]. split; [by apply Forall_drop|reflexivity].
Qed.

Lemma MulOverflow_spec x y : wf x -> wf y -> exists r c, MulOverflow x y = (r, c) /\ is256 r (toZ x * toZ y) /\ c = Z.leb M256 (toZ x * toZ y).
Proof.
  intros Hx Hy. pose proof (umul_halves x y Hx Hy) as (Hw1 & Hw2 & E & Hf & Ev). cbv zeta in *. eexists _, _. split; [reflexivity|].
  split; [by eapply is256_intro|]. rewrite lor_list_zero, val_zero, <- Ev by done. pose proof (toZ_range _ Hw1). pose proof (toZ_range _ Hw2).
  rewrite E. destruct (Z.eqb_spec (toZ (ofWords (drop 4 (umul x y)))) 0); cbn [negb]; symmetry; [apply Z.leb_gt|apply Z.leb_le]; nia.
Qed.

(** * Exponentiation *)

Lemma is256_Mul a b x y : is256 a x -> is256 b y -> is256 (Mul a b) (x * y).
Proof.
  intros [Ha Ea] [Hb Eb]. destruct (Mul_is256 a b Ha Hb) as [Hw E]. split; [done|]. rewrite E, Ea, Eb. symmetry. apply Z.mul_mod. done.
Qed.

Lemma Len64_spec x : is_u64 x -> 0 <= Len64 x <= 64 /\ x < 2 ^ Len64 x /\ (x <> 0 -> 2 ^ (Len64 x - 1) <= x).
Proof.
  intros Hx. unfold Len64. destruct (Z.eqb_spec x 0) as [->|Hn]; [done|]. unfold is_u64 in Hx.
  destruct (Z.log2_spec x ltac:(lia)) as [H1 H2]. pose proof (Z.log2_nonneg x). assert (Z.log2 x < 64) by (apply Z.log2_lt_pow2; lia).
  replace (Z.succ (Z.log2 x)) with (Z.log2 x + 1) in H2 by lia. replace (Z.log2 x + 1 - 1) with (Z.log2 x) by lia. lia.
Qed.

Lemma expLoop_spec n : forall word res m r b, 0 <= word -> is256 res r -> is256 m b ->
  is256 (fst (expLoop n word res m)) (r * b ^ (word mod 2 ^ Z.of_nat n)) /\ is256 (snd (expLoop n word res m)) (b ^ (2 ^ Z.of_nat n)).
Proof.
  induction n as [|n IH]; intros word res m r b Hw Hr Hm.
  - cbn [expLoop fst snd]. change (2 ^ Z.of_nat 0) with 1. by rewrite Z.mod_1_r, Z.pow_0_r, Z.pow_1_r, Z.mul_1_r.
  - cbn [expLoop]. unfold shr64. rewrite Z.shiftr_div_pow2 by done. change (2 ^ 1) with 2.
    change 1 with (Z.ones 1) at 1 3. rewrite Z.land_ones by done. change (2 ^ 1) with 2. change (Z.ones 1) with 1.
    pose proof (Z.mod_pos_bound word 2 ltac:(lia)) as Hb. pose proof (Z.div_mod word 2 ltac:(lia)) as Hd.
    assert (Hsq : is256 (squared m) (b * b)). { destruct Hm as [Hm Em]. rewrite squared_Mul by done. apply is256_Mul; done. }
    assert (Hp : 0 < 2 ^ Z.of_nat n) by (apply Z.pow_pos_nonneg; lia).
    replace (Z.of_nat (S n)) with (1 + Z.of_nat n) by lia. rewrite Z.pow_add_r by lia. change (2 ^ 1) with 2.
    assert (Hmod : word mod (2 * 2 ^ Z.of_nat n) = word mod 2 + 2 * (word / 2 mod 2 ^ Z.of_nat n)) by (rewrite Z.rem_mul_r by lia; ring).
    pose proof (Z.mod_pos_bound (word / 2) (2 ^ Z.of_nat n) Hp) as Hq.
    assert (Hpow : forall e, 0 <= e -> (b * b) ^ e = b ^ (2 * e)). { intros e He. rewrite (Z.pow_mul_r b 2 e) by lia. f_equal. ring. }
    edestruct (IH (word / 2) (if Z.eqb (word mod 2) 1 then Mul res m else res) (squared m) (if Z.eqb (word mod 2) 1 then r * b else r) (b * b)) as [I1 I2].
    + apply Z.div_pos; lia.
    + destruct (Z.eqb (word mod 2) 1); [by apply is256_Mul|done].
    + done.
    + rewrite Hpow in I1, I2 by lia. split; [|done]. rewrite Hmod, Z.pow_add_r by lia.
      destruct (Z.eqb_spec (word mod 2) 1) as [->|He]; [rewrite Z.pow_1_r, Z.mul_assoc; done|].
      replace (word mod 2) with 0 by lia. by rewrite Z.pow_0_r, Z.mul_1_l.
Qed.

(** The part of the exponent below the bit length, word by word. *)
Lemma BitLen_spec z : wf z -> 0 <= BitLen z <= 256 /\ toZ z < 2 ^ BitLen z /\ (toZ z <> 0 -> 2 ^ (BitLen z - 1) <= toZ z).
Proof.
  intros Hz. open_wf.
  assert (Hlow : forall k x y, 0 <= k -> is_u64 x -> 0 <= y < 2 ^ k -> x <> 0 ->
    0 <= k + Len64 x <= k + 64 /\ y + 2 ^ k * x < 2 ^ (k + Len64 x) /\ 2 ^ (k + Len64 x - 1) <= y + 2 ^ k * x).
  { intros k x y Hk Hx Hy Hn. destruct (Len64_spec x Hx) as (L1 & L2 & L3). specialize (L3 Hn).
    assert (1 <= Len64 x). { destruct (Z.eq_dec (Len64 x) 0) as [E|]; [rewrite E in L2; unfold is_u64 in Hx; lia|lia]. }
    replace (k + Len64 x - 1) with (k + (Len64 x - 1)) by lia. rewrite !Z.pow_add_r by lia. split; [lia|]. nia. }
  unfold BitLen. destruct (Z.eqb_spec (w3 z) 0) as [E3|E3]; cbn [negb].
  2:{ destruct (Hlow 192 (w3 z) (w0 z + B64 * (w1 z + B64 * w2 z))) as (? & ? & ?); [done|done|int_lia|done|].
      replace (toZ z) with (w0 z + B64 * (w1 z + B64 * w2 z) + 2 ^ 192 * w3 z) by (unfold toZ; change (2 ^ 192) with (B64 * B64 * B64); ring). split; [lia|done]. }
  destruct (Z.eqb_spec (w2 z) 0) as [E2|E2]; cbn [negb].
  2:{ destruct (Hlow 128 (w2 z) (w0 z + B64 * w1 z)) as (? & ? & ?); [done|done|int_lia|done|].
      replace (toZ z) with (w0 z + B64 * w1 z + 2 ^ 128 * w2 z) by (unfold toZ; rewrite E3; change (2 ^ 128) with (B64 * B64); ring). split; [lia|done]. }
  destruct (Z.eqb_spec (w1 z) 0) as [E1|E1]; cbn [negb].
  2:{ destruct (Hlow 64 (w1 z) (w0 z)) as (? & ? & ?); [done|done|done|done|].
      replace (toZ z) with (w0 z + 2 ^ 64 * w1 z) by (unfold toZ; rewrite E3, E2; change (2 ^ 64) with B64; ring). split; [lia|done]. }
  replace (toZ z) with (w0 z) by (unfold toZ; rewrite E3, E2, E1; ring). destruct (Len64_spec (w0 z)) as (? & ? & ?); [done|]. split; [lia|done].
Qed.

Lemma expTurns_spec e l i (Hl : 0 <= l) : let n := Z.of_nat (expTurns l i (i + 64)) in
  is_u64 e -> 0 <= i -> e * 2 ^ i < 2 ^ l -> e < 2 ^ n /\ (n = 64 \/ l < i + 64).
Proof.
  intros n He Hi Hb. unfold expTurns in n. unfold is_u64 in He.
  destruct (Z.le_gt_cases l i) as [H1|H1].
  - assert (n = 0) as -> by lia. split; [|lia]. assert (2 ^ l <= 2 ^ i) by (apply Z.pow_le_mono_r; lia). assert (0 < 2 ^ i) by (apply Z.pow_pos_nonneg; lia). nia.
  - destruct (Z.le_gt_cases (i + 64) l) as [H2|H2]; [assert (n = 64) as -> by lia; lia|].
    assert (n = l - i) as -> by lia. split; [|lia]. replace l with (i + (l - i)) in Hb by lia. rewrite Z.pow_add_r in Hb by lia.
    assert (0 < 2 ^ i) by (apply Z.pow_pos_nonneg; lia). nia.
Qed.

Lemma pow_turns b e n w : 0 <= e -> 0 <= w -> 0 <= n -> n = 64 \/ w = 0 -> ((b ^ e) ^ 2 ^ n) ^ w = b ^ (e * B64 * w).
Proof.
  intros He Hw Hn [->| ->]; [|by rewrite Z.mul_0_r, !Z.pow_0_r]. change (2 ^ 64) with B64.
  assert (0 <= B64) by done. by rewrite <- (Z.pow_mul_r b e B64), <- (Z.pow_mul_r b (e * B64) w) by nia.
Qed.

(** The factors that the words of the exponent contribute make up the power: a word
    whose predecessors were not gone through in full is zero. *)
Lemma exp_words b e l n0 n1 n2 : wf e -> 0 <= l -> toZ e < 2 ^ l -> 0 <= n0 -> 0 <= n1 -> 0 <= n2 ->
  n0 = 64 \/ l < 64 -> n1 = 64 \/ l < 128 -> n2 = 64 \/ l < 192 ->
  1 * b ^ w0 e * (b ^ 2 ^ n0) ^ w1 e * ((b ^ 2 ^ n0) ^ 2 ^ n1) ^ w2 e * (((b ^ 2 ^ n0) ^ 2 ^ n1) ^ 2 ^ n2) ^ w3 e = b ^ toZ e.
Proof.
  intros He Hl Hb P0 P1 P2 B0 B1 B2. open_wf.
  assert (Hz : forall i, l < i -> 2 ^ l <= 2 ^ i) by (intros; apply Z.pow_le_mono_r; lia).
  assert (Z1 : l < 64 -> w1 e = 0 /\ w2 e = 0 /\ w3 e = 0). { intros E%Hz. revert Hb E. int_lia. }
  assert (Z2 : l < 128 -> w2 e = 0 /\ w3 e = 0). { intros E%Hz. revert Hb E. change (2 ^ 128) with (B64 * B64). int_lia. }
  assert (Z3 : l < 192 -> w3 e = 0). { intros E%Hz. revert Hb E. change (2 ^ 192) with (B64 * B64 * B64). int_lia. }
  assert (W : 0 <= w0 e /\ 0 <= w1 e /\ 0 <= w2 e /\ 0 <= w3 e) by words_lia. destruct W as (W0 & W1 & W2 & W3).
  assert (HB : 0 <= B64) by done. assert (HB2 : 0 <= B64 * B64) by done. assert (H01 : 0 <= 1) by done.
  assert (N2 : w2 e = 0 \/ n0 = 64) by lia. assert (N3 : w3 e = 0 \/ n0 = 64 /\ n1 = 64) by lia.
  assert (M1 : n0 = 64 \/ w1 e = 0) by lia. assert (M2 : n1 = 64 \/ w2 e = 0) by lia. assert (M3 : n2 = 64 \/ w3 e = 0) by lia.
  assert (Q1 : 0 <= B64 * w1 e) by nia. assert (Q2 : 0 <= B64 * B64 * w2 e) by nia. assert (Q3 : 0 <= B64 * B64 * B64 * w3 e) by nia.
  rewrite Z.mul_1_l. rewrite <- (Z.pow_1_r b) at 2 3 4.
  assert (F1 : ((b ^ 1) ^ 2 ^ n0) ^ w1 e = b ^ (B64 * w1 e)) by exact (pow_turns b 1 n0 (w1 e) H01 W1 P0 M1).
  assert (F2 : (((b ^ 1) ^ 2 ^ n0) ^ 2 ^ n1) ^ w2 e = b ^ (B64 * B64 * w2 e)).
  { destruct N2 as [E| ->]; [by rewrite E, Z.mul_0_r, !Z.pow_0_r|]. change (2 ^ 64) with B64.
    rewrite <- (Z.pow_mul_r b 1 B64 H01 HB), Z.mul_1_l. exact (pow_turns b B64 n1 (w2 e) HB W2 P1 M2). }
  assert (F3 : ((((b ^ 1) ^ 2 ^ n0) ^ 2 ^ n1) ^ 2 ^ n2) ^ w3 e = b ^ (B64 * B64 * B64 * w3 e)).
  { destruct N3 as [E|[-> ->]]; [by rewrite E, Z.mul_0_r, !Z.pow_0_r|]. change (2 ^ 64) with B64.
    rewrite <- (Z.pow_mul_r b 1 B64 H01 HB), Z.mul_1_l, <- (Z.pow_mul_r b B64 B64 HB HB). exact (pow_turns b (B64 * B64) n2 (w3 e) HB2 W3 P2 M3). }
  rewrite F1, F2, F3. clear - W0 Q1 Q2 Q3. rewrite <- !Z.pow_add_r by lia. f_equal. unfold toZ. ring.
Qed.

Lemma Exp_is256 b e : wf b -> wf e -> is256 (Exp b e) (toZ b ^ toZ e).
Proof.
  intros Hb He. destruct (BitLen_spec e He) as (HL & HL' & _). pose proof (toZ_range e He). set (l := BitLen e) in *.
  assert (Hone : is256 SetOne 1) by (split; [apply wf_SetOne|done]).
  assert (Hb0 : is256 b (toZ b)). { split; [done|]. symmetry. apply Z.mod_small. by apply toZ_range. }
  open_wf. unfold Exp. fold l.
  destruct (expTurns_spec (w0 e) l 0) as [A0 B0]; [lia|done|lia|revert HL'; int_lia|].
  destruct (expTurns_spec (w1 e) l 64) as [A1 B1]; [lia|done|lia|revert HL'; int_lia|].
  destruct (expTurns_spec (w2 e) l 128) as [A2 B2]; [lia|done|lia|revert HL'; change (2 ^ 128) with (B64 * B64); int_lia|].
  destruct (expTurns_spec (w3 e) l 192) as [A3 B3]; [lia|done|lia|revert HL'; change (2 ^ 192) with (B64 * B64 * B64); int_lia|].
  change (0 + 64) with 64 in *. change (64 + 64) with 128 in *. change (128 + 64) with 192 in *. change (192 + 64) with 256 in *.
  set (n0 := expTurns l 0 64) in *. set (n1 := expTurns l 64 128) in *. set (n2 := expTurns l 128 192) in *. set (n3 := expTurns l 192 256) in *.
  destruct (expLoop_spec n0 (w0 e) SetOne b 1 (toZ b)) as [R0 M0]; [words_lia|done|done|]. destruct (expLoop n0 (w0 e) SetOne b) as [r0 m0]. cbn [fst snd] in *.
  destruct (expLoop_spec n1 (w1 e) r0 m0 _ _ ltac:(words_lia) R0 M0) as [R1 M1]. destruct (expLoop n1 (w1 e) r0 m0) as [r1 m1]. cbn [fst snd] in *.
  destruct (expLoop_spec n2 (w2 e) r1 m1 _ _ ltac:(words_lia) R1 M1) as [R2 M2]. destruct (expLoop n2 (w2 e) r1 m1) as [r2 m2]. cbn [fst snd] in *.
  destruct (expLoop_spec n3 (w3 e) r2 m2 _ _ ltac:(words_lia) R2 M2) as [R3 M3]. destruct (expLoop n3 (w3 e) r2 m2) as [r3 m3]. cbn [fst snd] in *.
  rewrite !Z.mod_small in R3 by words_lia. rewrite <- (exp_words (toZ b) e l (Z.of_nat n0) (Z.of_nat n1) (Z.of_nat n2)); try done; lia.
Qed.

(** * Signed comparisons *)

(** The two's complement reading. *)
Definition toS (z : Int) : Z := if Z.ltb (toZ z) (2 ^ 255) then toZ z else toZ z - M256.

Lemma half_word z : wf z -> Z.ltb (w3 z) 0x8000000000000000 = Z.ltb (toZ z) (2 ^ 255).
Proof.
  intros Hz. open_wf. apply eq_true_iff_eq. rewrite !Z.ltb_lt. unfold toZ. change (2 ^ 255) with (B64 * B64 * B64 * 0x8000000000000000). words_lia.
Qed.

Lemma Sign_spec z : wf z -> Sign z = Z.sgn (toS z).
Proof.
  intros Hz. pose proof (toZ_range z Hz). unfold Sign, toS. rewrite IsZero_spec, half_word by done.
  change M256 with (2 * 2 ^ 255) in *. assert (0 < 2 ^ 255) by done. set (h := 2 ^ 255) in *. clearbody h.
  destruct (Z.eqb_spec (toZ z) 0), (Z.ltb_spec (toZ z) h); lia.
Qed.

Lemma Slt_spec z x : wf z -> wf x -> Slt z x = Z.ltb (toS z) (toS x).
Proof.
  intros Hz Hx. unfold Slt. rewrite !Sign_spec, Lt_spec by done. pose proof (toZ_range z Hz). pose proof (toZ_range x Hx). unfold toS.
  change M256 with (2 * 2 ^ 255) in *. assert (0 < 2 ^ 255) by done. set (h := 2 ^ 255) in *. clearbody h.
  destruct (Z.ltb_spec (toZ z) h), (Z.ltb_spec (toZ x) h); apply eq_true_iff_eq;
    repeat match goal with |- context [if ?b && ?c then _ else _] => destruct b eqn:?, c eqn:?; cbn [andb] end; rewrite ?Z.ltb_lt; lia.
Qed.

Lemma Sgt_spec z x : wf z -> wf x -> Sgt z x = Z.ltb (toS x) (toS z).
Proof.
  intros Hz Hx. unfold Sgt. rewrite !Sign_spec, Gt_spec by done. pose proof (toZ_range z Hz). pose proof (toZ_range x Hx). unfold toS.
  change M256 with (2 * 2 ^ 255) in *. assert (0 < 2 ^ 255) by done. set (h := 2 ^ 255) in *. clearbody h.
  destruct (Z.ltb_spec (toZ z) h), (Z.ltb_spec (toZ x) h); apply eq_true_iff_eq;
    repeat match goal with |- context [if ?b && ?c then _ else _] => destruct b eqn:?, c eqn:?; cbn [andb] end; rewrite ?Z.ltb_lt; lia.
Qed.

(** * Bits *)

Lemma testbit_word a b n : is_u64 a -> 0 <= n -> Z.testbit (a + B64 * b) n = if Z.ltb n 64 then Z.testbit a n else Z.testbit b (n - 64).
Proof.
  intros Ha Hn. unfold is_u64 in Ha. destruct (Z.ltb_spec n 64).
  - rewrite <- (Z.mod_pow2_bits_low (a + B64 * b) 64 n) by lia. replace (a + B64 * b) with (a + b * 2 ^ 64) by (unfold B64; ring).
    by rewrite Z_mod_plus_full, Z.mod_small.
  - replace n with (n - 64 + 64) at 1 by lia. rewrite <- Z.div_pow2_bits by lia. f_equal.
    replace (a + B64 * b) with (a + b * 2 ^ 64) by (unfold B64; ring). rewrite Z.div_add, Z.div_small by lia. lia.
Qed.

(** A bitwise operation works word by word. *)
Lemma bitwise_word (op : Z -> Z -> Z) (f : bool -> bool -> bool) :
  (forall a b n, 0 <= n -> Z.testbit (op a b) n = f (Z.testbit a n) (Z.testbit b n)) ->
  (forall a b, is_u64 a -> is_u64 b -> is_u64 (op a b)) ->
  forall a a' b b', is_u64 a -> is_u64 b -> op (a + B64 * a') (b + B64 * b') = op a b + B64 * op a' b'.
Proof.
  intros Hop Hu a a' b b' Ha Hb. apply Z.bits_inj'. intros n Hn.
  rewrite Hop, !testbit_word by auto. destruct (Z.ltb_spec n 64); rewrite Hop by lia; done.
Qed.

Lemma is_u64_bits (op : Z -> Z -> Z) (f : bool -> bool -> bool) : f false false = false ->
  (forall a b n, 0 <= n -> Z.testbit (op a b) n = f (Z.testbit a n) (Z.testbit b n)) -> (forall a b, 0 <= a -> 0 <= b -> 0 <= op a b) ->
  forall a b, is_u64 a -> is_u64 b -> is_u64 (op a b).
Proof.
  intros Hf Hop Hp a b [Ha Ha'] [Hb Hb']. split; [by apply Hp|]. 
  assert (E : op a b = op a b mod 2 ^ 64); [|rewrite E; apply Z.mod_pos_bound; lia].
  apply Z.bits_inj'. intros n Hn. destruct (Z.ltb_spec n 64); [by rewrite Z.mod_pow2_bits_low|].
  rewrite Z.mod_pow2_bits_high, Hop by lia. rewrite <- (Z.mod_small a (2 ^ 64)), <- (Z.mod_small b (2 ^ 64)) by done. by rewrite !Z.mod_pow2_bits_high by lia.
Qed.

Lemma is_u64_lor a b : is_u64 a -> is_u64 b -> is_u64 (Z.lor a b).
Proof. apply (is_u64_bits Z.lor orb); [done|intros; apply Z.lor_spec|intros; by apply Z.lor_nonneg]. Qed.
Lemma is_u64_land a b : is_u64 a -> is_u64 b -> is_u64 (Z.land a b).
Proof. apply (is_u64_bits Z.land andb); [done|intros; apply Z.land_spec|intros; apply Z.land_nonneg; auto]. Qed.
Lemma is_u64_lxor a b : is_u64 a -> is_u64 b -> is_u64 (Z.lxor a b).
Proof. apply (is_u64_bits Z.lxor xorb); [done|intros; apply Z.lxor_spec|intros; apply Z.lxor_nonneg; tauto]. Qed.

Lemma bitwise_int (op : Z -> Z -> Z) x y :
  (forall a a' b b', is_u64 a -> is_u64 b -> op (a + B64 * a') (b + B64 * b') = op a b + B64 * op a' b') ->
  (forall a b, is_u64 a -> is_u64 b -> is_u64 (op a b)) -> wf x -> wf y ->
  let r := mkInt (op (w0 x) (w0 y)) (op (w1 x) (w1 y)) (op (w2 x) (w2 y)) (op (w3 x) (w3 y)) in
  wf r /\ toZ r = op (toZ x) (toZ y).
Proof. intros Hop Hu Hx Hy r. open_wf. split; [split_and!; by apply Hu|]. unfold toZ, r. cbn [w0 w1 w2 w3]. by rewrite !Hop by done. Qed.

Lemma Or_spec x y : wf x -> wf y -> wf (Or x y) /\ toZ (Or x y) = Z.lor (toZ x) (toZ y).
Proof. apply bitwise_int; [|apply is_u64_lor]. apply (bitwise_word Z.lor orb); [intros; apply Z.lor_spec|apply is_u64_lor]. Qed.
Lemma And_spec x y : wf x -> wf y -> wf (And x y) /\ toZ (And x y) = Z.land (toZ x) (toZ y).
Proof. apply bitwise_int; [|apply is_u64_land]. apply (bitwise_word Z.land andb); [intros; apply Z.land_spec|apply is_u64_land]. Qed.
Lemma Xor_spec x y : wf x -> wf y -> wf (Xor x y) /\ toZ (Xor x y) = Z.lxor (toZ x) (toZ y).
Proof. apply bitwise_int; [|apply is_u64_lxor]. apply (bitwise_word Z.lxor xorb); [intros; apply Z.lxor_spec|apply is_u64_lxor]. Qed.
Lemma Not_spec x : wf x -> wf (Not x) /\ toZ (Not x) = M256 - 1 - toZ x.
Proof. intros Hx. open_wf. unfold Not, not64. split; [wf_done|int_lia]. Qed.

(** * Shifts *)

(** A word shifted to the left by [n]: what stays and what leaves it at the top. *)
Lemma shift_word w n : is_u64 w -> 0 <= n <= 64 ->
  w * 2 ^ n = shl64 w n + B64 * shr64 w (64 - n) /\ (exists k, shl64 w n = 2 ^ n * k) /\ is_u64 (shl64 w n) /\ 0 <= shr64 w (64 - n) < 2 ^ n.
Proof.
  intros Hw Hn. unfold shl64, shr64. rewrite Z.shiftl_mul_pow2, Z.shiftr_div_pow2 by lia.
  assert (Hp : 0 < 2 ^ n) by (apply Z.pow_pos_nonneg; lia). assert (Hq : 0 < 2 ^ (64 - n)) by (apply Z.pow_pos_nonneg; lia).
  assert (HB : B64 = 2 ^ n * 2 ^ (64 - n)). { rewrite <- Z.pow_add_r by lia. unfold B64. f_equal. lia. }
  assert (Hm : u64 (w * 2 ^ n) = 2 ^ n * (w mod 2 ^ (64 - n))).
  { unfold u64. change (2 ^ 64) with B64. rewrite HB, (Z.mul_comm w), Z.mul_mod_distr_l by lia. done. }
  rewrite Hm. pose proof (Z.div_mod w (2 ^ (64 - n)) ltac:(lia)). pose proof (Z.mod_pos_bound w (2 ^ (64 - n)) Hq).
  split; [rewrite HB; nia|]. split; [by eexists|]. split; [rewrite <- Hm; apply u64_range|].
  split; [apply Z.div_pos; unfold is_u64 in *; lia|]. apply Z.div_lt_upper_bound; [done|]. rewrite Z.mul_comm, <- HB. apply Hw.
Qed.

Lemma lor_disjoint k n b : 0 <= n -> 0 <= b < 2 ^ n -> Z.lor (2 ^ n * k) b = 2 ^ n * k + b.
Proof.
  intros Hn Hb. rewrite <- Z.lxor_lor; [rewrite Z.add_nocarry_lxor; [done|]|]; apply Z.bits_inj'; intros i Hi; rewrite Z.land_spec, Z.bits_0, Z.mul_comm, <- Z.shiftl_mul_pow2 by done;
    (destruct (Z.ltb_spec i n); [rewrite Z.shiftl_spec_low by done; done|]);
    rewrite <- (Z.mod_small b (2 ^ n)), Z.mod_pow2_bits_high by lia; apply andb_false_r.
Qed.

(** [(w << n) | (v >> (64-n))] *)
Lemma lor_shift w v n : is_u64 w -> is_u64 v -> 0 <= n <= 64 ->
  Z.lor (shl64 w n) (shr64 v (64 - n)) = shl64 w n + shr64 v (64 - n) /\ is_u64 (shl64 w n + shr64 v (64 - n)).
Proof.
  intros Hw Hv Hn. destruct (shift_word w n Hw Hn) as (_ & [k Ek] & Hr & _). destruct (shift_word v n Hv Hn) as (_ & _ & _ & Hs).
  assert (E : Z.lor (shl64 w n) (shr64 v (64 - n)) = shl64 w n + shr64 v (64 - n)) by (rewrite Ek; apply lor_disjoint; lia).
  split; [exact E|]. rewrite <- E. apply is_u64_lor; [done|]. split; [lia|]. assert (2 ^ n <= 2 ^ 64) by (apply Z.pow_le_mono_r; lia). lia.
Qed.

(** [(w >> n) | (v << (64-n))] *)
Lemma lor_shift' w v n : is_u64 w -> is_u64 v -> 0 <= n <= 64 ->
  Z.lor (shr64 w n) (shl64 v (64 - n)) = shl64 v (64 - n) + shr64 w n /\ is_u64 (shl64 v (64 - n) + shr64 w n).
Proof. intros Hw Hv Hn. rewrite Z.lor_comm. replace n with (64 - (64 - n)) at 2 4 6 by lia. apply lor_shift; [done|done|lia]. Qed.

Lemma shl64_0 n : shl64 0 n = 0.
Proof. unfold shl64. by rewrite Z.shiftl_0_l. Qed.
Lemma shr64_0 n : shr64 0 n = 0.
Proof. unfold shr64. by rewrite Z.shiftr_0_l. Qed.
Lemma is_u64_0 : is_u64 0.
Proof. split; lia. Qed.

(** The code from the label [sh64] of [Lsh] on, with the bits [v >> (64-n)] that came from below. *)
Lemma lsh_sh64_spec z v n : wf z -> is_u64 v -> 0 <= n < 64 ->
  let r := lsh_sh64 z n (shr64 v (64 - n)) in
  wf (mkInt 0 (w1 r) (w2 r) (w3 r)) /\ w0 r = w0 z /\
  exists k, B64 * (w1 r + B64 * (w2 r + B64 * w3 r)) + M256 * k = B64 * (shr64 v (64 - n) + (w1 z + B64 * (w2 z + B64 * w3 z)) * 2 ^ n).
Proof.
  intros Hz Hv Hn. open_wf. unfold lsh_sh64, lsh_sh128, lsh_sh192. cbn [w0 w1 w2 w3].
  destruct (lor_shift (w1 z) v n) as [-> ?]; [done|done|lia|]. destruct (lor_shift (w2 z) (w1 z) n) as [-> ?]; [done|done|lia|].
  destruct (lor_shift (w3 z) (w2 z) n) as [-> ?]; [done|done|lia|].
  destruct (shift_word (w1 z) n) as (E1 & _); [done|lia|]. destruct (shift_word (w2 z) n) as (E2 & _); [done|lia|]. destruct (shift_word (w3 z) n) as (E3 & _); [done|lia|].
  split; [split_and!; by try apply is_u64_0|]. split; [done|]. exists (shr64 (w3 z) (64 - n)). rewrite M256_val. nia.
Qed.

Lemma land_63 n : 0 <= n -> Z.land n 0x3f = n mod 64.
Proof. intros Hn. change 0x3f with (Z.ones 6). by rewrite Z.land_ones. Qed.

(** A shift of whole words followed by a shift inside the words. *)
Lemma lsh_words_spec x z m n k : wf z -> 0 <= m < 64 -> w0 z = 0 -> 2 ^ n = 2 ^ (n - m) * 2 ^ m -> toZ x * 2 ^ (n - m) = toZ z + M256 * k ->
  is256 (lsh_sh64 z m 0) (toZ x * 2 ^ n).
Proof.
  intros Hz Hm Hz0 Hn Hk. destruct (lsh_sh64_spec z 0 m Hz is_u64_0 Hm) as (Hw & Ew & K & EK). rewrite shr64_0 in *.
  set (r := lsh_sh64 z m 0) in *. destruct Hw as (? & ? & ? & ?). apply (is256_intro _ _ (k * 2 ^ m + K)).
  - split_and!; try done. rewrite Ew, Hz0. apply is_u64_0.
  - rewrite Hn. replace (toZ x * (2 ^ (n - m) * 2 ^ m)) with ((toZ x * 2 ^ (n - m)) * 2 ^ m) by ring. rewrite Hk. unfold toZ in *. rewrite Ew, Hz0 in *. nia.
Qed.

Lemma is256_Clear z k : z = M256 * k -> is256 Clear z.
Proof. intros ->. apply (is256_intro _ _ k); [apply wf_Clear|]. change (toZ Clear) with 0. lia. Qed.

Lemma Lsh_big x n : 256 <= n -> is256 Clear (toZ x * 2 ^ n).
Proof. intros Hn. apply (is256_Clear _ (toZ x * 2 ^ (n - 256))). replace n with (256 + (n - 256)) at 1 by lia. rewrite Z.pow_add_r by lia. fold M256. ring. Qed.

Lemma Lsh_is256 x n : wf x -> 0 <= n -> is256 (Lsh x n) (toZ x * 2 ^ n).
Proof.
  intros Hx Hn. unfold Lsh. rewrite land_63 by done. pose proof Hx as (X0 & X1 & X2 & X3).
  destruct (Z.eqb_spec (n mod 64) 0) as [Hm|Hm].
  - destruct (Z.eqb_spec n 0) as [->|]; [rewrite Z.mul_1_r; apply (is256_intro _ _ 0); [done|lia]|].
    destruct (Z.eqb_spec n 64) as [->|]; [apply (is256_intro _ _ (w3 x)); [by split_and!; try apply is_u64_0|change (2 ^ 64) with B64; unfold toZ, lsh64; cbn; rewrite M256_val; ring]|].
    destruct (Z.eqb_spec n 128) as [->|]; [apply (is256_intro _ _ (w2 x + B64 * w3 x)); [by split_and!; try apply is_u64_0|change (2 ^ 128) with (B64 * B64); unfold toZ, lsh128; cbn; rewrite M256_val; ring]|].
    destruct (Z.eqb_spec n 192) as [->|]; [apply (is256_intro _ _ (w1 x + B64 * (w2 x + B64 * w3 x))); [by split_and!; try apply is_u64_0|change (2 ^ 192) with (B64 * B64 * B64); unfold toZ, lsh192; cbn; rewrite M256_val; ring]|].
    apply Lsh_big. pose proof (Z.div_mod n 64). lia.
  - destruct (Z.ltb_spec 192 n); [destruct (Z.ltb_spec 256 n); [apply Lsh_big; lia|]|destruct (Z.ltb_spec 128 n); [|destruct (Z.ltb_spec 64 n)]].
    + assert (n <> 256) by (intros ->; done).
      replace (lsh_sh192 (lsh192 x) (n - 192) 0) with (lsh_sh64 (lsh192 x) (n - 192) 0) by (unfold lsh_sh64, lsh_sh128; cbn; by rewrite !shr64_0, !shl64_0).
      apply (lsh_words_spec _ _ _ _ (w1 x + B64 * (w2 x + B64 * w3 x))); [by split_and!; try apply is_u64_0|lia|done|rewrite <- Z.pow_add_r by lia; f_equal; lia|].
      replace (n - (n - 192)) with 192 by lia. change (2 ^ 192) with (B64 * B64 * B64). unfold toZ, lsh192. cbn. rewrite M256_val. ring.
    + replace (lsh_sh128 (lsh128 x) (n - 128) 0) with (lsh_sh64 (lsh128 x) (n - 128) 0) by (unfold lsh_sh64; cbn; by rewrite !shr64_0, !shl64_0).
      assert (n <> 192) by (intros ->; done).
      apply (lsh_words_spec _ _ _ _ (w2 x + B64 * w3 x)); [by split_and!; try apply is_u64_0|lia|done|rewrite <- Z.pow_add_r by lia; f_equal; lia|].
      replace (n - (n - 128)) with 128 by lia. change (2 ^ 128) with (B64 * B64). unfold toZ, lsh128. cbn. rewrite M256_val. ring.
    + assert (n <> 128) by (intros ->; done).
      apply (lsh_words_spec _ _ _ _ (w3 x)); [by split_and!; try apply is_u64_0|lia|done|rewrite <- Z.pow_add_r by lia; f_equal; lia|].
      replace (n - (n - 64)) with 64 by lia. change (2 ^ 64) with B64. unfold toZ, lsh64. cbn. rewrite M256_val. ring.
    + assert (n <> 64) by (intros ->; done). assert (n <> 0) by (intros ->; done).
      destruct (shift_word (w0 x) n X0 ltac:(lia)) as (E0 & _ & S0 & _).
      destruct (lsh_sh64_spec (mkInt (shl64 (w0 x) n) (w1 x) (w2 x) (w3 x)) (w0 x) n) as (Hw & Ew & K & EK); [done|done|lia|].
      set (r := lsh_sh64 _ _ _) in *. destruct Hw as (? & ? & ? & ?). cbn [w0 w1 w2 w3] in *. apply (is256_intro _ _ K); [by split_and!; rewrite ?Ew|].
      unfold toZ. rewrite Ew. nia.
Qed.

(** A word shifted to the right: what leaves it at the bottom goes to the top of
    the next word. *)
Lemma shr_word w n : is_u64 w -> 0 <= n <= 64 -> w = 2 ^ n * shr64 w n + w mod 2 ^ n /\ shl64 w (64 - n) = 2 ^ (64 - n) * (w mod 2 ^ n) /\ 0 <= w mod 2 ^ n < 2 ^ n.
Proof.
  intros Hw Hn. assert (Hp : 0 < 2 ^ n) by (apply Z.pow_pos_nonneg; lia). assert (Hq : 0 < 2 ^ (64 - n)) by (apply Z.pow_pos_nonneg; lia).
  assert (HB : B64 = 2 ^ n * 2 ^ (64 - n)). { rewrite <- Z.pow_add_r by lia. unfold B64. f_equal. lia. }
  unfold shl64, shr64. rewrite Z.shiftl_mul_pow2, Z.shiftr_div_pow2 by lia. pose proof (Z.div_mod w (2 ^ n) ltac:(lia)).
  split; [lia|]. split; [|by apply Z.mod_pos_bound]. unfold u64. change (2 ^ 64) with B64. rewrite HB, (Z.mul_comm w), (Z.mul_comm (2 ^ n)).
  by rewrite Z.mul_mod_distr_l by lia.
Qed.

Lemma rsh_sh64_spec z v n : wf z -> is_u64 v -> 0 <= n <= 64 ->
  let r := rsh_sh64 z n (shl64 v (64 - n)) in
  wf r /\ w3 r = w3 z /\ exists k, 0 <= k < 2 ^ n /\
  w0 z + B64 * (w1 z + B64 * w2 z) + B64 * B64 * B64 * (v mod 2 ^ n) = 2 ^ n * (w0 r + B64 * (w1 r + B64 * w2 r)) + k.
Proof.
  intros Hz Hv Hn. open_wf. unfold rsh_sh64, rsh_sh128, rsh_sh192. cbn [w0 w1 w2 w3].
  destruct (lor_shift' (w2 z) v n) as [-> ?]; [done|done|lia|]. destruct (lor_shift' (w1 z) (w2 z) n) as [-> ?]; [done|done|lia|].
  destruct (lor_shift' (w0 z) (w1 z) n) as [-> ?]; [done|done|lia|].
  destruct (shr_word v n) as (_ & Ev & _); [done|lia|]. destruct (shr_word (w2 z) n) as (E2 & F2 & _); [done|lia|].
  destruct (shr_word (w1 z) n) as (E1 & F1 & _); [done|lia|]. destruct (shr_word (w0 z) n) as (E0 & F0 & Hk); [done|lia|].
  assert (HB : B64 = 2 ^ n * 2 ^ (64 - n)). { rewrite <- Z.pow_add_r by lia. unfold B64. f_equal. lia. }
  split; [by split_and!|]. split; [done|]. exists (w0 z mod 2 ^ n). split; [done|]. rewrite Ev, F2, F1.
  set (p := 2 ^ n) in *. set (q := 2 ^ (64 - n)) in *. rewrite E0 at 1. rewrite E1 at 1. rewrite E2 at 1. rewrite HB. ring.
Qed.

(** The quotient of a division by a power of two. *)
Lemma div_intro x p r k : x = p * r + k -> 0 <= k < p -> x / p = r.
Proof. intros -> Hk. symmetry. eapply Z.div_unique; [left; exact Hk|done]. Qed.

Lemma div_big x n : 0 <= x < M256 -> 256 <= n -> x / 2 ^ n = 0.
Proof. intros Hx Hn. apply Z.div_small. assert (2 ^ 256 <= 2 ^ n) by (apply Z.pow_le_mono_r; lia). unfold M256 in *. lia. Qed.

Lemma rsh_words_spec z n m : wf z -> 0 <= m <= 64 -> w3 z = 0 -> wf (rsh_sh64 z m 0) /\ (forall x, 0 <= n - m -> toZ z = x / 2 ^ (n - m) -> toZ (rsh_sh64 z m 0) = x / 2 ^ n).
Proof.
  intros Hz Hm Hz3. destruct (rsh_sh64_spec z 0 m Hz is_u64_0 Hm) as (Hw & E3 & k & Hk & E). rewrite shl64_0 in *. split; [done|]. intros x Hn Hx.
  rewrite Z.mod_0_l in E by (apply Z.pow_nonzero; lia). replace n with ((n - m) + m) by lia. rewrite Z.pow_add_r, <- Z.div_div, <- Hx by (try apply Z.pow_pos_nonneg; try apply Z.pow_nonzero; lia).
  symmetry. apply (div_intro _ _ _ k); [|done]. unfold toZ. rewrite E3, Hz3. lia.
Qed.

Lemma div_words x : wf x -> toZ x / 2 ^ 64 = w1 x + B64 * (w2 x + B64 * w3 x) /\ toZ x / 2 ^ 128 = w2 x + B64 * w3 x /\ toZ x / 2 ^ 192 = w3 x.
Proof.
  intros Hx. open_wf. split; [|split].
  - apply (div_intro _ _ _ (w0 x)); [unfold toZ; change (2 ^ 64) with B64; ring|done].
  - apply (div_intro _ _ _ (w0 x + B64 * w1 x)); [unfold toZ; change (2 ^ 128) with (B64 * B64); ring|change (2 ^ 128) with (B64 * B64); words_lia].
  - apply (div_intro _ _ _ (w0 x + B64 * (w1 x + B64 * w2 x))); [unfold toZ; change (2 ^ 192) with (B64 * B64 * B64); ring|change (2 ^ 192) with (B64 * B64 * B64); words_lia].
Qed.

Lemma Rsh_spec x n : wf x -> 0 <= n -> wf (Rsh x n) /\ toZ (Rsh x n) = toZ x / 2 ^ n.
Proof.
  intros Hx Hn. unfold Rsh. rewrite land_63 by done. pose proof (toZ_range x Hx) as Hr. destruct (div_words x Hx) as (D1 & D2 & D3). pose proof Hx as (X0 & X1 & X2 & X3).
  destruct (Z.eqb_spec (n mod 64) 0) as [Hm|Hm].
  - destruct (Z.eqb_spec n 0) as [->|]; [by rewrite Z.div_1_r|].
    destruct (Z.eqb_spec n 64) as [->|]; [rewrite D1; split; [by split_and!; try apply is_u64_0|unfold toZ, rsh64; cbn [w0 w1 w2 w3]; ring]|].
    destruct (Z.eqb_spec n 128) as [->|]; [rewrite D2; split; [by split_and!; try apply is_u64_0|unfold toZ, rsh128; cbn [w0 w1 w2 w3]; ring]|].
    destruct (Z.eqb_spec n 192) as [->|]; [rewrite D3; split; [by split_and!; try apply is_u64_0|unfold toZ, rsh192; cbn [w0 w1 w2 w3]; ring]|].
    split; [apply wf_Clear|]. rewrite div_big; [done|done|]. pose proof (Z.div_mod n 64). lia.
  - destruct (Z.ltb_spec 192 n); [destruct (Z.ltb_spec 256 n)|destruct (Z.ltb_spec 128 n); [|destruct (Z.ltb_spec 64 n)]].
    + split; [apply wf_Clear|]. rewrite div_big; [done|done|lia].
    + replace (rsh_sh192 (rsh192 x) (n - 192) 0) with (rsh_sh64 (rsh192 x) (n - 192) 0) by (unfold rsh_sh64, rsh_sh128; cbn [rsh192 w0 w1 w2 w3]; by rewrite !shr64_0, !shl64_0).
      destruct (rsh_words_spec (rsh192 x) n (n - 192)) as [Hw He]; [by split_and!; try apply is_u64_0|lia|done|]. split; [done|].
      apply He; [lia|]. replace (n - (n - 192)) with 192 by lia. rewrite D3. unfold toZ, rsh192. cbn [w0 w1 w2 w3]. ring.
    + replace (rsh_sh128 (rsh128 x) (n - 128) 0) with (rsh_sh64 (rsh128 x) (n - 128) 0) by (unfold rsh_sh64; cbn [rsh128 w0 w1 w2 w3]; by rewrite !shr64_0, !shl64_0).
      destruct (rsh_words_spec (rsh128 x) n (n - 128)) as [Hw He]; [by split_and!; try apply is_u64_0|lia|done|]. split; [done|].
      apply He; [lia|]. replace (n - (n - 128)) with 128 by lia. rewrite D2. unfold toZ, rsh128. cbn [w0 w1 w2 w3]. ring.
    + destruct (rsh_words_spec (rsh64 x) n (n - 64)) as [Hw He]; [by split_and!; try apply is_u64_0|lia|done|]. split; [done|].
      apply He; [lia|]. replace (n - (n - 64)) with 64 by lia. rewrite D1. unfold toZ, rsh64. cbn [w0 w1 w2 w3]. ring.
    + destruct (shr_word (w3 x) n X3 ltac:(lia)) as (E3 & _ & _).
      assert (S3 : is_u64 (shr64 (w3 x) n)). { destruct (lor_shift' (w3 x) 0 n) as [_ H3]; [done|apply is_u64_0|lia|]. by rewrite shl64_0 in H3. }
      destruct (rsh_sh64_spec (mkInt (w0 x) (w1 x) (w2 x) (shr64 (w3 x) n)) (w3 x) n) as (Hw & Ew & k & Hk & EK); [done|done|lia|].
      cbn [w0 w1 w2 w3] in *. split; [done|]. symmetry. apply (div_intro _ _ _ k); [|done]. set (r := rsh_sh64 _ _ _) in *. unfold toZ. rewrite Ew. nia.
Qed.

Lemma land_pow2 w i : 0 <= i -> Z.land w (2 ^ i) = if Z.testbit w i then 2 ^ i else 0.
Proof.
  intros Hi. apply Z.bits_inj'. intros n Hn. rewrite Z.land_spec. destruct (Z.eq_dec n i) as [->|Hne].
  - rewrite Z.pow2_bits_true by done. destruct (Z.testbit w i); [by rewrite Z.pow2_bits_true|by rewrite Z.bits_0].
  - rewrite Z.pow2_bits_false, andb_false_r by lia. destruct (Z.testbit w i); [by rewrite Z.pow2_bits_false by lia|by rewrite Z.bits_0].
Qed.

Lemma testbit_toZ z n : wf z -> 0 <= n < 256 -> Z.testbit (toZ z) n = Z.testbit (word z (n / 64)) (n mod 64).
Proof.
  intros Hz Hn. open_wf. pose proof (Z.div_mod n 64 ltac:(lia)). pose proof (Z.mod_pos_bound n 64 ltac:(lia)). set (q := n / 64) in *. set (i := n mod 64) in *.
  unfold toZ. rewrite !testbit_word by (done || lia). unfold word. clearbody q i. subst n.
  destruct (Z.eqb_spec q 0) as [->|]; [rewrite (proj2 (Z.ltb_lt _ _)) by lia; f_equal; lia|]. rewrite (proj2 (Z.ltb_ge _ _)) by lia.
  rewrite testbit_word by (done || lia). destruct (Z.eqb_spec q 1) as [->|]; [rewrite (proj2 (Z.ltb_lt _ _)) by lia; f_equal; lia|]. rewrite (proj2 (Z.ltb_ge _ _)) by lia.
  rewrite testbit_word by (done || lia). destruct (Z.eqb_spec q 2) as [->|]; [rewrite (proj2 (Z.ltb_lt _ _)) by lia; f_equal; lia|]. rewrite (proj2 (Z.ltb_ge _ _)) by lia.
  f_equal. lia.
Qed.

Lemma isBitSet_spec z n : wf z -> 0 <= n < 256 -> isBitSet z n = Z.testbit (toZ z) n.
Proof.
  intros Hz Hn. unfold isBitSet. rewrite testbit_toZ by done. pose proof (Z.mod_pos_bound n 64 ltac:(lia)). set (i := n mod 64) in *.
  assert (shl64 1 i = 2 ^ i) as ->. { unfold shl64. rewrite Z.shiftl_mul_pow2, Z.mul_1_l by lia. apply u64_small. split; [lia|]. apply Z.pow_lt_mono_r; lia. }
  rewrite land_pow2 by lia. assert (0 < 2 ^ i) by (apply Z.pow_pos_nonneg; lia). destruct (Z.testbit _ _); [|done]. apply negb_true_iff, Z.eqb_neq. lia.
Qed.

Lemma top_bit z : wf z -> isBitSet z 255 = negb (Z.ltb (toZ z) (2 ^ 255)).
Proof.
  intros Hz. pose proof (toZ_range z Hz). rewrite isBitSet_spec by done. rewrite Z.testbit_eqb by done. change M256 with (2 ^ 255 * 2) in *. 
  assert (H2 : 0 < 2 ^ 255) by done. set (h := 2 ^ 255) in *. clearbody h. destruct (Z.ltb_spec (toZ z) h) as [Hl|Hl].
  - rewrite Z.div_small by lia. done.
  - replace (toZ z / h) with 1; [done|]. symmetry. apply (div_intro _ _ _ (toZ z - h)); lia.
Qed.

Lemma shl64_Max m : 0 <= m <= 64 -> shl64 MaxUint64 (64 - m) = B64 - 2 ^ (64 - m) /\ MaxUint64 mod 2 ^ m = 2 ^ m - 1.
Proof.
  intros Hm. destruct (shr_word MaxUint64 m) as (_ & E & _); [done|done|].
  assert (HB : B64 = 2 ^ m * 2 ^ (64 - m)). { rewrite <- Z.pow_add_r by lia. unfold B64. f_equal. lia. }
  assert (0 < 2 ^ m) by (apply Z.pow_pos_nonneg; lia). assert (Hmod : MaxUint64 mod 2 ^ m = 2 ^ m - 1).
  { symmetry. apply (Z.mod_unique _ _ (2 ^ (64 - m) - 1)); [lia|]. change MaxUint64 with (B64 - 1). rewrite HB. ring. }
  rewrite E, Hmod, HB. split; [ring|done].
Qed.

Lemma lor_Max m : 0 <= m <= 64 -> Z.lor (shr64 MaxUint64 m) (shl64 MaxUint64 (64 - m)) = MaxUint64.
Proof.
  intros Hm. destruct (lor_shift' MaxUint64 MaxUint64 m) as [-> _]; [done|done|done|]. destruct (shl64_Max m Hm) as [-> HM].
  destruct (shr_word MaxUint64 m) as (E & _ & _); [done|done|]. rewrite HM in E. assert (0 < 2 ^ m) by (apply Z.pow_pos_nonneg; lia).
  assert (HB : B64 = 2 ^ m * 2 ^ (64 - m)). { rewrite <- Z.pow_add_r by lia. unfold B64. f_equal. lia. }
  change MaxUint64 with (B64 - 1) in *. nia.
Qed.

(** An arithmetic shift of a negative number: the words that move in are all ones. *)
Lemma srsh_words_spec x z n m : wf z -> 0 <= m <= 64 -> w3 z = MaxUint64 -> 0 <= n - m -> toZ z - M256 = (toZ x - M256) / 2 ^ (n - m) ->
  let r := rsh_sh64 z m (shl64 MaxUint64 (64 - m)) in wf r /\ toZ r - M256 = (toZ x - M256) / 2 ^ n.
Proof.
  intros Hz Hm Hz3 Hn Hx r. destruct (rsh_sh64_spec z MaxUint64 m Hz ltac:(done) Hm) as (Hw & E3 & k & Hk & E). fold r in Hw, E3, E. split; [done|].
  destruct (shl64_Max m Hm) as [_ HM]. rewrite HM in E. replace n with ((n - m) + m) by lia.
  rewrite Z.pow_add_r, <- Z.div_div, <- Hx by (try apply Z.pow_pos_nonneg; try apply Z.pow_nonzero; lia).
  symmetry. apply (div_intro _ _ _ k); [|done]. unfold toZ. rewrite E3, Hz3, M256_val. change MaxUint64 with (B64 - 1). nia.
Qed.

Lemma sdiv_words x : wf x -> let s := toZ x - M256 in s / 2 ^ 64 = toZ (srsh64 x) - M256 /\ s / 2 ^ 128 = toZ (srsh128 x) - M256 /\ s / 2 ^ 192 = toZ (srsh192 x) - M256.
Proof.
  intros Hx s. open_wf. unfold s. rewrite M256_val. change MaxUint64 with (B64 - 1). split; [|split].
  - apply (div_intro _ _ _ (w0 x)); [unfold toZ, srsh64; cbn [w0 w1 w2 w3]; change (2 ^ 64) with B64; change MaxUint64 with (B64 - 1); ring|done].
  - apply (div_intro _ _ _ (w0 x + B64 * w1 x)); [unfold toZ, srsh128; cbn [w0 w1 w2 w3]; change (2 ^ 128) with (B64 * B64); change MaxUint64 with (B64 - 1); ring|change (2 ^ 128) with (B64 * B64); words_lia].
  - apply (div_intro _ _ _ (w0 x + B64 * (w1 x + B64 * w2 x))); [unfold toZ, srsh192; cbn [w0 w1 w2 w3]; change (2 ^ 192) with (B64 * B64 * B64); change MaxUint64 with (B64 - 1); ring|change (2 ^ 192) with (B64 * B64 * B64); words_lia].
Qed.

Lemma sdiv_big s n : - M256 <= s < 0 -> 256 <= n -> s / 2 ^ n = -1.
Proof. intros Hs Hn. assert (2 ^ 256 <= 2 ^ n) by (apply Z.pow_le_mono_r; lia). unfold M256 in *. apply (div_intro _ _ _ (s + 2 ^ n)); lia. Qed.

Lemma SRsh_neg x n : wf x -> 0 <= n -> 2 ^ 255 <= toZ x -> wf (SRsh x n) /\ toZ (SRsh x n) - M256 = (toZ x - M256) / 2 ^ n.
Proof.
  intros Hx Hn Hneg. unfold SRsh. rewrite top_bit by done. destruct (Z.ltb_spec (toZ x) (2 ^ 255)) as [|_]; [lia|]. cbn [negb].
  pose proof (toZ_range x Hx) as Hr. destruct (sdiv_words x Hx) as (D1 & D2 & D3). cbv zeta in *. pose proof Hx as (X0 & X1 & X2 & X3).
  assert (HM : is_u64 MaxUint64) by done. assert (Hall : wf SetAllOne /\ toZ SetAllOne - M256 = -1) by done.
  destruct (Z.eqb_spec (n mod 64) 0) as [Hm|Hm].
  - destruct (Z.eqb_spec n 0) as [->|]; [by rewrite Z.div_1_r|].
    destruct (Z.eqb_spec n 64) as [->|]; [rewrite D1; by split_and!|]. destruct (Z.eqb_spec n 128) as [->|]; [rewrite D2; by split_and!|].
    destruct (Z.eqb_spec n 192) as [->|]; [rewrite D3; by split_and!|]. rewrite sdiv_big; [done|lia|]. pose proof (Z.div_mod n 64). lia.
  - assert (Hmm : forall k, 64 * k < n < 64 * k + 64 -> n mod 64 = n - 64 * k) by (intros k Hk; symmetry; apply (Z.mod_unique _ _ k); lia).
    assert (Hne : forall k, n <> 64 * k) by (intros k ->; rewrite Z.mul_comm, Z_mod_mult in Hm; done).
    pose proof (Hne 0); pose proof (Hne 1); pose proof (Hne 2); pose proof (Hne 3); pose proof (Hne 4).
    destruct (Z.ltb_spec 192 n); [destruct (Z.ltb_spec 256 n)|destruct (Z.ltb_spec 128 n); [|destruct (Z.ltb_spec 64 n)]].
    + rewrite sdiv_big; [done|lia|lia].
    + rewrite (Hmm 3) by lia. change (64 * 3) with 192.
      replace (srsh_sh192 (srsh192 x) (n - 192) _) with (rsh_sh64 (srsh192 x) (n - 192) (shl64 MaxUint64 (64 - (n - 192))))
        by (unfold rsh_sh64, rsh_sh128, rsh_sh192, srsh_sh192; cbn [srsh192 w0 w1 w2 w3]; by rewrite !lor_Max by lia).
      apply srsh_words_spec; [by split_and!|lia|done|lia|]. replace (n - (n - 192)) with 192 by lia. by rewrite D3.
    + rewrite (Hmm 2) by lia. change (64 * 2) with 128.
      replace (srsh_sh128 (srsh128 x) (n - 128) _) with (rsh_sh64 (srsh128 x) (n - 128) (shl64 MaxUint64 (64 - (n - 128))))
        by (unfold rsh_sh64, rsh_sh128, rsh_sh192, srsh_sh128, srsh_sh192; cbn [srsh128 w0 w1 w2 w3]; by rewrite !lor_Max by lia).
      apply srsh_words_spec; [by split_and!|lia|done|lia|]. replace (n - (n - 128)) with 128 by lia. by rewrite D2.
    + rewrite (Hmm 1) by lia. change (64 * 1) with 64. change (srsh_sh64 (srsh64 x) (n - 64)) with (rsh_sh64 (srsh64 x) (n - 64)).
      apply srsh_words_spec; [by split_and!|lia|done|lia|]. replace (n - (n - 64)) with 64 by lia. by rewrite D1.
    + rewrite (Hmm 0) by lia. replace (n - 64 * 0) with n by lia. destruct (shr_word (w3 x) n X3 ltac:(lia)) as (E3 & _ & _).
      destruct (lor_shift' (w3 x) MaxUint64 n) as [-> HT]; [done|done|lia|]. destruct (shl64_Max n ltac:(lia)) as [EM _]. rewrite EM in HT |- *.
      set (t := B64 - 2 ^ (64 - n) + shr64 (w3 x) n) in *. change (srsh_sh64 (mkInt (w0 x) (w1 x) (w2 x) t)) with (rsh_sh64 (mkInt (w0 x) (w1 x) (w2 x) t)).
      destruct (rsh_sh64_spec (mkInt (w0 x) (w1 x) (w2 x) t) (w3 x) n) as (Hw & Ew & k & Hk & EK); [done|done|lia|].
      cbn [w0 w1 w2 w3] in *. split; [done|]. symmetry. apply (div_intro _ _ _ k); [|done]. set (r := rsh_sh64 _ _ _) in *. unfold toZ. rewrite Ew. unfold t.
      assert (HB : B64 = 2 ^ n * 2 ^ (64 - n)). { rewrite <- Z.pow_add_r by lia. unfold B64. f_equal. lia. }
      rewrite M256_val. replace (B64 * B64 * B64 * B64) with (B64 * B64 * B64 * (2 ^ n * 2 ^ (64 - n))) by (rewrite HB at 4; ring). nia.
Qed.

Lemma SRsh_spec x n : wf x -> 0 <= n -> is256 (SRsh x n) (toS x / 2 ^ n).
Proof.
  intros Hx Hn. unfold toS. destruct (Z.ltb_spec (toZ x) (2 ^ 255)) as [Hl|Hl].
  - unfold SRsh. rewrite top_bit by done. rewrite (proj2 (Z.ltb_lt _ _) Hl). cbn [negb]. destruct (Rsh_spec x n Hx Hn) as [Hw E].
    apply (is256_intro _ _ 0); [done|]. rewrite E. lia.
  - destruct (SRsh_neg x n Hx Hn Hl) as [Hw E]. apply (is256_intro _ _ (-1)); [done|]. lia.
Qed.

(** * Bytes and sign extension *)

Lemma bits_div_mod z e k i : 0 <= e -> 0 <= i < k -> Z.testbit (z / 2 ^ e mod 2 ^ k) i = Z.testbit z (i + e).
Proof. intros He Hi. rewrite Z.mod_pow2_bits_low, Z.div_pow2_bits by lia. done. Qed.

(** A group of bits that lies inside one word. *)
Lemma word_bits z i j k : wf z -> 0 <= i < 4 -> 0 <= j -> 0 <= k -> j + k <= 64 -> toZ z / 2 ^ (64 * i + j) mod 2 ^ k = word z i / 2 ^ j mod 2 ^ k.
Proof.
  intros Hz Hi Hj Hk Hjk. apply Z.bits_inj'. intros n Hn. destruct (Z.ltb_spec n k); [|by rewrite !Z.mod_pow2_bits_high by lia].
  rewrite !bits_div_mod, testbit_toZ by (done || lia).
  assert (Hd : (n + (64 * i + j)) / 64 = i) by (apply (div_intro _ _ _ (n + j)); lia). rewrite Hd. f_equal. rewrite Z.mod_eq, Hd by done. lia.
Qed.

Lemma wf_word z i : wf z -> is_u64 (word z i).
Proof. intros Hz. open_wf. unfold word. by repeat case_match. Qed.

Lemma land_7 n : 0 <= n -> Z.land n 7 = n mod 8.
Proof. intros. change 7 with (Z.ones 3). by rewrite Z.land_ones. Qed.

Lemma Byte_spec z n : wf z -> wf n -> wf (Byte z n) /\ toZ (Byte z n) = if Z.ltb (toZ n) 32 then toZ z / 256 ^ (31 - toZ n) mod 256 else 0.
Proof.
  intros Hz Hn. unfold Byte. rewrite Uint64WithOverflow_spec by done. pose proof (toZ_range n Hn) as Hr. destruct (Z.ltb_spec (toZ n) 32) as [Hl|Hl].
  2:{ destruct (Z.leb_spec B64 (toZ n)); cbn [negb andb]; [split; [apply wf_Clear|done]|]. rewrite Z.mod_small by lia.
      rewrite (proj2 (Z.ltb_ge _ _)) by lia. split; [apply wf_Clear|done]. }
  rewrite (proj2 (Z.leb_gt _ _)) by (unfold B64; lia). cbn [negb andb]. rewrite Z.mod_small by (unfold B64; lia). rewrite (proj2 (Z.ltb_lt _ _) Hl).
  assert (E0 : w0 n = toZ n) by (symmetry; apply toZ_IsUint64; [done|unfold B64; lia]). rewrite E0, land_7 by lia. set (N := toZ n) in *.
  pose proof (Z.div_mod N 8 ltac:(lia)). pose proof (Z.mod_pos_bound N 8 ltac:(lia)).
  assert (Ho : shl64 (N mod 8) 3 = 8 * (N mod 8)). { unfold shl64. rewrite Z.shiftl_mul_pow2 by done. rewrite u64_small; [lia|unfold is_u64; lia]. }
  rewrite Ho. set (j := 56 - 8 * (N mod 8)). assert (Hj : u64 j = j) by (apply u64_small; unfold is_u64, j; lia). rewrite Hj.
  assert (Hm : shr64 0xff00000000000000 (8 * (N mod 8)) = Z.shiftl 255 j).
  { unfold shr64. change 0xff00000000000000 with (Z.shiftl 255 56). rewrite Z.shiftr_shiftl_l by lia. f_equal. }
  rewrite Hm. unfold shr64. rewrite Z.shiftr_land, Z.shiftr_shiftl_l by lia. replace (j - j) with 0 by lia. change (Z.shiftl 255 0) with (Z.ones 8).
  rewrite Z.land_ones, Z.shiftr_div_pow2 by lia. pose proof (wf_word z (4 - 1 - N / 8) Hz) as Hw.
  assert (Hb : 0 <= word z (4 - 1 - N / 8) / 2 ^ j mod 2 ^ 8 < 2 ^ 8) by (apply Z.mod_pos_bound; done).
  split; [apply wf_SetUint64; unfold is_u64; lia|]. change (mkInt ?a 0 0 0) with (SetUint64 a). rewrite toZ_SetUint64.
  change 256 with (2 ^ 8). rewrite <- Z.pow_mul_r by lia. replace (8 * (31 - N)) with (64 * (4 - 1 - N / 8) + j) by (unfold j; lia).
  symmetry. apply word_bits; [done|lia|lia|lia|lia].
Qed.

(** Sign extension of the number whose sign is bit [b]. *)
Definition sext (b x : Z) : Z := if Z.testbit x b then x mod 2 ^ (b + 1) - 2 ^ (b + 1) else x mod 2 ^ (b + 1).

Lemma mod_succ_bit x b : 0 <= b -> x mod 2 ^ (b + 1) = (if Z.testbit x b then 2 ^ b else 0) + x mod 2 ^ b.
Proof.
  intros Hb. rewrite Z.testbit_eqb, Z.pow_add_r, Z.pow_1_r, Z.rem_mul_r by lia. pose proof (Z.mod_pos_bound (x / 2 ^ b) 2 ltac:(lia)).
  destruct (Z.eqb_spec ((x / 2 ^ b) mod 2) 1) as [->|]; [lia|]. replace ((x / 2 ^ b) mod 2) with 0 by lia. lia.
Qed.

Lemma lor_high x b : 0 <= x < M256 -> 0 <= b <= 256 -> Z.lor x (M256 - 2 ^ b) = M256 - 2 ^ b + x mod 2 ^ b.
Proof.
  intros Hx Hb. assert (HM : M256 = 2 ^ b * 2 ^ (256 - b)). { rewrite <- Z.pow_add_r by lia. unfold M256. f_equal. lia. }
  assert (Hp : 0 < 2 ^ b) by (apply Z.pow_pos_nonneg; lia). pose proof (Z.mod_pos_bound x (2 ^ b) Hp).
  replace (M256 - 2 ^ b) with (2 ^ b * Z.ones (256 - b)) by (rewrite Z.ones_equiv, HM; lia).
  rewrite <- lor_disjoint by lia. apply Z.bits_inj'. intros n Hn. rewrite !Z.lor_spec. 
  destruct (Z.ltb_spec n b) as [Hnb|Hnb]; [rewrite Z.mod_pow2_bits_low by lia; apply orb_comm|].
  rewrite Z.mod_pow2_bits_high, orb_false_r by lia. rewrite Z.mul_comm, <- Z.shiftl_mul_pow2, Z.shiftl_spec_high by lia.
  destruct (Z.ltb_spec n 256) as [H2|H2]; [rewrite (Z.ones_spec_low (256 - b)) by lia; apply orb_true_r|].
  rewrite Z.ones_spec_high by lia. rewrite <- (Z.mod_small x M256) by done. unfold M256. by rewrite Z.mod_pow2_bits_high by lia.
Qed.

Lemma ExtendSign_spec x b : wf x -> wf b -> is256 (ExtendSign x b) (if Z.ltb 31 (toZ b) then toZ x else sext (8 * toZ b + 7) (toZ x)).
Proof.
  intros Hx Hb. pose proof (toZ_range x Hx) as Hr. unfold ExtendSign. rewrite GtUint64_spec by done.
  destruct (Z.ltb_spec 31 (toZ b)) as [Hl|Hl]; [apply (is256_intro _ _ 0); [done|lia]|]. pose proof (toZ_range b Hb).
  unfold Uint64. rewrite <- (toZ_IsUint64 b) by (done || unfold B64; lia). set (N := toZ b) in *. rewrite u64_small by (unfold is_u64; lia).
  replace (N * 8 + 7) with (8 * N + 7) by lia. set (bit := 8 * N + 7) in *. assert (Hbit : 0 <= bit < 256) by lia.
  assert (Hp : 0 < 2 ^ bit < M256) by (split; [apply Z.pow_pos_nonneg; lia|apply Z.pow_lt_mono_r; lia]).
  destruct (Lsh_is256 SetOne bit wf_SetOne) as [HwL EL]; [lia|]. change (toZ SetOne) with 1 in EL. rewrite Z.mul_1_l, Z.mod_small in EL by lia.
  destruct (SubUint64_is256 (Lsh SetOne bit) 1) as [Hwm Em]; [done|split; lia|]. rewrite EL, Z.mod_small in Em by lia. set (mask := SubUint64 _ _) in *.
  rewrite isBitSet_spec by done. unfold sext. rewrite mod_succ_bit by lia. destruct (Z.testbit (toZ x) bit).
  - destruct (Not_spec mask Hwm) as [HwN EN]. destruct (Or_spec x (Not mask) Hx HwN) as [HwO EO]. rewrite EN, Em in EO.
    replace (M256 - 1 - (2 ^ bit - 1)) with (M256 - 2 ^ bit) in EO by lia. rewrite lor_high in EO by lia.
    apply (is256_intro _ _ (-1)); [done|]. rewrite EO, Z.pow_add_r by lia. lia.
  - destruct (And_spec x mask Hx Hwm) as [HwA EA]. rewrite Em in EA. apply (is256_intro _ _ 0); [done|].
    rewrite EA. replace (2 ^ bit - 1) with (Z.ones bit) by (rewrite Z.ones_equiv; lia). rewrite Z.land_ones by lia. lia.
Qed.
