(* ===== verification/Uint256Div.v ===== *)
(** Division of uint256.go and div.go: the quotient of two words by one with a
    precomputed reciprocal, Knuth's algorithm on 64-bit words, and the operations
    built on them.  None of them panics, and they compute the exact quotient and
    remainder. *)

From S2P Require Import Prelude Common Uint256 Uint256Spec.
Import U256.

(** * Two words by one *)

Definition normalized (d : Z) : Prop := B64 <= 2 * d /\ d < B64.
(** [v] is the reciprocal of [d]; the error of the approximation is between 1 and [d]. *)
Definition reciprocal_of (d v : Z) : Prop := is_u64 v /\ 1 <= B64 * B64 - (B64 + v) * d <= d.

Lemma reciprocal2by1_spec d : normalized d -> exists v, reciprocal2by1 d = Ok v /\ reciprocal_of d v.
Proof.
  intros [Hd Hd']. unfold reciprocal2by1, Div64, not64. rewrite MaxUint64_val, B64_val in *.
  destruct (Z.eqb_spec d 0) as [|_]; [lia|]. destruct (Z.leb_spec d (18446744073709551615 - d)); [lia|].
  set (n := (18446744073709551615 - d) * 18446744073709551616 + 18446744073709551615).
  pose proof (Z.div_mod n d ltac:(lia)). pose proof (Z.mod_pos_bound n d ltac:(lia)). exists (n / d). split; [done|].
  unfold reciprocal_of, is_u64. rewrite B64_val. change (2 ^ 64) with 18446744073709551616. 
  assert (0 <= n / d) by (apply Z.div_pos; lia). split; [split; [done|]|]; [apply Z.div_lt_upper_bound; lia|lia].
Qed.

(** The candidate remainder of Algorithm 4 of Moeller and Granlund lies in a window of
    size less than a word, so that its residue tells the cases apart. *)
Lemma candidate_bounds B d v k uh ul q1 ql : B <= 2 * d -> d < B -> 0 <= v < B -> k = B * B - (B + v) * d -> 1 <= k <= d ->
  0 <= uh < d -> 0 <= ul < B -> 0 <= ql < B -> v * uh + uh * B + ul = q1 * B + ql ->
  let r := uh * B + ul - (q1 + 1) * d in
  - d <= r /\ ql - B < r /\ r < Z.max (B - d) ql /\ 0 <= q1 < B.
Proof.
  intros Hd Hd' Hv Hk Hk' Huh Hul Hql HP r.
  assert (E : B * r = k * uh + ul * (B - d) + ql * d - B * d).
  { unfold r. assert (q1 * B * d = (B * B - k) * uh + ul * d - ql * d); [|lia]. replace (q1 * B) with (v * uh + uh * B + ul - ql) by lia. rewrite Hk. ring. }
  assert (P1 : 0 <= k * uh) by (apply Z.mul_nonneg_nonneg; lia). assert (P2 : 0 <= ul * (B - d)) by (apply Z.mul_nonneg_nonneg; lia).
  assert (P3 : 0 <= ql * d) by (apply Z.mul_nonneg_nonneg; lia). assert (HB : 0 < B) by lia. clearbody r.
  assert (Hdiv : forall a b, B * a <= B * b -> a <= b) by (intros a b; apply Z.mul_le_mono_pos_l; done).
  assert (Hql' : B * (ql - B) < B * r).
  { rewrite E. assert ((B - ql) * d <= (B - ql) * (B - 1)) by (apply Z.mul_le_mono_nonneg_l; lia). lia. }
  split; [apply Hdiv; lia|]. split; [by apply Z.mul_lt_mono_pos_l in Hql'|]. split.
  - set (m := Z.max (B - d) ql). assert (M1 : B - d <= m) by lia. assert (M2 : ql <= m) by lia. clearbody m.
    assert (k * uh <= d * (d - 1)) by (apply Z.mul_le_mono_nonneg; lia). assert (ul * (B - d) <= (B - 1) * (B - d)) by (apply Z.mul_le_mono_nonneg; lia).
    assert ((B - d) * (B - d) <= (B - d) * m) by (apply Z.mul_le_mono_nonneg_l; lia). assert (ql * d <= m * d) by (apply Z.mul_le_mono_nonneg_r; lia).
    assert (r <= m - 1); [|lia]. apply Hdiv. lia.
  - assert (0 <= v * uh) by (apply Z.mul_nonneg_nonneg; lia). assert (0 <= uh * B) by (apply Z.mul_nonneg_nonneg; lia).
    assert ((B + v) * uh <= (B + v) * (d - 1)) by (apply Z.mul_le_mono_nonneg_l; lia).
    assert (B * q1 < B * B /\ B * (-1) < B * q1) as [Q1 Q2] by lia. apply Z.mul_lt_mono_pos_l in Q1, Q2; lia.
Qed.

Lemma digit_fits B a d uh ul : a * d <= uh * B + ul -> 0 <= uh < d -> 0 <= ul < B -> a < B.
Proof.
  intros Ha Huh Hul. assert (uh * B <= (d - 1) * B) by (apply Z.mul_le_mono_nonneg_r; lia). apply (Z.mul_lt_mono_pos_r d); lia.
Qed.

Lemma udivrem2by1_spec uh ul d v : normalized d -> reciprocal_of d v -> 0 <= uh < d -> is_u64 ul ->
  exists q r, udivrem2by1 uh ul d v = (q, r) /\ uh * B64 + ul = q * d + r /\ 0 <= r < d /\ is_u64 q.
Proof.
  intros [Hd Hd'] [Hv Hk] Huh Hul. unfold udivrem2by1. destruct (Mul64_spec v uh) as (hi & lo & -> & EP & Hlo & Hhi); [done|unfold is_u64; change (2 ^ 64) with B64; lia|].
  destruct (Add64_spec lo ul 0) as (ql & c & -> & EA & Hql & Hc); [done|done|lia|].
  destruct (candidate_bounds B64 d v _ uh ul (hi + uh + c) ql Hd Hd' Hv eq_refl Hk Huh Hul Hql) as (B1 & B2 & B3 & B4); [lia|].
  unfold Add64. cbv beta iota. rewrite (u64_small (hi + uh + c)) by done. set (q1 := hi + uh + c) in *. set (rt := uh * B64 + ul - (q1 + 1) * d) in *.
  assert (Er : u64 (ul - u64 (q1 + 1) * d) = u64 rt).
  { unfold u64. change (2 ^ 64) with B64. rewrite Zminus_mod, Z.mul_mod_idemp_l, <- Zminus_mod by done.
    unfold rt. replace (uh * B64 + ul - (q1 + 1) * d) with (ul - (q1 + 1) * d + uh * B64) by ring. by rewrite Z_mod_plus_full. }
  rewrite Er. clear Er EP EA. unfold is_u64 in Hql, Hul, Hv. change (2 ^ 64) with B64 in *.
  assert (HB : 0 < B64) by done.
  assert (Eq : forall z, u64 (z + B64) = u64 z) by (intros z; unfold u64; change (2 ^ 64) with B64; rewrite <- (Z.mul_1_l B64) at 1; apply Z_mod_plus_full).
  assert (Eq1 : u64 (u64 (q1 + 1) - 1) = q1).
  { transitivity (u64 (q1 + 1 - 1)); [|replace (q1 + 1 - 1) with q1 by lia; apply u64_small; done]. unfold u64. by rewrite Zminus_mod_idemp_l. }
  destruct (Z.ltb_spec rt 0) as [Hneg|Hpos].
  - assert (Eu : u64 rt = rt + B64) by (rewrite <- Eq; apply u64_small; unfold is_u64; change (2 ^ 64) with B64; lia). rewrite Eu.
    destruct (Z.ltb_spec ql (rt + B64)) as [_|]; [|lia]. rewrite Eq1. replace (rt + B64 + d) with (rt + d + B64) by lia.
    rewrite Eq, (u64_small (rt + d)) by (unfold is_u64; change (2 ^ 64) with B64; lia). destruct (Z.leb_spec d (rt + d)); [lia|].
    eexists _, _. split; [reflexivity|]. split; [unfold rt; ring|]. split; [lia|done].
  - assert (Eu : u64 rt = rt) by (apply u64_small; unfold is_u64; change (2 ^ 64) with B64; lia). rewrite Eu.
    assert (Hfit : q1 + 1 < B64) by (apply (digit_fits _ _ d uh ul); [lia|done|done]).
    destruct (Z.ltb_spec ql rt) as [Hgt|Hle].
    + rewrite Eq1, (u64_small (rt + d)) by (unfold is_u64; change (2 ^ 64) with B64; lia). destruct (Z.leb_spec d (rt + d)); [|lia].
      replace (rt + d - d) with rt by lia. rewrite Eu, (u64_small (q1 + 1)) by (unfold is_u64; change (2 ^ 64) with B64; lia).
      eexists _, _. split; [reflexivity|]. split; [unfold rt; ring|]. split; [lia|unfold is_u64; change (2 ^ 64) with B64; lia].
    + rewrite (u64_small (q1 + 1)) by (unfold is_u64; change (2 ^ 64) with B64; lia). destruct (Z.leb_spec d rt) as [Hge|Hlt].
      * assert (q1 + 1 + 1 < B64) by (apply (digit_fits _ _ d uh ul); [lia|done|done]).
        rewrite (u64_small (q1 + 1 + 1)), (u64_small (rt - d)) by (unfold is_u64; change (2 ^ 64) with B64; lia).
        eexists _, _. split; [reflexivity|]. split; [unfold rt; ring|]. split; [lia|unfold is_u64; change (2 ^ 64) with B64; lia].
      * eexists _, _. split; [reflexivity|]. split; [unfold rt; ring|]. split; [lia|unfold is_u64; change (2 ^ 64) with B64; lia].
Qed.

(** * Lists of words *)

Lemma len_cons {A} (x : A) l : len (x :: l) = 1 + len l.
Proof. unfold len. simpl length. lia. Qed.

Lemma addTo_spec : forall y x c, Forall is_u64 x -> Forall is_u64 y -> (length y <= length x)%nat -> 0 <= c <= 1 ->
  exists x' c', addTo x y c = Ok (x', c') /\ Forall is_u64 x' /\ length x' = length x /\ drop (length y) x' = drop (length y) x /\ 0 <= c' <= 1
    /\ val (take (length y) x') + B64 ^ len y * c' = val (take (length y) x) + val y + c.
Proof.
  induction y as [|yi y IH]; intros x c Hx Hy Hl Hc.
  - exists x, c. cbn [addTo]. do 5 (split; [done|]). change (len []) with 0. rewrite Z.pow_0_r. cbn [length take]. unfold val. cbn. lia.
  - destruct x as [|xi x]; [simpl in Hl; lia|]. apply Forall_cons in Hx as [Hxi Hx], Hy as [Hyi Hy]. cbn [addTo].
    destruct (Add64_spec xi yi c Hxi Hyi Hc) as (s & k & -> & E & Hs & Hk). destruct (IH x k Hx Hy ltac:(simpl in Hl; lia) Hk) as (x' & c' & -> & Hx' & Hl' & Hd & Hc' & E').
    exists (s :: x'), c'. split; [done|]. split; [by constructor|]. split; [simpl; lia|]. split; [done|]. split; [done|].
    cbn [length take]. rewrite !val_cons, len_cons, Z.pow_add_r, Z.pow_1_r by (unfold len; lia). nia.
Qed.

Lemma subMulTo_spec m : is_u64 m -> forall y x b, Forall is_u64 x -> Forall is_u64 y -> (length y <= length x)%nat -> is_u64 b ->
  exists x' b', subMulTo x y m b = Ok (x', b') /\ Forall is_u64 x' /\ length x' = length x /\ drop (length y) x' = drop (length y) x /\ is_u64 b'
    /\ val (take (length y) x') - B64 ^ len y * b' = val (take (length y) x) - val y * m - b.
Proof.
  intros Hm. induction y as [|yi y IH]; intros x b Hx Hy Hl Hb.
  - exists x, b. cbn [subMulTo]. do 5 (split; [done|]). change (len []) with 0. rewrite Z.pow_0_r. cbn [length take]. unfold val. cbn. lia.
  - destruct x as [|xi x]; [simpl in Hl; lia|]. apply Forall_cons in Hx as [Hxi Hx], Hy as [Hyi Hy]. cbn [subMulTo].
    destruct (Sub64_spec xi b 0 Hxi Hb) as (s & k1 & -> & E1 & Hs & Hk1); [lia|]. destruct (Mul64_spec yi m Hyi Hm) as (ph & pl & -> & EP & Hpl & Hph).
    destruct (Sub64_spec s pl 0 Hs Hpl) as (t & k2 & -> & E2 & Ht & Hk2); [lia|].
    assert (Hb' : is_u64 (ph + k1 + k2)).
    { assert (yi * m <= (B64 - 1) * (B64 - 1)) by (apply Z.mul_le_mono_nonneg; unfold is_u64, B64 in *; lia). unfold is_u64. change (2 ^ 64) with B64.
      split; [lia|]. apply (Z.mul_lt_mono_pos_l B64); [done|]. unfold is_u64 in *. change (2 ^ 64) with B64 in *. lia. }
    rewrite u64_small by done.
    destruct (IH x (ph + k1 + k2) Hx Hy ltac:(simpl in Hl; lia) Hb') as (x' & b' & -> & Hx' & Hl' & Hd & Hbb & E').
    exists (t :: x'), b'. split; [done|]. split; [by constructor|]. split; [simpl; lia|]. split; [done|]. split; [done|].
    cbn [length take]. rewrite !val_cons, len_cons, Z.pow_add_r, Z.pow_1_r by (unfold len; lia). 
    replace (t + B64 * val (take (length y) x') - B64 * B64 ^ len y * b') with (t + B64 * (val (take (length y) x') - B64 ^ len y * b')) by ring.
    rewrite E'. lia.
Qed.

(** * Knuth's algorithm *)

(** The quotient digit estimated from the top three words of the dividend [U] and the
    top two of the divisor [D] is at most one too large; [P] is the weight of the words
    below. *)
Lemma trialDigit_spec u2 u1 u0 dh dl v P ul dlow (U := (u2 * (B64 * B64) + u1 * B64 + u0) * P + ul) (D := (dh * B64 + dl) * P + dlow) :
  is_u64 u2 -> is_u64 u1 -> is_u64 u0 -> normalized dh -> is_u64 dl -> reciprocal_of dh v -> 0 < P -> 0 <= ul < P -> 0 <= dlow < P -> U < B64 * D ->
  exists q, trialDigit u2 u1 u0 dh dl v = q /\ is_u64 q /\ U < (q + 1) * D /\ (q - 1) * D <= U.
Proof.
  intros H2 H1 H0 Hn Hl Hv HP Hul Hdl Hlt. eexists. split; [reflexivity|]. unfold trialDigit. pose proof Hn as [N1 N2].
  unfold is_u64 in H2, H1, H0, Hl. change (2 ^ 64) with B64 in *. set (X := u2 * (B64 * B64) + u1 * B64 + u0) in *. set (Y := dh * B64 + dl) in *.
  assert (HD : 0 < Y * P) by (apply Z.mul_pos_pos; unfold Y, B64 in *; lia).
  assert (HB : 0 < B64) by done. assert (HU1B : 0 <= u1 * B64) by (apply Z.mul_nonneg_nonneg; lia).
  destruct (Z.leb_spec dh u2) as [Hge|Hlt2].
  - split; [done|]. change MaxUint64 with (B64 - 1). split; [replace (B64 - 1 + 1) with B64 by lia; done|].
    assert (B64 * D - U <= 2 * D); [|lia].
    assert (B64 * D <= B64 * ((dh * B64 + B64) * P)). { apply Z.mul_le_mono_nonneg_l; [done|]. unfold D. assert ((dl + 1) * P <= B64 * P) by (apply Z.mul_le_mono_nonneg_r; lia). unfold Y. lia. }
    assert (dh * (B64 * B64) * P <= U). { unfold U. assert (dh * (B64 * B64) * P <= X * P); [|lia]. apply Z.mul_le_mono_nonneg_r; [lia|]. unfold X. assert (dh * (B64 * B64) <= u2 * (B64 * B64)) by (apply Z.mul_le_mono_nonneg_r; [done|lia]). lia. }
    assert (B64 * (B64 * P) <= 2 * dh * (B64 * P)) by (apply Z.mul_le_mono_nonneg_r; lia).
    assert (0 <= dl * P) by (apply Z.mul_nonneg_nonneg; lia). assert (dh * B64 * P <= D) by (unfold D, Y; lia). lia.
  - destruct (udivrem2by1_spec u2 u1 dh v Hn Hv ltac:(lia) H1) as (q0 & r & -> & Eq & Hr & Hq). unfold is_u64 in Hq. change (2 ^ 64) with B64 in Hq.
    destruct (Mul64_spec q0 dl Hq Hl) as (ph & pl & -> & EP & Hpl & _). unfold is_u64 in Hpl. change (2 ^ 64) with B64 in Hpl.
    assert (HX : X - q0 * Y = r * B64 + u0 - (ph * B64 + pl)) by (unfold X, Y; nia).
    assert (Htest : (Z.ltb r ph || Z.eqb ph r && Z.ltb u0 pl) = Z.ltb X (q0 * Y)).
    { apply eq_true_iff_eq. rewrite orb_true_iff, andb_true_iff, Z.eqb_eq, !Z.ltb_lt. split; [intros [?|[-> ?]]; nia|]. intros. destruct (Z.lt_trichotomy r ph) as [|[|]]; [lia|right; lia|nia]. }
    assert (HY : B64 <= Y) by (unfold Y; assert (1 * B64 <= dh * B64) by (apply Z.mul_le_mono_nonneg_r; lia); lia).
    assert (HU1 : X * P <= U) by (unfold U; lia). assert (HU2 : U < (X + 1) * P) by (unfold U; lia). assert (HD1 : Y * P <= D) by (unfold D; lia).
    assert (HX0 : 0 <= X * P) by (apply Z.mul_nonneg_nonneg; [unfold X; assert (0 <= u2 * (B64 * B64)) by (apply Z.mul_nonneg_nonneg; [lia|done]); lia|lia]).
    rewrite Htest. destruct (Z.ltb_spec X (q0 * Y)) as [Hf|Hf].
    + assert (1 <= q0). { destruct (Z.eq_dec q0 0) as [->|]; [|lia]. unfold X in Hf. nia. } rewrite u64_small by (unfold is_u64; change (2 ^ 64) with B64; lia).
      split; [unfold is_u64; change (2 ^ 64) with B64; lia|]. replace (q0 - 1 + 1) with q0 by lia. split.
      * assert ((X + 1) * P <= q0 * Y * P) by (apply Z.mul_le_mono_nonneg_r; lia). assert (q0 * (Y * P) <= q0 * D) by (apply Z.mul_le_mono_nonneg_l; lia). lia.
      * destruct (Z.le_gt_cases q0 2) as [Hs|Hs]; [assert ((q0 - 1 - 1) * D <= 0) by (apply Z.mul_nonpos_nonneg; lia); lia|].
        assert (HD2 : D <= (dh + 1) * (B64 * P)). { unfold D. assert ((dl + 1) * P <= B64 * P) by (apply Z.mul_le_mono_nonneg_r; lia). unfold Y. lia. }
        assert (H3 : (q0 - 2) * D <= (q0 - 2) * ((dh + 1) * (B64 * P))) by (apply Z.mul_le_mono_nonneg_l; lia).
        assert (H4 : (q0 - 2) * (dh + 1) <= u2 * B64 + u1) by lia.
        assert (H5 : (q0 - 2) * (dh + 1) * (B64 * P) <= (u2 * B64 + u1) * (B64 * P)) by (apply Z.mul_le_mono_nonneg_r; [apply Z.mul_nonneg_nonneg; lia|done]).
        assert (H6 : 0 <= u0 * P) by (apply Z.mul_nonneg_nonneg; lia). unfold X in HU1. lia.
    + split; [done|]. split.
      * assert (X + 1 <= (q0 + 1) * Y). { unfold X, Y. assert (u2 * B64 + u1 < (q0 + 1) * dh) by lia. assert ((u2 * B64 + u1 + 1) * B64 <= (q0 + 1) * dh * B64) by (apply Z.mul_le_mono_nonneg_r; lia). assert (0 <= (q0 + 1) * dl) by (apply Z.mul_nonneg_nonneg; lia). lia. }
        assert ((X + 1) * P <= (q0 + 1) * Y * P) by (apply Z.mul_le_mono_nonneg_r; lia). assert ((q0 + 1) * (Y * P) <= (q0 + 1) * D) by (apply Z.mul_le_mono_nonneg_l; lia). lia.
      * destruct (Z.eq_dec q0 0) as [->|]; [nia|]. assert (HD2 : D <= (Y + 1) * P) by (unfold D; lia).
        assert (H3 : (q0 - 1) * D <= (q0 - 1) * ((Y + 1) * P)) by (apply Z.mul_le_mono_nonneg_l; lia).
        assert (H4 : (q0 - 1) * (Y + 1) * P <= X * P) by (apply Z.mul_le_mono_nonneg_r; lia). lia.
Qed.

(** ** Pieces of a list of words *)

Lemma val_take_S l i w : l !! i = Some w -> val (take (S i) l) = val (take i l) + B64 ^ Z.of_nat i * w.
Proof.
  intros E. rewrite (take_S_r _ _ _ E), val_app. unfold len. rewrite length_take_le by (apply lookup_lt_Some in E; lia). unfold val at 2. cbn [foldr]. lia.
Qed.

Lemma val_take_drop l i n : (i + n <= length l)%nat -> val (take (i + n) l) = val (take i l) + B64 ^ Z.of_nat i * val (take n (drop i l)).
Proof.
  intros Hl. rewrite <- (take_drop i (take (i + n) l)), val_app. rewrite take_take, take_drop_commute, Nat.min_l by lia. unfold len. by rewrite length_take_le by lia.
Qed.

Lemma idx_Some {A} (l : list A) i x : l !! i = Some x -> idx l i = Ok x.
Proof. unfold idx. by intros ->. Qed.

Lemma setIdx_ok {A} (l : list A) i x : (i < length l)%nat -> setIdx l i x = Ok (<[i := x]> l).
Proof. intros Hi. unfold setIdx. by rewrite (proj2 (Nat.ltb_lt _ _) Hi). Qed.

Lemma Forall_u64_lookup l i w : Forall is_u64 l -> l !! i = Some w -> is_u64 w.
Proof. intros Hl E. by eapply Forall_lookup_1. Qed.

Lemma Forall_u64_insert l i w : Forall is_u64 l -> is_u64 w -> Forall is_u64 (<[i := w]> l).
Proof. intros Hl Hw. by apply Forall_insert. Qed.

(** Replacing the words from [j] on. *)
Lemma splice_facts (u uj : list Z) j n w : (j + n < length u)%nat -> length uj = length (drop j u) ->
  let u' := <[(j + n)%nat := w]> (take j u ++ uj) in
  length u' = length u /\ take j u' = take j u /\ take n (drop j u') = take n uj /\ u' !! (j + n)%nat = Some w.
Proof.
  intros Hl Hj u'. rewrite length_drop in Hj. assert (Ht : length (take j u) = j) by (rewrite length_take; lia).
  assert (Hlen : length (take j u ++ uj) = length u) by (rewrite length_app, Ht, Hj; lia).
  assert (Eu : u' = take j u ++ <[n := w]> uj). { unfold u'. rewrite <- Ht at 1. apply insert_app_r. }
  split; [unfold u'; by rewrite length_insert|]. split; [rewrite Eu; apply take_app_length'; by rewrite Ht|].
  rewrite Eu. rewrite drop_app_length' by (by rewrite Ht). split; [by rewrite take_insert_ge by lia|].
  rewrite lookup_app_r by lia. rewrite Ht. replace (j + n - j)%nat with n by lia. apply list_lookup_insert_eq. lia.
Qed.

Lemma val_top_two l n a b : (2 <= n)%nat -> l !! (n - 1)%nat = Some a -> l !! (n - 2)%nat = Some b ->
  val (take n l) = (a * B64 + b) * B64 ^ Z.of_nat (n - 2) + val (take (n - 2) l).
Proof.
  intros Hn Ea Eb. replace n with (S (n - 1)) at 1 by lia. rewrite (val_take_S _ _ _ Ea). replace (n - 1)%nat with (S (n - 2)) by lia.
  rewrite (val_take_S _ _ _ Eb). rewrite Nat2Z.inj_succ, Z.pow_succ_r by lia. ring.
Qed.

Lemma val_take_range l n : Forall is_u64 l -> (n <= length l)%nat -> 0 <= val (take n l) < B64 ^ Z.of_nat n.
Proof. intros Hl Hn. pose proof (val_range (take n l) (Forall_take _ _ _ Hl)) as H. unfold len in H. by rewrite length_take_le in H by lia. Qed.

Lemma carry_zero Bn t v R : 0 <= v < Bn -> 0 <= R < Bn -> R = v + Bn * t -> t = 0.
Proof.
  intros Hv HR E. assert (Bn * t < Bn * 1 /\ Bn * (-1) < Bn * t) as [G1 G2] by lia. apply Z.mul_lt_mono_pos_l in G1, G2; lia.
Qed.

(** One digit: the multiple of the divisor is subtracted, and added back if it was one
    too many.  [Uv] is the value of the [n + 1] words at hand. *)
Lemma knuth_step j quot u d v u2 u1 u0 dh dl : let n := length d in
  Forall is_u64 u -> Forall is_u64 d -> (j + n < length u)%nat -> (j < length quot)%nat -> (2 <= n)%nat ->
  u !! (j + n)%nat = Some u2 -> u !! (j + n - 1)%nat = Some u1 -> u !! (j + n - 2)%nat = Some u0 ->
  d !! (n - 1)%nat = Some dh -> d !! (n - 2)%nat = Some dl -> normalized dh -> reciprocal_of dh v ->
  let Uv := val (take n (drop j u)) + B64 ^ Z.of_nat n * u2 in
  Uv < B64 * val d ->
  exists q u', is_u64 q /\ Forall is_u64 u' /\ length u' = length u /\ take j u' = take j u
    /\ Uv = q * val d + val (take n (drop j u')) /\ val (take n (drop j u')) < val d
    /\ udivremKnuth_loop (S j) quot u d dh dl v = udivremKnuth_loop j (<[j := q]> quot) u' d dh dl v.
Proof.
  intros n Hu Hd Hj Hq Hn E2 E1 E0 Eh El Hnorm Hv Uv HUv.
  pose proof (Forall_u64_lookup u _ _ Hu E2) as H2. pose proof (Forall_u64_lookup u _ _ Hu E1) as H1. pose proof (Forall_u64_lookup u _ _ Hu E0) as H0.
  pose proof (Forall_u64_lookup d _ _ Hd El) as Hdl. set (P := B64 ^ Z.of_nat (n - 2)).
  assert (HP : 0 < P) by (apply Z.pow_pos_nonneg; [done|lia]).
  assert (ED : val d = (dh * B64 + dl) * P + val (take (n - 2) d)). { unfold P. rewrite <- (val_top_two d n dh dl) by done. f_equal. unfold n. by rewrite firstn_all. }
  assert (Hlu : Forall is_u64 (drop j u)) by (by apply Forall_drop). assert (Hllu : (n < length (drop j u))%nat) by (rewrite length_drop; lia).
  assert (EU : Uv = (u2 * (B64 * B64) + u1 * B64 + u0) * P + val (take (n - 2) (drop j u))).
  { unfold Uv. rewrite (val_top_two (drop j u) n u1 u0); [|done|rewrite lookup_drop; rewrite <- E1; f_equal; lia|rewrite lookup_drop; rewrite <- E0; f_equal; lia].
    fold P. replace (B64 ^ Z.of_nat n) with (B64 * B64 * P); [ring|]. unfold P. replace (Z.of_nat n) with (2 + Z.of_nat (n - 2)) by lia. by rewrite Z.pow_add_r by lia. }
  destruct (trialDigit_spec u2 u1 u0 dh dl v P (val (take (n - 2) (drop j u))) (val (take (n - 2) d)) H2 H1 H0 Hnorm Hdl Hv HP) as (qh & Eq & Hqh & Hup & Hlow).
  { apply val_take_range; [done|lia]. } { apply val_take_range; [done|lia]. } { by rewrite <- EU, <- ED. }
  rewrite <- EU, <- ED in Hup, Hlow. cbn [udivremKnuth_loop]. fold n.
  rewrite (idx_Some _ _ _ E2), (idx_Some _ _ _ E1), (idx_Some _ _ _ E0). cbn [mbind outcome_bind]. rewrite Eq.
  destruct (subMulTo_spec qh Hqh d (drop j u) 0 Hlu Hd ltac:(lia) is_u64_0) as (uj & b & -> & Huj & Hluj & _ & Hb & Esub). cbn [mbind outcome_bind]. fold n in Esub.
  assert (HBn : 0 < B64 ^ Z.of_nat n) by (apply Z.pow_pos_nonneg; [done|lia]). change (len d) with (Z.of_nat n) in Esub. set (Bn := B64 ^ Z.of_nat n) in *.
  assert (HD : 0 <= val d < Bn) by (apply val_range; done).
  assert (Hval : forall l, Forall is_u64 l -> (n <= length l)%nat -> 0 <= val (take n l) < Bn) by (intros; by apply val_take_range).
  pose proof (Hval uj Huj ltac:(lia)) as Hr. assert (Erem : Uv - qh * val d = val (take n uj) + Bn * (u2 - b)) by (unfold Uv; lia).
  rewrite setIdx_ok by (rewrite length_app, Hluj, length_take, length_drop; lia). cbn [mbind outcome_bind].
  destruct (splice_facts u uj j n (u64 (u2 - b)) Hj Hluj) as (S1 & S2 & S3 & S4). set (us := <[(j + n)%nat := u64 (u2 - b)]> (take j u ++ uj)) in *.
  assert (Hus : Forall is_u64 us). { apply Forall_u64_insert; [|apply u64_range]. apply Forall_app. split; [by apply Forall_take|done]. }
  destruct (Z.ltb_spec u2 b) as [Hlt|Hge].
  - assert (Hneg : Bn * (u2 - b) <= Bn * (-1)) by (apply Z.mul_le_mono_nonneg_l; lia).
    assert (Hqpos : 1 <= qh). { pose proof (Hval (drop j u) Hlu ltac:(lia)). assert (0 <= Bn * u2) by (apply Z.mul_nonneg_nonneg; unfold is_u64 in H2; lia).
      destruct (Z.le_gt_cases qh 0); [|lia]. assert (qh * val d <= 0) by (apply Z.mul_nonpos_nonneg; lia). unfold Uv in *. lia. }
    assert (Hdj : length (drop j us) = length (drop j u)) by (rewrite !length_drop, S1; done).
    destruct (addTo_spec d (drop j us) 0) as (ua & c & -> & Hua & Hlua & Edrop & Hc & Eadd); [by apply Forall_drop|done|lia|lia|]. fold n in Eadd, Edrop. cbn [mbind outcome_bind].
    change (len d) with (Z.of_nat n) in Eadd. fold Bn in Eadd. rewrite S3 in Eadd.
    assert (Etop : (take j us ++ ua) !! (j + n)%nat = Some (u64 (u2 - b))).
    { rewrite lookup_app_r by (rewrite length_take; lia). rewrite length_take, Nat.min_l by lia. replace (j + n - j)%nat with n by lia.
      rewrite <- (Nat.add_0_r n), <- lookup_drop, Edrop, !lookup_drop, Nat.add_0_r. done. }
    rewrite (idx_Some _ _ _ Etop). cbn [mbind outcome_bind]. rewrite setIdx_ok by (apply lookup_lt_Some in Etop; done). cbn [mbind outcome_bind]. rewrite setIdx_ok by done. cbn [mbind outcome_bind].
    destruct (splice_facts us ua j n (u64 (u64 (u2 - b) + c)) ltac:(lia) Hlua) as (T1 & T2 & T3 & _).
    assert (Hrem : Uv - (qh - 1) * val d = val (take n ua) + Bn * (u2 - b + c)) by lia.
    assert (Hz : u2 - b + c = 0) by (eapply (carry_zero Bn _ (val (take n ua))); [apply Hval; [done|lia]| |exact Hrem]; lia).
    eexists (u64 (qh - 1)), _. split; [apply u64_range|]. split; [|split; [|split; [|split; [|split; [|reflexivity]]]]].
    + apply Forall_u64_insert; [|apply u64_range]. apply Forall_app. split; [by apply Forall_take|done].
    + by rewrite T1.
    + by rewrite T2.
    + rewrite T3, u64_small by (unfold is_u64 in *; lia). rewrite Hz in Hrem. lia.
    + rewrite T3. rewrite Hz in Hrem. lia.
  - cbn [mbind outcome_bind]. rewrite setIdx_ok by done. cbn [mbind outcome_bind]. exists qh, us. split; [done|]. split; [done|]. split; [done|]. split; [done|].
    assert (Hpos : 0 <= Bn * (u2 - b)) by (apply Z.mul_nonneg_nonneg; lia).
    assert (Hz : u2 - b = 0) by (eapply (carry_zero Bn _ (val (take n uj))); [done| |exact Erem]; lia). rewrite Hz in Erem. rewrite S3. split; [lia|]. split; [lia|done].
Qed.

Lemma udivremKnuth_loop_spec d v dh dl : let n := length d in
  Forall is_u64 d -> (2 <= n)%nat -> d !! (n - 1)%nat = Some dh -> d !! (n - 2)%nat = Some dl -> normalized dh -> reciprocal_of dh v ->
  forall c quot u, Forall is_u64 u -> Forall is_u64 quot -> (c + n <= length u)%nat -> (c <= length quot)%nat -> val (take n (drop c u)) < val d ->
  exists quot' u', udivremKnuth_loop c quot u d dh dl v = Ok (quot', u') /\ Forall is_u64 quot' /\ length quot' = length quot /\ drop c quot' = drop c quot
    /\ Forall is_u64 u' /\ length u' = length u /\ val (take (c + n) u) = val (take c quot') * val d + val (take n u') /\ val (take n u') < val d.
Proof.
  intros n Hd Hn Eh El Hnorm Hv. induction c as [|j IH]; intros quot u Hu Hquot Hlu Hlq Hlt.
  - exists quot, u. cbn [udivremKnuth_loop]. rewrite drop_0 in Hlt. by split_and!.
  - destruct (lookup_lt_is_Some_2 u (j + n)) as [u2 E2]; [lia|]. destruct (lookup_lt_is_Some_2 u (j + n - 1)) as [u1 E1]; [lia|].
    destruct (lookup_lt_is_Some_2 u (j + n - 2)) as [u0 E0]; [lia|]. destruct (lookup_lt_is_Some_2 u j) as [w Ej]; [lia|].
    assert (Hshift : val (take n (drop j u)) + B64 ^ Z.of_nat n * u2 = w + B64 * val (take n (drop (S j) u))).
    { rewrite <- (val_take_S (drop j u) n u2) by (by rewrite lookup_drop). rewrite (drop_S u w j Ej). cbn [take]. apply val_cons. }
    pose proof (Forall_u64_lookup u _ _ Hu Ej) as Hw. unfold is_u64 in Hw. change (2 ^ 64) with B64 in Hw.
    destruct (knuth_step j quot u d v u2 u1 u0 dh dl Hu Hd ltac:(fold n; lia) ltac:(lia) Hn E2 E1 E0 Eh El Hnorm Hv) as (q & u' & Hq & Hu' & Hl' & Ht & EU & Hr & ->).
    { fold n. rewrite Hshift. assert (B64 * val (take n (drop (S j) u)) <= B64 * (val d - 1)) by (apply Z.mul_le_mono_nonneg_l; [done|lia]). lia. }
    fold n in EU, Hr. destruct (IH (<[j := q]> quot) u') as (quot' & u'' & E & Hq' & Hlq' & Hdq & Hu'' & Hl'' & Ev & Hr''); [done|by apply Forall_u64_insert|lia|rewrite length_insert; lia|done|].
    rewrite length_insert in Hlq'. exists quot', u''. split; [exact E|]. split; [done|]. split; [done|].
    assert (Eqj : quot' !! j = Some q). { rewrite <- (Nat.add_0_r j), <- lookup_drop, Hdq, lookup_drop, Nat.add_0_r. apply list_lookup_insert_eq. lia. }
    split. { replace (S j) with (j + 1)%nat by lia. rewrite <- !drop_drop, Hdq, !drop_drop. apply drop_insert_lt. lia. }
    split; [done|]. split; [lia|]. split; [|done].
    replace (S j + n)%nat with (j + S n)%nat by lia. rewrite val_take_drop by lia. rewrite (val_take_S (drop j u) n u2) by (by rewrite lookup_drop). rewrite EU.
    rewrite (val_take_S _ _ _ Eqj). rewrite val_take_drop, Ht in Ev by lia. lia.
Qed.

(** * One-word divisors *)

Lemma udivremBy1_loop_spec d v u : normalized d -> reciprocal_of d v -> Forall is_u64 u -> forall c quot rem, Forall is_u64 quot -> (c <= length u)%nat -> (c <= length quot)%nat -> 0 <= rem < d ->
  exists quot' rem', udivremBy1_loop c quot u d v rem = Ok (quot', rem') /\ Forall is_u64 quot' /\ length quot' = length quot /\ drop c quot' = drop c quot
    /\ val (take c u) + B64 ^ Z.of_nat c * rem = val (take c quot') * d + rem' /\ 0 <= rem' < d.
Proof.
  intros Hn Hv Hu. induction c as [|j IH]; intros quot rem Hquot Hlu Hlq Hrem.
  - exists quot, rem. cbn [udivremBy1_loop]. change (Z.of_nat 0) with 0. rewrite Z.pow_0_r, !take_0. change (val []) with 0. do 4 (split; [done|]). split; [lia|done].
  - destruct (lookup_lt_is_Some_2 u j) as [w Ej]; [lia|]. cbn [udivremBy1_loop]. rewrite (idx_Some _ _ _ Ej). cbn [mbind outcome_bind].
    destruct (udivrem2by1_spec rem w d v Hn Hv Hrem (Forall_u64_lookup u _ _ Hu Ej)) as (q & r & -> & E & Hr & Hq). rewrite setIdx_ok by lia. cbn [mbind outcome_bind].
    destruct (IH (<[j := q]> quot) r) as (quot' & rem' & -> & Hq' & Hl' & Hd' & E' & Hr'); [by apply Forall_u64_insert|lia|rewrite length_insert; lia|done|].
    rewrite length_insert in Hl'. exists quot', rem'. split; [done|]. split; [done|]. split; [done|].
    assert (Eqj : quot' !! j = Some q). { rewrite <- (Nat.add_0_r j), <- lookup_drop, Hd', lookup_drop, Nat.add_0_r. apply list_lookup_insert_eq. lia. }
    split. { replace (S j) with (j + 1)%nat by lia. rewrite <- !drop_drop, Hd', !drop_drop. apply drop_insert_lt. lia. }
    split; [|done]. rewrite (val_take_S _ _ _ Ej), (val_take_S _ _ _ Eqj), Nat2Z.inj_succ, Z.pow_succ_r by lia.
    replace (val (take j u) + B64 ^ Z.of_nat j * w + B64 * B64 ^ Z.of_nat j * rem) with (val (take j u) + B64 ^ Z.of_nat j * (rem * B64 + w)) by ring. rewrite E. lia.
Qed.

(** * Normalisation *)

Lemma sigWords_spec l : Forall is_u64 l -> let n := sigWords l in
  (n <= length l)%nat /\ val (take n l) = val l /\ (n = 0%nat -> val l = 0) /\ (n <> 0%nat -> exists w, l !! (n - 1)%nat = Some w /\ w <> 0).
Proof.
  induction 1 as [|w l Hw Hl IH]; [done|]. cbv zeta in *. cbn [sigWords]. destruct IH as (I1 & I2 & I3 & I4). destruct (sigWords l) as [|m] eqn:Es.
  - specialize (I3 eq_refl). destruct (Z.eqb_spec w 0) as [->|Hne].
    + split; [lia|]. cbn [take]. rewrite val_cons, I3. split; [done|]. split; [done|]. done.
    + split; [simpl; lia|]. cbn [take]. rewrite !val_cons, I3. split; [done|]. split; [done|]. intros _. by exists w.
  - split; [simpl; lia|]. rewrite firstn_cons, !val_cons, I2. split; [done|]. split; [done|]. intros _.
    destruct I4 as (w' & E & Hw'); [done|]. exists w'. split; [|done]. replace (S (S m) - 1)%nat with (S (S m - 1)) by lia. done.
Qed.

Lemma LeadingZeros64_spec w : is_u64 w -> w <> 0 -> let s := LeadingZeros64 w in 0 <= s < 64 /\ shr64 w (64 - s) = 0 /\ B64 <= 2 * (w * 2 ^ s).
Proof.
  intros Hw Hne. destruct (Len64_spec w Hw) as (L1 & L2 & L3). specialize (L3 Hne). unfold LeadingZeros64. cbv zeta. unfold is_u64 in Hw.
  assert (1 <= Len64 w). { destruct (Z.eq_dec (Len64 w) 0) as [E|]; [rewrite E in L2; lia|lia]. }
  split; [lia|]. replace (64 - (64 - Len64 w)) with (Len64 w) by lia. split.
  - unfold shr64. rewrite Z.shiftr_div_pow2 by lia. apply Z.div_small. lia.
  - assert (E : B64 = 2 ^ (Len64 w - 1) * 2 ^ (64 - Len64 w) * 2). { rewrite <- Z.pow_add_r by lia. replace (Len64 w - 1 + (64 - Len64 w)) with 63 by lia. done. }
    rewrite E. assert (0 < 2 ^ (64 - Len64 w)) by (apply Z.pow_pos_nonneg; lia). nia.
Qed.

Lemma last_cons_default {A} (l : list A) : forall y d, List.last (y :: l) d = List.last l y.
Proof. induction l as [|z l IH]; intros y d; [done|]. change (List.last (z :: l) d = List.last (z :: l) y). by rewrite !IH. Qed.

Lemma last_default {A} (l : list A) x top : last (x :: l) = Some top -> List.last l x = top.
Proof. revert x. induction l as [|y l IH]; intros x Ht; [by injection Ht|]. rewrite last_cons_default. by apply IH. Qed.

Lemma shlFrom_spec s l : 0 <= s < 64 -> forall below, is_u64 below -> Forall is_u64 l ->
  Forall is_u64 (shlFrom s below l) /\ length (shlFrom s below l) = length l
  /\ val (shlFrom s below l) + B64 ^ len l * shr64 (List.last l below) (64 - s) = val l * 2 ^ s + shr64 below (64 - s).
Proof.
  intros Hs. induction l as [|x l IH]; intros below Hb Hl; [change (len []) with 0; cbn [shlFrom List.last length]; rewrite Z.pow_0_r; unfold val; cbn [foldr]; split_and!; [constructor|done|lia]|].
  apply Forall_cons in Hl as [Hx Hl]. destruct (IH x Hx Hl) as (I1 & I2 & I3). destruct (lor_shift x below s Hx Hb ltac:(lia)) as [E Hu].
  cbn [shlFrom]. rewrite E. split; [by constructor|]. split; [simpl; lia|]. rewrite !val_cons, len_cons, Z.pow_add_r, Z.pow_1_r by (unfold len; lia).
  rewrite last_cons_default.
  destruct (shift_word x s Hx ltac:(lia)) as (Ex & _). nia.
Qed.

Lemma shlWords_spec s l top : 0 <= s < 64 -> Forall is_u64 l -> last l = Some top ->
  Forall is_u64 (shlWords s l) /\ length (shlWords s l) = length l /\ val (shlWords s l) + B64 ^ len l * shr64 top (64 - s) = val l * 2 ^ s.
Proof.
  intros Hs Hl Ht. destruct l as [|x l]; [done|]. apply Forall_cons in Hl as [Hx Hl]. cbn [shlWords].
  destruct (shlFrom_spec s l Hs x Hx Hl) as (I1 & I2 & I3). destruct (shift_word x s Hx ltac:(lia)) as (Ex & _ & Hu & _).
  split; [by constructor|]. split; [simpl; lia|]. rewrite !val_cons, len_cons, Z.pow_add_r, Z.pow_1_r by (unfold len; lia).
  rewrite <- (last_default _ _ _ Ht). nia.
Qed.

Lemma shrWords_spec s l x : 0 <= s < 64 -> Forall is_u64 (x :: l) ->
  Forall is_u64 (shrWords s (x :: l)) /\ length (shrWords s (x :: l)) = S (length l) /\ val (x :: l) = 2 ^ s * val (shrWords s (x :: l)) + x mod 2 ^ s.
Proof.
  intros Hs. revert x. induction l as [|y l IH]; intros x Hl; apply Forall_cons in Hl as [Hx Hl]; destruct (shr_word x s Hx ltac:(lia)) as (Ex & _ & _).
  - cbn [shrWords]. assert (is_u64 (shr64 x s)). { destruct (lor_shift' x 0 s) as [_ H3]; [done|apply is_u64_0|lia|]. by rewrite shl64_0 in H3. }
    split; [by constructor|]. split; [done|]. unfold val. cbn [foldr]. lia.
  - pose proof (Forall_inv Hl) as Hy. destruct (IH y Hl) as (I1 & I2 & I3). destruct (lor_shift' x y s Hx Hy ltac:(lia)) as [E Hu]. destruct (shr_word y s Hy ltac:(lia)) as (_ & Fy & _).
    change (shrWords s (x :: y :: l)) with (Z.lor (shr64 x s) (shl64 y (64 - s)) :: shrWords s (y :: l)). rewrite E. split; [by constructor|]. split; [simpl in *; lia|].
    rewrite (val_cons x), (val_cons (_ + _)), I3, Fy.
    assert (HB : B64 = 2 ^ s * 2 ^ (64 - s)). { rewrite <- Z.pow_add_r by lia. unfold B64. f_equal. lia. } rewrite HB. nia.
Qed.

(** * The whole division *)

Lemma val_ofWords_le l : Forall is_u64 l -> (length l <= 4)%nat -> wf (ofWords l) /\ toZ (ofWords l) = val l.
Proof.
  intros Hl Hlen. assert (E : ofWords l = ofWords (l ++ replicate (4 - length l) 0)) by (destruct l as [|a [|b [|c [|d [|]]]]]; simpl in Hlen; try lia; done).
  rewrite E. destruct (val_ofWords (l ++ replicate (4 - length l) 0)) as [Hw Ev].
  - apply Forall_app. split; [done|]. apply Forall_replicate, is_u64_0.
  - rewrite length_app, length_replicate. lia.
  - split; [done|]. rewrite Ev, val_app. assert (Hz : forall n, val (replicate n 0) = 0) by (induction n as [|n IH]; [done|]; cbn [replicate]; by rewrite val_cons, IH).
    rewrite Hz. lia.
Qed.

Lemma val_zeros n : val (replicate n 0) = 0.
Proof. induction n as [|n IH]; [done|]. cbn [replicate]. by rewrite val_cons, IH. Qed.

Lemma val_written quot k c : drop c quot = drop c (replicate k 0) -> val quot = val (take c quot).
Proof.
  intros E. rewrite <- (take_drop c quot) at 1. rewrite val_app, E. rewrite drop_replicate, val_zeros. lia.
Qed.

Lemma Forall_words d : wf d -> Forall is_u64 (words d).
Proof. intros (? & ? & ? & ?). unfold words. by rewrite !Forall_cons, Forall_nil. Qed.

Lemma lookup_last_take {A} (l : list A) n w : n <> 0%nat -> l !! (n - 1)%nat = Some w -> last (take n l) = Some w.
Proof. intros Hn E. replace n with (S (n - 1)) by lia. rewrite (take_S_r _ _ _ E). apply last_snoc. Qed.

(** What remains after the shift back. *)
Lemma unshift U Q D R' s : 0 <= s -> U * 2 ^ s = Q * (D * 2 ^ s) + R' -> R' < D * 2 ^ s -> exists R, R' = 2 ^ s * R /\ U = Q * D + R /\ R < D.
Proof.
  intros Hs E Hlt. assert (Hp : 0 < 2 ^ s) by (apply Z.pow_pos_nonneg; lia). exists (U - Q * D). split; [lia|]. split; [lia|].
  apply (Z.mul_lt_mono_pos_l (2 ^ s)); lia.
Qed.

(** The normalised operands: [dn] and [un] stand for the shifted numbers. *)
Record normal (u : list Z) (d : Int) (s : Z) (dn un : list Z) : Prop := {
  nm_shift : 0 <= s < 64;
  nm_dn : Forall is_u64 dn /\ val dn = toZ d * 2 ^ s;
  nm_dtop : exists w, dn !! (length dn - 1)%nat = Some w /\ normalized w;
  nm_un : Forall is_u64 un /\ val un = val u * 2 ^ s;
  nm_utop : exists w, last un = Some w /\ 0 <= w < 2 ^ s;
  nm_len : (1 <= length dn < length un)%nat /\ (length dn <= 4)%nat /\ (length un <= S (length u))%nat;
}.

Lemma val_lower l n w : Forall is_u64 l -> (n <= length l)%nat -> n <> 0%nat -> l !! (n - 1)%nat = Some w -> B64 ^ Z.of_nat (n - 1) * w <= val (take n l).
Proof.
  intros Hl Hlen Hn E. replace n with (S (n - 1)) at 2 by lia. rewrite (val_take_S _ _ _ E). pose proof (val_take_range l (n - 1) Hl ltac:(lia)). lia.
Qed.

Lemma top_normalized K w rest dtop D p : 0 < K -> 0 <= rest < K -> D * p = rest + K * w -> K * dtop <= D -> B64 <= 2 * (dtop * p) -> 0 < p -> B64 <= 2 * w.
Proof.
  intros HK Hr E Hd Hb Hp. assert (K * dtop * p <= D * p) by (apply Z.mul_le_mono_nonneg_r; lia).
  assert (Hlt : K * (dtop * p) < K * (w + 1)) by lia. apply Z.mul_lt_mono_pos_l in Hlt; lia.
Qed.

Lemma pow_B64_pos n : 0 < B64 ^ Z.of_nat n.
Proof. apply Z.pow_pos_nonneg; [done|lia]. Qed.

(** A number with more words is larger. *)
Lemma more_words m n top D U : (n <= m)%nat -> B64 ^ Z.of_nat m * top <= D -> D <= U -> 1 <= top -> U < B64 ^ Z.of_nat n -> False.
Proof.
  intros Hmn Hd Hu Ht Hb. assert (B64 ^ Z.of_nat n <= B64 ^ Z.of_nat m) by (apply Z.pow_le_mono_r; [done|lia]).
  pose proof (pow_B64_pos m). assert (B64 ^ Z.of_nat m * 1 <= B64 ^ Z.of_nat m * top) by (apply Z.mul_le_mono_nonneg_l; lia). lia.
Qed.

Lemma udivrem_normal quot u d : Forall is_u64 u -> wf d -> toZ d <> 0 -> toZ d <= val u ->
  exists s dn un, normal u d s dn un /\ udivrem quot u d =
    if Nat.eqb (length dn) 1 then dn0 ← idx dn 0; '(quot, r) ← udivremBy1 quot un dn0; Ok (quot, SetUint64 (shr64 r s))
    else '(quot, un) ← udivremKnuth quot un dn; rem ← slc un 0 (length dn); Ok (quot, ofWords (shrWords s rem)).
Proof.
  intros Hu Hd Hnz Hle. pose proof (toZ_range d Hd) as Hr. pose proof (Forall_words d Hd) as Hdw. unfold udivrem.
  destruct (sigWords_spec (words d) Hdw) as (D1 & D2 & D3 & D4). rewrite val_words in *. set (dLen := sigWords (words d)) in *.
  destruct (sigWords_spec u Hu) as (U1 & U2 & U3 & U4). set (uLen := sigWords u) in *.
  destruct (Nat.eqb_spec dLen 0) as [|Hd0]; [by rewrite D3 in Hnz|]. destruct (Nat.eqb_spec uLen 0) as [|Hu0]; [rewrite U3 in Hle by done; lia|].
  destruct D4 as (dtop & Ed & Hdt); [done|]. destruct U4 as (utop & Eu & Hut); [done|]. rewrite (idx_Some _ _ _ Ed). cbn [mbind outcome_bind]. rewrite (idx_Some _ _ _ Eu). cbn [mbind outcome_bind].
  pose proof (Forall_u64_lookup _ _ _ Hdw Ed) as Hdtu. pose proof (Forall_u64_lookup _ _ _ Hu Eu) as Hutu.
  destruct (LeadingZeros64_spec dtop Hdtu Hdt) as (Hs & Hs0 & Hs1). set (s := LeadingZeros64 dtop) in *.
  destruct (shlWords_spec s (take dLen (words d)) dtop Hs (Forall_take _ _ _ Hdw) (lookup_last_take _ _ _ Hd0 Ed)) as (S1 & S2 & S3). rewrite Hs0, Z.mul_0_r, Z.add_0_r, D2 in S3.
  destruct (shlWords_spec s (take uLen u) utop Hs (Forall_take _ _ _ Hu) (lookup_last_take _ _ _ Hu0 Eu)) as (T1 & T2 & T3). rewrite U2 in T3.
  rewrite length_take_le in S2, T2 by lia. set (dn := shlWords s (take dLen (words d))) in *. set (un0 := shlWords s (take uLen u)) in *.
  destruct (shift_word utop s Hutu ltac:(lia)) as (_ & _ & _ & Hsh). assert (Hp : 0 < 2 ^ s) by (apply Z.pow_pos_nonneg; lia). assert (Hps : 2 ^ s <= 2 ^ 63) by (apply Z.pow_le_mono_r; lia).
  exists s, dn, (un0 ++ [shr64 utop (64 - s)]). rewrite S2. split; [|done].
  assert (Hlow : B64 ^ Z.of_nat (dLen - 1) * dtop <= toZ d). { rewrite <- D2. apply val_lower; [done|lia|done|done]. }
  assert (Hlen : (dLen <= uLen)%nat).
  { destruct (Nat.le_gt_cases dLen uLen) as [|Hgt]; [done|exfalso]. apply (more_words (dLen - 1) uLen dtop (toZ d) (val u)); [lia|done|done|unfold is_u64 in Hdtu; lia|].
    rewrite <- U2. by apply val_take_range. }
  constructor; [done| | | | |].
  - done.
  - destruct (lookup_lt_is_Some_2 dn (length dn - 1)) as [w Ew]; [lia|]. exists w. split; [done|]. pose proof (Forall_u64_lookup _ _ _ S1 Ew) as Hw. split; [|apply Hw].
    assert (Hv : val dn = val (take (length dn - 1) dn) + B64 ^ Z.of_nat (dLen - 1) * w).
    { rewrite <- (firstn_all dn) at 1. replace (length dn) with (S (length dn - 1)) at 1 by lia. rewrite (val_take_S _ _ _ Ew). by rewrite S2. }
    apply (top_normalized (B64 ^ Z.of_nat (dLen - 1)) w (val (take (dLen - 1) dn)) dtop (toZ d) (2 ^ s)); [apply pow_B64_pos|apply val_take_range; [done|lia]| |done|done|done].
    rewrite <- S3, Hv. by rewrite S2.
  - split. { apply Forall_app. split; [done|]. rewrite Forall_singleton. unfold is_u64. clear - Hsh Hps. lia. } rewrite val_app, <- T3. unfold len. rewrite T2, length_take_le by lia. unfold val at 2. cbn [foldr]. lia.
  - exists (shr64 utop (64 - s)). split; [apply last_snoc|done].
  - rewrite length_app, T2. simpl length. simpl in D1. clear - D1 U1 Hlen Hd0 S2. lia.
Qed.

(** The result of a division: quotient words and remainder. *)
Definition divides (quot : list Z) (u : list Z) (d : Int) (quot' : list Z) (rem : Int) : Prop :=
  Forall is_u64 quot' /\ length quot' = length quot /\ wf rem /\ val u = val quot' * toZ d + toZ rem /\ toZ rem < toZ d.

Lemma udivremBy1_divides k u d s dn un : (length u <= k)%nat -> normal u d s dn un -> length dn = 1%nat ->
  exists quot' rem, (dn0 ← idx dn 0; '(quot, r) ← udivremBy1 (replicate k 0) un dn0; Ok (quot, SetUint64 (shr64 r s))) = Ok (quot', rem) /\ divides (replicate k 0) u d quot' rem.
Proof.
  intros Hk [Hs [Hdn Edn] (dh & Edh & Hnorm) [Hun Eun] (w & Ew & Hw) (Hl1 & _ & Hl3)] Hlen. rewrite Hlen in Edh. destruct dn as [|dn0 [|]]; [done| |done]. injection Edh as ->.
  assert (Hd : val [dh] = dh) by (unfold val; cbn [foldr]; lia). rewrite Hd in Edn. cbn [idx lookup list_lookup mbind outcome_bind].
  destruct (reciprocal2by1_spec dh Hnorm) as (v & Ev & Hv). unfold udivremBy1. rewrite Ev. cbn [mbind outcome_bind].
  rewrite last_lookup in Ew. replace (pred (length un)) with (length un - 1)%nat in Ew by lia. rewrite (idx_Some _ _ _ Ew). cbn [mbind outcome_bind].
  assert (Hwd : 0 <= w < dh). { destruct Hnorm as [Hn1 _]. assert (2 ^ s <= 2 ^ 63) by (apply Z.pow_le_mono_r; lia). unfold B64 in Hn1. lia. }
  destruct (udivremBy1_loop_spec dh v un Hnorm Hv Hun (length un - 1) (replicate k 0) w) as (q & r & -> & Hq & Hlq & Hdq & E & Hr); [apply Forall_replicate, is_u64_0|lia|rewrite length_replicate; lia|done|].
  cbn [mbind outcome_bind]. rewrite <- (val_take_S _ _ _ Ew) in E. replace (S (length un - 1)) with (length un) in E by (simpl in Hl1; lia). rewrite firstn_all, Eun, <- (val_written _ _ _ Hdq), Edn in E.
  destruct (unshift (val u) (val q) (toZ d) r s) as (R & ER & EU & HR); [lia|done|lia|].
  assert (Hp : 0 < 2 ^ s) by (apply Z.pow_pos_nonneg; lia). assert (Hsr : shr64 r s = R). { unfold shr64. rewrite Z.shiftr_div_pow2, ER, Z.mul_comm, Z.div_mul by lia. done. }
  assert (HR0 : 0 <= R) by nia. exists q, (SetUint64 R). rewrite Hsr. split; [done|]. split; [done|]. split; [done|]. rewrite toZ_SetUint64.
  split; [|done]. apply wf_SetUint64. split; [done|]. destruct Hnorm as [_ Hn2]. change (2 ^ 64) with B64. nia.
Qed.

(** The top words of the shifted dividend are smaller than the shifted divisor. *)
Lemma top_words_small un dn n s w : Forall is_u64 un -> (1 <= n)%nat -> (n < length un)%nat -> last un = Some w -> 0 <= w < 2 ^ s -> 0 <= s < 64 ->
  n = length dn -> Forall is_u64 dn -> (exists t, dn !! (n - 1)%nat = Some t /\ normalized t) -> val (take n (drop (length un - n) un)) < val dn.
Proof.
  intros Hun Hn Hl Ew Hw Hs En Hdn (t & Et & [Ht _]). set (l := drop (length un - n) un).
  assert (Hll : length l = n) by (unfold l; rewrite length_drop; lia).
  assert (El : l !! (n - 1)%nat = Some w). { unfold l. rewrite lookup_drop, <- Ew, last_lookup. f_equal. lia. }
  assert (Hvl : val (take n l) = val (take (n - 1) l) + B64 ^ Z.of_nat (n - 1) * w) by (rewrite <- (val_take_S _ _ _ El); f_equal; f_equal; lia).
  pose proof (val_take_range l (n - 1) (Forall_drop _ _ _ Hun) ltac:(lia)) as Hb.
  assert (Hlow : B64 ^ Z.of_nat (n - 1) * t <= val dn). { pose proof (val_lower dn n t Hdn ltac:(lia) ltac:(lia) Et) as H. rewrite En in H at 2. by rewrite firstn_all in H. }
  rewrite Hvl. assert (H63 : 2 ^ s <= 2 ^ 63) by (apply Z.pow_le_mono_r; lia). assert (Hwt : w + 1 <= t) by (unfold B64 in Ht; lia).
  pose proof (pow_B64_pos (n - 1)). assert (B64 ^ Z.of_nat (n - 1) * (w + 1) <= B64 ^ Z.of_nat (n - 1) * t) by (apply Z.mul_le_mono_nonneg_l; lia). lia.
Qed.

Lemma udivremKnuth_divides k u d s dn un : (length u <= k)%nat -> normal u d s dn un -> length dn <> 1%nat ->
  exists quot' rem, ('(quot, un) ← udivremKnuth (replicate k 0) un dn; rem ← slc un 0 (length dn); Ok (quot, ofWords (shrWords s rem))) = Ok (quot', rem)
    /\ divides (replicate k 0) u d quot' rem.
Proof.
  intros Hk [Hs [Hdn Edn] (dh & Edh & Hnorm) [Hun Eun] (w & Ew & Hw) (Hl1 & Hl2 & Hl3)] Hlen. unfold udivremKnuth.
  destruct (Nat.ltb_spec (length dn) 2); [lia|]. destruct (lookup_lt_is_Some_2 dn (length dn - 2)) as [dl Edl]; [lia|].
  rewrite (idx_Some _ _ _ Edh). cbn [mbind outcome_bind]. rewrite (idx_Some _ _ _ Edl). cbn [mbind outcome_bind].
  destruct (reciprocal2by1_spec dh Hnorm) as (v & -> & Hv). cbn [mbind outcome_bind].
  destruct (udivremKnuth_loop_spec dn v dh dl Hdn ltac:(lia) Edh Edl Hnorm Hv (length un - length dn) (replicate k 0) un) as (q & u' & -> & Hq & Hlq & Hdq & Hu' & Hlu' & E & Hr).
  { done. } { apply Forall_replicate, is_u64_0. } { lia. } { rewrite length_replicate. lia. }
  { apply (top_words_small un dn (length dn) s w); [done|lia|lia|done|done|done|done|done|by exists dh]. }
  cbn [mbind outcome_bind]. rewrite Nat.sub_add, firstn_all, Eun, Edn, <- (val_written _ _ _ Hdq) in E by lia. rewrite Edn in Hr.
  unfold slc. rewrite (proj2 (Nat.leb_le 0 _)), (proj2 (Nat.leb_le (length dn) (length u'))) by lia. cbn [andb mbind outcome_bind]. rewrite drop_0, Nat.sub_0_r.
  destruct (unshift (val u) (val q) (toZ d) (val (take (length dn) u')) s) as (R & ER & EU & HR); [lia|done|done|].
  assert (Hp : 0 < 2 ^ s) by (apply Z.pow_pos_nonneg; lia). pose proof (Forall_take _ (length dn) _ Hu') as Hrem. destruct (take (length dn) u') as [|x l] eqn:Et; [apply (f_equal length) in Et; rewrite length_take in Et; simpl in Et; lia|].
  destruct (shrWords_spec s l x Hs Hrem) as (R1 & R2 & R3). pose proof (Z.mod_pos_bound x (2 ^ s) Hp).
  assert (HvR : val (shrWords s (x :: l)) = R). { rewrite ER in R3. assert (2 ^ s * (R - val (shrWords s (x :: l))) = x mod 2 ^ s) by lia.
    assert (R - val (shrWords s (x :: l)) = 0); [|lia]. apply (carry_zero (2 ^ s) _ 0 (x mod 2 ^ s)); lia. }
  assert (Hl4 : (length (shrWords s (x :: l)) <= 4)%nat). { rewrite R2. apply (f_equal length) in Et. rewrite length_take in Et. simpl in Et. lia. }
  destruct (val_ofWords_le _ R1 Hl4) as [Hwf Ev]. exists q, (ofWords (shrWords s (x :: l))). split; [done|]. split; [done|]. split; [done|]. split; [done|]. rewrite Ev, HvR. done.
Qed.

Lemma udivrem_spec k u d : Forall is_u64 u -> wf d -> toZ d <> 0 -> toZ d <= val u -> (length u <= k)%nat ->
  exists quot rem, udivrem (replicate k 0) u d = Ok (quot, rem) /\ divides (replicate k 0) u d quot rem.
Proof.
  intros Hu Hd Hnz Hle Hk. destruct (udivrem_normal (replicate k 0) u d Hu Hd Hnz Hle) as (s & dn & un & Hn & ->).
  destruct (Nat.eqb_spec (length dn) 1); [by apply (udivremBy1_divides k u d s dn un)|by apply (udivremKnuth_divides k u d s dn un)].
Qed.

(** * The operations *)

Lemma divides_unique quot u d quot' rem : wf d -> 0 < toZ d -> divides quot u d quot' rem -> val quot' = val u / toZ d /\ toZ rem = val u mod toZ d.
Proof.
  intros Hd Hp (_ & _ & Hw & E & Hlt). pose proof (toZ_range rem Hw). split.
  - symmetry. apply (div_intro _ _ _ (toZ rem)); [lia|lia].
  - apply (Z.mod_unique _ _ (val quot')); lia.
Qed.

Definition div0 (x y : Z) : Z := if Z.eqb y 0 then 0 else x / y.
Definition mod0 (x y : Z) : Z := if Z.eqb y 0 then 0 else x mod y.

Lemma Div_spec x y : wf x -> wf y -> exists z, Div x y = Ok z /\ wf z /\ toZ z = div0 (toZ x) (toZ y).
Proof.
  intros Hx Hy. pose proof (toZ_range x Hx) as Rx. pose proof (toZ_range y Hy) as Ry. unfold Div, div0. rewrite IsZero_spec, Gt_spec, Eq_spec, IsUint64_spec by done.
  destruct (Z.eqb_spec (toZ y) 0) as [|Hnz]; cbn [orb]; [by eexists; split; [reflexivity|split; [apply wf_Clear|]]|].
  destruct (Z.ltb_spec (toZ x) (toZ y)) as [Hlt|Hge]; [eexists; split; [reflexivity|split; [apply wf_Clear|]]; symmetry; apply Z.div_small; lia|].
  destruct (Z.eqb_spec (toZ x) (toZ y)) as [E|Hne]; [eexists; split; [reflexivity|split; [apply wf_SetOne|]]; rewrite E, Z.div_same by done; done|].
  destruct (Z.ltb_spec (toZ x) B64) as [Hs|Hs].
  - unfold Uint64. rewrite <- (toZ_IsUint64 x), <- (toZ_IsUint64 y) by (done || lia). eexists. split; [reflexivity|]. split; [|apply toZ_SetUint64].
    apply wf_SetUint64. split; [apply Z.div_pos; lia|]. change (2 ^ 64) with B64. apply Z.div_lt_upper_bound; [lia|]. nia.
  - destruct (udivrem_spec 4 (words x) y) as (q & r & E & Hdiv); [by apply Forall_words|done|done|rewrite val_words; lia|simpl; lia|].
    change [0; 0; 0; 0] with (replicate 4 0). rewrite E. cbn [mbind outcome_bind]. eexists. split; [reflexivity|].
    destruct (divides_unique _ _ _ _ _ Hy ltac:(lia) Hdiv) as [Eq _]. destruct Hdiv as (Hq & Hl & _). destruct (val_ofWords q Hq Hl) as [Hw ->]. by rewrite Eq, val_words.
Qed.

Lemma Mod_spec x y : wf x -> wf y -> exists z, Mod x y = Ok z /\ wf z /\ toZ z = mod0 (toZ x) (toZ y).
Proof.
  intros Hx Hy. pose proof (toZ_range x Hx) as Rx. pose proof (toZ_range y Hy) as Ry. unfold Mod, mod0. rewrite !IsZero_spec, Cmp_spec, IsUint64_spec by done.
  destruct (Z.eqb_spec (toZ y) 0) as [|Hnz]; [rewrite orb_true_r; by eexists; split; [reflexivity|split; [apply wf_Clear|]]|].
  destruct (Z.eqb_spec (toZ x) 0) as [E0|Hxz]; cbn [orb]; [eexists; split; [reflexivity|split; [apply wf_Clear|]]; by rewrite E0, Z.mod_0_l|].
  destruct (Z.compare_spec (toZ x) (toZ y)) as [E|Hlt|Hgt]; cbn [Z.eqb].
  - eexists; split; [reflexivity|split; [apply wf_Clear|]]. by rewrite E, Z.mod_same.
  - eexists; split; [reflexivity|split; [done|]]. symmetry. apply Z.mod_small. lia.
  - destruct (Z.ltb_spec (toZ x) B64) as [Hs|Hs].
    + unfold Uint64. rewrite <- (toZ_IsUint64 x), <- (toZ_IsUint64 y) by (done || lia). eexists. split; [reflexivity|]. split; [|apply toZ_SetUint64].
      apply wf_SetUint64. pose proof (Z.mod_pos_bound (toZ x) (toZ y) ltac:(lia)). unfold is_u64. change (2 ^ 64) with B64. lia.
    + destruct (udivrem_spec 4 (words x) y) as (q & r & E & Hdiv); [by apply Forall_words|done|done|rewrite val_words; lia|simpl; lia|].
      change [0; 0; 0; 0] with (replicate 4 0). rewrite E. cbn [mbind outcome_bind]. eexists. split; [reflexivity|].
      destruct (divides_unique _ _ _ _ _ Hy ltac:(lia) Hdiv) as [_ Er]. destruct Hdiv as (_ & _ & Hw & _). by rewrite Er, val_words.
Qed.

Lemma AddMod_spec x y m : wf x -> wf y -> wf m -> exists z, AddMod x y m = Ok z /\ wf z /\ toZ z = mod0 (toZ x + toZ y) (toZ m).
Proof.
  intros Hx Hy Hm. pose proof (toZ_range m Hm) as Rm. unfold AddMod. rewrite IsZero_spec by done. destruct (Z.eqb_spec (toZ m) 0) as [E0|Hnz].
  { eexists. split; [reflexivity|]. split; [apply wf_Clear|]. unfold mod0. by rewrite E0. }
  destruct (AddOverflow_spec x y Hx Hy) as (s & c & -> & Hs & E). cbv beta iota. destruct c.
  - assert (Hv : val (words s ++ [1]) = toZ x + toZ y). { rewrite val_app, val_words, E. change (val [1]) with 1. change (B64 ^ len (words s)) with M256. lia. }
    destruct (udivrem_spec 5 (words s ++ [1]) m) as (q & r & Ed & Hdiv); [apply Forall_app; split; [by apply Forall_words|]; rewrite Forall_singleton; split; lia|done|done|pose proof (toZ_range s Hs); rewrite Hv; lia|done|].
    rewrite Ed. cbn [mbind outcome_bind]. eexists. split; [reflexivity|].
    destruct (divides_unique _ _ _ _ _ Hm ltac:(lia) Hdiv) as [_ Er]. destruct Hdiv as (_ & _ & Hw & _). split; [done|]. unfold mod0. by rewrite Er, Hv, (proj2 (Z.eqb_neq _ _) Hnz).
  - destruct (Mod_spec s m Hs Hm) as (z & -> & Hw & Ez). exists z. split; [done|]. split; [done|]. rewrite Ez. f_equal. lia.
Qed.

Lemma MulMod_spec x y m : wf x -> wf y -> wf m -> exists z, MulMod x y m = Ok z /\ wf z /\ toZ z = mod0 (toZ x * toZ y) (toZ m).
Proof.
  intros Hx Hy Hm. pose proof (toZ_range m Hm) as Rm. unfold MulMod. rewrite !IsZero_spec by done.
  destruct (Z.eqb_spec (toZ m) 0) as [E0|Hnz]; [rewrite orb_true_r; eexists; split; [reflexivity|]; split; [apply wf_Clear|]; unfold mod0; by rewrite E0|].
  assert (Hzero : toZ x * toZ y = 0 -> mod0 (toZ x * toZ y) (toZ m) = 0). { intros ->. unfold mod0. rewrite (proj2 (Z.eqb_neq _ _) Hnz). by apply Z.mod_0_l. }
  destruct (Z.eqb_spec (toZ x) 0) as [E|Hx0]; cbn [orb]; [eexists; split; [reflexivity|]; split; [apply wf_Clear|]; rewrite Hzero; [done|by rewrite E]|].
  destruct (Z.eqb_spec (toZ y) 0) as [E|Hy0]; cbn [orb]; [eexists; split; [reflexivity|]; split; [apply wf_Clear|]; rewrite Hzero; [done|rewrite E; lia]|].
  destruct (umul_halves x y Hx Hy) as (Hw1 & Hw2 & E & _ & Ev). destruct (umul_spec x y Hx Hy) as (Hp & Hl & Hv). rewrite IsZero_spec by done.
  destruct (Z.eqb_spec (toZ (ofWords (drop 4 (umul x y)))) 0) as [Ez|Hhi].
  - destruct (Mod_spec (ofWords (take 4 (umul x y))) m Hw1 Hm) as (z & -> & Hw & Er). exists z. split; [done|]. split; [done|]. rewrite Er. f_equal. lia.
  - pose proof (toZ_range _ Hw1). pose proof (toZ_range _ Hw2). assert (Hge : M256 * 1 <= M256 * toZ (ofWords (drop 4 (umul x y)))) by (apply Z.mul_le_mono_nonneg_l; [done|lia]).
    destruct (udivrem_spec 8 (umul x y) m Hp Hm Hnz) as (q & r & Ed & Hdiv); [lia|lia|]. rewrite Ed. cbn [mbind outcome_bind]. eexists. split; [reflexivity|].
    destruct (divides_unique _ _ _ _ _ Hm ltac:(lia) Hdiv) as [_ Er]. destruct Hdiv as (_ & _ & Hw & _). split; [done|]. unfold mod0. by rewrite Er, Hv, (proj2 (Z.eqb_neq _ _) Hnz).
Qed.

(** ** Signed division *)

Definition quot0 (x y : Z) : Z := if Z.eqb y 0 then 0 else Z.quot x y.
Definition rem0 (x y : Z) : Z := if Z.eqb y 0 then 0 else Z.rem x y.

Lemma toS_cases x : wf x -> (Sign x = -1 /\ toS x < 0 /\ wf (Neg x) /\ toZ (Neg x) = - toS x) \/ (0 <= Sign x /\ 0 <= toS x /\ toS x = toZ x /\ (Sign x = 0 <-> toS x = 0)).
Proof.
  intros Hx. pose proof (toZ_range x Hx) as R. rewrite Sign_spec by done. unfold toS. assert (HM : M256 = 2 * 2 ^ 255) by done. destruct (Z.ltb_spec (toZ x) (2 ^ 255)) as [Hl|Hl].
  - right. clear HM. split; [lia|]. split; [lia|]. split; [done|]. lia.
  - left. destruct (Neg_is256 x Hx) as [Hw E]. split; [lia|]. split; [lia|]. split; [done|]. rewrite E. symmetry. apply (Z.mod_unique _ _ (-1)); lia.
Qed.

Lemma toS_zero x : wf x -> toS x = 0 <-> toZ x = 0.
Proof. intros Hx. pose proof (toZ_range x Hx). unfold toS. destruct (Z.ltb_spec (toZ x) (2 ^ 255)); lia. Qed.

Lemma is256_Neg z v : is256 z v -> is256 (Neg z) (- v).
Proof.
  intros [Hw E]. destruct (Neg_is256 z Hw) as [Hw' E']. split; [done|]. rewrite E', E. rewrite <- (Z.sub_0_l (v mod M256)), <- (Z.sub_0_l v), Zminus_mod_idemp_r. done.
Qed.

Lemma is256_exact z v : wf z -> toZ z = v -> is256 z v.
Proof. intros Hw <-. apply (is256_intro _ _ 0); [done|lia]. Qed.

Lemma SDiv_spec n d : wf n -> wf d -> exists z, SDiv n d = Ok z /\ is256 z (quot0 (toS n) (toS d)).
Proof.
  intros Hn Hd. unfold SDiv, quot0. pose proof (toS_zero n Hn) as Zn. pose proof (toS_zero d Hd) as Zd.
  assert (Hdiv : forall a b, 0 <= a -> 0 <= b -> div0 a b = if Z.eqb b 0 then 0 else Z.quot a b).
  { intros a b Ha Hb. unfold div0. destruct (Z.eqb_spec b 0); [done|]. symmetry. apply Z.quot_div_nonneg; lia. }
  destruct (toS_cases n Hn) as [(Sn & Nn & Wn & En)|(Sn & Nn & En & Zsn)]; destruct (toS_cases d Hd) as [(Sd & Nd & Wd & Ed)|(Sd & Nd & Ed & Zsd)].
  - rewrite Sn, Sd. cbn [Z.ltb Z.compare]. destruct (Div_spec (Neg n) (Neg d) Wn Wd) as (z & -> & Hz & E). exists z. split; [done|]. apply is256_exact; [done|].
    rewrite E, En, Ed, Hdiv by lia. destruct (Z.eqb_spec (toS d) 0); [lia|]. rewrite (proj2 (Z.eqb_neq (- toS d) 0)) by lia. by rewrite Z.quot_opp_opp.
  - rewrite Sn. cbn [Z.ltb Z.compare]. rewrite (proj2 (Z.ltb_ge (Sign d) 0)) by lia. destruct (Div_spec (Neg n) d Wn Hd) as (z & -> & Hz & E). cbn [mbind outcome_bind]. eexists. split; [reflexivity|].
    assert (Hq : is256 z (div0 (- toS n) (toS d))) by (apply is256_exact; [done|]; by rewrite E, En, Ed). apply is256_Neg in Hq. rewrite Hdiv in Hq by lia.
    destruct (Z.eqb_spec (toS d) 0); [done|]. by rewrite Z.quot_opp_l, Z.opp_involutive in Hq.
  - rewrite Sd. destruct (Z.ltb_spec 0 (Sign n)) as [Hp|Hz0]; cbn [Z.ltb Z.compare].
    + destruct (Div_spec n (Neg d) Hn Wd) as (z & -> & Hz & E). cbn [mbind outcome_bind]. eexists. split; [reflexivity|].
      assert (Hq : is256 z (div0 (toS n) (- toS d))) by (apply is256_exact; [done|]; by rewrite E, En, Ed). apply is256_Neg in Hq. rewrite Hdiv in Hq by lia.
      destruct (Z.eqb_spec (toS d) 0); [lia|]. rewrite (proj2 (Z.eqb_neq (- toS d) 0)) in Hq by lia. by rewrite Z.quot_opp_r, Z.opp_involutive in Hq.
    + assert (Hn0 : toS n = 0) by lia. destruct (Neg_is256 n Hn) as [Wn En']. destruct (Div_spec (Neg n) (Neg d) Wn Wd) as (z & -> & Hz & E). exists z. split; [done|]. apply is256_exact; [done|].
      rewrite E, En', (proj1 Zn Hn0), Hn0, Ed. unfold div0. destruct (Z.eqb_spec (toS d) 0); [lia|]. rewrite (proj2 (Z.eqb_neq (- toS d) 0)) by lia. by rewrite Z.quot_0_l.
  - destruct (Z.ltb_spec 0 (Sign n)) as [Hp|Hz0].
    + destruct (Z.ltb_spec 0 (Sign d)) as [Hpd|Hzd].
      * destruct (Div_spec n d Hn Hd) as (z & -> & Hz & E). exists z. split; [done|]. apply is256_exact; [done|]. rewrite E, <- En, <- Ed. by apply Hdiv.
      * assert (Hd0 : toS d = 0) by lia. destruct (Neg_is256 d Hd) as [Wd Ed']. destruct (Div_spec n (Neg d) Hn Wd) as (z & -> & Hz & E). cbn [mbind outcome_bind]. eexists. split; [reflexivity|].
        rewrite Ed', (proj1 Zd Hd0) in E. rewrite Hd0. assert (is256 z 0) as Hq%is256_Neg by (by apply is256_exact). done.
    + assert (Hn0 : toS n = 0) by lia. rewrite (proj2 (Z.ltb_ge (Sign d) 0)) by lia. destruct (Neg_is256 n Hn) as [Wn En']. destruct (Div_spec (Neg n) d Wn Hd) as (z & -> & Hz & E).
      cbn [mbind outcome_bind]. eexists. split; [reflexivity|]. rewrite En', (proj1 Zn Hn0) in E. change ((-0) mod M256) with 0 in E.
      assert (Hz' : toZ z = 0) by (rewrite E; unfold div0; destruct (Z.eqb_spec (toZ d) 0); [done|apply Z.div_0_l; done]). rewrite Hn0.
      assert (is256 z 0) as Hq%is256_Neg by (by apply is256_exact). destruct (Z.eqb_spec (toS d) 0); [done|]. by rewrite Z.quot_0_l.
Qed.

Lemma SMod_spec x y : wf x -> wf y -> exists z, SMod x y = Ok z /\ is256 z (rem0 (toS x) (toS y)).
Proof.
  intros Hx Hy. unfold SMod, rem0.
  assert (Habs : forall w, wf w -> wf (if Z.eqb (Sign w) (-1) then Neg w else w) /\ toZ (if Z.eqb (Sign w) (-1) then Neg w else w) = Z.abs (toS w) /\ (Sign w = -1 <-> toS w < 0)).
  { intros w Hw. destruct (toS_cases w Hw) as [(-> & Nn & Wn & En)|(Sn & Nn & En & _)].
    - change (Z.eqb (-1) (-1)) with true. cbv iota. split; [done|]. split; [lia|]. lia.
    - rewrite (proj2 (Z.eqb_neq (Sign w) (-1))) by lia. split; [done|]. split; lia. }
  destruct (Habs x Hx) as (Wx & Ex & Sx). destruct (Habs y Hy) as (Wy & Ey & _). destruct (Mod_spec _ _ Wx Wy) as (z & -> & Hz & E). cbn [mbind outcome_bind]. eexists. split; [reflexivity|].
  rewrite Ex, Ey in E. unfold mod0 in E. assert (Hz' : is256 z (if Z.eqb (toS y) 0 then 0 else Z.rem (Z.abs (toS x)) (Z.abs (toS y)))).
  { apply is256_exact; [done|]. rewrite E. destruct (Z.eqb_spec (Z.abs (toS y)) 0), (Z.eqb_spec (toS y) 0); try lia. symmetry. apply Z.rem_mod_nonneg; lia. }
  destruct (Z.eqb_spec (Sign x) (-1)) as [Hs|Hs].
  - apply is256_Neg in Hz'. destruct (Z.eqb_spec (toS y) 0) as [|Hy0]; [done|]. rewrite (Z.abs_neq (toS x)), Z.rem_opp_l, Z.opp_involutive in Hz' by lia.
    destruct (Z.abs_spec (toS y)) as [[_ Ea]|[_ Ea]]; rewrite Ea in Hz'; [done|]. by rewrite Z.rem_opp_r in Hz'.
  - destruct (Z.eqb_spec (toS y) 0) as [|Hy0]; [done|]. rewrite (Z.abs_eq (toS x)) in Hz' by lia. destruct (Z.abs_spec (toS y)) as [[_ Ea]|[_ Ea]]; rewrite Ea in Hz'; [done|]. by rewrite Z.rem_opp_r in Hz'.
Qed.
