(* ===== verification/Uint256Conv.v ===== *)
(** Conversions of 256-bit integers: big-endian bytes, big integers, hexadecimal
    strings and RLP.  What is written is read back, and the special cases of the
    code for each length agree with the plain big-endian reading. *)

From S2P Require Import Prelude Common Rlp RlpEnc RlpDec Uint256 Uint256Spec Uint256Div.
From Stdlib Require Import Strings.Byte.
Import U256.

(** * Big-endian bytes *)

Lemma len_rev {A} (l : list A) : len (rev l) = len l.
Proof. unfold len. by rewrite length_rev. Qed.

Lemma be_val_app l k : be_val (l ++ k) = be_val l * 256 ^ len k + be_val k.
Proof. unfold be_val. rewrite rev_app_distr, le_val_app, len_rev. lia. Qed.

Lemma be_val_split i b : (i <= length b)%nat -> be_val b = be_val (take i b) * 256 ^ (len b - Z.of_nat i) + be_val (drop i b).
Proof. intros Hi. rewrite <- (take_drop i b) at 1. rewrite be_val_app. unfold len. rewrite length_drop. do 3 f_equal. lia. Qed.

Lemma be_val_one b : be_val [b] = Zb b.
Proof. unfold be_val. cbn [rev app le_val]. lia. Qed.

Lemma beUint_ok b i j : (i <= j)%nat -> (j <= length b)%nat -> beUint b i j = Ok (be_val (take (j - i) (drop i b))).
Proof. intros Hi Hj. unfold beUint, slc. by rewrite (proj2 (Nat.leb_le i j) Hi), (proj2 (Nat.leb_le j _) Hj). Qed.

Lemma at_0 b : (0 < length b)%nat -> at_ b 0 = Ok (be_val (take 1 b)).
Proof. destruct b as [|x b]; [simpl; lia|]. intros _. unfold at_, idx. cbn [lookup list_lookup mbind outcome_bind take]. by rewrite take_0, be_val_one. Qed.

(** A byte or'ed above the bytes already gathered. *)
Lemma lor_byte low hi n : 0 <= n -> n + 8 <= 64 -> 0 <= low < 2 ^ n -> 0 <= hi < 256 -> Z.lor low (shl64 hi n) = low + hi * 2 ^ n /\ 0 <= low + hi * 2 ^ n < 2 ^ (n + 8).
Proof.
  intros Hn Hn' Hl Hh. assert (Hp : 0 < 2 ^ n) by (apply Z.pow_pos_nonneg; lia). assert (E8 : 2 ^ (n + 8) = 2 ^ n * 256) by (rewrite Z.pow_add_r by lia; done).
  assert (Hb : 2 ^ (n + 8) <= 2 ^ 64) by (apply Z.pow_le_mono_r; lia). assert (hi * 2 ^ n <= 255 * 2 ^ n) by (apply Z.mul_le_mono_nonneg_r; lia). assert (0 <= hi * 2 ^ n) by (apply Z.mul_nonneg_nonneg; lia).
  assert (Es : shl64 hi n = 2 ^ n * hi). { unfold shl64. rewrite Z.shiftl_mul_pow2 by lia. rewrite u64_small; [lia|]. split; lia. }
  rewrite Es, Z.lor_comm, lor_disjoint by lia. lia.
Qed.

Lemma Zb_range' b : 0 <= be_val [b] < 256.
Proof. rewrite be_val_one. apply Zb_range. Qed.

(** Reads bytes from the list [b] of known length and combines them. *)
Ltac lor_bytes :=
  repeat match goal with
  | |- context [Z.lor ?low (shl64 (Zb ?x) ?n)] =>
      lazymatch low with context [Z.lor] => fail | _ => idtac end;
      pose proof (Zb_range x); let E := fresh "E" in let H := fresh "H" in destruct (lor_byte low (Zb x) n) as [E H]; [lia|lia|first [assumption|lia]|assumption|rewrite E; clear E]
  end.

Lemma bigEndianUint40_ok b : length b = 5%nat -> bigEndianUint40 b = Ok (be_val b).
Proof.
  intros Hl. do 5 (destruct b as [|? b]; [done|]). destruct b; [|done]. unfold bigEndianUint40, at_, idx. cbn [lookup list_lookup mbind outcome_bind].
  f_equal. pose proof (Zb_range b4). lor_bytes. unfold be_val. cbn [rev app le_val]. lia.
Qed.
Lemma bigEndianUint48_ok b : length b = 6%nat -> bigEndianUint48 b = Ok (be_val b).
Proof.
  intros Hl. do 6 (destruct b as [|? b]; [done|]). destruct b; [|done]. unfold bigEndianUint48, at_, idx. cbn [lookup list_lookup mbind outcome_bind].
  f_equal. pose proof (Zb_range b5). lor_bytes. unfold be_val. cbn [rev app le_val]. lia.
Qed.
Lemma bigEndianUint56_ok b : length b = 7%nat -> bigEndianUint56 b = Ok (be_val b).
Proof.
  intros Hl. do 7 (destruct b as [|? b]; [done|]). destruct b; [|done]. unfold bigEndianUint56, at_, idx. cbn [lookup list_lookup mbind outcome_bind].
  f_equal. pose proof (Zb_range b6). lor_bytes. unfold be_val. cbn [rev app le_val]. lia.
Qed.

(** ** The readers of each length *)

(** The eight bytes from [i] on. *)
Lemma be_chunk i b : (i + 8 <= length b)%nat ->
  be_val (drop i b) = be_val (take 8 (drop i b)) * 256 ^ (len b - Z.of_nat (i + 8)) + be_val (drop (i + 8) b) /\ is_u64 (be_val (take 8 (drop i b))).
Proof.
  intros Hi. split.
  - rewrite (be_val_split 8 (drop i b)) by (rewrite length_drop; lia). rewrite drop_drop. unfold len. rewrite length_drop. do 3 f_equal. lia.
  - pose proof (be_val_range (take 8 (drop i b))) as H. unfold len in H. rewrite length_take, length_drop, Nat.min_l in H by lia. done.
Qed.

Lemma be_val_drop_all n b : length b = n -> be_val (drop n b) = 0.
Proof. intros Hl. by rewrite drop_ge by lia. Qed.

Lemma be_val_take_range i b : (i <= 8)%nat -> (i <= length b)%nat -> is_u64 (be_val (take i b)).
Proof.
  intros Hi Hl. pose proof (be_val_range (take i b)) as H. unfold len in H. rewrite length_take, Nat.min_l in H by lia.
  assert (256 ^ Z.of_nat i <= 256 ^ 8) by (apply Z.pow_le_mono_r; lia). unfold is_u64. change (2 ^ 64) with (256 ^ 8). lia.
Qed.

Lemma idx_bind {A C} (l : list A) i (k : A -> outcome C) o : (i < length l)%nat -> (forall x, k x = o) -> (idx l i ≫= k) = o.
Proof. intros Hi Hk. destruct (lookup_lt_is_Some_2 l i Hi) as [x E]. rewrite (idx_Some _ _ _ E). apply Hk. Qed.

Lemma slc_prefix {A} (l : list A) n : (n <= length l)%nat -> slc l 0 n = Ok (take n l).
Proof. intros Hn. unfold slc. rewrite (proj2 (Nat.leb_le n _) Hn). simpl. by rewrite drop_0, Nat.sub_0_r. Qed.

(** The top three bytes. *)
Lemma top_three b : (3 <= length b)%nat -> Z.lor (be_val (take 2 (drop 1 b))) (shl64 (be_val (take 1 b)) 16) = be_val (take 3 b).
Proof.
  intros Hl. destruct b as [|b0 [|b1 [|b2 b]]]; [simpl in Hl; lia..|]. cbn [take drop]. rewrite !take_0.
  pose proof (be_val_range [b1; b2]) as H. change (256 ^ len [b1; b2]) with (2 ^ 16) in H.
  destruct (lor_byte (be_val [b1; b2]) (be_val [b0]) 16) as [E _]; [lia|lia|done|apply Zb_range'|]. rewrite E. unfold be_val. cbn [rev app le_val]. lia.
Qed.

(** Opens a reader of [n] bytes, [part] of them on top of full words. *)
Ltac read_words n part :=
  match goal with Hb : length ?b = _ |- _ =>
    let Hl := fresh "Hl" in assert (Hl : len b = Z.of_nat n) by (unfold len; by rewrite Hb);
    pose proof (be_val_split part b ltac:(lia)); pose proof (be_val_take_range part b ltac:(lia) ltac:(lia)); pose proof (be_val_drop_all n b ltac:(lia));
    try (erewrite (idx_bind b); [|lia|intros; reflexivity]);
    rewrite ?slc_prefix by lia; cbn [mbind outcome_bind];
    rewrite ?bigEndianUint40_ok, ?bigEndianUint48_ok, ?bigEndianUint56_ok by (rewrite length_take; lia); cbn [mbind outcome_bind];
    repeat first [rewrite beUint_ok by lia; cbn [mbind outcome_bind Nat.sub]|rewrite at_0 by lia; cbn [mbind outcome_bind]];
    try rewrite top_three by lia;
    repeat match goal with
      | |- context [be_val (take 8 (drop ?i b))] =>
          lazymatch goal with _ : is_u64 (be_val (take 8 (drop i b))) |- _ => fail | _ => idtac end;
          destruct (be_chunk i b ltac:(lia))
      end;
    rewrite ?Hl, ?drop_0 in *; cbn [Nat.add] in *;
    repeat match goal with Hp : context [256 ^ (?x - ?y)] |- _ => let v := eval vm_compute in (256 ^ (x - y)) in change (256 ^ (x - y)) with v in Hp end
  end.

Ltac read_done f n part :=
  cbv iota; unfold f; read_words n part; eexists; split; [reflexivity|]; split; [by split_and!; try apply is_u64_0|];
  unfold toZ; cbn [w0 w1 w2 w3]; rewrite ?(take_ge _ n) in * by lia; rewrite B64_val in *; lia.

(** The readers of at most 31 bytes and the one of 32. *)
Lemma SetBytes_exact b : (length b <= 32)%nat -> exists z, SetBytes b = Ok z /\ wf z /\ toZ z = be_val b.
Proof.
  intros Hle. unfold SetBytes. destruct (length b) as [|n] eqn:Hb; [apply nil_length_inv in Hb as ->; exists Clear; split; [done|]; split; [apply wf_Clear|done]|].
  destruct n as [|n]; [read_done SetBytes1 1%nat 1%nat|]. destruct n as [|n]; [read_done SetBytes2 2%nat 2%nat|]. destruct n as [|n]; [read_done SetBytes3 3%nat 3%nat|].
  destruct n as [|n]; [read_done SetBytes4 4%nat 4%nat|]. destruct n as [|n]; [read_done SetBytes5 5%nat 5%nat|]. destruct n as [|n]; [read_done SetBytes6 6%nat 6%nat|].
  destruct n as [|n]; [read_done SetBytes7 7%nat 7%nat|]. destruct n as [|n]; [read_done SetBytes8 8%nat 0%nat|]. destruct n as [|n]; [read_done SetBytes9 9%nat 1%nat|].
  destruct n as [|n]; [read_done SetBytes10 10%nat 2%nat|]. destruct n as [|n]; [read_done SetBytes11 11%nat 3%nat|]. destruct n as [|n]; [read_done SetBytes12 12%nat 4%nat|].
  destruct n as [|n]; [read_done SetBytes13 13%nat 5%nat|]. destruct n as [|n]; [read_done SetBytes14 14%nat 6%nat|]. destruct n as [|n]; [read_done SetBytes15 15%nat 7%nat|].
  destruct n as [|n]; [read_done SetBytes16 16%nat 0%nat|]. destruct n as [|n]; [read_done SetBytes17 17%nat 1%nat|]. destruct n as [|n]; [read_done SetBytes18 18%nat 2%nat|].
  destruct n as [|n]; [read_done SetBytes19 19%nat 3%nat|]. destruct n as [|n]; [read_done SetBytes20 20%nat 4%nat|]. destruct n as [|n]; [read_done SetBytes21 21%nat 5%nat|].
  destruct n as [|n]; [read_done SetBytes22 22%nat 6%nat|]. destruct n as [|n]; [read_done SetBytes23 23%nat 7%nat|]. destruct n as [|n]; [read_done SetBytes24 24%nat 0%nat|].
  destruct n as [|n]; [read_done SetBytes25 25%nat 1%nat|]. destruct n as [|n]; [read_done SetBytes26 26%nat 2%nat|]. destruct n as [|n]; [read_done SetBytes27 27%nat 3%nat|].
  destruct n as [|n]; [read_done SetBytes28 28%nat 4%nat|]. destruct n as [|n]; [read_done SetBytes29 29%nat 5%nat|]. destruct n as [|n]; [read_done SetBytes30 30%nat 6%nat|].
  destruct n as [|n]; [read_done SetBytes31 31%nat 7%nat|].
  assert (n = 0%nat) as -> by lia. rewrite slc_prefix by lia. cbn [mbind outcome_bind]. rewrite take_ge by lia. read_done SetBytes32 32%nat 0%nat.
Qed.

Lemma SetBytes_spec b : exists z, SetBytes b = Ok z /\ wf z /\ toZ z = be_val b mod M256.
Proof.
  destruct (Nat.le_gt_cases (length b) 32) as [Hle|Hgt].
  - destruct (SetBytes_exact b Hle) as (z & E & Hw & Ez). exists z. split; [done|]. split; [done|]. rewrite Ez. symmetry. apply Z.mod_small. rewrite <- Ez. by apply toZ_range.
  - set (s := drop (length b - 32) b). assert (Hs : length s = 32%nat) by (unfold s; rewrite length_drop; lia).
    destruct (SetBytes_exact s ltac:(lia)) as (z & E & Hw & Ez). exists z.
    assert (exists k, length b = (33 + k)%nat) as [k Hk] by (exists (length b - 33)%nat; lia).
    assert (Hsl : slc b (33 + k - 32) (33 + k) = Ok s).
    { unfold slc, s. rewrite Hk, (proj2 (Nat.leb_le _ _)), Nat.leb_refl by lia. cbn [andb]. rewrite take_ge; [done|]. rewrite length_drop. lia. }
    assert (Eb : SetBytes b = SetBytes s).
    { unfold SetBytes. rewrite Hs, Hk. cbn [Nat.add] in Hsl |- *. rewrite Hsl, slc_prefix, take_ge by lia. done. }
    rewrite Eb, E. split; [done|]. split; [done|]. rewrite Ez. rewrite (be_val_split (length b - 32) b) by lia. fold s.
    replace (len b - Z.of_nat (length b - 32)) with 32 by (unfold len; lia). change (256 ^ 32) with M256. rewrite Z.add_comm, Z_mod_plus_full. symmetry. apply Z.mod_small. rewrite <- Ez. by apply toZ_range.
Qed.

(** ** The writers *)

Lemma length_Bytes32 z : length (Bytes32 z) = 32%nat.
Proof. unfold Bytes32. by rewrite !length_app, !length_be_bytes. Qed.

Lemma be_val_word w : is_u64 w -> be_val (be_bytes 8 w) = w.
Proof. intros Hw. rewrite be_val_be_bytes. by apply Z.mod_small. Qed.

Lemma be_val_Bytes32 z : wf z -> be_val (Bytes32 z) = toZ z.
Proof.
  intros (H0 & H1 & H2 & H3). unfold Bytes32. rewrite !be_val_app, !be_val_word by done. unfold len. rewrite !length_app, !length_be_bytes. unfold toZ.
  change (256 ^ Z.of_nat (8 + (8 + 8))) with (B64 * B64 * B64). change (256 ^ Z.of_nat (8 + 8)) with (B64 * B64). change (256 ^ Z.of_nat 8) with B64. ring.
Qed.

Lemma Bytes32_be z : wf z -> Bytes32 z = be_bytes 32 (toZ z).
Proof. intros Hz. rewrite <- be_val_Bytes32 by done. rewrite <- (length_Bytes32 z). by rewrite be_bytes_be_val. Qed.

(** Dropping leading bytes of a big-endian number keeps the low ones. *)
Lemma drop_be_bytes n k z : (k <= n)%nat -> drop (n - k) (be_bytes n z) = be_bytes k z.
Proof.
  intros Hk. unfold be_bytes. assert (E : forall m j y, (j <= m)%nat -> take j (le_bytes m y) = le_bytes j y).
  { induction m as [|m IH]; intros j y Hj; [by assert (j = 0%nat) as -> by lia|]. destruct j as [|j]; [done|]. cbn [le_bytes take]. f_equal. apply IH. lia. }
  rewrite <- (E n k z Hk). rewrite <- (rev_involutive (drop (n - k) (rev (le_bytes n z)))). f_equal. rewrite <- (rev_involutive (le_bytes n z)) at 2.
  by rewrite firstn_rev, length_rev, length_le_bytes.
Qed.

Lemma le_bytes_map n : forall z, le_bytes n z = map (fun i => bZ (z / 256 ^ Z.of_nat i)) (seq 0 n).
Proof.
  induction n as [|n IH]; intros z; [done|]. cbn [le_bytes seq map]. rewrite Z.pow_0_r, Z.div_1_r, IH, <- seq_shift, map_map. f_equal. apply map_ext. intros i.
  rewrite Z.shiftr_div_pow2, Z.div_div by lia. do 2 f_equal. rewrite Nat2Z.inj_succ, Z.pow_succ_r by lia. done.
Qed.

Lemma bZ_mod x y : x mod 256 = y mod 256 -> bZ x = bZ y.
Proof. intros E. unfold bZ. by rewrite E. Qed.

Lemma byteAt_spec z i : wf z -> (i < 32)%nat -> byteAt z i = bZ (toZ z / 256 ^ Z.of_nat i).
Proof.
  intros Hz Hi. unfold byteAt, shr64. pose proof (Z.div_mod (Z.of_nat i) 8 ltac:(lia)). pose proof (Z.mod_pos_bound (Z.of_nat i) 8 ltac:(lia)).
  rewrite Z.shiftr_div_pow2 by lia. apply bZ_mod. change 256 with (2 ^ 8) at 1 2 3. rewrite <- Z.pow_mul_r by lia.
  replace (8 * Z.of_nat i) with (64 * (Z.of_nat i / 8) + 8 * (Z.of_nat i mod 8)) by lia. symmetry. apply word_bits; [done|lia..].
Qed.

Lemma bytes_map z n : wf z -> (n <= 32)%nat -> rev (map (byteAt z) (seq 0 n)) = be_bytes n (toZ z).
Proof.
  intros Hz Hn. unfold be_bytes. f_equal. rewrite le_bytes_map. apply map_ext_in. intros i Hi%in_seq. apply byteAt_spec; [done|lia].
Qed.

Lemma writeBytes_spec z e n dest : (n <= S e)%nat -> (e < length dest)%nat ->
  writeBytes z n e dest = take (S e - n) dest ++ rev (map (byteAt z) (seq 0 n)) ++ drop (S e) dest.
Proof.
  intros Hn Hl. induction n as [|n IH].
  - unfold writeBytes. cbn [seq foldl map rev app]. rewrite Nat.sub_0_r. by rewrite take_drop.
  - unfold writeBytes in *. rewrite seq_S, foldl_snoc, IH by lia. rewrite map_app, rev_app_distr. cbn [map rev app Nat.add].
    replace (S e - n)%nat with (S (e - n)) by lia. destruct (lookup_lt_is_Some_2 dest (e - n)) as [x E]; [lia|].
    rewrite (take_S_r _ _ _ E), <- app_assoc. replace (S e - S n)%nat with (e - n)%nat by lia.
    replace (e - n)%nat with (length (take (e - n) dest) + 0)%nat at 1 by (rewrite length_take_le; lia). by rewrite insert_app_r.
Qed.

Lemma WriteToArray32_eq z : wf z -> WriteToArray32 z = Bytes32 z.
Proof. intros Hz. unfold WriteToArray32. rewrite writeBytes_spec, bytes_map by (done || simpl; lia). cbn [Nat.sub take app]. by rewrite drop_ge, app_nil_r, Bytes32_be by (done || simpl; lia). Qed.

Lemma PaddedBytes_eq z n : wf z -> PaddedBytes z n = be_bytes n (toZ z).
Proof.
  intros Hz. unfold PaddedBytes. destruct n as [|n]; [done|]. rewrite writeBytes_spec by (rewrite ?length_replicate; lia). rewrite bytes_map by (done || lia).
  replace (S (S n - 1)) with (S n) by lia. rewrite (drop_ge (replicate _ _)) by (rewrite length_replicate; lia). rewrite app_nil_r, take_replicate.
  destruct (Nat.le_gt_cases (S n) 32) as [Hle|Hgt]; [replace (Nat.min (S n) 32) with (S n) by lia; by rewrite Nat.sub_diag|].
  replace (Nat.min (S n) 32) with 32%nat by lia. replace (Nat.min (S n - 32) (S n)) with (S n - 32)%nat by lia.
  pose proof (toZ_range z Hz) as Hr.
  assert (Hlen : length (replicate (S n - 32) Byte.x00 ++ be_bytes 32 (toZ z)) = S n) by (rewrite length_app, length_replicate, length_be_bytes; lia).
  rewrite <- (be_bytes_be_val (replicate (S n - 32) Byte.x00 ++ be_bytes 32 (toZ z))), Hlen. f_equal. rewrite be_val_app, be_val_be_bytes.
  change (256 ^ Z.of_nat 32) with M256. rewrite Z.mod_small by done. assert (Hz0 : forall k, be_val (replicate k Byte.x00) = 0); [|rewrite Hz0; lia].
  intros k. unfold be_val. induction k as [|k IH]; [done|]. rewrite replicate_S_end, rev_app_distr. cbn [rev app le_val]. rewrite IH. done.
Qed.

(** [Bytes] writes the shortest representation. *)
Lemma Bytes_min z : wf z -> Bytes z = min_bytes (toZ z).
Proof.
  intros Hz. destruct (BitLen_spec z Hz) as (HL & HL1 & HL2). unfold Bytes, min_bytes, ByteLen. rewrite Bytes32_be by done. pose proof (toZ_range z Hz).
  assert (E : Rlp.BitLen (toZ z) = U256.BitLen z).
  { unfold Rlp.BitLen. destruct (Z.eqb_spec (toZ z) 0) as [E0|Hne].
    - unfold U256.BitLen, Len64. assert (w0 z = 0 /\ w1 z = 0 /\ w2 z = 0 /\ w3 z = 0) as (-> & -> & -> & ->); [|done]. open_wf. revert E0. int_lia.
    - rewrite Z.abs_eq by lia. specialize (HL2 Hne). assert (1 <= U256.BitLen z) by (destruct (Z.eq_dec (U256.BitLen z) 0) as [E|]; [rewrite E, Z.pow_0_r in HL1; lia|lia]).
      assert (Z.log2 (toZ z) = U256.BitLen z - 1); [|lia]. apply Z.log2_unique; [lia|]. split; [done|]. by replace (Z.succ (U256.BitLen z - 1)) with (U256.BitLen z) by lia. }
  rewrite E. assert ((U256.BitLen z + 7) / 8 < 33) by (apply Z.div_lt_upper_bound; lia). set (k := Z.to_nat ((U256.BitLen z + 7) / 8)). rewrite <- (drop_be_bytes 32 k) by (unfold k; lia). done.
Qed.

(** ** Big integers *)

Lemma ToBig_spec z : ToBig z = toZ z.
Proof. apply val_words. Qed.

Definition bigLen (b : Z) : nat := Z.to_nat (((if Z.eqb (Z.abs b) 0 then 0 else Z.log2 (Z.abs b) + 1) + 63) / 64).

Lemma bigLen_spec b i : Z.abs b < B64 ^ Z.of_nat i <-> (bigLen b <= i)%nat.
Proof.
  unfold bigLen. set (n := Z.abs b). assert (Hn : 0 <= n) by lia. unfold B64. rewrite <- Z.pow_mul_r by lia. destruct (Z.eqb_spec n 0) as [->|Hne].
  - split; [intros _; change (Z.to_nat ((0 + 63) / 64)) with 0%nat; lia|intros _; apply Z.pow_pos_nonneg; lia].
  - rewrite Z.log2_lt_pow2 by lia. pose proof (Z.log2_nonneg n). set (l := Z.log2 n) in *. pose proof (Z.div_mod (l + 1 + 63) 64 ltac:(lia)).
    pose proof (Z.mod_pos_bound (l + 1 + 63) 64 ltac:(lia)). set (q := (l + 1 + 63) / 64) in *. split; lia.
Qed.

Lemma bigBits_word b i : default 0 (bigBits b !! i) = Z.abs b / B64 ^ Z.of_nat i mod B64.
Proof.
  unfold bigBits. fold (bigLen b). pose proof (bigLen_spec b i) as H. change (map ?f ?l) with (f <$> l). rewrite list_lookup_fmap. destruct (Nat.le_gt_cases (bigLen b) i) as [Hle|Hgt].
  - rewrite lookup_seq_ge by done. cbn [fmap option_fmap option_map default]. apply H in Hle. by rewrite Z.div_small by lia.
  - rewrite lookup_seq_lt by done. done.
Qed.

Lemma FromBig_spec b : exists z, FromBig b = (z, Z.leb M256 (Z.abs b)) /\ is256 z b.
Proof.
  unfold FromBig, SetFromBig. set (z := ofWords (bigBits b)). set (n := Z.abs b) in *.
  assert (Hu : forall i, is_u64 (n / B64 ^ i mod B64)) by (intros i; apply Z.mod_pos_bound; done).
  assert (Hz : is256 z n).
  { assert (Hd : forall i, 0 <= i -> n / B64 ^ (i + 1) = n / B64 ^ i / B64) by (intros i Hi; rewrite Z.pow_add_r, Z.pow_1_r, Z.div_div by (try apply Z.pow_pos_nonneg; try apply Z.pow_nonzero; lia || done); done).
    apply (is256_intro _ _ (n / B64 ^ 4)).
    - unfold z, ofWords. rewrite !bigBits_word. split_and!; apply Hu.
    - unfold z, ofWords. rewrite !bigBits_word. fold n. unfold toZ. cbn [w0 w1 w2 w3 Z.of_nat]. change (Z.of_nat 0) with 0. change (Z.of_nat 1) with 1. change (Z.of_nat 2) with 2. change (Z.of_nat 3) with 3.
      rewrite Z.pow_0_r, Z.div_1_r. assert (E0 : n / B64 ^ 1 = n / B64) by (by rewrite Z.pow_1_r). assert (E1 : n / B64 ^ 2 = n / B64 ^ 1 / B64) by exact (Hd 1 ltac:(lia)).
      assert (E2 : n / B64 ^ 3 = n / B64 ^ 2 / B64) by exact (Hd 2 ltac:(lia)). assert (E3 : n / B64 ^ 4 = n / B64 ^ 3 / B64) by exact (Hd 3 ltac:(lia)). rewrite M256_val, E3, E2, E1, E0. set (B := B64) in *.
      pose proof (Z.div_mod n B ltac:(done)). pose proof (Z.div_mod (n / B) B ltac:(done)). pose proof (Z.div_mod (n / B / B) B ltac:(done)). pose proof (Z.div_mod (n / B / B / B) B ltac:(done)). nia. }
  eexists. split; [f_equal|].
  - apply eq_true_iff_eq. rewrite Z.leb_le, Nat.ltb_lt. unfold bigBits. fold (bigLen b). rewrite length_map, length_seq. pose proof (bigLen_spec b 4) as H. fold n in H.
    change (B64 ^ Z.of_nat 4) with M256 in H. lia.
  - destruct (Z.ltb_spec b 0); [|by replace b with n by lia]. apply is256_Neg in Hz. by replace b with (- n) by lia.
Qed.

(** ** RLP *)

Lemma EncodeRLP_spec z : wf z -> EncodeRLP z = enc_string (min_bytes (toZ z)).
Proof.
  intros Hz. destruct (BitLen_spec z Hz) as (HL & HL1 & HL2). pose proof (toZ_range z Hz) as Hr. unfold EncodeRLP.
  destruct (Z.eqb_spec (U256.BitLen z) 0) as [E|Hne].
  { rewrite E, Z.pow_0_r in HL1. assert (toZ z = 0) as -> by lia. done. }
  assert (Hnz : toZ z <> 0). { intros E0. rewrite E0 in *. apply Hne. unfold U256.BitLen, Len64. assert (w0 z = 0 /\ w1 z = 0 /\ w2 z = 0 /\ w3 z = 0) as (-> & -> & -> & ->); [|done]. open_wf. revert E0. int_lia. }
  specialize (HL2 Hnz). destruct (Z.leb_spec (U256.BitLen z) 7) as [H7|H7].
  - assert (toZ z < 128). { apply Z.lt_le_trans with (2 ^ U256.BitLen z); [done|]. change 128 with (2 ^ 7). apply Z.pow_le_mono_r; lia. }
    rewrite min_bytes_small by lia. rewrite <- (toZ_IsUint64 z) by (done || unfold B64; lia). unfold enc_string. rewrite Zb_bZ_small by lia. by rewrite (proj2 (Z.leb_le _ _)) by lia.
  - assert (H128 : 128 <= toZ z). { apply Z.le_trans with (2 ^ (U256.BitLen z - 1)); [|done]. change 128 with (2 ^ 7). apply Z.pow_le_mono_r; lia. }
    assert (Hk1 : 1 <= (U256.BitLen z + 7) / 8) by (apply Z.div_le_lower_bound; lia). assert (Hk2 : (U256.BitLen z + 7) / 8 < 33) by (apply Z.div_lt_upper_bound; lia).
    rewrite <- (Bytes_min z) by done. unfold Bytes, ByteLen. set (k := (U256.BitLen z + 7) / 8) in *. unfold u8. rewrite Z.mod_small by lia.
    fold (Bytes32 z). replace (Z.to_nat (32 - k)) with (32 - Z.to_nat k)%nat by lia. set (n := Z.to_nat k).
    assert (Hb : length (drop (32 - n) (Bytes32 z)) = n) by (rewrite length_drop, length_Bytes32; lia).
    assert (E : drop (32 - n) (<[(32 - n)%nat := bZ (128 + k)]> (Byte.x00 :: Bytes32 z)) = bZ (128 + k) :: drop (32 - n) (Bytes32 z)).
    { assert (H33 : length (Byte.x00 :: Bytes32 z) = 33%nat) by (cbn [length]; by rewrite length_Bytes32).
      assert (Hl : (32 - n < length (<[(32 - n)%nat := bZ (128 + k)]> (Byte.x00 :: Bytes32 z)))%nat) by (rewrite length_insert; lia).
      destruct (lookup_lt_is_Some_2 _ _ Hl) as [x Ex]. rewrite (drop_S _ _ _ Ex). rewrite list_lookup_insert_eq in Ex by lia. injection Ex as <-.
      f_equal. rewrite drop_insert_lt by lia. done. }
    rewrite E. set (b := drop (32 - n) (Bytes32 z)) in *. assert (Hv : be_val b = toZ z).
    { unfold b. fold n. pose proof (Bytes_min z Hz) as Hm. unfold Bytes, ByteLen in Hm. fold k n in Hm. rewrite Hm. apply min_bytes_val. lia. }
    destruct (enc_string_cases b) as [(c & Eb & Hc & _)|[-> _]]; [rewrite Eb, be_val_one in Hv; lia|]. unfold puthead, len. rewrite Hb.
    rewrite (proj2 (Z.ltb_lt _ _)) by lia. cbn [app]. do 2 f_equal. lia.
Qed.

(** ** Hexadecimal strings *)

(** The [n] lowest hexadecimal digits, most significant first. *)
Fixpoint nibs (n : nat) (z : Z) : list Z :=
  match n with O => [] | S n => nibs n (z / 16) ++ [z mod 16] end.

Lemma length_nibs n : forall z, length (nibs n z) = n.
Proof. induction n as [|n IH]; intros z; [done|]. cbn [nibs]. rewrite length_app, IH. simpl. lia. Qed.

Lemma nibs_app a b : forall z, nibs (a + b) z = nibs a (z / 16 ^ Z.of_nat b) ++ nibs b z.
Proof.
  induction b as [|b IH]; intros z.
  - rewrite Nat.add_0_r, Z.pow_0_r, Z.div_1_r. cbn [nibs]. by rewrite app_nil_r.
  - replace (a + S b)%nat with (S (a + b)) by lia. cbn [nibs]. rewrite IH, Z.div_div by (try apply Z.pow_pos_nonneg; lia).
    rewrite <- app_assoc. do 3 f_equal. rewrite Nat2Z.inj_succ, Z.pow_succ_r by lia. done.
Qed.

Lemma nibs_range n : forall z, Forall (fun d => 0 <= d < 16) (nibs n z).
Proof. induction n as [|n IH]; intros z; [constructor|]. cbn [nibs]. apply Forall_app. split; [apply IH|]. constructor; [apply Z.mod_pos_bound; lia|constructor]. Qed.

Lemma nibs_mod n : forall z k, (n <= k)%nat -> nibs n (z mod 16 ^ Z.of_nat k) = nibs n z.
Proof.
  induction n as [|n IH]; intros z k Hk; [done|]. cbn [nibs]. destruct k as [|k]; [lia|]. rewrite Nat2Z.inj_succ, Z.pow_succ_r by lia.
  assert (0 < 16 ^ Z.of_nat k) by (apply Z.pow_pos_nonneg; lia). rewrite Z.rem_mul_r by lia. f_equal.
  - rewrite Z.mul_comm, Z.div_add, Z.div_small by (try apply Z.mod_pos_bound; lia). rewrite Z.add_0_l. apply IH. lia.
  - f_equal. rewrite Z.mul_comm, Z.mod_add by lia. apply Z.mod_mod. lia.
Qed.

Lemma nibs_seqZ n : forall z, nibs n z = map (fun i => z / 16 ^ i mod 16) (rev (seqZ 0 (Z.of_nat n))).
Proof.
  induction n as [|n IH]; intros z; [done|]. rewrite Nat2Z.inj_succ, <- Z.add_1_l, seqZ_app by lia. cbn [nibs].
  rewrite rev_app_distr, map_app. change (rev (seqZ 0 1)) with [0]. cbn [map]. rewrite Z.pow_0_r, Z.div_1_r. f_equal.
  rewrite IH. change (0 + 1) with (1 + 0). rewrite <- fmap_add_seqZ. change (Z.add 1 <$> seqZ 0 (Z.of_nat n)) with (map (Z.add 1) (seqZ 0 (Z.of_nat n))).
  rewrite <- map_rev, map_map. apply map_ext_in. intros i Hi.
  apply in_rev, list_elem_of_In, elem_of_seqZ in Hi. rewrite Z.div_div by (try apply Z.pow_pos_nonneg; lia).
  by rewrite <- Z.pow_succ_r, <- Z.add_1_l by lia.
Qed.

Lemma hexWord_nibs w : 0 <= w < B64 -> hexWord w = map hexDigit (nibs 16 w).
Proof.
  intros Hw. unfold hexWord. rewrite nibs_seqZ, map_map. apply map_ext_in. intros i Hi. f_equal.
  apply in_rev, list_elem_of_In, elem_of_seqZ in Hi. unfold shr64, u8. rewrite Z.shiftr_div_pow2 by lia.
  change 15 with (Z.ones 4). rewrite Z.land_ones by lia. change (2 ^ 8) with (2 ^ 4 * 16). rewrite Z.rem_mul_r by lia.
  rewrite (Z.mul_comm (2 ^ 4)), Z.mod_add, Z.mod_mod by lia. by rewrite Z.pow_mul_r by lia.
Qed.

Lemma bintable_hexDigit d : 0 <= d < 16 -> bintable (hexDigit d) = Some d.
Proof.
  intros H. assert (E : forallb (fun d => bool_decide (bintable (hexDigit d) = Some d)) (seqZ 0 16) = true) by by vm_compute.
  rewrite forallb_forall in E. apply (bool_decide_unpack _). apply Is_true_true, E, list_elem_of_In, elem_of_seqZ. lia.
Qed.

Lemma readWord_app a b : forall w, readWord (a ++ b) w = v ← readWord a w; readWord b v.
Proof. induction a as [|c a IH]; intros w; [done|]. cbn [app readWord]. destruct (bintable c); [apply IH|done]. Qed.

(** Reading the digits of [y] shifts what the word held before them. *)
Lemma readWord_nibs n : forall y w, 0 <= w < B64 ->
  readWord (map hexDigit (nibs n y)) w = Ok ((w * 16 ^ Z.of_nat n + y mod 16 ^ Z.of_nat n) mod B64).
Proof.
  induction n as [|n IH]; intros y w Hw.
  - cbn [nibs map readWord]. f_equal. rewrite Z.pow_0_r, Z.mod_1_r, Z.mul_1_r, Z.add_0_r. symmetry. by apply Z.mod_small.
  - cbn [nibs]. rewrite map_app, readWord_app, IH by done. cbn [mbind outcome_bind map readWord].
    rewrite bintable_hexDigit by (apply Z.mod_pos_bound; lia). f_equal. unfold shl64, u64. rewrite Z.shiftl_mul_pow2 by lia.
    change (2 ^ 64) with B64. assert (0 < 16 ^ Z.of_nat n) by (apply Z.pow_pos_nonneg; lia).
    rewrite Nat2Z.inj_succ, Z.pow_succ_r by lia. rewrite (Z.rem_mul_r y) by lia.
    rewrite Z.add_mod_idemp_l, <- Z.add_mod_idemp_l, Z.mul_mod_idemp_l, Z.add_mod_idemp_l by done. f_equal. change (2 ^ 4) with 16. ring.
Qed.

Lemma drop_hexdigits n m y : (n <= m)%nat -> drop (m - n) (map hexDigit (nibs m y)) = map hexDigit (nibs n y).
Proof.
  intros H. replace m with ((m - n) + n)%nat at 2 by lia. rewrite nibs_app, map_app.
  rewrite drop_app_length'; [done|]. by rewrite length_map, length_nibs.
Qed.

(** The digits [a..b) of a string of [n] digits. *)
Lemma slice_hexdigits a b n y : (a <= b <= n)%nat ->
  take (b - a) (drop a (map hexDigit (nibs n y))) = map hexDigit (nibs (b - a) (y / 16 ^ Z.of_nat (n - b))).
Proof.
  intros H. replace a with (n - (n - a))%nat at 2 by lia. rewrite drop_hexdigits by lia.
  replace (n - a)%nat with ((b - a) + (n - b))%nat by lia. rewrite nibs_app, map_app.
  rewrite take_app_length'; [done|]. by rewrite length_map, length_nibs.
Qed.

Lemma nibs_word k w y : is_u64 w -> nibs (k + 16) (w + B64 * y) = nibs k y ++ nibs 16 w.
Proof.
  intros [H0 H1]. rewrite nibs_app. change (16 ^ Z.of_nat 16) with B64. change (2 ^ 64) with B64 in H1. f_equal.
  - f_equal. rewrite Z.mul_comm, Z.div_add, Z.div_small by done. lia.
  - rewrite <- (nibs_mod 16 _ 16) by lia. change (16 ^ Z.of_nat 16) with B64. f_equal. rewrite Z.mul_comm, Z.mod_add by done. by apply Z.mod_small.
Qed.

Lemma nibs_words z : wf z ->
  nibs 16 (toZ z) = nibs 16 (w0 z) /\ nibs 32 (toZ z) = nibs 16 (w1 z) ++ nibs 16 (w0 z) /\
  nibs 48 (toZ z) = nibs 16 (w2 z) ++ nibs 16 (w1 z) ++ nibs 16 (w0 z) /\
  nibs 64 (toZ z) = nibs 16 (w3 z) ++ nibs 16 (w2 z) ++ nibs 16 (w1 z) ++ nibs 16 (w0 z).
Proof.
  intros (H0 & H1 & H2 & H3). unfold toZ.
  assert (E : forall n y, nibs 16 (n + B64 * y) = nibs 16 n).
  { intros n y. rewrite <- (nibs_mod 16 _ 16), <- (nibs_mod 16 n 16) by lia. change (16 ^ Z.of_nat 16) with B64. f_equal. rewrite Z.mul_comm. by apply Z.mod_add. }
  split; [apply E|]. split; [|split].
  - change 32%nat with (16 + 16)%nat. by rewrite nibs_word, E.
  - change 48%nat with (16 + 16 + 16)%nat. by rewrite !nibs_word, E, <- app_assoc.
  - change 64%nat with (16 + 16 + 16 + 16)%nat. by rewrite !nibs_word, <- !app_assoc.
Qed.

(** The number of digits that [Hex] prints. *)
Definition nibbles (z : Int) : Z := Z.max 1 ((BitLen z + 3) / 4).

Lemma BitLen_0 z : wf z -> toZ z = 0 -> BitLen z = 0.
Proof. intros Hz E. by rewrite (toZ_inj z Clear Hz wf_Clear E). Qed.

Lemma nibbles_spec z : wf z -> 1 <= nibbles z <= 64 /\ toZ z < 16 ^ nibbles z /\ (1 < nibbles z -> 16 ^ (nibbles z - 1) <= toZ z).
Proof.
  intros Hz. destruct (BitLen_spec z Hz) as (H1 & H2 & H3). unfold nibbles.
  pose proof (Z.div_mod (BitLen z + 3) 4 ltac:(lia)). pose proof (Z.mod_pos_bound (BitLen z + 3) 4 ltac:(lia)).
  set (n := (BitLen z + 3) / 4) in *. change 16 with (2 ^ 4). split; [lia|]. rewrite <- !Z.pow_mul_r by lia. split.
  - eapply Z.lt_le_trans; [exact H2|]. apply Z.pow_le_mono_r; lia.
  - intros Hn. eapply Z.le_trans; [|apply H3]; [apply Z.pow_le_mono_r; lia|]. intros E. apply BitLen_0 in E; [lia|done].
Qed.

Lemma prefix_0x (a b : nat) (l : list byte) : (a + 2 <= length l)%nat -> b = S a ->
  drop a (<[b := "x"%byte]> (<[a := "0"%byte]> l)) = ["0"%byte; "x"%byte] ++ drop (2 + a) l.
Proof.
  intros Ha ->. apply list_eq. intros i. rewrite lookup_drop.
  destruct i as [|[|i]].
  - rewrite Nat.add_0_r, list_lookup_insert_ne, list_lookup_insert_eq by lia. done.
  - rewrite Nat.add_1_r, list_lookup_insert_eq by (rewrite length_insert; lia). done.
  - rewrite !list_lookup_insert_ne by lia. change ((["0"%byte; "x"%byte] ++ drop (2 + a) l) !! S (S i)) with (drop (2 + a) l !! i). rewrite lookup_drop. f_equal. lia.
Qed.

Lemma Hex_spec z : wf z -> Hex z = ["0"%byte; "x"%byte] ++ map hexDigit (nibs (Z.to_nat (nibbles z)) (toZ z)).
Proof.
  intros Hz. destruct (nibbles_spec z Hz) as (Hn & _). destruct (nibs_words z Hz) as (E1 & E2 & E3 & E4). destruct Hz as (H0 & H1 & H2 & H3).
  unfold Hex. fold (nibbles z). cbv zeta. unfold word. cbn [Z.eqb Pos.eqb]. rewrite !hexWord_nibs by done.
  rewrite prefix_0x; [|rewrite !length_app; repeat case_match; rewrite ?length_map, ?length_nibs, ?length_replicate; simpl; lia|lia].
  f_equal. rewrite drop_app_ge by (simpl; lia). cbn [length]. set (n := Z.to_nat (nibbles z)). replace (2 + Z.to_nat (64 - nibbles z) - 2)%nat with (64 - n)%nat by lia.
  pose proof (Z.div_mod (nibbles z - 1) 16 ltac:(lia)) as Hdm. pose proof (Z.mod_pos_bound (nibbles z - 1) 16 ltac:(lia)) as Hmb.
  set (q := (nibbles z - 1) / 16) in *. assert (q = 0 \/ q = 1 \/ q = 2 \/ q = 3) as [Hq|[Hq|[Hq|Hq]]] by lia; rewrite Hq in *; cbn [Z.leb Z.compare Pos.compare Pos.compare_cont].
  - rewrite !drop_app_ge by (rewrite ?length_replicate; lia). rewrite !length_replicate, <- E1. replace (64 - n - 16 - 16 - 16)%nat with (16 - n)%nat by lia. apply drop_hexdigits. lia.
  - rewrite !drop_app_ge by (rewrite ?length_replicate; lia). rewrite !length_replicate, <- map_app, <- E2. replace (64 - n - 16 - 16)%nat with (32 - n)%nat by lia. apply drop_hexdigits. lia.
  - rewrite !drop_app_ge by (rewrite ?length_replicate; lia). rewrite !length_replicate, <- !map_app, <- E3. replace (64 - n - 16)%nat with (48 - n)%nat by lia. apply drop_hexdigits. lia.
  - rewrite <- !map_app, <- E4. apply drop_hexdigits. lia.
Qed.

(** What reading the [i]-th group of sixteen digits gives: the [i]-th word. *)
Lemma group_word n y i : 0 <= y < 16 ^ Z.of_nat n ->
  let b := (n - 16 * i)%nat in let a := (n - 16 * S i)%nat in
  (y / 16 ^ Z.of_nat (n - b)) mod 16 ^ Z.of_nat (b - a) = (y / B64 ^ Z.of_nat i) mod B64.
Proof.
  intros Hy b a. assert (HB : B64 ^ Z.of_nat i = 16 ^ Z.of_nat (16 * i)) by (rewrite Nat2Z.inj_mul, Z.pow_mul_r by lia; done).
  rewrite HB. destruct (Nat.le_gt_cases n (16 * i)) as [H|H].
  - replace (b - a)%nat with 0%nat by lia. rewrite Z.mod_1_r. rewrite (Z.div_small y (16 ^ Z.of_nat (16 * i))); [done|].
    assert (16 ^ Z.of_nat n <= 16 ^ Z.of_nat (16 * i)) by (apply Z.pow_le_mono_r; lia). lia.
  - replace (n - b)%nat with (16 * i)%nat by lia. assert (0 < 16 ^ Z.of_nat (16 * i)) by (apply Z.pow_pos_nonneg; lia).
    destruct (Nat.le_gt_cases n (16 * S i)) as [H'|H']; [|by replace (b - a)%nat with 16%nat by lia].
    assert (0 <= y / 16 ^ Z.of_nat (16 * i) < 16 ^ Z.of_nat (b - a)) as Hq.
    { split; [apply Z.div_pos; lia|]. apply Z.div_lt_upper_bound; [lia|]. rewrite <- Z.pow_add_r, <- Nat2Z.inj_add by lia. replace (16 * i + (b - a))%nat with n by lia. apply Hy. }
    rewrite !Z.mod_small; [done| |done]. split; [lia|]. eapply Z.lt_le_trans; [apply Hq|]. change B64 with (16 ^ 16). apply Z.pow_le_mono_r; lia.
Qed.

Lemma checkNumberS_digits n y : (1 <= n)%nat -> 0 <= y < 16 ^ Z.of_nat n -> ((1 < n)%nat -> 16 ^ (Z.of_nat n - 1) <= y) ->
  checkNumberS (["0"%byte; "x"%byte] ++ map hexDigit (nibs n y)) = None.
Proof.
  intros Hn Hy Htop. replace n with (1 + (n - 1))%nat by lia. rewrite nibs_app. cbn [nibs app map].
  assert (0 < 16 ^ Z.of_nat (n - 1)) by (apply Z.pow_pos_nonneg; lia).
  assert (Hd : 0 <= y / 16 ^ Z.of_nat (n - 1) < 16).
  { split; [apply Z.div_pos; lia|]. apply Z.div_lt_upper_bound; [lia|]. rewrite Z.mul_comm, <- Z.pow_succ_r by lia. replace (Z.succ (Z.of_nat (n - 1))) with (Z.of_nat n) by lia. apply Hy. }
  rewrite (Z.mod_small _ 16) by done. set (d := y / 16 ^ Z.of_nat (n - 1)) in *. cbn [checkNumberS app]. 
  destruct (map hexDigit (nibs (n - 1) y)) as [|c r] eqn:El; [done|]. cbn.
  assert (1 < n)%nat by (destruct n as [|[|n]]; [lia|done|lia]).
  assert (1 <= d). { subst d. apply Z.div_le_lower_bound; [lia|]. rewrite Z.mul_1_r. replace (Z.of_nat (n - 1)) with (Z.of_nat n - 1) by lia. auto. }
  rewrite (bool_decide_false (hexDigit d = "0"%byte)); [done|]. intros E. pose proof (bintable_hexDigit d Hd) as Hb. change (bintable (hexDigit d) = Some d) in Hb. rewrite E in Hb. change (Some 0 = Some d) in Hb. assert (0 = d) by congruence. lia.
Qed.

Lemma FromHex_digits n y : (1 <= n <= 64)%nat -> 0 <= y < 16 ^ Z.of_nat n -> ((1 < n)%nat -> 16 ^ (Z.of_nat n - 1) <= y) ->
  let r i := (y / B64 ^ i) mod B64 in
  FromHex (["0"%byte; "x"%byte] ++ map hexDigit (nibs n y)) = Ok (mkInt (r 0) (r 1) (r 2) (r 3)).
Proof.
  intros Hn Hy Htop r. unfold FromHex, fromHex. rewrite checkNumberS_digits by (done || lia).
  rewrite length_app, length_map, length_nibs. cbn [length]. rewrite (proj2 (Nat.ltb_ge _ _)) by lia. cbv zeta.
  assert (Hs : forall i s e, s = (2 + (n - 16 * S i))%nat -> e = (2 + (n - 16 * i))%nat ->
    readWord (take (e - s) (drop s (["0"%byte; "x"%byte] ++ map hexDigit (nibs n y)))) 0 = Ok (r (Z.of_nat i))).
  { intros i s e -> ->. cbn [Nat.add app drop]. rewrite !Nat.sub_succ, slice_hexdigits, readWord_nibs by (done || lia).
    rewrite Z.mul_0_l, Z.add_0_l, group_word, Z.mod_mod by done. done. }
  cbn [Clear w0 w1 w2 w3]. rewrite (Hs 3%nat), (Hs 2%nat), (Hs 1%nat), (Hs 0%nat) by lia. done.
Qed.

Lemma toZ_word x i : wf x -> 0 <= i <= 3 -> word x i = (toZ x / B64 ^ i) mod B64.
Proof.
  intros (H0 & H1 & H2 & H3) Hi.
  assert (Hd : forall w y j, is_u64 w -> 0 <= j -> (w + B64 * y) / B64 ^ (j + 1) = y / B64 ^ j).
  { intros w y j Hw Hj. rewrite Z.add_1_r, Z.pow_succ_r, <- Z.div_div by (try apply Z.pow_pos_nonneg; lia || done). f_equal. rewrite Z.mul_comm, Z.div_add, Z.div_small by done. lia. }
  assert (Hm : forall w y, is_u64 w -> (w + B64 * y) mod B64 = w) by (intros w y Hw; rewrite Z.mul_comm, Z.mod_add by done; by apply Z.mod_small).
  unfold toZ, word. assert (i = 0 \/ i = 1 \/ i = 2 \/ i = 3) as [->|[->|[->| ->]]] by lia; cbn [Z.eqb Pos.eqb].
  - by rewrite Z.pow_0_r, Z.div_1_r, Hm.
  - by rewrite (Hd _ _ 0), Z.pow_0_r, Z.div_1_r, Hm.
  - by rewrite (Hd _ _ 1), (Hd _ _ 0), Z.pow_0_r, Z.div_1_r, Hm.
  - rewrite (Hd _ _ 2), (Hd _ _ 1), (Hd _ _ 0), Z.pow_0_r, Z.div_1_r by done. symmetry. by apply Z.mod_small.
Qed.

(** Printing a number and reading it back. *)
Lemma FromHex_Hex z : wf z -> FromHex (Hex z) = Ok z.
Proof.
  intros Hz. destruct (nibbles_spec z Hz) as (H1 & H2 & H3). pose proof (toZ_range z Hz). rewrite Hex_spec by done.
  rewrite FromHex_digits; rewrite ?Z2Nat.id by lia; [|lia|lia|intros; apply H3; lia].
  cbv zeta. rewrite <- !toZ_word by (done || lia). by destruct z.
Qed.
