(* ===== verification/Uint256Props.v ===== *)
(** * What the 256-bit integers promise

    The operations of src/uint256 against the integers: the words that the code
    computes stand for the result of the operation modulo 2^256, as an unsigned number
    ([toZ]) or in two's complement ([toS]), and nothing else of the implementation
    shows.  The lemmas are those of [Uint256Spec], [Uint256Div] and [Uint256Conv]. *)

From S2P Require Import Prelude Common Rlp RlpEnc RlpDec Uint256 Uint256Spec Uint256Div Uint256Conv.
From Stdlib Require Import Strings.Byte.
Import U256.

(** C30: Addition, subtraction, multiplication, squaring, exponentiation, negation and
    both shifts are the operations of the integers modulo 2^256, on words that stay
    within 64 bits; the variants that report an overflow report exactly the results
    that do not fit; the arithmetic shift rounds the signed value down. *)
Theorem uint256_arithmetic (x y : Int) (n : Z) : wf x -> wf y -> 0 <= n ->
  is256 (Add x y) (toZ x + toZ y) /\ is256 (Sub x y) (toZ x - toZ y) /\ is256 (Neg x) (- toZ x) /\
  is256 (Mul x y) (toZ x * toZ y) /\ is256 (squared x) (toZ x * toZ x) /\ is256 (Exp x y) (toZ x ^ toZ y) /\
  is256 (Lsh x n) (toZ x * 2 ^ n) /\ is256 (Rsh x n) (toZ x / 2 ^ n) /\ is256 (SRsh x n) (toS x / 2 ^ n) /\
  (AddOverflow x y).2 = Z.leb M256 (toZ x + toZ y) /\ (SubOverflow x y).2 = Z.ltb (toZ x) (toZ y) /\
  (MulOverflow x y).2 = Z.leb M256 (toZ x * toZ y).
Proof.
  intros Hx Hy Hn. repeat match goal with |- _ /\ _ => split end;
    auto using Add_is256, Sub_is256, Neg_is256, Mul_is256, squared_is256, Exp_is256, Lsh_is256, SRsh_spec.
  - destruct (Rsh_spec x n Hx Hn). by apply is256_exact.
  - destruct (AddOverflow_spec x y Hx Hy) as (r & c & -> & Hr & E). apply toZ_range in Hr. cbn [snd]. destruct c; [symmetry; apply Z.leb_le|symmetry; apply Z.leb_gt]; lia.
  - destruct (SubOverflow_spec x y Hx Hy) as (r & c & -> & Hr & E). apply toZ_range in Hr. cbn [snd]. destruct c; [symmetry; apply Z.ltb_lt|symmetry; apply Z.ltb_ge]; lia.
  - by destruct (MulOverflow_spec x y Hx Hy) as (r & c & -> & _ & E).
Qed.

Lemma uint256_arithmetic_witness : is256 (Mul SetAllOne (SetUint64 3)) (toZ SetAllOne * 3).
Proof.
  assert (H3 : is_u64 3) by (split; reflexivity || discriminate).
  destruct (uint256_arithmetic SetAllOne (SetUint64 3) 1 wf_SetAllOne (wf_SetUint64 3 H3) ltac:(lia)) as (_ & _ & _ & H & _). exact H.
Defined.

(** C29: Division never panics and is exact: [Div] and [Mod] are the quotient and the
    remainder of the unsigned values, [SDiv] and [SMod] those of the signed values
    rounded towards zero, all of them zero for a zero divisor, and [AddMod] and
    [MulMod] reduce the sum and the product that are not reduced modulo 2^256 first.
    This covers the reciprocal, the trial digits and the add-back step of the
    multi-word division in div.go. *)
Theorem uint256_division (x y m : Int) : wf x -> wf y -> wf m ->
  (exists z, Div x y = Ok z /\ wf z /\ toZ z = div0 (toZ x) (toZ y)) /\
  (exists z, Mod x y = Ok z /\ wf z /\ toZ z = mod0 (toZ x) (toZ y)) /\
  (exists z, SDiv x y = Ok z /\ is256 z (quot0 (toS x) (toS y))) /\
  (exists z, SMod x y = Ok z /\ is256 z (rem0 (toS x) (toS y))) /\
  (exists z, AddMod x y m = Ok z /\ wf z /\ toZ z = mod0 (toZ x + toZ y) (toZ m)) /\
  (exists z, MulMod x y m = Ok z /\ wf z /\ toZ z = mod0 (toZ x * toZ y) (toZ m)).
Proof. intros Hx Hy Hm. auto 10 using Div_spec, Mod_spec, SDiv_spec, SMod_spec, AddMod_spec, MulMod_spec. Qed.

Lemma uint256_division_witness : exists z, MulMod SetAllOne SetAllOne (SetUint64 7) = Ok z /\ wf z /\ toZ z = mod0 (toZ SetAllOne * toZ SetAllOne) (toZ (SetUint64 7)).
Proof.
  assert (H7 : is_u64 7) by (split; reflexivity || discriminate).
  destruct (uint256_division SetAllOne SetAllOne (SetUint64 7) wf_SetAllOne wf_SetAllOne (wf_SetUint64 7 H7)) as (_ & _ & _ & _ & _ & H). exact H.
Defined.




(** [UnmarshalText] does not clear the number it reads into: a number that is not
    zero keeps its bits above the digits of the text, so that the text "0x1" read into
    the number 1 gives 17. *)
Theorem UnmarshalText_keeps_old_digits :
  UnmarshalText (SetUint64 1) ["0"%byte; "x"%byte; "1"%byte] = Ok (SetUint64 17) /\
  FromHex ["0"%byte; "x"%byte; "1"%byte] = Ok (SetUint64 1).
Proof. split; reflexivity. Qed.
