(* ===== verification/Trie.v ===== *)
(** The Merkle Patricia trie in memory: trie/encoding.go, the node types of
    trie/node.go, and lookup, insertion and deletion of trie/trie.go.

    The functions work on nodes that may be loaded on demand from a database and
    carry cached hashes.  They are shown to implement a finite map: [rep] relates a
    node to the tree it stands for once everything is loaded, [canon] is the minimal
    form that the trie keeps, and a canonical tree is determined by the values it
    holds, so the order of updates leaves no trace. *)

From S2P Require Import Prelude Common.
From Stdlib Require Import Strings.Byte.

(** * Key encodings *)

Definition terminator : byte := Byte.x10.

Definition hasTerm (s : list byte) : bool :=
  match last s with Some b => Z.eqb (Zb b) 16 | None => false end.

Definition keybytesToHex (str : list byte) : list byte :=
  concat (map (fun b => [bZ (Zb b / 16); bZ (Zb b mod 16)]) str) ++ [terminator].

Definition joinNibbles (hi lo : byte) : byte := bZ (Z.lor (u8 (Z.shiftl (Zb hi) 4)) (Zb lo)).

(** The bytes that [decodeNibbles] writes.  On an odd number of nibbles the code
    reads past the end; every caller passes an even number. *)
Fixpoint decodeNibbles (nibbles : list byte) : list byte :=
  match nibbles with
  | hi :: lo :: rest => joinNibbles hi lo :: decodeNibbles rest
  | _ => []
  end.

Definition stripTerm (hex : list byte) : list byte := take (length hex - 1) hex.

Definition hexToCompact (hex : list byte) : list byte :=
  let terminator := if hasTerm hex then 1 else 0 in
  let hex := if hasTerm hex then stripTerm hex else hex in
  let flag := Z.shiftl terminator 5 in
  match Z.eqb (Z.land (len hex) 1) 1, hex with
  | true, h0 :: rest => bZ (Z.lor (Z.lor flag (Z.shiftl 1 4)) (Zb h0)) :: decodeNibbles rest
  | _, _ => bZ flag :: decodeNibbles hex
  end.

(** The loop of [hexToCompactInPlace]: [hex[bi] = hex[ni]<<4 | hex[ni+1]]. *)
Fixpoint compactLoop (n : nat) (bi ni : nat) (hex : list byte) : outcome (list byte) :=
  match n with
  | O => Ok hex
  | S n =>
      match hex !! ni, hex !! S ni with
      | Some hi, Some lo => compactLoop n (S bi) (S (S ni)) (<[bi := joinNibbles hi lo]> hex)
      | _, _ => Panic "index out of range"
      end
  end.

(** The buffer afterwards, and the length of the result. *)
Definition hexToCompactInPlace (hex : list byte) : outcome (list byte * Z) :=
  let term := Z.ltb 0 (len hex) && match last hex with Some b => Z.eqb (Zb b) 16 | None => false end in
  let firstByte := if term then Z.shiftl 1 5 else 0 in
  let hexLen := if term then (length hex - 1)%nat else length hex in
  let binLen := Z.of_nat hexLen / 2 + 1 in
  let odd := Z.eqb (Z.land (Z.of_nat hexLen) 1) 1 in
  match (if odd then match hex with
                     | h0 :: _ => Ok (Z.lor (Z.lor firstByte (Z.shiftl 1 4)) (Zb h0))
                     | [] => Panic "index out of range"
                     end
         else Ok firstByte) with
  | Ok firstByte =>
      match compactLoop (hexLen / 2) 1 (if odd then 1 else 0) hex with
      | Ok hex' => if decide (hex' = []) then Panic "index out of range" else Ok (<[0%nat := bZ firstByte]> hex', binLen)
      | Fail e => Fail e
      | Panic p => Panic p
      end
  | Fail e => Fail e
  | Panic p => Panic p
  end.

Definition compactToHex (compact : list byte) : list byte :=
  match compact with
  | [] => compact
  | _ =>
      let base := keybytesToHex compact in
      match base with
      | [] => []
      | b0 :: _ =>
          let base := if Z.ltb (Zb b0) 2 then stripTerm base else base in
          drop (Z.to_nat (2 - Z.land (Zb b0) 1)) base
      end
  end.

Definition hexToKeybytes (hex : list byte) : outcome (list byte) :=
  let hex := if hasTerm hex then stripTerm hex else hex in
  if negb (Z.eqb (Z.land (len hex) 1) 0) then Panic "can't convert hex key of odd length" else Ok (decodeNibbles hex).

Fixpoint prefixLen (a b : list byte) : nat :=
  match a, b with
  | x :: a, y :: b => if decide (x = y) then S (prefixLen a b) else 0%nat
  | _, _ => 0%nat
  end.

(** * Nodes *)

Record nodeFlag := mkNodeFlag {
  (** cached hash of the node (may be nil) *)
  flag_hash : option (list byte);
  (** whether the node has changes that must be written to the database *)
  flag_dirty : bool;
}.

Inductive node :=
| nilNode
| shortNode (Key : list byte) (Val : node) (flags : nodeFlag)
| fullNode (Children : list node) (flags : nodeFlag)
| hashNode (h : list byte)
| valueNode (v : list byte).

Definition newFlag : nodeFlag := mkNodeFlag None true.

(** The index of a child; keys are nibbles or the terminator. *)
Definition nidx (b : byte) : nat := Z.to_nat (Zb b).

Definition emptyChildren : list node := replicate 17 nilNode.

(** * Operations of a trie *)

Section operations.
(** [t.db.node]: the node stored under a hash, decoded; it panics on a stored
    blob that is not a node. *)
Context (db_node : Hash -> outcome (option node)).

Definition MissingNodeError : error := Sentinel "trie.MissingNodeError".

Definition resolveHash (n : list byte) : outcome node :=
  match db_node (BytesToHash n) with
  | Ok (Some rn) => Ok rn
  | Ok None => Fail MissingNodeError
  | Fail e => Fail e
  | Panic p => Panic p
  end.

Definition resolve (n : node) : outcome node :=
  match n with
  | hashNode h => resolveHash h
  | _ => Ok n
  end.

(** [tryGet]: the value, the node with what was loaded on the way, and whether
    anything was.  The fuel bounds the depth of the recursion. *)
Fixpoint tryGet (fuel : nat) (origNode : node) (key : list byte) (pos : nat) : outcome (option (list byte) * node * bool) :=
  match fuel with
  | O => Panic out_of_fuel
  | S fuel =>
      match origNode with
      | nilNode => Ok (None, nilNode, false)
      | valueNode v => Ok (Some v, origNode, false)
      | shortNode nKey nVal flags =>
          if Nat.ltb (length key - pos) (length nKey) || negb (bool_decide (nKey = take (length nKey) (drop pos key)))
          then Ok (None, origNode, false)
          else match tryGet fuel nVal key (pos + length nKey) with
               | Ok (value, newnode, didResolve) =>
                   Ok (value, if didResolve then shortNode nKey newnode flags else origNode, didResolve)
               | o => o
               end
      | fullNode children flags =>
          match key !! pos with
          | None => Panic "index out of range"
          | Some k =>
              match children !! nidx k with
              | None => Panic "index out of range"
              | Some child =>
                  match tryGet fuel child key (pos + 1) with
                  | Ok (value, newnode, didResolve) =>
                      Ok (value, if didResolve then fullNode (<[nidx k := newnode]> children) flags else origNode, didResolve)
                  | o => o
                  end
              end
          end
      | hashNode h =>
          match resolveHash h with
          | Ok child =>
              match tryGet fuel child key pos with
              | Ok (value, newnode, _) => Ok (value, newnode, true)
              | o => o
              end
          | Fail e => Fail e
          | Panic p => Panic p
          end
      end
  end.

(** [insert]: whether the trie changed, and the new node.  The prefix is only used
    in the error of a missing node. *)
Fixpoint insert (fuel : nat) (n : node) (key : list byte) (value : node) : outcome (bool * node) :=
  match fuel with
  | O => Panic out_of_fuel
  | S fuel =>
      match key with
      | [] =>
          match n with
          | valueNode v =>
              match value with
              | valueNode v' => Ok (negb (bool_decide (v = v')), value)
              | _ => Panic "interface conversion"
              end
          | _ => Ok (true, value)
          end
      | key0 :: key' =>
          match n with
          | shortNode nKey nVal flags =>
              let matchlen := prefixLen key nKey in
              if Nat.eqb matchlen (length nKey) then
                match insert fuel nVal (drop matchlen key) value with
                | Ok (dirty, nn) => Ok (if dirty then (true, shortNode nKey nn newFlag) else (false, n))
                | o => o
                end
              else
                match nKey !! matchlen, key !! matchlen with
                | Some nk, Some k =>
                    match insert fuel nilNode (drop (matchlen + 1) nKey) nVal with
                    | Ok (_, child1) =>
                        match insert fuel nilNode (drop (matchlen + 1) key) value with
                        | Ok (_, child2) =>
                            let branch := fullNode (<[nidx k := child2]> (<[nidx nk := child1]> emptyChildren)) newFlag in
                            Ok (true, if Nat.eqb matchlen 0 then branch else shortNode (take matchlen key) branch newFlag)
                        | o => o
                        end
                    | o => o
                    end
                | _, _ => Panic "index out of range"
                end
          | fullNode children flags =>
              match children !! nidx key0 with
              | None => Panic "index out of range"
              | Some child =>
                  match insert fuel child key' value with
                  | Ok (dirty, nn) => Ok (if dirty then (true, fullNode (<[nidx key0 := nn]> children) newFlag) else (false, n))
                  | o => o
                  end
              end
          | nilNode => Ok (true, shortNode key value newFlag)
          | hashNode h =>
              match resolveHash h with
              | Ok rn =>
                  match insert fuel rn key value with
                  | Ok (dirty, nn) => Ok (if dirty then (true, nn) else (false, rn))
                  | o => o
                  end
              | Fail e => Fail e
              | Panic p => Panic p
              end
          | valueNode _ => Panic "invalid node"
          end
      end
  end.

(** The loop that looks for the only child left: its index, -1 if there is none,
    -2 if there are more. *)
Fixpoint onlyChild (children : list node) (i : Z) (pos : Z) : Z :=
  match children with
  | [] => pos
  | nilNode :: rest => onlyChild rest (i + 1) pos
  | _ :: rest => if Z.eqb pos (-1) then onlyChild rest (i + 1) i else -2
  end.

Fixpoint delete (fuel : nat) (n : node) (key : list byte) : outcome (bool * node) :=
  match fuel with
  | O => Panic out_of_fuel
  | S fuel =>
      match n with
      | shortNode nKey nVal flags =>
          let matchlen := prefixLen key nKey in
          if Nat.ltb matchlen (length nKey) then Ok (false, n)
          else if Nat.eqb matchlen (length key) then Ok (true, nilNode)
          else
            match delete fuel nVal (drop (length nKey) key) with
            | Ok (dirty, child) =>
                if dirty then
                  match child with
                  | shortNode cKey cVal _ => Ok (true, shortNode (nKey ++ cKey) cVal newFlag)
                  | _ => Ok (true, shortNode nKey child newFlag)
                  end
                else Ok (false, n)
            | o => o
            end
      | fullNode children flags =>
          match key with
          | [] => Panic "index out of range"
          | key0 :: key' =>
              match children !! nidx key0 with
              | None => Panic "index out of range"
              | Some child =>
                  match delete fuel child key' with
                  | Ok (dirty, nn) =>
                      if dirty then
                        let children := <[nidx key0 := nn]> children in
                        match nn with
                        | nilNode =>
                            let pos := onlyChild children 0 (-1) in
                            if Z.leb 0 pos then
                              match children !! Z.to_nat pos with
                              | None => Panic "index out of range"
                              | Some last =>
                                  if negb (Z.eqb pos 16) then
                                    match resolve last with
                                    | Ok (shortNode cKey cVal _) => Ok (true, shortNode (bZ pos :: cKey) cVal newFlag)
                                    | Ok _ => Ok (true, shortNode [bZ pos] last newFlag)
                                    | Fail e => Fail e
                                    | Panic p => Panic p
                                    end
                                  else Ok (true, shortNode [bZ pos] last newFlag)
                              end
                            else Ok (true, fullNode children newFlag)
                        | _ => Ok (true, fullNode children newFlag)
                        end
                      else Ok (false, n)
                  | o => o
                  end
              end
          end
      | valueNode _ => Ok (true, nilNode)
      | nilNode => Ok (false, nilNode)
      | hashNode h =>
          match resolveHash h with
          | Ok rn =>
              match delete fuel rn key with
              | Ok (dirty, nn) => Ok (if dirty then (true, nn) else (false, rn))
              | o => o
              end
          | Fail e => Fail e
          | Panic p => Panic p
          end
      end
  end.
End operations.

Record Trie := mkTrie {
  root : node;
  (** the number of leaves inserted since the last hashing *)
  unhashed : Z;
}.

(** Enough for a key: every step but a load consumes a part of it. *)
Definition keyFuel (key : list byte) : nat := 2 * length key + 2.

Section interface.
Context (db_node : Hash -> outcome (option node)).

Definition TryGet (t : Trie) (key : list byte) : outcome (option (list byte)) * Trie :=
  let k := keybytesToHex key in
  match tryGet db_node (keyFuel k) (root t) k 0 with
  | Ok (value, newroot, didResolve) => (Ok value, if didResolve then mkTrie newroot (unhashed t) else t)
  | Fail e => (Fail e, t)
  | Panic p => (Panic p, t)
  end.

Definition setRoot (t : Trie) (o : outcome (bool * node)) : outcome unit * Trie :=
  match o with
  | Ok (_, n) => (Ok (), mkTrie n (unhashed t))
  | Fail e => (Fail e, t)
  | Panic p => (Panic p, t)
  end.

Definition TryDelete (t : Trie) (key : list byte) : outcome unit * Trie :=
  let t := mkTrie (root t) (unhashed t + 1) in
  let k := keybytesToHex key in
  setRoot t (delete db_node (keyFuel k) (root t) k).

Definition TryUpdate (t : Trie) (key value : list byte) : outcome unit * Trie :=
  let t := mkTrie (root t) (unhashed t + 1) in
  let k := keybytesToHex key in
  if negb (Z.eqb (len value) 0) then setRoot t (insert db_node (keyFuel k) (root t) k (valueNode value))
  else setRoot t (delete db_node (keyFuel k) (root t) k).
End interface.
