(* ===== verification/TrieMap.v ===== *)
(** The trie implements a finite map.  Lookup, insertion and deletion of Trie.v are
    related to the tree that the nodes stand for; the tree is kept in its minimal
    form, which is determined by the values it holds. *)

From S2P Require Import Prelude Common Trie.
From Stdlib Require Import Strings.Byte.

(** * Keys *)

Definition nibble (b : byte) : Prop := Zb b < 16.

(** A key of the trie: nibbles and the terminator. *)
Inductive hexkey : list byte -> Prop :=
| hexkey_end : hexkey [terminator]
| hexkey_cons b k : nibble b -> hexkey k -> hexkey (b :: k).

Lemma nibble_term b : nibble b -> b <> terminator.
Proof. unfold nibble. intros Hb ->. vm_compute in Hb. discriminate. Qed.

Lemma hexkey_app a k : Forall nibble a -> hexkey k -> hexkey (a ++ k).
Proof. induction 1; simpl; [done|]. intros. constructor; auto. Qed.

Lemma hexkey_app_inv a k : hexkey (a ++ k) -> k <> [] -> Forall nibble a /\ hexkey k.
Proof.
  induction a as [|b a IH]; intros Hk Hne; [done|]. inversion Hk as [E|? ? Hb Hk']; subst.
  - destruct a, k; simplify_eq.
  - destruct (IH Hk' Hne). auto.
Qed.

Lemma hexkey_ne k : hexkey k -> k <> [].
Proof. by destruct 1. Qed.

(** No key is a proper prefix of another. *)
Lemma hexkey_prefix_free a k : hexkey a -> hexkey (a ++ k) -> k = [].
Proof.
  intros Ha. induction Ha as [|b a Hb Ha IH]; intros Hk; simpl in Hk; inversion Hk as [E|? ? Hb' Hk']; subst.
  - done.
  - by apply nibble_term in Hb'.
  - by destruct Ha.
  - by apply IH.
Qed.

Lemma keybytesToHex_hexkey str : hexkey (keybytesToHex str).
Proof.
  unfold keybytesToHex. apply hexkey_app; [|constructor]. induction str as [|b str IH]; simpl; [done|].
  pose proof (Zb_range b). pose proof (Z.div_lt_upper_bound (Zb b) 16 16). pose proof (Z.mod_pos_bound (Zb b) 16).
  repeat constructor; [| |done]; unfold nibble; rewrite Zb_bZ_small; try lia.
  pose proof (Z.div_pos (Zb b) 16). lia.
Qed.

Lemma byte_nibbles b c : bZ (Zb b / 16) = bZ (Zb c / 16) -> bZ (Zb b mod 16) = bZ (Zb c mod 16) -> b = c.
Proof.
  pose proof (Zb_range b). pose proof (Zb_range c).
  intros H1%(f_equal Zb) H2%(f_equal Zb). rewrite !Zb_bZ in H1, H2. apply Zb_inj.
  pose proof (Z.div_lt_upper_bound (Zb b) 16 256). pose proof (Z.div_lt_upper_bound (Zb c) 16 256).
  pose proof (Z.div_pos (Zb b) 16). pose proof (Z.div_pos (Zb c) 16).
  pose proof (Z.mod_pos_bound (Zb b) 16). pose proof (Z.mod_pos_bound (Zb c) 16).
  rewrite !Z.mod_small in H1 by lia. rewrite (Z.mod_small (_ mod 16)), (Z.mod_small (Zb c mod 16)) in H2 by lia.
  rewrite (Z.div_mod (Zb b) 16), (Z.div_mod (Zb c) 16) by lia. congruence.
Qed.

Lemma keybytesToHex_inj a b : keybytesToHex a = keybytesToHex b -> a = b.
Proof.
  unfold keybytesToHex. intros H%app_inj_tail. destruct H as [H _]. revert b H.
  induction a as [|x a IH]; intros [|y b] H; simpl in *; try done. injection H as H1 H2 H3. f_equal; [by apply byte_nibbles|by apply IH].
Qed.

(** * Trees: nodes with everything loaded, without flags *)

Inductive tree :=
| TNil
| TShort (key : list byte) (t : tree)
| TFull (children : list tree)
| TVal (v : list byte).

Section tree_ind.
Variable P : tree -> Prop.
Hypotheses (Hnil : P TNil) (Hshort : forall k t, P t -> P (TShort k t))
  (Hfull : forall ts, Forall P ts -> P (TFull ts)) (Hval : forall v, P (TVal v)).

Fixpoint tree_ind' (t : tree) : P t :=
  match t with
  | TNil => Hnil
  | TShort k t => Hshort k t (tree_ind' t)
  | TFull ts => Hfull ts ((fix go ts := match ts return Forall P ts with
                                        | [] => List.Forall_nil P
                                        | t :: ts => List.Forall_cons P t ts (tree_ind' t) (go ts)
                                        end) ts)
  | TVal v => Hval v
  end.
End tree_ind.

#[export] Instance tnil_dec t : Decision (t = TNil).
Proof. destruct t; [left|right..]; done. Defined.

(** The value under a key: what [tryGet] does. *)
Fixpoint tlookup (t : tree) (key : list byte) : option (list byte) :=
  match t with
  | TNil => None
  | TVal v => Some v
  | TShort k t => if decide (take (length k) key = k) then tlookup t (drop (length k) key) else None
  | TFull ts =>
      match key with
      | [] => None
      | x :: key' => (fix pick (ts : list tree) (i : nat) : option (list byte) :=
          match ts, i with
          | t :: _, O => tlookup t key'
          | _ :: ts, S i => pick ts i
          | [], _ => None
          end) ts (nidx x)
      end
  end.

Lemma tlookup_full ts x key : tlookup (TFull ts) (x :: key) = t ← ts !! nidx x; tlookup t key.
Proof.
  simpl. generalize (nidx x). induction ts as [|t ts IH]; intros i; [done|]. destruct i; [done|]. simpl. apply IH.
Qed.

Lemma tlookup_short k t key : tlookup (TShort k t) (k ++ key) = tlookup t key.
Proof. simpl. by rewrite take_app_length, drop_app_length, decide_True. Qed.

Lemma tlookup_short_ne k t key : (forall l, key <> k ++ l) -> tlookup (TShort k t) key = None.
Proof.
  intros Hne. simpl. rewrite decide_False; [done|]. intros E. apply (Hne (drop (length k) key)). rewrite <- E at 1. by rewrite take_drop.
Qed.

(** At least two children. *)
Definition two (ts : list tree) : Prop :=
  exists i j a b, i <> j /\ ts !! i = Some a /\ ts !! j = Some b /\ a <> TNil /\ b <> TNil.

(** The minimal form: leaves end with the terminator, an extension leads to a
    branch, a branch has two children, and no value is empty. *)
Inductive canon : tree -> Prop :=
| canon_leaf k v : hexkey k -> v <> [] -> canon (TShort k (TVal v))
| canon_ext k ts : k <> [] -> Forall nibble k -> canon (TFull ts) -> canon (TShort k (TFull ts))
| canon_full ts : length ts = 17%nat -> (forall i t, (i < 16)%nat -> ts !! i = Some t -> t <> TNil -> canon t) ->
    (forall t, ts !! 16%nat = Some t -> t <> TNil -> exists v, t = TVal v /\ v <> []) -> two ts -> canon (TFull ts).

(** What may stand where the rest of the key is [key]. *)
Definition legal (key : list byte) (t : tree) : Prop :=
  t = TNil \/ (key = [] /\ exists v, t = TVal v /\ v <> []) \/ (hexkey key /\ canon t).

Lemma nidx_nibble b : nibble b -> (nidx b < 16)%nat.
Proof. unfold nibble, nidx. pose proof (Zb_range b). lia. Qed.

Lemma nidx_term : nidx terminator = 16%nat.
Proof. done. Qed.

Lemma nidx_inj a b : nidx a = nidx b -> a = b.
Proof. unfold nidx. pose proof (Zb_range a). pose proof (Zb_range b). intros E. apply Zb_inj. lia. Qed.

Lemma nidx_bZ i : (i < 256)%nat -> nidx (bZ (Z.of_nat i)) = i.
Proof. intros Hi. unfold nidx. rewrite Zb_bZ_small by lia. lia. Qed.

Lemma legal_child ts x key : canon (TFull ts) -> hexkey (x :: key) -> exists t, ts !! nidx x = Some t /\ legal key t.
Proof.
  intros Hc Hk. inversion Hc as [| |? Hlen Hsub Hval _]; subst.
  inversion Hk as [E|? ? Hx Hk']; subst.
  - destruct (lookup_lt_is_Some_2 ts 16) as [t Ht]; [lia|]. exists t. split; [done|]. unfold legal.
    destruct (decide (t = TNil)) as [|Hne]; [by left|]. right. left. split; [done|]. by apply Hval.
  - pose proof (nidx_nibble x Hx). destruct (lookup_lt_is_Some_2 ts (nidx x)) as [t Ht]; [lia|]. exists t. split; [done|]. unfold legal.
    destruct (decide (t = TNil)) as [|Hne]; [by left|]. right. right. split; [done|]. by eapply Hsub.
Qed.

(** A legal tree where a key is left is empty or canonical. *)
Lemma legal_key key t : hexkey key -> legal key t -> t = TNil \/ canon t.
Proof. intros Hk [->|[[-> _]|[_ ?]]]; [by left|by apply hexkey_ne in Hk|by right]. Qed.

Lemma legal_end t : legal [] t -> t = TNil \/ exists v, t = TVal v /\ v <> [].
Proof. intros [->|[[_ ?]|[Hk _]]]; [by left|by right|by apply hexkey_ne in Hk]. Qed.

Lemma canon_not_val v : ~ canon (TVal v).
Proof. intros Hc. inversion Hc. Qed.
Lemma canon_not_nil : ~ canon TNil.
Proof. intros Hc. inversion Hc. Qed.

(** The subtree of a short node. *)
Lemma legal_short k t key : canon (TShort k t) -> hexkey (k ++ key) -> legal key t.
Proof.
  intros Hc Hk. inversion Hc as [? v Hk' Hv|? ts Hne Hnib Hc'|]; subst.
  - rewrite (hexkey_prefix_free _ _ Hk' Hk). right. left. eauto.
  - right. right. split; [|done]. destruct (decide (key = [])) as [->|Hne']; [|by apply (hexkey_app_inv k)].
    rewrite app_nil_r in Hk. destruct (exists_last Hne) as (k' & x & ->). apply Forall_app in Hnib as [_ Hx]. inversion Hx; subst.
    clear -Hk H1. exfalso. induction k' as [|y k' IH]; simpl in Hk; inversion Hk as [E|? ? Hy Hk']; subst; auto.
    + by apply nibble_term in H1.
    + by inversion Hk'.
    + destruct k'; done.
Qed.

(** What may stand in a slot of a branch. *)
Definition slot_ok (i : nat) (t : tree) : Prop :=
  t = TNil \/ ((i < 16)%nat /\ canon t) \/ (i = 16%nat /\ exists v, t = TVal v /\ v <> []).

Lemma canon_slots ts : canon (TFull ts) <-> length ts = 17%nat /\ (forall i t, ts !! i = Some t -> slot_ok i t) /\ two ts.
Proof.
  split.
  - inversion 1 as [| |? Hlen Hsub Hval Htwo]; subst. split; [done|]. split; [|done]. intros i t Ht. unfold slot_ok.
    destruct (decide (t = TNil)) as [|Hne]; [by left|right]. pose proof (lookup_lt_Some _ _ _ Ht).
    destruct (decide (i = 16%nat)) as [->|]; [right; by auto|left]. split; [lia|]. eapply Hsub; try done. lia.
  - intros (Hlen & Hs & Htwo). constructor; [done| | |done].
    + intros i t Hi Ht Hne. destruct (Hs i t Ht) as [?|[[_ ?]|[-> _]]]; [done..|lia].
    + intros t Ht Hne. destruct (Hs _ t Ht) as [?|[[? _]|[_ ?]]]; [done|lia|done].
Qed.

Lemma legal_slot x key t : hexkey (x :: key) -> legal key t -> slot_ok (nidx x) t.
Proof.
  intros Hk [->|[[-> Hv]|[Hk' Hc]]]; [by left| |].
  - right. right. inversion Hk as [|? ? _ Hk']; [done|]. by apply hexkey_ne in Hk'.
  - right. left. split; [|done]. inversion Hk as [|? ? Hx _]; subst; [by inversion Hk'|by apply nidx_nibble].
Qed.

(** A node reached over the path [p]. *)
Definition twrap (p : list byte) (t : tree) : tree := match p with [] => t | _ => TShort p t end.

Lemma tlookup_twrap p t k : tlookup (twrap p t) k = tlookup (TShort p t) k.
Proof. by destruct p. Qed.

Lemma tlookup_short_app a b t k : tlookup (TShort (a ++ b) t) (a ++ k) = tlookup (TShort b t) k.
Proof.
  simpl. rewrite length_app, take_app_add, drop_app_add.
  destruct (decide (take (length b) k = b)) as [E|E].
  - by rewrite E, decide_True.
  - rewrite decide_False; [done|]. intros E'%app_inv_head. done.
Qed.

Lemma tlookup_leaf k v k' : hexkey k -> hexkey k' -> tlookup (TShort k (TVal v)) k' = if decide (k' = k) then Some v else None.
Proof.
  intros Hk Hk'. simpl. destruct (decide (take (length k) k' = k)) as [E|E].
  - rewrite decide_True; [done|]. rewrite <- (take_drop (length k) k'), E in Hk' |- *.
    rewrite (hexkey_prefix_free _ _ Hk Hk'). apply app_nil_r.
  - rewrite decide_False; [done|]. intros ->. by rewrite take_ge in E by done.
Qed.

Lemma two_insert ts i t : two ts -> (i < length ts)%nat -> t <> TNil -> two (<[i := t]> ts).
Proof.
  intros (a & b & ta & tb & Hab & Ha & Hb & Hna & Hnb) Hi Ht.
  destruct (decide (a = i)) as [->|Hai]; [|destruct (decide (b = i)) as [->|Hbi]].
  - exists i, b, t, tb. rewrite list_lookup_insert_eq, list_lookup_insert_ne by done. auto.
  - exists a, i, ta, t. rewrite list_lookup_insert_eq, list_lookup_insert_ne by done. auto.
  - exists a, b, ta, tb. rewrite !list_lookup_insert_ne by done. auto.
Qed.

Lemma prefixLen_spec a b : exists p a' b', a = p ++ a' /\ b = p ++ b' /\ prefixLen a b = length p
  /\ forall x y ra rb, a' = x :: ra -> b' = y :: rb -> x <> y.
Proof.
  revert b. induction a as [|x a IH]; intros [|y b]; simpl.
  - by exists [], [], [].
  - by exists [], [], (y :: b).
  - by exists [], (x :: a), [].
  - destruct (decide (x = y)) as [->|Hne].
    + destruct (IH b) as (p & a' & b' & -> & -> & -> & Hd). by exists (y :: p), a', b'.
    + exists [], (x :: a), (y :: b). split_and!; try done. by intros ? ? ? ? [= -> ->] [= -> ->].
Qed.

(** The remainder of a short node below a branch. *)
Lemma short_slot y nr t : hexkey (y :: nr) \/ nibble y -> canon (TShort (y :: nr) t) -> slot_ok (nidx y) (twrap nr t) /\ twrap nr t <> TNil.
Proof.
  intros _ Hc. inversion Hc as [? v Hk Hv|? ts _ Hnib Hc'|]; subst.
  - inversion Hk as [|? ? Hy Hk']; subst; [split; [right; right; by eauto|done]|].
    destruct nr as [|z nr]; [by apply hexkey_ne in Hk'|]. split; [|done]. right. left. split; [by apply nidx_nibble|by constructor].
  - apply Forall_cons in Hnib as [Hy Hnr]. split; [|by destruct nr]. right. left. split; [by apply nidx_nibble|].
    destruct nr; [done|by constructor].
Qed.

Lemma canon_short_app a b t : b <> [] -> canon (TShort (a ++ b) t) -> canon (TShort b t).
Proof.
  intros Hb Hc. inversion Hc as [? v Hk Hv|? ts _ Hnib Hc'|]; subst.
  - constructor; [|done]. by apply (hexkey_app_inv a).
  - apply Forall_app in Hnib as [_ ?]. by constructor.
Qed.

Lemma canon_short_prefix a b t : b <> [] -> canon (TShort (a ++ b) t) -> Forall nibble a.
Proof.
  intros Hb Hc. inversion Hc as [? v Hk Hv|? ts _ Hnib Hc'|]; subst; [by apply (hexkey_app_inv a) in Hk as [? _]|].
  by apply Forall_app in Hnib as [? _].
Qed.

Lemma canon_twrap p ts : Forall nibble p -> canon (TFull ts) -> canon (twrap p (TFull ts)).
Proof. intros Hp Hc. destruct p; [done|]. by constructor. Qed.

(** The branch that separates a new key from a short node. *)
Section branch.
Variables (p kr nr : list byte) (x y : byte) (t1 : tree) (v : list byte).
Hypotheses (Hxy : x <> y) (Hk : hexkey (p ++ x :: kr)) (Hv : v <> []) (Hc : canon (TShort (p ++ y :: nr) t1)).

Definition branch_children : list tree :=
  <[nidx x := twrap kr (TVal v)]> (<[nidx y := twrap nr t1]> (replicate 17 TNil)).

Lemma branch_idx : nidx x <> nidx y /\ (nidx x < 17)%nat /\ (nidx y < 17)%nat.
Proof.
  split; [by intros E%nidx_inj|]. split.
  - apply hexkey_app_inv in Hk as [_ Hx]; [|done]. inversion Hx as [|? ? Hb _]; [rewrite nidx_term; lia|]. apply nidx_nibble in Hb. lia.
  - apply canon_short_app in Hc as Hc'; [|done]. destruct (short_slot y nr t1) as [Hs Hne]; [|done|].
    { inversion Hc' as [? ? Hk'|? ? ? Hn|]; subst; [by left|right; by inversion Hn]. }
    destruct Hs as [?|[[? _]|[-> _]]]; [done|lia..].
Qed.

Lemma branch_lookup i : branch_children !! i =
  if decide (i = nidx x) then Some (twrap kr (TVal v)) else if decide (i = nidx y) then Some (twrap nr t1)
  else if decide (i < 17)%nat then Some TNil else None.
Proof.
  destruct branch_idx as (Hne & Hx & Hy). unfold branch_children.
  destruct (decide (i = nidx x)) as [->|]; [rewrite list_lookup_insert_eq; [done|by rewrite length_insert, length_replicate]|].
  rewrite list_lookup_insert_ne by done.
  destruct (decide (i = nidx y)) as [->|]; [rewrite list_lookup_insert_eq; [done|by rewrite length_replicate]|].
  rewrite list_lookup_insert_ne by done. destruct (decide (i < 17)%nat); [by rewrite lookup_replicate_2|].
  apply lookup_ge_None_2. rewrite length_replicate. lia.
Qed.

Lemma branch_canon : canon (twrap p (TFull branch_children)).
Proof.
  destruct branch_idx as (Hne & Hx & Hy). apply canon_twrap; [by apply (canon_short_prefix p (y :: nr) t1)|].
  apply canon_slots. split; [unfold branch_children; by rewrite !length_insert, length_replicate|].
  assert (H2 : slot_ok (nidx y) (twrap nr t1) /\ twrap nr t1 <> TNil).
  { apply canon_short_app in Hc as Hc'; [|done]. apply short_slot; [|done]. inversion Hc' as [? ? Hk'|? ? ? Hn|]; subst; [by left|right; by inversion Hn]. }
  assert (H1 : slot_ok (nidx x) (twrap kr (TVal v)) /\ twrap kr (TVal v) <> TNil).
  { apply hexkey_app_inv in Hk as [_ Hx']; [|done]. apply short_slot; [by left|by constructor]. }
  split.
  - intros i t. rewrite branch_lookup. repeat case_decide; intros [= <-]; subst; try done; [apply H1|apply H2|by left].
  - exists (nidx x), (nidx y), (twrap kr (TVal v)), (twrap nr t1). rewrite !branch_lookup.
    rewrite decide_True, decide_False, decide_True by done. naive_solver.
Qed.

Lemma branch_tlookup k' : hexkey k' -> tlookup (twrap p (TFull branch_children)) k' =
  if decide (k' = p ++ x :: kr) then Some v else tlookup (TShort (p ++ y :: nr) t1) k'.
Proof.
  intros Hk'. rewrite tlookup_twrap. destruct (decide (take (length p) k' = p)) as [E|E].
  - rewrite <- (take_drop (length p) k'), E in Hk' |- *. set (r := drop (length p) k') in *. clearbody r. clear E k'.
    rewrite tlookup_short, tlookup_short_app. destruct r as [|z kz].
    { exfalso. rewrite app_nil_r in Hk'. by apply (hexkey_prefix_free p (x :: kr)) in Hk'. }
    apply hexkey_app_inv in Hk' as [_ Hz]; [|done]. pose proof (hexkey_app_inv p (x :: kr) Hk) as [_ Hx]; [done|].
    rewrite tlookup_full, branch_lookup.
    destruct (decide (nidx z = nidx x)) as [->%nidx_inj|Hzx]; [|destruct (decide (nidx z = nidx y)) as [->%nidx_inj|Hzy]]; cbn [mbind option_bind].
    + rewrite tlookup_twrap, <- (tlookup_short_app [x] kr), (tlookup_leaf (x :: kr)) by done. cbn [app].
      destruct (decide (x :: kz = x :: kr)) as [[= ->]|E]; [rewrite decide_True by done; done|].
      rewrite decide_False by (intros ?%app_inv_head; done). rewrite tlookup_short_ne; [done|]. intros l [= ? _]. done.
    + rewrite decide_False by (intros ?%app_inv_head; simplify_eq). rewrite tlookup_twrap. symmetry. apply (tlookup_short_app [y] nr).
    + trans (@None (list byte)); [by case_decide|]. symmetry.
      rewrite decide_False by (intros ?%app_inv_head; simplify_eq; done). apply tlookup_short_ne. intros l [= ? _]. by simplify_eq.
  - assert (Hno : forall q l, k' <> (p ++ q) ++ l). { intros q l ->. apply E. by rewrite <- app_assoc, take_app_length. }
    rewrite decide_False by (intros ->; apply (Hno (x :: kr) []); by rewrite app_nil_r).
    rewrite !tlookup_short_ne; [done|apply Hno|]. intros l. pose proof (Hno [] l) as H. by rewrite app_nil_r in H.
Qed.
End branch.

(** Joining a path with the node below it, so that no short node leads to
    another. *)
Definition tjoin (p : list byte) (t : tree) : tree :=
  match t with TShort ck ct => TShort (p ++ ck) ct | _ => TShort p t end.

Lemma tlookup_tjoin p t k : tlookup (tjoin p t) (p ++ k) = tlookup t k.
Proof. destruct t; try apply tlookup_short. apply tlookup_short_app. Qed.

Lemma tlookup_tjoin_ne p t k : (forall l, k <> p ++ l) -> tlookup (tjoin p t) k = None.
Proof.
  intros Hno. destruct t; try by apply tlookup_short_ne. apply tlookup_short_ne. intros l. rewrite <- app_assoc. apply Hno.
Qed.

Lemma canon_tjoin p t : p <> [] -> Forall nibble p -> canon t -> canon (tjoin p t).
Proof.
  intros Hne Hp Hc. inversion Hc as [k v Hk Hv|k ts Hk Hn Hc'|ts]; subst; simpl.
  - constructor; [by apply hexkey_app|done].
  - constructor; [by destruct p|by apply Forall_app|done].
  - by constructor.
Qed.

(** * What a node stands for *)

Fixpoint subtrees (t : tree) : list tree :=
  t :: match t with
       | TShort _ t => subtrees t
       | TFull ts => concat (map subtrees ts)
       | _ => []
       end.

Lemma subtrees_self t : t ∈ subtrees t.
Proof. destruct t; simpl; set_solver. Qed.

Lemma subtrees_short k t s : s ∈ subtrees t -> s ∈ subtrees (TShort k t).
Proof. simpl. set_solver. Qed.

Lemma subtrees_full ts t s : t ∈ ts -> s ∈ subtrees t -> s ∈ subtrees (TFull ts).
Proof.
  intros Ht Hs. simpl. right. apply list_elem_of_In, in_concat. exists (subtrees t).
  rewrite <- !list_elem_of_In. split; [by apply list_elem_of_fmap_2|done].
Qed.

Lemma subtrees_full_inv ts s : s ∈ subtrees (TFull ts) -> s = TFull ts \/ exists t, t ∈ ts /\ s ∈ subtrees t.
Proof.
  simpl. rewrite elem_of_cons. intros [->|Hs]; [by left|right]. apply list_elem_of_In, in_concat in Hs as (l & Hl & Hs).
  apply list_elem_of_In in Hl. apply list_elem_of_In in Hs. apply list_elem_of_fmap_1 in Hl as (t & -> & Ht). eauto.
Qed.

Lemma subtrees_trans a b c : a ∈ subtrees b -> b ∈ subtrees c -> a ∈ subtrees c.
Proof.
  intros Hab. induction c as [|k t IH|ts IH|v] using tree_ind'; intros Hb.
  - simpl in Hb. apply list_elem_of_singleton in Hb as ->. done.
  - simpl in Hb. apply elem_of_cons in Hb as [->|Hb]; [done|]. by apply subtrees_short, IH.
  - apply subtrees_full_inv in Hb as [->|(t & Ht & Hb)]; [done|]. rewrite Forall_forall in IH. by eapply subtrees_full, IH.
  - simpl in Hb. apply list_elem_of_singleton in Hb as ->. done.
Qed.

Lemma canon_subtree t s : canon t -> s ∈ subtrees t -> s = TNil \/ (exists v, s = TVal v) \/ canon s.
Proof.
  induction t as [|k t IH|ts IH|v] using tree_ind'; intros Hc Hs.
  - by apply canon_not_nil in Hc.
  - simpl in Hs. apply elem_of_cons in Hs as [->|Hs]; [by auto|]. inversion Hc as [? v Hk Hv|? ts Hne Hn Hc'|]; subst; [|by apply IH].
    simpl in Hs. apply list_elem_of_singleton in Hs as ->. eauto.
  - apply subtrees_full_inv in Hs as [->|(t & Ht & Hs)]; [by auto|]. apply canon_slots in Hc as (_ & Hsl & _). rewrite Forall_forall in IH.
    pose proof Ht as [i Hi]%list_elem_of_lookup. destruct (Hsl i t Hi) as [->|[[_ Hc]|[_ (v & -> & _)]]].
    + simpl in Hs. apply list_elem_of_singleton in Hs as ->. by left.
    + by apply (IH t Ht).
    + simpl in Hs. apply list_elem_of_singleton in Hs as ->. eauto.
  - by apply canon_not_val in Hc.
Qed.

(** A flag with a cached hash. *)
Definition has_hash (f : nodeFlag) : bool := match flag_hash f with Some _ => true | None => false end.

(** [repb b n t]: the node [n] stands for the tree [t].  The flag and the hashes
    are right in the sense of [flag_ok] and [hash_ok]; with [b], which holds below
    any node that has a cached hash, the node has been hashed. *)
Section rep.
Context (db_node : Hash -> outcome (option node)) (flag_ok : bool -> nodeFlag -> tree -> Prop) (hash_ok : list byte -> tree -> Prop).
Hypothesis flag_mono : forall f t, flag_ok true f t -> flag_ok false f t.

Definition loaded (n : node) : bool := match n with shortNode _ _ _ | fullNode _ _ => true | _ => false end.
Definition is_hashNode (n : node) : bool := match n with hashNode _ => true | _ => false end.

Inductive repb : bool -> node -> tree -> Prop :=
| rep_nil b : repb b nilNode TNil
| rep_value b v : repb b (valueNode v) (TVal v)
| rep_short b k n t f : repb (b || has_hash f) n t -> flag_ok b f (TShort k t) -> repb b (shortNode k n f) (TShort k t)
| rep_full b ns ts f : Forall2 (repb (b || has_hash f)) ns ts -> flag_ok b f (TFull ts) -> repb b (fullNode ns f) (TFull ts)
| rep_hash b h n t : db_node (BytesToHash h) = Ok (Some n) -> loaded n = true -> hash_ok h t -> repb true n t -> repb b (hashNode h) t.

Notation rep := (repb false).

Lemma repb_mono : forall b b' n t, (b' = true -> b = true) -> repb b n t -> repb b' n t.
Proof.
  fix IH 6. intros b b' n t Hb Hr.
  assert (Hor : forall f, b' || has_hash f = true -> b || has_hash f = true) by (intros f; destruct b', b; naive_solver).
  assert (Hfl : forall f u, flag_ok b f u -> flag_ok b' f u) by (intros f u; destruct b', b; naive_solver).
  destruct Hr as [| |b k n t f Hr1 Hf|b ns ts f Hr1 Hf|b h n t Hdb Hl Hh Hr1].
  - constructor.
  - constructor.
  - constructor; [|by apply Hfl]. eapply (IH _ _ _ _ (Hor f)). exact Hr1.
  - constructor; [|by apply Hfl]. clear Hf. induction Hr1 as [|n t ns ts Hr1 _ IHl]; constructor; [|exact IHl].
    eapply (IH _ _ _ _ (Hor f)). exact Hr1.
  - by econstructor.
Qed.

Lemma repb_weaken b n t : repb b n t -> rep n t.
Proof. by apply repb_mono. Qed.

Lemma Forall2_weaken b ns ts : Forall2 (repb b) ns ts -> Forall2 rep ns ts.
Proof. intros Hr. eapply Forall2_impl; [exact Hr|]. intros ? ?. apply repb_weaken. Qed.

Lemma rep_nil_inv b n : repb b n TNil -> n = nilNode.
Proof. inversion 1 as [| | | |? h n' t Hdb Hl Hh Hr]; [done|]. subst. inversion Hr; subst; done. Qed.

Lemma rep_nilNode_inv b t : repb b nilNode t -> t = TNil.
Proof. by inversion 1. Qed.

(** Enough fuel for the rest of a key at a node. *)
Definition need (key : list byte) (n : node) : nat := 2 * length key + 1 + (if is_hashNode n then 1 else 0).

Lemma need_loaded key n : loaded n = true -> need key n = (2 * length key + 1)%nat.
Proof. unfold need. destruct n; simpl; try done; lia. Qed.

Lemma Forall2_rep_insert b ns ts i n t : Forall2 (repb b) ns ts -> repb b n t -> Forall2 (repb b) (<[i := n]> ns) (<[i := t]> ts).
Proof. apply Forall2_insert. Qed.

Lemma drop_lookup_cons {A} (l : list A) i x r : drop i l = x :: r -> l !! i = Some x.
Proof. intros E. pose proof (lookup_drop l i 0) as H. rewrite E, Nat.add_0_r in H. by symmetry. Qed.

Lemma tryGet_rep fuel : forall b n t key pos,
  repb b n t -> legal (drop pos key) t -> (need (drop pos key) n <= fuel)%nat -> (pos <= length key)%nat ->
  exists n' d, tryGet db_node fuel n key pos = Ok (tlookup t (drop pos key), n', d) /\ repb b n' t.
Proof.
  induction fuel as [|fuel IH]; intros b n t key pos Hr Hl Hf Hp; [unfold need in Hf; lia|].
  inversion Hr as [|? v|? k n1 t1 f Hr1 Hfl|? ns ts f Hr1 Hfl|? h n1 t1 Hdb Hld Hh Hr1]; subst; cbn [tryGet].
  - by eexists _, _.
  - by eexists _, _.
  - destruct Hl as [?|[[_ (? & ? & _)]|[Hk Hc]]]; [done..|]. set (rest := drop pos key) in *.
    assert (Hlen : length rest = (length key - pos)%nat) by (unfold rest; by rewrite length_drop).
    destruct (decide (take (length k) rest = k)) as [E|E].
    + assert (Hkl : (length k <= length rest)%nat) by (apply (f_equal length) in E; rewrite length_take in E; lia).
      assert (Hsplit : rest = k ++ drop (length k) rest) by (rewrite <- E at 1; by rewrite take_drop).
      assert (Hkn : k <> []) by (by inversion Hc; subst; [apply hexkey_ne|]).
      replace (Nat.ltb _ _) with false by (symmetry; apply Nat.ltb_ge; lia). rewrite bool_decide_eq_true_2 by done. simpl.
      assert (Hd : drop (pos + length k) key = drop (length k) rest) by (unfold rest; by rewrite drop_drop).
      destruct (IH _ n1 t1 key (pos + length k)%nat Hr1) as (n' & d & Hg & Hr'); rewrite ?Hd.
      * rewrite Hsplit in Hk. by eapply legal_short.
      * unfold need in *. rewrite length_drop. destruct k; [done|]. simpl in *. destruct (is_hashNode n1); lia.
      * lia.
      * rewrite Hg, Hd. eexists _, d. split; [simpl; by rewrite decide_True|]. destruct d; [|done]. by constructor.
    + replace (_ || _) with true; [eexists _, _; split; [simpl; by rewrite decide_False|done]|]. symmetry. apply orb_true_iff. right. by rewrite bool_decide_eq_false_2.
  - destruct Hl as [?|[[_ (? & ? & _)]|[Hk Hc]]]; [done..|]. destruct (drop pos key) as [|x rest] eqn:Hrest; [by apply hexkey_ne in Hk|].
    rewrite (drop_lookup_cons _ _ _ _ Hrest). destruct (legal_child _ _ _ Hc Hk) as (t & Ht & Hlt).
    destruct (Forall2_lookup_r _ _ _ _ _ Hr1 Ht) as (n1 & Hn1 & Hrn). rewrite Hn1.
    assert (Hd : drop (pos + 1) key = rest) by (rewrite <- drop_drop, Hrest; done).
    destruct (IH _ n1 t key (pos + 1)%nat Hrn) as (n' & d & Hg & Hr'); rewrite ?Hd; [done| | |].
    + unfold need in *. simpl in *. destruct (is_hashNode n1); lia.
    + apply (f_equal length) in Hrest. rewrite length_drop in Hrest. simpl in Hrest. lia.
    + rewrite Hg, Hd. eexists _, d. split; [by rewrite tlookup_full, Ht|]. destruct d; [|done]. constructor; [|done].
      rewrite <- (list_insert_id _ _ _ Ht). by apply Forall2_rep_insert.
  - unfold resolveHash. rewrite Hdb.
    destruct (IH _ n1 t key pos Hr1 Hl) as (n' & d & Hg & Hr'); [|done|].
    + rewrite need_loaded by done. unfold need in Hf. simpl in Hf. lia.
    + rewrite Hg. eexists _, _. split; [done|]. by eapply repb_mono; [|exact Hr'].
Qed.

(** The keys that compare with [key]: they end where it ends. *)
Definition alike (key k : list byte) : Prop := key = [] /\ k = [] \/ hexkey key /\ hexkey k.

Hypothesis Hnew : forall t, flag_ok false newFlag t.

Lemma insert_nil fuel key value : (0 < fuel)%nat ->
  insert db_node fuel nilNode key value = Ok (true, match key with [] => value | _ => shortNode key value newFlag end).
Proof. destruct fuel; [lia|]. by destruct key. Qed.

Lemma rep_twrap k n t : rep n t -> rep (match k with [] => n | _ => shortNode k n newFlag end) (twrap k t).
Proof. destruct k; [done|]. by constructor. Qed.

Lemma Forall2_empty : Forall2 rep emptyChildren (replicate 17 TNil).
Proof. by repeat constructor. Qed.

(** The keys of a short node and of an insertion part at a branch, unless the
    short node is on the way. *)
Lemma keys_part key nKey t1 p a' b' : hexkey key -> canon (TShort nKey t1) -> key = p ++ a' -> nKey = p ++ b' -> b' <> [] ->
  exists x kr y nr, a' = x :: kr /\ b' = y :: nr.
Proof.
  intros Hk Hc -> -> Hb. destruct b' as [|y nr]; [done|]. destruct a' as [|x kr]; [|by eexists _, _, _, _].
  exfalso. rewrite app_nil_r in Hk. inversion Hc as [? v Hk' _|? ts _ Hnib _|]; subst.
  - by apply (hexkey_prefix_free p) in Hk'.
  - apply Forall_app in Hnib as [Hnib _]. clear -Hk Hnib. induction Hk; inversion Hnib; subst; [by apply nibble_term in H1|auto].
Qed.

Definition inserted (n : node) (t : tree) (key v : list byte) (o : outcome (bool * node)) : Prop :=
  exists d n' t', o = Ok (d, n') /\ rep n' t' /\ legal key t' /\ t' <> TNil /\ (d = false -> t' = t) /\ (forall ts, t = TFull ts -> exists ts', t' = TFull ts')
    /\ forall k, alike key k -> tlookup t' k = if decide (k = key) then Some v else tlookup t k.

Section insert_step.
Variables (v : list byte) (fuel : nat).
Hypothesis (Hv : v <> []).
Hypothesis IH : forall n t key, rep n t -> legal key t -> key = [] \/ hexkey key -> (need key n <= fuel)%nat ->
  inserted n t key v (insert db_node fuel n key (valueNode v)).

Lemma insert_end n t : rep n t -> legal [] t -> inserted n t [] v (insert db_node (S fuel) n [] (valueNode v)).
Proof.
  intros Hr Hl. assert (Hsome : forall d, (d = false -> t = TVal v) -> inserted n t [] v (Ok (d, valueNode v))).
  { intros d Hd. exists d, (valueNode v), (TVal v). split_and!; try done; [constructor|right; left; by eauto| | |].
    - intros E. by rewrite (Hd E).
    - intros ts ->. apply legal_end in Hl as [?|(? & ? & _)]; done.
    - intros k [[_ ->]|[Hk _]]; [by rewrite decide_True|by apply hexkey_ne in Hk]. }
  cbn [insert]. inversion Hr; subst; try (by apply Hsome).
  destruct (bool_decide_reflect (v0 = v)) as [->|]; by apply Hsome.
Qed.

(** Going on below a short node. *)
Lemma insert_below p n1 t1 f a' : rep (shortNode p n1 f) (TShort p t1) -> canon (TShort p t1) -> hexkey (p ++ a') ->
  inserted n1 t1 a' v (insert db_node fuel n1 a' (valueNode v)) ->
  inserted (shortNode p n1 f) (TShort p t1) (p ++ a') v
    (match insert db_node fuel n1 a' (valueNode v) with
     | Ok (dirty, nn) => Ok (if dirty then (true, shortNode p nn newFlag) else (false, shortNode p n1 f))
     | o => o
     end).
Proof.
  intros Hr Hc Hk (d & n' & t' & -> & Hr' & Hl' & Hne & Hd & Hf & Hlk).
  exists d, (if d then shortNode p n' newFlag else shortNode p n1 f), (TShort p t'). split_and!; try done.
  - by destruct d.
  - destruct d; [by constructor|]. by rewrite (Hd eq_refl).
  - right. right. split; [done|]. inversion Hc as [? v1 Hk' Hv1|? ts Hpne Hnib Hc'|]; subst.
    + rewrite (hexkey_prefix_free _ _ Hk' Hk) in Hl'. apply legal_end in Hl' as [?|(? & -> & ?)]; [done|]. by constructor.
    + destruct (Hf ts eq_refl) as [ts' ->]. constructor; [done..|].
      destruct Hl' as [?|[[_ (? & ? & _)]|[_ ?]]]; done.
  - intros E. by rewrite (Hd E).
  - intros k [[E _]|[_ Hk']]; [by apply hexkey_ne in Hk|].
    destruct (decide (take (length p) k = p)) as [E|E].
    + rewrite <- (take_drop (length p) k), E in Hk' |- *. set (r := drop (length p) k) in *. clearbody r. clear E k.
      rewrite !tlookup_short, Hlk.
      * destruct (decide (r = a')) as [->|Hn]; [by rewrite decide_True|]. rewrite decide_False; [done|]. by intros ?%app_inv_head.
      * inversion Hc as [? v1 Hkp _|? ts Hpne Hnib Hc'|]; subst.
        -- left. split; by eapply hexkey_prefix_free.
        -- right. destruct (legal_short _ _ _ Hc Hk) as [?|[[_ (? & ? & _)]|[? _]]]; [done..|]. split; [done|].
           destruct (legal_short _ _ _ Hc Hk') as [?|[[_ (? & ? & _)]|[? _]]]; done.
    + assert (Hno : forall l, k <> p ++ l) by (intros l ->; apply E; by rewrite take_app_length).
      rewrite decide_False by apply Hno. by rewrite !tlookup_short_ne.
Qed.

Lemma insert_short nKey n1 t1 f key : rep (shortNode nKey n1 f) (TShort nKey t1) -> canon (TShort nKey t1) -> hexkey key ->
  (need key (shortNode nKey n1 f) <= S fuel)%nat ->
  inserted (shortNode nKey n1 f) (TShort nKey t1) key v (insert db_node (S fuel) (shortNode nKey n1 f) key (valueNode v)).
Proof.
  intros Hr Hc Hk Hf. destruct key as [|x0 key0] eqn:Ekey; [by apply hexkey_ne in Hk|]. cbn [insert]. rewrite <- Ekey in *. clear Ekey x0 key0.
  assert (Hr1 : rep n1 t1) by (inversion Hr; by eapply repb_weaken). assert (Hne : nKey <> []) by (by inversion Hc; subst; [apply hexkey_ne|]).
  destruct (prefixLen_spec key nKey) as (p & a' & b' & Ek & En & -> & Hd).
  assert (Hdrop : drop (length p) key = a') by (by rewrite Ek, drop_app_length).
  destruct (Nat.eqb_spec (length p) (length nKey)) as [El|El].
  - assert (b' = []) as -> by (destruct b'; [done|]; rewrite En, length_app in El; simpl in El; lia).
    rewrite app_nil_r in En. subst nKey. rewrite Hdrop. rewrite Ek. apply insert_below; try done; [by rewrite <- Ek|].
    apply IH; [done|eapply legal_short; [done|by rewrite <- Ek]| |].
    + destruct (decide (a' = [])) as [|Ha]; [by left|right]. rewrite Ek in Hk. by apply (hexkey_app_inv p).
    + unfold need in *. rewrite Ek, length_app in Hf. destruct p; [done|]. simpl in *. destruct (is_hashNode n1); lia.
  - assert (Hb : b' <> []) by (intros ->; rewrite app_nil_r in En; by subst).
    destruct (keys_part key nKey t1 p a' b' Hk Hc Ek En Hb) as (x & kr & y & nr & -> & ->).
    assert (Hxy : x <> y) by (by eapply Hd). rewrite Ek, En. rewrite !list_lookup_middle by done.
    rewrite !insert_nil by (unfold need in Hf; rewrite Ek, length_app in Hf; simpl in Hf; lia).
    rewrite !drop_app_add. cbn [drop]. rewrite take_app_length. subst key nKey.
    eexists true, _, (twrap p (TFull (branch_children kr nr x y t1 v))). split; [done|]. split_and!.
    + assert (Hb2 : rep (fullNode (<[nidx x := match kr with [] => valueNode v | _ => shortNode kr (valueNode v) newFlag end]>
          (<[nidx y := match nr with [] => n1 | _ => shortNode nr n1 newFlag end]> emptyChildren)) newFlag) (TFull (branch_children kr nr x y t1 v))).
      { constructor; [|done]. unfold branch_children. repeat apply Forall2_rep_insert; [apply Forall2_empty|by apply rep_twrap|].
        apply rep_twrap. constructor. }
      destruct p as [|z p]; [done|]. simpl. by constructor.
    + right. right. split; [done|]. by apply branch_canon.
    + by destruct p.
    + done.
    + done.
    + intros k [[? _]|[_ Hk']]; [by apply hexkey_ne in Hk|]. by apply branch_tlookup.
Qed.

Lemma alike_child x key z k : hexkey (x :: key) -> hexkey (z :: k) -> nidx z = nidx x -> alike key k.
Proof.
  intros H1 H2 E%nidx_inj. subst z. inversion H1 as [E1|? ? Hx H1']; inversion H2 as [E2|? ? Hx' H2']; subst.
  - by left.
  - by apply nibble_term in Hx'.
  - by apply nibble_term in Hx.
  - by right.
Qed.

Lemma insert_full ns ts f key : rep (fullNode ns f) (TFull ts) -> canon (TFull ts) -> hexkey key ->
  (need key (fullNode ns f) <= S fuel)%nat ->
  inserted (fullNode ns f) (TFull ts) key v (insert db_node (S fuel) (fullNode ns f) key (valueNode v)).
Proof.
  intros Hr Hc Hk Hf. destruct key as [|x key]; [by apply hexkey_ne in Hk|]. cbn [insert].
  assert (Hr1 : Forall2 rep ns ts) by (inversion Hr; by eapply Forall2_weaken).
  destruct (legal_child _ _ _ Hc Hk) as (t & Ht & Hlt). destruct (Forall2_lookup_r _ _ _ _ _ Hr1 Ht) as (n1 & Hn1 & Hrn). rewrite Hn1.
  destruct (IH n1 t key Hrn Hlt) as (d & n' & t' & -> & Hr' & Hl' & Hne & Hd & Hful & Hlk).
  { inversion Hk; [by left|by right]. }
  { unfold need in *. simpl in *. destruct (is_hashNode n1); lia. }
  pose proof (lookup_lt_Some _ _ _ Ht) as Hlt'.
  exists d, (if d then fullNode (<[nidx x := n']> ns) newFlag else fullNode ns f), (TFull (<[nidx x := t']> ts)). split_and!; try done.
  - by destruct d.
  - destruct d; [constructor; [by apply Forall2_rep_insert|done]|]. rewrite (Hd eq_refl). by rewrite list_insert_id.
  - right. right. split; [done|]. apply canon_slots in Hc as (Hlen & Hs & Htwo). apply canon_slots. split; [by rewrite length_insert|].
    split; [|by apply two_insert]. intros i ti Hi. destruct (decide (i = nidx x)) as [->|Hni].
    + rewrite list_lookup_insert_eq in Hi by done. injection Hi as <-. by eapply legal_slot.
    + rewrite list_lookup_insert_ne in Hi by done. by apply Hs.
  - intros E. rewrite (Hd E). by rewrite list_insert_id.
  - by eauto.
  - intros k [[? _]|[_ Hk']]; [done|]. destruct k as [|z k]; [by apply hexkey_ne in Hk'|]. rewrite !tlookup_full.
    destruct (decide (nidx z = nidx x)) as [E|E].
    + rewrite E, list_lookup_insert_eq, Ht by done. cbn [mbind option_bind]. rewrite Hlk by (by eapply alike_child).
      apply nidx_inj in E as ->. destruct (decide (k = key)) as [->|]; [by rewrite decide_True|]. rewrite decide_False; [done|]. by intros [= ?].
    + rewrite list_lookup_insert_ne by done. rewrite decide_False; [done|]. by intros [= -> _].
Qed.
End insert_step.

Lemma insert_rep v fuel : v <> [] -> forall n t key, rep n t -> legal key t -> key = [] \/ hexkey key -> (need key n <= fuel)%nat ->
  inserted n t key v (insert db_node fuel n key (valueNode v)).
Proof.
  intros Hv. induction fuel as [|fuel IH]; intros n t key Hr Hl Hkey Hf; [unfold need in Hf; lia|].
  destruct Hkey as [->|Hk]; [by apply insert_end|]. pose proof (legal_key _ _ Hk Hl) as Hc.
  inversion Hr as [|? v'|? nKey n1 t1 f Hr1 Hfl|? ns ts f Hr1 Hfl|? h n1 t1 Hdb Hld Hh Hr1]; subst; [..|apply repb_weaken in Hr1].
  - destruct key as [|x key]; [by apply hexkey_ne in Hk|]. cbn [insert].
    exists true, (shortNode (x :: key) (valueNode v) newFlag), (TShort (x :: key) (TVal v)). split_and!; try done.
    + repeat constructor. done.
    + right. right. split; [done|by constructor].
    + intros k' [[? _]|[_ Hk']]; [done|]. by rewrite tlookup_leaf.
  - destruct Hc as [?|Hc]; [done|]. by apply canon_not_val in Hc.
  - destruct Hc as [?|Hc]; [done|]. by apply insert_short.
  - destruct Hc as [?|Hc]; [done|]. by apply insert_full.
  - destruct key as [|x key]; [by apply hexkey_ne in Hk|]. cbn [insert]. unfold resolveHash. rewrite Hdb.
    destruct (IH n1 t (x :: key) Hr1 Hl) as (d & n' & t' & -> & Hr' & Hl' & Hne & Hd & Hful & Hlk); [by right| |].
    { rewrite need_loaded by done. unfold need in Hf. simpl in *. lia. }
    exists d, (if d then n' else n1), t'. split_and!; try done; [by destruct d|]. destruct d; [done|]. by rewrite (Hd eq_refl).
Qed.

(** ** Deletion *)

Definition nilb (n : node) : bool := match n with nilNode => true | _ => false end.

Lemma rep_nilb b n t : repb b n t -> nilb n = bool_decide (t = TNil).
Proof.
  intros Hr. destruct (decide (t = TNil)) as [->|Hne].
  - by rewrite (rep_nil_inv _ _ Hr), bool_decide_eq_true_2.
  - rewrite bool_decide_eq_false_2 by done. destruct n; try done. by apply rep_nilNode_inv in Hr.
Qed.

Lemma nil_or (l : list node) : (forall j n, l !! j = Some n -> nilb n = true) \/ exists j n, l !! j = Some n /\ nilb n = false.
Proof.
  induction l as [|n l [IH|(j & m & Hj & Hm)]]; [by left| |right; by exists (S j), m].
  destruct (nilb n) eqn:Hn; [left|right; by exists 0%nat, n]. intros [|j] m Hj; [by simplify_eq/=|by eapply IH].
Qed.

Lemma onlyChild_found l : forall i pos, 0 <= pos ->
  ((forall j n, l !! j = Some n -> nilb n = true) -> onlyChild l i pos = pos)
  /\ (forall j n, l !! j = Some n -> nilb n = false -> onlyChild l i pos = -2).
Proof.
  induction l as [|n l IH]; intros i pos Hp; [done|]. destruct (IH (i + 1) pos Hp) as [IH1 IH2]. split.
  - intros Hall. pose proof (Hall 0%nat n eq_refl) as Hn. destruct n; try done. simpl. apply IH1. intros j. apply (Hall (S j)).
  - intros [|j] m Hj Hm; simplify_eq/=.
    + destruct m; try done; simpl; by (destruct (Z.eqb_spec pos (-1)); [lia|]).
    + destruct n; simpl; try by (destruct (Z.eqb_spec pos (-1)); [lia|]). by eapply IH2.
Qed.

(** The loop finds the only child that is left. *)
Lemma onlyChild_spec l : forall i, 0 <= i ->
  onlyChild l i (-1) = -1 /\ (forall j n, l !! j = Some n -> nilb n = true)
  \/ (exists j n, onlyChild l i (-1) = i + Z.of_nat j /\ l !! j = Some n /\ nilb n = false
       /\ forall j' n', l !! j' = Some n' -> nilb n' = false -> j' = j)
  \/ onlyChild l i (-1) = -2 /\ exists j j' n n', j <> j' /\ l !! j = Some n /\ l !! j' = Some n' /\ nilb n = false /\ nilb n' = false.
Proof.
  induction l as [|n l IH]; intros i Hi; [by left|].
  destruct (nilb n) eqn:Hn.
  - destruct n; try done. simpl. destruct (IH (i + 1) ltac:(lia)) as [[? Hall]|[(j & n & E & Hj & Hnb & Hu)|(E & j & j' & n & n' & Hne & ?)]].
    + left. split; [done|]. intros [|j] n Hj; [by simplify_eq/=|by eapply Hall].
    + right. left. exists (S j), n. split; [lia|]. split; [done|]. split; [done|]. intros [|j'] n' Hl Hb; [by simplify_eq/=|]. f_equal. by eapply Hu.
    + right. right. split; [done|]. exists (S j), (S j'), n, n'. split; [lia|done].
  - assert (E : onlyChild (n :: l) i (-1) = onlyChild l (i + 1) i) by (by destruct n). rewrite E.
    destruct (onlyChild_found l (i + 1) i Hi) as [H1 H2]. destruct (nil_or l) as [Hall|(j & m & Hj & Hm)].
    + right. left. exists 0%nat, n. rewrite H1 by done. split; [lia|]. split; [done|]. split; [done|]. intros [|j'] n' Hl Hb; [done|].
      rewrite (Hall j' n' Hl) in Hb. done.
    + right. right. rewrite (H2 j m) by done. split; [done|]. exists 0%nat, (S j), n, m. split; [done|]. by split.
Qed.

Definition deleted (t : tree) (key : list byte) (o : outcome (bool * node)) : Prop :=
  exists d n' t', o = Ok (d, n') /\ rep n' t' /\ legal key t' /\ (d = false -> t' = t) /\ (d = true -> is_hashNode n' = false)
    /\ (forall ts, t = TFull ts -> t' <> TNil)
    /\ forall k, alike key k -> tlookup t' k = if decide (k = key) then None else tlookup t k.

(** Nothing to delete. *)
Lemma deleted_none n t key : rep n t -> legal key t -> (forall k, alike key k -> k = key -> tlookup t k = None) ->
  deleted t key (Ok (false, n)).
Proof.
  intros Hr Hl Hno. exists false, n, t. split_and!; try done; [by intros ts ->|].
  intros k Hk. destruct (decide (k = key)); [by apply Hno|done].
Qed.

Lemma rep_short_inv b k n f t : repb b (shortNode k n f) t -> exists t1, t = TShort k t1 /\ rep n t1.
Proof. inversion 1; subst. eauto using repb_weaken. Qed.

(** A path joined with the node below it. *)
Lemma rep_tjoin p n t : rep n t -> is_hashNode n = false ->
  rep (match n with shortNode ck cv _ => shortNode (p ++ ck) cv newFlag | _ => shortNode p n newFlag end) (tjoin p t).
Proof.
  intros Hr Hh. inversion Hr as [|? v|? ck n1 t1 f Hr1 Hf|? ns ts f Hr1 Hf|]; subst; simpl; try done; try (constructor; [exact Hr|done]).
  constructor; [|done]. by eapply repb_weaken.
Qed.

Section delete_step.
Variable fuel : nat.
Hypothesis IH : forall n t key, rep n t -> legal key t -> key = [] \/ hexkey key -> (need key n <= fuel)%nat ->
  deleted t key (delete db_node fuel n key).

Lemma delete_short nKey n1 t1 f key : rep (shortNode nKey n1 f) (TShort nKey t1) -> canon (TShort nKey t1) -> hexkey key ->
  (need key (shortNode nKey n1 f) <= S fuel)%nat ->
  deleted (TShort nKey t1) key (delete db_node (S fuel) (shortNode nKey n1 f) key).
Proof.
  intros Hr Hc Hk Hf. cbn [delete]. assert (Hr1 : rep n1 t1) by (inversion Hr; by eapply repb_weaken).
  destruct (prefixLen_spec key nKey) as (p & a' & b' & Ek & En & -> & Hd).
  destruct (Nat.ltb_spec (length p) (length nKey)) as [Hlt|Hge].
  { apply deleted_none; [done|right; right; done|]. intros k _ ->. apply tlookup_short_ne. intros l El.
    rewrite En in Hlt, El. rewrite length_app in Hlt. destruct b' as [|y nr]; [simpl in Hlt; lia|].
    rewrite Ek, <- app_assoc in El. apply app_inv_head in El. simpl in El. by eapply (Hd y y). }
  assert (b' = []) as -> by (destruct b'; [done|]; rewrite En, length_app in Hge; simpl in Hge; lia).
  rewrite app_nil_r in En. subst nKey. inversion Hc as [? v1 Hkp Hv1|? ts Hpne Hnib Hc'|]; subst.
  - assert (a' = []) as -> by (by eapply hexkey_prefix_free). rewrite app_nil_r in *. rewrite Nat.eqb_refl.
    exists true, nilNode, TNil. split_and!; try done; [constructor|by left|]. intros k [[-> _]|[_ Hk']]; [by apply hexkey_ne in Hk|].
    rewrite tlookup_leaf by done. by case_decide.
  - destruct (legal_short _ _ _ Hc Hk) as [?|[[_ (? & ? & _)]|[Ha' _]]]; [done..|].
    destruct (Nat.eqb_spec (length p) (length (p ++ a'))) as [El|_].
    { rewrite length_app in El. destruct a'; [by apply hexkey_ne in Ha'|simpl in El; lia]. }
    rewrite drop_app_length. destruct (IH n1 (TFull ts) a' Hr1) as (d & n' & t' & -> & Hr' & Hl' & Hsame & Hnh & Hnn & Hlk).
    { by eapply legal_short. }
    { by right. }
    { unfold need in *. rewrite length_app in Hf. destruct p; [done|]. simpl in *. destruct (is_hashNode n1); lia. }
    assert (Hct : canon t').
    { destruct (legal_key _ _ Ha' Hl') as [->|]; [|done]. by destruct (Hnn ts). }
    exists d, (if d then (match n' with shortNode ck cv _ => shortNode (p ++ ck) cv newFlag | _ => shortNode p n' newFlag end) else shortNode p n1 f),
      (if d then tjoin p t' else TShort p t'). split_and!.
    + destruct d; [|done]. by destruct n'.
    + destruct d; [by apply rep_tjoin; auto|]. by rewrite (Hsame eq_refl).
    + right. right. split; [done|]. destruct d; [by apply canon_tjoin|]. by rewrite (Hsame eq_refl).
    + intros ->. by rewrite (Hsame eq_refl).
    + intros ->. by destruct n'.
    + done.
    + assert (Hj : forall k, tlookup (if d then tjoin p t' else TShort p t') (p ++ k) = tlookup t' k)
        by (intros k; destruct d; [apply tlookup_tjoin|apply tlookup_short]).
      assert (Hj' : forall k, (forall l, k <> p ++ l) -> tlookup (if d then tjoin p t' else TShort p t') k = None)
        by (intros k Hno; destruct d; [by apply tlookup_tjoin_ne|by apply tlookup_short_ne]).
      intros k [[E _]|[_ Hk']]; [by apply hexkey_ne in Hk|]. destruct (decide (take (length p) k = p)) as [E|E].
      * rewrite <- (take_drop (length p) k), E in Hk' |- *. set (r := drop (length p) k) in *. clearbody r. clear E k.
        rewrite Hj, tlookup_short, Hlk.
        -- destruct (decide (r = a')) as [->|Hn]; [by rewrite decide_True|]. rewrite decide_False; [done|]. by intros ?%app_inv_head.
        -- right. split; [done|]. destruct (legal_short _ _ _ Hc Hk') as [?|[[_ (? & ? & _)]|[? _]]]; done.
      * assert (Hno : forall l, k <> p ++ l) by (intros l ->; apply E; by rewrite take_app_length).
        rewrite decide_False by apply Hno. by rewrite Hj', tlookup_short_ne.
Qed.

(** The last child of a branch takes its place. *)
Lemma single_child ts j t : length ts = 17%nat -> (forall i t, ts !! i = Some t -> slot_ok i t) ->
  ts !! j = Some t -> t <> TNil -> (forall i u, ts !! i = Some u -> u <> TNil -> i = j) ->
  canon (tjoin [bZ (Z.of_nat j)] t) /\ forall k, hexkey k -> tlookup (tjoin [bZ (Z.of_nat j)] t) k = tlookup (TFull ts) k.
Proof.
  intros Hlen Hs Hj Hne Hu. pose proof (lookup_lt_Some _ _ _ Hj) as Hlt.
  assert (Hidx : nidx (bZ (Z.of_nat j)) = j) by (apply nidx_bZ; lia). split.
  - destruct (Hs j t Hj) as [?|[[Hj16 Hc]|[-> (v & -> & Hv)]]]; [done| |by repeat constructor].
    apply canon_tjoin; [done| |done]. repeat constructor. unfold nibble. rewrite Zb_bZ_small; lia.
  - intros k Hk. destruct k as [|z k]; [by apply hexkey_ne in Hk|]. rewrite tlookup_full.
    destruct (decide (z = bZ (Z.of_nat j))) as [->|Hz].
    + rewrite Hidx, Hj. apply (tlookup_tjoin [_]).
    + rewrite tlookup_tjoin_ne by (intros l [= ? _]; done). destruct (ts !! nidx z) as [u|] eqn:Hz'; [|done]. simpl.
      destruct (decide (u = TNil)) as [->|Hnu]; [done|]. apply (Hu _ _ Hz') in Hnu. exfalso. apply Hz, nidx_inj. by rewrite Hidx.
Qed.

(** The children after the deletion below one of them. *)
Lemma full_update ts x key t' t : canon (TFull ts) -> hexkey (x :: key) -> ts !! nidx x = Some t -> legal key t' ->
  (forall k, alike key k -> tlookup t' k = if decide (k = key) then None else tlookup t k) ->
  (forall i u, <[nidx x := t']> ts !! i = Some u -> slot_ok i u)
  /\ forall k, hexkey k -> tlookup (TFull (<[nidx x := t']> ts)) k = if decide (k = x :: key) then None else tlookup (TFull ts) k.
Proof.
  intros Hc Hk Ht Hl Hlk. apply canon_slots in Hc as (Hlen & Hs & _). pose proof (lookup_lt_Some _ _ _ Ht) as Hlt. split.
  - intros i u Hi. destruct (decide (i = nidx x)) as [->|Hni].
    + rewrite list_lookup_insert_eq in Hi by done. injection Hi as <-. by eapply legal_slot.
    + rewrite list_lookup_insert_ne in Hi by done. by apply Hs.
  - intros k Hk'. destruct k as [|z k]; [by apply hexkey_ne in Hk'|]. rewrite !tlookup_full.
    destruct (decide (nidx z = nidx x)) as [E|E].
    + rewrite E, list_lookup_insert_eq, Ht by done. cbn [mbind option_bind]. rewrite Hlk by (by eapply alike_child).
      apply nidx_inj in E as ->. destruct (decide (k = key)) as [->|]; [by rewrite decide_True|]. rewrite decide_False; [done|]. by intros [= ?].
    + rewrite list_lookup_insert_ne by done. rewrite decide_False; [done|]. by intros [= -> _].
Qed.

Lemma rep_last j n t : rep n t -> t <> TNil -> slot_ok j t ->
  exists o, (if negb (Z.eqb (Z.of_nat j) 16) then
       match resolve db_node n with
       | Ok (shortNode cKey cVal _) => Ok (true, shortNode (bZ (Z.of_nat j) :: cKey) cVal newFlag)
       | Ok _ => Ok (true, shortNode [bZ (Z.of_nat j)] n newFlag)
       | Fail e => Fail e
       | Panic p => Panic p
       end
     else Ok (true, shortNode [bZ (Z.of_nat j)] n newFlag)) = Ok (true, o) /\ rep o (tjoin [bZ (Z.of_nat j)] t) /\ is_hashNode o = false.
Proof.
  intros Hr Hne Hs. destruct Hs as [?|[[Hj Hc]|[-> (v & -> & Hv)]]]; [done| |].
  - replace (Z.eqb (Z.of_nat j) 16) with false by (symmetry; apply Z.eqb_neq; lia). simpl.
    inversion Hr as [|? v|? ck n1 t1 f Hr1 Hf|? ns ts f Hr1 Hf|? h n1 t1 Hdb Hld Hh Hr1]; subst; simpl; [| |apply repb_weaken in Hr1|apply Forall2_weaken in Hr1|].
    + done.
    + by apply canon_not_val in Hc.
    + eexists. split; [done|]. split; [by constructor|done].
    + eexists. split; [done|]. split; [by constructor|done].
    + unfold resolveHash. rewrite Hdb. destruct n1 as [|ck cv f|ns f| |]; try done.
      * apply rep_short_inv in Hr1 as (t1 & -> & Hr1). eexists. split; [done|]. split; [by constructor|done].
      * inversion Hr1; subst. eexists. split; [done|]. split; [by constructor|done].
  - eexists. split; [done|]. split; [by constructor|done].
Qed.

Lemma Forall2_rep_nilb ns ts i n : Forall2 rep ns ts -> ns !! i = Some n -> nilb n = false ->
  exists t, ts !! i = Some t /\ rep n t /\ t <> TNil.
Proof.
  intros Hr Hi Hn. destruct (Forall2_lookup_l _ _ _ _ _ Hr Hi) as (t & Ht & Hrt). exists t. split; [done|]. split; [done|].
  rewrite (rep_nilb _ _ _ Hrt) in Hn. by apply bool_decide_eq_false in Hn.
Qed.

Lemma delete_full ns ts f key : rep (fullNode ns f) (TFull ts) -> canon (TFull ts) -> hexkey key ->
  (need key (fullNode ns f) <= S fuel)%nat ->
  deleted (TFull ts) key (delete db_node (S fuel) (fullNode ns f) key).
Proof.
  intros Hr Hc Hk Hf. destruct key as [|x key]; [by apply hexkey_ne in Hk|]. cbn [delete].
  assert (Hr1 : Forall2 rep ns ts) by (inversion Hr; by eapply Forall2_weaken).
  destruct (legal_child _ _ _ Hc Hk) as (t & Ht & Hlt). destruct (Forall2_lookup_r _ _ _ _ _ Hr1 Ht) as (n1 & Hn1 & Hrn). rewrite Hn1.
  destruct (IH n1 t key Hrn Hlt) as (d & n' & t' & -> & Hr' & Hl' & Hsame & Hnh & _ & Hlk).
  { inversion Hk; [by left|by right]. }
  { unfold need in *. simpl in *. destruct (is_hashNode n1); lia. }
  destruct (full_update _ _ _ _ _ Hc Hk Ht Hl' Hlk) as [Hslots Hlookup].
  pose proof (lookup_lt_Some _ _ _ Ht) as Hlt'. pose proof (proj1 (canon_slots _) Hc) as (Hlen & _ & Htwo).
  assert (Hr2 : Forall2 rep (<[nidx x := n']> ns) (<[nidx x := t']> ts)) by (by apply Forall2_rep_insert).
  destruct d.
  2:{ apply deleted_none; [done|by right; right|]. intros k _ ->. rewrite (Hsame eq_refl), list_insert_id in Hlookup by done.
      rewrite Hlookup, decide_True by done. done. }
  set (ts' := <[nidx x := t']> ts) in *. set (ns' := <[nidx x := n']> ns) in *.
  assert (Hlen' : length ts' = 17%nat) by (unfold ts'; by rewrite length_insert).
  assert (Hstay : two ts' -> deleted (TFull ts) (x :: key) (Ok (true, fullNode ns' newFlag))).
  { intros H2. exists true, (fullNode ns' newFlag), (TFull ts'). split_and!; try done; [by constructor| |].
    - right. right. split; [done|]. by apply canon_slots.
    - intros k [[? _]|[_ Hk']]; [done|]. by apply Hlookup. }
  destruct (nilb n') eqn:Hnil.
  2:{ replace (match n' with nilNode => _ | _ => _ end) with (Ok (true, fullNode ns' newFlag)) by (by destruct n').
      apply Hstay, two_insert; try done. rewrite (rep_nilb _ _ _ Hr') in Hnil. by apply bool_decide_eq_false in Hnil. }
  destruct n'; try done. apply rep_nilNode_inv in Hr' as ->.
  destruct (onlyChild_spec ns' 0) as [[E Hall]|[(j & n & E & Hj & Hnb & Hu)|(E & j & j' & n & n' & Hne & Hj & Hj' & Hb & Hb')]]; [lia|..].
  - exfalso. destruct Htwo as (a & b & ta & tb & Hab & Ha & Hb & Hna & Hnb).
    assert (Hex : exists c tc, c <> nidx x /\ ts !! c = Some tc /\ tc <> TNil).
    { destruct (decide (a = nidx x)) as [->|]; [exists b, tb|exists a, ta]; naive_solver. }
    destruct Hex as (c & tc & Hcx & Htc & Hntc). assert (Htc' : ts' !! c = Some tc) by (unfold ts'; by rewrite list_lookup_insert_ne).
    destruct (Forall2_lookup_r _ _ _ _ _ Hr2 Htc') as (nc & Hnc & Hrnc). pose proof (Hall _ _ Hnc) as Hnn.
    rewrite (rep_nilb _ _ _ Hrnc) in Hnn. by apply bool_decide_eq_true in Hnn.
  - rewrite E. replace (0 + Z.of_nat j) with (Z.of_nat j) by lia. rewrite (proj2 (Z.leb_le 0 (Z.of_nat j))) by lia. rewrite Nat2Z.id, Hj.
    destruct (Forall2_rep_nilb _ _ _ _ Hr2 Hj Hnb) as (tj & Htj & Hrj & Hntj).
    destruct (rep_last j n tj Hrj Hntj (Hslots _ _ Htj)) as (o & -> & Hro & Hho).
    destruct (single_child ts' j tj) as [Hcj Hlj]; try done.
    { intros i u Hi Hnu. destruct (Forall2_lookup_r _ _ _ _ _ Hr2 Hi) as (ni & Hni & Hrni). eapply Hu; [done|].
      rewrite (rep_nilb _ _ _ Hrni). by apply bool_decide_eq_false. }
    exists true, o, (tjoin [bZ (Z.of_nat j)] tj). split_and!; try done.
    + right. right. done.
    + intros _ _. by destruct tj.
    + intros k [[? _]|[_ Hk']]; [done|]. rewrite Hlj by done. by apply Hlookup.
  - rewrite E. apply Hstay. destruct (Forall2_rep_nilb _ _ _ _ Hr2 Hj Hb) as (tj & Htj & _ & Hntj).
    destruct (Forall2_rep_nilb _ _ _ _ Hr2 Hj' Hb') as (tj' & Htj' & _ & Hntj'). by exists j, j', tj, tj'.
Qed.
End delete_step.

Lemma delete_rep fuel : forall n t key, rep n t -> legal key t -> key = [] \/ hexkey key -> (need key n <= fuel)%nat ->
  deleted t key (delete db_node fuel n key).
Proof.
  induction fuel as [|fuel IH]; intros n t key Hr Hl Hkey Hf; [unfold need in Hf; lia|].
  inversion Hr as [|? v'|? nKey n1 t1 f Hr1 Hfl|? ns ts f Hr1 Hfl|? h n1 t1 Hdb Hld Hh Hr1]; subst; [..|apply repb_weaken in Hr1].
  - apply deleted_none; try done.
  - cbn [delete]. destruct Hl as [?|[[-> Hv]|[_ Hc]]]; [done| |by apply canon_not_val in Hc].
    exists true, nilNode, TNil. split_and!; try done; [constructor|by left|]. intros k [[_ ->]|[Hk _]]; [by rewrite decide_True|by apply hexkey_ne in Hk].
  - destruct Hl as [?|[[_ (? & ? & _)]|[Hk Hc]]]; [done..|]. by apply delete_short.
  - destruct Hl as [?|[[_ (? & ? & _)]|[Hk Hc]]]; [done..|]. by apply delete_full.
  - cbn [delete]. unfold resolveHash. rewrite Hdb.
    destruct (IH n1 t key Hr1 Hl Hkey) as (d & n' & t' & -> & Hr' & Hl' & Hd & Hnh & Hful & Hlk).
    { rewrite need_loaded by done. unfold need in Hf. simpl in *. lia. }
    exists d, (if d then n' else n1), t'. split_and!; try done; [by destruct d| |].
    + destruct d; [done|]. by rewrite (Hd eq_refl).
    + intros ->. by apply Hnh.
Qed.
End rep.

(** Other flags, hashes and databases. *)
Section change.
Variables (db1 db2 : Hash -> outcome (option node)) (fo1 fo2 : bool -> nodeFlag -> tree -> Prop) (ho1 ho2 : list byte -> tree -> Prop).

Lemma repb_change : forall b n t, repb db1 fo1 ho1 b n t ->
  (forall s b f, s ∈ subtrees t -> fo1 b f s -> fo2 b f s) ->
  (forall s h, s ∈ subtrees t -> ho1 h s -> ho2 h s) ->
  (forall s h n, s ∈ subtrees t -> ho1 h s -> db1 (BytesToHash h) = Ok (Some n) -> db2 (BytesToHash h) = Ok (Some n)) ->
  repb db2 fo2 ho2 b n t.
Proof.
  fix IH 4. intros b n t Hr Hf Hh Hdb. destruct Hr as [| |b k n t f Hr1 Hfl|b ns ts f Hr1 Hfl|b h n t Hd Hl Hho Hr1].
  - constructor.
  - constructor.
  - constructor; [|apply Hf; [apply subtrees_self|done]].
    apply (IH _ _ _ Hr1); intros s; intros; [apply Hf|apply Hh|eapply Hdb]; eauto using subtrees_short.
  - constructor; [|apply Hf; [apply subtrees_self|done]].
    assert (Hsub : forall t s, t ∈ ts -> s ∈ subtrees t -> s ∈ subtrees (TFull ts)) by (intros; by eapply subtrees_full).
    revert Hf Hh Hdb Hsub. generalize (subtrees (TFull ts)). intros l Hf Hh Hdb Hsub. clear Hfl.
    induction Hr1 as [|n t ns ts Hr1 _ IHl]; constructor.
    + assert (Ht : t ∈ t :: ts) by set_solver.
      apply (IH _ _ _ Hr1); intros s; intros; [apply Hf|apply Hh|eapply Hdb]; eauto.
    + apply IHl. intros u s Hu. apply Hsub. by right.
  - econstructor; [eapply Hdb; [apply subtrees_self|done..]|done|apply Hh; [apply subtrees_self|done]|]. by apply (IH _ _ _ Hr1).
Qed.
End change.

(** * The flag of the root *)

Definition reflag (f : nodeFlag) (n : node) : node :=
  match n with
  | shortNode k v _ => shortNode k v f
  | fullNode cs _ => fullNode cs f
  | _ => n
  end.

(** An update does not look at the flag of the node it starts from. *)
Lemma insert_reflag db fuel f n key value : loaded n = true ->
  insert db fuel (reflag f n) key value =
  match insert db fuel n key value with Ok (false, _) => Ok (false, reflag f n) | o => o end.
Proof.
  destruct fuel; [done|]. destruct n as [|k n g|ns g| |]; try done; intros _; (destruct key as [|key0 key]; [done|]); cbn [insert reflag].
  - destruct (Nat.eqb _ _).
    + destruct (insert db fuel n _ value) as [[[] nn]| |]; done.
    + destruct (k !! _); [|done]. destruct ((key0 :: key) !! _); [|done]. destruct (insert db fuel nilNode _ n) as [[]| |]; try done.
      destruct (insert db fuel nilNode _ value) as [[]| |]; done.
  - destruct (ns !! _) as [c|]; [|done]. destruct (insert db fuel c _ value) as [[[] nn]| |]; done.
Qed.

Lemma delete_reflag db fuel f n key : loaded n = true ->
  delete db fuel (reflag f n) key =
  match delete db fuel n key with Ok (false, _) => Ok (false, reflag f n) | o => o end.
Proof.
  destruct fuel; [done|]. destruct n as [|k n g|ns g| |]; try done; intros _; cbn [delete reflag].
  - destruct (Nat.ltb _ _); [done|]. destruct (Nat.eqb _ _); [done|]. destruct (delete db fuel n _) as [[[] nn]| |]; try done. by destruct nn.
  - destruct key as [|key0 key]; [done|]. destruct (ns !! _) as [c|]; [|done]. destruct (delete db fuel c _) as [[[] nn]| |]; try done.
    destruct nn; try done. destruct (Z.leb _ _); [|done]. destruct (_ !! Z.to_nat _) as [l|]; [|done]. destruct (negb _); [|done].
    by destruct (resolve db l) as [[]| |].
Qed.

(** A changed root is a new node. *)
Definition newRoot (n : node) : Prop :=
  match n with
  | nilNode => True
  | shortNode _ _ f | fullNode _ f => f = newFlag
  | _ => False
  end.

Lemma insert_newRoot db fuel : forall n key v n', key <> [] -> insert db fuel n key (valueNode v) = Ok (true, n') -> newRoot n'.
Proof.
  induction fuel as [|fuel IH]; intros n key v n' Hk; [done|]. destruct key as [|key0 key]; [done|]. cbn [insert].
  destruct n as [|k n g|ns g|h|]; try done.
  - by intros [= <-].
  - destruct (Nat.eqb _ _).
    + destruct (insert db fuel n _ _) as [[[] nn]| |]; try done. by intros [= <-].
    + destruct (k !! _); [|done]. destruct ((key0 :: key) !! _); [|done]. destruct (insert db fuel nilNode _ n) as [[]| |]; try done.
      destruct (insert db fuel nilNode _ (valueNode v)) as [[]| |]; try done. intros [= <-]. by destruct (Nat.eqb _ _).
  - destruct (ns !! _) as [c|]; [|done]. destruct (insert db fuel c _ _) as [[[] nn]| |]; try done. by intros [= <-].
  - destruct (resolveHash db h) as [rn| |]; try done. destruct (insert db fuel rn _ _) as [[[] nn]| |] eqn:E; try done. intros [= <-]. by eapply IH.
Qed.

Lemma delete_newRoot db fuel : forall n key n', delete db fuel n key = Ok (true, n') -> newRoot n'.
Proof.
  induction fuel as [|fuel IH]; intros n key n'; [done|]. cbn [delete].
  destruct n as [|k n g|ns g|h|]; try done.
  - destruct (Nat.ltb _ _); [done|]. destruct (Nat.eqb _ _); [by intros [= <-]|]. destruct (delete db fuel n _) as [[[] nn]| |]; try done.
    destruct nn; by intros [= <-].
  - destruct key as [|key0 key]; [done|]. destruct (ns !! _) as [c|]; [|done]. destruct (delete db fuel c _) as [[[] nn]| |]; try done.
    destruct nn; try (by intros [= <-]). destruct (Z.leb _ _); [|by intros [= <-]]. destruct (_ !! Z.to_nat _) as [l|]; [|done].
    destruct (negb _); [|by intros [= <-]]. destruct (resolve db l) as [[]| |]; by intros [= <-].
  - destruct (resolveHash db h) as [rn| |]; try done. destruct (delete db fuel rn _) as [[[] nn]| |] eqn:E; try done. intros [= <-]. by eapply IH.
  - by intros [= <-].
Qed.

(** A tree is not part of its parts. *)
Fixpoint tsize (t : tree) : nat :=
  match t with
  | TShort _ t => S (tsize t)
  | TFull ts => S (sum_list (map tsize ts))
  | _ => 1
  end.

Lemma tsize_elem t ts : t ∈ ts -> (tsize t <= sum_list (map tsize ts))%nat.
Proof. induction 1; simpl; lia. Qed.

Lemma tsize_subtree t s : s ∈ subtrees t -> (tsize s <= tsize t)%nat.
Proof.
  induction t as [|k t IH|ts IH|v] using tree_ind'; intros Hs.
  - simpl in Hs. apply list_elem_of_singleton in Hs as ->. done.
  - simpl in Hs. apply elem_of_cons in Hs as [->|Hs]; [done|]. specialize (IH Hs). simpl. lia.
  - apply subtrees_full_inv in Hs as [->|(t & Ht & Hs)]; [done|]. rewrite Forall_forall in IH. specialize (IH t Ht Hs).
    pose proof (tsize_elem t ts Ht). simpl. lia.
  - simpl in Hs. apply list_elem_of_singleton in Hs as ->. done.
Qed.

Lemma short_not_below k t : TShort k t ∉ subtrees t.
Proof. intros H%tsize_subtree. simpl in H. lia. Qed.

Lemma full_not_below ts t : t ∈ ts -> TFull ts ∉ subtrees t.
Proof. intros Ht H%tsize_subtree. pose proof (tsize_elem t ts Ht). simpl in H. lia. Qed.

(** * A canonical tree is determined by its values *)

Lemma lookup_short_Some k t key v : tlookup (TShort k t) key = Some v -> exists l, key = k ++ l /\ tlookup t l = Some v.
Proof.
  simpl. destruct (decide (take (length k) key = k)) as [E|]; [|done]. intros Hv. exists (drop (length k) key). split; [|done].
  rewrite <- E at 1. by rewrite take_drop.
Qed.

(** A canonical tree holds a value; a branch holds two, under different nibbles. *)
Lemma slot_present x t : t <> TNil -> slot_ok x t -> (forall u, canon u -> u = t -> exists k v, hexkey k /\ tlookup u k = Some v) ->
  (x < 17)%nat -> exists k v, hexkey (bZ (Z.of_nat x) :: k) /\ tlookup t k = Some v.
Proof.
  intros Hne [?|[[Hx Hc]|[-> (v & -> & Hv)]]] IH Hlt; [done| |].
  - destruct (IH t Hc eq_refl) as (k & v & Hk & Hl). exists k, v. split; [|done]. constructor; [|done]. unfold nibble. rewrite Zb_bZ_small; lia.
  - exists [], v. split; [constructor|done].
Qed.

Lemma canon_present t : canon t -> exists k v, hexkey k /\ tlookup t k = Some v.
Proof.
  induction t as [|k t IH|ts IH|v] using tree_ind'; intros Hc.
  - by apply canon_not_nil in Hc.
  - inversion Hc as [? v Hk Hv|? ts Hne Hn Hc'|]; subst.
    + exists k, v. split; [done|]. by rewrite tlookup_leaf, decide_True.
    + destruct (IH Hc') as (k' & v & Hk' & Hl). exists (k ++ k'), v. split; [by apply hexkey_app|]. by rewrite tlookup_short.
  - apply canon_slots in Hc as (Hlen & Hs & i & j & a & b & Hij & Ha & Hb & Hna & _).
    pose proof (lookup_lt_Some _ _ _ Ha). destruct (slot_present i a Hna (Hs _ _ Ha)) as (k & v & Hk & Hl); [|lia|].
    + intros u Hu ->. rewrite Forall_forall in IH. apply IH; [|done]. by eapply list_elem_of_lookup_2.
    + eexists _, v. split; [exact Hk|]. rewrite tlookup_full, nidx_bZ, Ha by lia. done.
  - by apply canon_not_val in Hc.
Qed.

Lemma full_present ts i t : canon (TFull ts) -> ts !! i = Some t -> t <> TNil ->
  exists x k v, nidx x = i /\ hexkey (x :: k) /\ tlookup (TFull ts) (x :: k) = Some v.
Proof.
  intros Hc Ht Hne. apply canon_slots in Hc as (Hlen & Hs & _). pose proof (lookup_lt_Some _ _ _ Ht) as Hlt.
  destruct (slot_present i t Hne (Hs _ _ Ht)) as (k & v & Hk & Hl); [|lia|].
  - intros u Hu _. by apply canon_present.
  - exists (bZ (Z.of_nat i)), k, v. rewrite nidx_bZ by lia. split; [done|]. split; [done|].
    rewrite tlookup_full, nidx_bZ, Ht by lia. done.
Qed.

Lemma full_present2 ts : canon (TFull ts) -> exists x y kx ky vx vy, x <> y /\ hexkey (x :: kx) /\ hexkey (y :: ky)
  /\ tlookup (TFull ts) (x :: kx) = Some vx /\ tlookup (TFull ts) (y :: ky) = Some vy.
Proof.
  intros Hc. pose proof (proj1 (canon_slots _) Hc) as (_ & _ & i & j & a & b & Hij & Ha & Hb & Hna & Hnb).
  destruct (full_present ts i a Hc Ha Hna) as (x & kx & vx & Hx & Hkx & Hlx).
  destruct (full_present ts j b Hc Hb Hnb) as (y & ky & vy & Hy & Hky & Hly).
  exists x, y, kx, ky, vx, vy. split; [|done]. intros ->. congruence.
Qed.

Definition same_values (t u : tree) : Prop := forall k, hexkey k -> tlookup t k = tlookup u k.

(** The paths to the first branches agree. *)
Lemma path_prefix p q ts u : Forall nibble p -> canon (TFull ts) -> same_values (TShort p (TFull ts)) (TShort q u) ->
  exists r, p = q ++ r.
Proof.
  intros Hp Hc Hsame. destruct (full_present2 ts Hc) as (x & y & kx & ky & vx & vy & Hxy & Hkx & Hky & Hlx & Hly).
  pose proof (Hsame (p ++ x :: kx) (hexkey_app _ _ Hp Hkx)) as Hx. rewrite tlookup_short, Hlx in Hx. symmetry in Hx.
  pose proof (Hsame (p ++ y :: ky) (hexkey_app _ _ Hp Hky)) as Hy. rewrite tlookup_short, Hly in Hy. symmetry in Hy.
  apply lookup_short_Some in Hx as (lx & Ex & _). apply lookup_short_Some in Hy as (ly & Ey & _).
  clear -Ex Ey Hxy. revert q Ex Ey. induction p as [|b p IH]; intros [|c q] Ex Ey; simpl in *.
  - by exists [].
  - exfalso. congruence.
  - by exists (b :: p).
  - injection Ex as -> Ex. injection Ey as Ey. destruct (IH q Ex Ey) as [r ->]. by exists r.
Qed.

Lemma path_unique p q ts us : Forall nibble p -> Forall nibble q -> canon (TFull ts) -> canon (TFull us) ->
  same_values (TShort p (TFull ts)) (TShort q (TFull us)) -> p = q /\ same_values (TFull ts) (TFull us).
Proof.
  intros Hp Hq Ht Hu Hsame. assert (p = q) as <-.
  { destruct (path_prefix p q ts (TFull us) Hp Ht Hsame) as [r Hr].
    destruct (path_prefix q p us (TFull ts) Hq Hu) as [r' Hr']; [intros k Hk; symmetry; by apply Hsame|].
    rewrite Hr' in Hr. rewrite <- app_assoc in Hr. rewrite <- (app_nil_r p) in Hr at 1. apply app_inv_head in Hr.
    symmetry in Hr. apply app_eq_nil in Hr as [-> ->]. by rewrite app_nil_r in Hr'. }
  split; [done|]. intros k Hk. rewrite <- (tlookup_short p), <- (tlookup_short p (TFull us)). apply Hsame. by apply hexkey_app.
Qed.

(** A leaf holds one value, a branch at least two. *)
Lemma leaf_not_full k v p ts : hexkey k -> Forall nibble p -> canon (TFull ts) -> ~ same_values (TShort k (TVal v)) (TShort p (TFull ts)).
Proof.
  intros Hk Hp Hc Hsame. destruct (full_present2 ts Hc) as (x & y & kx & ky & vx & vy & Hxy & Hkx & Hky & Hlx & Hly).
  pose proof (Hsame _ (hexkey_app _ _ Hp Hkx)) as Hx. pose proof (Hsame _ (hexkey_app _ _ Hp Hky)) as Hy.
  rewrite tlookup_short, tlookup_leaf in Hx, Hy by (done || by apply hexkey_app). rewrite Hlx in Hx. rewrite Hly in Hy.
  case_decide as E; [|done]. case_decide as E'; [|done]. rewrite <- E in E'. apply app_inv_head in E'. congruence.
Qed.

Lemma slot_unique i t u : slot_ok i t -> slot_ok i u -> (forall k, hexkey (bZ (Z.of_nat i) :: k) -> tlookup t k = tlookup u k) ->
  (canon t -> canon u -> same_values t u -> t = u) -> t = u.
Proof.
  intros Ht Hu Hsame IH.
  assert (Hn : (i < 16)%nat -> same_values t u).
  { intros Hi k Hk. apply Hsame. constructor; [|done]. unfold nibble. rewrite Zb_bZ_small; lia. }
  assert (H16 : i = 16%nat -> tlookup t [] = tlookup u []). { intros ->. apply Hsame. constructor. }
  destruct Ht as [->|[[Hi Ht]|[-> (v & -> & Hv)]]], Hu as [->|[[Hi' Hu]|[? (v' & -> & Hv')]]]; try lia; try done.
  - destruct (canon_present u Hu) as (k & v & Hk & Hl). pose proof (Hn Hi' k Hk). simpl in *. congruence.
  - by specialize (H16 H).
  - destruct (canon_present t Ht) as (k & v & Hk & Hl). pose proof (Hn Hi k Hk). simpl in *. congruence.
  - auto.
  - by specialize (H16 eq_refl).
  - specialize (H16 eq_refl). simpl in H16. congruence.
Qed.

Lemma full_unique ts us : Forall (fun t => forall u, canon t -> canon u -> same_values t u -> t = u) ts ->
  canon (TFull ts) -> canon (TFull us) -> same_values (TFull ts) (TFull us) -> ts = us.
Proof.
  intros IH Ht Hu Hsame. apply canon_slots in Ht as (Hlt & Hst & _). apply canon_slots in Hu as (Hlu & Hsu & _).
  apply list_eq_same_length with 17%nat; [done..|]. intros i t u Hi Eu Et.
  apply (slot_unique i); [by apply Hst|by apply Hsu| |].
  - intros k Hk. pose proof (Hsame _ Hk) as E. rewrite !tlookup_full, !nidx_bZ, Et, Eu in E by lia. done.
  - rewrite Forall_forall in IH. apply IH. by eapply list_elem_of_lookup_2.
Qed.

Theorem canon_unique t : forall u, canon t -> canon u -> same_values t u -> t = u.
Proof.
  assert (Hsw : forall a b, same_values a b -> same_values b a) by (intros a b H k Hk; symmetry; by apply H).
  assert (Hw : forall a ts, same_values a (TFull ts) -> same_values a (TShort [] (TFull ts))).
  { intros a ts H k Hk. rewrite H by done. symmetry. apply (tlookup_short [] (TFull ts) k). }
  induction t as [|k t IH|ts IH|v] using tree_ind'; intros u Ht Hu Hsame.
  - by apply canon_not_nil in Ht.
  - inversion Ht as [? v Hk Hv|? ts Hne Hn Ht'|]; subst.
    + inversion Hu as [k' v' Hk' Hv'|k' us Hne' Hn' Hu'|us]; subst.
      * pose proof (Hsame k Hk) as E. rewrite !tlookup_leaf, decide_True in E by done. case_decide; congruence.
      * by apply leaf_not_full in Hsame.
      * by apply Hw, leaf_not_full in Hsame.
    + inversion Hu as [k' v' Hk' Hv'|k' us Hne' Hn' Hu'|us]; subst.
      * by apply Hsw, leaf_not_full in Hsame.
      * apply path_unique in Hsame as [-> Hsame]; [|done..]. f_equal. by apply IH.
      * apply Hw, path_unique in Hsame as [-> _]; done.
  - inversion Hu as [k' v' Hk' Hv'|k' us Hne' Hn' Hu'|us]; subst.
    + by apply Hsw, Hw, leaf_not_full in Hsame.
    + apply Hsw, Hw, path_unique in Hsame as [-> _]; done.
    + f_equal. by apply full_unique.
  - by apply canon_not_val in Ht.
Qed.
