(* ===== verification/TrieHash.v ===== *)
(** The stored form of a trie: the RLP encoding of nodes and its decoder
    (trie/node.go), hashing (trie/hasher.go), committing (trie/committer.go) and
    the node database that sits between the trie and the disk (trie/database.go). *)

From S2P Require Import Prelude Common Rlp Trie.
From Stdlib Require Import Strings.Byte.

(** A loop that fills an array. *)
Section mapO.
Context {A B : Type} (f : A -> outcome B).

Fixpoint mapO (l : list A) : outcome (list B) :=
  match l with
  | [] => Ok []
  | a :: l => b ← f a; bs ← mapO l; Ok (b :: bs)
  end.
End mapO.

(** * Encoding of nodes *)

(** A loop that writes the elements of an array. *)
Section write_all.
Context {A : Type} (write : A -> encbuf -> outcome encbuf).

Fixpoint write_all (l : list A) (w : encbuf) : outcome encbuf :=
  match l with
  | [] => Ok w
  | a :: l => w' ← write a w; write_all l w'
  end.
End write_all.

(** The writer of a [node] interface value: a short node is a struct with the
    exported fields [Key] and [Val], a full node encodes its array of children with
    [nilValueNode] for the missing ones, the others are byte strings. *)
Fixpoint writeNode (n : node) (w : encbuf) : outcome encbuf :=
  match n with
  | nilNode => Ok (append w [bZ 0xC0])
  | shortNode Key Val _ => in_list w (fun w => writeNode Val (encodeString w Key))
  | fullNode Children _ =>
      in_list w (write_all (fun c w => match c with nilNode => Ok (encodeString w []) | _ => writeNode c w end) Children)
  | hashNode h => Ok (encodeString w h)
  | valueNode v => Ok (encodeString w v)
  end.

(** [encbuf.toWriter] into a byte buffer. *)
Fixpoint toWriter_loop (str out : list byte) (strpos : Z) (heads : list listhead) : outcome (list byte) :=
  match heads with
  | [] => Ok (if Z.ltb strpos (len str) then out ++ drop (Z.to_nat strpos) str else out)
  | head :: heads =>
      if Z.ltb 0 (offset head - strpos) then
        piece ← sub_slice str (Z.to_nat strpos) (Z.to_nat (offset head));
        toWriter_loop str (out ++ piece ++ listhead_encode head) (strpos + len piece) heads
      else toWriter_loop str (out ++ listhead_encode head) strpos heads
  end.

Definition toWriter (w : encbuf) (out : list byte) : outcome (list byte) := toWriter_loop (str w) out 0 (lheads w).

(** [rlp.Encode] of a node into an empty buffer. *)
Definition encodeNode (n : node) : outcome (list byte) := w ← writeNode n reset; toWriter w [].

(** * Decoding of nodes *)

Definition hashLen : Z := 32.

Definition wrapError {A} (o : outcome A) (ctx : string) : outcome A :=
  match o with
  | Fail _ => Fail (DecodeErr ctx)
  | _ => o
  end.

(** [decodeRef], given the decoder of embedded nodes. *)
Definition decodeRef (decodeNode : option (list byte) -> list byte -> outcome node) (buf : list byte) : outcome (node * list byte) :=
  '(kind, val, rest) ← Split buf;
  match kind with
  | List_ =>
      let size := len buf - len rest in
      if Z.ltb hashLen size then Fail (DecodeErr "oversized embedded node")
      else n ← decodeNode None buf; Ok (n, rest)
  | String_ =>
      if Z.eqb (len val) 0 then Ok (nilNode, rest)
      else if Z.eqb (len val) hashLen then Ok (hashNode val, rest)
      else Fail (DecodeErr "invalid RLP string size")
  | Byte_ => Fail (DecodeErr "invalid RLP string size")
  end.

Definition decodeShort (decodeNode : option (list byte) -> list byte -> outcome node) (hash : option (list byte)) (elems : list byte) : outcome node :=
  '(kbuf, rest) ← SplitString elems;
  let flag := mkNodeFlag hash false in
  let key := compactToHex kbuf in
  if hasTerm key then
    match SplitString rest with
    | Ok (val, _) => Ok (shortNode key (valueNode val) flag)
    | Fail _ => Fail (DecodeErr "invalid value node")
    | Panic p => Panic p
    end
  else
    match wrapError (decodeRef decodeNode rest) "val" with
    | Ok (r, _) => Ok (shortNode key r flag)
    | Fail e => Fail e
    | Panic p => Panic p
    end.

(** The first [n] children, and the bytes after them. *)
Fixpoint decodeChildren (decodeNode : option (list byte) -> list byte -> outcome node) (n : nat) (elems : list byte) : outcome (list node * list byte) :=
  match n with
  | O => Ok ([], elems)
  | S n =>
      '(cld, rest) ← wrapError (decodeRef decodeNode elems) "child";
      '(clds, rest) ← decodeChildren decodeNode n rest;
      Ok (cld :: clds, rest)
  end.

Definition decodeFull (decodeNode : option (list byte) -> list byte -> outcome node) (hash : option (list byte)) (elems : list byte) : outcome node :=
  '(clds, rest) ← decodeChildren decodeNode 16 elems;
  '(val, _) ← SplitString rest;
  Ok (fullNode (clds ++ [if Z.ltb 0 (len val) then valueNode val else nilNode]) (mkNodeFlag hash false)).

(** The recursion goes into the elements of a list, which are shorter. *)
Fixpoint decodeNode_fuel (fuel : nat) (hash : option (list byte)) (buf : list byte) : outcome node :=
  match fuel with
  | O => Panic out_of_fuel
  | S fuel =>
      if Z.eqb (len buf) 0 then Fail io_ErrUnexpectedEOF
      else match SplitList buf with
           | Ok (elems, _) =>
               let c := match CountValues elems with Ok c => c | _ => 0 end in
               if Z.eqb c 2 then wrapError (decodeShort (decodeNode_fuel fuel) hash elems) "short"
               else if Z.eqb c 17 then wrapError (decodeFull (decodeNode_fuel fuel) hash elems) "full"
               else Fail (DecodeErr "invalid number of list elements")
           | Fail _ => Fail (DecodeErr "decode error")
           | Panic p => Panic p
           end
  end.

Definition decodeNode (hash : option (list byte)) (buf : list byte) : outcome node := decodeNode_fuel (S (length buf)) hash buf.

Definition mustDecodeNode (hash : option (list byte)) (buf : list byte) : outcome node :=
  match decodeNode hash buf with
  | Fail _ => Panic "node"
  | o => o
  end.

(** * Hashing *)

(** The child [i] of a full node, from the results for the first sixteen. *)
Section children.
Context (hash : node -> bool -> outcome (node * node)).

(** The loop of [hashFullNodeChildren] over the children from index [i] on: the
    collapsed and the cached children. *)
Fixpoint hashChildren (i : nat) (Children : list node) : outcome (list node * list node) :=
  match Children with
  | [] => Ok ([], [])
  | child :: rest =>
      '(hd, cd) ← (if Nat.ltb i 16 then
                     match child with
                     | nilNode => Ok (valueNode [], nilNode)
                     | _ => hash child false
                     end
                   else Ok (child, child));
      '(hs, cs) ← hashChildren (S i) rest;
      Ok (hd :: hs, cd :: cs)
  end.

Definition hashFullNodeChildren (Children : list node) (flags : nodeFlag) : outcome (node * (list node * nodeFlag)) :=
  '(hs, cs) ← hashChildren 0 Children; Ok (fullNode hs flags, (cs, flags)).

Definition hashShortNodeChildren (Key : list byte) (Val : node) (flags : nodeFlag) : outcome (node * (list byte * node * nodeFlag)) :=
  '(hv, cv) ← match Val with
              | fullNode _ _ | shortNode _ _ _ => hash Val false
              | _ => Ok (Val, Val)
              end;
  Ok (shortNode (hexToCompact Key) hv flags, (Key, cv, flags)).
End children.

Section hasher.
Context `{Crypto}.

Definition hashData (data : list byte) : node := hashNode (Keccak256 [data]).

(** [shortnodeToHash] and [fullnodeToHash] on a collapsed node. *)
Definition nodeToHash (n : node) (force : bool) : outcome node :=
  match encodeNode n with
  | Ok tmp => Ok (if Z.ltb (len tmp) 32 && negb force then n else hashData tmp)
  | Fail _ => Panic "encode error"
  | Panic p => Panic p
  end.

Definition hashFlag (hashed : node) (flags : nodeFlag) : nodeFlag :=
  mkNodeFlag (match hashed with hashNode hn => Some hn | _ => None end) (flag_dirty flags).

Fixpoint hash (n : node) (force : bool) : outcome (node * node) :=
  match n with
  | shortNode Key Val flags =>
      match flag_hash flags with
      | Some h => Ok (hashNode h, n)
      | None =>
          '(collapsed, (k, cv, f)) ← hashShortNodeChildren hash Key Val flags;
          hashed ← nodeToHash collapsed force;
          Ok (hashed, shortNode k cv (hashFlag hashed f))
      end
  | fullNode Children flags =>
      match flag_hash flags with
      | Some h => Ok (hashNode h, n)
      | None =>
          '(collapsed, (cs, f)) ← hashFullNodeChildren hash Children flags;
          hashed ← nodeToHash collapsed force;
          Ok (hashed, fullNode cs (hashFlag hashed f))
      end
  | nilNode => Panic "nil dereference"
  | _ => Ok (n, n)
  end.

(** [proofHash]: the collapsed node and its hash. *)
Definition proofHash (original : node) : outcome (node * node) :=
  match original with
  | shortNode Key Val flags =>
      '(sn, _) ← hashShortNodeChildren hash Key Val flags; hn ← nodeToHash sn false; Ok (sn, hn)
  | fullNode Children flags =>
      '(fn, _) ← hashFullNodeChildren hash Children flags; hn ← nodeToHash fn false; Ok (fn, hn)
  | n => Ok (n, n)
  end.

(** The known root hash of an empty trie. *)
Definition emptyRoot : Hash :=
  BytesToHash (map bZ [0x56; 0xe8; 0x1f; 0x17; 0x1b; 0xcc; 0x55; 0xa6; 0xff; 0x83; 0x45; 0xe6; 0x92; 0xc0; 0xf8; 0x6e;
                       0x5b; 0x48; 0xe0; 0x1b; 0x99; 0x6c; 0xad; 0xc0; 0x01; 0x62; 0x2f; 0xb5; 0xe3; 0x63; 0xb4; 0x21]).

Definition hashRoot (t : Trie) : outcome (node * node) * Trie :=
  match root t with
  | nilNode => (Ok (hashNode (arr_bytes emptyRoot), nilNode), t)
  | n =>
      match hash n true with
      | Ok r => (Ok r, mkTrie n 0)
      | o => (o, t)
      end
  end.

(** [Trie.Hash]: the root hash; the hashes found on the way are cached. *)
Definition Trie_Hash (t : Trie) : outcome Hash * Trie :=
  match hashRoot t with
  | (Ok (h, cached), t) =>
      match h with
      | hashNode b => (Ok (BytesToHash b), mkTrie cached (unhashed t))
      | _ => (Panic "interface conversion", mkTrie cached (unhashed t))
      end
  | (Fail e, t) => (Fail e, t)
  | (Panic p, t) => (Panic p, t)
  end.
End hasher.
