(* ===== verification/TrieDB.v ===== *)
(** The node database between the tries and the disk: trie/database.go, with the
    batches of ethdb/memorydb and the accessors of core/rawdb that it uses, and the
    committer of trie/committer.go that fills it.

    Nodes are kept under their hash, either as blobs on disk (and in the clean
    cache) or as collapsed nodes in memory with reference counts, in a doubly linked
    list ordered by age. *)

From S2P Require Import Prelude Common Rlp Trie TrieHash.
From Stdlib Require Import Strings.Byte.

(** * Collapsed nodes without flags *)

Inductive raw :=
| rawNil
| rawShortNode (Key : list byte) (Val : raw)
| rawFullNode (Children : list raw)
| rawHash (h : list byte)
| rawValue (v : list byte)
| rawNode (blob : list byte).

Fixpoint writeRaw (n : raw) (w : encbuf) : outcome encbuf :=
  match n with
  | rawNil => Ok (append w [bZ 0xC0])
  | rawShortNode Key Val => in_list w (fun w => writeRaw Val (encodeString w Key))
  | rawFullNode Children =>
      in_list w (write_all (fun c w => match c with rawNil => Ok (encodeString w []) | _ => writeRaw c w end) Children)
  | rawHash h => Ok (encodeString w h)
  | rawValue v => Ok (encodeString w v)
  | rawNode blob => Ok (append w blob)
  end.

Fixpoint simplifyNode (n : node) : outcome raw :=
  match n with
  | shortNode Key Val _ => v ← simplifyNode Val; Ok (rawShortNode Key v)
  | fullNode Children _ =>
      cs ← mapO (fun c => match c with nilNode => Ok rawNil | _ => simplifyNode c end) Children;
      Ok (rawFullNode cs)
  | valueNode v => Ok (rawValue v)
  | hashNode h => Ok (rawHash h)
  | nilNode => Panic "unknown node type"
  end.

Fixpoint expandNode (hash : option (list byte)) (n : raw) : outcome node :=
  match n with
  | rawShortNode Key Val => v ← expandNode None Val; Ok (shortNode (compactToHex Key) v (mkNodeFlag hash false))
  | rawFullNode Children =>
      cs ← mapO (fun c => match c with rawNil => Ok nilNode | _ => expandNode None c end) Children;
      Ok (fullNode cs (mkNodeFlag hash false))
  | rawValue v => Ok (valueNode v)
  | rawHash h => Ok (hashNode h)
  | rawNil | rawNode _ => Panic "unknown node type"
  end.

(** The hashes that [forGatherChildren] reports, in order. *)
Fixpoint forGatherChildren (n : raw) : list Hash :=
  match n with
  | rawShortNode _ Val => forGatherChildren Val
  | rawFullNode Children => concat (take 16 (map forGatherChildren Children))
  | rawHash h => [BytesToHash h]
  | rawValue _ | rawNil | rawNode _ => []
  end.

(** * Entries *)

Record cachedNode := mkCachedNode {
  (** collapsed trie node, or raw rlp data *)
  cn_node : raw;
  (** byte size of the useful cached data, uint16 *)
  cn_size : Z;
  (** number of live nodes referencing this one, uint32 *)
  cn_parents : Z;
  (** external children referenced by this node, uint16 counters *)
  cn_children : option (gmap Hash Z);
  flushPrev : Hash;
  flushNext : Hash;
}.

#[export] Instance eta_cachedNode : Eta cachedNode := fun c =>
  mkCachedNode (cn_node c) (cn_size c) (cn_parents c) (cn_children c) (flushPrev c) (flushNext c).

#[export] Instance set_cn_parents : Setter cn_parents := ltac:(derive_setter).
#[export] Instance set_cn_children : Setter cn_children := ltac:(derive_setter).
#[export] Instance set_flushPrev : Setter flushPrev := ltac:(derive_setter).
#[export] Instance set_flushNext : Setter flushNext := ltac:(derive_setter).

(** The size of the struct as a 64-bit compiler lays it out. *)
Definition cachedNodeSize : Z := 96.
Definition cachedNodeChildrenSize : Z := 48.
Definition HashLength : Z := 32.

Definition encodeRaw (n : raw) : outcome (list byte) := w ← writeRaw n reset; toBytes w.

Definition cachedNode_rlp (n : cachedNode) : outcome (list byte) :=
  match cn_node n with
  | rawNode blob => Ok blob
  | r => match encodeRaw r with Fail _ => Panic "encode" | o => o end
  end.

Definition obj (n : cachedNode) (hash : Hash) : outcome node :=
  match cn_node n with
  | rawNode blob => mustDecodeNode (Some (arr_bytes hash)) blob
  | r => expandNode (Some (arr_bytes hash)) r
  end.

(** * The database *)

(** fastcache: a cache from which entries may disappear at any time; it returns
    what was last set for a key. *)
Class FastCache := {
  cache : Type;
  cache_Get : cache -> list byte -> option (list byte);
  cache_Set : cache -> list byte -> list byte -> cache;
  cache_law : forall c k v k' x, cache_Get (cache_Set c k v) k' = Some x -> k' = k /\ x = v \/ cache_Get c k' = Some x;
}.

(** The outcome of a write to disk. *)
Class DiskFaults := { write_error : nat -> option error }.

(** The timers and counters that only feed the metrics and the log are left out;
    the sizes, integers held in a float64, are integers. *)
Record Database `{FastCache} := mkDatabase {
  (** persistent storage for matured trie nodes *)
  diskdb : gmap (list byte) (list byte);
  (** memory cache of clean node RLPs *)
  cleans : option cache;
  (** data and references relationships of dirty trie nodes *)
  dirties : gmap Hash cachedNode;
  (** oldest tracked node, flush-list head *)
  oldest : Hash;
  (** newest tracked node, flush-list tail *)
  newest : Hash;
  (** preimages of nodes from the secure trie *)
  preimages : option (gmap Hash (list byte));
  dirtiesSize : Z;
  childrenSize : Z;
  preimagesSize : Z;
}.

Arguments mkDatabase {_}.

#[export] Instance eta_Database `{FastCache} : Eta Database := fun d =>
  mkDatabase (diskdb d) (cleans d) (dirties d) (oldest d) (newest d) (preimages d) (dirtiesSize d) (childrenSize d) (preimagesSize d).

#[export] Instance set_diskdb `{FastCache} : Setter diskdb := ltac:(derive_setter).
#[export] Instance set_cleans `{FastCache} : Setter cleans := ltac:(derive_setter).
#[export] Instance set_dirties `{FastCache} : Setter dirties := ltac:(derive_setter).
#[export] Instance set_oldest `{FastCache} : Setter oldest := ltac:(derive_setter).
#[export] Instance set_newest `{FastCache} : Setter newest := ltac:(derive_setter).
#[export] Instance set_preimages `{FastCache} : Setter preimages := ltac:(derive_setter).
#[export] Instance set_dirtiesSize `{FastCache} : Setter dirtiesSize := ltac:(derive_setter).
#[export] Instance set_childrenSize `{FastCache} : Setter childrenSize := ltac:(derive_setter).
#[export] Instance set_preimagesSize `{FastCache} : Setter preimagesSize := ltac:(derive_setter).

Definition zeroHash : Hash := arr_zero 32.

Definition freshNode : cachedNode := mkCachedNode rawNil 0 0 None zeroHash zeroHash.

Section database.
Context `{FastCache}.

(** [NewDatabaseWithConfig]: the meta root is the entry of the zero hash. *)
Definition NewDatabase (disk : gmap (list byte) (list byte)) (clean : option cache) (keepPreimages : bool) : Database :=
  mkDatabase disk clean {[ zeroHash := freshNode <| cn_children := Some ∅ |> ]} zeroHash zeroHash
    (if keepPreimages then Some ∅ else None) 0 0 0.

(** A field of an entry that must exist. *)
Definition alterNode (h : Hash) (f : cachedNode -> cachedNode) : M Database unit :=
  ds ← gets dirties; c ← must "nil dereference" (ds !! h); modify (fun db => db <| dirties := <[h := f c]> ds |>).

(** [Database.insert]. *)
Definition db_insert (hash : Hash) (size : Z) (n : node) : M Database unit :=
  ds ← gets dirties;
  match ds !! hash with
  | Some _ => mret ()
  | None =>
      r ← lift (simplifyNode n);
      new ← gets newest;
      old ← gets oldest;
      let entry := mkCachedNode r (size mod 2 ^ 16) 0 None new zeroHash in
      modify (fun db => db <| dirties := foldl (fun ds child => alter (fun c => c <| cn_parents := (cn_parents c + 1) mod 2 ^ 32 |>) child ds)
                                          (dirties db) (forGatherChildren r) |>);;
      modify (fun db => db <| dirties := <[hash := entry]> (dirties db) |>);;
      (if decide (old = zeroHash) then modify (fun db => db <| oldest := hash |> <| newest := hash |>)
       else alterNode new (fun c => c <| flushNext := hash |>);; modify (fun db => db <| newest := hash |>));;
      modify (fun db => db <| dirtiesSize := dirtiesSize db + (HashLength + cn_size entry) mod 2 ^ 16 |>)
  end.

Definition insertPreimage (hash : Hash) (preimage : list byte) : M Database unit :=
  ps ← gets preimages;
  match ps with
  | None => mret ()
  | Some ps =>
      match ps !! hash with
      | Some _ => mret ()
      | None => modify (fun db => db <| preimages := Some (<[hash := preimage]> ps) |> <| preimagesSize := preimagesSize db + (HashLength + len preimage) |>)
      end
  end.

(** The blob of a hash in the clean cache. *)
Definition clean_Get (db : Database) (hash : Hash) : option (list byte) :=
  c ← cleans db; cache_Get c (arr_bytes hash).

Definition clean_Set (hash : Hash) (enc : list byte) : M Database unit :=
  modify (fun db => match cleans db with
                    | Some c => db <| cleans := Some (cache_Set c (arr_bytes hash) enc) |>
                    | None => db
                    end).

(** [Database.node]. *)
Definition db_node (hash : Hash) : M Database (option node) :=
  db ← get;
  match clean_Get db hash with
  | Some enc => Some <$> lift (mustDecodeNode (Some (arr_bytes hash)) enc)
  | None =>
      match dirties db !! hash with
      | Some dirty => Some <$> lift (obj dirty hash)
      | None =>
          match diskdb db !! arr_bytes hash with
          | None => mret None
          | Some enc => clean_Set hash enc;; Some <$> lift (mustDecodeNode (Some (arr_bytes hash)) enc)
          end
      end
  end.

(** [Database.Node]. *)
Definition db_Node (hash : Hash) : M Database (list byte) :=
  if decide (hash = zeroHash) then fail (ErrorsNew "not found")
  else
    db ← get;
    match clean_Get db hash with
    | Some enc => mret enc
    | None =>
        match dirties db !! hash with
        | Some dirty => lift (cachedNode_rlp dirty)
        | None =>
            let enc := default [] (diskdb db !! arr_bytes hash) in
            if negb (Z.eqb (len enc) 0) then clean_Set hash enc;; mret enc else fail (ErrorsNew "not found")
        end
    end.

Definition preimagePrefix : list byte := map bZ [115; 101; 99; 117; 114; 101; 45; 107; 101; 121; 45].
Definition preimageKey (hash : Hash) : list byte := preimagePrefix ++ arr_bytes hash.

(** [Database.preimage]. *)
Definition db_preimage (hash : Hash) : M Database (option (list byte)) :=
  db ← get;
  match preimages db with
  | None => mret None
  | Some ps =>
      match ps !! hash with
      | Some preimage => mret (Some preimage)
      | None => mret (diskdb db !! preimageKey hash)
      end
  end.
End database.

(** * Reference counting and flushing *)

(** [batch] of ethdb/memorydb: the queued writes. *)
Definition batch : Type := list (list byte * list byte).
Definition ValueSize (b : batch) : Z := zsum (map (fun kv => len kv.2) b).
Definition IdealBatchSize : Z := 100 * 1024.

Section references.
Context `{FastCache} `{GoRuntime} `{DiskFaults}.

(** [Write]: all queued writes reach the disk, or none. *)
Definition batch_Write (b : batch) : M Database unit :=
  err ← ext write_error;
  match err with
  | Some e => fail e
  | None => modify (fun db => db <| diskdb := foldl (fun d kv => <[kv.1 := kv.2]> d) (diskdb db) b |>)
  end.

(** The hashes that [forChilds] reports, in order. *)
Definition forChilds (n : cachedNode) : M Database (list Hash) :=
  match cn_children n with
  | None => mret (forGatherChildren (cn_node n))
  | Some m => entries ← range m; mret (map fst entries ++ forGatherChildren (cn_node n))
  end.

Definition reference (child parent : Hash) : M Database unit :=
  ds ← gets dirties;
  match ds !! child with
  | None => mret ()
  | Some _ =>
      p ← must "nil dereference" (ds !! parent);
      skip ← match cn_children p with
             | None =>
                 alterNode parent (fun c => c <| cn_children := Some ∅ |>);;
                 modify (fun db => db <| childrenSize := childrenSize db + cachedNodeChildrenSize |>);;
                 mret false
             | Some m => mret (bool_decide (is_Some (m !! child)) && negb (bool_decide (parent = zeroHash)))
             end;
      if (skip : bool) then mret ()
      else
        alterNode child (fun c => c <| cn_parents := (cn_parents c + 1) mod 2 ^ 32 |>);;
        ds ← gets dirties;
        p ← must "nil dereference" (ds !! parent);
        let m := default ∅ (cn_children p) in
        let count := (default 0 (m !! child) + 1) mod 2 ^ 16 in
        alterNode parent (fun c => c <| cn_children := Some (<[child := count]> m) |>);;
        when (Z.eqb count 1) (modify (fun db => db <| childrenSize := childrenSize db + (HashLength + 2) |>))
  end.

(** Take an entry out of the flush list. *)
Definition unlink (h : Hash) (n : cachedNode) : M Database unit :=
  db ← get;
  if decide (h = oldest db) then
    modify (fun db => db <| oldest := flushNext n |>);;
    alterNode (flushNext n) (fun c => c <| flushPrev := zeroHash |>)
  else if decide (h = newest db) then
    modify (fun db => db <| newest := flushPrev n |>);;
    alterNode (flushPrev n) (fun c => c <| flushNext := zeroHash |>)
  else
    alterNode (flushPrev n) (fun c => c <| flushNext := flushNext n |>);;
    alterNode (flushNext n) (fun c => c <| flushPrev := flushPrev n |>).

(** The private [dereference]; the fuel bounds the depth of the recursion. *)
Fixpoint dereference (fuel : nat) (child parent : Hash) : M Database unit :=
  match fuel with
  | O => panic out_of_fuel
  | S fuel =>
      ds ← gets dirties;
      p ← must "nil dereference" (ds !! parent);
      let count := default 0 (m ← cn_children p; m !! child) in
      when (Z.ltb 0 count)
        (let m := default ∅ (cn_children p) in
         if Z.eqb (count - 1) 0 then
           alterNode parent (fun c => c <| cn_children := Some (base.delete child m) |>);;
           modify (fun db => db <| childrenSize := childrenSize db - (HashLength + 2) |>)
         else alterNode parent (fun c => c <| cn_children := Some (<[child := count - 1]> m) |>));;
      ds ← gets dirties;
      match ds !! child with
      | None => mret ()
      | Some n =>
          let n := if Z.ltb 0 (cn_parents n) then n <| cn_parents := cn_parents n - 1 |> else n in
          modify (fun db => db <| dirties := <[child := n]> ds |>);;
          when (Z.eqb (cn_parents n) 0)
            (unlink child n;;
             childs ← forChilds n;
             forM (fun hash => dereference fuel hash child) childs;;
             modify (fun db => db <| dirties := base.delete child (dirties db) |>
                                  <| dirtiesSize := dirtiesSize db - (HashLength + cn_size n) |>
                                  <| childrenSize := childrenSize db - (if cn_children n then cachedNodeChildrenSize else 0) |>))
      end
  end.

(** As deep as there are entries. *)
Definition dbFuel (db : Database) : nat := S (base.size (dirties db)).

Definition Dereference (root : Hash) : M Database unit :=
  if decide (root = zeroHash) then mret ()
  else db ← get; dereference (dbFuel db) root zeroHash.

(** [cleaner.Put]: an entry that has reached the disk leaves the memory. *)
Definition cleaner_Put (key rlp : list byte) : M Database unit :=
  let hash := BytesToHash key in
  ds ← gets dirties;
  match ds !! hash with
  | None => mret ()
  | Some n =>
      unlink hash n;;
      modify (fun db => db <| dirties := base.delete hash (dirties db) |>
                           <| dirtiesSize := dirtiesSize db - (HashLength + cn_size n)
                                - match cn_children n with
                                  | Some m => cachedNodeChildrenSize + mlen m * (HashLength + 2)
                                  | None => 0
                                  end |>);;
      clean_Set hash rlp
  end.

Definition Replay (b : batch) : M Database unit := forM (fun kv => cleaner_Put kv.1 kv.2) b.

(** The private [commit]: the entries below [hash] are queued, children first; a
    full batch is written and its entries leave the memory. *)
Fixpoint db_commit (fuel : nat) (hash : Hash) (b : batch) : M Database batch :=
  match fuel with
  | O => panic out_of_fuel
  | S fuel =>
      ds ← gets dirties;
      match ds !! hash with
      | None => mret b
      | Some n =>
          childs ← forChilds n;
          b ← foldM (fun b child => db_commit fuel child b) b childs;
          rlp ← lift (cachedNode_rlp n);
          let b := b ++ [(arr_bytes hash, rlp)] in
          if Z.leb IdealBatchSize (ValueSize b) then batch_Write b;; Replay b;; mret []
          else mret b
      end
  end.

(** [WritePreimages] into a batch. *)
Definition WritePreimages (ps : gmap Hash (list byte)) (b : batch) : M Database batch :=
  entries ← range ps; mret (b ++ map (fun e => (preimageKey e.1, e.2)) entries).

(** [Database.Commit]. *)
Definition db_Commit (node : Hash) : M Database unit :=
  db ← get;
  match preimages db with
  | Some ps => b ← WritePreimages ps []; batch_Write b
  | None => mret ()
  end;;
  b ← db_commit (dbFuel db) node [];
  batch_Write b;;
  Replay b;;
  when (bool_decide (is_Some (preimages db))) (modify (fun db => db <| preimages := Some ∅ |> <| preimagesSize := 0 |>)).

(** The memory an entry accounts for in [Cap]. *)
Definition nodeCost (n : cachedNode) : Z :=
  HashLength + cn_size n + cachedNodeSize
  + match cn_children n with Some m => cachedNodeChildrenSize + mlen m * (HashLength + 2) | None => 0 end.

(** The first loop of [Cap]: queue the oldest entries until the size is below the
    limit. *)
Fixpoint capLoop (fuel : nat) (limit size : Z) (old : Hash) (b : batch) : M Database (batch * Hash) :=
  if Z.ltb limit size && negb (bool_decide (old = zeroHash)) then
    match fuel with
    | O => panic out_of_fuel
    | S fuel =>
        ds ← gets dirties;
        n ← must "nil dereference" (ds !! old);
        rlp ← lift (cachedNode_rlp n);
        let b := b ++ [(arr_bytes old, rlp)] in
        b ← (if Z.leb IdealBatchSize (ValueSize b) then batch_Write b;; mret [] else mret b);
        capLoop fuel limit (size - nodeCost n) (flushNext n) b
    end
  else mret (b, old).

(** The second loop: the entries before [old] leave the memory. *)
Fixpoint uncacheLoop (fuel : nat) (old : Hash) : M Database unit :=
  db ← get;
  if decide (oldest db = old) then mret ()
  else
    match fuel with
    | O => panic out_of_fuel
    | S fuel =>
        n ← must "nil dereference" (dirties db !! oldest db);
        modify (fun db => db <| dirties := base.delete (oldest db) (dirties db) |>
                             <| oldest := flushNext n |>
                             <| dirtiesSize := dirtiesSize db - (HashLength + cn_size n) |>
                             <| childrenSize := childrenSize db
                                  - match cn_children n with
                                    | Some m => cachedNodeChildrenSize + mlen m * (HashLength + 2)
                                    | None => 0
                                    end |>);;
        uncacheLoop fuel old
    end.

(** The references of the meta root. *)
Definition metarootRefs (db : Database) : M Database Z :=
  meta ← must "nil dereference" (dirties db !! zeroHash); mret (mlen (default ∅ (cn_children meta)) * (HashLength + 2)).

Definition Cap (limit : Z) : M Database unit :=
  db ← get;
  refs ← metarootRefs db;
  let size := dirtiesSize db + (mlen (dirties db) - 1) * cachedNodeSize + (childrenSize db - refs) in
  let flushPreimages := Z.ltb (4 * 1024 * 1024) (preimagesSize db) in
  b ← (if flushPreimages then
         match preimages db with
         | None => mret []
         | Some ps => b ← WritePreimages ps []; if Z.ltb IdealBatchSize (ValueSize b) then batch_Write b;; mret [] else mret b
         end
       else mret []);
  '(b, old) ← capLoop (dbFuel db) limit size (oldest db) b;
  batch_Write b;;
  when (flushPreimages && bool_decide (is_Some (preimages db))) (modify (fun db => db <| preimages := Some ∅ |> <| preimagesSize := 0 |>));;
  uncacheLoop (dbFuel db) old;;
  db ← get;
  when (negb (bool_decide (oldest db = zeroHash))) (alterNode (oldest db) (fun c => c <| flushPrev := zeroHash |>)).

Definition Size : M Database (Z * Z) :=
  db ← get; refs ← metarootRefs db;
  mret (dirtiesSize db + childrenSize db + (mlen (dirties db) - 1) * cachedNodeSize - refs, preimagesSize db).
End references.

(** * The committer *)

Section estimateChildren.
Context (estimateSize : node -> outcome Z).

(** The loop over the first sixteen children. *)
Fixpoint estimateChildren (i : nat) (cs : list node) (s : Z) : outcome Z :=
  match cs with
  | [] => Ok s
  | c :: cs =>
      if Nat.ltb i 16 then
        d ← match c with nilNode => Ok 1 | _ => estimateSize c end;
        estimateChildren (S i) cs (s + d)
      else Ok s
  end.
End estimateChildren.

Fixpoint estimateSize (n : node) : outcome Z :=
  match n with
  | shortNode Key Val _ => s ← estimateSize Val; Ok (3 + len Key + s)
  | fullNode Children _ => estimateChildren estimateSize 0 Children 3
  | valueNode v => Ok (1 + len v)
  | hashNode h => Ok (1 + len h)
  | nilNode => Panic "node type"
  end.

(** What the committer sends to the channel. *)
Record leaf := mkLeaf {
  leaf_size : Z;
  leaf_hash : Hash;
  leaf_node : node;
}.

Definition node_flags (n : node) : option nodeFlag :=
  match n with
  | shortNode _ _ f | fullNode _ f => Some f
  | _ => None
  end.

(** [store] on a collapsed node: the hash of a node that has one, and the leaf that
    is sent for it. *)
Definition store (n : node) : outcome (node * list leaf) :=
  match f ← node_flags n; flag_hash f with
  | None => Ok (n, [])
  | Some hash => size ← estimateSize n; Ok (hashNode hash, [mkLeaf size (BytesToHash hash) n])
  end.

(** The loop of [commitChildren] over the children from index [i] on. *)
Section commitChildren.
Context (commit : node -> outcome (node * list leaf)).

Fixpoint commitChildren (i : nat) (cs : list node) : outcome (list node * list leaf) :=
  match cs with
  | [] => Ok ([], [])
  | child :: cs =>
      '(k, l) ← (if Nat.ltb i 16 then
                   match child with
                   | nilNode => Ok (nilNode, [])
                   | hashNode _ => Ok (child, [])
                   | _ => commit child
                   end
                 else Ok (child, []));
      '(ks, ls) ← commitChildren (S i) cs;
      Ok (k :: ks, l ++ ls)
  end.
End commitChildren.

(** [commit], with the leaves in the order in which they are sent. *)
Fixpoint commit (n : node) : outcome (node * list leaf) :=
  match n with
  | shortNode Key Val flags =>
      match flag_hash flags, flag_dirty flags with
      | Some hash, false => Ok (hashNode hash, [])
      | _, _ =>
          '(childV, ls) ← match Val with fullNode _ _ => commit Val | _ => Ok (Val, []) end;
          '(hashed, l) ← store (shortNode (hexToCompact Key) childV flags);
          Ok (hashed, ls ++ l)
      end
  | fullNode Children flags =>
      match flag_hash flags, flag_dirty flags with
      | Some hash, false => Ok (hashNode hash, [])
      | _, _ =>
          '(hashedKids, ls) ← commitChildren commit 0 Children;
          '(hashed, l) ← store (fullNode hashedKids flags);
          Ok (hashed, ls ++ l)
      end
  | hashNode _ => Ok (n, [])
  | nilNode | valueNode _ => Panic "invalid node"
  end.

Section trie_commit.
Context `{FastCache} `{Crypto}.

(** The callback of a leaf: its value and the hash of the node that holds it. *)
Definition LeafCallback : Type := list byte -> Hash -> M Database unit.

Definition report (onleaf : LeafCallback) (l : leaf) : M Database unit :=
  match leaf_node l with
  | shortNode _ (valueNode v) _ => onleaf v (leaf_hash l)
  | fullNode Children _ =>
      match Children !! 16%nat with
      | Some nilNode | None => mret ()
      | Some (valueNode v) => onleaf v (leaf_hash l)
      | Some _ => panic "interface conversion"
      end
  | _ => mret ()
  end.

(** [commitLoop]; without a callback the committer inserts the nodes itself, in
    the same order, as it does not read the database. *)
Definition commitLoop (onleaf : option LeafCallback) (ls : list leaf) : M Database unit :=
  forM (fun l => db_insert (leaf_hash l) (leaf_size l) (leaf_node l);;
                 match onleaf with Some f => report f l | None => mret () end) ls.

Definition node_dirty (n : node) : bool := match node_flags n with Some f => flag_dirty f | None => true end.

(** [Trie.Commit]: the root hash and the trie afterwards. *)
Definition Trie_Commit (onleaf : option LeafCallback) (t : Trie) : M Database (Hash * Trie) :=
  match root t with
  | nilNode => mret (emptyRoot, t)
  | _ =>
      let '(o, t) := Trie_Hash t in
      rootHash ← lift o;
      if negb (node_dirty (root t)) then mret (rootHash, t)
      else
        '(newRoot, ls) ← lift (commit (root t));
        commitLoop onleaf ls;;
        match newRoot with
        | hashNode h => mret (rootHash, mkTrie newRoot (unhashed t))
        | _ => panic "interface conversion"
        end
  end.

(** [New]: open the trie with the given root. *)
Definition Trie_New (r : Hash) : M Database Trie :=
  if negb (bool_decide (r = zeroHash)) && negb (bool_decide (r = emptyRoot)) then
    n ← db_node r;
    match n with
    | Some rootnode => mret (mkTrie rootnode 0)
    | None => fail MissingNodeError
    end
  else mret (mkTrie nilNode 0).
End trie_commit.
