(* ===== verification/TrieEnc.v ===== *)
(** The encodings of the trie are exact: the key encodings of trie/encoding.go are
    inverse to each other, the in-place variant agrees with the plain one, and a
    node is read back from its RLP encoding as it was written. *)

From S2P Require Import Prelude Common Rlp RlpEnc RlpDec RlpRaw Trie TrieMap TrieHash TrieDB.
From Stdlib Require Import Strings.Byte.

(** * Keys *)

(** Nibbles, with or without the terminator. *)
Definition hexlike (k : list byte) : Prop := exists p, Forall nibble p /\ (k = p \/ k = p ++ [terminator]).

Lemma hexkey_hexlike k : hexkey k -> exists p, Forall nibble p /\ k = p ++ [terminator].
Proof.
  induction 1 as [|b k Hb Hk (p & Hp & ->)]; [by exists []|]. exists (b :: p). split; [by constructor|done].
Qed.

Lemma Zb_joinNibbles hi lo : nibble hi -> nibble lo -> Zb (joinNibbles hi lo) = 16 * Zb hi + Zb lo.
Proof.
  unfold nibble, joinNibbles, u8. intros Hh Hl. pose proof (Zb_range hi). pose proof (Zb_range lo).
  rewrite Z.shiftl_mul_pow2 by lia. rewrite (Z.mod_small (Zb hi * 2 ^ 4)) by lia.
  rewrite <- Z.add_nocarry_lor.
  - rewrite Zb_bZ_small; lia.
  - apply Z.bits_inj'. intros i Hi. rewrite Z.land_spec, Z.bits_0. destruct (Z.lt_ge_cases i 4).
    + by rewrite Z.mul_pow2_bits_low.
    + rewrite andb_comm. rewrite (Z.bits_above_log2 (Zb lo) i); [done|lia|].
      destruct (decide (Zb lo = 0)) as [->|]; [simpl; lia|]. apply Z.log2_lt_pow2; [lia|]. apply Z.lt_le_trans with (2 ^ 4); [lia|]. apply Z.pow_le_mono_r; lia.
Qed.

Lemma joinNibbles_split hi lo : nibble hi -> nibble lo ->
  [bZ (Zb (joinNibbles hi lo) / 16); bZ (Zb (joinNibbles hi lo) mod 16)] = [hi; lo].
Proof.
  intros Hh Hl. rewrite Zb_joinNibbles by done. unfold nibble in *. pose proof (Zb_range hi). pose proof (Zb_range lo).
  rewrite (Z.mul_comm 16), Z.div_add_l, (Z.add_comm (_ * 16)), Z.mod_add by lia.
  rewrite Z.div_small, Z.mod_small, Z.add_0_r by lia. by rewrite !bZ_Zb.
Qed.

(** Pairs of nibbles and bytes. *)
Lemma keybytesToHex_decodeNibbles n : forall l, length l = (2 * n)%nat -> Forall nibble l ->
  concat (map (fun b => [bZ (Zb b / 16); bZ (Zb b mod 16)]) (decodeNibbles l)) = l.
Proof.
  induction n as [|n IH]; intros l Hl Hn; [by destruct l|]. destruct l as [|hi [|lo l]]; simpl in Hl; try lia.
  inversion Hn as [|? ? Hh Hn']; subst. inversion Hn' as [|? ? Hlo Hn'']; subst.
  cbn [decodeNibbles map concat]. rewrite joinNibbles_split by done. simpl. rewrite IH; [done|lia|done].
Qed.

Lemma decodeNibbles_keybytes str : decodeNibbles (concat (map (fun b => [bZ (Zb b / 16); bZ (Zb b mod 16)]) str)) = str.
Proof.
  induction str as [|b str IH]; [done|]. cbn [map concat app decodeNibbles]. rewrite IH. f_equal. apply Zb_inj.
  pose proof (Zb_range b). pose proof (Z.div_lt_upper_bound (Zb b) 16 16). pose proof (Z.div_pos (Zb b) 16). pose proof (Z.mod_pos_bound (Zb b) 16).
  rewrite Zb_joinNibbles; unfold nibble; rewrite ?Zb_bZ_small by lia; [|lia..]. pose proof (Z.div_mod (Zb b) 16). lia.
Qed.

Definition withTerm (tm : bool) (p : list byte) : list byte := if tm then p ++ [terminator] else p.

Lemma length_withTerm tm p : length (withTerm tm p) = (length p + if tm then 1 else 0)%nat.
Proof. destruct tm; unfold withTerm; [rewrite length_app|]; simpl; lia. Qed.

Lemma take_withTerm tm p n : length p = n -> take n (withTerm tm p) = p.
Proof. intros <-. destruct tm; unfold withTerm; [apply take_app_length|by apply take_ge]. Qed.

Lemma last_nibbles p : Forall nibble p -> forall b, last p = Some b -> nibble b.
Proof. intros Hp b Hb. apply last_Some_elem_of in Hb. rewrite Forall_forall in Hp. by apply Hp. Qed.

Lemma hasTerm_withTerm tm p : Forall nibble p -> hasTerm (withTerm tm p) = tm.
Proof.
  intros Hp. destruct tm; unfold hasTerm, withTerm; [by rewrite last_snoc|]. destruct (last p) as [b|] eqn:E; [|done].
  apply last_nibbles in E; [|done]. unfold nibble in E. apply Z.eqb_neq. lia.
Qed.

Lemma stripTerm_withTerm p : stripTerm (withTerm true p) = p.
Proof. unfold stripTerm, withTerm. rewrite length_app. simpl. rewrite Nat.add_sub. by rewrite take_app_length. Qed.

Lemma strip_withTerm tm p : Forall nibble p -> (if hasTerm (withTerm tm p) then stripTerm (withTerm tm p) else withTerm tm p) = p.
Proof. intros Hp. rewrite hasTerm_withTerm by done. destruct tm; [apply stripTerm_withTerm|done]. Qed.

Lemma land_1_mod z : Z.land z 1 = z mod 2.
Proof. apply (Z.land_ones z 1). lia. Qed.

Lemma land_1_odd (l : list byte) : Z.eqb (Z.land (len l) 1) 1 = Nat.odd (length l).
Proof.
  unfold len. rewrite land_1_mod.
  destruct (Nat.odd (length l)) eqn:E.
  - apply Nat.odd_spec in E as [m E]. rewrite E. apply Z.eqb_eq. rewrite Nat2Z.inj_add, Nat2Z.inj_mul, Z.add_comm, Z.mul_comm, Z.mod_add by lia. done.
  - rewrite <- Nat.negb_even, negb_false_iff in E. apply Nat.even_spec in E as [m E]. rewrite E. apply Z.eqb_neq.
    rewrite Nat2Z.inj_mul, Z.mul_comm, Z.mod_mul by lia. lia.
Qed.

(** The header byte of a compact key: the nibble of the flags and the first nibble
    of an odd key. *)
Lemma compactHead_odd tm b : nibble b -> Z.lor (Z.lor (Z.shiftl (if tm : bool then 1 else 0) 5) (Z.shiftl 1 4)) (Zb b) = (if tm then 48 else 16) + Zb b.
Proof.
  unfold nibble. intros Hb. pose proof (Zb_range b). assert (E : Zb b = Z.of_nat (Z.to_nat (Zb b))) by lia. rewrite E.
  assert (Hn : (Z.to_nat (Zb b) < 16)%nat) by lia. revert Hn. generalize (Z.to_nat (Zb b)). clear. intros n Hn.
  do 16 (destruct n as [|n]; [by destruct tm|]). lia.
Qed.

Lemma hexToCompact_even tm p : Forall nibble p -> Nat.odd (length p) = false ->
  hexToCompact (withTerm tm p) = bZ (if tm then 32 else 0) :: decodeNibbles p.
Proof.
  intros Hp Ho. unfold hexToCompact. rewrite strip_withTerm by done. rewrite land_1_odd, Ho, hasTerm_withTerm by done. by destruct tm.
Qed.

Lemma hexToCompact_odd tm b p : Forall nibble (b :: p) -> Nat.odd (length (b :: p)) = true ->
  hexToCompact (withTerm tm (b :: p)) = bZ ((if tm then 48 else 16) + Zb b) :: decodeNibbles p.
Proof.
  intros Hp Ho. unfold hexToCompact. rewrite strip_withTerm by done. rewrite land_1_odd, Ho, hasTerm_withTerm by done.
  inversion Hp; subst. by rewrite compactHead_odd.
Qed.

Lemma odd_cons_half (p : list byte) b : Nat.odd (length (b :: p)) = true -> exists n, length p = (2 * n)%nat.
Proof. intros [n Hn]%Nat.odd_spec. exists n. simpl in Hn. lia. Qed.

Lemma even_half (p : list byte) : Nat.odd (length p) = false -> exists n, length p = (2 * n)%nat.
Proof. rewrite <- Nat.negb_even, negb_false_iff. intros [n Hn]%Nat.even_spec. eauto. Qed.

(** The nibbles of a compact key are its header and the key. *)
Lemma compactToHex_cons b x0 x1 l p tm : bZ (Zb b / 16) = x0 -> bZ (Zb b mod 16) = x1 ->
  concat (map (fun b => [bZ (Zb b / 16); bZ (Zb b mod 16)]) l) = p -> Z.ltb (Zb x0) 2 = negb tm ->
  compactToHex (b :: l) = drop (Z.to_nat (2 - Z.land (Zb x0) 1)) (withTerm tm (x0 :: x1 :: p)).
Proof.
  intros E0 E1 Ep Hx. unfold compactToHex, keybytesToHex. cbn [map concat app]. rewrite E0, E1, Ep, Hx.
  destruct tm; [done|]. cbn [negb]. f_equal. apply (stripTerm_withTerm (x0 :: x1 :: p)).
Qed.

Lemma compactToHex_hexToCompact_term tm p : Forall nibble p -> compactToHex (hexToCompact (withTerm tm p)) = withTerm tm p.
Proof.
  intros Hp. destruct (Nat.odd (length p)) eqn:Ho.
  - destruct p as [|b p]; [done|]. rewrite hexToCompact_odd by done. destruct (odd_cons_half _ _ Ho) as [n Hn].
    inversion Hp as [|? ? Hb Hp']; subst. unfold nibble in Hb. pose proof (Zb_range b).
    assert (Ez : Zb (bZ ((if tm then 48 else 16) + Zb b)) = (if tm then 3 else 1) * 16 + Zb b) by (rewrite Zb_bZ_small; destruct tm; lia).
    rewrite (compactToHex_cons _ (bZ (if tm then 3 else 1)) b _ p tm).
    + destruct tm; [reflexivity|reflexivity].
    + rewrite Ez, Z.div_add_l, Z.div_small, Z.add_0_r by lia. done.
    + rewrite Ez, Z.add_comm, Z.mod_add, Z.mod_small, bZ_Zb by lia. done.
    + by apply (keybytesToHex_decodeNibbles n).
    + by destruct tm.
  - rewrite hexToCompact_even by done. destruct (even_half _ Ho) as [n Hn].
    rewrite (compactToHex_cons _ (bZ (if tm then 2 else 0)) (bZ 0) _ p tm); [by destruct tm|by destruct tm|by destruct tm| |by destruct tm].
    by apply (keybytesToHex_decodeNibbles n).
Qed.

Lemma hexkey_withTerm k : hexkey k -> exists p, Forall nibble p /\ k = withTerm true p.
Proof. apply hexkey_hexlike. Qed.

Lemma compactToHex_hexToCompact_key k : hexkey k \/ Forall nibble k -> compactToHex (hexToCompact k) = k.
Proof.
  intros [(p & Hp & ->)%hexkey_withTerm|Hk]; [by apply compactToHex_hexToCompact_term|by apply (compactToHex_hexToCompact_term false)].
Qed.

Lemma hasTerm_hexkey k : hexkey k -> hasTerm k = true.
Proof. intros (p & Hp & ->)%hexkey_withTerm. by apply hasTerm_withTerm. Qed.

Lemma hasTerm_nibbles k : Forall nibble k -> hasTerm k = false.
Proof. apply (hasTerm_withTerm false). Qed.

(** The key encodings of trie/encoding.go lose nothing: the compact form of a
    key of nibbles, with or without the terminator, expands to the key, and the bytes of
    a key are read back from its nibbles. *)
Theorem key_encodings_roundtrip k str (Hk : hexlike k) :
  compactToHex (hexToCompact k) = k /\ hexToKeybytes (keybytesToHex str) = Ok str.
Proof.
  split.
  - destruct Hk as (p & Hp & [->| ->]); [by apply (compactToHex_hexToCompact_term false)|by apply (compactToHex_hexToCompact_term true)].
  - unfold hexToKeybytes. set (p := concat (map (fun b => [bZ (Zb b / 16); bZ (Zb b mod 16)]) str)).
    assert (Hp : Forall nibble p) by (destruct (hexkey_hexlike _ (keybytesToHex_hexkey str)) as (q & Hq & E); apply app_inj_tail in E as [<- _]; done).
    change (keybytesToHex str) with (withTerm true p). rewrite strip_withTerm by done.
    assert (Ho : Nat.odd (length p) = false).
    { unfold p. clear. induction str as [|b str IH]; [done|]. cbn [map concat app length]. by rewrite Nat.odd_succ, Nat.even_succ. }
    replace (negb _) with false; [unfold p; by rewrite decodeNibbles_keybytes|].
    pose proof (land_1_odd p) as E. rewrite Ho in E. apply Z.eqb_neq in E. symmetry. apply negb_false_iff, Z.eqb_eq.
    rewrite land_1_mod in *. pose proof (Z.mod_pos_bound (len p) 2). lia.
Qed.

Lemma key_encodings_roundtrip_witness :
  compactToHex (hexToCompact [bZ 1; bZ 15; bZ 2; terminator]) = [bZ 1; bZ 15; bZ 2; terminator] /\
  hexToKeybytes (keybytesToHex [bZ 0x12; bZ 0xff]) = Ok [bZ 0x12; bZ 0xff].
Proof.
  apply key_encodings_roundtrip. exists [bZ 1; bZ 15; bZ 2]. split; [by repeat constructor|by right].
Defined.

Lemma compactLoop_spec n : forall bi ni hex, (bi <= S ni)%nat -> (ni + 2 * n <= length hex)%nat ->
  exists hex', compactLoop n bi ni hex = Ok hex' /\ length hex' = length hex
    /\ take (bi + n) hex' = take bi hex ++ decodeNibbles (take (2 * n) (drop ni hex)).
Proof.
  induction n as [|n IH]; intros bi ni hex Hb Hl.
  - exists hex. split; [done|]. split; [done|]. by rewrite Nat.add_0_r, app_nil_r.
  - destruct (lookup_lt_is_Some_2 hex ni) as [hi Hhi]; [lia|]. destruct (lookup_lt_is_Some_2 hex (S ni)) as [lo Hlo]; [lia|].
    cbn [compactLoop]. rewrite Hhi, Hlo. set (hex1 := <[bi := joinNibbles hi lo]> hex).
    destruct (IH (S bi) (S (S ni)) hex1) as (hex' & -> & Hlen & Ht); [lia|unfold hex1; rewrite length_insert; lia|].
    exists hex'. split; [done|]. unfold hex1 in Hlen. rewrite length_insert in Hlen. split; [done|].
    replace (bi + S n)%nat with (S bi + n)%nat by lia. rewrite Ht.
    assert (E1 : take (S bi) hex1 = take bi hex ++ [joinNibbles hi lo]).
    { unfold hex1. rewrite (take_S_r _ _ (joinNibbles hi lo)) by (apply list_lookup_insert_eq; lia). by rewrite take_insert_ge by lia. }
    assert (E2 : drop (S (S ni)) hex1 = drop (S (S ni)) hex) by (unfold hex1; by rewrite drop_insert_lt by lia).
    assert (E3 : drop ni hex = hi :: lo :: drop (S (S ni)) hex) by (by rewrite (drop_S _ _ _ Hhi), (drop_S _ _ _ Hlo)).
    rewrite E1, E2, E3, <- app_assoc. f_equal. by replace (2 * S n)%nat with (S (S (2 * n))) by lia.
Qed.

(** [hexToCompactInPlace] computes the compact key inside the buffer of the
    hex key: on every non-empty hex key it neither fails nor panics, and the returned
    number of leading bytes of the buffer are the result of [hexToCompact]. *)
Theorem hexToCompactInPlace_correct k (Hk : hexlike k) (Hne : k <> []) :
  exists buf n, hexToCompactInPlace k = Ok (buf, n) /\ 0 <= n <= len buf /\ len buf = len k /\ take (Z.to_nat n) buf = hexToCompact k.
Proof.
  assert (exists tm p, Forall nibble p /\ k = withTerm tm p) as (tm & p & Hp & ->).
  { destruct Hk as (p & Hp & [->| ->]); [by exists false, p|by exists true, p]. }
  assert (Hterm : Z.ltb 0 (len (withTerm tm p)) && match last (withTerm tm p) with Some b => Z.eqb (Zb b) 16 | None => false end = tm).
  { change (match last (withTerm tm p) with Some b => Z.eqb (Zb b) 16 | None => false end) with (hasTerm (withTerm tm p)).
    rewrite hasTerm_withTerm by done. destruct (Z.ltb_spec 0 (len (withTerm tm p))) as [|Hle]; [done|]. destruct (withTerm tm p); [done|]. unfold len in Hle. simpl in Hle. lia. }
  assert (Hlen : (if tm then (length (withTerm tm p) - 1)%nat else length (withTerm tm p)) = length p).
  { destruct tm; simpl; [rewrite length_app; simpl; lia|done]. }
  unfold hexToCompactInPlace. rewrite Hterm, Hlen. change (Z.of_nat (length p)) with (len p). rewrite land_1_odd.
  destruct (Nat.odd (length p)) eqn:Ho.
  - destruct p as [|b p]; [done|]. rewrite hexToCompact_odd by done. destruct (odd_cons_half _ _ Ho) as [n Hn].
    assert (Hw : withTerm tm (b :: p) = b :: withTerm tm p) by (by destruct tm). rewrite Hw.
    replace (length (b :: p) / 2)%nat with n by (simpl length; rewrite Hn; replace (S (2 * n)) with (1 + n * 2)%nat by lia; by rewrite Nat.div_add).
    destruct (compactLoop_spec n 1 1 (b :: withTerm tm p)) as (hex' & -> & Hl' & Ht); [lia|simpl length; rewrite length_withTerm; lia|].
    rewrite decide_False by (intros ->; done). eexists _, _. split; [done|]. inversion Hp as [|? ? Hb Hp']; subst.
    assert (Hbin : len (b :: p) / 2 + 1 = Z.of_nat (1 + n)).
    { unfold len. simpl length. rewrite Hn. replace (Z.of_nat (S (2 * n))) with (1 + Z.of_nat n * 2) by lia. rewrite Z.div_add by lia. change (1 / 2) with 0. lia. }
    assert (Hll : (1 + n <= length hex')%nat) by (rewrite Hl'; simpl length; rewrite length_withTerm; lia).
    rewrite Hbin. unfold len. rewrite length_insert, Nat2Z.id. split; [lia|]. split; [by rewrite Hl'|].
    destruct hex' as [|c hex']; [done|]. cbn [list_insert insert]. simpl take in Ht |- *. injection Ht as -> Ht. rewrite Ht. rewrite <- (compactHead_odd tm b Hb). f_equal; [by destruct tm|].
    f_equal. rewrite drop_0. apply take_withTerm. lia.
  - rewrite hexToCompact_even by done. destruct (even_half _ Ho) as [n Hn].
    replace (length p / 2)%nat with n by (rewrite Hn, Nat.mul_comm, Nat.div_mul; lia).
    destruct (compactLoop_spec n 1 0 (withTerm tm p)) as (hex' & -> & Hl' & Ht); [lia|rewrite length_withTerm; lia|].
    rewrite decide_False by (intros ->; by destruct (withTerm tm p)). eexists _, _. split; [done|].
    assert (Hbin : len p / 2 + 1 = Z.of_nat (1 + n)) by (unfold len; rewrite Hn, Nat2Z.inj_mul, Z.mul_comm, Z.div_mul; lia).
    assert (Hll : (1 + n <= length hex')%nat).
    { rewrite Hl', length_withTerm. destruct tm; [lia|]. destruct p; [done|]. simpl in *. lia. }
    rewrite Hbin. unfold len. rewrite length_insert, Nat2Z.id. split; [lia|]. split; [by rewrite Hl'|].
    destruct hex' as [|c hex']; [by destruct (withTerm tm p)|]. cbn [list_insert insert]. simpl take in Ht |- *.
    destruct (withTerm tm p) as [|c' r] eqn:Ew; [done|]. simpl in Ht. injection Ht as -> Ht. rewrite Ht. f_equal.
    f_equal. rewrite <- Ew. apply take_withTerm. lia.
Qed.

Lemma hexToCompactInPlace_correct_witness :
  exists buf n, hexToCompactInPlace [bZ 1; bZ 2; bZ 3; terminator] = Ok (buf, n) /\ 0 <= n <= len buf
    /\ len buf = 4 /\ take (Z.to_nat n) buf = [bZ 0x31; bZ 0x23].
Proof.
  apply (hexToCompactInPlace_correct [bZ 1; bZ 2; bZ 3; terminator]); [|done].
  exists [bZ 1; bZ 2; bZ 3]. split; [by repeat constructor|by right].
Defined.

(** * Writing nodes *)

Section node_ind.
Variable P : node -> Prop.
Hypotheses (Hnil : P nilNode) (Hshort : forall k n f, P n -> P (shortNode k n f))
  (Hfull : forall ns f, Forall P ns -> P (fullNode ns f)) (Hhash : forall h, P (hashNode h)) (Hval : forall v, P (valueNode v)).

Fixpoint node_ind' (n : node) : P n :=
  match n with
  | nilNode => Hnil
  | shortNode k n f => Hshort k n f (node_ind' n)
  | fullNode ns f => Hfull ns f ((fix go ns := match ns return Forall P ns with
                                               | [] => List.Forall_nil P
                                               | n :: ns => List.Forall_cons P n ns (node_ind' n) (go ns)
                                               end) ns)
  | hashNode h => Hhash h
  | valueNode v => Hval v
  end.
End node_ind.

(** The value that the encoding of a node stands for. *)
Fixpoint nodeVal (n : node) : rval :=
  match n with
  | nilNode => VBytes []
  | shortNode k v _ => VList [VBytes k; nodeVal v]
  | fullNode cs _ => VList (map nodeVal cs)
  | hashNode h => VBytes h
  | valueNode v => VBytes v
  end.

(** No short node leads nowhere. *)
Fixpoint solid (n : node) : Prop :=
  match n with
  | shortNode _ v _ => v <> nilNode /\ solid v
  | fullNode cs _ => fold_right (fun c P => solid c /\ P) True cs
  | _ => True
  end.

Lemma solid_full cs f : solid (fullNode cs f) <-> Forall solid cs.
Proof. simpl. induction cs as [|c cs IH]; simpl; [done|]. rewrite Forall_cons. tauto. Qed.

Lemma extends_string w b : extends w (encodeString w b) (enc_string b).
Proof. rewrite encodeString_enc. apply extends_append. Qed.

Lemma len_enc_list p : len p < len (enc_list p).
Proof. unfold enc_list, puthead. case_match; unfold len; rewrite length_app; simpl; lia. Qed.

Lemma len_concat_elem {A} (x : list A) ls : x ∈ ls -> len x <= len (concat ls).
Proof.
  induction 1 as [l ls|l y ls _ IH]; simpl; unfold len in *; rewrite length_app; lia.
Qed.

(** A part of a list value is shorter than its encoding. *)
Lemma enc_part_lt v l : v ∈ l -> len (enc v) < len (enc (VList l)).
Proof.
  intros Hv. simpl. eapply Z.le_lt_trans; [|apply len_enc_list]. apply len_concat_elem. by apply list_elem_of_fmap_2.
Qed.

Lemma write_all_enc {A} (write : A -> encbuf -> outcome encbuf) (val : A -> rval) : forall l,
  Forall (fun a => forall w, exists w', write a w = Ok w' /\ extends w w' (enc (val a))) l ->
  forall w, exists w', write_all write l w = Ok w' /\ extends w w' (concat (map enc (map val l))).
Proof.
  induction 1 as [|a l Ha _ IH]; intros w; simpl; [eexists; split; [done|apply extends_refl]|].
  destruct (Ha w) as (w1 & -> & He). destruct (IH w1) as (w2 & E & He2). cbn [mbind outcome_bind].
  eexists; split; [exact E|]. by eapply extends_trans.
Qed.

Lemma writeNode_enc n : n <> nilNode -> solid n -> len (enc (nodeVal n)) < 2 ^ 64 ->
  forall w, exists w', writeNode n w = Ok w' /\ extends w w' (enc (nodeVal n)).
Proof.
  induction n as [|k n f IH|ns f IH|h|v] using node_ind'; intros Hn Hs Hl w.
  - done.
  - destruct Hs as [Hv Hs]. cbn [writeNode]. simpl nodeVal in *.
    apply (extends_in_list w _ (concat (map enc [VBytes k; nodeVal n]))).
    { eapply Z.lt_trans; [apply len_enc_list|exact Hl]. }
    intros w1. destruct (IH Hv Hs) with (w := encodeString w1 k) as (w2 & E & He).
    { eapply Z.lt_trans; [apply enc_part_lt|exact Hl]. set_solver. }
    exists w2. split; [done|]. simpl. rewrite app_nil_r. eapply extends_trans; [apply extends_string|done].
  - apply solid_full in Hs. cbn [writeNode]. simpl nodeVal in *.
    apply (extends_in_list w _ (concat (map enc (map nodeVal ns)))).
    { eapply Z.lt_trans; [apply len_enc_list|exact Hl]. }
    apply write_all_enc. rewrite Forall_forall in IH, Hs |- *. intros c Hc w1.
    assert (c = nilNode \/ c <> nilNode) as [->|Hne] by (destruct c; auto); [eexists; split; [done|apply extends_string]|].
    replace (match c with nilNode => _ | _ => _ end) with (writeNode c w1) by (by destruct c). apply IH; [done|done|by apply Hs|].
    eapply Z.lt_trans; [apply enc_part_lt, list_elem_of_fmap_2, Hc|exact Hl].
  - eexists. split; [done|]. apply extends_string.
  - eexists. split; [done|]. apply extends_string.
Qed.

Lemma toWriter_loop_flush s : forall heads out pos, 0 <= pos -> wf_heads pos (len s) heads ->
  toWriter_loop s out pos heads = Ok (out ++ flush pos (drop (Z.to_nat pos) s) heads).
Proof.
  induction heads as [|h heads IH]; intros out pos Hp Hwf; simpl in *.
  - destruct (Z.ltb_spec pos (len s)); [done|]. rewrite drop_ge by (unfold len in *; lia). by rewrite app_nil_r.
  - destruct Hwf as (Ho & Hsz & Hwf). destruct (Z.ltb_spec 0 (offset h - pos)).
    + unfold sub_slice. rewrite decide_True by (unfold len in *; lia). cbn [mbind outcome_bind].
      assert (El : len (take (Z.to_nat (offset h) - Z.to_nat pos) (drop (Z.to_nat pos) s)) = offset h - pos).
      { unfold len in *. rewrite length_take, length_drop. lia. }
      rewrite El. replace (pos + (offset h - pos)) with (offset h) by lia. rewrite IH by (done || lia). f_equal.
      rewrite <- !app_assoc. f_equal. replace (Z.to_nat (offset h - pos)) with (Z.to_nat (offset h) - Z.to_nat pos)%nat by lia.
      f_equal. f_equal. f_equal. rewrite drop_drop. f_equal. lia.
    + assert (offset h = pos) as Eo by lia. rewrite Eo in *. rewrite IH by done. rewrite Z.sub_diag. simpl. by rewrite drop_0, app_assoc.
Qed.

Lemma toWriter_extends w p : extends reset w p -> toWriter w [] = Ok p.
Proof.
  intros (s & hs & Hs & Hh & _ & Hwf & Hf). unfold toWriter. simpl in *. rewrite Hs, Hh. change (len []) with 0 in *.
  rewrite toWriter_loop_flush; [by rewrite drop_0, Hf|lia|done].
Qed.

Lemma encodeNode_enc n : n <> nilNode -> solid n -> len (enc (nodeVal n)) < 2 ^ 64 -> encodeNode n = Ok (enc (nodeVal n)).
Proof.
  intros Hn Hs Hl. unfold encodeNode. destruct (writeNode_enc n Hn Hs Hl reset) as (w & -> & He). by apply toWriter_extends.
Qed.
