(* ===== verification/TrieStore.v ===== *)
(** What the trie stores: the root hash of a trie is a function of the map it
    holds and binds that map, and a committed trie is found again in the database. *)

From S2P Require Import Prelude Common Rlp RlpEnc RlpDec RlpRaw Trie TrieMap TrieHash TrieDB TrieEnc.
From Stdlib Require Import Strings.Byte.

(** * Reading back list and string values *)

Lemma SplitList_enc l rest : len (concat (map enc l)) < 2 ^ 64 -> SplitList (enc (VList l) ++ rest) = Ok (concat (map enc l), rest).
Proof.
  intros Hl. destruct (Split_enc_eq (VList l) rest Hl) as (k & Hs & Hk). unfold SplitList. rewrite Hs.
  replace k with List_ by (symmetry; by apply Hk). done.
Qed.

Lemma SplitString_enc b rest : len b < 2 ^ 64 -> SplitString (enc (VBytes b) ++ rest) = Ok (b, rest).
Proof.
  intros Hl. destruct (Split_enc_eq (VBytes b) rest Hl) as (k & Hs & Hk). unfold SplitString. rewrite Hs.
  destruct k; try done. by discriminate (proj1 Hk eq_refl).
Qed.

Lemma Split_list l rest : len (concat (map enc l)) < 2 ^ 64 -> Split (enc (VList l) ++ rest) = Ok (List_, concat (map enc l), rest).
Proof. intros Hl. destruct (Split_enc_eq (VList l) rest Hl) as (k & Hs & Hk). rewrite Hs. by rewrite (proj2 Hk eq_refl). Qed.

Lemma Split_string b rest : length b <> 1%nat -> len b < 2 ^ 64 -> Split (enc (VBytes b) ++ rest) = Ok (String_, b, rest).
Proof.
  intros Hb Hl. destruct (Split_enc_eq (VBytes b) rest Hl) as (k & Hs & _). simpl content in Hs. rewrite Hs.
  assert (k = String_) as ->; [|done]. unfold Split in Hs. simpl enc in Hs. rewrite enc_string_long, <- app_assoc in Hs by done.
  rewrite (raw_readKind_head String_ 0x80 0xB7 (len b) b rest) in Hs; [by simplify_eq|by left|done|done|by intros _ ?].
Qed.


(** * Stored trees *)

Section stored.
Context `{Crypto}.

(** How a child appears in its parent: itself if its encoding is short, else its hash. *)
Definition collapse (t : tree) (v : rval) : rval :=
  match t with
  | TNil | TVal _ => v
  | _ => if Z.ltb (len (enc v)) 32 then v else VBytes (Keccak256 [enc v])
  end.

(** The value whose encoding is stored for a tree. *)
Fixpoint tval (t : tree) : rval :=
  match t with
  | TNil => VBytes []
  | TVal v => VBytes v
  | TShort k t => VList [VBytes (hexToCompact k); collapse t (tval t)]
  | TFull ts => VList (map (fun t => collapse t (tval t)) ts)
  end.

Definition tref (t : tree) : rval := collapse t (tval t).
Definition tenc (t : tree) : list byte := enc (tval t).
Definition thash (t : tree) : list byte := Keccak256 [tenc t].

(** A node that is stored under its hash. *)
Definition bigb (t : tree) : bool :=
  match t with
  | TNil | TVal _ => false
  | _ => negb (Z.ltb (len (tenc t)) 32)
  end.

(** Every encoding has a length that fits into 64 bits. *)
Definition fits (t : tree) : Prop := forall s, s ∈ subtrees t -> len (tenc s) < 2 ^ 64.

(** A tree as it is decoded from its encoding. *)
Fixpoint load (h : option (list byte)) (t : tree) : node :=
  match t with
  | TNil => nilNode
  | TVal v => valueNode v
  | TShort k t => shortNode k (if bigb t then hashNode (thash t) else load None t) (mkNodeFlag h false)
  | TFull ts => fullNode (map (fun t => if bigb t then hashNode (thash t) else load None t) ts) (mkNodeFlag h false)
  end.

Definition lref (t : tree) : node := if bigb t then hashNode (thash t) else load None t.

Lemma thash_len t : length (thash t) = 32%nat.
Proof. apply sha3_keccak256_size. Qed.

Lemma tref_big t : bigb t = true -> tref t = VBytes (thash t).
Proof. unfold bigb, tref, collapse, thash, tenc. destruct t; try done; by destruct (Z.ltb _ _). Qed.

Lemma tref_small t : bigb t = false -> tref t = tval t.
Proof. unfold bigb, tref, collapse, tenc. destruct t; try done; by destruct (Z.ltb _ _). Qed.

Lemma bigb_small_len t : t <> TNil -> (forall v, t <> TVal v) -> bigb t = false -> len (tenc t) < 32.
Proof. unfold bigb. destruct t as [| | |v]; intros Hn Hv E; [done| | |by destruct (Hv v)]; by apply negb_false_iff, Z.ltb_lt in E. Qed.

Lemma canon_not_value t : canon t -> t <> TNil /\ forall v, t <> TVal v.
Proof. intros Hc. split; [intros ->; by apply canon_not_nil in Hc|]. intros v ->. by apply canon_not_val in Hc. Qed.

Lemma canon_tval t : canon t -> exists l, tval t = VList l.
Proof. destruct 1; simpl; eauto. Qed.

Lemma fits_self t : fits t -> len (tenc t) < 2 ^ 64.
Proof. intros Hf. apply Hf. destruct t; simpl; set_solver. Qed.

Lemma fits_short k t : fits (TShort k t) -> fits t.
Proof. intros Hf s Hs. apply Hf. simpl. by right. Qed.

Lemma fits_full ts t : fits (TFull ts) -> t ∈ ts -> fits t.
Proof.
  intros Hf Ht s Hs. apply Hf. simpl. right. apply list_elem_of_In, in_concat. exists (subtrees t).
  rewrite <- !list_elem_of_In. split; [by apply list_elem_of_fmap_2|done].
Qed.

Lemma len_payload l : len (enc (VList l)) < 2 ^ 64 -> len (concat (map enc l)) < 2 ^ 64.
Proof. intros Hl. eapply Z.lt_trans; [apply len_enc_list|exact Hl]. Qed.

Lemma len_content_enc v : len (content v) <= len (enc v).
Proof.
  destruct (is_list v) eqn:E.
  - destruct v; try done. simpl. pose proof (len_enc_list (concat (map enc l))). lia.
  - assert (enc v = enc_string (content v)) as -> by (by destruct v).
    destruct (enc_string_cases (content v)) as [(c & -> & _ & ->)|[-> _]]; [done|]. unfold len. rewrite length_app. lia.
Qed.

Lemma contents_fit l : len (enc (VList l)) < 2 ^ 64 -> Forall (fun v => len (content v) < 2 ^ 64) l.
Proof.
  intros Hl. apply Forall_forall. intros v Hv. pose proof (enc_part_lt v l Hv). pose proof (len_content_enc v). lia.
Qed.

Lemma part_fits v l : v ∈ l -> len (enc (VList l)) < 2 ^ 64 -> len (content v) < 2 ^ 64.
Proof. intros Hv Hl. apply contents_fit in Hl. rewrite Forall_forall in Hl. by apply Hl. Qed.

(** A child is read back. *)
Lemma decodeRef_tref dec t rest : t = TNil \/ canon t -> len (content (tref t)) < 2 ^ 64 ->
  (bigb t = false -> t <> TNil -> dec None (tenc t ++ rest) = Ok (load None t)) ->
  decodeRef dec (enc (tref t) ++ rest) = Ok (lref t, rest).
Proof.
  intros Ht Hl Hdec. unfold decodeRef, lref. destruct (bigb t) eqn:Hb.
  - rewrite tref_big in * by done. rewrite Split_string by (done || rewrite thash_len; lia). cbn [mbind outcome_bind].
    unfold len. rewrite thash_len. done.
  - destruct Ht as [->|Hc]; [by rewrite (Split_string [])|].
    rewrite tref_small in * by done. destruct (canon_tval t Hc) as [l El]. destruct (canon_not_value t Hc) as [Hn Hv].
    pose proof (bigb_small_len t Hn Hv Hb) as Hlen. unfold tenc in *. rewrite El in *. rewrite Split_list by done. cbn [mbind outcome_bind].
    destruct (Z.ltb_spec hashLen (len (enc (VList l) ++ rest) - len rest)) as [Hlt|_].
    { unfold hashLen in Hlt. rewrite len_app in Hlt. lia. }
    rewrite Hdec by done. done.
Qed.

Lemma decodeChildren_trefs dec ts rest :
  Forall (fun t => forall rest, decodeRef dec (enc (tref t) ++ rest) = Ok (lref t, rest)) ts ->
  decodeChildren dec (length ts) (concat (map enc (map tref ts)) ++ rest) = Ok (map lref ts, rest).
Proof.
  induction 1 as [|t ts Ht _ IH]; simpl; [done|]. rewrite <- app_assoc, Ht. cbn [wrapError mbind outcome_bind]. by rewrite IH.
Qed.

Lemma tval_short k t : tval (TShort k t) = VList [VBytes (hexToCompact k); tref t].
Proof. done. Qed.

Lemma tval_full ts : tval (TFull ts) = VList (map tref ts).
Proof. done. Qed.

(** The recursion into a list has less to read. *)
Lemma fuel_part (fuel : nat) v l : (length (enc (VList l)) < S fuel)%nat -> v ∈ l -> (length (enc v) < fuel)%nat.
Proof. intros Hf Hv. pose proof (enc_part_lt v l Hv) as Hlt. unfold len in Hlt. lia. Qed.

Lemma enc_nonempty v rest : Z.eqb (len (enc v ++ rest)) 0 = false.
Proof. destruct (enc_head_nonempty v) as (b & l & ->). apply Z.eqb_neq. unfold len. simpl. lia. Qed.

Lemma slot_nil_or_canon i t : (i < 16)%nat -> slot_ok i t -> t = TNil \/ canon t.
Proof. intros Hi [->|[[_ ?]|[-> _]]]; [by left|by right|lia]. Qed.

Lemma slot_16 t : slot_ok 16 t -> t = TNil \/ exists v, t = TVal v /\ v <> [].
Proof. intros [->|[[? _]|[_ ?]]]; [by left|lia|by right]. Qed.

(** The sixteen children and the value of a branch. *)
Lemma full_split ts : canon (TFull ts) -> exists cs t, ts = cs ++ [t] /\ length cs = 16%nat
  /\ Forall (fun c => c = TNil \/ canon c) cs /\ (t = TNil \/ exists v, t = TVal v /\ v <> []).
Proof.
  intros (Hlen & Hs & _)%canon_slots. destruct (@exists_last _ ts) as (cs & t & ->); [by destruct ts|].
  rewrite length_app in Hlen. simpl in Hlen. exists cs, t. split; [done|]. split; [lia|]. split.
  - apply Forall_lookup_2. intros i c Hi. pose proof (lookup_lt_Some _ _ _ Hi). apply (slot_nil_or_canon i); [lia|]. apply Hs. by rewrite lookup_app_l.
  - apply slot_16, Hs. replace 16%nat with (length cs + 0)%nat by lia. by rewrite lookup_app_r, Nat.add_sub' by lia.
Qed.

Theorem decodeNode_tenc t : canon t -> fits t -> forall fuel h rest, (length (tenc t) < fuel)%nat ->
  decodeNode_fuel fuel h (tenc t ++ rest) = Ok (load h t).
Proof.
  induction t as [|k t IH|ts IH|v] using tree_ind'; intros Hc Hf fuel h rest Hfuel.
  - by apply canon_not_nil in Hc.
  - destruct fuel as [|fuel]; [lia|]. pose proof (fits_self _ Hf) as Hl. unfold tenc in *. rewrite tval_short in *.
    cbn [decodeNode_fuel]. rewrite enc_nonempty, SplitList_enc by (by apply len_payload). rewrite CountValues_enc by (by apply contents_fit).
    change (Z.eqb (len [VBytes (hexToCompact k); tref t]) 2) with true. cbn iota.
    assert (Hk : len (hexToCompact k) < 2 ^ 64) by (apply (part_fits (VBytes (hexToCompact k)) [VBytes (hexToCompact k); tref t]); [set_solver|done]).
    assert (Ht : len (content (tref t)) < 2 ^ 64) by (apply (part_fits (tref t) [VBytes (hexToCompact k); tref t]); [set_solver|done]).
    cbn [map concat]. rewrite app_nil_r. unfold decodeShort. rewrite SplitString_enc by done. cbn [mbind outcome_bind].
    inversion Hc as [? v Hkey Hv|? ts Hne Hnib Hc'|]; subst.
    + rewrite compactToHex_hexToCompact_key, hasTerm_hexkey by auto. rewrite <- (app_nil_r (enc (tref (TVal v)))).
      rewrite (SplitString_enc v) by done. done.
    + rewrite compactToHex_hexToCompact_key, hasTerm_nibbles by auto. rewrite <- (app_nil_r (enc (tref (TFull ts)))).
      rewrite decodeRef_tref; [done|by right|done|]. intros Hb _. apply IH; [done|by eapply fits_short|].
      unfold tenc. rewrite <- (tref_small _ Hb). eapply fuel_part; [exact Hfuel|]. set_solver.
  - destruct fuel as [|fuel]; [lia|]. pose proof (fits_self _ Hf) as Hl. unfold tenc in *. rewrite tval_full in *.
    cbn [decodeNode_fuel]. rewrite enc_nonempty, SplitList_enc by (by apply len_payload). rewrite CountValues_enc by (by apply contents_fit).
    destruct (full_split ts Hc) as (cs & t & -> & Hlen & Hcs & Ht).
    replace (len (map tref (cs ++ [t]))) with 17 by (unfold len; rewrite length_map, length_app; simpl; lia). cbn [Z.eqb Pos.eqb].
    unfold decodeFull. rewrite <- Hlen, !map_app, concat_app, decodeChildren_trefs.
    + cbn [mbind outcome_bind map concat app]. rewrite !app_nil_r.
      assert (Hv : len (content (tref t)) < 2 ^ 64) by (apply (part_fits (tref t) (map tref (cs ++ [t]))); [|done]; apply list_elem_of_fmap_2; set_solver).
      rewrite <- (app_nil_r (enc (tref t))). simpl load. rewrite map_app.
      destruct Ht as [->|(v & -> & Hv0)]; [by rewrite (SplitString_enc [])|]. rewrite (SplitString_enc v) by done. cbn [mbind outcome_bind wrapError].
      destruct v; [done|]. done.
    + apply Forall_forall. intros c Hcin rest'. rewrite Forall_forall in Hcs, IH.
      assert (Hin : c ∈ cs ++ [t]) by set_solver. assert (Hin' : tref c ∈ map tref (cs ++ [t])) by (by apply list_elem_of_fmap_2).
      apply decodeRef_tref; [by apply Hcs|by eapply part_fits|]. intros Hb Hcn. destruct (Hcs c Hcin) as [?|Hcc]; [done|].
      apply IH; [done|done|by eapply fits_full|]. unfold tenc. rewrite <- (tref_small _ Hb). by eapply fuel_part.
  - by apply canon_not_val in Hc.
Qed.

(** * Nodes in memory and in the database *)

Section nodes.
(** The encodings that occur, and what the database answers. *)
Context (D : list byte -> Prop) (db : Hash -> outcome (option node)).

(** A tree that the database finds under its hash. *)
Definition stored (s : tree) : Prop :=
  canon s /\ fits s /\ D (tenc s) /\ db (BytesToHash (thash s)) = Ok (Some (load (Some (thash s)) s)).

Definition persisted (t : tree) : Prop := forall s, s ∈ subtrees t -> bigb s = true -> stored s.

(** The flag of a node: a cached hash is the hash of the tree, a clean node with a
    hash is in the database, and a node without a hash that is clean or has been
    hashed is embedded in its parent.  The root [R] has a hash whatever its size. *)
Definition flag_ok (R : option tree) (b : bool) (f : nodeFlag) (t : tree) : Prop :=
  match flag_hash f with
  | None => (b = true \/ flag_dirty f = false -> bigb t = false) /\ (R = Some t -> flag_dirty f = true)
  | Some h => h = thash t /\ (bigb t = true \/ R = Some t) /\ (flag_dirty f = false -> persisted t /\ stored t)
  end.

Definition hash_ok (R : option tree) (h : list byte) (t : tree) : Prop :=
  h = thash t /\ (bigb t = true \/ R = Some t) /\ persisted t /\ stored t.

Lemma flag_mono R f t : flag_ok R true f t -> flag_ok R false f t.
Proof. unfold flag_ok. destruct (flag_hash f); [done|]. naive_solver. Qed.

Lemma flag_new R t : flag_ok R false newFlag t.
Proof. unfold flag_ok. simpl. naive_solver. Qed.

Notation rep R := (repb db (flag_ok R) (hash_ok R)).

(** The root node of a trie that holds the tree [t]. *)
Definition rootRep (n : node) (t : tree) : Prop := rep (Some t) false n t /\ (t = TNil \/ canon t).

Lemma persisted_sub t s : persisted t -> s ∈ subtrees t -> persisted s.
Proof. intros Hp Hs u Hu. apply Hp. by eapply subtrees_trans. Qed.

(** Below the root the exception for the root is void. *)
Lemma rep_other R R' b n t : (forall r, R = Some r -> r ∉ subtrees t) -> (forall r, R' = Some r -> r ∉ subtrees t) ->
  rep R b n t -> rep R' b n t.
Proof.
  intros H1 H2 Hr. eapply repb_change; [exact Hr|..].
  - intros s b' f Hs. unfold flag_ok. destruct (flag_hash f).
    + intros (-> & [Hb|E] & Hp); [by auto|]. by destruct (H1 s E).
    + intros [Hb _]. split; [done|]. intros E. by destruct (H2 s E).
  - intros s h Hs (-> & [Hb|E] & Hp); [by split; auto|]. by destruct (H1 s E).
  - done.
Qed.

Lemma Forall2_rep_other R R' b ns ts : (forall r t, R = Some r -> t ∈ ts -> r ∉ subtrees t) -> (forall r t, R' = Some r -> t ∈ ts -> r ∉ subtrees t) ->
  Forall2 (rep R b) ns ts -> Forall2 (rep R' b) ns ts.
Proof.
  intros H1 H2 Hr. induction Hr as [|n t ns ts Hr _ IH]; constructor.
  - eapply rep_other; [| |exact Hr]; intros r E; [apply (H1 r t E)|apply (H2 r t E)]; set_solver.
  - apply IH; intros r t' E Ht; [apply (H1 r t' E)|apply (H2 r t' E)]; set_solver.
Qed.

(** A loaded root, with its flag forgotten. *)
Lemma root_forget b n t : loaded n = true -> rep (Some t) b n t -> rep None false (reflag newFlag n) t /\ exists f, n = reflag f (reflag newFlag n).
Proof.
  intros Hl Hr. inversion Hr as [|? v|? k n1 t1 f Hr1 Hf|? ns ts f Hr1 Hf|]; subst; try done; simpl; (split; [|by eexists]).
  - constructor; [|apply flag_new]. eapply rep_other; [| |by eapply repb_weaken; [apply flag_mono|exact Hr1]]; [|done].
    intros r [= <-]. apply short_not_below.
  - constructor; [|apply flag_new]. eapply Forall2_rep_other; [| |by eapply Forall2_weaken; [apply flag_mono|exact Hr1]]; [|done].
    intros r t [= <-]. apply full_not_below.
Qed.

Lemma root_new n t : newRoot n -> rep None false n t -> rep (Some t) false n t.
Proof.
  intros Hn Hr. inversion Hr as [|? v|? k n1 t1 f Hr1 Hf|? ns ts f Hr1 Hf|]; subst; try done; simpl in Hn; try constructor.
  - subst f. eapply rep_other; [| |exact Hr1]; [done|]. intros r [= <-]. apply short_not_below.
  - subst f. apply flag_new.
  - subst f. eapply Forall2_rep_other; [| |exact Hr1]; [done|]. intros r t [= <-]. apply full_not_below.
  - subst f. apply flag_new.
Qed.

(** An update of a loaded root. *)
Lemma root_insert_loaded fuel b n t key v : loaded n = true -> rep (Some t) b n t -> canon t -> hexkey key -> v <> [] ->
  (2 * length key + 1 <= fuel)%nat ->
  exists d n' t', insert db fuel n key (valueNode v) = Ok (d, n') /\ rootRep (if d then n' else n) t' /\ n' = (if d then n' else n)
    /\ forall k, hexkey k -> tlookup t' k = if decide (k = key) then Some v else tlookup t k.
Proof.
  intros Hl Hr Hc Hk Hv Hf. destruct (root_forget _ _ _ Hl Hr) as (H0 & f & En). set (n0 := reflag newFlag n) in *.
  assert (Hl0 : loaded n0 = true) by (unfold n0; by destruct n).
  destruct (insert_rep db (flag_ok None) (hash_ok None) (flag_mono None) (flag_new None) v fuel Hv n0 t key H0) as (d & n' & t' & E & Hr' & Hl' & Hne & Hd & _ & Hlk).
  { right. by right. } { by right. } { by rewrite need_loaded. }
  pose proof (insert_reflag db fuel f n0 key (valueNode v) Hl0) as E'. rewrite <- En, E in E'.
  exists d, (if d then n' else n), t'. split; [by destruct d|]. split; [|split; [by destruct d|]].
  - destruct d.
    + split; [apply root_new; [|done]; eapply insert_newRoot; [by apply hexkey_ne|exact E]|]. right. by destruct (legal_key _ _ Hk Hl').
    + rewrite (Hd eq_refl). split; [|by right]. by eapply repb_weaken; [apply flag_mono|].
  - intros k Hk'. apply Hlk. by right.
Qed.

Lemma root_insert fuel n t key v : rootRep n t -> hexkey key -> v <> [] -> (2 * length key + 2 <= fuel)%nat ->
  exists d n' t', insert db fuel n key (valueNode v) = Ok (d, n') /\ rootRep n' t'
    /\ forall k, hexkey k -> tlookup t' k = if decide (k = key) then Some v else tlookup t k.
Proof.
  intros [Hr Hc] Hk Hv Hf. destruct (loaded n) eqn:Hl.
  - destruct Hc as [->|Hc]; [by apply rep_nil_inv in Hr as ->|].
    destruct (root_insert_loaded fuel _ n t key v Hl Hr Hc Hk Hv) as (d & n' & t' & E & Hr' & En & Hlk); [lia|]. exists d, n', t'. rewrite En. rewrite En in E. auto.
  - inversion Hr as [|? v'| | |? h n1 t1 Hdb Hld Hh Hr1]; subst; try done.
    + destruct fuel as [|fuel]; [lia|]. destruct key as [|x key]; [by apply hexkey_ne in Hk|]. cbn [insert].
      exists true, (shortNode (x :: key) (valueNode v) newFlag), (TShort (x :: key) (TVal v)). split; [done|]. split.
      * split; [|right; by constructor]. constructor; [constructor|apply flag_new].
      * intros k Hk'. by rewrite tlookup_leaf.
    + destruct Hc as [?|Hc]; [done|]. by apply canon_not_val in Hc.
    + destruct Hc as [->|Hc]; [by apply rep_nil_inv in Hr1 as ->|]. destruct fuel as [|fuel]; [lia|].
      destruct key as [|x key]; [by apply hexkey_ne in Hk|]. cbn [insert]. unfold resolveHash. rewrite Hdb.
      destruct (root_insert_loaded fuel _ n1 t (x :: key) v Hld Hr1 Hc Hk Hv) as (d & n' & t' & -> & Hr' & En & Hlk); [lia|].
      exists d, (if d then n' else n1), t'. by destruct d.
Qed.

Lemma root_delete_loaded fuel b n t key : loaded n = true -> rep (Some t) b n t -> canon t -> hexkey key ->
  (2 * length key + 1 <= fuel)%nat ->
  exists d n' t', delete db fuel n key = Ok (d, n') /\ rootRep (if d then n' else n) t' /\ n' = (if d then n' else n)
    /\ forall k, hexkey k -> tlookup t' k = if decide (k = key) then None else tlookup t k.
Proof.
  intros Hl Hr Hc Hk Hf. destruct (root_forget _ _ _ Hl Hr) as (H0 & f & En). set (n0 := reflag newFlag n) in *.
  assert (Hl0 : loaded n0 = true) by (unfold n0; by destruct n).
  destruct (delete_rep db (flag_ok None) (hash_ok None) (flag_mono None) (flag_new None) fuel n0 t key H0) as (d & n' & t' & E & Hr' & Hl' & Hd & _ & _ & Hlk).
  { right. by right. } { by right. } { by rewrite need_loaded. }
  pose proof (delete_reflag db fuel f n0 key Hl0) as E'. rewrite <- En, E in E'.
  exists d, (if d then n' else n), t'. split; [by destruct d|]. split; [|split; [by destruct d|]].
  - destruct d.
    + split; [apply root_new; [|done]; eapply delete_newRoot; exact E|]. by apply (legal_key key).
    + rewrite (Hd eq_refl). split; [|by right]. by eapply repb_weaken; [apply flag_mono|].
  - intros k Hk'. apply Hlk. by right.
Qed.

Lemma root_delete fuel n t key : rootRep n t -> hexkey key -> (2 * length key + 2 <= fuel)%nat ->
  exists d n' t', delete db fuel n key = Ok (d, n') /\ rootRep n' t'
    /\ forall k, hexkey k -> tlookup t' k = if decide (k = key) then None else tlookup t k.
Proof.
  intros [Hr Hc] Hk Hf. destruct (loaded n) eqn:Hl.
  - destruct Hc as [->|Hc]; [by apply rep_nil_inv in Hr as ->|].
    destruct (root_delete_loaded fuel _ n t key Hl Hr Hc Hk) as (d & n' & t' & E & Hr' & En & Hlk); [lia|]. exists d, n', t'. rewrite En. rewrite En in E. auto.
  - inversion Hr as [|? v'| | |? h n1 t1 Hdb Hld Hh Hr1]; subst; try done.
    + destruct fuel as [|fuel]; [lia|]. exists false, nilNode, TNil. split; [done|]. split; [by split|]. intros k _. by case_decide.
    + destruct Hc as [?|Hc]; [done|]. by apply canon_not_val in Hc.
    + destruct Hc as [->|Hc]; [by apply rep_nil_inv in Hr1 as ->|]. destruct fuel as [|fuel]; [lia|].
      cbn [delete]. unfold resolveHash. rewrite Hdb.
      destruct (root_delete_loaded fuel _ n1 t key Hld Hr1 Hc Hk) as (d & n' & t' & -> & Hr' & En & Hlk); [lia|].
      exists d, (if d then n' else n1), t'. by destruct d.
Qed.

Lemma root_get fuel n t key : rootRep n t -> hexkey key -> (2 * length key + 2 <= fuel)%nat ->
  exists n' d, tryGet db fuel n key 0 = Ok (tlookup t key, n', d) /\ rootRep n' t.
Proof.
  intros [Hr Hc] Hk Hf. destruct (tryGet_rep db (flag_ok (Some t)) (hash_ok (Some t)) (flag_mono (Some t)) fuel false n t key 0 Hr) as (n' & d & E & Hr').
  - rewrite drop_0. destruct Hc as [->|Hc]; [by left|]. right. by right.
  - rewrite drop_0. unfold need. destruct (is_hashNode n); lia.
  - lia.
  - rewrite drop_0 in E. exists n', d. by split.
Qed.

(** A stored tree, as the database answers it, with or without its hash. *)
Lemma load_rep R t : canon t -> persisted t -> forall h,
  match h with Some h => h = thash t /\ (bigb t = true \/ R = Some t) /\ stored t | None => bigb t = false /\ R <> Some t end ->
  (forall r, R = Some r -> forall c, c ∈ subtrees t -> c <> t -> c <> r) ->
  rep R true (load h t) t.
Proof.
  induction t as [|k t IH|ts IH|v] using tree_ind'; intros Hc Hp h Hh HR.
  - by apply canon_not_nil in Hc.
  - assert (Hpt : persisted t) by (eapply persisted_sub; [done|]; apply subtrees_short, subtrees_self).
    assert (Hbelow : forall c, c ∈ subtrees t -> c <> TShort k t) by (intros c Hc' ->; by apply (short_not_below k t)).
    assert (HRt : forall r, R = Some r -> forall c, c ∈ subtrees t -> c <> r).
    { intros r E c Hc'. apply (HR r E); [by apply subtrees_short|by apply Hbelow]. }
    simpl. constructor.
    + inversion Hc as [? v Hk Hv|? ts Hne Hn Hc'|]; subst; [constructor|]. destruct (bigb (TFull ts)) eqn:Hb.
      * pose proof (Hpt (TFull ts) (subtrees_self _) Hb) as Hst. pose proof Hst as (_ & _ & _ & H4).
        econstructor; [exact H4|done|by split_and!; [|left| |]|]. apply IH; try done; [by split_and!; [|left|]|naive_solver].
      * eapply repb_mono; [apply flag_mono|done|]. apply IH; try done; [|naive_solver]. split; [done|]. intros E. by eapply (HRt _ E); [apply subtrees_self|].
    + unfold flag_ok. simpl. destruct h; naive_solver.
  - assert (Hpt : forall t, t ∈ ts -> persisted t) by (intros t Ht; eapply persisted_sub; [done|]; eapply subtrees_full; [done|apply subtrees_self]).
    assert (HRt : forall t, t ∈ ts -> forall r, R = Some r -> forall c, c ∈ subtrees t -> c <> r).
    { intros t Ht r E c Hc'. apply (HR r E); [by eapply subtrees_full|]. intros ->. by apply (full_not_below ts t). }
    simpl. constructor; [|unfold flag_ok; simpl; destruct h; naive_solver].
    destruct (full_split ts Hc) as (cs & tv & -> & Hlen & Hcs & Htv). rewrite map_app. apply Forall2_app.
    + assert (Hin : forall c, c ∈ cs -> c ∈ cs ++ [tv]) by set_solver. rewrite Forall_forall in IH, Hcs.
      assert (Hall : forall c, c ∈ cs -> rep R true (if bigb c then hashNode (thash c) else load None c) c).
      { intros c Hci. destruct (Hcs c Hci) as [->|Hcc]; [constructor|]. destruct (bigb c) eqn:Hb.
        - pose proof (Hpt c (Hin c Hci) c (subtrees_self _) Hb) as Hst. pose proof Hst as (H1 & _ & _ & H4).
          econstructor; [exact H4|by destruct H1|split; [done|]; split; [by left|]; split; [by apply Hpt, Hin|done]|]. apply IH; [by apply Hin|done|by apply Hpt, Hin|by split_and!; [|left|]|].
          intros r E c' Hc' _. by apply (HRt c (Hin c Hci) r E).
        - apply IH; [by apply Hin|done|by apply Hpt, Hin|split; [done|]; intros E; by eapply (HRt c (Hin c Hci) _ E); [apply subtrees_self|]|].
          intros r E c' Hc' _. by apply (HRt c (Hin c Hci) r E). }
      clear -Hall. induction cs as [|c cs IHc]; constructor; [apply Hall; set_solver|]. apply IHc. intros c' Hc'. apply Hall. set_solver.
    + constructor; [|constructor]. destruct Htv as [->|(v & -> & _)]; constructor.
  - by apply canon_not_val in Hc.
Qed.

(** ** Hashing *)

(** What [hash] returns for a child: how it appears in its parent, and the child
    with the hashes cached. *)
Definition hashed (t : tree) (o : outcome (node * node)) : Prop :=
  exists hn cn, o = Ok (hn, cn) /\ nodeVal hn = tref t /\ hn <> nilNode /\ solid hn /\ rep None true cn t.

Lemma rep_value_inv R b n v : rep R b n (TVal v) -> n = valueNode v.
Proof. inversion 1 as [| | | |? h n' t Hdb Hl Hh Hr]; [done|]. subst. inversion Hr; subst; done. Qed.

Lemma hashNode_hashed b h t : rep None b (hashNode h) t -> hashed t (Ok (hashNode h, hashNode h)).
Proof.
  intros Hr. eexists _, _. split; [done|]. inversion Hr as [| | | |? ? n Hn Hdb Hl Hh Hr1]; subst. pose proof Hh as (-> & [Hb|?] & _); [|done].
  rewrite tref_big by done. split_and!; try done. by econstructor.
Qed.

(** A short node, collapsed. *)
Lemma collapse_short b k n t f : rep None b n t -> canon (TShort k t) -> fits (TShort k t) ->
  (loaded n = true -> hashed t (hash n false)) ->
  exists hv cv, hashShortNodeChildren hash k n f = Ok (shortNode (hexToCompact k) hv f, (k, cv, f))
    /\ encodeNode (shortNode (hexToCompact k) hv f) = Ok (tenc (TShort k t))
    /\ nodeVal (shortNode (hexToCompact k) hv f) = tval (TShort k t) /\ solid (shortNode (hexToCompact k) hv f) /\ rep None true cv t.
Proof.
  intros Hr Hc Hf Hh.
  assert (Hch : hashed t (match n with fullNode _ _ | shortNode _ _ _ => hash n false | _ => Ok (n, n) end)).
  { destruct (loaded n) eqn:Hl; [destruct n; try done; by apply Hh|]. inversion Hc as [? v Hk Hv|? ts Hne Hn Hc'|]; subst.
    - apply rep_value_inv in Hr as ->. eexists _, _. split; [done|]. split_and!; try done. constructor.
    - inversion Hr; subst; try done. by eapply hashNode_hashed. }
  destruct Hch as (hv & cv & E & Hval & Hnn & Hs & Hrv). exists hv, cv. unfold hashShortNodeChildren. rewrite E. cbn [mbind outcome_bind].
  assert (Hv : nodeVal (shortNode (hexToCompact k) hv f) = tval (TShort k t)) by (simpl; by rewrite Hval). split_and!; try done.
  rewrite encodeNode_enc; [by rewrite Hv|done|by split|]. rewrite Hv. by apply fits_self.
Qed.

Lemma hashChildren_spec nv ncs ts : Forall2 (fun n t => n = nilNode /\ t = TNil \/ n <> nilNode /\ hashed t (hash n false)) ncs ts ->
  forall i, (i + length ts = 16)%nat ->
  exists hs cns, hashChildren hash i (ncs ++ [nv]) = Ok (hs ++ [nv], cns ++ [nv])
    /\ map nodeVal hs = map tref ts /\ Forall solid hs /\ Forall2 (rep None true) cns ts.
Proof.
  induction 1 as [|n t ncs ts Hn _ IH]; intros i Hi; simpl in Hi.
  - exists [], []. cbn [app hashChildren]. replace (Nat.ltb i 16) with false by (symmetry; apply Nat.ltb_ge; lia). by split_and!.
  - destruct (IH (S i)) as (hs & cns & E & Hval & Hs & Hr); [lia|]. cbn [app hashChildren].
    replace (Nat.ltb i 16) with true by (symmetry; apply Nat.ltb_lt; lia). rewrite E.
    destruct Hn as [[-> ->]|[Hnn (hn & cn & En & Hv & Hnh & Hsn & Hrn)]].
    + exists (valueNode [] :: hs), (nilNode :: cns). cbn [mbind outcome_bind]. split; [done|]. split; [simpl; by rewrite Hval|].
      split; [by constructor|]. constructor; [constructor|done].
    + exists (hn :: hs), (cn :: cns).
      replace (match n with nilNode => Ok (valueNode [], nilNode) | _ => hash n false end) with (hash n false) by (by destruct n).
      rewrite En. cbn [mbind outcome_bind]. split; [done|]. split; [simpl; by rewrite Hv, Hval|]. split; by constructor.
Qed.

(** A full node, collapsed. *)
Lemma collapse_full b ns ts f : Forall2 (rep None b) ns ts -> canon (TFull ts) -> fits (TFull ts) ->
  (forall n t, t ∈ ts -> canon t -> rep None b n t -> hashed t (hash n false)) ->
  exists hs cs, hashFullNodeChildren hash ns f = Ok (fullNode hs f, (cs, f))
    /\ encodeNode (fullNode hs f) = Ok (tenc (TFull ts))
    /\ nodeVal (fullNode hs f) = tval (TFull ts) /\ solid (fullNode hs f) /\ Forall2 (rep None true) cs ts.
Proof.
  intros Hr Hc Hf Hh. destruct (full_split ts Hc) as (tcs & tv & -> & Hlen & Hcs & Htv).
  apply Forall2_app_inv_r in Hr as (ncs & nv' & Hr1 & Hr2 & ->). apply Forall2_cons_inv_r in Hr2 as (nv & ? & Hrv & Hnil & ->).
  apply Forall2_nil_inv_r in Hnil as ->.
  assert (Hnv : nodeVal nv = tref tv /\ solid nv /\ rep None true nv tv).
  { destruct Htv as [->|(v & -> & _)]; [apply rep_nil_inv in Hrv as ->|apply rep_value_inv in Hrv as ->]; split_and!; try done; constructor. }
  destruct Hnv as (Hvv & Hsv & Hrv').
  destruct (hashChildren_spec nv ncs tcs) with (i := 0%nat) as (hs & cns & E & Hval & Hs & Hrc); [|done|].
  { apply Forall2_same_length_lookup_2; [by eapply Forall2_length|]. intros i n t Hn Ht.
    pose proof (Forall2_lookup_lr _ _ _ _ _ _ Hr1 Hn Ht) as Hrn. rewrite Forall_lookup in Hcs.
    destruct (Hcs i t Ht) as [->|Hct]; [left; split; [by eapply rep_nil_inv|done]|right]. split.
    - intros ->. apply rep_nilNode_inv in Hrn as ->. by apply canon_not_nil in Hct.
    - apply Hh; [|done|done]. apply elem_of_app. left. by eapply list_elem_of_lookup_2. }
  unfold hashFullNodeChildren. rewrite E. cbn [mbind outcome_bind]. exists (hs ++ [nv]), (cns ++ [nv]).
  assert (Hv : nodeVal (fullNode (hs ++ [nv]) f) = tval (TFull (tcs ++ [tv]))).
  { rewrite tval_full. simpl. f_equal. rewrite !map_app, Hval. simpl. by rewrite Hvv. }
  assert (Hsol : solid (fullNode (hs ++ [nv]) f)) by (apply solid_full, Forall_app; split; [done|by constructor]).
  split_and!; try done.
  - rewrite encodeNode_enc; [by rewrite Hv|done|done|]. rewrite Hv. by apply fits_self.
  - apply Forall2_app; [done|by repeat constructor].
Qed.

(** A collapsed node becomes its hash, or stays when it is small. *)
Lemma nodeToHash_spec n t force : loaded n = true -> (t <> TNil /\ forall v, t <> TVal v) -> encodeNode n = Ok (tenc t) ->
  nodeToHash n force = Ok (if negb (bigb t) && negb force then n else hashNode (thash t)).
Proof.
  intros Hl [Hn Hv] E. unfold nodeToHash. rewrite E. unfold bigb. destruct t as [| | |v]; [done| | |by destruct (Hv v)]; by destruct (Z.ltb _ _).
Qed.

(** The flag after hashing a node that is not the root. *)
Lemma hashFlag_ok b f t n : flag_hash f = None -> loaded n = true -> flag_ok None b f t ->
  flag_ok None true (hashFlag (if negb (bigb t) && negb false then n else hashNode (thash t)) f) t.
Proof.
  intros Hn Hl Hf. unfold flag_ok in *. rewrite Hn in Hf. destruct Hf as [Hf _]. destruct (bigb t) eqn:Hb; simpl.
  - split; [done|]. split; [by left|]. intros Hd. discriminate (Hf (or_intror Hd)).
  - destruct n; done.
Qed.

Lemma hashed_cached b n t h : rep None b n t -> (exists f, node_flags n = Some f /\ flag_hash f = Some h) -> hashed t (Ok (hashNode h, n)).
Proof.
  intros Hr (f & Ef & Eh). eexists _, _. split; [done|].
  assert (Hok : flag_ok None b f t /\ rep None true n t).
  { inversion Hr as [|? v|? k n1 t1 f' Hr1 Hf|? ns ts f' Hr1 Hf|]; simplify_eq/=.
    - split; [done|]. constructor; [|unfold flag_ok in *; by rewrite Eh in *]. unfold has_hash in *. rewrite Eh, orb_true_r in *. done.
    - split; [done|]. constructor; [|unfold flag_ok in *; by rewrite Eh in *]. unfold has_hash in *. rewrite Eh, orb_true_r in *. done. }
  destruct Hok as [Hok Hrt]. unfold flag_ok in Hok. rewrite Eh in Hok. destruct Hok as (-> & [Hb|?] & _); [|done].
  rewrite tref_big by done. by split_and!.
Qed.

Lemma hash_rep t : forall b n, rep None b n t -> canon t -> fits t -> hashed t (hash n false).
Proof.
  induction t as [|k t IH|ts IH|v] using tree_ind'; intros b n Hr Hc Hf.
  - by apply canon_not_nil in Hc.
  - inversion Hr as [| |? ? n1 ? f Hr1 Hfl| |? h]; subst; [|by eapply hashNode_hashed]. cbn [hash].
    destruct (flag_hash f) as [h|] eqn:Eh; [eapply hashed_cached; [done|]; by exists f|].
    destruct (collapse_short _ k n1 t f Hr1 Hc Hf) as (hv & cv & -> & Een & Hval & Hs & Hrc).
    { intros Hl. inversion Hc; subst; [by apply rep_value_inv in Hr1 as ->|]. eapply IH; [done|done|by eapply fits_short]. }
    cbn [mbind outcome_bind]. rewrite (nodeToHash_spec _ (TShort k t)) by done. cbn [mbind outcome_bind].
    eexists _, _. split; [done|]. split_and!.
    + destruct (bigb (TShort k t)) eqn:Hb; cbn [negb andb]; [by rewrite tref_big|by rewrite tref_small].
    + by destruct (bigb (TShort k t)).
    + by destruct (bigb (TShort k t)).
    + constructor; [done|by eapply hashFlag_ok].
  - inversion Hr as [| | |? ns ? f Hr1 Hfl|? h]; subst; [|by eapply hashNode_hashed]. cbn [hash].
    destruct (flag_hash f) as [h|] eqn:Eh; [eapply hashed_cached; [done|]; by exists f|].
    destruct (collapse_full _ ns ts f Hr1 Hc Hf) as (hs & cs & -> & Een & Hval & Hs & Hrc).
    { intros n t Ht Hct Hrt. rewrite Forall_forall in IH. eapply IH; [done|done|done|by eapply fits_full]. }
    cbn [mbind outcome_bind]. rewrite (nodeToHash_spec _ (TFull ts)) by done. cbn [mbind outcome_bind].
    eexists _, _. split; [done|]. split_and!.
    + destruct (bigb (TFull ts)) eqn:Hb; cbn [negb andb]; [by rewrite tref_big|by rewrite tref_small].
    + by destruct (bigb (TFull ts)).
    + by destruct (bigb (TFull ts)).
    + constructor; [done|by eapply hashFlag_ok].
  - by apply canon_not_val in Hc.
Qed.

(** The root is always hashed. *)
Lemma root_hash n t : rep (Some t) false n t -> canon t -> fits t ->
  exists cn, hash n true = Ok (hashNode (thash t), cn) /\ rep (Some t) true cn t
    /\ (cn = hashNode (thash t) \/ exists f h, node_flags cn = Some f /\ flag_hash f = Some h).
Proof.
  intros Hr Hc Hf. inversion Hr as [|? v|? k n1 t1 f Hr1 Hfl|? ns ts f Hr1 Hfl|? h n1 ? Hdb Hl Hh Hr1]; subst.
  - by apply canon_not_nil in Hc.
  - by apply canon_not_val in Hc.
  - cbn [hash]. pose proof (short_not_below k t1) as Hno.
    assert (Hn1 : rep None (false || has_hash f) n1 t1) by (eapply rep_other; [| |exact Hr1]; [by intros r [= <-]|done]).
    unfold flag_ok in Hfl. unfold has_hash in *. destruct (flag_hash f) as [h|] eqn:Eh.
    { destruct Hfl as (-> & _ & Hp). eexists. split; [done|]. split; [|right; by eexists f, _].
      constructor; unfold has_hash, flag_ok; rewrite ?Eh; [by rewrite orb_true_r|]. split; [done|]. by split; [right|]. }
    destruct (collapse_short _ k n1 t1 f Hn1 Hc Hf) as (hv & cv & -> & Een & Hval & Hs & Hrc).
    { intros Hl. inversion Hc; subst; [by apply rep_value_inv in Hr1 as ->|]. eapply hash_rep; [done|done|by eapply fits_short]. }
    cbn [mbind outcome_bind]. rewrite (nodeToHash_spec _ (TShort k t1)), andb_false_r by done. cbn [mbind outcome_bind].
    eexists. split; [done|]. split; [|right; by eexists _, _]. constructor.
    + eapply rep_other; [| |exact Hrc]; [done|]. by intros r [= <-].
    + unfold flag_ok. simpl. destruct Hfl as [_ Hd]. split; [done|]. split; [by right|]. rewrite Hd by done. done.
  - cbn [hash]. assert (Hno : forall t, t ∈ ts -> TFull ts ∉ subtrees t) by (intros; by apply full_not_below).
    assert (Hn1 : Forall2 (rep None (false || has_hash f)) ns ts) by (eapply Forall2_rep_other; [| |exact Hr1]; [intros r t [= <-]; apply Hno|done]).
    unfold flag_ok in Hfl. unfold has_hash in *. destruct (flag_hash f) as [h|] eqn:Eh.
    { destruct Hfl as (-> & _ & Hp). eexists. split; [done|]. split; [|right; by eexists f, _].
      constructor; unfold has_hash, flag_ok; rewrite ?Eh; [by rewrite orb_true_r|]. split; [done|]. by split; [right|]. }
    destruct (collapse_full _ ns ts f Hn1 Hc Hf) as (hs & cs & -> & Een & Hval & Hs & Hrc).
    { intros n t Ht Hct Hrt. eapply hash_rep; [done|done|by eapply fits_full]. }
    cbn [mbind outcome_bind]. rewrite (nodeToHash_spec _ (TFull ts)), andb_false_r by done. cbn [mbind outcome_bind].
    eexists. split; [done|]. split; [|right; by eexists _, _]. constructor.
    + eapply Forall2_rep_other; [| |exact Hrc]; [done|]. intros r t [= <-]. apply Hno.
    + unfold flag_ok. simpl. destruct Hfl as [_ Hd]. split; [done|]. split; [by right|]. rewrite Hd by done. done.
  - pose proof Hh as (-> & _). eexists. split; [done|]. split; [|by left]. by econstructor.
Qed.
End nodes.
End stored.
