(* ===== verification/TrieCommit.v ===== *)
(** Committing a trie: the nodes that the committer sends to the database are
    exactly those that are missing there, and afterwards the whole trie is found
    under its root hash. *)

From S2P Require Import Prelude Common Rlp RlpEnc Trie TrieMap TrieHash TrieDB TrieEnc TrieStore.
From Stdlib Require Import Strings.Byte.

(** * Raw nodes *)

Section raw_ind.
Variable P : raw -> Prop.
Hypotheses (Hnil : P rawNil) (Hshort : forall k n, P n -> P (rawShortNode k n))
  (Hfull : forall ns, Forall P ns -> P (rawFullNode ns)) (Hhash : forall h, P (rawHash h)) (Hval : forall v, P (rawValue v))
  (Hblob : forall b, P (rawNode b)).

Fixpoint raw_ind' (n : raw) : P n :=
  match n with
  | rawNil => Hnil
  | rawShortNode k n => Hshort k n (raw_ind' n)
  | rawFullNode ns => Hfull ns ((fix go ns := match ns return Forall P ns with
                                              | [] => List.Forall_nil P
                                              | n :: ns => List.Forall_cons P n ns (raw_ind' n) (go ns)
                                              end) ns)
  | rawHash h => Hhash h
  | rawValue v => Hval v
  | rawNode b => Hblob b
  end.
End raw_ind.

Lemma mapO_Forall2 {A B} (f : A -> outcome B) l l' : mapO f l = Ok l' <-> Forall2 (fun a b => f a = Ok b) l l'.
Proof.
  split.
  - revert l'. induction l as [|a l IH]; intros l' E; simpl in E; [by simplify_eq|].
    destruct (f a) eqn:Ea; try done. cbn [mbind outcome_bind] in E. destruct (mapO f l) eqn:El; try done. cbn [mbind outcome_bind] in E.
    simplify_eq. constructor; [done|by apply IH].
  - induction 1 as [|a b l l' E _ IH]; simpl; [done|]. rewrite E. cbn [mbind outcome_bind]. by rewrite IH.
Qed.

Lemma simplify_not_nil n : simplifyNode n <> Ok rawNil.
Proof.
  destruct n; cbn [simplifyNode]; try done; [destruct (simplifyNode n)|destruct (mapO _ _)]; done.
Qed.

(** A node and its simplified form are written alike. *)
Lemma writeRaw_simplify n : forall r w, simplifyNode n = Ok r -> writeRaw r w = writeNode n w.
Proof.
  induction n as [|k n f IH|ns f IH|h|v] using node_ind'; intros r w E; cbn [simplifyNode] in E; try (by simplify_eq).
  - destruct (simplifyNode n) as [r'| |] eqn:Er; try done. cbn [mbind outcome_bind] in E. simplify_eq. cbn [writeRaw writeNode].
    unfold in_list. simpl. by rewrite (IH r').
  - destruct (mapO _ ns) as [rs| |] eqn:Er; try done. cbn [mbind outcome_bind] in E. simplify_eq. cbn [writeRaw writeNode].
    unfold in_list. simpl. apply mapO_Forall2 in Er.
    assert (Hw : forall w, write_all (fun c w => match c with rawNil => Ok (encodeString w []) | _ => writeRaw c w end) rs w
      = write_all (fun c w => match c with nilNode => Ok (encodeString w []) | _ => writeNode c w end) ns w).
    { clear w. induction Er as [|n r ns rs Hn _ IHl]; intros w; [done|]. inversion IH as [|? ? IHn IHns]; subst. cbn [write_all].
      assert (E : match r with rawNil => Ok (encodeString w []) | _ => writeRaw r w end
        = match n with nilNode => Ok (encodeString w []) | _ => writeNode n w end).
      { destruct n as [| | | |]; [by simplify_eq|..]; rewrite <- (IHn r w Hn);
          (destruct r; [by apply simplify_not_nil in Hn|done..]). }
      rewrite E. destruct (match n with nilNode => Ok (encodeString w []) | _ => writeNode n w end) as [w'| |]; [|done..].
      cbn [mbind outcome_bind]. by apply IHl. }
    by rewrite Hw.
Qed.

Lemma simplify_nonnil n r : simplifyNode n = Ok r -> n <> nilNode.
Proof. by intros E ->. Qed.

(** The size of a node that is sent is defined. *)
Lemma estimateSize_simplify n : forall r, simplifyNode n = Ok r -> exists s, estimateSize n = Ok s.
Proof.
  induction n as [|k n f IH|ns f IH|h|v] using node_ind'; intros r E; cbn [simplifyNode estimateSize] in *; try (by eauto); try done.
  - destruct (simplifyNode n) as [r'| |] eqn:Er; try done. destruct (IH r' eq_refl) as [s ->]. eexists. done.
  - destruct (mapO _ ns) as [rs| |] eqn:Er; try done. apply mapO_Forall2 in Er. clear E. generalize 3. generalize 0%nat.
    induction Er as [|n r0 ns rs Hn _ IHl]; intros i z; [by eexists|]. inversion IH as [|? ? IHn IHns]; subst. cbn [estimateChildren].
    destruct (Nat.ltb i 16); [|by eexists].
    assert (exists d, match n with nilNode => Ok 1 | _ => estimateSize n end = Ok d) as [d ->].
    { destruct n; [by eexists|by eapply IHn..]. }
    cbn [mbind outcome_bind]. by apply IHl.
Qed.

Section commit.
Context `{Crypto} (D : list byte -> Prop) (db : Hash -> outcome (option node)).
Notation rep R := (repb db (flag_ok D db R) (hash_ok D db R)).

(** The entry that is kept for a tree. *)
Fixpoint rawOf (t : tree) : raw :=
  match t with
  | TNil => rawNil
  | TVal v => rawValue v
  | TShort k t => rawShortNode (hexToCompact k) (if bigb t then rawHash (thash t) else rawOf t)
  | TFull ts => rawFullNode (map (fun t => if bigb t then rawHash (thash t) else rawOf t) ts)
  end.

Definition rref (t : tree) : raw := if bigb t then rawHash (thash t) else rawOf t.

(** An entry expands to what is decoded from the encoding of the tree. *)
Lemma expand_rawOf t : forall h, t <> TNil -> (forall s, s ∈ subtrees t -> s <> TNil -> (exists v, s = TVal v) \/ canon s) ->
  expandNode h (rawOf t) = Ok (load h t).
Proof.
  induction t as [|k t IH|ts IH|v] using tree_ind'; intros h Hn Hsub; [done|..|done].
  - cbn [rawOf expandNode load].
    assert (Hc : canon (TShort k t)) by (destruct (Hsub (TShort k t) (subtrees_self _) Hn) as [[v ?]|?]; done).
    assert (Hkey : compactToHex (hexToCompact k) = k) by (inversion Hc; subst; apply compactToHex_hexToCompact_key; auto).
    rewrite Hkey. destruct (bigb t) eqn:Hb; [done|]. rewrite IH; [done|by inversion Hc|]. intros s Hs. apply Hsub. by apply subtrees_short.
  - cbn [rawOf expandNode load].
    replace (mapO _ _) with (Ok (map (fun t => if bigb t then hashNode (thash t) else load None t) ts)); [done|]. symmetry. apply mapO_Forall2.
    assert (Hin : forall t s, t ∈ ts -> s ∈ subtrees t -> s <> TNil -> (exists v, s = TVal v) \/ canon s) by (intros t s Ht Hs; apply Hsub; by eapply subtrees_full).
    clear Hsub Hn. induction ts as [|t ts IHl]; [constructor|]. inversion IH as [|? ? IHt IHts]; subst. constructor.
    + destruct (bigb t) eqn:Hb; [done|]. destruct (decide (t = TNil)) as [->|Hn]; [done|].
      assert (Ht : expandNode None (rawOf t) = Ok (load None t)) by (apply IHt; [done|]; intros s; apply Hin; set_solver).
      destruct t; [done|exact Ht..].
    + apply IHl; [done|]. intros t' s Ht'. apply Hin. by right.
Qed.

Lemma canon_parts t : canon t -> forall s, s ∈ subtrees t -> s <> TNil -> (exists v, s = TVal v) \/ canon s.
Proof. intros Hc s Hs Hn. destruct (canon_subtree t s Hc Hs) as [?|?]; done. Qed.

Lemma expand_canon t h : canon t -> expandNode h (rawOf t) = Ok (load h t).
Proof. intros Hc. apply expand_rawOf; [by apply canon_not_value|by apply canon_parts]. Qed.

(** The value that an entry encodes. *)
Fixpoint rawVal (r : raw) : rval :=
  match r with
  | rawNil => VBytes []
  | rawShortNode k v => VList [VBytes k; rawVal v]
  | rawFullNode cs => VList (map rawVal cs)
  | rawHash h => VBytes h
  | rawValue v => VBytes v
  | rawNode _ => VBytes []
  end.

Lemma rawVal_rawOf t : rawVal (rawOf t) = tval t.
Proof.
  assert (Href : forall t, rawVal (rawOf t) = tval t -> rawVal (if bigb t then rawHash (thash t) else rawOf t) = tref t).
  { intros u Hu. destruct (bigb u) eqn:Hb; [by rewrite tref_big|]. by rewrite tref_small. }
  induction t as [|k t IH|ts IH|v] using tree_ind'; try done.
  - cbn [rawOf rawVal]. rewrite tval_short. by rewrite Href.
  - cbn [rawOf rawVal]. rewrite tval_full, map_map. f_equal. induction IH as [|t ts Ht _ IHl]; [done|]. cbn [map]. rewrite Href by done. by rewrite IHl.
Qed.

Lemma nodeVal_simplify n : forall r, simplifyNode n = Ok r -> nodeVal n = rawVal r.
Proof.
  induction n as [|k n f IH|ns f IH|h|v] using node_ind'; intros r E; cbn [simplifyNode] in E; try (by simplify_eq).
  - destruct (simplifyNode n) as [r'| |] eqn:Er; try done. cbn [mbind outcome_bind] in E. simplify_eq. simpl. by rewrite (IH r').
  - destruct (mapO _ ns) as [rs| |] eqn:Er; try done. cbn [mbind outcome_bind] in E. simplify_eq. simpl. f_equal. apply mapO_Forall2 in Er.
    induction Er as [|n r ns rs Hn _ IHl]; [done|]. inversion IH as [|? ? IHn IHns]; subst. simpl. rewrite IHl by done. f_equal.
    destruct n; [by simplify_eq|by apply IHn..].
Qed.

Lemma solid_simplify n : forall r, simplifyNode n = Ok r -> solid n.
Proof.
  induction n as [|k n f IH|ns f IH|h|v] using node_ind'; intros r E; cbn [simplifyNode] in E; try done.
  - destruct (simplifyNode n) as [r'| |] eqn:Er; try done. split; [by eapply simplify_nonnil|by eapply IH].
  - destruct (mapO _ ns) as [rs| |] eqn:Er; try done. apply solid_full. apply mapO_Forall2 in Er. clear E.
    induction Er as [|n r0 ns rs Hn _ IHl]; [done|]. inversion IH as [|? ? IHn IHns]; subst. constructor; [|by apply IHl].
    destruct n; [done|by eapply IHn..].
Qed.

(** The stored blob of an entry is the encoding of its tree. *)
Lemma encodeRaw_rawOf n t : simplifyNode n = Ok (rawOf t) -> len (tenc t) < 2 ^ 64 -> encodeRaw (rawOf t) = Ok (tenc t).
Proof.
  intros E Hl. unfold encodeRaw. rewrite (writeRaw_simplify n) by done.
  assert (Hv : nodeVal n = tval t) by (by rewrite (nodeVal_simplify n _ E), rawVal_rawOf).
  destruct (writeNode_enc n) with (w := reset) as (w & -> & He).
  - by eapply simplify_nonnil.
  - by eapply solid_simplify.
  - by rewrite Hv.
  - cbn [mbind outcome_bind]. rewrite Hv in He. by apply toBytes_extends.
Qed.

(** ** What the committer sends *)

(** The leaf of a tree: its hash and its collapsed node. *)
Definition leafFor (l : leaf) (s : tree) : Prop :=
  leaf_hash l = BytesToHash (thash s) /\ simplifyNode (leaf_node l) = Ok (rawOf s).

(** Every tree below [t] that is not in the database is sent. *)
Definition covered (t : tree) (ls : list leaf) : Prop := forall s, s ∈ subtrees t -> bigb s = true -> stored D db s \/ exists l, l ∈ ls /\ leafFor l s.
Definition sent_from (t : tree) (ls : list leaf) : Prop := forall l, l ∈ ls -> exists s, s ∈ subtrees t /\ canon s /\ leafFor l s.

Definition committed (t : tree) (o : outcome (node * list leaf)) : Prop :=
  exists hn ls, o = Ok (hn, ls) /\ simplifyNode hn = Ok (rref t) /\ covered t ls /\ sent_from t ls.

Lemma covered_persisted t ls : persisted D db t -> covered t ls.
Proof. intros Hp s Hs Hb. left. by apply Hp. Qed.

Lemma sent_nil t : sent_from t [].
Proof. intros l Hl. by apply not_elem_of_nil in Hl. Qed.

(** [store] on the collapsed node of a tree that has been hashed. *)
Lemma store_spec (R : option tree) n t f : R = None \/ R = Some t -> node_flags n = Some f -> simplifyNode n = Ok (rawOf t) -> canon t -> flag_ok D db R true f t ->
  exists hn ls, store n = Ok (hn, ls) /\ simplifyNode hn = Ok (match flag_hash f with Some _ => rawHash (thash t) | None => rawOf t end)
    /\ (flag_hash f = None -> bigb t = false)
    /\ (forall s, s ∈ ls -> leafFor s t) /\ (flag_hash f <> None -> exists l, l ∈ ls /\ leafFor l t)
    /\ (flag_hash f <> None -> hn = hashNode (thash t)).
Proof.
  intros HR Hf Hs Hc Hok. unfold store. rewrite Hf. cbn [mbind option_bind]. unfold flag_ok in Hok. destruct (flag_hash f) as [h|].
  - destruct Hok as (-> & _). destruct (estimateSize_simplify n _ Hs) as [sz ->]. cbn [mbind outcome_bind].
    assert (Hl : leafFor (mkLeaf sz (BytesToHash (thash t)) n) t) by (by split).
    eexists _, _. split; [done|]. split; [done|]. split; [done|]. split; [by intros s ->%list_elem_of_singleton|]. split; [|done].
    intros _. eexists. split; [by apply list_elem_of_singleton|done].
  - destruct Hok as [Hb _]. eexists _, _. split; [done|]. split; [done|]. split; [by auto|]. split; [by intros s Hs'%not_elem_of_nil|]. by split.
Qed.

Lemma rref_big t : bigb t = true -> rref t = rawHash (thash t).
Proof. unfold rref. by intros ->. Qed.

Lemma rref_small t : bigb t = false -> rref t = rawOf t.
Proof. unfold rref. by intros ->. Qed.

(** A child that is not loaded. *)
Lemma committed_hash b h t : rep None b (hashNode h) t -> committed t (Ok (hashNode h, [])).
Proof.
  intros Hr. inversion Hr as [| | | |? ? n ? Hdb Hl Hh Hr1]; subst. destruct Hh as (-> & [Hb|?] & Hp & _); [|done].
  eexists _, _. split; [done|]. split; [by rewrite rref_big|]. split; [by apply covered_persisted|apply sent_nil].
Qed.

(** Below a short node. *)
Lemma covered_short k t ls ls' l : covered t ls -> (bigb (TShort k t) = true -> stored D db (TShort k t) \/ exists l, l ∈ ls' /\ leafFor l (TShort k t)) -> l = ls ++ ls' ->
  covered (TShort k t) l.
Proof.
  intros Hc Hk -> s Hs Hb. simpl in Hs. apply elem_of_cons in Hs as [->|Hs].
  - destruct (Hk Hb) as [?|(l & Hl & ?)]; [by left|right]. exists l. split; [set_solver|done].
  - destruct (Hc s Hs Hb) as [?|(l & Hl & ?)]; [by left|right]. exists l. split; [set_solver|done].
Qed.

(** The child of a short node that is being committed. *)
Lemma commit_short_child b k n t : rep None b n t -> canon (TShort k t) -> (loaded n = true -> committed t (commit n)) ->
  committed t (match n with fullNode _ _ => commit n | _ => Ok (n, []) end).
Proof.
  intros Hr Hc Hcom. inversion Hc as [? v Hk Hv|? ts Hne Hn Hc'|]; subst.
  - apply rep_value_inv in Hr as ->. eexists _, _. split; [done|]. split; [done|]. split; [|apply sent_nil].
    intros s Hs. simpl in Hs. by apply list_elem_of_singleton in Hs as ->.
  - inversion Hr as [| | |? ns ? f Hr1 Hfl|? h n1 ? Hdb Hl Hh Hr1]; subst; [by apply Hcom|by eapply committed_hash].
Qed.

Lemma commit_short R b k n t f : R = None \/ R = Some (TShort k t) -> rep None b n t -> canon (TShort k t) -> flag_ok D db R true f (TShort k t) ->
  (loaded n = true -> committed t (commit n)) ->
  exists hn ls, commit (shortNode k n f) = Ok (hn, ls) /\ covered (TShort k t) ls /\ sent_from (TShort k t) ls
    /\ simplifyNode hn = Ok (match flag_hash f with Some _ => rawHash (thash (TShort k t)) | None => rawOf (TShort k t) end)
    /\ (flag_hash f = None -> bigb (TShort k t) = false) /\ (flag_hash f <> None -> hn = hashNode (thash (TShort k t)))
    /\ (flag_hash f <> None -> stored D db (TShort k t) \/ exists l, l ∈ ls /\ leafFor l (TShort k t)).
Proof.
  intros HR Hr Hc Hfl Hcom. cbn [commit]. pose proof Hfl as Hfl'. unfold flag_ok in Hfl'.
  destruct (decide (flag_hash f <> None /\ flag_dirty f = false)) as [[Hh Hd]|Hdirty].
  - destruct (flag_hash f) as [h|]; [|done]. rewrite Hd. destruct Hfl' as (-> & _ & Hp). destruct (Hp Hd) as [Hp' Hst].
    eexists _, _. split; [done|]. split; [by apply covered_persisted|]. split; [apply sent_nil|]. split_and!; try done. by left.
  - destruct (commit_short_child b k n t Hr Hc Hcom) as (cv & ls & E & Hs & Hcov & Hsent).
    assert (Hsimp : simplifyNode (shortNode (hexToCompact k) cv f) = Ok (rawOf (TShort k t))) by (cbn [simplifyNode]; by rewrite Hs).
    destruct (store_spec R (shortNode (hexToCompact k) cv f) (TShort k t) f HR eq_refl Hsimp Hc Hfl) as (hn & l & Est & Hsn & Hsmall & Hl & Hex & Heq).
    exists hn, (ls ++ l). split.
    { destruct (flag_hash f) as [h|]; [destruct (flag_dirty f) eqn:Hd|]; rewrite ?E; cbn [mbind outcome_bind]; rewrite ?Est; try done. by destruct Hdirty. }
    split_and!; try done.
    + eapply covered_short; [done| |done]. intros Hb. destruct (flag_hash f) eqn:Eh; [right; by apply Hex|]. rewrite Hsmall in Hb by done. done.
    + intros l' [Hl'|Hl']%elem_of_app; [destruct (Hsent l' Hl') as (s & Hs' & ?); exists s; split; [by apply subtrees_short|done]|].
      exists (TShort k t). split; [apply subtrees_self|]. split; [done|by apply Hl].
    + intros Hh. right. destruct (Hex Hh) as (l' & Hl' & ?). exists l'. split; [set_solver|done].
Qed.

(** How a collapsed child is kept, an empty one included. *)
Definition kept (n : node) (t : tree) : Prop := match n with nilNode => Ok rawNil | _ => simplifyNode n end = Ok (rref t).

Lemma commitChildren_spec nv ncs ts :
  Forall2 (fun n t => n = nilNode /\ t = TNil \/ n <> nilNode /\ committed t (match n with hashNode _ => Ok (n, []) | _ => commit n end)) ncs ts ->
  forall i, (i + length ts = 16)%nat ->
  exists ks ls, commitChildren commit i (ncs ++ [nv]) = Ok (ks ++ [nv], ls) /\ Forall2 kept ks ts
    /\ (forall t, t ∈ ts -> covered t ls) /\ (forall l, l ∈ ls -> exists t s, t ∈ ts /\ s ∈ subtrees t /\ canon s /\ leafFor l s).
Proof.
  induction 1 as [|n t ncs ts Hn _ IH]; intros i Hi; simpl in Hi.
  - exists [], []. cbn [app commitChildren]. replace (Nat.ltb i 16) with false by (symmetry; apply Nat.ltb_ge; lia).
    split; [done|]. split; [done|]. split; [by intros t Ht%not_elem_of_nil|by intros l Hl%not_elem_of_nil].
  - destruct (IH (S i)) as (ks & ls & E & Hk & Hcov & Hsent); [lia|]. cbn [app commitChildren].
    replace (Nat.ltb i 16) with true by (symmetry; apply Nat.ltb_lt; lia). rewrite E.
    destruct Hn as [[-> ->]|[Hnn (hn & l & En & Hs & Hc & Hse)]].
    + exists (nilNode :: ks), ls. cbn [mbind outcome_bind]. split; [done|]. split; [by constructor|]. split.
      * intros t [->|Ht]%elem_of_cons; [|by apply Hcov]. intros s Hs. simpl in Hs. by apply list_elem_of_singleton in Hs as ->.
      * intros l Hl. destruct (Hsent l Hl) as (t & s & Ht & ?). exists t, s. split; [by right|done].
    + exists (hn :: ks), (l ++ ls).
      replace (match n with nilNode => Ok (nilNode, []) | hashNode _ => Ok (n, []) | _ => commit n end)
        with (match n with hashNode _ => Ok (n, []) | _ => commit n end) by (by destruct n).
      rewrite En. cbn [mbind outcome_bind]. split; [done|]. split; [|split].
      * constructor; [|done]. unfold kept. by destruct hn.
      * intros t' [->|Ht]%elem_of_cons s Hs' Hb; [destruct (Hc s Hs' Hb) as [?|(x & Hx & ?)]|destruct (Hcov t' Ht s Hs' Hb) as [?|(x & Hx & ?)]];
          try (by left); right; exists x; split; set_solver.
      * intros x [Hx|Hx]%elem_of_app; [destruct (Hse x Hx) as (s & ?); exists t, s; split; [by left|done]|].
        destruct (Hsent x Hx) as (t' & s & Ht' & ?). exists t', s. split; [by right|done].
Qed.

Lemma commit_full R b ns ts f : R = None \/ R = Some (TFull ts) -> Forall2 (rep None b) ns ts -> canon (TFull ts) -> flag_ok D db R true f (TFull ts) ->
  (forall n t, t ∈ ts -> canon t -> rep None b n t -> loaded n = true -> committed t (commit n)) ->
  exists hn ls, commit (fullNode ns f) = Ok (hn, ls) /\ covered (TFull ts) ls /\ sent_from (TFull ts) ls
    /\ simplifyNode hn = Ok (match flag_hash f with Some _ => rawHash (thash (TFull ts)) | None => rawOf (TFull ts) end)
    /\ (flag_hash f = None -> bigb (TFull ts) = false) /\ (flag_hash f <> None -> hn = hashNode (thash (TFull ts)))
    /\ (flag_hash f <> None -> stored D db (TFull ts) \/ exists l, l ∈ ls /\ leafFor l (TFull ts)).
Proof.
  intros HR Hr Hc Hfl Hcom. cbn [commit]. pose proof Hfl as Hfl'. unfold flag_ok in Hfl'.
  destruct (decide (flag_hash f <> None /\ flag_dirty f = false)) as [[Hh Hd]|Hdirty].
  - destruct (flag_hash f) as [h|]; [|done]. rewrite Hd. destruct Hfl' as (-> & _ & Hp). destruct (Hp Hd) as [Hp' Hst].
    eexists _, _. split; [done|]. split; [by apply covered_persisted|]. split; [apply sent_nil|]. split_and!; try done. by left.
  - destruct (full_split ts Hc) as (tcs & tv & -> & Hlen & Hcs & Htv).
    apply Forall2_app_inv_r in Hr as (ncs & nv' & Hr1 & Hr2 & ->). apply Forall2_cons_inv_r in Hr2 as (nv & ? & Hrv & Hnil & ->).
    apply Forall2_nil_inv_r in Hnil as ->.
    assert (Hnv : kept nv tv).
    { destruct Htv as [->|(v & -> & _)]; [apply rep_nil_inv in Hrv as ->|apply rep_value_inv in Hrv as ->]; done. }
    destruct (commitChildren_spec nv ncs tcs) with (i := 0%nat) as (ks & ls & E & Hk & Hcov & Hsent); [|done|].
    { apply Forall2_same_length_lookup_2; [by eapply Forall2_length|]. intros i n t Hn Ht.
      pose proof (Forall2_lookup_lr _ _ _ _ _ _ Hr1 Hn Ht) as Hrn. rewrite Forall_lookup in Hcs.
      destruct (Hcs i t Ht) as [->|Hct]; [left; split; [by eapply rep_nil_inv|done]|right]. split.
      - intros ->. apply rep_nilNode_inv in Hrn as ->. by apply canon_not_nil in Hct.
      - assert (t ∈ tcs ++ [tv]) by (apply elem_of_app; left; by eapply list_elem_of_lookup_2).
        inversion Hrn; subst; [by apply canon_not_nil in Hct|by apply canon_not_val in Hct|by apply Hcom|by apply Hcom|by eapply committed_hash]. }
    assert (Hsimp : simplifyNode (fullNode (ks ++ [nv]) f) = Ok (rawOf (TFull (tcs ++ [tv])))).
    { cbn [simplifyNode]. replace (mapO _ _) with (Ok (map rref (tcs ++ [tv]))); [done|]. symmetry. apply mapO_Forall2.
      rewrite map_app. apply Forall2_app; [|by constructor]. clear -Hk. induction Hk; constructor; done. }
    destruct (store_spec R (fullNode (ks ++ [nv]) f) _ f HR eq_refl Hsimp Hc Hfl) as (hn & l & Est & Hsn & Hsmall & Hl & Hex & Heq).
    exists hn, (ls ++ l). split.
    { destruct (flag_hash f) as [h|]; [destruct (flag_dirty f) eqn:Hd|]; rewrite ?E; cbn [mbind outcome_bind]; rewrite ?Est; try done. by destruct Hdirty. }
    split_and!; try done.
    + intros s Hs Hb. apply subtrees_full_inv in Hs as [->|(t & [Ht| ->%list_elem_of_singleton]%elem_of_app & Hs)].
      * destruct (flag_hash f) eqn:Eh; [|by rewrite Hsmall in Hb]. right. destruct Hex as (x & Hx & ?); [done|]. exists x. split; [set_solver|done].
      * destruct (Hcov t Ht s Hs Hb) as [?|(x & Hx & ?)]; [by left|right]. exists x. split; [set_solver|done].
      * destruct Htv as [->|(v & -> & _)]; simpl in Hs; apply list_elem_of_singleton in Hs as ->; done.
    + intros x [Hx|Hx]%elem_of_app.
      * destruct (Hsent x Hx) as (t & s & Ht & Hs & ?). exists s. split; [|done]. apply (subtrees_full _ t); [set_solver|done].
      * eexists. split; [apply subtrees_self|]. split; [done|by apply Hl].
    + intros Hh. right. destruct (Hex Hh) as (x & Hx & ?). exists x. split; [set_solver|done].
Qed.

Lemma commit_rep t : forall b n, rep None b n t -> b = true -> canon t -> loaded n = true -> committed t (commit n).
Proof.
  assert (Href : forall t f, (flag_hash f = None -> bigb t = false) -> flag_ok D db None true f t ->
    match flag_hash f with Some _ => rawHash (thash t) | None => rawOf t end = rref t).
  { intros u f Hs Hok. unfold flag_ok in Hok. destruct (flag_hash f); [destruct Hok as (_ & [Hb|?] & _); [by rewrite rref_big|done]|by rewrite rref_small by auto]. }
  induction t as [|k t IH|ts IH|v] using tree_ind'; intros b n Hr -> Hc Hl.
  - by apply canon_not_nil in Hc.
  - inversion Hr as [| |? ? n1 ? f Hr1 Hfl| |? h]; subst; [|done].
    destruct (commit_short None _ k n1 t f (or_introl eq_refl) Hr1 Hc Hfl) as (hn & ls & E & Hcov & Hsent & Hs & Hsm & _).
    { intros Hl1. inversion Hc; subst; [by apply rep_value_inv in Hr1 as ->|]. by eapply IH. }
    exists hn, ls. split_and!; try done. rewrite Hs. f_equal. by apply Href.
  - inversion Hr as [| | |? ns ? f Hr1 Hfl|? h]; subst; [|done].
    destruct (commit_full None _ ns ts f (or_introl eq_refl) Hr1 Hc Hfl) as (hn & ls & E & Hcov & Hsent & Hs & Hsm & _).
    { intros n t Ht Hct Hrt Hlt. rewrite Forall_forall in IH. by eapply IH. }
    exists hn, ls. split_and!; try done. rewrite Hs. f_equal. by apply Href.
  - by apply canon_not_val in Hc.
Qed.
End commit.
