(* ===== verification/TriePersist.v ===== *)
(** The trie as a persistent map: together with its database it implements a finite
    map from keys to values, its root hash identifies the map, and a committed map
    can be opened again by its root hash. *)

From S2P Require Import Prelude Common Rlp RlpEnc Trie TrieMap TrieHash TrieDB TrieEnc TrieStore TrieCommit.
From Stdlib Require Import Strings.Byte.

(** * The database *)

Section database.
Context `{FastCache} `{Crypto} (D : list byte -> Prop).

(** The answer of [Database.node]. *)
Definition db_read (d : Database) (h : Hash) : outcome (option node) := fst (db_node h (mkWorld 0 d)).

(** Every blob is kept under its hash, the clean cache holds what is on disk,
    every entry in memory is the collapsed node of a tree, and the flush list has
    an end. *)
Record content (d : Database) : Prop := {
  ct_clean : forall (h : Hash) e, clean_Get d h = Some e -> diskdb d !! arr_bytes h = Some e;
  ct_disk : forall (h : Hash) e, diskdb d !! arr_bytes h = Some e -> D e /\ Keccak256 [e] = arr_bytes h;
  ct_dirty : forall (h : Hash) c, h <> zeroHash -> dirties d !! h = Some c ->
    exists s, canon s /\ fits s /\ D (tenc s) /\ arr_bytes h = thash s /\ cn_node c = rawOf s;
  ct_list : oldest d <> zeroHash -> is_Some (dirties d !! newest d);
}.

(** Keccak-256 tells the encodings that occur apart, and none of them has the hash
    that stands for nothing or for the empty trie. *)
Record NoCollision : Prop := {
  nc_inj : forall a b, D a -> D b -> Keccak256 [a] = Keccak256 [b] -> a = b;
  nc_zero : forall a, D a -> Keccak256 [a] <> arr_bytes zeroHash;
  nc_empty : forall a, D a -> Keccak256 [a] <> arr_bytes emptyRoot;
}.

(** The database has something under a hash. *)
Definition avail (d : Database) (h : Hash) : Prop :=
  is_Some (dirties d !! h) \/ is_Some (diskdb d !! arr_bytes h).

Lemma thash_bytes t : arr_bytes (BytesToHash (thash t)) = thash t.
Proof. apply arr_bytes_SetBytes_full, thash_len. Qed.

Lemma decode_stored t : canon t -> fits t -> mustDecodeNode (Some (arr_bytes (BytesToHash (thash t)))) (tenc t) = Ok (load (Some (thash t)) t).
Proof.
  intros Hc Hf. unfold mustDecodeNode, decodeNode. rewrite thash_bytes.
  replace (decodeNode_fuel _ _ (tenc t)) with (decodeNode_fuel (S (length (tenc t))) (Some (thash t)) (tenc t ++ [])) by (by rewrite app_nil_r).
  rewrite decodeNode_tenc; [done..|lia].
Qed.

Lemma expand_stored t h : canon t -> expandNode h (rawOf t) = Ok (load h t).
Proof. apply expand_canon. Qed.

Lemma db_read_eq d h : db_read d h =
  match clean_Get d h with
  | Some e => outcome_map Some (mustDecodeNode (Some (arr_bytes h)) e)
  | None =>
      match dirties d !! h with
      | Some c => outcome_map Some (obj c h)
      | None => match diskdb d !! arr_bytes h with
                | Some e => outcome_map Some (mustDecodeNode (Some (arr_bytes h)) e)
                | None => Ok None
                end
      end
  end.
Proof.
  unfold db_read, db_node, get, fmap, M_fmap, clean_Set, modify, lift, mbind, M_bind. cbn [w_st w_tick].
  destruct (clean_Get d h) as [e|]; [by destruct (mustDecodeNode _ e)|]. destruct (dirties d !! h) as [c|]; [by destruct (obj c h)|].
  destruct (diskdb d !! arr_bytes h) as [e|]; [by destruct (mustDecodeNode _ e)|done].
Qed.

(** What is found under the hash of a tree is that tree. *)
Lemma read_stored (Hnc : NoCollision) d s : content d -> canon s -> fits s -> D (tenc s) -> avail d (BytesToHash (thash s)) ->
  db_read d (BytesToHash (thash s)) = Ok (Some (load (Some (thash s)) s)).
Proof.
  intros Hct Hc Hf HD Hav. set (h := BytesToHash (thash s)) in *. assert (Eh : arr_bytes h = thash s) by apply thash_bytes.
  assert (Hblob : forall e, D e -> Keccak256 [e] = arr_bytes h -> e = tenc s) by (intros e He E; apply (nc_inj Hnc); [done|done|by rewrite E]).
  assert (Hdec : mustDecodeNode (Some (arr_bytes h)) (tenc s) = Ok (load (Some (thash s)) s)) by (by apply decode_stored).
  rewrite db_read_eq. destruct (clean_Get d h) as [e|] eqn:Ec.
  - destruct (ct_disk d Hct h e (ct_clean d Hct h e Ec)) as [He E]. by rewrite (Hblob e He E), Hdec.
  - destruct (dirties d !! h) as [c|] eqn:Ed.
    + assert (Hz : h <> zeroHash) by (intros E; apply (nc_zero Hnc (tenc s) HD); rewrite <- E; by rewrite Eh).
      destruct (ct_dirty d Hct h c Hz Ed) as (s' & Hc' & Hf' & HD' & E' & En).
      assert (Ee : tenc s' = tenc s) by (apply Hblob; [done|by rewrite E']).
      assert (El : load (Some (thash s)) s' = load (Some (thash s)) s).
      { pose proof (decode_stored s' Hc' Hf') as E1. unfold thash in E1. rewrite Ee in E1. fold (thash s) in E1. fold h in E1. rewrite Hdec in E1. by simplify_eq. }
      unfold obj. rewrite En.
      replace (match rawOf s' with rawNode blob => _ | r => expandNode (Some (arr_bytes h)) r end) with (expandNode (Some (arr_bytes h)) (rawOf s')) by (by destruct s').
      rewrite Eh, expand_canon by done. by rewrite El.
    + destruct (diskdb d !! arr_bytes h) as [e|] eqn:Ek.
      * destruct (ct_disk d Hct h e Ek) as [He E]. by rewrite (Hblob e He E), Hdec.
      * exfalso. unfold avail in Hav. rewrite Ed, Ek in Hav. by destruct Hav as [[]|[]].
Qed.

(** What is answered is there. *)
Lemma read_avail d h n : content d -> db_read d h = Ok (Some n) -> avail d h.
Proof.
  intros Hct. rewrite db_read_eq. unfold avail. destruct (clean_Get d h) eqn:Ec; [right; rewrite (ct_clean d Hct h _ Ec); by eauto|]. destruct (dirties d !! h); [by eauto|].
  destruct (diskdb d !! arr_bytes h); [by eauto|]. done.
Qed.

Lemma stored_avail (Hnc : NoCollision) d s : content d ->
  stored D (db_read d) s <-> canon s /\ fits s /\ D (tenc s) /\ avail d (BytesToHash (thash s)).
Proof.
  intros Hct. split.
  - intros (Hc & Hf & HD & E). split_and!; try done. by eapply read_avail.
  - intros (Hc & Hf & HD & Hav). split_and!; try done. by apply read_stored.
Qed.

(** Counting references changes nothing else. *)
Lemma bump_lookup cs : forall (ds : gmap Hash cachedNode) h,
  cn_node <$> (foldl (fun ds child => alter (fun c => c <| cn_parents := (cn_parents c + 1) mod 2 ^ 32 |>) child ds) ds cs !! h) = cn_node <$> ds !! h.
Proof.
  induction cs as [|c cs IH]; intros ds h; simpl; [done|]. rewrite IH. destruct (decide (c = h)) as [->|Hne].
  - rewrite lookup_alter_eq. by destruct (ds !! h).
  - by rewrite lookup_alter_ne.
Qed.

Lemma fmap_node_Some (o o' : option cachedNode) c : cn_node <$> o = cn_node <$> o' -> o = Some c -> exists c', o' = Some c' /\ cn_node c' = cn_node c.
Proof. intros E ->. destruct o' as [c'|]; [|done]. exists c'. by simplify_eq/=. Qed.

Definition grows (d d' : Database) : Prop := forall h, avail d h -> avail d' h.

Lemma db_insert_ok (Hnc : NoCollision) d k l s : content d -> leafFor l s -> canon s -> fits s -> D (tenc s) ->
  exists d', db_insert (leaf_hash l) (leaf_size l) (leaf_node l) (mkWorld k d) = (Ok (), mkWorld k d') /\ content d' /\ grows d d' /\ avail d' (leaf_hash l).
Proof.
  intros Hct [Eh Es] Hc Hf HD. set (h := leaf_hash l) in *. assert (Ehb : arr_bytes h = thash s) by (by rewrite Eh, thash_bytes).
  assert (Hz : h <> zeroHash) by (intros E; apply (nc_zero Hnc (tenc s) HD); rewrite <- E; by rewrite Ehb).
  unfold db_insert. destruct (dirties d !! h) as [c|] eqn:Ed.
  { exists d. unfold gets, mbind, M_bind. cbn [w_st]. rewrite Ed. split; [done|]. split; [done|]. split; [by intros ?|]. left. by eexists. }
  set (entry := mkCachedNode (rawOf s) (leaf_size l mod 2 ^ 16) 0 None (newest d) zeroHash).
  set (ds1 := foldl (fun ds child => alter (fun c => c <| cn_parents := (cn_parents c + 1) mod 2 ^ 32 |>) child ds) (dirties d) (forGatherChildren (rawOf s))).
  assert (Hb : forall h, cn_node <$> ds1 !! h = cn_node <$> dirties d !! h) by (intros h'; apply bump_lookup).
  set (ds2 := <[h := entry]> ds1).
  set (ds3 := if decide (oldest d = zeroHash) then ds2 else alter (fun c => c <| flushNext := h |>) (newest d) ds2).
  assert (H3 : forall x, cn_node <$> ds3 !! x = if decide (x = h) then Some (rawOf s) else cn_node <$> dirties d !! x).
  { intros x. assert (H2 : cn_node <$> ds2 !! x = if decide (x = h) then Some (rawOf s) else cn_node <$> dirties d !! x).
    { unfold ds2. destruct (decide (x = h)) as [->|]; [by rewrite lookup_insert_eq|]. by rewrite lookup_insert_ne. }
    unfold ds3. destruct (decide (oldest d = zeroHash)); [done|]. rewrite <- H2. destruct (decide (x = newest d)) as [->|].
    - rewrite lookup_alter_eq. by destruct (ds2 !! newest d).
    - by rewrite lookup_alter_ne. }
  set (d' := mkDatabase (diskdb d) (cleans d) ds3 (if decide (oldest d = zeroHash) then h else oldest d) h (preimages d)
               (dirtiesSize d + (HashLength + leaf_size l mod 2 ^ 16) mod 2 ^ 16) (childrenSize d) (preimagesSize d)).
  exists d'. split; [|split; [|split]].
  - assert (Hn : oldest d <> zeroHash -> is_Some (ds2 !! newest d)).
    { intros E. destruct (ct_list d Hct E) as [c Hcn]. unfold ds2. destruct (decide (newest d = h)) as [->|]; [rewrite lookup_insert_eq; by eexists|].
      rewrite lookup_insert_ne by done. specialize (Hb (newest d)). rewrite Hcn in Hb. destruct (ds1 !! newest d); [by eexists|done]. }
    cbv beta iota zeta delta [gets lift modify mbind M_bind w_st w_tick]. rewrite Ed, Es. unfold d', ds3.
    destruct (decide (oldest d = zeroHash)) as [E|E]; [done|]. destruct (Hn E) as [cn Hcn].
    cbv beta iota zeta delta [alterNode gets must modify mret M_ret mbind M_bind w_st w_tick].
    match goal with |- context [match ?x !! newest d with _ => _ end] => change x with ds2 end. rewrite Hcn. by rewrite (alter_Some _ _ _ _ Hcn).
  - split; cbn.
    + apply (ct_clean d Hct).
    + apply (ct_disk d Hct).
    + intros x c Hx Hcx. specialize (H3 x). rewrite Hcx in H3. case_decide as Ex; simpl in H3.
      * subst x. exists s. split_and!; try done. by injection H3.
      * destruct (dirties d !! x) as [c0|] eqn:E0; [|done]. simpl in H3. injection H3 as H3.
        destruct (ct_dirty d Hct x c0 Hx E0) as (s' & ? & ? & ? & ? & En). exists s'. split_and!; try done. by rewrite H3.
    + intros _. specialize (H3 h). rewrite decide_True in H3 by done. destruct (ds3 !! h); [by eexists|done].
  - intros x [[c Hx]|Hx]; [|by right]. left. cbn. specialize (H3 x). rewrite Hx in H3.
    destruct (ds3 !! x); [by eexists|]. by destruct (decide (x = h)).
  - left. cbn. specialize (H3 h). rewrite decide_True in H3 by done. destruct (ds3 !! h); [by eexists|done].
Qed.

(** A callback that keeps the database in order, as [Database.reference] does. *)
Definition callback_ok (f : LeafCallback) : Prop := forall v h k d, content d -> avail d h ->
  exists k' d', f v h (mkWorld k d) = (Ok (), mkWorld k' d') /\ content d' /\ grows d d'.

Definition onleaf_ok (onleaf : option LeafCallback) : Prop := match onleaf with Some f => callback_ok f | None => True end.

Lemma grows_refl d : grows d d.
Proof. by intros h. Qed.

Lemma grows_trans d1 d2 d3 : grows d1 d2 -> grows d2 d3 -> grows d1 d3.
Proof. intros H1 H2 h Hh. by apply H2, H1. Qed.

Lemma simplify_value n v : simplifyNode n = Ok (rawValue v) -> n = valueNode v.
Proof.
  destruct n; cbn [simplifyNode]; try done; [destruct (simplifyNode n)|destruct (mapO _ _)|]; try done. by intros [= ->].
Qed.

(** The value slot of a branch that is sent. *)
Lemma leaf_slot cs f ts n : simplifyNode (fullNode cs f) = Ok (rawOf (TFull ts)) -> canon (TFull ts) -> cs !! 16%nat = Some n ->
  n = nilNode \/ exists v, n = valueNode v.
Proof.
  cbn [simplifyNode rawOf]. intros E Hc Hn. destruct (mapO _ cs) as [rs| |] eqn:Er; try done. cbn [mbind outcome_bind] in E.
  injection E as ->. apply mapO_Forall2 in Er. destruct (Forall2_lookup_l _ _ _ _ _ Er Hn) as (r & Hr & En). rewrite list_lookup_fmap in Hr.
  destruct (ts !! 16%nat) as [t|] eqn:Et; [|done]. simpl in Hr. injection Hr as <-.
  apply canon_slots in Hc as (_ & Hs & _). destruct (slot_16 t (Hs _ _ Et)) as [->|(v & -> & _)].
  - left. destruct n; try done; by apply simplify_not_nil in En.
  - right. exists v. destruct n; try done; by apply simplify_value in En.
Qed.

Lemma report_ok f l s k d : callback_ok f -> leafFor l s -> canon s -> content d -> avail d (leaf_hash l) ->
  exists k' d', report f l (mkWorld k d) = (Ok (), mkWorld k' d') /\ content d' /\ grows d d'.
Proof.
  intros Hf [_ Es] Hc Hct Hav. unfold report.
  assert (Hno : exists k' d', @mret (M Database) _ unit () (mkWorld k d) = (Ok (), mkWorld k' d') /\ content d' /\ grows d d') by (exists k, d; split_and!; [done|done|apply grows_refl]).
  destruct (leaf_node l) as [|key n g|cs g| |] eqn:En; try done.
  - destruct n; try done. by apply Hf.
  - destruct (cs !! 16%nat) as [n|] eqn:E16; [|done].
    assert (exists ts, s = TFull ts) as [ts ->].
    { cbn [simplifyNode] in Es. destruct (mapO _ cs); try done. destruct s; try done. by eexists. }
    destruct (leaf_slot _ _ _ _ Es Hc E16) as [->|[v ->]]; [done|by apply Hf].
Qed.

Lemma commitLoop_ok (Hnc : NoCollision) onleaf ls : onleaf_ok onleaf ->
  (forall l, l ∈ ls -> exists s, leafFor l s /\ canon s /\ fits s /\ D (tenc s)) ->
  forall k d, content d ->
  exists k' d', commitLoop onleaf ls (mkWorld k d) = (Ok (), mkWorld k' d') /\ content d' /\ grows d d' /\ forall l, l ∈ ls -> avail d' (leaf_hash l).
Proof.
  intros Hon. induction ls as [|l ls IH]; intros Hls k d Hct.
  - exists k, d. split; [done|]. split; [done|]. split; [by intros h|]. by intros l Hl%not_elem_of_nil.
  - destruct (Hls l) as (s & Hl & Hc & Hf & HD); [by left|]. destruct (db_insert_ok Hnc d k l s Hct Hl Hc Hf HD) as (d1 & E1 & Hct1 & Hg1 & Ha1).
    assert (exists k2 d2, (match onleaf with Some f => report f l | None => mret () end) (mkWorld k d1) = (Ok (), mkWorld k2 d2) /\ content d2 /\ grows d1 d2)
      as (k2 & d2 & E2 & Hct2 & Hg2).
    { destruct onleaf as [f|]; [by eapply report_ok|]. exists k, d1. split_and!; [done|done|apply grows_refl]. }
    destruct (IH ltac:(intros; apply Hls; by right) k2 d2 Hct2) as (k3 & d3 & E3 & Hct3 & Hg3 & Ha3).
    exists k3, d3. unfold commitLoop in *. cbn [forM]. unfold mbind, M_bind in *. rewrite E1, E2, E3. split; [done|]. split; [done|].
    split; [by eapply grows_trans; [|eapply grows_trans]|]. intros l' [->|Hl']%elem_of_cons; [by apply Hg3, Hg2|by apply Ha3].
Qed.

(** A larger database answers as before. *)
Lemma persisted_grows (Hnc : NoCollision) d d' t : content d -> content d' -> grows d d' -> persisted D (db_read d) t -> persisted D (db_read d') t.
Proof. intros Hct Hct' Hg Hp s Hs Hb. apply stored_avail; [done..|]. destruct (proj1 (stored_avail Hnc d s Hct) (Hp s Hs Hb)) as (? & ? & ? & ?). auto. Qed.

Lemma stored_grows (Hnc : NoCollision) d d' t : content d -> content d' -> grows d d' -> stored D (db_read d) t -> stored D (db_read d') t.
Proof. intros Hct Hct' Hg Hs. apply stored_avail; [done..|]. destruct (proj1 (stored_avail Hnc d t Hct) Hs) as (? & ? & ? & ?). auto. Qed.

Notation rep d R := (repb (db_read d) (flag_ok D (db_read d) R) (hash_ok D (db_read d) R)).

Lemma rep_grows (Hnc : NoCollision) d d' R b n t : content d -> content d' -> grows d d' -> rep d R b n t -> rep d' R b n t.
Proof.
  intros Hct Hct' Hg Hr. eapply repb_change; [exact Hr|..].
  - intros s b' f _. unfold flag_ok. destruct (flag_hash f); [|done]. intros (-> & Hb & Hp). split; [done|]. split; [done|].
    intros Hd. destruct (Hp Hd). split; [by apply (persisted_grows Hnc d)|by apply (stored_grows Hnc d)].
  - intros s h _ (-> & Hb & Hp & Hs). split; [done|]. split; [done|]. split; [by apply (persisted_grows Hnc d)|by apply (stored_grows Hnc d)].
  - intros s h n' _ (-> & Hb & Hp & Hs) E. pose proof Hs as (_ & _ & _ & E1). rewrite E1 in E. injection E as <-. by apply (stored_grows Hnc d).
Qed.

(** ** Hashing, committing and opening *)

(** The root hash of a tree. *)
Definition rootOf (t : tree) : Hash := match t with TNil => emptyRoot | _ => BytesToHash (thash t) end.

Lemma rootOf_canon t : canon t -> rootOf t = BytesToHash (thash t).
Proof. by destruct 1. Qed.

Definition trieRep (d : Database) (t : Trie) (tr : tree) : Prop := rootRep D (db_read d) (root t) tr.

(** The encodings of a tree are small enough and among those that occur. *)
Definition known (tr : tree) : Prop := fits tr /\ forall s, s ∈ subtrees tr -> canon s -> D (tenc s).

Lemma trieRep_grows (Hnc : NoCollision) d d' t tr : content d -> content d' -> grows d d' -> trieRep d t tr -> trieRep d' t tr.
Proof. intros Hct Hct' Hg [Hr Hc]. split; [by eapply (rep_grows Hnc d)|done]. Qed.

Lemma Trie_Hash_spec d t tr : trieRep d t tr -> fits tr ->
  exists t', Trie_Hash t = (Ok (rootOf tr), t') /\ trieRep d t' tr
    /\ (canon tr -> rep d (Some tr) true (root t') tr /\ (root t' = hashNode (thash tr) \/ exists f h, node_flags (root t') = Some f /\ flag_hash f = Some h)).
Proof.
  intros [Hr Hc] Hf. unfold Trie_Hash, hashRoot. destruct Hc as [->|Hc].
  - apply rep_nil_inv in Hr as ->. eexists. split; [f_equal; f_equal; unfold rootOf; apply arr_bytes_inj, arr_bytes_SetBytes_full, arr_bytes_length|].
    split; [split; [constructor|by left]|]. intros Hc. by apply canon_not_nil in Hc.
  - destruct (root_hash D (db_read d) (root t) tr Hr Hc Hf) as (cn & E & Hr' & Hfl).
    assert (Hn : root t <> nilNode) by (intros En; rewrite En in Hr; apply rep_nilNode_inv in Hr as ->; by apply canon_not_nil in Hc).
    replace (match root t with nilNode => _ | n => _ end) with (match hash (root t) true with Ok r => (Ok r, mkTrie (root t) 0) | o => (o, t) end) by (by destruct (root t)).
    rewrite E. eexists. split; [by rewrite rootOf_canon|]. split; [|done].
    split; [|by right]. by eapply repb_weaken; [apply flag_mono|exact Hr'].
Qed.

(** The committer on a hashed root. *)
Lemma commit_root d n tr : rep d (Some tr) true n tr -> canon tr -> (exists f h, node_flags n = Some f /\ flag_hash f = Some h) ->
  exists ls, commit n = Ok (hashNode (thash tr), ls) /\ covered D (db_read d) tr ls /\ sent_from tr ls
    /\ (stored D (db_read d) tr \/ exists l, l ∈ ls /\ leafFor l tr).
Proof.
  intros Hr Hc (f & h & Ef & Eh).
  inversion Hr as [|? v|? k n1 t1 f' Hr1 Hfl|? ns ts f' Hr1 Hfl|]; subst; simpl in Ef; simplify_eq.
  - assert (Hn1 : rep d None true n1 t1) by (eapply rep_other; [| |exact Hr1]; [intros r [= <-]; apply short_not_below|done]).
    destruct (commit_short D (db_read d) (Some (TShort k t1)) true k n1 t1 f (or_intror eq_refl) Hn1 Hc Hfl) as (hn & ls & E & Hcov & Hse & _ & _ & Hhn & Hst).
    { intros Hl. inversion Hc; subst; [by apply rep_value_inv in Hn1 as ->|]. by eapply commit_rep. }
    exists ls. rewrite E, Hhn by (by rewrite Eh). split; [done|]. split; [done|]. split; [done|]. apply Hst. by rewrite Eh.
  - assert (Hn1 : Forall2 (rep d None true) ns ts) by (eapply Forall2_rep_other; [| |exact Hr1]; [intros r t [= <-]; apply full_not_below|done]).
    destruct (commit_full D (db_read d) (Some (TFull ts)) true ns ts f (or_intror eq_refl) Hn1 Hc Hfl) as (hn & ls & E & Hcov & Hse & _ & _ & Hhn & Hst).
    { intros n t Ht Hct Hrt Hl. by eapply commit_rep. }
    exists ls. rewrite E, Hhn by (by rewrite Eh). split; [done|]. split; [done|]. split; [done|]. apply Hst. by rewrite Eh.
Qed.

(** The root as the database answers it. *)
Lemma load_root (Hnc : NoCollision) d tr : canon tr -> persisted D (db_read d) tr -> stored D (db_read d) tr -> rep d (Some tr) true (load (Some (thash tr)) tr) tr.
Proof. intros Hc Hp Hs. apply load_rep; [done|done|split_and!; auto|]. intros r [= <-] c _ Hne. done. Qed.

Lemma root_reopened (Hnc : NoCollision) d tr : canon tr -> persisted D (db_read d) tr -> stored D (db_read d) tr ->
  rep d (Some tr) false (hashNode (thash tr)) tr.
Proof.
  intros Hc Hp Hs. pose proof Hs as (_ & _ & _ & E). econstructor; [exact E|by destruct Hc|split_and!; auto|]. by apply load_root.
Qed.

Lemma Trie_Commit_spec (Hnc : NoCollision) onleaf d k t tr : onleaf_ok onleaf -> content d -> trieRep d t tr -> known tr ->
  exists k' d' t', Trie_Commit onleaf t (mkWorld k d) = (Ok (rootOf tr, t'), mkWorld k' d') /\ content d' /\ grows d d' /\ trieRep d' t' tr
    /\ (canon tr -> persisted D (db_read d') tr /\ stored D (db_read d') tr).
Proof.
  intros Hon Hct Hrep [Hfits HD]. pose proof Hrep as [Hr [->|Hc]].
  { apply rep_nil_inv in Hr as Er. unfold Trie_Commit. rewrite Er. exists k, d, t. split; [done|]. split; [done|]. split; [apply grows_refl|]. split; [done|].
    intros Hc. by apply canon_not_nil in Hc. }
  destruct (Trie_Hash_spec d t tr Hrep Hfits) as (t1 & E1 & Hrep1 & Hset). destruct (Hset Hc) as [Hr1 Hfl].
  assert (Hn : root t <> nilNode) by (intros En; rewrite En in Hr; apply rep_nilNode_inv in Hr as ->; by apply canon_not_nil in Hc).
  unfold Trie_Commit. replace (match root t with nilNode => _ | _ => _ end) with
    (let '(o, t) := Trie_Hash t in rootHash ← lift o; if negb (node_dirty (root t)) then mret (rootHash, t) else
        '(newRoot, ls) ← lift (commit (root t)); commitLoop onleaf ls;;
        match newRoot with hashNode h => mret (rootHash, mkTrie newRoot (unhashed t)) | _ => panic "interface conversion" end) by (by destruct (root t)).
  rewrite E1. cbv beta iota zeta delta [lift mbind M_bind].
  assert (Hdone : forall d', content d' -> grows d d' -> persisted D (db_read d') tr -> stored D (db_read d') tr ->
    trieRep d' (mkTrie (hashNode (thash tr)) (unhashed t1)) tr).
  { intros d' Hct' Hg Hp Hs. split; [by apply root_reopened|by right]. }
  destruct (node_dirty (root t1)) eqn:Hd; cbn [negb].
  - assert (Hcom : exists ls, commit (root t1) = Ok (hashNode (thash tr), ls) /\ covered D (db_read d) tr ls /\ sent_from tr ls
      /\ (stored D (db_read d) tr \/ exists l, l ∈ ls /\ leafFor l tr)).
    { destruct Hfl as [Eh|Hfl]; [|by apply commit_root]. rewrite Eh in Hr1 |- *. inversion Hr1 as [| | | |? ? n' ? Hdb Hl (E & _ & Hp & Hs) Hr2]; subst.
      exists []. split; [done|]. split; [by apply covered_persisted|]. split; [apply sent_nil|by left]. }
    destruct Hcom as (ls & Ec & Hcov & Hse & Hroot). rewrite Ec.
    assert (Hsub : forall s, s ∈ subtrees tr -> fits s) by (intros s Hs u Hu; apply Hfits; by eapply subtrees_trans).
    destruct (commitLoop_ok Hnc onleaf ls Hon) with (k := k) (d := d) as (k' & d' & El & Hct' & Hg & Ha); [|done|].
    { intros l Hl. destruct (Hse l Hl) as (s & Hs & Hcs & Hls). exists s. auto. }
    rewrite El.
    assert (Hst : forall s, s ∈ subtrees tr -> canon s -> stored D (db_read d) s \/ (exists l, l ∈ ls /\ leafFor l s) -> stored D (db_read d') s).
    { intros s Hs Hcs [Hst|(l & Hl & El' & _)]; [by apply (stored_grows Hnc d)|]. apply stored_avail; [done..|]. split_and!; auto. rewrite <- El'. by apply Ha. }
    assert (Hp' : persisted D (db_read d') tr).
    { intros s Hs Hb. apply Hst; [done| |by apply Hcov]. destruct (canon_subtree tr s Hc Hs) as [->|[[v ->]|?]]; done. }
    assert (Hs' : stored D (db_read d') tr) by (apply Hst; [apply subtrees_self|done|done]).
    exists k', d', (mkTrie (hashNode (thash tr)) (unhashed t1)). split; [done|]. split; [done|]. split; [done|]. split; [by apply Hdone|done].
  - exists k, d, t1. split; [done|]. split; [done|]. split; [apply grows_refl|]. split; [done|]. intros _.
    destruct Hfl as [Eh|(f & h & Ef & Eh)]; [by rewrite Eh in Hd|]. unfold node_dirty in Hd. rewrite Ef in Hd.
    assert (Hok : flag_ok D (db_read d) (Some tr) true f tr).
    { clear -Hr1 Ef. revert Hr1 Ef. generalize (root t1). intros n Hr1 Ef. inversion Hr1; subst; simpl in Ef; simplify_eq; done. }
    unfold flag_ok in Hok. rewrite Eh in Hok. destruct Hok as (_ & _ & Hp). by apply Hp.
Qed.

Lemma clean_Set_content d h e k : content d -> diskdb d !! arr_bytes h = Some e ->
  exists d', clean_Set h e (mkWorld k d) = (Ok (), mkWorld k d') /\ content d' /\ (forall x, dirties d' !! x = dirties d !! x) /\ diskdb d' = diskdb d.
Proof.
  intros Hct He. unfold clean_Set, modify. cbn [w_st w_tick]. destruct (cleans d) as [c|] eqn:Ec; eexists; (split; [done|]); (split; [|done]); [|done].
  destruct Hct as [H1 H2 H3 H4]. split; [|done..].
  intros h' e' E. unfold clean_Get in E. simpl in E. destruct (cache_law _ _ _ _ _ E) as [[Ek ->]|E']; [simpl; by rewrite Ek|].
  apply H1. unfold clean_Get. by rewrite Ec.
Qed.

(** [New] finds a stored root; loading it may fill the clean cache. *)
Lemma Trie_New_spec (Hnc : NoCollision) d k tr : content d -> (canon tr -> persisted D (db_read d) tr /\ stored D (db_read d) tr) -> tr = TNil \/ canon tr ->
  exists d' t', Trie_New (rootOf tr) (mkWorld k d) = (Ok t', mkWorld k d') /\ content d' /\ trieRep d t' tr
    /\ (forall x, dirties d' !! x = dirties d !! x) /\ diskdb d' = diskdb d.
Proof.
  intros Hct Hst Hc. unfold Trie_New. destruct Hc as [->|Hc].
  { cbn [rootOf]. rewrite (bool_decide_eq_true_2 (emptyRoot = emptyRoot)), andb_false_r by done. exists d, (mkTrie nilNode 0). split; [done|]. split; [done|].
    split; [|done]. split; [constructor|by left]. }
  destruct (Hst Hc) as [Hp Hs]. pose proof Hs as (_ & Hf & HD & E). rewrite rootOf_canon by done. set (h := BytesToHash (thash tr)) in *.
  assert (Hh : arr_bytes h = thash tr) by apply thash_bytes.
  rewrite (bool_decide_eq_false_2 (h = zeroHash)) by (intros Ez; apply (nc_zero Hnc (tenc tr) HD); rewrite <- Ez; by rewrite Hh).
  rewrite (bool_decide_eq_false_2 (h = emptyRoot)) by (intros Ez; apply (nc_empty Hnc (tenc tr) HD); rewrite <- Ez; by rewrite Hh). cbn [negb andb].
  assert (Hdb : exists d', db_node h (mkWorld k d) = (Ok (Some (load (Some (thash tr)) tr)), mkWorld k d') /\ content d'
    /\ (forall x, dirties d' !! x = dirties d !! x) /\ diskdb d' = diskdb d).
  { rewrite db_read_eq in E. unfold db_node, get, fmap, M_fmap, lift, mbind, M_bind. cbn [w_st].
    destruct (clean_Get d h) as [e|]; [|destruct (dirties d !! h) as [c|]; [|destruct (diskdb d !! arr_bytes h) as [e|] eqn:Ek; [|done]]].
    - exists d. destruct (mustDecodeNode _ e); try done. simpl in E. simplify_eq. done.
    - exists d. destruct (obj c h); try done. simpl in E. simplify_eq. done.
    - destruct (clean_Set_content d h e k Hct Ek) as (d' & -> & Hct' & ?). exists d'.
      destruct (mustDecodeNode _ e); try done. simpl in E. simplify_eq. done. }
  destruct Hdb as (d' & Ed & Hct' & Hdir & Hdisk). unfold mbind, M_bind. rewrite Ed. exists d', (mkTrie (load (Some (thash tr)) tr) 0).
  split; [done|]. split; [done|]. split; [|done]. split; [|by right]. eapply repb_weaken; [apply flag_mono|]. by apply load_root.
Qed.

(** The hash of a tree binds it. *)
Lemma load_not_hash h t x : load h t <> hashNode x.
Proof. by destruct t. Qed.

Lemma tenc_load t u : canon t -> canon u -> fits t -> fits u -> tenc t = tenc u -> load None t = load None u.
Proof.
  intros Ht Hu Hft Hfu E. pose proof (decodeNode_tenc t Ht Hft (S (length (tenc t))) None [] ltac:(lia)) as E1. rewrite E in E1.
  rewrite (decodeNode_tenc u Hu Hfu (S (length (tenc u))) None [] ltac:(lia)) in E1. congruence.
Qed.

Lemma known_sub t s : known t -> s ∈ subtrees t -> known s.
Proof. intros [Hf HD] Hs. split; [intros u Hu; apply Hf; by eapply subtrees_trans|]. intros u Hu. apply HD. by eapply subtrees_trans. Qed.

Lemma load_inj (Hnc : NoCollision) t : forall u, (t = TNil \/ (exists v, t = TVal v) \/ canon t) -> (u = TNil \/ (exists v, u = TVal v) \/ canon u) -> known t -> known u ->
  load None t = load None u -> t = u.
Proof.
  assert (Href : forall t u, (canon t -> canon u -> known t -> known u -> load None t = load None u -> t = u) ->
    (t = TNil \/ (exists v, t = TVal v) \/ canon t) -> (u = TNil \/ (exists v, u = TVal v) \/ canon u) -> known t -> known u -> lref t = lref u -> t = u).
  { clear t. intros t u IH Ht Hu Hkt Hku E. unfold lref in E.
    assert (Hcan : forall t, (t = TNil \/ (exists v, t = TVal v) \/ canon t) -> bigb t = true -> canon t) by (intros x [->|[[v ->]|?]]; done).
    destruct (bigb t) eqn:Bt, (bigb u) eqn:Bu.
    - pose proof (Hcan t Ht Bt) as Hct. pose proof (Hcan u Hu Bu) as Hcu. injection E as E. destruct Hkt as [Hft HDt], Hku as [Hfu HDu].
      apply (nc_inj Hnc) in E; [|apply HDt; [apply subtrees_self|done]|apply HDu; [apply subtrees_self|done]].
      apply IH; [done|done|done|done|]. by apply tenc_load.
    - symmetry in E. by apply load_not_hash in E.
    - by apply load_not_hash in E.
    - destruct Ht as [->|[[v ->]|Ht]], Hu as [->|[[v' ->]|Hu]]; simpl in E; try done; try congruence; try (by destruct Hu); try (by destruct Ht).
      by apply IH. }
  induction t as [|k t IH|ts IH|v] using tree_ind'; intros u Ht Hu Hkt Hku E.
  - destruct u; try done.
  - destruct u as [|k' u| |]; try done. simpl in E. injection E as -> E. f_equal.
    assert (Hsub : forall k x, known (TShort k x) -> known x) by (intros k x Hk; eapply known_sub; [done|]; apply subtrees_short, subtrees_self).
    assert (Hpart : forall k x, (TShort k x = TNil \/ (exists v, TShort k x = TVal v) \/ canon (TShort k x)) -> x = TNil \/ (exists v, x = TVal v) \/ canon x).
    { intros k x [?|[[v ?]|Hc]]; [done..|]. apply (canon_subtree (TShort k x)); [done|]. apply subtrees_short, subtrees_self. }
    apply Href; eauto.
  - destruct u as [| |us|]; try done. simpl in E. injection E as E. f_equal.
    assert (Hpart : forall x xs, (TFull xs = TNil \/ (exists v, TFull xs = TVal v) \/ canon (TFull xs)) -> x ∈ xs -> x = TNil \/ (exists v, x = TVal v) \/ canon x).
    { intros x xs [?|[[v ?]|Hc]] Hx; [done..|]. apply (canon_subtree (TFull xs)); [done|]. apply (subtrees_full _ x); [done|apply subtrees_self]. }
    assert (Hsub : forall x xs, known (TFull xs) -> x ∈ xs -> known x) by (intros x xs Hk Hx; eapply known_sub; [done|]; apply (subtrees_full _ x); [done|apply subtrees_self]).
    assert (Pt : forall x, x ∈ ts -> (x = TNil \/ (exists v, x = TVal v) \/ canon x) /\ known x) by (intros x Hx; split; eauto).
    assert (Pu : forall x, x ∈ us -> (x = TNil \/ (exists v, x = TVal v) \/ canon x) /\ known x) by (intros x Hx; split; eauto).
    clear -Href IH E Pt Pu. revert us E Pu. induction ts as [|t ts IHl]; intros [|u us] E Pu; try done. simpl in E. injection E as E1 E2.
    inversion IH as [|? ? IHt IHts]; subst. f_equal.
    + destruct (Pt t) as [? ?]; [by left|]. destruct (Pu u) as [? ?]; [by left|]. apply Href; auto.
    + apply IHl; [done|intros; apply Pt; by right|done|intros; apply Pu; by right].
  - destruct u; try done. simpl in E. congruence.
Qed.

Lemma rootOf_inj (Hnc : NoCollision) t u : t = TNil \/ canon t -> u = TNil \/ canon u -> known t -> known u -> rootOf t = rootOf u -> t = u.
Proof.
  assert (Hempty : forall t, canon t -> known t -> rootOf t <> emptyRoot).
  { intros x Hc [_ HD] E. apply (nc_empty Hnc (tenc x)); [apply HD; [apply subtrees_self|done]|]. rewrite <- E, rootOf_canon, thash_bytes by done. done. }
  intros [->|Ht] [->|Hu] Kt Ku E; [done|by destruct (Hempty u)|by destruct (Hempty t)|].
  rewrite !rootOf_canon in E by done. apply (f_equal arr_bytes) in E. rewrite !thash_bytes in E. pose proof Kt as [Ft Dt]. pose proof Ku as [Fu Du].
  apply (nc_inj Hnc) in E; [|apply Dt; [apply subtrees_self|done]|apply Du; [apply subtrees_self|done]].
  apply load_inj; auto. by apply tenc_load.
Qed.
End database.
