(* ===== verification/TrieBound.v ===== *)
(** The encodings of a trie are small when its keys and values are. *)

From S2P Require Import Prelude Common Rlp RlpEnc RlpDec Trie TrieMap TrieHash TrieEnc TrieStore.
From Stdlib Require Import Strings.Byte.

Lemma puthead_le st lt size : 0 <= size < 2 ^ 64 -> len (puthead st lt size) <= 9.
Proof.
  intros Hs. rewrite puthead_length by done. unfold headsize. destruct (Z.ltb_spec size 56); [lia|].
  rewrite intsize_min by lia. pose proof (min_bytes_len size). lia.
Qed.

Lemma enc_string_le b : len b < 2 ^ 64 -> len (enc_string b) <= len b + 9.
Proof.
  intros Hl. destruct (enc_string_cases b) as [(c & -> & _ & ->)|[-> _]]; [unfold len; simpl; lia|].
  rewrite len_app. pose proof (puthead_le 0x80 0xB7 (len b)). pose proof (len_nonneg b). lia.
Qed.

Lemma enc_list_le p : len p < 2 ^ 64 -> len (enc_list p) <= len p + 9.
Proof. intros Hl. unfold enc_list. rewrite len_app. pose proof (puthead_le 0xC0 0xF7 (len p)). pose proof (len_nonneg p). lia. Qed.

Lemma decodeNibbles_le n : forall l, (length l <= n)%nat -> (length (decodeNibbles l) <= length l)%nat.
Proof.
  induction n as [|n IH]; intros l Hl; [by destruct l; [|simpl in Hl; lia]|]. destruct l as [|a [|b l]]; simpl in *; try lia.
  pose proof (IH l). lia.
Qed.

Lemma hexToCompact_le k : len (hexToCompact k) <= len k + 1.
Proof.
  unfold hexToCompact. set (hex := if hasTerm k then stripTerm k else k).
  assert (Hh : (length hex <= length k)%nat) by (unfold hex, stripTerm; destruct (hasTerm k); [rewrite length_take|]; lia).
  unfold len in *. pose proof (decodeNibbles_le (length hex) hex). destruct (Z.eqb _ 1), hex as [|h0 rest]; simpl in *; try lia.
  pose proof (decodeNibbles_le (length rest) rest). lia.
Qed.

Section bound.
Context `{Crypto}.

(** Every key and value in a tree has at most [B] bytes. *)
Definition bounded (B : Z) (t : tree) : Prop := forall s, s ∈ subtrees t ->
  match s with TShort k _ => len k <= B | TVal v => len v <= B | _ => True end.

Lemma bounded_lookup B t : canon t -> (forall k v, hexkey k -> tlookup t k = Some v -> len k <= B /\ len v <= B) -> bounded B t.
Proof.
  induction t as [|k t IH|ts IH|v] using tree_ind'; intros Hc Hb.
  - by apply canon_not_nil in Hc.
  - destruct (canon_present _ Hc) as (key & v & Hkey & Hl). destruct (Hb key v Hkey Hl) as [Hk Hv]. apply lookup_short_Some in Hl as (l & -> & Hl).
    intros s Hs. simpl in Hs. apply elem_of_cons in Hs as [->|Hs]; [rewrite len_app in Hk; pose proof (len_nonneg l); lia|].
    inversion Hc as [? v' Hk' Hv'|? ts Hne Hn Hc'|]; subst.
    + simpl in Hl, Hs. apply list_elem_of_singleton in Hs as ->. by simplify_eq.
    + apply IH; [done| |done]. intros k' v' Hkk Hl'. destruct (Hb (k ++ k') v') as [Hlen ?]; [by apply hexkey_app|by rewrite tlookup_short|].
      rewrite len_app in Hlen. pose proof (len_nonneg k). split; [lia|done].
  - intros s Hs. apply subtrees_full_inv in Hs as [->|(t & Ht & Hs)]; [done|]. pose proof (proj1 (canon_slots _) Hc) as (Hlen & Hsl & _).
    apply list_elem_of_lookup in Ht as [i Hi]. pose proof (lookup_lt_Some _ _ _ Hi).
    assert (Hlk : forall k v, hexkey (bZ (Z.of_nat i) :: k) -> tlookup t k = Some v -> len k <= B /\ len v <= B).
    { intros k v Hk Hl. destruct (Hb _ v Hk) as [Hlk ?]; [by rewrite tlookup_full, nidx_bZ, Hi by lia|]. unfold len in *. simpl in Hlk. split; [lia|done]. }
    destruct (Hsl i t Hi) as [->|[[H16 Hct]|[-> (v & -> & Hv)]]]; simpl in Hs.
    + by apply list_elem_of_singleton in Hs as ->.
    + rewrite Forall_forall in IH. apply (IH t); [by eapply list_elem_of_lookup_2|done| |done]. intros k v Hk. apply Hlk. constructor; [|done].
      unfold nibble. rewrite Zb_bZ_small; lia.
    + apply list_elem_of_singleton in Hs as ->. apply (Hlk [] v); [constructor|done].
  - by apply canon_not_val in Hc.
Qed.

Lemma tref_le B t : 0 <= B < 2 ^ 63 -> bounded B t -> len (enc (tref t)) <= B + 64.
Proof.
  intros HB Hb. destruct (bigb t) eqn:Hbig.
  - rewrite tref_big by done. simpl. pose proof (enc_string_le (thash t)) as Hl.
    replace (len (thash t)) with 32 in Hl by (unfold len; by rewrite thash_len). lia.
  - rewrite tref_small by done. destruct t as [| | |v]; [change (len (enc (tval TNil))) with 1; lia|..].
    + apply bigb_small_len in Hbig; [|done..]. unfold tenc in Hbig. lia.
    + apply bigb_small_len in Hbig; [|done..]. unfold tenc in Hbig. lia.
    + pose proof (Hb (TVal v) (subtrees_self _)) as Hv. simpl in *. pose proof (enc_string_le v). lia.
Qed.

Lemma bounded_fits t : canon t -> bounded (2 ^ 56) t -> fits t.
Proof.
  intros Hc Hb s Hs. assert (Hbs : bounded (2 ^ 56) s) by (intros u Hu; apply Hb; by eapply subtrees_trans).
  destruct (canon_subtree t s Hc Hs) as [->|[[v ->]|Hcs]]; [done|..].
  - pose proof (Hbs (TVal v) (subtrees_self _)) as Hv. unfold tenc. simpl in *. pose proof (enc_string_le v). lia.
  - unfold tenc. destruct s as [|k u|ts|]; [by apply canon_not_nil in Hcs| | |by apply canon_not_val in Hcs].
    + rewrite tval_short. cbn [enc map concat]. rewrite app_nil_r. pose proof (Hbs _ (subtrees_self _)) as Hk. simpl in Hk.
      pose proof (hexToCompact_le k). pose proof (enc_string_le (hexToCompact k)).
      assert (Hu : len (enc (tref u)) <= 2 ^ 56 + 64) by (apply tref_le; [lia|]; intros x Hx; apply Hbs; by apply subtrees_short).
      pose proof (enc_list_le (enc_string (hexToCompact k) ++ enc (tref u))) as Hl. rewrite len_app in Hl. simpl. lia.
    + rewrite tval_full. simpl. pose proof (proj1 (canon_slots _) Hcs) as (Hlen & _).
      assert (Hsum : len (concat (map enc (map tref ts))) <= 17 * (2 ^ 56 + 64)).
      { replace 17 with (len ts) by (unfold len; lia). assert (Hall : forall u, u ∈ ts -> len (enc (tref u)) <= 2 ^ 56 + 64).
        { intros u Hu. apply tref_le; [lia|]. intros x Hx. apply Hbs. by eapply subtrees_full. }
        clear -Hall. induction ts as [|u ts IH]; [unfold len; simpl; lia|]. cbn [map concat]. rewrite len_app.
        pose proof (Hall u ltac:(by left)). assert (Hr : forall u, u ∈ ts -> len (enc (tref u)) <= 2 ^ 56 + 64) by (intros; apply Hall; by right).
        specialize (IH Hr). replace (len (u :: ts)) with (1 + len ts) by (unfold len; simpl; lia). lia. }
      pose proof (enc_list_le (concat (map enc (map tref ts)))). lia.
Qed.
End bound.
