(* ===== verification/TrieSpec.v ===== *)
(** The contract of the trie: an abstract finite map with a commitment.  Sequences
    of lookups, updates, deletions, hashings, commits and re-openings behave like
    the map, and the root hash stands for the map. *)

From S2P Require Import Prelude Common Rlp RlpEnc Trie TrieMap TrieHash TrieDB TrieEnc TrieStore TrieCommit TriePersist TrieBound.
From Stdlib Require Import Strings.Byte.

Notation kvmap := (gmap (list byte) (list byte)).

(** The tree that holds a map. *)
Definition treeOf (tr : tree) (m : kvmap) : Prop :=
  (tr = TNil \/ canon tr) /\ (forall key, tlookup tr (keybytesToHex key) = m !! key)
  /\ forall k v, hexkey k -> tlookup tr k = Some v -> exists key, k = keybytesToHex key.

Lemma treeOf_unique tr tr' m : treeOf tr m -> treeOf tr' m -> tr = tr'.
Proof.
  intros (Hc & Hl & Hk) (Hc' & Hl' & Hk').
  assert (Hsame : same_values tr tr').
  { intros k Hhex. destruct (tlookup tr k) as [v|] eqn:E.
    - destruct (Hk k v Hhex E) as [key ->]. rewrite Hl in E. by rewrite Hl', E.
    - destruct (tlookup tr' k) as [v|] eqn:E'; [|done]. destruct (Hk' k v Hhex E') as [key ->]. rewrite Hl' in E'. rewrite Hl in E. congruence. }
  destruct Hc as [->|Hc], Hc' as [->|Hc']; [done| | |by apply canon_unique].
  - destruct (canon_present _ Hc') as (k & v & Hhex & E). rewrite <- (Hsame k Hhex) in E. done.
  - destruct (canon_present _ Hc) as (k & v & Hhex & E). rewrite (Hsame k Hhex) in E. done.
Qed.

Lemma treeOf_empty : treeOf TNil ∅.
Proof. split; [by left|]. split; [done|]. done. Qed.

Lemma treeOf_insert tr tr' m key v : treeOf tr m -> (tr' = TNil \/ canon tr') ->
  (forall k, hexkey k -> tlookup tr' k = if decide (k = keybytesToHex key) then Some v else tlookup tr k) -> treeOf tr' (<[key := v]> m).
Proof.
  intros (Hc & Hl & Hk) Hc' Hlk. split; [done|]. split.
  - intros key'. rewrite Hlk by apply keybytesToHex_hexkey. destruct (decide (key' = key)) as [->|Hne].
    + by rewrite lookup_insert_eq, decide_True.
    + rewrite lookup_insert_ne, decide_False by (done || by intros ?%keybytesToHex_inj). apply Hl.
  - intros k v' Hhex E. rewrite Hlk in E by done. case_decide as Ek; [by exists key|]. by eapply Hk.
Qed.

Lemma treeOf_delete tr tr' m key : treeOf tr m -> (tr' = TNil \/ canon tr') ->
  (forall k, hexkey k -> tlookup tr' k = if decide (k = keybytesToHex key) then None else tlookup tr k) -> treeOf tr' (base.delete key m).
Proof.
  intros (Hc & Hl & Hk) Hc' Hlk. split; [done|]. split.
  - intros key'. rewrite Hlk by apply keybytesToHex_hexkey. destruct (decide (key' = key)) as [->|Hne].
    + by rewrite lookup_delete_eq, decide_True.
    + rewrite lookup_delete_ne, decide_False by (done || by intros ?%keybytesToHex_inj). apply Hl.
  - intros k v' Hhex E. rewrite Hlk in E by done. case_decide as Ek; [done|]. by eapply Hk.
Qed.

(** Keys and values of less than a terabyte. *)
Definition small (m : kvmap) : Prop := forall k v, m !! k = Some v -> len k <= 2 ^ 40 /\ len v <= 2 ^ 40.

Lemma len_keybytesToHex key : len (keybytesToHex key) = 2 * len key + 1.
Proof.
  unfold keybytesToHex. rewrite len_app. change (len [terminator]) with 1. f_equal.
  induction key as [|b key IH]; [done|]. cbn [map concat]. rewrite len_app, IH. unfold len. simpl length. lia.
Qed.

Lemma small_fits `{Crypto} tr m : treeOf tr m -> small m -> fits tr.
Proof.
  intros (Hc & Hl & Hk) Hs. destruct Hc as [->|Hc].
  - intros s Hs'. simpl in Hs'. by apply list_elem_of_singleton in Hs' as ->.
  - apply bounded_fits; [done|]. apply bounded_lookup; [done|]. intros k v Hhex E. destruct (Hk k v Hhex E) as [key ->].
    rewrite Hl in E. destruct (Hs key v E). rewrite len_keybytesToHex. lia.
Qed.

Section contract.
Context `{FastCache} `{Crypto} (D : list byte -> Prop).

(** A trie on top of a database holds a map. *)
Definition holds (d : Database) (t : Trie) (m : kvmap) : Prop := exists tr, trieRep D d t tr /\ treeOf tr m.

(** The map is small and its encodings are among those that occur. *)
Definition known_map (m : kvmap) : Prop := small m /\ forall tr s, treeOf tr m -> s ∈ subtrees tr -> canon s -> D (tenc s).

Lemma known_treeOf tr m : treeOf tr m -> known_map m -> known D tr.
Proof. intros Ht [Hs HD]. split; [by eapply small_fits|]. intros s Hin. by eapply HD. Qed.

Lemma keyFuel_enough key : (2 * length (keybytesToHex key) + 2 <= keyFuel (keybytesToHex key))%nat.
Proof. unfold keyFuel. lia. Qed.

Lemma TryGet_holds d t m key : holds d t m -> exists t', TryGet (db_read d) t key = (Ok (m !! key), t') /\ holds d t' m.
Proof.
  intros (tr & Hr & Ht). unfold TryGet.
  destruct (root_get D (db_read d) _ _ tr _ Hr (keybytesToHex_hexkey key) (keyFuel_enough key)) as (n' & b & E & Hr').
  rewrite E. pose proof Ht as (_ & Hl & _). rewrite Hl. eexists. split; [done|]. exists tr. split; [|done]. by destruct b.
Qed.

Lemma delete_holds d t u m key : holds d t m -> exists t', setRoot (mkTrie (root t) u) (delete (db_read d) (keyFuel (keybytesToHex key)) (root t) (keybytesToHex key)) = (Ok (), t')
  /\ holds d t' (base.delete key m).
Proof.
  intros (tr & Hr & Ht).
  destruct (root_delete D (db_read d) _ _ tr _ Hr (keybytesToHex_hexkey key) (keyFuel_enough key)) as (b & n' & tr' & E & Hr' & Hlk).
  rewrite E. eexists. split; [done|]. exists tr'. split; [done|]. eapply treeOf_delete; [done|apply Hr'|done].
Qed.

Lemma TryDelete_holds d t m key : holds d t m -> exists t', TryDelete (db_read d) t key = (Ok (), t') /\ holds d t' (base.delete key m).
Proof. intros Hh. by apply (delete_holds d t (unhashed t + 1)). Qed.

Lemma TryUpdate_holds d t m key v : holds d t m ->
  exists t', TryUpdate (db_read d) t key v = (Ok (), t') /\ holds d t' (if decide (v = []) then base.delete key m else <[key := v]> m).
Proof.
  intros Hh. unfold TryUpdate. destruct (decide (v = [])) as [->|Hv]; [by apply (delete_holds d t (unhashed t + 1))|].
  replace (negb (Z.eqb (len v) 0)) with true by (by destruct v).
  destruct Hh as (tr & Hr & Ht).
  destruct (root_insert D (db_read d) _ _ tr _ v Hr (keybytesToHex_hexkey key) Hv (keyFuel_enough key)) as (b & n' & tr' & E & Hr' & Hlk).
  cbn [root]. rewrite E. eexists. split; [done|]. exists tr'. split; [done|]. eapply treeOf_insert; [done|apply Hr'|done].
Qed.

Lemma holds_grows (Hnc : NoCollision D) d d' t m : content D d -> content D d' -> grows d d' -> holds d t m -> holds d' t m.
Proof. intros Hct Hct' Hg (tr & Hr & Ht). exists tr. split; [by eapply (trieRep_grows D Hnc d)|done]. Qed.

(** * Runs *)

Inductive trieOp :=
| opGet (key : list byte)
| opUpdate (key value : list byte)
| opDelete (key : list byte)
| opHash
(** commit the trie and go on with the one that [New] opens at the root hash *)
| opReopen.

Inductive reply :=
| rValue (v : option (list byte))
| rDone
| rRoot (h : Hash).

(** An operation of the trie [t].  The nodes that are loaded from disk on the way
    and enter the clean cache are not tracked. *)
Definition trieStep (op : trieOp) (t : Trie) : M Database (reply * Trie) :=
  match op with
  | opGet key => d ← get; let '(o, t) := TryGet (db_read d) t key in v ← lift o; mret (rValue v, t)
  | opUpdate key value => d ← get; let '(o, t) := TryUpdate (db_read d) t key value in lift o;; mret (rDone, t)
  | opDelete key => d ← get; let '(o, t) := TryDelete (db_read d) t key in lift o;; mret (rDone, t)
  | opHash => let '(o, t) := Trie_Hash t in h ← lift o; mret (rRoot h, t)
  | opReopen => '(h, _) ← Trie_Commit None t; t ← Trie_New h; mret (rRoot h, t)
  end.

Fixpoint trieRun (ops : list trieOp) (t : Trie) : M Database (list reply * Trie) :=
  match ops with
  | [] => mret ([], t)
  | op :: ops => '(r, t) ← trieStep op t; '(rs, t) ← trieRun ops t; mret (r :: rs, t)
  end.

(** The map: what an operation replies, and the map afterwards. *)
Definition mapStep (op : trieOp) (m : kvmap) : kvmap :=
  match op with
  | opUpdate key value => if decide (value = []) then base.delete key m else <[key := value]> m
  | opDelete key => base.delete key m
  | opGet _ | opHash | opReopen => m
  end.

Definition mapReply (op : trieOp) (m : kvmap) (r : reply) : Prop :=
  match op with
  | opGet key => r = rValue (m !! key)
  | opUpdate _ _ | opDelete _ => r = rDone
  | opHash | opReopen => exists tr, treeOf tr m /\ r = rRoot (rootOf tr)
  end.

Fixpoint mapRun (ops : list trieOp) (m : kvmap) (rs : list reply) : Prop :=
  match ops, rs with
  | [], [] => True
  | op :: ops, r :: rs => mapReply op m r /\ mapRun ops (mapStep op m) rs
  | _, _ => False
  end.

(** The maps that a run goes through. *)
Fixpoint maps (ops : list trieOp) (m : kvmap) : list kvmap :=
  m :: match ops with [] => [] | op :: ops => maps ops (mapStep op m) end.

Lemma trieStep_holds (Hnc : NoCollision D) op d k t m : content D d -> holds d t m -> known_map m ->
  exists r t' k' d', trieStep op t (mkWorld k d) = (Ok (r, t'), mkWorld k' d') /\ mapReply op m r /\ content D d' /\ holds d' t' (mapStep op m).
Proof.
  intros Hct Hh Hkn. destruct op as [key|key v|key| |]; cbn [trieStep mapReply mapStep];
    cbv beta iota zeta delta [get lift mret M_ret mbind M_bind w_st].
  - destruct (TryGet_holds d t m key Hh) as (t' & -> & Hh'). by eexists _, t', k, d.
  - destruct (TryUpdate_holds d t m key v Hh) as (t' & -> & Hh'). by eexists _, t', k, d.
  - destruct (TryDelete_holds d t m key Hh) as (t' & -> & Hh'). by eexists _, t', k, d.
  - destruct Hh as (tr & Hr & Ht). destruct (Trie_Hash_spec D d t tr Hr) as (t' & -> & Hr' & _); [by eapply known_treeOf|].
    eexists _, t', k, d. split; [done|]. split; [by exists tr|]. split; [done|]. by exists tr.
  - destruct Hh as (tr & Hr & Ht). destruct (Trie_Commit_spec D Hnc None d k t tr I Hct Hr (known_treeOf _ _ Ht Hkn)) as (k' & d1 & t1 & -> & Hct1 & Hg1 & Hr1 & Hst).
    destruct (Trie_New_spec D Hnc d1 k' tr Hct1 Hst) as (d2 & t2 & -> & Hct2 & Hr2 & Hdir & Hdisk); [apply Ht|].
    eexists _, t2, k', d2. split; [done|]. split; [by exists tr|]. split; [done|]. exists tr. split; [|done].
    eapply (trieRep_grows D Hnc d1); [done|done| |done]. intros h. unfold avail. by rewrite Hdir, Hdisk.
Qed.

Lemma trieRun_holds (Hnc : NoCollision D) ops : forall d k t m, content D d -> holds d t m -> (forall m', m' ∈ maps ops m -> known_map m') ->
  exists rs t' k' d', trieRun ops t (mkWorld k d) = (Ok (rs, t'), mkWorld k' d') /\ mapRun ops m rs /\ content D d' /\ holds d' t' (foldl (fun m op => mapStep op m) m ops).
Proof.
  induction ops as [|op ops IH]; intros d k t m Hct Hh Hkn; cbn [trieRun].
  - by eexists [], t, k, d.
  - destruct (trieStep_holds Hnc op d k t m Hct Hh) as (r & t1 & k1 & d1 & E & Hr & Hct1 & Hh1); [apply Hkn; cbn [maps]; by left|].
    destruct (IH d1 k1 t1 (mapStep op m) Hct1 Hh1) as (rs & t2 & k2 & d2 & E2 & Hrs & Hct2 & Hh2); [intros m' Hm'; apply Hkn; cbn [maps]; by right|].
    exists (r :: rs), t2, k2, d2. unfold mbind, M_bind. rewrite E, E2. by split_and!.
Qed.
End contract.

(** * Properties *)

(** C5: The trie refines a finite map.  Over any database that keeps every blob
    under its hash, and as long as Keccak-256 does not collide on the encodings that
    occur, every sequence of lookups, updates (an empty value deletes), deletions,
    hashings and commits followed by opening the trie again at its root hash succeeds
    and replies as the map does; the trie holds the resulting map at the end. *)
Theorem trie_refines_map `{FastCache} `{Crypto} (D : list byte -> Prop) (Hnc : NoCollision D) ops d k t m
  (Hct : content D d) (Hh : holds D d t m) (Hkn : forall m', m' ∈ maps ops m -> known_map D m') :
  exists rs t' k' d', trieRun ops t (mkWorld k d) = (Ok (rs, t'), mkWorld k' d') /\ mapRun ops m rs
    /\ content D d' /\ holds D d' t' (foldl (fun m op => mapStep op m) m ops).
Proof. by apply trieRun_holds. Qed.

(** C6: The root hash of a trie stands for its contents: [Trie.Hash] succeeds, and
    two tries, whatever the order of the updates that built them and the nodes they
    have loaded, have the same root hash exactly if they hold the same map. *)
Theorem root_hash_identifies_map `{FastCache} `{Crypto} (D : list byte -> Prop) (Hnc : NoCollision D) d1 d2 t1 t2 m1 m2
  (H1 : holds D d1 t1 m1) (H2 : holds D d2 t2 m2) (K1 : known_map D m1) (K2 : known_map D m2) :
  exists h1 h2, fst (Trie_Hash t1) = Ok h1 /\ fst (Trie_Hash t2) = Ok h2 /\ (h1 = h2 <-> m1 = m2).
Proof.
  destruct H1 as (tr1 & R1 & T1), H2 as (tr2 & R2 & T2).
  pose proof (known_treeOf D _ _ T1 K1) as Kt1. pose proof (known_treeOf D _ _ T2 K2) as Kt2.
  destruct (Trie_Hash_spec D d1 t1 tr1 R1) as (? & E1 & _); [apply Kt1|]. destruct (Trie_Hash_spec D d2 t2 tr2 R2) as (? & E2 & _); [apply Kt2|].
  exists (rootOf tr1), (rootOf tr2). rewrite E1, E2. split; [done|]. split; [done|]. split.
  - intros E. apply (rootOf_inj D Hnc) in E as ->; try done; [|apply T1|apply T2]. apply map_eq. intros key.
    destruct T1 as (_ & L1 & _), T2 as (_ & L2 & _). by rewrite <- L1, <- L2.
  - intros <-. f_equal. by eapply treeOf_unique.
Qed.

(** C7: A committed trie can be opened again.  [Trie.Commit], with any leaf callback
    that keeps the database in order, succeeds and returns the root hash of the map;
    any later state of the database that has lost nothing opens a trie with this map
    at that hash, and every trie that was open before still holds its map. *)
Theorem committed_trie_reopens `{FastCache} `{Crypto} (D : list byte -> Prop) (Hnc : NoCollision D) onleaf d k t m
  (Hon : onleaf_ok D onleaf) (Hct : content D d) (Hh : holds D d t m) (Hkn : known_map D m) :
  exists r t1 k1 d1, Trie_Commit onleaf t (mkWorld k d) = (Ok (r, t1), mkWorld k1 d1) /\ content D d1 /\ holds D d1 t1 m
    /\ (forall t0 m0, holds D d t0 m0 -> holds D d1 t0 m0)
    /\ forall d2 k2, content D d2 -> grows d1 d2 ->
       exists t3 d3, Trie_New r (mkWorld k2 d2) = (Ok t3, mkWorld k2 d3) /\ content D d3 /\ holds D d3 t3 m.
Proof.
  destruct Hh as (tr & Hr & Ht).
  destruct (Trie_Commit_spec D Hnc onleaf d k t tr Hon Hct Hr (known_treeOf D _ _ Ht Hkn)) as (k1 & d1 & t1 & E & Hct1 & Hg & Hr1 & Hst).
  exists (rootOf tr), t1, k1, d1. split; [done|]. split; [done|]. split; [by exists tr|]. split; [intros t0 m0; by apply (holds_grows D Hnc d)|].
  intros d2 k2 Hct2 Hg2. destruct (Trie_New_spec D Hnc d2 k2 tr Hct2) as (d3 & t3 & E3 & Hct3 & Hr3 & Hdir & Hdisk); [|apply Ht|].
  - intros Hc. destruct (Hst Hc). split; [by apply (persisted_grows D Hnc d1)|by apply (stored_grows D Hnc d1)].
  - exists t3, d3. split; [done|]. split; [done|]. exists tr. split; [|done]. apply (trieRep_grows D Hnc d2); try done.
    intros h. unfold avail. by rewrite Hdir, Hdisk.
Qed.

(** * An example *)

(** The tree of a node that is loaded completely. *)
Fixpoint nodeTree (n : node) : option tree :=
  match n with
  | nilNode => Some TNil
  | valueNode v => Some (TVal v)
  | shortNode k n _ => TShort k <$> nodeTree n
  | fullNode ns _ => TFull <$> mapM nodeTree ns
  | hashNode _ => None
  end.

Lemma nodeTree_rep db fo ho n : forall b t t', repb db fo ho b n t -> nodeTree n = Some t' -> t' = t.
Proof.
  induction n as [|k n f IH|ns f IH|h|v] using node_ind'; intros b t t' Hr E; simpl in E; try done.
  - inversion Hr; subst. by simplify_eq.
  - inversion Hr; subst. destruct (nodeTree n) as [u|] eqn:Eu; [|done]. simplify_eq/=. f_equal. by eapply IH.
  - inversion Hr as [| | |? ? ts ? Hrs _|]; subst. destruct (mapM nodeTree ns) as [us|] eqn:Eu; [|done]. simplify_eq/=. f_equal.
    apply mapM_Some in Eu. clear Hr. revert ts Hrs. induction Eu as [|n u ns us Hu _ IHl]; intros ts Hrs; inversion Hrs; subst; [done|].
    inversion IH; subst. f_equal; [by eauto|by apply IHl].
  - inversion Hr; subst. by simplify_eq.
Qed.

Lemma known_of `{FastCache} `{Crypto} D d t m tr : holds D d t m -> small m -> nodeTree (root t) = Some tr ->
  Forall (fun s => match s with TShort _ _ | TFull _ => D (tenc s) | _ => True end) (subtrees tr) -> known_map D m.
Proof.
  intros (tr' & [Hr _] & Ht) Hs E HD. split; [done|]. intros tr'' s Ht'' Hin Hc.
  rewrite <- (treeOf_unique _ _ _ Ht Ht'') in Hin. rewrite (nodeTree_rep _ _ _ _ _ _ _ Hr E) in HD.
  rewrite Forall_forall in HD. specialize (HD s Hin). by destruct Hc.
Qed.

Lemma small_insert m k v : small m -> len k <= 2 ^ 40 -> len v <= 2 ^ 40 -> small (<[k := v]> m).
Proof. intros Hm Hk Hv k' v' [[<- <-]|[_ E]]%lookup_insert_Some; [done|by apply Hm]. Qed.

Lemma small_empty : small ∅.
Proof. by intros k v E. Qed.

(** A cache that forgets nothing, and a digest of the last bytes. *)
Definition plainCache : FastCache.
Proof.
  refine {| cache := gmap (list byte) (list byte); cache_Get := fun c k => c !! k; cache_Set := fun c k v => <[k := v]> c |}.
  intros c k v k' x [[-> ->]|[_ ?]]%lookup_insert_Some; auto.
Defined.

Definition endsHash : Crypto.
Proof.
  refine {| sha3_keccak256 := fun b => take 32 (take 16 b ++ drop (length b - 15) b ++ Byte.x01 :: replicate 32 Byte.x00) |}.
  intros b. rewrite length_take, !length_app. cbn [length]. rewrite length_replicate. lia.
Defined.

Module Sample.
#[local] Existing Instances plainCache endsHash.

Definition k1 : list byte := [Byte.x12; Byte.x34].
Definition k2 : list byte := [Byte.x12; Byte.x56].
Definition v1 : list byte := replicate 40 Byte.xaa.
Definition v2 : list byte := replicate 33 Byte.xbb.
Definition m1 : kvmap := <[k1 := v1]> ∅.
Definition m2 : kvmap := <[k2 := v2]> m1.
Definition d0 : Database := NewDatabase ∅ (Some ∅) false.
Definition t0 : Trie := mkTrie nilNode 0.
Definition t1 : Trie := snd (TryUpdate (db_read d0) t0 k1 v1).
Definition t2 : Trie := snd (TryUpdate (db_read d0) t1 k2 v2).
Definition tr1 : tree := default TNil (nodeTree (root t1)).
Definition tr2 : tree := default TNil (nodeTree (root t2)).

(** The encodings that occur. *)
Definition encodings : list (list byte) :=
  map tenc (List.filter (fun s => match s with TShort _ _ | TFull _ => true | _ => false end) (subtrees tr1 ++ subtrees tr2)).
Definition D (e : list byte) : Prop := e ∈ encodings.

(** Five nodes, four of them too large to be embedded. *)
Lemma encodings_distinct :
  forallb (fun a => forallb (fun b => negb (bool_decide (Keccak256 [a] = Keccak256 [b])) || bool_decide (a = b)) encodings
    && negb (bool_decide (Keccak256 [a] = arr_bytes zeroHash)) && negb (bool_decide (Keccak256 [a] = arr_bytes emptyRoot))) encodings = true.
Proof. vm_compute. reflexivity. Qed.

Lemma D_NoCollision : NoCollision D.
Proof.
  assert (Ha : forall a, D a -> (forall b, D b -> Keccak256 [a] = Keccak256 [b] -> a = b) /\ Keccak256 [a] <> arr_bytes zeroHash /\ Keccak256 [a] <> arr_bytes emptyRoot).
  { intros a Ha%list_elem_of_In. pose proof (proj1 (forallb_forall _ _) encodings_distinct a Ha) as E. cbv beta in E. rewrite !andb_true_iff in E.
    destruct E as [[E1 E2%negb_true_iff%bool_decide_eq_false] E3%negb_true_iff%bool_decide_eq_false]. split; [|done].
    intros b Hb%list_elem_of_In E. pose proof (proj1 (forallb_forall _ _) E1 b Hb) as E4. cbv beta in E4. rewrite E, bool_decide_eq_true_2 in E4 by done.
    by apply bool_decide_eq_true in E4. }
  split; intros a; [intros b Ha' Hb; by apply Ha|intros Ha'; by apply Ha|intros Ha'; by apply Ha].
Qed.

Lemma D_content : content D d0.
Proof.
  split.
  - intros h e E. discriminate E.
  - intros h e E. discriminate E.
  - intros h c Hz E. unfold d0, NewDatabase in E. cbn [dirties] in E. apply lookup_singleton_Some in E as [<- _]. done.
  - done.
Qed.

Lemma holds_t0 : holds D d0 t0 ∅.
Proof. exists TNil. split; [split; [constructor|by left]|apply treeOf_empty]. Qed.

Lemma holds_t1 : holds D d0 t1 m1.
Proof. destruct (TryUpdate_holds D d0 t0 ∅ k1 v1 holds_t0) as (t & E & Hh). unfold t1. by rewrite E. Qed.

Lemma holds_t2 : holds D d0 t2 m2.
Proof. destruct (TryUpdate_holds D d0 t1 m1 k2 v2 holds_t1) as (t & E & Hh). unfold t2. by rewrite E. Qed.

Lemma known_m0 : known_map D ∅.
Proof. apply (known_of D d0 t0 ∅ TNil); [apply holds_t0|apply small_empty|done|by repeat constructor]. Qed.

Lemma known_m1 : known_map D m1.
Proof.
  apply (known_of D d0 t1 m1 tr1); [apply holds_t1|apply small_insert; [apply small_empty|done..]|vm_compute; reflexivity|].
  apply Forall_forall. intros s Hs. destruct s as [|k u|us|] eqn:Es; try done; apply list_elem_of_fmap_2, list_elem_of_In, filter_In;
    (split; [|done]); apply in_or_app; left; by apply list_elem_of_In.
Qed.

Lemma known_m2 : known_map D m2.
Proof.
  apply (known_of D d0 t2 m2 tr2); [apply holds_t2|apply small_insert; [apply small_insert; [apply small_empty|done..]|done..]|vm_compute; reflexivity|].
  apply Forall_forall. intros s Hs. destruct s as [|k u|us|] eqn:Es; try done; apply list_elem_of_fmap_2, list_elem_of_In, filter_In;
    (split; [|done]); apply in_or_app; right; by apply list_elem_of_In.
Qed.

Definition ops : list trieOp := [opUpdate k1 v1; opUpdate k2 v2; opReopen; opGet k1; opDelete k2; opHash].

Lemma known_ops m : m ∈ maps ops ∅ -> known_map D m.
Proof.
  assert (Ed : base.delete k2 m2 = m1) by (apply delete_insert_id; vm_compute; reflexivity).
  unfold ops. cbn [maps mapStep]. rewrite !decide_False by done. fold m1. fold m2. rewrite Ed. rewrite !elem_of_cons, elem_of_nil.
  intros [->|[->|[->|[->|[->|[->|[->|[]]]]]]]]; (apply known_m0 || apply known_m1 || apply known_m2).
Qed.
End Sample.

#[local] Existing Instances plainCache endsHash.
Lemma trie_refines_map_witness :
  exists rs t' k' d', trieRun Sample.ops Sample.t0 (mkWorld 0 Sample.d0) = (Ok (rs, t'), mkWorld k' d')
    /\ mapRun Sample.ops ∅ rs /\ content Sample.D d'
    /\ holds Sample.D d' t' (foldl (fun m op => mapStep op m) ∅ Sample.ops).
Proof.
  apply (trie_refines_map Sample.D Sample.D_NoCollision); [apply Sample.D_content|apply Sample.holds_t0|apply Sample.known_ops].
Defined.

Lemma root_hash_identifies_map_witness :
  exists h1 h2, fst (Trie_Hash Sample.t1) = Ok h1 /\ fst (Trie_Hash Sample.t2) = Ok h2 /\ (h1 = h2 <-> Sample.m1 = Sample.m2).
Proof.
  apply (root_hash_identifies_map Sample.D Sample.D_NoCollision Sample.d0 Sample.d0);
    [apply Sample.holds_t1|apply Sample.holds_t2|apply Sample.known_m1|apply Sample.known_m2].
Defined.

Lemma committed_trie_reopens_witness :
  exists r t1 k1 d1, Trie_Commit None Sample.t2 (mkWorld 0 Sample.d0) = (Ok (r, t1), mkWorld k1 d1)
    /\ content Sample.D d1 /\ holds Sample.D d1 t1 Sample.m2
    /\ (forall t0 m0, holds Sample.D Sample.d0 t0 m0 -> holds Sample.D d1 t0 m0)
    /\ forall d2 k2, content Sample.D d2 -> grows d1 d2 ->
       exists t3 d3, Trie_New r (mkWorld k2 d2) = (Ok t3, mkWorld k2 d3)
         /\ content Sample.D d3 /\ holds Sample.D d3 t3 Sample.m2.
Proof.
  apply (committed_trie_reopens Sample.D Sample.D_NoCollision); [exact I|apply Sample.D_content|apply Sample.holds_t2|apply Sample.known_m2].
Defined.
