(* ===== verification/Packets.v ===== *)
(** The consensus packets: their payload types and RLP codecs, the packet
    header, signature recovery ([parsePacket]), the hashes that the votes are
    about, and the clock functions of the consensus engine.

    Models the packet types, the hash functions and the time functions of
    src/consensus/proofofstake/PacketHandler.go, the payload types of
    src/consensus/proofofstake/PeerHandler.go and the interface of
    src/crypto/signaturealgorithm. *)

From S2P Require Import Prelude Common Selection Rlp RlpEnc RlpDec.
From Stdlib Require Import Strings.Byte.

(** * Constants *)

Definition BLOCK_TIMEOUT_MS : Z := 60000.
Definition FULL_BLOCK_TIMEOUT_MS : Z := 90000.
Definition ACK_BLOCK_TIMEOUT_MS : Z := 300000.
Definition BLOCK_CLEANUP_TIME_MS : Z := 900000.
Definition MAX_ROUND : Z := 2.
Definition BROADCAST_RESEND_DELAY : Z := 10000.
Definition BROADCAST_CLEANUP_DELAY : Z := 1800000.
Definition CONSENSUS_DATA_REQUEST_RESEND_DELAY : Z := 30000.
Definition STARTUP_DELAY_MS : Z := 120000.
Definition BLOCK_PERIOD_TIME_CHANGE : Z := 64.
Definition ALLOWED_TIME_SKEW_MINUTES : Z := 3.
Definition STALE_BLOCK_WARN_TIME : Z := 1800 * 1000.

Definition InvalidPacketErr := Sentinel "InvalidPacketErr".
Definition OutOfOrderPackerErr := Sentinel "OutOfOrderPackerErr".
Definition UnknownParentHashErr := Sentinel "UnknownParentHashErr".

(** [type BlockRoundState byte] *)
Definition BLOCK_STATE_UNKNOWN : Z := 0.
Definition BLOCK_STATE_WAITING_FOR_PROPOSAL : Z := 1.
Definition BLOCK_STATE_WAITING_FOR_PROPOSAL_ACKS : Z := 2.
Definition BLOCK_STATE_WAITING_FOR_PRECOMMITS : Z := 3.
Definition BLOCK_STATE_WAITING_FOR_COMMITS : Z := 4.
Definition BLOCK_STATE_RECEIVED_COMMITS : Z := 5.

(** [type ConsensusPacketType byte] *)
Definition CONSENSUS_PACKET_TYPE_PROPOSE_BLOCK : Z := 0.
Definition CONSENSUS_PACKET_TYPE_ACK_BLOCK_PROPOSAL : Z := 1.
Definition CONSENSUS_PACKET_TYPE_PRECOMMIT_BLOCK : Z := 2.
Definition CONSENSUS_PACKET_TYPE_COMMIT_BLOCK : Z := 3.
Definition CONSENSUS_PACKET_TYPE_CAPABILITY : Z := 6.
Definition CONSENSUS_PACKET_TYPE_SYNC : Z := 7.

(** [type VoteType byte] *)
Definition VOTE_TYPE_OK : Z := 1.
Definition VOTE_TYPE_NIL : Z := 2.

(** [type NewRoundReason byte] *)
Definition NEW_ROUND_REASON_START : Z := 1.
Definition NEW_ROUND_REASON_WAIT_ACK_BLOCK_PROPOSAL_TIMEOUT : Z := 2.
Definition NEW_ROUND_REASON_WAIT_ACK_BLOCK_PROPOSAL_HIGHER_ROUND : Z := 3.
Definition NEW_ROUND_REASON_WAIT_PRECOMMIT_TIMEOUT : Z := 4.

Definition MinConsensusNetworkProtocolVersion : Z := 5.
Definition ConsensusNetworkProtocolVersion : Z := 5.

(** [hybrideds.CRYPTO_SIGNATURE_BYTES] *)
Definition CRYPTO_SIGNATURE_BYTES : Z := 2 + 64 + 2420 + 40 + 32.

(** * Payloads *)

Record ProposalDetails := mkProposalDetails {
  Txns : list Hash;
  pd_Round : Z;
  pd_BlockTime : Z;
}.

Record ProposalAckDetails := mkProposalAckDetails {
  pad_ProposalHash : Hash;
  ProposalAckVoteType : Z;
  pad_Round : Z;
}.

Record PreCommitDetails := mkPreCommitDetails {
  pcd_PrecommitHash : Hash;
  pcd_Round : Z;
}.

Record CommitDetails := mkCommitDetails {
  CommitHash : Hash;
  cd_Round : Z;
}.

Record RequestConsensusPacketDetails := mkRequestConsensusPacketDetails {
  RequestProposal : bool;
  ValidatorProposalAcks : list Address;
  ValidatorPrecommits : list Address;
  ValidatorCommits : list Address;
  rcd_Round : Z;
}.

(** PeerHandler.go; peer ids are Go strings, here their bytes. *)
Record CapabilityDetails := mkCapabilityDetails {
  cap_IsConsensusRelay : bool;
  cap_PeerId : list byte;
}.

Record RequestConsensusSyncDetails := mkRequestConsensusSyncDetails {
  rcs_IsConsensusRelay : bool;
  rcs_PeerId : list byte;
}.

(** ** RLP codecs

    The reflected type of a payload struct, and the two directions of the
    correspondence between Go values and RLP values. *)
Class RlpStruct (A : Type) := {
  rlp_type : rtype;
  to_rval : A -> rval;
  of_rval : rval -> option A;
  rlp_wf : wf_type rlp_type;
  of_to_rval : forall a, of_rval (to_rval a) = Some a;
  to_of_rval : forall v, has_type rlp_type v -> exists a, of_rval v = Some a /\ to_rval a = v;
}.

Definition rlp_EncodeToBytes `{RlpStruct A} (a : A) : outcome (list byte) :=
  EncodeToBytes rlp_type (to_rval a).

Definition rlp_DecodeBytes {A} `{RlpStruct A} (b : list byte) : outcome A :=
  match DecodeBytes rlp_type b with
  | Ok v => match of_rval v with Some a => Ok a | None => Panic "reflect" end
  | Fail e => Fail e
  | Panic p => Panic p
  end.

(** Fixed-size arrays and lists of them. *)
Definition arr_of {n} (b : list byte) : option (byteArray n) :=
  match decide (length b = n) with
  | left H => Some (dexist b H)
  | right _ => None
  end.

Definition v_arr {n} (a : byteArray n) : rval := VBytes (arr_bytes a).
Definition of_v_arr {n} (v : rval) : option (byteArray n) :=
  match v with VBytes b => arr_of b | _ => None end.
Definition v_arrs {n} (l : list (byteArray n)) : rval := VList (map v_arr l).
Definition of_v_arrs {n} (v : rval) : option (list (byteArray n)) :=
  match v with VList l => mapM of_v_arr l | _ => None end.

Lemma of_v_arr_v_arr {n} (a : byteArray n) : of_v_arr (v_arr a) = Some a.
Proof.
  unfold of_v_arr, v_arr, arr_of. destruct (decide _) as [H|H].
  - f_equal. by apply arr_bytes_inj.
  - exfalso. apply H, arr_bytes_length.
Qed.

Lemma v_arr_of_v_arr {n} v : has_type (TByteArray n) v -> exists a : byteArray n, of_v_arr v = Some a /\ v_arr a = v.
Proof.
  destruct v as [| |b| |]; simpl; try done. intros [Hl _]. unfold arr_of. destruct (decide _) as [H|H]; [|done].
  eexists. split; [done|]. done.
Qed.

Lemma of_v_arrs_v_arrs {n} (l : list (byteArray n)) : of_v_arrs (v_arrs l) = Some l.
Proof.
  unfold of_v_arrs, v_arrs. apply mapM_Some.
  induction l; simpl; constructor; [apply of_v_arr_v_arr|done].
Qed.

Lemma v_arrs_of_v_arrs {n} v : has_type (TSlice (TByteArray n)) v ->
  exists l : list (byteArray n), of_v_arrs v = Some l /\ v_arrs l = v.
Proof.
  destruct v as [| | | |l]; simpl; try done. intros [Hl _]. unfold v_arrs.
  induction Hl as [|v l Hv _ IH]; [by exists []|]. destruct IH as (l' & Hl' & [= Heq]).
  destruct (v_arr_of_v_arr v Hv) as (a & Ha & Hav). exists (a :: l'). rewrite mapM_Some in *.
  split; [by constructor|]. simpl. by rewrite Hav, Heq.
Qed.

(** Solves the laws of a codec, field by field. *)
Ltac rlp_of_to := intros []; cbn -[of_v_arrs v_arrs of_v_arr v_arr]; rewrite ?of_v_arr_v_arr, ?of_v_arrs_v_arrs; reflexivity.
Ltac rlp_to_of :=
  intros v Hv;
  repeat match goal with
  | H : has_type (TStruct _) ?v |- _ => destruct v as [| | | |?l]; try done; destruct H as [H _]
  | H : fields_type _ (_ :: _) ?l |- _ => destruct l as [|? ?]; try done; destruct H as [? H]
  | H : fields_type _ [] ?l |- _ => destruct l; [clear H|done]
  | H : has_type (TUint _) ?v |- _ => destruct v; try done; clear H
  | H : has_type TBool ?v |- _ => destruct v; try done; clear H
  | H : has_type TString ?v |- _ => destruct v; try done; clear H
  | H : has_type (TByteArray _) ?v |- _ => destruct (v_arr_of_v_arr v H) as (? & ? & <-); clear H
  | H : has_type (TSlice (TByteArray _)) ?v |- _ => destruct (v_arrs_of_v_arrs v H) as (? & ? & <-); clear H
  end;
  cbn -[of_v_arrs v_arrs of_v_arr v_arr]; rewrite ?of_v_arr_v_arr, ?of_v_arrs_v_arrs; simpl;
  eexists; split; reflexivity.

#[export] Instance rlp_ProposalDetails : RlpStruct ProposalDetails := {|
  rlp_type := TStruct [TSlice (TByteArray 32); TUint 8; TUint 64];
  to_rval := fun d => VList [v_arrs (Txns d); VUint (pd_Round d); VUint (pd_BlockTime d)];
  of_rval := fun v => match v with
    | VList [txns; VUint round; VUint time] =>
        txns ← of_v_arrs txns; Some (mkProposalDetails txns round time)
    | _ => None end;
  rlp_wf := ltac:(simpl; naive_solver);
  of_to_rval := ltac:(rlp_of_to);
  to_of_rval := ltac:(rlp_to_of);
|}.

#[export] Instance rlp_ProposalAckDetails : RlpStruct ProposalAckDetails := {|
  rlp_type := TStruct [TByteArray 32; TUint 8; TUint 8];
  to_rval := fun d => VList [v_arr (pad_ProposalHash d); VUint (ProposalAckVoteType d); VUint (pad_Round d)];
  of_rval := fun v => match v with
    | VList [h; VUint vote; VUint round] => h ← of_v_arr h; Some (mkProposalAckDetails h vote round)
    | _ => None end;
  rlp_wf := ltac:(simpl; naive_solver);
  of_to_rval := ltac:(rlp_of_to);
  to_of_rval := ltac:(rlp_to_of);
|}.

#[export] Instance rlp_PreCommitDetails : RlpStruct PreCommitDetails := {|
  rlp_type := TStruct [TByteArray 32; TUint 8];
  to_rval := fun d => VList [v_arr (pcd_PrecommitHash d); VUint (pcd_Round d)];
  of_rval := fun v => match v with
    | VList [h; VUint round] => h ← of_v_arr h; Some (mkPreCommitDetails h round)
    | _ => None end;
  rlp_wf := ltac:(simpl; naive_solver);
  of_to_rval := ltac:(rlp_of_to);
  to_of_rval := ltac:(rlp_to_of);
|}.

#[export] Instance rlp_CommitDetails : RlpStruct CommitDetails := {|
  rlp_type := TStruct [TByteArray 32; TUint 8];
  to_rval := fun d => VList [v_arr (CommitHash d); VUint (cd_Round d)];
  of_rval := fun v => match v with
    | VList [h; VUint round] => h ← of_v_arr h; Some (mkCommitDetails h round)
    | _ => None end;
  rlp_wf := ltac:(simpl; naive_solver);
  of_to_rval := ltac:(rlp_of_to);
  to_of_rval := ltac:(rlp_to_of);
|}.

#[export] Instance rlp_RequestConsensusPacketDetails : RlpStruct RequestConsensusPacketDetails := {|
  rlp_type := TStruct [TBool; TSlice (TByteArray 32); TSlice (TByteArray 32); TSlice (TByteArray 32); TUint 8];
  to_rval := fun d => VList [VBool (RequestProposal d); v_arrs (ValidatorProposalAcks d);
    v_arrs (ValidatorPrecommits d); v_arrs (ValidatorCommits d); VUint (rcd_Round d)];
  of_rval := fun v => match v with
    | VList [VBool p; acks; pres; coms; VUint round] =>
        acks ← of_v_arrs acks; pres ← of_v_arrs pres; coms ← of_v_arrs coms;
        Some (mkRequestConsensusPacketDetails p acks pres coms round)
    | _ => None end;
  rlp_wf := ltac:(simpl; naive_solver);
  of_to_rval := ltac:(rlp_of_to);
  to_of_rval := ltac:(rlp_to_of);
|}.

#[export] Instance rlp_CapabilityDetails : RlpStruct CapabilityDetails := {|
  rlp_type := TStruct [TBool; TString];
  to_rval := fun d => VList [VBool (cap_IsConsensusRelay d); VBytes (cap_PeerId d)];
  of_rval := fun v => match v with
    | VList [VBool b; VBytes id] => Some (mkCapabilityDetails b id)
    | _ => None end;
  rlp_wf := ltac:(simpl; naive_solver);
  of_to_rval := ltac:(rlp_of_to);
  to_of_rval := ltac:(rlp_to_of);
|}.

#[export] Instance rlp_RequestConsensusSyncDetails : RlpStruct RequestConsensusSyncDetails := {|
  rlp_type := TStruct [TBool; TString];
  to_rval := fun d => VList [VBool (rcs_IsConsensusRelay d); VBytes (rcs_PeerId d)];
  of_rval := fun v => match v with
    | VList [VBool b; VBytes id] => Some (mkRequestConsensusSyncDetails b id)
    | _ => None end;
  rlp_wf := ltac:(simpl; naive_solver);
  of_to_rval := ltac:(rlp_of_to);
  to_of_rval := ltac:(rlp_to_of);
|}.

(** * Packet header *)

(** [startIndex]: a version byte of 5 or more is followed by the type byte, an
    older packet starts with its type byte. *)
Definition startIndex (consensusData : list byte) : outcome Z :=
  match consensusData with
  | [] => Panic "index out of range"
  | b :: _ => Ok (if Z.leb MinConsensusNetworkProtocolVersion (Zb b) then 2 else 1)
  end.

(** [getPacketType]: [packet.ConsensusData[startIndex-1]]. *)
Definition getPacketType (packet : ConsensusPacket) : outcome Z :=
  match startIndex (data (ConsensusData packet)) with
  | Ok i => match data (ConsensusData packet) !! Z.to_nat (i - 1) with
            | Some b => Ok (Zb b)
            | None => Panic "index out of range"
            end
  | Fail e => Fail e
  | Panic p => Panic p
  end.

(** [rlp.DecodeBytes(packet.ConsensusData[startIndex:], &details)]. *)
Definition decodePayload {A} `{RlpStruct A} (packet : ConsensusPacket) : outcome A :=
  let cd := data (ConsensusData packet) in
  match startIndex cd with
  | Ok i => if Z.ltb (len cd) i then Panic "slice bounds out of range"
            else rlp_DecodeBytes (drop (Z.to_nat i) cd)
  | Fail e => Fail e
  | Panic p => Panic p
  end.

(** The data to send: a version byte from [PACKET_PROTOCOL_START_BLOCK] on. *)
Definition dataToSend (latestBlockNumber packetType : Z) (payload : list byte) : list byte :=
  if Z.leb PACKET_PROTOCOL_START_BLOCK latestBlockNumber
  then bZ ConsensusNetworkProtocolVersion :: bZ packetType :: payload
  else bZ packetType :: payload.

(** * Signatures

    The interface of src/crypto/signaturealgorithm as the consensus engine uses
    it: recover the public key that a signature carries, verify, and derive the
    address; the full-signature variants take a context.  The methods return an
    error, they do not panic; a [*PublicKey] is its [PubData]. *)
Class SignatureAlgorithm := {
  PublicKeyFromSignature : list byte -> list byte -> list byte + error;
  PublicKeyFromSignatureWithContext : list byte -> list byte -> list byte -> list byte + error;
  Verify : list byte -> list byte -> list byte -> bool;
  VerifyWithContext : list byte -> list byte -> list byte -> list byte -> bool;
  PublicKeyToAddress : list byte -> Address + error;
  SignatureWithPublicKeyLength : Z;
}.

(** A signature scheme for closed examples: the signature is the signer's
    address, followed by anything. *)
Definition plainSignatures : SignatureAlgorithm := {|
  PublicKeyFromSignature := fun _ sig => inl (take 32 sig);
  PublicKeyFromSignatureWithContext := fun _ sig _ => inl (take 32 sig);
  Verify := fun _ _ _ => true;
  VerifyWithContext := fun _ _ _ _ => true;
  PublicKeyToAddress := fun pub => inl (BytesToAddress pub);
  SignatureWithPublicKeyLength := 3904;
|}.

(** [v, err := f(); if err != nil { return err }], and the same with the error
    replaced by [e]. *)
Definition check_err {S A} (r : A + error) : M S A :=
  match r with inl a => mret a | inr e => fail e end.
Definition check_err_as {S A} (e : error) (r : A + error) : M S A :=
  match r with inl a => mret a | inr _ => fail e end.

(** ** Hexadecimal digits (encoding/hex) *)

Definition hex_digit (c : Ascii.ascii) : option Z :=
  let n := Z.of_nat (Ascii.nat_of_ascii c) in
  if Z.leb 48 n && Z.leb n 57 then Some (n - 48)
  else if Z.leb 97 n && Z.leb n 102 then Some (n - 87)
  else if Z.leb 65 n && Z.leb n 70 then Some (n - 55)
  else None.

(** [hex.DecodeString] returns the bytes decoded before the first error. *)
Fixpoint hex_DecodeString (s : string) : list byte * option error :=
  match s with
  | EmptyString => ([], None)
  | String p EmptyString =>
      match hex_digit p with
      | Some _ => ([], Some (Sentinel "ErrLength"))
      | None => ([], Some (ErrorsNew "InvalidByteError"))
      end
  | String p (String q s) =>
      match hex_digit p, hex_digit q with
      | Some a, Some b =>
          let '(l, e) := hex_DecodeString s in
          (bZ (Z.lor (Z.shiftl a 4) b) :: l, e)
      | _, _ => ([], Some (ErrorsNew "InvalidByteError"))
      end
  end.

Definition Hex2Bytes (str : string) : list byte := fst (hex_DecodeString str).

Definition DILITHIUM_ED25519_SPHINCS_FULL_ID : Z := 2.

Definition GENESIS_BLOCK_HASH : string :=
  "0x2c8127f13d50434052128a88c9c9f79a27d44a1145e51f6fd250b6e247369e99".

Definition FULL_SIGN_CONTEXT : list byte :=
  Hex2Bytes GENESIS_BLOCK_HASH ++ [bZ DILITHIUM_ED25519_SPHINCS_FULL_ID].

Definition shouldSignFull (blockNumber : Z) : bool :=
  Z.leb FULL_SIGN_PROPOSAL_CUTOFF_BLOCK blockNumber
  && Z.eqb (blockNumber mod FULL_SIGN_PROPOSAL_FREQUENCY_BLOCKS) 0.

Section packets.
Context `{Crypto} `{SignatureAlgorithm}.

(** [crypto.Keccak256(append(packet.ParentHash.Bytes(), packet.ConsensusData...))] *)
Definition digestHash (packet : ConsensusPacket) : list byte :=
  Keccak256 [arr_bytes (ParentHash packet) ++ data (ConsensusData packet)].

Definition parsePacket {S} (packet : ConsensusPacket) : M S (Z * Address) :=
  let sig := data (Signature packet) in
  pubKey ← check_err (PublicKeyFromSignature (digestHash packet) sig);
  fail_if (negb (Verify pubKey (digestHash packet) sig)) InvalidPacketErr;;
  validator ← check_err (PublicKeyToAddress pubKey);
  packetType ← lift (getPacketType packet);
  if Z.eqb packetType CONSENSUS_PACKET_TYPE_PROPOSE_BLOCK then
    details ← lift (decodePayload packet); mret (pd_Round details, validator)
  else if Z.eqb packetType CONSENSUS_PACKET_TYPE_ACK_BLOCK_PROPOSAL then
    details ← lift (decodePayload packet); mret (pad_Round details, validator)
  else if Z.eqb packetType CONSENSUS_PACKET_TYPE_PRECOMMIT_BLOCK then
    details ← lift (decodePayload packet); mret (pcd_Round details, validator)
  else if Z.eqb packetType CONSENSUS_PACKET_TYPE_COMMIT_BLOCK then
    details ← lift (decodePayload packet); mret (cd_Round details, validator)
  else fail InvalidPacketErr.

(** ** The hashes voted on *)

(** The transactions are copied, sorted and concatenated. *)
Definition sortedTxnData (txns : list Hash) : list byte :=
  concat (map arr_bytes (sort_by_key arr_bytes txns)).

Definition GetCombinedTxnHash (parentHash : Hash) (round : Z) (txns : list Hash) : Hash :=
  Keccak256Hash [sortedTxnData txns; arr_bytes parentHash; [bZ round]].

Definition GetCombinedTxnHashWithTime (parentHash : Hash) (round : Z) (txns : list Hash)
    (proposedBlockTime : Z) : Hash :=
  Keccak256Hash [sortedTxnData txns; arr_bytes parentHash; [bZ round]; Uint64ToBytes proposedBlockTime].

Definition getNilVoteProposalHash (parentHash : Hash) (round : Z) : Hash :=
  Keccak256Hash [arr_bytes parentHash; bytes_of_string "proposal"; arr_bytes ZERO_HASH; [bZ round]; [bZ VOTE_TYPE_NIL]].

Definition getCommitHash (precommitHash : Hash) : Hash := Keccak256Hash [arr_bytes precommitHash].

Definition getOkVotePreCommitHash (parentHash proposalHash : Hash) (round : Z) : Hash :=
  Keccak256Hash [arr_bytes parentHash; arr_bytes proposalHash; [bZ round]; [bZ VOTE_TYPE_OK]].

Definition getNilVotePreCommitHash (parentHash : Hash) (round : Z) : Hash :=
  Keccak256Hash [arr_bytes parentHash; bytes_of_string "precommit"; arr_bytes ZERO_HASH; [bZ round]; [bZ VOTE_TYPE_NIL]].
End packets.

(** * Time *)

(** [t.UnixNano() / int64(time.Millisecond)] of a time in nanoseconds. *)
Definition millis (t : Z) : Z := Z.quot t 1000000.

(** [UnixNano] of the zero [time.Time], whose value wraps around. *)
Definition zeroTime : Z := -6795364578871345152.

Definition GetTimeStatBucket (state : string) (ms : Z) : string :=
  let key := (state +:+ "-")%string in
  if Z.ltb ms 1000 then (key +:+ "-0s-to-1s")%string
  else if Z.ltb 1000 ms && Z.ltb ms 5000 then (key +:+ "-1s-to-5s")%string
  else if Z.ltb 1000 ms && Z.ltb ms 10000 then (key +:+ "-5s-to-10s")%string
  else if Z.ltb 10000 ms && Z.ltb ms 30000 then (key +:+ "-10s-to-30s")%string
  else (key +:+ "-30s+")%string.

(** The keys under which NewConsensusPacketHandler creates the counters. *)
Definition timeStatKeys : list string :=
  p ← ["proposal"; "ackProposal"; "precommit"; "commit"; "total"];
  b ← ["-0s-to-1s"; "-1s-to-5s"; "-5s-to-10s"; "-10s-to-30s"; "-30s+"];
  [(p +:+ b)%string].

Section time.
Context `{GoRuntime}.

Definition HasExceededTimeThreshold {S} (startTime thresholdMs : Z) : M S bool :=
  now ← time_Now;
  mret (Z.leb thresholdMs (millis now - millis startTime)).

Definition Elapsed {S} (startTime : Z) : M S Z :=
  now ← time_Now;
  mret (millis now - millis startTime).

(** [time.Now().UTC().Unix()]: whole seconds, rounded down. *)
Definition time_Unix {S} : M S Z := now ← time_Now; mret (now / 1000000000).

Definition blockTimeChanges (blockNumber : Z) : bool :=
  Z.eqb blockNumber 1 || Z.eqb (blockNumber mod BLOCK_PERIOD_TIME_CHANGE) 0
  || Z.leb BLOCK_TIME_ORIG_START_BLOCK blockNumber.

Definition GetProposalTime {S} (blockNumber : Z) : M S Z :=
  if blockTimeChanges blockNumber then
    now ← time_Unix;
    let blockTime := u64 now in
    mret (if negb (Z.eqb (blockTime mod 60) 0) then u64 (blockTime - blockTime mod 60) else blockTime)
  else mret 0.

(** [tm.Second()] is the time modulo a minute: offsets of time zones are whole
    minutes.  [difference.Minutes() > 3.0] on a difference of whole seconds. *)
Definition ValidateBlockProposalTimeConsensus {S} (blockNumber proposedTime : Z) : M S bool :=
  if blockTimeChanges blockNumber then
    if Z.eqb proposedTime 0 then mret false
    else
      let tm := i64 proposedTime in
      if negb (Z.eqb (tm mod 60) 0) then mret false
      else
        currTimeVal ← time_Unix;
        let currTime := if negb (Z.eqb (Z.rem currTimeVal 60) 0)
                        then currTimeVal - Z.rem currTimeVal 60 else currTimeVal in
        mret (if Z.ltb currTime tm then negb (Z.ltb (60 * ALLOWED_TIME_SKEW_MINUTES) (tm - currTime))
              else if Z.ltb tm currTime then negb (Z.ltb (60 * ALLOWED_TIME_SKEW_MINUTES) (currTime - tm))
              else true)
  else mret (Z.eqb proposedTime 0).
End time.

(** * Theorems *)

(** ** Codecs *)

(** A Go value that fits its reflected type: integers in range, sizes below 2^64. *)
Definition rlp_typed {A} `{RlpStruct A} (a : A) : Prop := has_type rlp_type (to_rval a).

Lemma rlp_DecodeBytes_spec {A} `{RlpStruct A} b : len b < 2 ^ 63 ->
  match rlp_DecodeBytes (A := A) b with
  | Ok a => rlp_typed a /\ b = enc (to_rval a)
  | Fail _ => True
  | Panic _ => False
  end.
Proof.
  intros Hb. unfold rlp_DecodeBytes, rlp_typed.
  pose proof (DecodeBytes_spec rlp_type b rlp_wf Hb) as Hd.
  destruct (DecodeBytes _ b) as [v|e|p]; try done. destruct Hd as [Hv ->].
  destruct (to_of_rval v Hv) as (a & -> & <-). done.
Qed.

Lemma rlp_EncodeToBytes_typed {A} `{RlpStruct A} (a : A) :
  rlp_typed a -> rlp_EncodeToBytes a = Ok (enc (to_rval a)).
Proof. intros Ha. apply EncodeToBytes_typed; [apply rlp_wf|done]. Qed.

Lemma rlp_DecodeBytes_enc {A} `{RlpStruct A} (a : A) :
  rlp_typed a -> len (enc (to_rval a)) < 2 ^ 63 -> rlp_DecodeBytes (enc (to_rval a)) = Ok a.
Proof.
  intros Ha Hl. unfold rlp_DecodeBytes. rewrite DecodeBytes_enc; [|apply rlp_wf|done|done].
  by rewrite of_to_rval.
Qed.

(** The header of a packet that the engine builds reads back. *)
Lemma startIndex_dataToSend n ty payload : 0 <= ty < MinConsensusNetworkProtocolVersion ->
  exists i, startIndex (dataToSend n ty payload) = Ok i /\ 0 < i
    /\ dataToSend n ty payload !! Z.to_nat (i - 1) = Some (bZ ty)
    /\ drop (Z.to_nat i) (dataToSend n ty payload) = payload
    /\ i <= len (dataToSend n ty payload).
Proof.
  unfold MinConsensusNetworkProtocolVersion. intros Hty. unfold dataToSend, len.
  destruct (Z.leb _ n); [exists 2|exists 1]; simpl.
  - split_and!; try done; lia.
  - unfold MinConsensusNetworkProtocolVersion. rewrite Zb_bZ_small by lia.
    destruct (Z.leb_spec 5 ty); [lia|]. split_and!; try done; lia.
Qed.

Lemma getPacketType_dataToSend h sig n ty payload : 0 <= ty < MinConsensusNetworkProtocolVersion ->
  getPacketType (mkConsensusPacket h sig (Some (dataToSend n ty payload))) = Ok ty.
Proof.
  intros Hty. destruct (startIndex_dataToSend n ty payload Hty) as (i & Hi & _ & Hl & _).
  unfold getPacketType. cbn [ConsensusData data from_option id]. rewrite Hi, Hl.
  unfold MinConsensusNetworkProtocolVersion in Hty. rewrite Zb_bZ_small; [done|lia].
Qed.

Lemma decodePayload_dataToSend {A} `{RlpStruct A} (a : A) h sig n ty :
  0 <= ty < MinConsensusNetworkProtocolVersion -> rlp_typed a -> len (enc (to_rval a)) < 2 ^ 63 ->
  decodePayload (mkConsensusPacket h sig (Some (dataToSend n ty (enc (to_rval a))))) = Ok a.
Proof.
  intros Hty Ha Hl. destruct (startIndex_dataToSend n ty (enc (to_rval a)) Hty) as (i & Hi & _ & _ & Hd & Hle).
  unfold decodePayload. cbn [ConsensusData data from_option id]. rewrite Hi, Hd.
  destruct (Z.ltb_spec (len (dataToSend n ty (enc (to_rval a)))) i); [lia|].
  by apply rlp_DecodeBytes_enc.
Qed.

(** The acknowledgements that the engine builds can be encoded. *)
Lemma enc_u8_len i : is_u8 i -> len (enc (VUint i)) <= 2.
Proof.
  unfold is_u8. intros Hi. destruct (decide (i = 0)) as [->|]; [rewrite ?min_bytes_0; vm_compute; done|].
  simpl. rewrite min_bytes_small by lia. unfold enc_string, puthead, len. destruct (Z.leb _ _); simpl; lia.
Qed.

Lemma enc_arr32_len (a : byteArray 32) : len (enc (v_arr a)) = 33.
Proof.
  pose proof (arr_bytes_length a) as Hl. unfold v_arr. simpl. rewrite enc_string_long by lia.
  unfold puthead, len. rewrite Hl. simpl. rewrite Hl. done.
Qed.

Lemma ack_encodable (a : ProposalAckDetails) : is_u8 (ProposalAckVoteType a) -> is_u8 (pad_Round a) ->
  rlp_typed a /\ len (enc (to_rval a)) < 2 ^ 63.
Proof.
  intros Hv Hr. pose proof (enc_u8_len _ Hv) as Lv. pose proof (enc_u8_len _ Hr) as Lr.
  pose proof (enc_arr32_len (pad_ProposalHash a)) as Lh. pose proof (arr_bytes_length (pad_ProposalHash a)) as Lb.
  assert (Hlen : len (concat (map enc [v_arr (pad_ProposalHash a); VUint (ProposalAckVoteType a); VUint (pad_Round a)])) <= 37).
  { cbn [map concat]. unfold len in *. rewrite !length_app. cbn [length]. lia. }
  unfold is_u8 in *. split.
  - unfold rlp_typed. cbn [rlp_type to_rval rlp_ProposalAckDetails]. split; [|lia].
    cbn -[enc Z.pow]. split_and!; try lia. unfold len. rewrite Lb. lia.
  - cbn [to_rval rlp_ProposalAckDetails]. cbn [enc]. unfold enc_list, puthead.
    destruct (Z.ltb_spec (len (concat (map enc [v_arr (pad_ProposalHash a); VUint (ProposalAckVoteType a); VUint (pad_Round a)]))) 56); [|lia].
    unfold len in *. rewrite length_app. cbn [length]. lia.
Qed.

(** A packet that fits in memory and is not the single version byte. *)
Definition packet_ok (packet : ConsensusPacket) : Prop :=
  len (data (ConsensusData packet)) < 2 ^ 63
  /\ match data (ConsensusData packet) with
     | [] => False
     | [b] => Zb b < MinConsensusNetworkProtocolVersion
     | _ => True
     end.

Lemma getPacketType_ok packet : packet_ok packet -> exists ty, getPacketType packet = Ok ty /\ 0 <= ty < 256.
Proof.
  unfold packet_ok, getPacketType, startIndex. intros [_ Hp].
  destruct (data (ConsensusData packet)) as [|b [|c l]]; [done| |].
  - destruct (Z.leb_spec MinConsensusNetworkProtocolVersion (Zb b)); [lia|].
    exists (Zb b). split; [done|apply Zb_range].
  - destruct (Z.leb _ _); [exists (Zb c)|exists (Zb b)]; (split; [done|apply Zb_range]).
Qed.

Lemma decodePayload_spec {A} `{RlpStruct A} packet : packet_ok packet ->
  match decodePayload (A := A) packet with
  | Ok a => rlp_typed a
  | Fail _ => True
  | Panic _ => False
  end.
Proof.
  unfold packet_ok, decodePayload, startIndex. intros [Hl Hp].
  destruct (data (ConsensusData packet)) as [|b l]; [done|].
  assert (Hd : forall k, len (drop k (b :: l)) < 2 ^ 63).
  { intros k. unfold len in *. rewrite length_drop. lia. }
  destruct (Z.ltb_spec (len (b :: l))
    (if Z.leb MinConsensusNetworkProtocolVersion (Zb b) then 2 else 1)) as [Hlt|_].
  - exfalso. destruct l as [|c l]; unfold len in Hlt; simpl in Hlt; destruct (Z.leb_spec MinConsensusNetworkProtocolVersion (Zb b)); lia.
  - pose proof (rlp_DecodeBytes_spec (A := A) _ (Hd (Z.to_nat (if Z.leb MinConsensusNetworkProtocolVersion (Zb b) then 2 else 1)))) as Hs.
    destruct (rlp_DecodeBytes _); tauto.
Qed.

(** ** Signed votes *)

Section signed.
Context `{Crypto} `{SignatureAlgorithm}.

(** The signature of the packet verifies under the key it carries, which is the
    key of [v]. *)
Definition signedBy (packet : ConsensusPacket) (v : Address) : Prop :=
  exists pubKey, PublicKeyFromSignature (digestHash packet) (data (Signature packet)) = inl pubKey
    /\ Verify pubKey (digestHash packet) (data (Signature packet)) = true
    /\ PublicKeyToAddress pubKey = inl v.

(** The packet says [a] about the block on top of [h]. *)
Definition packetSays {A} `{RlpStruct A} (h : Hash) (ty : Z) (a : A) (packet : ConsensusPacket) : Prop :=
  ParentHash packet = h /\ getPacketType packet = Ok ty /\ decodePayload packet = Ok a.

Definition signedVote {A} `{RlpStruct A} (h : Hash) (ty : Z) (a : A) (v : Address) (packet : ConsensusPacket) : Prop :=
  packetSays h ty a packet /\ signedBy packet v.

(** The copy of a packet says the same and carries the same signature. *)
Lemma NewConsensusPacket_data p : data (Signature (NewConsensusPacket p)) = data (Signature p)
  /\ data (ConsensusData (NewConsensusPacket p)) = data (ConsensusData p)
  /\ ParentHash (NewConsensusPacket p) = ParentHash p.
Proof. unfold NewConsensusPacket. simpl. split_and!; [by destruct (Signature p)|by destruct (ConsensusData p)|apply CopyFrom_eq]. Qed.

Lemma packetSays_copy {A} `{RlpStruct A} h ty (a : A) p :
  packetSays h ty a p -> packetSays h ty a (NewConsensusPacket p).
Proof.
  destruct (NewConsensusPacket_data p) as (_ & Hd & Hp).
  unfold packetSays, getPacketType, decodePayload. by rewrite Hd, Hp.
Qed.

Lemma signedBy_copy p v : signedBy p v -> signedBy (NewConsensusPacket p) v.
Proof.
  destruct (NewConsensusPacket_data p) as (Hs & Hd & Hp). unfold signedBy, digestHash. by rewrite Hs, Hd, Hp.
Qed.

Lemma wp_check_err {S A} (r : A + error) (Q : outcome A -> World S -> Prop) w :
  match r with inl a => Q (Ok a) w | inr e => Q (Fail e) w end -> wp (check_err r) Q w.
Proof. by destruct r. Qed.

Lemma check_err_safe {S A} (P : S -> Prop) Q (r : A + error) : safe P Q (check_err r).
Proof. intros w Hw. by apply wp_check_err; destruct r. Qed.

Lemma check_err_as_safe {S A} (P : S -> Prop) Q e (r : A + error) : safe P Q (check_err_as e r).
Proof. intros w Hw. by destruct r. Qed.

Lemma check_err_preserves {S A} (P : S -> Prop) (r : A + error) : preserves P (check_err r).
Proof. intros w Hw. by destruct r. Qed.

Lemma check_err_as_preserves {S A} (P : S -> Prop) e (r : A + error) : preserves P (check_err_as e r).
Proof. intros w Hw. by destruct r. Qed.

Lemma getPacketType_safe {S} (P : S -> Prop) Q packet : packet_ok packet -> safe P Q (lift (getPacketType packet)).
Proof. intros Hp. apply safe_lift. destruct (getPacketType_ok packet Hp) as (ty & -> & _). done. Qed.

Lemma decodePayload_safe {S A} `{RlpStruct A} (P : S -> Prop) Q packet :
  packet_ok packet -> safe P Q (lift (decodePayload (A := A) packet)).
Proof.
  intros Hp. apply safe_lift. pose proof (decodePayload_spec (A := A) packet Hp) as Hd.
  by destruct (decodePayload packet).
Qed.

Lemma wp_check_err_as {S A} e (r : A + error) (Q : outcome A -> World S -> Prop) w :
  match r with inl a => Q (Ok a) w | inr _ => Q (Fail e) w end -> wp (check_err_as e r) Q w.
Proof. by destruct r. Qed.
End signed.
#[export] Hint Resolve check_err_safe check_err_as_safe getPacketType_safe decodePayload_safe : safe.
#[export] Hint Resolve check_err_preserves check_err_as_preserves : preserves.

(** C36: every consensus packet the engine builds reads back: in both header
    formats (with and without the protocol version byte) the receiver finds the
    packet type and decodes exactly the details that were encoded. *)
Theorem packet_roundtrip {A} `{RlpStruct A} (a : A) h sig n ty b
  (Hty : 0 <= ty <= CONSENSUS_PACKET_TYPE_COMMIT_BLOCK) (Ha : rlp_typed a)
  (Henc : rlp_EncodeToBytes a = Ok b) (Hb : len b < 2 ^ 63) :
  getPacketType (mkConsensusPacket h sig (Some (dataToSend n ty b))) = Ok ty
  /\ decodePayload (mkConsensusPacket h sig (Some (dataToSend n ty b))) = Ok a.
Proof.
  unfold CONSENSUS_PACKET_TYPE_COMMIT_BLOCK in Hty.
  rewrite rlp_EncodeToBytes_typed in Henc by done. injection Henc as <-.
  split; [apply getPacketType_dataToSend|apply decodePayload_dataToSend]; unfold MinConsensusNetworkProtocolVersion; auto; lia.
Qed.

Lemma packet_roundtrip_witness :
  let a := mkProposalDetails [ZERO_HASH] 1 1700000040 in
  let p := mkConsensusPacket ZERO_HASH None
             (Some (dataToSend 600000 0 (enc (VList [VList [VBytes (replicate 32 Byte.x00)]; VUint 1; VUint 1700000040])))) in
  getPacketType p = Ok 0 /\ decodePayload p = Ok a.
Proof.
  apply (packet_roundtrip (mkProposalDetails [ZERO_HASH] 1 1700000040)).
  - unfold CONSENSUS_PACKET_TYPE_COMMIT_BLOCK. lia.
  - apply has_typeb_sound. vm_compute. reflexivity.
  - vm_compute. reflexivity.
  - vm_compute. reflexivity.
Defined.

(** A packet whose data is one version byte makes the header read out of
    range: the type byte is read without a length check. *)
Theorem getPacketType_panics h sig b (Hb : MinConsensusNetworkProtocolVersion <= Zb b) :
  getPacketType (mkConsensusPacket h sig (Some [b])) = Panic "index out of range".
Proof.
  unfold getPacketType, startIndex. cbn [ConsensusData data from_option id].
  destruct (Z.leb_spec MinConsensusNetworkProtocolVersion (Zb b)); [done|lia].
Qed.

Lemma getPacketType_panics_witness :
  getPacketType (mkConsensusPacket ZERO_HASH (Some [Byte.x01]) (Some [Byte.x05])) = Panic "index out of range".
Proof. apply getPacketType_panics. vm_compute. discriminate. Defined.

(** ** Proposal hashes *)

Section hash_props.
Context `{Crypto}.

Lemma sortedTxnData_perm l1 l2 : l1 ≡ₚ l2 -> sortedTxnData l1 = sortedTxnData l2.
Proof.
  intros Hp. unfold sortedTxnData. f_equal. f_equal. apply sort_by_key_unique; [|done].
  intros x y _ _. apply arr_bytes_inj.
Qed.

(** The proposal hash does not depend on the order in which the proposer
    lists the transactions, with and without the block time. *)
Theorem GetCombinedTxnHash_perm parentHash round txns1 txns2 t (Hp : txns1 ≡ₚ txns2) :
  GetCombinedTxnHash parentHash round txns1 = GetCombinedTxnHash parentHash round txns2
  /\ GetCombinedTxnHashWithTime parentHash round txns1 t = GetCombinedTxnHashWithTime parentHash round txns2 t.
Proof.
  unfold GetCombinedTxnHash, GetCombinedTxnHashWithTime. by rewrite (sortedTxnData_perm _ _ Hp).
Qed.
End hash_props.

Lemma GetCombinedTxnHash_perm_witness :
  let h1 := BytesToHash [Byte.x01] in let h2 := BytesToHash [Byte.x02] in
  GetCombinedTxnHash (H := windowHash) ZERO_HASH 1 [h1; h2] = GetCombinedTxnHash (H := windowHash) ZERO_HASH 1 [h2; h1]
  /\ GetCombinedTxnHashWithTime (H := windowHash) ZERO_HASH 1 [h1; h2] 7
     = GetCombinedTxnHashWithTime (H := windowHash) ZERO_HASH 1 [h2; h1] 7.
Proof. apply (GetCombinedTxnHash_perm (H := windowHash)). apply Permutation_swap. Defined.

(** The context of full signatures is the single byte 2: [Hex2Bytes] stops at
    the 0x prefix of [GENESIS_BLOCK_HASH] and its error is dropped, so the
    genesis hash is not part of the context. *)
Theorem FULL_SIGN_CONTEXT_no_genesis : FULL_SIGN_CONTEXT = [bZ DILITHIUM_ED25519_SPHINCS_FULL_ID].
Proof. reflexivity. Qed.

(** ** Time *)

(** None of the counters that NewConsensusPacketHandler creates is ever
    counted: every bucket name that [GetTimeStatBucket] returns has a second
    dash between the phase and the interval. *)
Theorem GetTimeStatBucket_not_initialised ms :
  Forall (fun p => GetTimeStatBucket p ms ∉ timeStatKeys)
    ["proposal"; "ackProposal"; "precommit"; "commit"; "total"].
Proof.
  repeat constructor; unfold GetTimeStatBucket;
    repeat (match goal with |- context [if ?b then _ else _] => destruct b end);
    apply (bool_decide_unpack _); vm_compute; exact I.
Qed.

Section time_props.
Context `{GoRuntime} {S : Type}.

Lemma minute_of_u64 p : is_u64 p ->
  (if negb (Z.eqb (u64 p mod 60) 0) then u64 (u64 p - u64 p mod 60) else u64 p) = 60 * (p / 60).
Proof.
  intros Hp. rewrite (u64_small p Hp). unfold is_u64 in Hp.
  pose proof (Z.div_mod p 60 ltac:(lia)). pose proof (Z.mod_pos_bound p 60 ltac:(lia)).
  destruct (Z.eqb_spec (p mod 60) 0); cbn [negb]; [lia|]. rewrite u64_small; unfold is_u64; lia.
Qed.

Lemma minute_of_i64 p : 0 <= p ->
  (if negb (Z.eqb (Z.rem p 60) 0) then p - Z.rem p 60 else p) = 60 * (p / 60).
Proof.
  intros Hp. rewrite Z.rem_mod_nonneg by lia. pose proof (Z.div_mod p 60 ltac:(lia)).
  destruct (Z.eqb_spec (p mod 60) 0); cbn [negb]; lia.
Qed.

Lemma div60 p : 60 * (p / 60) <= p < 60 * (p / 60) + 60.
Proof. pose proof (Z.div_mod p 60 ltac:(lia)). pose proof (Z.mod_pos_bound p 60 ltac:(lia)). lia. Qed.

Lemma seconds_range ns : 60 * 1000000000 <= ns < 2 ^ 63 * 1000000000 -> 60 <= ns / 1000000000 < 2 ^ 63.
Proof. intros [H1 H2]. split; [apply Z.div_le_lower_bound|apply Z.div_lt_upper_bound]; lia. Qed.

Lemma seconds_skew a b : Z.abs (a - b) <= 3 * 60 * 1000000000 ->
  b / 1000000000 - 180 <= a / 1000000000 <= b / 1000000000 + 180.
Proof.
  intros Hab. pose proof (Z.div_mod a 1000000000 ltac:(lia)). pose proof (Z.mod_pos_bound a 1000000000 ltac:(lia)).
  pose proof (Z.div_mod b 1000000000 ltac:(lia)). pose proof (Z.mod_pos_bound b 1000000000 ltac:(lia)). lia.
Qed.

(** A proposer's block time is accepted by every validator whose clock is
    within [ALLOWED_TIME_SKEW_MINUTES] of the proposer's when it checks. *)
Theorem GetProposalTime_accepted (w w' : World S) blockNumber t
  (Hp : 60 * 1000000000 <= Now (w_tick w) < 2 ^ 63 * 1000000000)
  (Hskew : Z.abs (Now (w_tick w') - Now (w_tick w)) <= ALLOWED_TIME_SKEW_MINUTES * 60 * 1000000000)
  (Hv : 0 <= Now (w_tick w'))
  (Ht : out (GetProposalTime blockNumber) w = Ok t) :
  out (ValidateBlockProposalTimeConsensus blockNumber t) w' = Ok true.
Proof.
  unfold GetProposalTime, ValidateBlockProposalTimeConsensus, ALLOWED_TIME_SKEW_MINUTES in *.
  destruct (blockTimeChanges blockNumber); [|unfold out in *; simpl in *; by simplify_eq].
  change (out _ w) with (Ok (A := Z) (let p := Now (w_tick w) / 1000000000 in
    if negb (Z.eqb (u64 p mod 60) 0) then u64 (u64 p - u64 p mod 60) else u64 p)) in Ht.
  injection Ht as Ht. destruct (seconds_range _ Hp) as [Hlo Hhi].
  pose proof (seconds_skew _ _ Hskew) as [Hs1 Hs2].
  pose proof (Z.div_pos _ 1000000000 Hv ltac:(lia)) as Hv'.
  rewrite minute_of_u64 in Ht by (split; [lia|clear -Hhi; lia]).
  revert Hlo Hhi Hs1 Hs2 Ht. generalize (Now (w_tick w) / 1000000000) as p.
  intros p Hlo Hhi Hs1 Hs2 Ht. clear Hp Hskew Hv.
  pose proof (div60 p) as Hd. assert (Ht' : 60 <= t < 2 ^ 63) by lia.
  destruct (Z.eqb_spec t 0); [lia|]. rewrite (i64_small t) by lia.
  replace (Z.eqb (t mod 60) 0) with true by (subst t; rewrite Z.mul_comm, Z.mod_mul by lia; done).
  unfold out, time_Unix, time_Now, ext, mbind, M_bind, mret, M_ret. cbn beta iota delta [fst negb].
  rewrite minute_of_i64 by done. f_equal. revert Hs1 Hs2 Hv'.
  generalize (Now (w_tick w') / 1000000000) as v. intros v Hs1 Hs2 Hv. pose proof (div60 v).
  destruct (Z.ltb_spec (60 * (v / 60)) t); [|destruct (Z.ltb_spec t (60 * (v / 60))); [|done]];
    apply negb_true_iff, Z.ltb_ge; clear Ht'; lia.
Qed.
End time_props.

Lemma GetProposalTime_accepted_witness :
  let R := {| Now := fun t => if decide (t = 0%nat) then 1700000059000000000 else 1700000239000000000;
              map_order := fun _ _ l => l; rand_Intn := fun _ _ => 0;
              map_order_perm := fun _ _ l => Permutation_refl l;
              rand_Intn_range := fun _ n Hn => conj (Z.le_refl 0) Hn |} in
  out (ValidateBlockProposalTimeConsensus (H := R) 64 1700000040) (mkWorld 1%nat tt) = Ok true.
Proof.
  intros R. apply (GetProposalTime_accepted (H := R) (mkWorld 0%nat tt)); vm_compute; intuition congruence.
Defined.
