(* ===== verification/StateSpec.v ===== *)
(** * The state database as the EVM sees it

    The interface StateDB of src/core/vm/interface.go as a class of operations, and
    what it promises: a finite map of accounts, a refund counter, access lists, logs
    and preimages ([core]), with a stack of snapshots of all of it ([Abs]).  A state
    database implements the interface when each operation, on a state that represents
    an abstract one, does what the plain function on [Abs] does ([StateDBSpec]).
    [Abs] is an implementation itself, the one that closed examples run on. *)

From S2P Require Import Prelude Common.
From Stdlib Require Import Strings.Byte.

Abbreviation HashZero := (arr_zero 32).

(** * Logs (src/core/types/log.go) *)

Record Log := mkLog {
  log_Address : Address;
  log_Topics : list Hash;
  log_Data : list byte;
  log_BlockNumber : Z;
  log_TxHash : Hash;
  log_TxIndex : Z;
  log_BlockHash : Hash;
  log_Index : Z;
  log_Removed : bool;
}.

(** * The interface *)

(** [ForEachStorage] and [PrepareAccessList] are not called by the EVM. *)
Class StateDB (S : Type) := {
  CreateAccount : Address -> M S unit;
  SubBalance : Address -> Z -> M S unit;
  AddBalance : Address -> Z -> M S unit;
  GetBalance : Address -> M S Z;
  GetNonce : Address -> M S Z;
  SetNonce : Address -> Z -> M S unit;
  GetCodeHash : Address -> M S Hash;
  GetCode : Address -> M S (list byte);
  SetCode : Address -> list byte -> M S unit;
  GetCodeSize : Address -> M S Z;
  AddRefund : Z -> M S unit;
  SubRefund : Z -> M S unit;
  GetRefund : M S Z;
  GetCommittedState : Address -> Hash -> M S Hash;
  GetState : Address -> Hash -> M S Hash;
  SetState : Address -> Hash -> Hash -> M S unit;
  Suicide : Address -> M S bool;
  HasSuicided : Address -> M S bool;
  Exist : Address -> M S bool;
  Empty : Address -> M S bool;
  AddressInAccessList : Address -> M S bool;
  SlotInAccessList : Address -> Hash -> M S (bool * bool);
  AddAddressToAccessList : Address -> M S unit;
  AddSlotToAccessList : Address -> Hash -> M S unit;
  RevertToSnapshot : Z -> M S unit;
  Snapshot : M S Z;
  AddLog : Log -> M S unit;
  AddPreimage : Hash -> list byte -> M S unit;
}.

(** * The abstract state *)

(** An account: the storage now and as of the start of the transaction, without the
    slots that hold zero. *)
Record account := mkAccount {
  ac_nonce : Z;
  ac_balance : Z;
  ac_code : list byte;
  ac_codeHash : Hash;
  ac_storage : gmap Hash Hash;
  ac_committed : gmap Hash Hash;
  ac_suicided : bool;
}.
#[export] Instance account_eta : Eta account := fun a => mkAccount (ac_nonce a) (ac_balance a) (ac_code a) (ac_codeHash a) (ac_storage a) (ac_committed a) (ac_suicided a).
#[export] Instance set_ac_nonce : Setter ac_nonce := ltac:(derive_setter).
#[export] Instance set_ac_balance : Setter ac_balance := ltac:(derive_setter).
#[export] Instance set_ac_code : Setter ac_code := ltac:(derive_setter).
#[export] Instance set_ac_codeHash : Setter ac_codeHash := ltac:(derive_setter).
#[export] Instance set_ac_storage : Setter ac_storage := ltac:(derive_setter).
#[export] Instance set_ac_committed : Setter ac_committed := ltac:(derive_setter).
#[export] Instance set_ac_suicided : Setter ac_suicided := ltac:(derive_setter).

Record core := mkCore {
  k_accounts : gmap Address account;
  k_refund : Z;
  k_addresses : gset Address;
  k_slots : gset (Address * Hash);
  k_logs : gmap Hash (list Log);
  k_logSize : Z;
  k_preimages : gmap Hash (list byte);
}.
#[export] Instance core_eta : Eta core := fun k => mkCore (k_accounts k) (k_refund k) (k_addresses k) (k_slots k) (k_logs k) (k_logSize k) (k_preimages k).
#[export] Instance set_k_accounts : Setter k_accounts := ltac:(derive_setter).
#[export] Instance set_k_refund : Setter k_refund := ltac:(derive_setter).
#[export] Instance set_k_addresses : Setter k_addresses := ltac:(derive_setter).
#[export] Instance set_k_slots : Setter k_slots := ltac:(derive_setter).
#[export] Instance set_k_logs : Setter k_logs := ltac:(derive_setter).
#[export] Instance set_k_logSize : Setter k_logSize := ltac:(derive_setter).
#[export] Instance set_k_preimages : Setter k_preimages := ltac:(derive_setter).

(** The snapshots, the latest first, and the transaction that logs belong to. *)
Record Abs := mkAbs {
  v_core : core;
  v_snapshots : list (Z * core);
  v_next : Z;
  v_thash : Hash;
  v_txIndex : Z;
}.
#[export] Instance Abs_eta : Eta Abs := fun v => mkAbs (v_core v) (v_snapshots v) (v_next v) (v_thash v) (v_txIndex v).
#[export] Instance set_v_core : Setter v_core := ltac:(derive_setter).
#[export] Instance set_v_snapshots : Setter v_snapshots := ltac:(derive_setter).
#[export] Instance set_v_next : Setter v_next := ltac:(derive_setter).

(** ** Operations on one account *)

Definition slot (m : gmap Hash Hash) (k : Hash) : Hash := default HashZero (m !! k).
Definition put (m : gmap Hash Hash) (k v : Hash) : gmap Hash Hash := if decide (v = HashZero) then delete k m else <[k := v]> m.

Section accounts.
Context `{Crypto}.

Definition emptyCodeHash : Hash := Keccak256Hash [[]].
Definition newAccount : account := mkAccount 0 0 [] emptyCodeHash ∅ ∅ false.
Definition isEmpty (a : account) : bool := Z.eqb (ac_nonce a) 0 && Z.eqb (ac_balance a) 0 && bool_decide (ac_codeHash a = emptyCodeHash).

Definition orNew (o : option account) : account := default newAccount o.
Definition balanceOf (k : core) (a : Address) : Z := from_option ac_balance 0 (k_accounts k !! a).
Definition nonceOf (k : core) (a : Address) : Z := from_option ac_nonce 0 (k_accounts k !! a).
Definition codeOf (k : core) (a : Address) : list byte := from_option ac_code [] (k_accounts k !! a).
Definition codeHashOf (k : core) (a : Address) : Hash := from_option ac_codeHash HashZero (k_accounts k !! a).
Definition storageOf (k : core) (a : Address) (s : Hash) : Hash := from_option (fun x => slot (ac_storage x) s) HashZero (k_accounts k !! a).
Definition committedOf (k : core) (a : Address) (s : Hash) : Hash := from_option (fun x => slot (ac_committed x) s) HashZero (k_accounts k !! a).
Definition suicidedOf (k : core) (a : Address) : bool := from_option ac_suicided false (k_accounts k !! a).
Definition existsIn (k : core) (a : Address) : bool := bool_decide (is_Some (k_accounts k !! a)).
Definition emptyIn (k : core) (a : Address) : bool := from_option isEmpty true (k_accounts k !! a).

(** Write an account, made from scratch if there is none. *)
Definition onAccount (a : Address) (f : account -> account) (k : core) : core :=
  k <| k_accounts ::= fun m => <[a := f (orNew (m !! a))]> m |>.

(** ** The operations *)

Definition k_CreateAccount (a : Address) (k : core) : core :=
  k <| k_accounts ::= fun m => <[a := newAccount <| ac_balance := balanceOf k a |>]> m |>.
Definition k_AddBalance (a : Address) (n : Z) : core -> core := onAccount a (fun x => x <| ac_balance ::= fun b => b + n |>).
Definition k_SubBalance (a : Address) (n : Z) : core -> core := onAccount a (fun x => x <| ac_balance ::= fun b => b - n |>).
Definition k_SetNonce (a : Address) (n : Z) : core -> core := onAccount a (fun x => x <| ac_nonce := n |>).
Definition k_SetCode (a : Address) (c : list byte) : core -> core :=
  onAccount a (fun x => x <| ac_code := c |> <| ac_codeHash := Keccak256Hash [c] |>).
Definition k_SetState (a : Address) (s v : Hash) : core -> core := onAccount a (fun x => x <| ac_storage ::= fun m => put m s v |>).
Definition k_Suicide (a : Address) (k : core) : core :=
  match k_accounts k !! a with
  | None => k
  | Some x => k <| k_accounts ::= fun m => <[a := x <| ac_suicided := true |> <| ac_balance := 0 |>]> m |>
  end.
Definition k_AddRefund (n : Z) (k : core) : core := k <| k_refund ::= fun r => u64 (r + n) |>.
Definition k_AddAddress (a : Address) (k : core) : core := k <| k_addresses ::= fun s => {[a]} ∪ s |>.
Definition k_AddSlot (a : Address) (s : Hash) (k : core) : core :=
  k <| k_addresses ::= fun l => {[a]} ∪ l |> <| k_slots ::= fun l => {[(a, s)]} ∪ l |>.
Definition k_AddPreimage (h : Hash) (p : list byte) (k : core) : core :=
  k <| k_preimages ::= fun m => match m !! h with Some _ => m | None => <[h := p]> m end |>.
End accounts.

(** A read of the core, and a write. *)
Definition reads {A} (f : core -> A) (v : Abs) : outcome (A * Abs) := Ok (f (v_core v), v).
Definition writes (f : core -> core) (v : Abs) : outcome (unit * Abs) := Ok ((), v <| v_core ::= f |>).

Definition v_SubRefund (n : Z) (v : Abs) : outcome (unit * Abs) :=
  if Z.ltb (k_refund (v_core v)) n then Panic "Refund counter below zero"
  else writes (fun k => k <| k_refund ::= fun r => r - n |>) v.
Definition v_Suicide (a : Address) (v : Abs) : outcome (bool * Abs) :=
  Ok (existsIn (v_core v) a, v <| v_core ::= k_Suicide a |>).
Definition v_AddLog (l : Log) (v : Abs) : outcome (unit * Abs) :=
  let k := v_core v in
  let l := mkLog (log_Address l) (log_Topics l) (log_Data l) (log_BlockNumber l) (v_thash v) (v_txIndex v) (log_BlockHash l) (k_logSize k) (log_Removed l) in
  writes (fun k => k <| k_logs ::= fun m => <[v_thash v := default [] (m !! v_thash v) ++ [l]]> m |> <| k_logSize ::= fun n => u64 (n + 1) |>) v.
Definition v_Snapshot (v : Abs) : outcome (Z * Abs) :=
  Ok (v_next v, v <| v_snapshots ::= cons (v_next v, v_core v) |> <| v_next ::= fun n => n + 1 |>).
(** The snapshots older than the one with an identifier, and the state it holds. *)
Fixpoint findSnapshot (id : Z) (l : list (Z * core)) : option (core * list (Z * core)) :=
  match l with
  | [] => None
  | (i, k) :: l => if Z.eqb i id then Some (k, l) else findSnapshot id l
  end.
Definition v_RevertToSnapshot (id : Z) (v : Abs) : outcome (unit * Abs) :=
  match findSnapshot id (v_snapshots v) with
  | Some (k, l) => Ok ((), v <| v_core := k |> <| v_snapshots := l |>)
  | None => Panic "revision cannot be reverted"
  end.

(** * Implementations *)

(** [m] does on a state that represents [v] what [f] does on [v]; it asks no oracle. *)
Definition implements {S A} (rep : S -> Abs -> Prop) (m : M S A) (f : Abs -> outcome (A * Abs)) : Prop :=
  forall t s v, rep s v ->
  match f v with
  | Ok (a, v') => exists s', m (mkWorld t s) = (Ok a, mkWorld t s') /\ rep s' v'
  | Fail _ => False
  | Panic _ => exists q w', m (mkWorld t s) = (Panic q, w')
  end.

Class StateDBSpec (S : Type) `{Crypto} `{StateDB S} := {
  sdb_rep : S -> Abs -> Prop;
  CreateAccount_spec a : implements sdb_rep (CreateAccount a) (writes (k_CreateAccount a));
  SubBalance_spec a n : implements sdb_rep (SubBalance a n) (writes (k_SubBalance a n));
  AddBalance_spec a n : implements sdb_rep (AddBalance a n) (writes (k_AddBalance a n));
  GetBalance_spec a : implements sdb_rep (GetBalance a) (reads (fun k => balanceOf k a));
  GetNonce_spec a : implements sdb_rep (GetNonce a) (reads (fun k => nonceOf k a));
  SetNonce_spec a n : implements sdb_rep (SetNonce a n) (writes (k_SetNonce a n));
  GetCodeHash_spec a : implements sdb_rep (GetCodeHash a) (reads (fun k => codeHashOf k a));
  GetCode_spec a : implements sdb_rep (GetCode a) (reads (fun k => codeOf k a));
  SetCode_spec a c : implements sdb_rep (SetCode a c) (writes (k_SetCode a c));
  GetCodeSize_spec a : implements sdb_rep (GetCodeSize a) (reads (fun k => len (codeOf k a)));
  AddRefund_spec n : implements sdb_rep (AddRefund n) (writes (k_AddRefund n));
  SubRefund_spec n : implements sdb_rep (SubRefund n) (v_SubRefund n);
  GetRefund_spec : implements sdb_rep GetRefund (reads k_refund);
  GetCommittedState_spec a s : implements sdb_rep (GetCommittedState a s) (reads (fun k => committedOf k a s));
  GetState_spec a s : implements sdb_rep (GetState a s) (reads (fun k => storageOf k a s));
  SetState_spec a s x : implements sdb_rep (SetState a s x) (writes (k_SetState a s x));
  Suicide_spec a : implements sdb_rep (Suicide a) (v_Suicide a);
  HasSuicided_spec a : implements sdb_rep (HasSuicided a) (reads (fun k => suicidedOf k a));
  Exist_spec a : implements sdb_rep (Exist a) (reads (fun k => existsIn k a));
  Empty_spec a : implements sdb_rep (Empty a) (reads (fun k => emptyIn k a));
  AddressInAccessList_spec a : implements sdb_rep (AddressInAccessList a) (reads (fun k => bool_decide (a ∈ k_addresses k)));
  SlotInAccessList_spec a s : implements sdb_rep (SlotInAccessList a s) (reads (fun k => (bool_decide (a ∈ k_addresses k), bool_decide ((a, s) ∈ k_slots k))));
  AddAddressToAccessList_spec a : implements sdb_rep (AddAddressToAccessList a) (writes (k_AddAddress a));
  AddSlotToAccessList_spec a s : implements sdb_rep (AddSlotToAccessList a s) (writes (k_AddSlot a s));
  RevertToSnapshot_spec id : implements sdb_rep (RevertToSnapshot id) (v_RevertToSnapshot id);
  Snapshot_spec : implements sdb_rep Snapshot v_Snapshot;
  AddLog_spec l : implements sdb_rep (AddLog l) (v_AddLog l);
  AddPreimage_spec h p : implements sdb_rep (AddPreimage h p) (writes (k_AddPreimage h p));
}.

(** ** The abstract state as an implementation *)

Definition runAbs {A} (f : Abs -> outcome (A * Abs)) : M Abs A := fun w =>
  match f (w_st w) with
  | Ok (a, v) => (Ok a, mkWorld (w_tick w) v)
  | Fail e => (Fail e, w)
  | Panic p => (Panic p, w)
  end.

Lemma runAbs_implements {A} (f : Abs -> outcome (A * Abs)) : (forall v e, f v <> Fail e) -> implements eq (runAbs f) f.
Proof.
  intros Hf t s v ->. unfold runAbs. cbn [w_st w_tick]. destruct (f v) as [[a v']|e|p] eqn:E; [|by eapply Hf|eauto].
  eexists. split; [done|]. done.
Qed.

#[export] Instance AbsStateDB `{Crypto} : StateDB Abs := {|
  CreateAccount a := runAbs (writes (k_CreateAccount a));
  SubBalance a n := runAbs (writes (k_SubBalance a n));
  AddBalance a n := runAbs (writes (k_AddBalance a n));
  GetBalance a := runAbs (reads (fun k => balanceOf k a));
  GetNonce a := runAbs (reads (fun k => nonceOf k a));
  SetNonce a n := runAbs (writes (k_SetNonce a n));
  GetCodeHash a := runAbs (reads (fun k => codeHashOf k a));
  GetCode a := runAbs (reads (fun k => codeOf k a));
  SetCode a c := runAbs (writes (k_SetCode a c));
  GetCodeSize a := runAbs (reads (fun k => len (codeOf k a)));
  AddRefund n := runAbs (writes (k_AddRefund n));
  SubRefund n := runAbs (v_SubRefund n);
  GetRefund := runAbs (reads k_refund);
  GetCommittedState a s := runAbs (reads (fun k => committedOf k a s));
  GetState a s := runAbs (reads (fun k => storageOf k a s));
  SetState a s x := runAbs (writes (k_SetState a s x));
  Suicide a := runAbs (v_Suicide a);
  HasSuicided a := runAbs (reads (fun k => suicidedOf k a));
  Exist a := runAbs (reads (fun k => existsIn k a));
  Empty a := runAbs (reads (fun k => emptyIn k a));
  AddressInAccessList a := runAbs (reads (fun k => bool_decide (a ∈ k_addresses k)));
  SlotInAccessList a s := runAbs (reads (fun k => (bool_decide (a ∈ k_addresses k), bool_decide ((a, s) ∈ k_slots k))));
  AddAddressToAccessList a := runAbs (writes (k_AddAddress a));
  AddSlotToAccessList a s := runAbs (writes (k_AddSlot a s));
  RevertToSnapshot id := runAbs (v_RevertToSnapshot id);
  Snapshot := runAbs v_Snapshot;
  AddLog l := runAbs (v_AddLog l);
  AddPreimage h p := runAbs (writes (k_AddPreimage h p));
|}.

#[export] Instance AbsStateDBSpec `{Crypto} : StateDBSpec Abs.
Proof.
  refine {| sdb_rep := eq |}; intros; apply runAbs_implements; intros v e; try discriminate.
  - unfold v_SubRefund. destruct (Z.ltb _ _); discriminate.
  - unfold v_RevertToSnapshot. destruct (findSnapshot _ _) as [[??]|]; discriminate.
Defined.

(** * Sequences of calls *)

Inductive call :=
| cCreateAccount (a : Address)
| cSubBalance (a : Address) (n : Z)
| cAddBalance (a : Address) (n : Z)
| cGetBalance (a : Address)
| cGetNonce (a : Address)
| cSetNonce (a : Address) (n : Z)
| cGetCodeHash (a : Address)
| cGetCode (a : Address)
| cSetCode (a : Address) (c : list byte)
| cGetCodeSize (a : Address)
| cAddRefund (n : Z)
| cSubRefund (n : Z)
| cGetRefund
| cGetCommittedState (a : Address) (s : Hash)
| cGetState (a : Address) (s : Hash)
| cSetState (a : Address) (s x : Hash)
| cSuicide (a : Address)
| cHasSuicided (a : Address)
| cExist (a : Address)
| cEmpty (a : Address)
| cAddressInAccessList (a : Address)
| cSlotInAccessList (a : Address) (s : Hash)
| cAddAddressToAccessList (a : Address)
| cAddSlotToAccessList (a : Address) (s : Hash)
| cRevertToSnapshot (id : Z)
| cSnapshot
| cAddLog (l : Log)
| cAddPreimage (h : Hash) (p : list byte).

Inductive answer :=
| aNone
| aInt (n : Z)
| aHash (h : Hash)
| aBytes (b : list byte)
| aBool (b : bool)
| aBools (b c : bool).

Section calls.
Context `{Crypto} {S : Type} `{StateDB S}.

Definition do_call (c : call) : M S answer :=
  match c with
  | cCreateAccount a => CreateAccount a;; mret aNone
  | cSubBalance a n => SubBalance a n;; mret aNone
  | cAddBalance a n => AddBalance a n;; mret aNone
  | cGetBalance a => n ← GetBalance a; mret (aInt n)
  | cGetNonce a => n ← GetNonce a; mret (aInt n)
  | cSetNonce a n => SetNonce a n;; mret aNone
  | cGetCodeHash a => h ← GetCodeHash a; mret (aHash h)
  | cGetCode a => b ← GetCode a; mret (aBytes b)
  | cSetCode a c => SetCode a c;; mret aNone
  | cGetCodeSize a => n ← GetCodeSize a; mret (aInt n)
  | cAddRefund n => AddRefund n;; mret aNone
  | cSubRefund n => SubRefund n;; mret aNone
  | cGetRefund => n ← GetRefund; mret (aInt n)
  | cGetCommittedState a s => h ← GetCommittedState a s; mret (aHash h)
  | cGetState a s => h ← GetState a s; mret (aHash h)
  | cSetState a s x => SetState a s x;; mret aNone
  | cSuicide a => b ← Suicide a; mret (aBool b)
  | cHasSuicided a => b ← HasSuicided a; mret (aBool b)
  | cExist a => b ← Exist a; mret (aBool b)
  | cEmpty a => b ← Empty a; mret (aBool b)
  | cAddressInAccessList a => b ← AddressInAccessList a; mret (aBool b)
  | cSlotInAccessList a s => '(b, c) ← SlotInAccessList a s; mret (aBools b c)
  | cAddAddressToAccessList a => AddAddressToAccessList a;; mret aNone
  | cAddSlotToAccessList a s => AddSlotToAccessList a s;; mret aNone
  | cRevertToSnapshot id => RevertToSnapshot id;; mret aNone
  | cSnapshot => n ← Snapshot; mret (aInt n)
  | cAddLog l => AddLog l;; mret aNone
  | cAddPreimage h p => AddPreimage h p;; mret aNone
  end.

Fixpoint do_calls (l : list call) : M S (list answer) :=
  match l with
  | [] => mret []
  | c :: l => x ← do_call c; r ← do_calls l; mret (x :: r)
  end.
End calls.

(** What an implementation does for a call is what the abstract state does. *)

Section calls_spec.
Context `{Crypto} {S : Type} `{StateDB S} `{!StateDBSpec S}.

Definition agrees {A} (m : M S A) (m' : M Abs A) : Prop :=
  forall t s v, sdb_rep s v -> match m' (mkWorld t v) with
                               | (Ok x, w) => exists s', m (mkWorld t s) = (Ok x, mkWorld t s') /\ sdb_rep s' (w_st w) /\ w_tick w = t
                               | (Fail _, _) => False
                               | (Panic _, _) => exists q w', m (mkWorld t s) = (Panic q, w')
                               end.

Lemma agrees_implements {A} (m : M S A) f : implements sdb_rep m f -> agrees m (runAbs f).
Proof.
  intros Hm t s v Hr. specialize (Hm t s v Hr). unfold runAbs. cbn [w_st w_tick]. destruct (f v) as [[x v']|e|p]; try done. destruct Hm as (s' & E & Hr'). by exists s'.
Qed.

Lemma agrees_bind {A B} (m : M S A) (m' : M Abs A) (k : A -> M S B) (k' : A -> M Abs B) :
  agrees m m' -> (forall x, agrees (k x) (k' x)) -> agrees (m ≫= k) (m' ≫= k').
Proof.
  intros Hm Hk t s v Hr. specialize (Hm t s v Hr). unfold mbind, M_bind. destruct (m' (mkWorld t v)) as [[x|e|p] w] eqn:E; [|done|destruct Hm as (q & w' & ->); eauto].
  destruct Hm as (s' & E' & Hr' & Ht). rewrite E'. destruct w as [t' v']. cbn in *. subst t'. by apply Hk.
Qed.

Lemma agrees_ret {A} (x : A) : agrees (mret x) (mret x).
Proof. intros t s v Hr. by exists s. Qed.

Lemma do_call_agrees c : agrees (do_call c) (do_call c).
Proof.
  destruct c; cbn [do_call]; (apply agrees_bind; [|intros; try case_match; apply agrees_ret]); apply agrees_implements; eauto using
    CreateAccount_spec, SubBalance_spec, AddBalance_spec, GetBalance_spec, GetNonce_spec, SetNonce_spec, GetCodeHash_spec, GetCode_spec, SetCode_spec, GetCodeSize_spec, AddRefund_spec,
    SubRefund_spec, GetRefund_spec, GetCommittedState_spec, GetState_spec, SetState_spec, Suicide_spec, HasSuicided_spec, Exist_spec, Empty_spec, AddressInAccessList_spec, SlotInAccessList_spec,
    AddAddressToAccessList_spec, AddSlotToAccessList_spec, RevertToSnapshot_spec, Snapshot_spec, AddLog_spec, AddPreimage_spec.
Qed.

Lemma do_calls_agrees l : agrees (do_calls l) (do_calls l).
Proof.
  induction l as [|c l IH]; [apply agrees_ret|]. apply agrees_bind; [apply do_call_agrees|]. intros x. apply agrees_bind; [exact IH|]. intros r. apply agrees_ret.
Qed.
End calls_spec.
