(* ===== verification/StateDB.v ===== *)
(** * The journaled state database

    Models src/core/state: state objects (state_object.go), the access list
    (access_list.go), the journal (journal.go) and the state database over them
    (statedb.go).  Methods of a state object take the object and give back what it has
    become; the caller stores it in the map of live objects, which is where the
    pointer of the code points to.  The journal keeps its entries with the latest
    first.  Tries, contract code and the snapshot layer come in through the class
    [StateDatabase].  The prefetcher, which only loads trie nodes ahead of time, and
    the time measurements are left out. *)

From S2P Require Import Prelude Common Rlp RlpEnc RlpDec Packets StateSpec.
From Stdlib Require Import Strings.Byte.

(** * What lies below *)

(** An account as it is stored: [Balance] and [CodeHash] may be nil in a zero value. *)
Record Account := mkStateAccount {
  Nonce : Z;
  Balance : option Z;
  Root : Hash;
  CodeHash : slice byte;
}.

(** An account of the snapshot layer, where an empty slice stands for the empty root
    and the hash of empty code. *)
Record SlimAccount := mkSlim {
  slim_Nonce : Z;
  slim_Balance : Z;
  slim_Root : list byte;
  slim_CodeHash : list byte;
}.

(** Tries (interface Trie), the database that opens them and holds contract code
    (interface Database), and a layer of the snapshot tree. *)
Class StateDatabase (T N : Type) := {
  TryGet : list byte -> M T (list byte);
  TryUpdate : list byte -> list byte -> M T unit;
  TryDelete : list byte -> M T unit;
  trie_Hash : M T Hash;
  OpenStorageTrie : Hash -> Hash -> outcome T;
  ContractCode : Hash -> Hash -> outcome (list byte);
  ContractCodeSize : Hash -> Hash -> outcome Z;
  snap_Account : N -> Hash -> outcome (option SlimAccount);
  snap_Storage : N -> Hash -> Hash -> outcome (list byte);
}.

(** * Access lists (access_list.go) *)

Module AccessList.
Record accessList := mkAccessList {
  addresses : gmap Address Z;
  slots : list (gset Hash);
}.
Definition newAccessList : accessList := mkAccessList ∅ [].

Definition ContainsAddress (al : accessList) (address : Address) : bool := bool_decide (is_Some (addresses al !! address)).

Definition Contains (al : accessList) (address : Address) (slot : Hash) : outcome (bool * bool) :=
  match addresses al !! address with
  | None => Ok (false, false)
  | Some idx =>
      if Z.eqb idx (-1) then Ok (true, false)
      else match slots al !! Z.to_nat idx with
           | Some slotmap => Ok (true, bool_decide (slot ∈ slotmap))
           | None => Panic "index out of range"
           end
  end.

Definition AddAddress (al : accessList) (address : Address) : bool * accessList :=
  match addresses al !! address with
  | Some _ => (false, al)
  | None => (true, mkAccessList (<[address := -1]> (addresses al)) (slots al))
  end.

Definition AddSlot (al : accessList) (address : Address) (slot : Hash) : outcome (bool * bool * accessList) :=
  let fresh addrChange := Ok (addrChange, true, mkAccessList (<[address := len (slots al)]> (addresses al)) (slots al ++ [{[slot]}])) in
  match addresses al !! address with
  | None => fresh true
  | Some idx =>
      if Z.eqb idx (-1) then fresh false
      else match slots al !! Z.to_nat idx with
           | None => Panic "index out of range"
           | Some slotmap =>
               if decide (slot ∈ slotmap) then Ok (false, false, al)
               else Ok (false, true, mkAccessList (addresses al) (<[Z.to_nat idx := {[slot]} ∪ slotmap]> (slots al)))
           end
  end.

Definition DeleteSlot (al : accessList) (address : Address) (slot : Hash) : outcome accessList :=
  match addresses al !! address with
  | None => Panic "reverting slot change, address not present in list"
  | Some idx =>
      if Z.ltb idx 0 then Panic "index out of range"
      else match slots al !! Z.to_nat idx with
           | None => Panic "index out of range"
           | Some slotmap =>
               let slotmap := slotmap ∖ {[slot]} in
               if decide (slotmap = ∅) then Ok (mkAccessList (<[address := -1]> (addresses al)) (take (Z.to_nat idx) (slots al)))
               else Ok (mkAccessList (addresses al) (<[Z.to_nat idx := slotmap]> (slots al)))
           end
  end.

Definition DeleteAddress (al : accessList) (address : Address) : accessList := mkAccessList (delete address (addresses al)) (slots al).
End AccessList.
Import AccessList.

(** * State objects and the journal *)

Section objects.
Context (T : Type).

Record stateObject := mkStateObject {
  so_address : Address;
  so_addrHash : Hash;
  so_nonce : Z;
  so_balance : Z;
  so_root : Hash;
  so_codeHash : list byte;
  so_dbErr : option error;
  so_trie : option T;
  so_code : slice byte;
  originStorage : gmap Hash Hash;
  pendingStorage : gmap Hash Hash;
  dirtyStorage : gmap Hash Hash;
  fakeStorage : option (gmap Hash Hash);
  dirtyCode : bool;
  suicided : bool;
  deleted : bool;
}.

Inductive journalEntry :=
| createObjectChange (account : Address)
| resetObjectChange (prev : stateObject) (prevdestruct : bool)
| suicideChange (account : Address) (prev : bool) (prevbalance : Z)
| balanceChange (account : Address) (prev : Z)
| nonceChange (account : Address) (prev : Z)
| storageChange (account : Address) (key prevalue : Hash)
| codeChange (account : Address) (prevcode : slice byte) (prevhash : list byte)
| refundChange (prev : Z)
| addLogChange (txhash : Hash)
| addPreimageChange (hash : Hash)
| touchChange (account : Address)
| accessListAddAccountChange (address : Address)
| accessListAddSlotChange (address : Address) (slot : Hash).

Record journal := mkJournal {
  entries : list journalEntry;
  dirties : gmap Address Z;
}.
End objects.

Arguments mkStateObject {T}.
Arguments so_address {T}.
Arguments so_addrHash {T}.
Arguments so_nonce {T}.
Arguments so_balance {T}.
Arguments so_root {T}.
Arguments so_codeHash {T}.
Arguments so_dbErr {T}.
Arguments so_trie {T}.
Arguments so_code {T}.
Arguments originStorage {T}.
Arguments pendingStorage {T}.
Arguments dirtyStorage {T}.
Arguments fakeStorage {T}.
Arguments dirtyCode {T}.
Arguments suicided {T}.
Arguments deleted {T}.
Arguments createObjectChange {T}.
Arguments resetObjectChange {T}.
Arguments suicideChange {T}.
Arguments balanceChange {T}.
Arguments nonceChange {T}.
Arguments storageChange {T}.
Arguments codeChange {T}.
Arguments refundChange {T}.
Arguments addLogChange {T}.
Arguments addPreimageChange {T}.
Arguments touchChange {T}.
Arguments accessListAddAccountChange {T}.
Arguments accessListAddSlotChange {T}.
Arguments mkJournal {T}.
Arguments entries {T}.
Arguments dirties {T}.

#[export] Instance stateObject_eta T : Eta (stateObject T) := fun s =>
  mkStateObject (so_address s) (so_addrHash s) (so_nonce s) (so_balance s) (so_root s) (so_codeHash s) (so_dbErr s) (so_trie s) (so_code s)
    (originStorage s) (pendingStorage s) (dirtyStorage s) (fakeStorage s) (dirtyCode s) (suicided s) (deleted s).
#[export] Instance set_so_nonce T : Setter (@so_nonce T) := ltac:(derive_setter).
#[export] Instance set_so_balance T : Setter (@so_balance T) := ltac:(derive_setter).
#[export] Instance set_so_root T : Setter (@so_root T) := ltac:(derive_setter).
#[export] Instance set_so_codeHash T : Setter (@so_codeHash T) := ltac:(derive_setter).
#[export] Instance set_so_dbErr T : Setter (@so_dbErr T) := ltac:(derive_setter).
#[export] Instance set_so_trie T : Setter (@so_trie T) := ltac:(derive_setter).
#[export] Instance set_so_code T : Setter (@so_code T) := ltac:(derive_setter).
#[export] Instance set_originStorage T : Setter (@originStorage T) := ltac:(derive_setter).
#[export] Instance set_pendingStorage T : Setter (@pendingStorage T) := ltac:(derive_setter).
#[export] Instance set_dirtyStorage T : Setter (@dirtyStorage T) := ltac:(derive_setter).
#[export] Instance set_fakeStorage T : Setter (@fakeStorage T) := ltac:(derive_setter).
#[export] Instance set_dirtyCode T : Setter (@dirtyCode T) := ltac:(derive_setter).
#[export] Instance set_suicided T : Setter (@suicided T) := ltac:(derive_setter).
#[export] Instance set_deleted T : Setter (@deleted T) := ltac:(derive_setter).

(** * The state database *)

Record revision := mkRevision { rev_id : Z; journalIndex : nat }.

Section statedb.
Context (T N : Type).

Record sdb := mkSdb {
  s_trie : T;
  s_originalRoot : Hash;
  s_snap : option N;
  snapDestructs : gset Hash;
  snapAccounts : gmap Hash (list byte);
  snapStorage : gmap Hash (gmap Hash (list byte));
  stateObjects : gmap Address (stateObject T);
  stateObjectsPending : gset Address;
  stateObjectsDirty : gset Address;
  s_dbErr : option error;
  s_refund : Z;
  s_thash : Hash;
  s_txIndex : Z;
  s_logs : gmap Hash (list Log);
  s_logSize : Z;
  s_preimages : gmap Hash (list byte);
  s_accessList : accessList;
  s_journal : journal T;
  validRevisions : list revision;
  nextRevisionId : Z;
}.
End statedb.
Arguments mkSdb {T N}.
Arguments s_trie {T N}.
Arguments s_originalRoot {T N}.
Arguments s_snap {T N}.
Arguments snapDestructs {T N}.
Arguments snapAccounts {T N}.
Arguments snapStorage {T N}.
Arguments stateObjects {T N}.
Arguments stateObjectsPending {T N}.
Arguments stateObjectsDirty {T N}.
Arguments s_dbErr {T N}.
Arguments s_refund {T N}.
Arguments s_thash {T N}.
Arguments s_txIndex {T N}.
Arguments s_logs {T N}.
Arguments s_logSize {T N}.
Arguments s_preimages {T N}.
Arguments s_accessList {T N}.
Arguments s_journal {T N}.
Arguments validRevisions {T N}.
Arguments nextRevisionId {T N}.

#[export] Instance sdb_eta T N : Eta (sdb T N) := fun s =>
  mkSdb (s_trie s) (s_originalRoot s) (s_snap s) (snapDestructs s) (snapAccounts s) (snapStorage s) (stateObjects s) (stateObjectsPending s)
    (stateObjectsDirty s) (s_dbErr s) (s_refund s) (s_thash s) (s_txIndex s) (s_logs s) (s_logSize s) (s_preimages s) (s_accessList s)
    (s_journal s) (validRevisions s) (nextRevisionId s).
#[export] Instance set_s_trie T N : Setter (@s_trie T N) := ltac:(derive_setter).
#[export] Instance set_snapDestructs T N : Setter (@snapDestructs T N) := ltac:(derive_setter).
#[export] Instance set_snapAccounts T N : Setter (@snapAccounts T N) := ltac:(derive_setter).
#[export] Instance set_snapStorage T N : Setter (@snapStorage T N) := ltac:(derive_setter).
#[export] Instance set_stateObjects T N : Setter (@stateObjects T N) := ltac:(derive_setter).
#[export] Instance set_stateObjectsPending T N : Setter (@stateObjectsPending T N) := ltac:(derive_setter).
#[export] Instance set_stateObjectsDirty T N : Setter (@stateObjectsDirty T N) := ltac:(derive_setter).
#[export] Instance set_s_dbErr T N : Setter (@s_dbErr T N) := ltac:(derive_setter).
#[export] Instance set_s_refund T N : Setter (@s_refund T N) := ltac:(derive_setter).
#[export] Instance set_s_thash T N : Setter (@s_thash T N) := ltac:(derive_setter).
#[export] Instance set_s_txIndex T N : Setter (@s_txIndex T N) := ltac:(derive_setter).
#[export] Instance set_s_logs T N : Setter (@s_logs T N) := ltac:(derive_setter).
#[export] Instance set_s_logSize T N : Setter (@s_logSize T N) := ltac:(derive_setter).
#[export] Instance set_s_preimages T N : Setter (@s_preimages T N) := ltac:(derive_setter).
#[export] Instance set_s_accessList T N : Setter (@s_accessList T N) := ltac:(derive_setter).
#[export] Instance set_s_journal T N : Setter (@s_journal T N) := ltac:(derive_setter).
#[export] Instance set_validRevisions T N : Setter (@validRevisions T N) := ltac:(derive_setter).
#[export] Instance set_nextRevisionId T N : Setter (@nextRevisionId T N) := ltac:(derive_setter).

(** The known root hash of an empty trie. *)
Definition emptyRoot : Hash :=
  BytesToHash (map bZ [0x56; 0xe8; 0x1f; 0x17; 0x1b; 0xcc; 0x55; 0xa6; 0xff; 0x83; 0x45; 0xe6; 0x92; 0xc0; 0xf8; 0x6e;
                       0x5b; 0x48; 0xe0; 0x1b; 0x99; 0x6c; 0xad; 0xc0; 0x01; 0x62; 0x2f; 0xb5; 0xe3; 0x63; 0xb4; 0x21]).
Definition ripemd : Address := BytesToAddress [Byte.x03].

(** The account that the trie stores, in RLP: a list of nonce, balance, root and hash. *)
#[export] Instance rlp_Account : RlpStruct (Z * Z * Hash * list byte) := {|
  rlp_type := TStruct [TUint 64; TBigInt; TByteArray 32; TBytes];
  to_rval := fun a => let '(n, b, r, c) := a in VList [VUint n; VBig b; v_arr r; VBytes c];
  of_rval := fun v => match v with
    | VList [VUint n; VBig b; r; VBytes c] => r ← of_v_arr r; Some (n, b, r, c)
    | _ => None end;
  rlp_wf := ltac:(simpl; naive_solver);
  of_to_rval := ltac:(intros [[[n b] r] c]; cbn -[of_v_arr v_arr]; by rewrite of_v_arr_v_arr);
  to_of_rval := ltac:(intros v Hv; destruct v as [| | | |[|[| | | |] [|[| | | |] [|r [|[| | | |] [|]]]]]]; cbn -[of_v_arr v_arr] in Hv; try naive_solver;
    destruct Hv as [(? & ? & Hr & ?) ?]; destruct (v_arr_of_v_arr _ Hr) as (h & Eh & <-); eexists; split; [cbn -[of_v_arr v_arr]; by rewrite of_v_arr_v_arr|done]);
|}.

Section operations.
Context `{Crypto} {T N : Type} `{StateDatabase T N}.
Abbreviation S := (sdb T N).
Abbreviation obj := (stateObject T).

(** ** Journal *)

Definition dirtied (e : journalEntry T) : option Address :=
  match e with
  | createObjectChange a | suicideChange a _ _ | balanceChange a _ | nonceChange a _
  | storageChange a _ _ | codeChange a _ _ | touchChange a => Some a
  | _ => None
  end.

Definition newJournal : journal T := mkJournal [] ∅.

Definition journal_append (e : journalEntry T) : M S unit :=
  modify (fun s => s <| s_journal ::= fun j =>
    mkJournal (e :: entries j)
      (match dirtied e with Some a => <[a := default 0 (dirties j !! a) + 1]> (dirties j) | None => dirties j end) |>).

Definition journal_dirty (a : Address) : M S unit :=
  modify (fun s => s <| s_journal ::= fun j => mkJournal (entries j) (<[a := default 0 (dirties j !! a) + 1]> (dirties j)) |>).

(** ** Objects of their own *)

Definition newObject (address : Address) (data : Account) : obj :=
  mkStateObject address (Keccak256Hash [arr_bytes address]) (Nonce data) (default 0 (Balance data))
    (if decide (Root data = HashZero) then emptyRoot else Root data) (default (Keccak256 [[]]) (CodeHash data))
    None None None ∅ ∅ ∅ None false false false.

Definition so_empty (s : obj) : bool :=
  Z.eqb (so_nonce s) 0 && Z.eqb (so_balance s) 0 && bool_decide (so_codeHash s = Keccak256 [[]]).

Definition so_setError (e : error) (s : obj) : obj := match so_dbErr s with None => s <| so_dbErr := Some e |> | Some _ => s end.

(** Run an operation on a trie that is held elsewhere; the error is a value. *)
Definition onTrie {A} (t : T) (m : M T A) : M S ((A + error) * T) := fun w =>
  match m (mkWorld (w_tick w) t) with
  | (Ok a, w') => (Ok (inl a, w_st w'), mkWorld (w_tick w') (w_st w))
  | (Fail e, w') => (Ok (inr e, w_st w'), mkWorld (w_tick w') (w_st w))
  | (Panic p, w') => (Panic p, mkWorld (w_tick w') (w_st w))
  end.

(** [getTrie]: the storage trie, opened on first use; an empty one when it cannot be
    opened. *)
Definition getTrie (s : obj) : outcome (T * obj) :=
  match so_trie s with
  | Some t => Ok (t, s)
  | None =>
      match OpenStorageTrie (so_addrHash s) (so_root s) with
      | Ok t => Ok (t, s <| so_trie := Some t |>)
      | Fail e =>
          match OpenStorageTrie (so_addrHash s) HashZero with
          | Ok t => Ok (t, so_setError e (s <| so_trie := Some t |>))
          | Fail _ => Panic "invalid memory address or nil pointer dereference"
          | Panic p => Panic p
          end
      | Panic p => Panic p
      end
  end.

(** The value in an encoded slot. *)
Definition slotValue (enc : list byte) (s : obj) : Hash * obj :=
  if Z.ltb 0 (len enc) then
    match Split enc with
    | Ok (_, content, _) => (BytesToHash content, s)
    | Fail e => (HashZero, so_setError e s)
    | Panic p => (HashZero, s)
    end
  else (HashZero, s).

Definition so_GetCommittedState (s : obj) (key : Hash) : M S (Hash * obj) :=
  let fromTrie :=
    '(t, s) ← lift (getTrie s);
    '(r, t) ← onTrie t (TryGet (arr_bytes key));
    let s := s <| so_trie := Some t |> in
    match r with
    | inr e => mret (HashZero, so_setError e s)
    | inl enc => let '(value, s) := slotValue enc s in mret (value, s <| originStorage ::= <[key := value]> |>)
    end in
  match fakeStorage s with
  | Some fake => mret (slot fake key, s)
  | None =>
  match pendingStorage s !! key with
  | Some value => mret (value, s)
  | None =>
  match originStorage s !! key with
  | Some value => mret (value, s)
  | None =>
      snap ← gets s_snap;
      match snap with
      | None => fromTrie
      | Some n =>
          destructs ← gets snapDestructs;
          if decide (so_addrHash s ∈ destructs) then mret (HashZero, s)
          else match snap_Storage n (so_addrHash s) (Keccak256Hash [arr_bytes key]) with
               | Ok enc => let '(value, s) := slotValue enc s in mret (value, s <| originStorage ::= <[key := value]> |>)
               | Fail _ => fromTrie
               | Panic p => panic p
               end
      end
  end end end.

Definition so_GetState (s : obj) (key : Hash) : M S (Hash * obj) :=
  match fakeStorage s with
  | Some fake => mret (slot fake key, s)
  | None =>
      match dirtyStorage s !! key with
      | Some value => mret (value, s)
      | None => so_GetCommittedState s key
      end
  end.

Definition so_setState (key value : Hash) (s : obj) : obj := s <| dirtyStorage ::= <[key := value]> |>.

Definition so_SetState (s : obj) (key value : Hash) : M S obj :=
  match fakeStorage s with
  | Some fake => mret (s <| fakeStorage := Some (<[key := value]> fake) |>)
  | None =>
      '(prev, s) ← so_GetState s key;
      if decide (prev = value) then mret s
      else journal_append (storageChange (so_address s) key prev);; mret (so_setState key value s)
  end.

Definition so_Code (s : obj) : outcome (slice byte * obj) :=
  match so_code s with
  | Some c => Ok (Some c, s)
  | None =>
      if decide (so_codeHash s = Keccak256 [[]]) then Ok (None, s)
      else match ContractCode (so_addrHash s) (BytesToHash (so_codeHash s)) with
           | Ok code => Ok (Some code, s <| so_code := Some code |>)
           | Fail e => Ok (None, so_setError e s)
           | Panic p => Panic p
           end
  end.

Definition so_CodeSize (s : obj) : outcome (Z * obj) :=
  match so_code s with
  | Some c => Ok (len c, s)
  | None =>
      if decide (so_codeHash s = Keccak256 [[]]) then Ok (0, s)
      else match ContractCodeSize (so_addrHash s) (BytesToHash (so_codeHash s)) with
           | Ok size => Ok (size, s)
           | Fail e => Ok (0, so_setError e s)
           | Panic p => Panic p
           end
  end.

Definition so_setCode (codeHash : Hash) (code : slice byte) (s : obj) : obj :=
  s <| so_code := code |> <| so_codeHash := arr_bytes codeHash |> <| dirtyCode := true |>.

Definition so_SetCode (s : obj) (codeHash : Hash) (code : list byte) : M S obj :=
  '(prevcode, s) ← lift (so_Code s);
  journal_append (codeChange (so_address s) prevcode (so_codeHash s));;
  mret (so_setCode codeHash (Some code) s).

Definition so_SetNonce (s : obj) (nonce : Z) : M S obj :=
  journal_append (nonceChange (so_address s) (so_nonce s));; mret (s <| so_nonce := nonce |>).

Definition so_SetBalance (s : obj) (amount : Z) : M S obj :=
  journal_append (balanceChange (so_address s) (so_balance s));; mret (s <| so_balance := amount |>).

Definition so_touch (s : obj) : M S unit :=
  journal_append (touchChange (so_address s));;
  when (bool_decide (so_address s = ripemd)) (journal_dirty (so_address s)).

Definition so_AddBalance (s : obj) (amount : Z) : M S obj :=
  if Z.eqb amount 0 then when (so_empty s) (so_touch s);; mret s
  else so_SetBalance s (so_balance s + amount).

Definition so_SubBalance (s : obj) (amount : Z) : M S obj :=
  if Z.eqb amount 0 then mret s else so_SetBalance s (so_balance s - amount).

(** ** The database *)

Definition setError (e : error) : M S unit := modify (fun s => match s_dbErr s with None => s <| s_dbErr := Some e |> | Some _ => s end).

Definition setStateObject (o : obj) : M S unit := modify (fun s => s <| stateObjects ::= <[so_address o := o]> |>).

(** The account trie is asked and gives back the nodes that it has loaded. *)
Definition trie_TryGet (key : list byte) : M S (list byte + error) :=
  t ← gets s_trie;
  '(r, t) ← onTrie t (TryGet key);
  modify (fun s => s <| s_trie := t |>);;
  mret r.

(** The account as the snapshot layer or the trie has it. *)
Definition fullAccount (acc : SlimAccount) : Account :=
  mkStateAccount (slim_Nonce acc) (Some (slim_Balance acc))
    (if decide (BytesToHash (slim_Root acc) = HashZero) then emptyRoot else BytesToHash (slim_Root acc))
    (Some (if Z.eqb (len (slim_CodeHash acc)) 0 then Keccak256 [[]] else slim_CodeHash acc)).
Definition loadFromTrie (addr : Address) : M S (option Account) :=
  r ← trie_TryGet (arr_bytes addr);
  match r with
  | inr e => setError (ErrorsNew "getDeleteStateObject error");; mret None
  | inl enc =>
      if Z.eqb (len enc) 0 then mret None
      else match rlp_DecodeBytes (A := Z * Z * Hash * list byte) enc with
           | Ok (n, b, r, c) => mret (Some (mkStateAccount n (Some b) r (Some c)))
           | Fail _ => mret None
           | Panic p => panic p
           end
  end.
Definition loadAccount (addr : Address) : M S (option Account) :=
  snap ← gets s_snap;
  match snap with
  | None => loadFromTrie addr
  | Some n =>
      match snap_Account n (Keccak256Hash [arr_bytes addr]) with
      | Ok None => mret None
      | Ok (Some acc) => mret (Some (fullAccount acc))
      | Fail _ => loadFromTrie addr
      | Panic p => panic p
      end
  end.

Definition getDeletedStateObject (addr : Address) : M S (option obj) :=
  objs ← gets stateObjects;
  match objs !! addr with
  | Some o => mret (Some o)
  | None =>
      data ← loadAccount addr;
      match data with
      | None => mret None
      | Some data =>
          let o := newObject addr data in
          setStateObject o;; mret (Some o)
      end
  end.

Definition getStateObject (addr : Address) : M S (option obj) :=
  o ← getDeletedStateObject addr;
  match o with
  | Some o => if deleted o then mret None else mret (Some o)
  | None => mret None
  end.

Definition createObject (addr : Address) : M S (obj * option obj) :=
  prev ← getDeletedStateObject addr;
  snap ← gets s_snap;
  destructs ← gets snapDestructs;
  let prevdestruct := match snap, prev with Some _, Some p => bool_decide (so_addrHash p ∈ destructs) | _, _ => false end in
  match snap, prev with
  | Some _, Some p => when (negb prevdestruct) (modify (fun s => s <| snapDestructs ::= fun d => {[so_addrHash p]} ∪ d |>))
  | _, _ => mret ()
  end;;
  let newobj := newObject addr (mkStateAccount 0 None HashZero None) in
  match prev with
  | None => journal_append (createObjectChange addr)
  | Some p => journal_append (resetObjectChange p prevdestruct)
  end;;
  setStateObject newobj;;
  mret (newobj, match prev with Some p => if deleted p then None else Some p | None => None end).

Definition GetOrNewStateObject (addr : Address) : M S obj :=
  o ← getStateObject addr;
  match o with
  | Some o => mret o
  | None => '(newobj, _) ← createObject addr; mret newobj
  end.

(** Apply a method to the object of an address and keep what it becomes. *)
Definition withObject {A} (dflt : A) (addr : Address) (f : obj -> M S (A * obj)) : M S A :=
  o ← getStateObject addr;
  match o with
  | None => mret dflt
  | Some o => '(a, o) ← f o; setStateObject o;; mret a
  end.
Definition onNewObject (addr : Address) (f : obj -> M S obj) : M S unit :=
  o ← GetOrNewStateObject addr;
  o ← f o;
  setStateObject o.

Definition db_CreateAccount (addr : Address) : M S unit :=
  '(newObj, prev) ← createObject addr;
  match prev with
  | Some p => setStateObject (newObj <| so_balance := so_balance p |>)
  | None => mret ()
  end.

Definition db_Exist (addr : Address) : M S bool := o ← getStateObject addr; mret (bool_decide (is_Some o)).
Definition db_Empty (addr : Address) : M S bool := o ← getStateObject addr; mret (match o with None => true | Some o => so_empty o end).
Definition db_GetBalance (addr : Address) : M S Z := o ← getStateObject addr; mret (from_option so_balance 0 o).
Definition db_GetNonce (addr : Address) : M S Z := o ← getStateObject addr; mret (from_option so_nonce 0 o).
Definition db_GetCode (addr : Address) : M S (list byte) :=
  withObject [] addr (fun o => '(c, o) ← lift (so_Code o); mret (data c, o)).
Definition db_GetCodeSize (addr : Address) : M S Z := withObject 0 addr (fun o => lift (so_CodeSize o)).
Definition db_GetCodeHash (addr : Address) : M S Hash :=
  o ← getStateObject addr; mret (from_option (fun o => BytesToHash (so_codeHash o)) HashZero o).
Definition db_GetState (addr : Address) (key : Hash) : M S Hash := withObject HashZero addr (fun o => so_GetState o key).
Definition db_GetCommittedState (addr : Address) (key : Hash) : M S Hash := withObject HashZero addr (fun o => so_GetCommittedState o key).
Definition db_HasSuicided (addr : Address) : M S bool := o ← getStateObject addr; mret (from_option suicided false o).

Definition db_AddBalance (addr : Address) (amount : Z) : M S unit := onNewObject addr (fun o => so_AddBalance o amount).
Definition db_SubBalance (addr : Address) (amount : Z) : M S unit := onNewObject addr (fun o => so_SubBalance o amount).
Definition db_SetBalance (addr : Address) (amount : Z) : M S unit := onNewObject addr (fun o => so_SetBalance o amount).
Definition db_SetNonce (addr : Address) (nonce : Z) : M S unit := onNewObject addr (fun o => so_SetNonce o nonce).
Definition db_SetCode (addr : Address) (code : list byte) : M S unit := onNewObject addr (fun o => so_SetCode o (Keccak256Hash [code]) code).
Definition db_SetState (addr : Address) (key value : Hash) : M S unit := onNewObject addr (fun o => so_SetState o key value).

Definition db_Suicide (addr : Address) : M S bool :=
  o ← getStateObject addr;
  match o with
  | None => mret false
  | Some o =>
      journal_append (suicideChange addr (suicided o) (so_balance o));;
      setStateObject (o <| suicided := true |> <| so_balance := 0 |>);;
      mret true
  end.

Definition db_AddRefund (gas : Z) : M S unit :=
  r ← gets s_refund;
  journal_append (refundChange r);;
  modify (fun s => s <| s_refund ::= fun r => u64 (r + gas) |>).
Definition db_SubRefund (gas : Z) : M S unit :=
  r ← gets s_refund;
  journal_append (refundChange r);;
  if Z.ltb r gas then panic "Refund counter below zero"
  else modify (fun s => s <| s_refund ::= fun r => r - gas |>).
Definition db_GetRefund : M S Z := gets s_refund.

Definition db_AddLog (log : Log) : M S unit :=
  s ← get;
  journal_append (addLogChange (s_thash s));;
  let log := mkLog (log_Address log) (log_Topics log) (log_Data log) (log_BlockNumber log) (s_thash s) (s_txIndex s) (log_BlockHash log) (s_logSize s) (log_Removed log) in
  modify (fun s => s <| s_logs ::= fun m => <[s_thash s := default [] (m !! s_thash s) ++ [log]]> m |> <| s_logSize ::= fun n => u64 (n + 1) |>).

Definition db_AddPreimage (hash : Hash) (preimage : list byte) : M S unit :=
  m ← gets s_preimages;
  match m !! hash with
  | Some _ => mret ()
  | None => journal_append (addPreimageChange hash);; modify (fun s => s <| s_preimages ::= <[hash := preimage]> |>)
  end.

Definition db_AddAddressToAccessList (addr : Address) : M S unit :=
  al ← gets s_accessList;
  let '(changed, al) := AddAddress al addr in
  modify (fun s => s <| s_accessList := al |>);;
  when changed (journal_append (accessListAddAccountChange addr)).
Definition db_AddSlotToAccessList (addr : Address) (slot : Hash) : M S unit :=
  al ← gets s_accessList;
  '(addrMod, slotMod, al) ← lift (AddSlot al addr slot);
  modify (fun s => s <| s_accessList := al |>);;
  when addrMod (journal_append (accessListAddAccountChange addr));;
  when slotMod (journal_append (accessListAddSlotChange addr slot)).
Definition db_AddressInAccessList (addr : Address) : M S bool := gets (fun s => ContainsAddress (s_accessList s) addr).
Definition db_SlotInAccessList (addr : Address) (slot : Hash) : M S (bool * bool) :=
  al ← gets s_accessList; lift (Contains al addr slot).

(** ** Snapshots *)

Definition db_Snapshot : M S Z :=
  id ← gets nextRevisionId;
  modify (fun s => s <| nextRevisionId ::= fun n => n + 1 |> <| validRevisions ::= fun l => l ++ [mkRevision id (length (entries (s_journal s)))] |>);;
  mret id.

(** A journaled object must be there when its change is undone. *)
Definition liveObject (addr : Address) : M S obj :=
  o ← getStateObject addr; must "invalid memory address or nil pointer dereference" o.

Definition entry_revert (e : journalEntry T) : M S unit :=
  match e with
  | createObjectChange a => modify (fun s => s <| stateObjects ::= delete a |> <| stateObjectsDirty ::= fun d => d ∖ {[a]} |>)
  | resetObjectChange prev prevdestruct =>
      setStateObject prev;;
      snap ← gets s_snap;
      when (negb prevdestruct && bool_decide (is_Some snap)) (modify (fun s => s <| snapDestructs ::= fun d => d ∖ {[so_addrHash prev]} |>))
  | suicideChange a prev prevbalance =>
      o ← getStateObject a;
      match o with None => mret () | Some o => setStateObject (o <| suicided := prev |> <| so_balance := prevbalance |>) end
  | balanceChange a prev => o ← liveObject a; setStateObject (o <| so_balance := prev |>)
  | nonceChange a prev => o ← liveObject a; setStateObject (o <| so_nonce := prev |>)
  | storageChange a key prevalue => o ← liveObject a; setStateObject (so_setState key prevalue o)
  | codeChange a prevcode prevhash => o ← liveObject a; setStateObject (so_setCode (BytesToHash prevhash) prevcode o)
  | refundChange prev => modify (fun s => s <| s_refund := prev |>)
  | addLogChange txhash =>
      modify (fun s => s <| s_logs ::= fun m =>
        let logs := default [] (m !! txhash) in
        if Nat.eqb (length logs) 1 then delete txhash m else <[txhash := take (length logs - 1) logs]> m |>
        <| s_logSize ::= fun n => u64 (n - 1) |>)
  | addPreimageChange hash => modify (fun s => s <| s_preimages ::= delete hash |>)
  | touchChange a => mret ()
  | accessListAddAccountChange a => modify (fun s => s <| s_accessList ::= fun al => DeleteAddress al a |>)
  | accessListAddSlotChange a slot =>
      al ← gets s_accessList; al ← lift (DeleteSlot al a slot); modify (fun s => s <| s_accessList := al |>)
  end.

Definition undirty (e : journalEntry T) (d : gmap Address Z) : gmap Address Z :=
  match dirtied e with
  | None => d
  | Some a => let n := default 0 (d !! a) - 1 in if Z.eqb n 0 then delete a d else <[a := n]> d
  end.

(** The loop of [revert], over the entries above the snapshot, the latest first. *)
Fixpoint revert_loop (l : list (journalEntry T)) : M S unit :=
  match l with
  | [] => mret ()
  | e :: l =>
      entry_revert e;;
      modify (fun s => s <| s_journal ::= fun j => mkJournal (entries j) (undirty e (dirties j)) |>);;
      revert_loop l
  end.
Definition journal_revert (snapshot : nat) : M S unit :=
  es ← gets (fun s => entries (s_journal s));
  revert_loop (take (length es - snapshot) es);;
  modify (fun s => s <| s_journal ::= fun j => mkJournal (drop (length es - snapshot) (entries j)) (dirties j) |>).

(** [sort.Search]: binary search for the first index at which [f] holds. *)
Fixpoint sort_Search_loop (fuel : nat) (f : nat -> bool) (i j : nat) : nat :=
  match fuel with
  | O => i
  | Datatypes.S fuel =>
      if Nat.ltb i j then
        let h := ((i + j) / 2)%nat in
        if negb (f h) then sort_Search_loop fuel f (h + 1)%nat j else sort_Search_loop fuel f i h
      else i
  end.
Definition sort_Search (n : nat) (f : nat -> bool) : nat := sort_Search_loop n f 0 n.

Definition db_RevertToSnapshot (revid : Z) : M S unit :=
  revs ← gets validRevisions;
  let idx := sort_Search (length revs) (fun i => match revs !! i with Some r => Z.leb revid (rev_id r) | None => true end) in
  match revs !! idx with
  | Some r =>
      if negb (Z.eqb (rev_id r) revid) then panic "revision id cannot be reverted"
      else journal_revert (journalIndex r);; modify (fun s => s <| validRevisions ::= take idx |>)
  | None => panic "revision id cannot be reverted"
  end.
End operations.

(** ** The interface *)

#[export] Instance sdbStateDB `{Crypto} {T N : Type} `{StateDatabase T N} : StateDB (sdb T N) := {|
  CreateAccount := db_CreateAccount;
  SubBalance := db_SubBalance;
  AddBalance := db_AddBalance;
  GetBalance := db_GetBalance;
  GetNonce := db_GetNonce;
  SetNonce := db_SetNonce;
  GetCodeHash := db_GetCodeHash;
  GetCode := db_GetCode;
  SetCode := db_SetCode;
  GetCodeSize := db_GetCodeSize;
  AddRefund := db_AddRefund;
  SubRefund := db_SubRefund;
  GetRefund := db_GetRefund;
  GetCommittedState := db_GetCommittedState;
  GetState := db_GetState;
  SetState := db_SetState;
  Suicide := db_Suicide;
  HasSuicided := db_HasSuicided;
  Exist := db_Exist;
  Empty := db_Empty;
  AddressInAccessList := db_AddressInAccessList;
  SlotInAccessList := db_SlotInAccessList;
  AddAddressToAccessList := db_AddAddressToAccessList;
  AddSlotToAccessList := db_AddSlotToAccessList;
  RevertToSnapshot := db_RevertToSnapshot;
  Snapshot := db_Snapshot;
  AddLog := db_AddLog;
  AddPreimage := db_AddPreimage;
|}.

(** * Between transactions *)

Section transactions.
Context `{GoRuntime} `{Crypto} {T N : Type} `{StateDatabase T N}.
Abbreviation S := (sdb T N).
Abbreviation obj := (stateObject T).

(** [New]: the database over an opened account trie and perhaps a snapshot layer. *)
Definition db_New (root : Hash) (tr : T) (snap : option N) : S :=
  mkSdb tr root snap ∅ ∅ ∅ ∅ ∅ ∅ None 0 HashZero 0 ∅ 0 ∅ newAccessList newJournal [] 0.

(** [finalise]: the dirty slots become pending ones. *)
Definition so_finalise (s : obj) : obj := s <| pendingStorage ::= fun m => dirtyStorage s ∪ m |> <| dirtyStorage := ∅ |>.

Definition so_SetStorage (storage : gmap Hash Hash) (s : obj) : obj :=
  s <| fakeStorage := Some (storage ∪ default ∅ (fakeStorage s)) |>.
Definition db_SetStorage (addr : Address) (storage : gmap Hash Hash) : M S unit := onNewObject addr (fun o => mret (so_SetStorage storage o)).

Definition clearJournalAndRefund : M S unit :=
  modify (fun s => (match entries (s_journal s) with [] => s | _ => s <| s_journal := newJournal |> <| s_refund := 0 |> end) <| validRevisions := [] |>).

(** What the loop of [Finalise] does with one dirty address. *)
Definition finaliseObject (deleteEmptyObjects : bool) (addr : Address) : M S unit :=
  objs ← gets stateObjects;
  match objs !! addr with
  | None => mret ()
  | Some o =>
      (if suicided o || deleteEmptyObjects && so_empty o then
         modify (fun s => s <| stateObjects ::= <[addr := o <| deleted := true |>]> |>);;
         snap ← gets s_snap;
         when (bool_decide (is_Some snap))
           (modify (fun s => s <| snapDestructs ::= fun d => {[so_addrHash o]} ∪ d |> <| snapAccounts ::= delete (so_addrHash o) |> <| snapStorage ::= delete (so_addrHash o) |>))
       else modify (fun s => s <| stateObjects ::= <[addr := so_finalise o]> |>));;
      modify (fun s => s <| stateObjectsPending ::= fun d => {[addr]} ∪ d |> <| stateObjectsDirty ::= fun d => {[addr]} ∪ d |>)
  end.

Definition db_Finalise (deleteEmptyObjects : bool) : M S unit :=
  d ← gets (fun s => dirties (s_journal s));
  l ← range d;
  forM (fun kv => finaliseObject deleteEmptyObjects kv.1) l;;
  clearJournalAndRefund.

Definition db_Prepare (thash : Hash) (ti : Z) : M S unit :=
  modify (fun s => s <| s_thash := thash |> <| s_txIndex := ti |> <| s_accessList := newAccessList |>).

Definition db_PrepareAccessList (sender : Address) (dst : option Address) (precompiles : list Address) (list : list (Address * list Hash)) : M S unit :=
  db_AddAddressToAccessList sender;;
  match dst with Some dst => db_AddAddressToAccessList dst | None => mret () end;;
  forM db_AddAddressToAccessList precompiles;;
  forM (fun el => db_AddAddressToAccessList el.1;; forM (db_AddSlotToAccessList el.1) el.2) list.

(** [GetLogs]: the logs are told the hash of their block. *)
Definition db_GetLogs (hash blockHash : Hash) : M S (list Log) :=
  m ← gets s_logs;
  match m !! hash with
  | None => mret []
  | Some logs =>
      let logs := map (fun l => mkLog (log_Address l) (log_Topics l) (log_Data l) (log_BlockNumber l) (log_TxHash l) (log_TxIndex l) blockHash (log_Index l) (log_Removed l)) logs in
      modify (fun s => s <| s_logs ::= <[hash := logs]> |>);; mret logs
  end.
End transactions.
