(* ===== verification/StateRefine.v ===== *)
(** * The journaled state database implements the abstract one

    The state database of [StateDB] represents an abstract state of [StateSpec]: live
    objects laid over the accounts of the trie are the account map, and the snapshots
    are the states that undoing the journal leads back to.  What the trie, the code
    store and the snapshot layer hold is a hypothesis ([BaseState]); the theorem that
    tries refine finite maps is in [TrieSpec]. *)

From S2P Require Import Prelude Common Rlp RlpEnc RlpDec Packets StateSpec StateDB.
From Stdlib Require Import Strings.Byte.
Import AccessList.

Abbreviation addrHashOf a := (Keccak256Hash [arr_bytes a]).

(** What an encoded storage slot says. *)
Definition storedSlot (enc : list byte) (v : Hash) : Prop :=
  if Z.ltb 0 (len enc) then exists k content rest, Split enc = Ok (k, content, rest) /\ v = BytesToHash content else v = HashZero.

Definition accRoot (r : Hash) : Hash := if decide (r = HashZero) then emptyRoot else r.

(** The state that the block starts from: the accounts of the account trie, the slots
    of the storage tries, and the code; the tries, the code store and the snapshot
    layer answer accordingly. *)
Class BaseState (T N : Type) `{Crypto} `{StateDatabase T N} := {
  b_accounts : gmap Address (Z * Z * Hash * list byte);
  b_storage : Hash -> Hash -> gmap Hash Hash;
  b_code : Hash -> Hash -> list byte;
  accountTrie : T -> Prop;
  storageTrie : Hash -> Hash -> T -> Prop;
  b_root (a : Address) : Hash := match b_accounts !! a with Some (_, _, r, _) => accRoot r | None => emptyRoot end;
  TryGet_account n t a : accountTrie t ->
    exists enc t', TryGet (arr_bytes a) (mkWorld n t) = (Ok enc, mkWorld n t') /\ accountTrie t' /\
    match b_accounts !! a with None => enc = [] | Some acc => enc <> [] /\ rlp_DecodeBytes enc = Ok acc end;
  OpenStorageTrie_known a r : r = emptyRoot \/ r = b_root a ->
    exists t, OpenStorageTrie (addrHashOf a) r = Ok t /\ storageTrie (addrHashOf a) r t;
  TryGet_storage n ah r t k : storageTrie ah r t ->
    exists enc t', TryGet (arr_bytes k) (mkWorld n t) = (Ok enc, mkWorld n t') /\ storageTrie ah r t' /\ storedSlot enc (slot (b_storage ah r) k);
  ContractCode_known a n b r c : b_accounts !! a = Some (n, b, r, c) -> c <> Keccak256 [[]] ->
    ContractCode (addrHashOf a) (BytesToHash c) = Ok (b_code (addrHashOf a) (BytesToHash c)) /\
    ContractCodeSize (addrHashOf a) (BytesToHash c) = Ok (len (b_code (addrHashOf a) (BytesToHash c)));
  snap_Account_known n a :
    match snap_Account n (addrHashOf a) with
    | Ok o => match o, b_accounts !! a with
              | None, None => True
              | Some acc, Some (nonce, bal, r, c) => fullAccount acc = mkStateAccount nonce (Some bal) (accRoot r) (Some c)
              | _, _ => False
              end
    | Fail _ => True
    | Panic _ => False
    end;
  snap_Storage_known n a k :
    match snap_Storage n (addrHashOf a) (Keccak256Hash [arr_bytes k]) with
    | Ok enc => storedSlot enc (slot (b_storage (addrHashOf a) (b_root a)) k)
    | Fail _ => True
    | Panic _ => False
    end;
  b_codeHash_size a n b r c : b_accounts !! a = Some (n, b, r, c) -> length c = 32%nat;
  b_storage_empty ah : b_storage ah emptyRoot = ∅;
  addrHash_inj (a b : Address) : addrHashOf a = addrHashOf b -> a = b;
}.

(** ** Running *)

Lemma run_bind {S A B} (m : M S A) (k : A -> M S B) w a w' : m w = (Ok a, w') -> (m ≫= k) w = k a w'.
Proof. intros E. unfold mbind, M_bind. by rewrite E. Qed.
Lemma run_gets {S A B} (f : S -> A) (k : A -> M S B) t s : (gets f ≫= k) (mkWorld t s) = k (f s) (mkWorld t s).
Proof. done. Qed.
Lemma run_modify {S B} (f : S -> S) (k : unit -> M S B) t s : (modify f ≫= k) (mkWorld t s) = k () (mkWorld t (f s)).
Proof. done. Qed.
Lemma run_ret {S A B} (a : A) (k : A -> M S B) w : (mret a ≫= k) w = k a w.
Proof. done. Qed.
Lemma run_lift {S A B} (a : A) (k : A -> M S B) w : (lift (Ok a) ≫= k) w = k a w.
Proof. done. Qed.
Lemma run_assoc {S A B C} (m : M S A) (k : A -> M S B) (l : B -> M S C) w : ((m ≫= k) ≫= l) w = (m ≫= fun a => k a ≫= l) w.
Proof. unfold mbind, M_bind. by destruct (m w) as [[| |] ?]. Qed.
Ltac run := cbn beta iota; repeat (first [rewrite run_assoc | rewrite run_gets | rewrite run_modify | rewrite run_ret | rewrite run_lift]; cbn beta iota).

(** ** Slots without zeros *)

Definition nz (m : gmap Hash Hash) : gmap Hash Hash := filter (fun kv => kv.2 <> HashZero) m.

Lemma slot_nz m k : slot (nz m) k = slot m k.
Proof.
  unfold slot, nz. destruct (m !! k) as [v|] eqn:E.
  - destruct (decide (v = HashZero)) as [->|Hv].
    + by rewrite map_lookup_filter_None_2; [|right; intros x Ex; simplify_eq; auto].
    + by rewrite (map_lookup_filter_Some_2 _ _ _ _ E Hv).
  - by rewrite map_lookup_filter_None_2; [|left].
Qed.

Lemma put_nz m k v : put (nz m) k v = nz (<[k := v]> m).
Proof.
  unfold put, nz. destruct (decide (v = HashZero)) as [->|Hv].
  - rewrite map_filter_insert_False by (simpl; auto). by rewrite map_filter_delete.
  - by rewrite map_filter_insert_True.
Qed.

Lemma nz_ext m m' : (forall k, slot m k = slot m' k) -> nz m = nz m'.
Proof.
  intros E. apply map_eq. intros k. specialize (E k). unfold slot in E. apply option_eq. intros v.
  unfold nz. rewrite !map_lookup_filter_Some. destruct (m !! k), (m' !! k); simpl in *; naive_solver.
Qed.

Lemma slot_insert m k v : slot (<[k := v]> m) k = v.
Proof. unfold slot. by rewrite lookup_insert_eq. Qed.
Lemma slot_insert_ne m k k' v : k <> k' -> slot (<[k := v]> m) k' = slot m k'.
Proof. intros. unfold slot. by rewrite lookup_insert_ne. Qed.

Lemma put_slot m k : put (nz m) k (slot m k) = nz m.
Proof.
  rewrite put_nz. apply nz_ext. intros k'. destruct (decide (k = k')) as [->|]; [by rewrite slot_insert|by rewrite slot_insert_ne].
Qed.

(** ** Access lists *)

(** The pairs in an access list. *)
Definition al_slots (al : accessList) : gset (Address * Hash) :=
  list_to_set (flat_map (fun ai => match slots al !! Z.to_nat ai.2 with
                                   | Some m => if Z.eqb ai.2 (-1) then [] else map (fun k => (ai.1, k)) (elements m)
                                   | None => [] end) (map_to_list (addresses al))).

Lemma elem_al_slots al a k :
  (a, k) ∈ al_slots al <-> exists i m, addresses al !! a = Some i /\ i <> -1 /\ slots al !! Z.to_nat i = Some m /\ k ∈ m.
Proof.
  unfold al_slots. rewrite elem_of_list_to_set, list_elem_of_In, in_flat_map. split.
  - intros ([a' i] & Hin & Hx). apply list_elem_of_In, elem_of_map_to_list in Hin. cbn [fst snd] in Hx.
    destruct (slots al !! Z.to_nat i) as [m|] eqn:Em; [|done]. destruct (Z.eqb_spec i (-1)); [done|].
    apply in_map_iff in Hx as (k' & [= -> ->] & Hk). apply list_elem_of_In, elem_of_elements in Hk. eauto 10.
  - intros (i & m & Ha & Hi & Hm & Hk). exists (a, i). split; [by apply list_elem_of_In, elem_of_map_to_list|]. cbn [fst snd].
    rewrite Hm. destruct (Z.eqb_spec i (-1)); [done|]. apply in_map_iff. exists k. split; [done|]. by apply list_elem_of_In, elem_of_elements.
Qed.

(** Every index is in range and belongs to one address; no set of slots is empty. *)
Record al_ok (al : accessList) : Prop := {
  al_range a i : addresses al !! a = Some i -> i = -1 \/ 0 <= i < len (slots al);
  al_inj a b i : addresses al !! a = Some i -> addresses al !! b = Some i -> i <> -1 -> a = b;
  al_nonempty i m : slots al !! i = Some m -> m <> ∅;
}.

Lemma al_ok_new : al_ok newAccessList.
Proof. split; intros *; rewrite ?lookup_empty, ?lookup_nil; done. Qed.

Lemma ContainsAddress_spec al a : ContainsAddress al a = bool_decide (a ∈ dom (addresses al)).
Proof. unfold ContainsAddress. apply bool_decide_ext. by rewrite elem_of_dom. Qed.

Lemma Contains_spec al a k : al_ok al -> Contains al a k = Ok (bool_decide (a ∈ dom (addresses al)), bool_decide ((a, k) ∈ al_slots al)).
Proof.
  intros Hok. unfold Contains. destruct (addresses al !! a) as [i|] eqn:Ea.
  - rewrite (bool_decide_true (a ∈ _)) by (apply elem_of_dom; eauto). destruct (Z.eqb_spec i (-1)) as [->|Hi].
    + rewrite bool_decide_false; [done|]. rewrite elem_al_slots. naive_solver.
    + destruct (al_range _ Hok _ _ Ea) as [|Hr]; [done|]. destruct (lookup_lt_is_Some_2 (slots al) (Z.to_nat i)) as [m Hm]; [unfold len in Hr; lia|].
      rewrite Hm. do 2 f_equal. apply bool_decide_ext. rewrite elem_al_slots. naive_solver.
  - rewrite !bool_decide_false; [done| |]; [rewrite elem_al_slots; naive_solver|]. rewrite elem_of_dom, Ea. by intros [? ?].
Qed.

Lemma AddAddress_spec al a : al_ok al -> exists c al', AddAddress al a = (c, al') /\ al_ok al' /\
  dom (addresses al') = {[a]} ∪ dom (addresses al) /\ al_slots al' = al_slots al /\
  (if c then DeleteAddress al' a = al else al' = al).
Proof.
  intros Hok. unfold AddAddress. destruct (addresses al !! a) as [i|] eqn:Ea.
  - exists false, al. split_and!; [done|done| |done|done]. assert (a ∈ dom (addresses al)) by (apply elem_of_dom; eauto). set_solver.
  - eexists true, _. split; [done|]. destruct Hok as [H1 H2 H3]. split_and!.
    + split; cbn [addresses slots]; [| |done].
      * intros b i. rewrite lookup_insert_Some. intros [[_ <-]|[_ Hb]]; eauto.
      * intros b c i. rewrite !lookup_insert_Some. naive_solver.
    + cbn [addresses]. set_solver.
    + apply set_eq. intros [b k]. rewrite !elem_al_slots. cbn [addresses slots]. split.
      * intros (i & m & Hb & ? & ? & ?). apply lookup_insert_Some in Hb as [[_ <-]|[_ Hb]]; [done|]. eauto 10.
      * intros (i & m & Hb & ? & ? & ?). exists i, m. rewrite lookup_insert_ne by naive_solver. done.
    + unfold DeleteAddress. cbn [addresses slots]. rewrite delete_insert_id by done. by destruct al.
Qed.

(** A slot in a set of its own: the address had none. *)
Lemma AddSlot_fresh al a k : al_ok al -> default (-1) (addresses al !! a) = -1 ->
  let al' := mkAccessList (<[a := len (slots al)]> (addresses al)) (slots al ++ [{[k]}]) in
  al_ok al' /\ al_slots al' = {[(a, k)]} ∪ al_slots al /\
  DeleteSlot al' a k = Ok (mkAccessList (<[a := -1]> (addresses al)) (slots al)).
Proof.
  intros [H1 H2 H3] Ha al'. assert (Hl : 0 <= len (slots al)) by (unfold len; lia).
  assert (Hself : forall b i, addresses al !! b = Some i -> i <> -1 -> a <> b /\ i <> len (slots al) /\ (Z.to_nat i < length (slots al))%nat).
  { intros b i Hb Hi. split; [intros ->; by rewrite Hb in Ha|]. destruct (H1 _ _ Hb); [done|]. unfold len in *. lia. }
  assert (Hlk : forall i, (i < length (slots al))%nat -> (slots al ++ [{[k]}]) !! i = slots al !! i) by (intros; by apply lookup_app_l).
  assert (Hlast : (slots al ++ [{[k]}]) !! Z.to_nat (len (slots al)) = Some ({[k]} : gset Hash)).
  { unfold len. rewrite Nat2Z.id. rewrite lookup_app_r by done. by rewrite Nat.sub_diag. }
  split; [|split].
  - split; cbn [al' addresses slots].
    + intros b i. rewrite lookup_insert_Some. rewrite len_app. change (len [{[k]}]) with 1. intros [[_ <-]|[_ Hb]]; [lia|]. destruct (H1 _ _ Hb); lia.
    + intros b c i. rewrite !lookup_insert_Some. intros [[<- <-]|[? Hb]] [[<- E]|[? Hc]] Hi; [done| | |by eapply H2]; exfalso; [by destruct (Hself _ _ Hc Hi) as (_ & ? & _)|by destruct (Hself _ _ Hb Hi) as (_ & ? & _)].
    + intros i m. rewrite lookup_app_Some. intros [?|[_ Hm]]; [by eapply H3|]. apply list_lookup_singleton_Some in Hm as [_ <-]. set_solver.
  - apply set_eq. intros [b k']. rewrite elem_of_union, elem_of_singleton, !elem_al_slots. cbn [al' addresses slots]. split.
    + intros (i & m & Hb & Hi & Hm & Hk). apply lookup_insert_Some in Hb as [[-> <-]|[_ Hb]].
      * rewrite Hlast in Hm. injection Hm as <-. left. f_equal. set_solver.
      * right. exists i, m. rewrite Hlk in Hm by (by apply (Hself _ _ Hb)). done.
    + intros [[= -> ->]|(i & m & Hb & Hi & Hm & Hk)].
      * exists (len (slots al)), {[k]}. rewrite lookup_insert_eq. split_and!; [done|lia|done|set_solver].
      * destruct (Hself _ _ Hb Hi) as (? & ? & ?). exists i, m. rewrite lookup_insert_ne, Hlk by done. done.
  - unfold DeleteSlot. cbn [al' addresses slots]. rewrite lookup_insert_eq, (proj2 (Z.ltb_ge _ _)), Hlast by done.
    rewrite decide_True by set_solver. rewrite insert_insert_eq. do 2 f_equal. unfold len. rewrite Nat2Z.id. by apply take_app_length.
Qed.

(** A slot that joins the others of its address. *)
Lemma AddSlot_joins al a k i m : al_ok al -> addresses al !! a = Some i -> i <> -1 -> slots al !! Z.to_nat i = Some m -> k ∉ m ->
  let al' := mkAccessList (addresses al) (<[Z.to_nat i := {[k]} ∪ m]> (slots al)) in
  al_ok al' /\ al_slots al' = {[(a, k)]} ∪ al_slots al /\ DeleteSlot al' a k = Ok al.
Proof.
  intros [H1 H2 H3] Ha Hi Hm Hk al'. assert (Hr : 0 <= i < len (slots al)) by (by destruct (H1 _ _ Ha)).
  assert (Hlen : (Z.to_nat i < length (slots al))%nat) by (unfold len in Hr; lia).
  assert (Hne : forall b j, addresses al !! b = Some j -> j <> -1 -> a <> b -> Z.to_nat i <> Z.to_nat j).
  { intros b j Hb Hj Hab E. destruct (H1 _ _ Hb) as [|Hrj]; [done|]. apply Hab. apply (H2 a b i); [done| |done]. by replace i with j by lia. }
  split; [|split].
  - split; cbn [al' addresses slots].
    + intros b j Hb. unfold len. rewrite length_insert. by apply (H1 _ _ Hb).
    + done.
    + intros j x. rewrite list_lookup_insert_Some. intros [(_ & <- & _)|[_ ?]]; [set_solver|by eapply H3].
  - apply set_eq. intros [b k']. rewrite elem_of_union, elem_of_singleton, !elem_al_slots. cbn [al' addresses slots].
    destruct (decide (a = b)) as [<-|Hab].
    + split.
      * intros (j & x & Hb & Hj & Hx & Hk'). replace j with i in * by congruence. rewrite list_lookup_insert_eq in Hx by done. injection Hx as <-.
        apply elem_of_union in Hk' as [Hk'|Hk']; [left; f_equal; set_solver|right; eauto 10].
      * intros [[= ->]|(j & x & Hb & Hj & Hx & Hk')]; exists i, ({[k]} ∪ m); rewrite list_lookup_insert_eq by done; (split_and!; [done|done|done|]); [set_solver|].
        replace j with i in * by congruence. replace x with m in * by congruence. set_solver.
    + split.
      * intros (j & x & Hb & Hj & Hx & Hk'). right. exists j, x. rewrite list_lookup_insert_ne in Hx by (by eapply Hne). done.
      * intros [[= -> ->]|(j & x & Hb & Hj & Hx & Hk')]; [done|]. exists j, x. rewrite list_lookup_insert_ne by (by eapply Hne). done.
  - unfold DeleteSlot. cbn [al' addresses slots]. rewrite Ha, (proj2 (Z.ltb_ge _ _)) by lia. rewrite list_lookup_insert_eq by done.
    replace (({[k]} ∪ m) ∖ {[k]}) with m by (apply set_eq; set_solver). rewrite decide_False by (by eapply H3).
    rewrite list_insert_insert_eq. destruct al as [ad sl]. cbn [addresses slots] in *. do 2 f_equal. by apply list_insert_id.
Qed.

(** What [AddSlot] does, and how [DeleteSlot] and [DeleteAddress] take it back. *)
Lemma AddSlot_spec al a k : al_ok al -> exists ca ck al', AddSlot al a k = Ok (ca, ck, al') /\ al_ok al' /\
  dom (addresses al') = {[a]} ∪ dom (addresses al) /\ al_slots al' = {[(a, k)]} ∪ al_slots al /\
  ca = (AddAddress al a).1 /\
  (if ck then DeleteSlot al' a k = Ok (AddAddress al a).2 else al' = al /\ ca = false).
Proof.
  intros Hok. unfold AddSlot, AddAddress. destruct (addresses al !! a) as [i|] eqn:Ea.
  - assert (Hdom : dom (addresses al) = {[a]} ∪ dom (addresses al)) by (assert (a ∈ dom (addresses al)) by (apply elem_of_dom; eauto); set_solver).
    destruct (Z.eqb_spec i (-1)) as [->|Hi].
    + destruct (AddSlot_fresh al a k Hok) as (? & ? & Hd); [by rewrite Ea|]. do 3 eexists. split; [done|]. split_and!; [done|cbn [addresses]; set_solver|done|done|].
      rewrite Hd, insert_id by done. by destruct al.
    + destruct (al_range _ Hok _ _ Ea) as [|Hr]; [done|]. destruct (lookup_lt_is_Some_2 (slots al) (Z.to_nat i)) as [m Hm]; [unfold len in Hr; lia|]. rewrite Hm.
      destruct (decide (k ∈ m)) as [Hk|Hk].
      * do 3 eexists. split; [done|]. split_and!; [done|done| |done|done|done]. assert ((a, k) ∈ al_slots al) by (apply elem_al_slots; eauto 10). set_solver.
      * destruct (AddSlot_joins al a k i m Hok) as (? & ? & Hd); [done..|]. do 3 eexists. split; [done|]. split_and!; done.
  - destruct (AddSlot_fresh al a k Hok) as (? & ? & Hd); [by rewrite Ea|]. do 3 eexists. split; [done|]. split_and!; [done|cbn [addresses]; set_solver|done|done|done].
Qed.

Section refine.
Context `{Crypto} {T N : Type} `{StateDatabase T N} `{!BaseState T N}.
Abbreviation st := (sdb T N).
Abbreviation obj := (stateObject T).

(** ** What an object stands for *)

Definition storeOf (o : obj) : gmap Hash Hash := pendingStorage o ∪ (originStorage o ∪ b_storage (so_addrHash o) (so_root o)).
Definition abs_code (o : obj) : list byte :=
  match so_code o with
  | Some c => c
  | None => if decide (so_codeHash o = Keccak256 [[]]) then [] else b_code (so_addrHash o) (BytesToHash (so_codeHash o))
  end.
Definition abs (o : obj) : account :=
  mkAccount (so_nonce o) (so_balance o) (abs_code o) (BytesToHash (so_codeHash o))
    (nz (dirtyStorage o ∪ storeOf o)) (nz (storeOf o)) (suicided o).

(** What holds of an object of address [a], given the destructed addresses [D]. *)
Record obj_ok (snap : option N) (D : gset Hash) (a : Address) (o : obj) : Prop := {
  oo_address : so_address o = a;
  oo_hash : so_addrHash o = addrHashOf a;
  oo_fake : fakeStorage o = None;
  oo_trie t : so_trie o = Some t -> storageTrie (addrHashOf a) (so_root o) t;
  oo_root : so_root o = emptyRoot \/ so_root o = b_root a;
  oo_code : so_code o = None -> so_codeHash o = Keccak256 [[]] \/ exists n b r, b_accounts !! a = Some (n, b, r, so_codeHash o);
  oo_codeHash : length (so_codeHash o) = 32%nat;
  oo_destruct : is_Some snap -> deleted o = false -> so_root o = (if decide (addrHashOf a ∈ D) then emptyRoot else b_root a);
}.

Definition baseObject (a : Address) (acc : Z * Z * Hash * list byte) : obj :=
  let '(n, b, r, c) := acc in newObject a (mkStateAccount n (Some b) r (Some c)).

(** The account map: the live objects laid over the base. *)
Definition accounts_of (objs : gmap Address obj) : gmap Address account :=
  merge (fun o b => match o with Some o => if deleted o then None else Some (abs o) | None => b end) objs
    (map_imap (fun a acc => Some (abs (baseObject a acc))) b_accounts).
#[local] Arguments accounts_of : simpl never.
#[local] Arguments abs : simpl never.

Lemma accounts_of_lookup objs a :
  accounts_of objs !! a = match objs !! a with
                          | Some o => if deleted o then None else Some (abs o)
                          | None => match b_accounts !! a with Some acc => Some (abs (baseObject a acc)) | None => None end
                          end.
Proof.
  unfold accounts_of. rewrite lookup_merge, map_lookup_imap. destruct (objs !! a), (b_accounts !! a); done.
Qed.

Lemma accounts_of_insert objs a o : deleted o = false -> accounts_of (<[a := o]> objs) = <[a := abs o]> (accounts_of objs).
Proof.
  intros Hd. apply map_eq. intros b. rewrite accounts_of_lookup. destruct (decide (a = b)) as [<-|Hab].
  - by rewrite !lookup_insert_eq, Hd.
  - by rewrite !lookup_insert_ne, accounts_of_lookup.
Qed.

(** The part of the state that undoing goes back to; [core] is what can be seen of it. *)
Record logical := mkLogical { l_core : core; l_al : accessList; l_destructs : gset Hash }.
Definition core_of (s : st) : core :=
  mkCore (accounts_of (stateObjects s)) (s_refund s) (dom (addresses (s_accessList s))) (al_slots (s_accessList s)) (s_logs s) (s_logSize s) (s_preimages s).
Definition logical_of (s : st) : logical := mkLogical (core_of s) (s_accessList s) (snapDestructs s).

Record ok (s : st) : Prop := {
  ok_trie : accountTrie (s_trie s);
  ok_objects a o : stateObjects s !! a = Some o -> obj_ok (s_snap s) (snapDestructs s) a o;
  ok_destructs a : addrHashOf a ∈ snapDestructs s -> is_Some (s_snap s) /\ is_Some (stateObjects s !! a);
  ok_al : al_ok (s_accessList s);
  ok_logs h l : s_logs s !! h = Some l -> l <> [];
  ok_logSize : is_u64 (s_logSize s);
}.

(** [s'] differs from [s] in caches at most. *)
Record quiet (s s' : st) : Prop := {
  q_ok : ok s';
  q_logical : logical_of s' = logical_of s;
  q_snap : s_snap s' = s_snap s;
  q_journal : entries (s_journal s') = entries (s_journal s);
  q_revisions : validRevisions s' = validRevisions s;
  q_next : nextRevisionId s' = nextRevisionId s;
  q_thash : s_thash s' = s_thash s;
  q_txIndex : s_txIndex s' = s_txIndex s;
}.

Lemma quiet_same s : ok s -> quiet s s.
Proof. by split. Qed.
Lemma quiet_seq s1 s2 s3 : quiet s1 s2 -> quiet s2 s3 -> quiet s1 s3.
Proof. intros [] []. split; congruence. Qed.

Lemma slot_union m m' k : slot (m ∪ m') k = match m !! k with Some v => v | None => slot m' k end.
Proof. unfold slot. rewrite lookup_union. destruct (m !! k) as [v|], (m' !! k) as [v'|]; done. Qed.

(** ** Loading objects *)

Lemma accRoot_idemp r : accRoot (accRoot r) = accRoot r.
Proof.
  unfold accRoot at 1. destruct (decide _) as [E|]; [|done]. unfold accRoot in E. destruct (decide _); [|done].
  exfalso. apply (f_equal arr_bytes) in E. vm_compute in E. discriminate.
Qed.

Lemma baseObject_ok snap D a acc : b_accounts !! a = Some acc -> addrHashOf a ∉ D -> obj_ok snap D a (baseObject a acc).
Proof.
  intros Ha HD. destruct acc as [[[n b] r] c]. unfold baseObject, newObject. cbn [default Balance Root CodeHash Nonce].
  assert (Hr : b_root a = accRoot r) by (unfold b_root; by rewrite Ha).
  split; cbn [so_address so_addrHash fakeStorage so_trie so_root so_code so_codeHash deleted]; try done.
  - right. by rewrite Hr.
  - eauto 10.
  - by eapply b_codeHash_size.
  - intros _ _. destruct (decide (addrHashOf a ∈ D)); [done|]. by rewrite Hr.
Qed.

(** Objects and the trie may change as long as what they stand for stays. *)
Lemma quiet_objects s s' : ok s -> accountTrie (s_trie s') ->
  s_snap s' = s_snap s -> snapDestructs s' = snapDestructs s -> s_accessList s' = s_accessList s -> s_logs s' = s_logs s -> s_logSize s' = s_logSize s ->
  s_refund s' = s_refund s -> s_preimages s' = s_preimages s -> entries (s_journal s') = entries (s_journal s) -> validRevisions s' = validRevisions s ->
  nextRevisionId s' = nextRevisionId s -> s_thash s' = s_thash s -> s_txIndex s' = s_txIndex s ->
  (forall a o, stateObjects s' !! a = Some o -> obj_ok (s_snap s) (snapDestructs s) a o) ->
  (forall a, is_Some (stateObjects s !! a) -> is_Some (stateObjects s' !! a)) ->
  accounts_of (stateObjects s') = accounts_of (stateObjects s) -> quiet s s'.
Proof.
  intros [] Htr E1 E2 E3 E4 E5 E6 E7 E8 E9 E10 E11 E12 Ho Hd Ha. split; try done.
  - split; rewrite ?E1, ?E2, ?E3, ?E4, ?E5; try done. intros a Hin. destruct (ok_destructs0 a Hin). auto.
  - unfold logical_of, core_of. congruence.
Qed.

(** An object that stands for the same account may take the place of another. *)
Lemma quiet_setObject s a o o' : ok s -> stateObjects s !! a = Some o -> obj_ok (s_snap s) (snapDestructs s) a o' -> abs o' = abs o -> deleted o' = deleted o ->
  quiet s (s <| stateObjects ::= <[a := o']> |>).
Proof.
  intros Hok Ha Ho' Eabs Ed. apply quiet_objects; try done; cbn; [apply Hok| | |].
  - intros b x. rewrite lookup_insert_Some. intros [[<- <-]|[_ Hb]]; [done|by apply Hok].
  - intros b. destruct (decide (a = b)) as [<-|]; [by rewrite lookup_insert_eq|by rewrite lookup_insert_ne].
  - apply map_eq. intros b. rewrite !accounts_of_lookup. destruct (decide (a = b)) as [<-|]; [|by rewrite lookup_insert_ne].
    by rewrite lookup_insert_eq, Ha, Ed, Eabs.
Qed.

Lemma loadFromTrie_spec t s a : ok s -> exists o s', loadFromTrie a (mkWorld t s) = (Ok o, mkWorld t s') /\ quiet s s' /\ stateObjects s' = stateObjects s /\
  match o with
  | Some data => exists acc, b_accounts !! a = Some acc /\ newObject a data = baseObject a acc
  | None => b_accounts !! a = None
  end.
Proof.
  intros Hok. destruct (TryGet_account t (s_trie s) a (ok_trie _ Hok)) as (enc & t' & Eg & Htr & Hb).
  unfold loadFromTrie, trie_TryGet. run. erewrite run_bind by (unfold onTrie; cbn [w_tick]; rewrite Eg; done). run.
  assert (Hq : quiet s (s <| s_trie := t' |>)) by (apply quiet_objects; try done; apply Hok).
  destruct (b_accounts !! a) as [acc|] eqn:Eb.
  - destruct Hb as [Hne Hd]. destruct (Z.eqb_spec (len enc) 0) as [E|_]; [by destruct enc|]. rewrite Hd. destruct acc as [[[n b] r] c].
    eexists (Some _), _. split_and!; [done|done|done|]. eexists. by split.
  - subst enc. eexists None, _. split_and!; done.
Qed.

Lemma loadAccount_spec t s a : ok s -> exists o s', loadAccount a (mkWorld t s) = (Ok o, mkWorld t s') /\ quiet s s' /\ stateObjects s' = stateObjects s /\
  match o with
  | Some data => exists acc, b_accounts !! a = Some acc /\ newObject a data = baseObject a acc
  | None => b_accounts !! a = None
  end.
Proof.
  intros Hok. unfold loadAccount, mbind, M_bind, gets. cbn [w_st]. destruct (s_snap s) as [n|]; [|by apply loadFromTrie_spec].
  pose proof (snap_Account_known n a) as Hs. destruct (snap_Account n _) as [[acc|]|e|p]; [| |by apply loadFromTrie_spec|done].
  - destruct (b_accounts !! a) as [[[[nonce bal] r] c]|] eqn:Eb; [|done]. eexists (Some _), s. split_and!; [done|by apply quiet_same|done|].
    eexists. split; [done|]. rewrite Hs. unfold baseObject, newObject. cbn [Root Nonce Balance CodeHash]. fold (accRoot (accRoot r)) (accRoot r). by rewrite accRoot_idemp.
  - destruct (b_accounts !! a) eqn:Eb; [done|]. eexists None, s. split_and!; [done|by apply quiet_same|done|done].
Qed.

Lemma getDeletedStateObject_spec t s a : ok s -> exists o s', getDeletedStateObject a (mkWorld t s) = (Ok o, mkWorld t s') /\ quiet s s' /\
  stateObjects s' !! a = o /\ (o = None -> b_accounts !! a = None).
Proof.
  intros Hok. unfold getDeletedStateObject, mbind, M_bind, gets. cbn [w_st]. destruct (stateObjects s !! a) as [o|] eqn:Eo.
  { eexists (Some o), s. split_and!; [done|by apply quiet_same|done|done]. }
  destruct (loadAccount_spec t s a Hok) as (data & s' & E & Hq & Eobj & Hd). unfold mbind, M_bind in E. rewrite E. destruct data as [data|].
  - destruct Hd as (acc & Eb & En). rewrite En. unfold setStateObject, modify, mret, M_ret. cbn [w_st w_tick].
    assert (Ea : so_address (baseObject a acc) = a) by (by destruct acc as [[[? ?] ?] ?]). rewrite Ea.
    eexists (Some _), _. split_and!; [done| | |done]; [|cbn; by rewrite lookup_insert_eq].
    assert (HD : addrHashOf a ∉ snapDestructs s) by (intros Hin; destruct (ok_destructs _ Hok a Hin) as [_ Hs]; rewrite Eo in Hs; by destruct Hs).
    assert (ED : snapDestructs s' = snapDestructs s) by (by apply (f_equal l_destructs (q_logical _ _ Hq))).
    eapply quiet_seq; [exact Hq|]. apply quiet_objects; try done; cbn; [apply Hq|apply Hq| | |].
    + intros b x. rewrite lookup_insert_Some. intros [[<- <-]|[_ Hb]]; [|by apply (q_ok _ _ Hq)]. apply baseObject_ok; [done|by rewrite ED].
    + intros b. destruct (decide (a = b)) as [<-|]; [by rewrite lookup_insert_eq|by rewrite lookup_insert_ne].
    + apply map_eq. intros b. rewrite !accounts_of_lookup. destruct (decide (a = b)) as [<-|]; [|by rewrite lookup_insert_ne].
      rewrite lookup_insert_eq, Eobj, Eo, Eb. by destruct acc as [[[? ?] ?] ?].
  - eexists None, s'. split_and!; [done|done|by rewrite Eobj|done].
Qed.

Lemma getStateObject_spec t s a : ok s -> exists o s', getStateObject a (mkWorld t s) = (Ok o, mkWorld t s') /\ quiet s s' /\
  accounts_of (stateObjects s) !! a = abs <$> o /\ (forall x, o = Some x -> stateObjects s' !! a = Some x /\ deleted x = false).
Proof.
  intros Hok. destruct (getDeletedStateObject_spec t s a Hok) as (o & s' & E & Hq & Ho & Hb). unfold getStateObject. erewrite run_bind by exact E.
  assert (Ha : accounts_of (stateObjects s) !! a = accounts_of (stateObjects s') !! a) by (pose proof (f_equal (fun l => k_accounts (l_core l)) (q_logical _ _ Hq)) as El; cbn in El; by rewrite El).
  rewrite Ha, accounts_of_lookup, Ho. destruct o as [o|].
  - destruct (deleted o) eqn:Ed.
    + eexists None, s'. split_and!; try done.
    + eexists (Some o), s'. split_and!; try done. naive_solver.
  - rewrite Hb by done. eexists None, s'. split_and!; try done.
Qed.

(** ** Reading an object *)

(** [o'] is [o] with more of it loaded. *)
Definition loaded (snap : option N) (D : gset Hash) (a : Address) (o o' : obj) : Prop :=
  obj_ok snap D a o' /\ abs o' = abs o /\ deleted o' = deleted o.

Lemma so_setError_loaded snap D a o e : obj_ok snap D a o -> loaded snap D a o (so_setError e o).
Proof. intros []. unfold so_setError. destruct (so_dbErr o); (split; [by split|done]). Qed.

Lemma so_Code_spec snap D a o : obj_ok snap D a o -> exists c o', so_Code o = Ok (c, o') /\ data c = abs_code o /\ loaded snap D a o o' /\
  so_codeHash o' = so_codeHash o /\ (c = None -> so_codeHash o = Keccak256 [[]]).
Proof.
  intros Ho. unfold so_Code, abs_code. destruct (so_code o) as [c|] eqn:Ec; [by eexists _, o|].
  destruct (decide _) as [Eh|Hh]; [by eexists _, o|].
  destruct (oo_code _ _ _ _ Ho Ec) as [|(n & b & r & Eb)]; [done|]. rewrite (oo_hash _ _ _ _ Ho).
  destruct (ContractCode_known _ _ _ _ _ Eb Hh) as [-> _]. do 2 eexists. split; [done|]. split; [done|]. split; [|done]. split; [|split; [|done]].
  - destruct Ho. by split.
  - unfold abs. f_equal. unfold abs_code. cbn. rewrite Ec, decide_False by done. by rewrite (oo_hash _ _ _ _ Ho).
Qed.

Lemma so_CodeSize_spec snap D a o : obj_ok snap D a o -> so_CodeSize o = Ok (len (abs_code o), o).
Proof.
  intros Ho. unfold so_CodeSize, abs_code. destruct (so_code o) as [c|] eqn:Ec; [done|].
  destruct (decide _) as [Eh|Hh]; [done|].
  destruct (oo_code _ _ _ _ Ho Ec) as [|(n & b & r & Eb)]; [done|]. rewrite (oo_hash _ _ _ _ Ho).
  by destruct (ContractCode_known _ _ _ _ _ Eb Hh) as [_ ->].
Qed.

Lemma slotValue_spec enc v (o : obj) : storedSlot enc v -> slotValue enc o = (v, o).
Proof.
  unfold storedSlot, slotValue. destruct (Z.ltb 0 (len enc)); [|by intros ->]. intros (k & c & r & -> & ->). done.
Qed.

(** Caching a slot changes nothing. *)
Lemma loaded_origin snap D a o k : obj_ok snap D a o -> pendingStorage o !! k = None -> originStorage o !! k = None ->
  loaded snap D a o (o <| originStorage ::= <[k := slot (b_storage (addrHashOf a) (so_root o)) k]> |>).
Proof.
  intros Ho Hp Hor. split; [|split; [|done]].
  - destruct Ho. by split.
  - assert (E : forall k', slot (storeOf (o <| originStorage ::= <[k := slot (b_storage (addrHashOf a) (so_root o)) k]> |>)) k' = slot (storeOf o) k').
    { intros k'. unfold storeOf. cbn. rewrite !slot_union. destruct (pendingStorage o !! k') eqn:Ep; [done|].
      destruct (decide (k = k')) as [<-|]; [|by rewrite lookup_insert_ne]. rewrite lookup_insert_eq, Hor. by rewrite (oo_hash _ _ _ _ Ho). }
    unfold abs. f_equal; [|by apply nz_ext]. apply nz_ext. intros k'. rewrite !slot_union. cbn. destruct (dirtyStorage o !! k'); [done|]. apply E.
Qed.

Lemma loaded_trans snap D a o1 o2 o3 : loaded snap D a o1 o2 -> loaded snap D a o2 o3 -> loaded snap D a o1 o3.
Proof. intros (? & ? & ?) (? & ? & ?). split; [done|]. split; congruence. Qed.
Lemma loaded_refl snap D a o : obj_ok snap D a o -> loaded snap D a o o.
Proof. done. Qed.

Lemma loaded_trie snap D a o t : obj_ok snap D a o -> storageTrie (addrHashOf a) (so_root o) t -> loaded snap D a o (o <| so_trie := Some t |>).
Proof. intros Ho Ht. split; [|done]. destruct Ho. split; try done. cbn. by intros ? [= <-]. Qed.

Lemma getTrie_spec snap D a o : obj_ok snap D a o -> exists t, getTrie o = Ok (t, o <| so_trie := Some t |>) /\ storageTrie (addrHashOf a) (so_root o) t.
Proof.
  intros Ho. unfold getTrie. destruct (so_trie o) as [t|] eqn:Et.
  - exists t. split; [|by apply (oo_trie _ _ _ _ Ho)]. destruct o. cbn in *. by rewrite Et.
  - rewrite (oo_hash _ _ _ _ Ho). destruct (OpenStorageTrie_known a (so_root o) (oo_root _ _ _ _ Ho)) as (t & -> & Ht). by exists t.
Qed.

Lemma so_GetCommittedState_spec t s a o k : ok s -> obj_ok (s_snap s) (snapDestructs s) a o -> deleted o = false ->
  exists o', so_GetCommittedState o k (mkWorld t s) = (Ok (slot (storeOf o) k, o'), mkWorld t s) /\ loaded (s_snap s) (snapDestructs s) a o o' /\
    dirtyStorage o' = dirtyStorage o.
Proof.
  intros Hok Ho Hd. unfold so_GetCommittedState. rewrite (oo_fake _ _ _ _ Ho).
  assert (Es : slot (storeOf o) k = match pendingStorage o !! k with Some v => v | None => match originStorage o !! k with Some v => v | None => slot (b_storage (addrHashOf a) (so_root o)) k end end)
    by (unfold storeOf; by rewrite !slot_union, (oo_hash _ _ _ _ Ho)).
  rewrite Es. destruct (pendingStorage o !! k) as [v|] eqn:Ep; [by exists o|]. destruct (originStorage o !! k) as [v|] eqn:Eo; [by exists o|].
  set (fromTrie := mbind _ (lift (getTrie o))).
  assert (Htrie : exists o', fromTrie (mkWorld t s) = (Ok (slot (b_storage (addrHashOf a) (so_root o)) k, o'), mkWorld t s) /\
    loaded (s_snap s) (snapDestructs s) a o o' /\ dirtyStorage o' = dirtyStorage o).
  { subst fromTrie. destruct (getTrie_spec _ _ _ _ Ho) as (tr & -> & Htr). run.
    destruct (TryGet_storage t _ _ _ k Htr) as (enc & tr' & Eg & Htr' & Hs). erewrite run_bind by (unfold onTrie; cbn [w_tick]; rewrite Eg; done). run.
    rewrite (slotValue_spec _ _ _ Hs). eexists. split; [done|]. split; [|done].
    eapply loaded_trans; [by apply (loaded_trie _ _ _ _ tr')|].
    change (loaded (s_snap s) (snapDestructs s) a (o <| so_trie := Some tr' |>) ((o <| so_trie := Some tr' |>) <| originStorage ::= <[k := slot (b_storage (addrHashOf a) (so_root (o <| so_trie := Some tr' |>))) k]> |>)).
    apply (loaded_origin _ _ _ (o <| so_trie := Some tr' |>)); try done. by apply loaded_trie. }
  run. destruct (s_snap s) as [n|] eqn:Esn; [|exact Htrie]. run.
  pose proof (oo_destruct _ _ _ _ Ho ltac:(eauto) Hd) as Hroot. rewrite (oo_hash _ _ _ _ Ho). destruct (decide (addrHashOf a ∈ snapDestructs s)) as [HD|HD].
  - exists o. split; [|by split]. by rewrite Hroot, b_storage_empty.
  - pose proof (snap_Storage_known n a k) as Hs. rewrite <- Hroot in Hs. destruct (snap_Storage n _ _) as [enc|e|p]; [|exact Htrie|done].
    rewrite (slotValue_spec _ _ _ Hs). eexists. split; [done|]. split; [|done]. by apply loaded_origin.
Qed.

Lemma so_GetState_spec t s a o k : ok s -> obj_ok (s_snap s) (snapDestructs s) a o -> deleted o = false ->
  exists o', so_GetState o k (mkWorld t s) = (Ok (slot (dirtyStorage o ∪ storeOf o) k, o'), mkWorld t s) /\ loaded (s_snap s) (snapDestructs s) a o o' /\
    dirtyStorage o' = dirtyStorage o.
Proof.
  intros Hok Ho Hd. unfold so_GetState. rewrite (oo_fake _ _ _ _ Ho), slot_union. destruct (dirtyStorage o !! k) as [v|] eqn:Ed; [by exists o|].
  by apply so_GetCommittedState_spec.
Qed.

(** ** Undoing *)

(** Undoing the change [e] takes any state that is logically [l'] back to [l]. *)
Definition undoes (snap : option N) (e : journalEntry T) (l' l : logical) : Prop :=
  forall t s, ok s -> s_snap s = snap -> logical_of s = l' ->
  exists s', entry_revert e (mkWorld t s) = (Ok (), mkWorld t s') /\ ok s' /\ logical_of s' = l /\ s_snap s' = s_snap s /\
    entries (s_journal s') = entries (s_journal s) /\ validRevisions s' = validRevisions s /\ nextRevisionId s' = nextRevisionId s /\ s_thash s' = s_thash s /\ s_txIndex s' = s_txIndex s.

(** The states that the entries of the journal lead back through, the present first. *)
Inductive history (snap : option N) : list (journalEntry T) -> list logical -> Prop :=
| history_nil l : history snap [] [l]
| history_cons e es l' l ls : undoes snap e l' l -> history snap es (l :: ls) -> history snap (e :: es) (l' :: l :: ls).

(** The snapshot that a revision stands for: the state when the journal was as long
    as the revision says. *)
Definition revision_of (ls : list logical) (r : revision) (x : Z * core) : Prop :=
  x.1 = rev_id r /\ (journalIndex r < length ls)%nat /\ l_core <$> (ls !! (length ls - 1 - journalIndex r)%nat) = Some x.2.

Record represents (s : st) (v : Abs) : Prop := {
  rp_ok : ok s;
  rp_history : exists ls, history (s_snap s) (entries (s_journal s)) (logical_of s :: ls) /\
    Forall2 (revision_of (logical_of s :: ls)) (rev (validRevisions s)) (v_snapshots v);
  rp_core : v_core v = core_of s;
  rp_sorted : StronglySorted (fun r r' => rev_id r < rev_id r' /\ (journalIndex r <= journalIndex r')%nat) (validRevisions s);
  rp_next : v_next v = nextRevisionId s /\ Forall (fun r => rev_id r < nextRevisionId s) (validRevisions s);
  rp_index : Forall (fun r => (journalIndex r <= length (entries (s_journal s)))%nat) (validRevisions s);
  rp_tx : v_thash v = s_thash s /\ v_txIndex v = s_txIndex s;
}.

Lemma represents_quiet s s' v : represents s v -> quiet s s' -> represents s' v.
Proof.
  intros [] []. assert (Ec : core_of s' = core_of s) by (by apply (f_equal l_core q_logical0)).
  split; rewrite ?q_logical0, ?q_journal0, ?q_revisions0, ?q_next0, ?q_thash0, ?q_txIndex0, ?Ec, ?q_snap0; done.
Qed.

(** Operations that only read. *)
Lemma implements_reads {A} (m : M st A) (f : core -> A) :
  (forall t s, ok s -> exists s', m (mkWorld t s) = (Ok (f (core_of s)), mkWorld t s') /\ quiet s s') -> implements represents m (reads f).
Proof.
  intros Hm t s v Hr. unfold reads. destruct (Hm t s (rp_ok _ _ Hr)) as (s' & E & Hq). exists s'. rewrite (rp_core _ _ Hr). split; [done|].
  by eapply represents_quiet.
Qed.

Lemma getter_implements {A} (f : option obj -> A) (g : core -> A) (a : Address) :
  (forall s o, ok s -> accounts_of (stateObjects s) !! a = abs <$> o -> (forall x, o = Some x -> length (so_codeHash x) = 32%nat) -> f o = g (core_of s)) ->
  implements represents (getStateObject a ≫= fun o => mret (f o)) (reads g).
Proof.
  intros Hf. apply implements_reads. intros t s Hok. destruct (getStateObject_spec t s a Hok) as (o & s' & E & Hq & Ha & Ho).
  erewrite run_bind by exact E. exists s'. split; [|done]. rewrite (Hf s o Hok Ha); [done|].
  intros x Ex. destruct (Ho x Ex) as [Hx _]. by apply (ok_objects _ (q_ok _ _ Hq)) in Hx as [].
Qed.

Lemma BytesToHash_inj b c : length b = 32%nat -> length c = 32%nat -> BytesToHash b = BytesToHash c -> b = c.
Proof. intros Hb Hc E. apply (f_equal arr_bytes) in E. unfold BytesToHash, BytesToArr in E. by rewrite !arr_bytes_SetBytes_full in E. Qed.

Lemma so_empty_spec (o : obj) : length (so_codeHash o) = 32%nat -> so_empty o = isEmpty (abs o).
Proof.
  intros Hl. unfold so_empty, isEmpty, abs. cbn [ac_nonce ac_balance ac_codeHash]. f_equal. apply bool_decide_ext. unfold emptyCodeHash, Keccak256Hash. split; [congruence|].
  intros E. apply BytesToHash_inj in E; [done|done|]. apply sha3_keccak256_size.
Qed.

Ltac getter := intros; unfold balanceOf, nonceOf, codeHashOf, suicidedOf, existsIn, emptyIn; cbn [core_of k_accounts]; match goal with E : accounts_of _ !! _ = _ |- _ => rewrite E end; match goal with |- context [?f <$> ?o] => destruct o end; cbn; try done.

Lemma db_GetBalance_spec a : implements represents (db_GetBalance a) (reads (fun k => balanceOf k a)).
Proof. apply getter_implements. getter. Qed.
Lemma db_GetNonce_spec a : implements represents (db_GetNonce a) (reads (fun k => nonceOf k a)).
Proof. apply getter_implements. getter. Qed.
Lemma db_GetCodeHash_spec a : implements represents (db_GetCodeHash a) (reads (fun k => codeHashOf k a)).
Proof. apply getter_implements. getter. Qed.
Lemma db_HasSuicided_spec a : implements represents (db_HasSuicided a) (reads (fun k => suicidedOf k a)).
Proof. apply getter_implements. getter. Qed.
Lemma db_Exist_spec a : implements represents (db_Exist a) (reads (fun k => existsIn k a)).
Proof. apply getter_implements. getter. Qed.
Lemma db_Empty_spec a : implements represents (db_Empty a) (reads (fun k => emptyIn k a)).
Proof. apply getter_implements. getter. apply so_empty_spec. auto. Qed.

(** Reading through an object, which may load more of it. *)
Lemma withObject_implements {A} (dflt : A) a (f : obj -> M st (A * obj)) (g : core -> A) :
  (forall t s o, ok s -> obj_ok (s_snap s) (snapDestructs s) a o -> deleted o = false ->
     exists x o', f o (mkWorld t s) = (Ok (x, o'), mkWorld t s) /\ loaded (s_snap s) (snapDestructs s) a o o' /\
       forall k, k_accounts k !! a = Some (abs o) -> x = g k) ->
  (forall k, k_accounts k !! a = None -> dflt = g k) ->
  implements represents (withObject dflt a f) (reads g).
Proof.
  intros Hf Hd. apply implements_reads. intros t s Hok. destruct (getStateObject_spec t s a Hok) as (o & s' & E & Hq & Ha & Ho).
  unfold withObject. erewrite run_bind by exact E. destruct o as [o|]; [|exists s'; split; [by rewrite <- (Hd (core_of s))|done]].
  destruct (Ho o eq_refl) as [Hlk Hdel]. pose proof (ok_objects _ (q_ok _ _ Hq) _ _ Hlk) as Hoo. destruct (Hf t s' o (q_ok _ _ Hq) Hoo Hdel) as (x & o' & Ef & Hl & Hx).
  erewrite run_bind by exact Ef. run. unfold setStateObject. run. eexists. split; [by rewrite (Hx (core_of s)) by done|].
  eapply quiet_seq; [exact Hq|]. destruct Hl as (? & ? & ?). rewrite (oo_address (s_snap s') (snapDestructs s') a o') by done. by eapply quiet_setObject; [apply Hq|..].
Qed.

Lemma db_GetCode_spec a : implements represents (db_GetCode a) (reads (fun k => codeOf k a)).
Proof.
  apply withObject_implements; [|intros k Hk; unfold codeOf; by rewrite Hk]. intros t s o Hok Ho Hd.
  destruct (so_Code_spec _ _ _ _ Ho) as (c & o' & E & Ec & Hl & _). rewrite E. run. eexists _, o'. split; [done|]. split; [done|].
  intros k Hk. unfold codeOf. by rewrite Hk.
Qed.
Lemma db_GetCodeSize_spec a : implements represents (db_GetCodeSize a) (reads (fun k => len (codeOf k a))).
Proof.
  apply withObject_implements; [|intros k Hk; unfold codeOf; by rewrite Hk]. intros t s o Hok Ho Hd.
  eexists _, o. rewrite (so_CodeSize_spec _ _ _ _ Ho). split; [done|]. split; [by apply loaded_refl|]. intros k Hk. unfold codeOf. by rewrite Hk.
Qed.
Lemma db_GetState_spec a k : implements represents (db_GetState a k) (reads (fun c => storageOf c a k)).
Proof.
  apply withObject_implements; [|intros c Hc; unfold storageOf; by rewrite Hc]. intros t s o Hok Ho Hd.
  destruct (so_GetState_spec t s a o k Hok Ho Hd) as (o' & E & Hl & _). eexists _, o'. split; [done|]. split; [done|].
  intros c Hc. unfold storageOf. rewrite Hc. unfold abs. cbn [from_option ac_storage]. by rewrite slot_nz.
Qed.
Lemma db_GetCommittedState_spec a k : implements represents (db_GetCommittedState a k) (reads (fun c => committedOf c a k)).
Proof.
  apply withObject_implements; [|intros c Hc; unfold committedOf; by rewrite Hc]. intros t s o Hok Ho Hd.
  destruct (so_GetCommittedState_spec t s a o k Hok Ho Hd) as (o' & E & Hl & _). eexists _, o'. split; [done|]. split; [done|].
  intros c Hc. unfold committedOf. rewrite Hc. unfold abs. cbn [from_option ac_committed]. by rewrite slot_nz.
Qed.

Lemma db_GetRefund_spec : implements represents db_GetRefund (reads k_refund).
Proof. apply implements_reads. intros t s Hok. exists s. split; [done|by apply quiet_same]. Qed.
Lemma db_AddressInAccessList_spec a : implements represents (db_AddressInAccessList a) (reads (fun k => bool_decide (a ∈ k_addresses k))).
Proof. apply implements_reads. intros t s Hok. exists s. split; [|by apply quiet_same]. unfold db_AddressInAccessList, gets. cbn [w_st]. by rewrite ContainsAddress_spec. Qed.
Lemma db_SlotInAccessList_spec a k : implements represents (db_SlotInAccessList a k) (reads (fun c => (bool_decide (a ∈ k_addresses c), bool_decide ((a, k) ∈ k_slots c)))).
Proof.
  apply implements_reads. intros t s Hok. exists s. split; [|by apply quiet_same]. unfold db_SlotInAccessList. run.
  by rewrite Contains_spec by apply Hok.
Qed.

(** ** Writing *)

(** [s'] comes from [s] by changes that the journal can take back. *)
Inductive step : st -> st -> Prop :=
| step_quiet s s' : quiet s s' -> step s s'
| step_entry s s' e : ok s' -> s_snap s' = s_snap s -> validRevisions s' = validRevisions s -> nextRevisionId s' = nextRevisionId s ->
    s_thash s' = s_thash s -> s_txIndex s' = s_txIndex s -> entries (s_journal s') = e :: entries (s_journal s) ->
    undoes (s_snap s) e (logical_of s') (logical_of s) -> step s s'
| step_trans s1 s2 s3 : step s1 s2 -> step s2 s3 -> step s1 s3.

Lemma revision_of_cons l ls r x : revision_of ls r x -> revision_of (l :: ls) r x.
Proof.
  unfold revision_of. intros (E & Hl & Hx). split; [done|]. cbn [length]. split; [lia|].
  by replace (S (length ls) - 1 - journalIndex r)%nat with (S (length ls - 1 - journalIndex r)) by lia.
Qed.

Lemma represents_step s s' : step s s' -> forall v, represents s v -> represents s' (v <| v_core := core_of s' |>).
Proof.
  induction 1 as [s s' Hq|s s' e Hok E1 E2 E3 E4 E5 E6 Hu|s1 s2 s3 _ IH1 _ IH2]; intros v Hr.
  - assert (Ec : core_of s' = core_of s) by (by apply (f_equal l_core (q_logical _ _ Hq))).
    replace (v <| v_core := core_of s' |>) with v; [by eapply represents_quiet|]. rewrite Ec, <- (rp_core _ _ Hr). by destruct v.
  - destruct Hr as [? (ls & Hh & Hrev) ? ? ? Hidx ?]. split; rewrite ?E1, ?E2, ?E3, ?E4, ?E5, ?E6; try done.
    + exists (logical_of s :: ls). split; [by constructor|]. cbn. eapply Forall2_impl; [exact Hrev|]. intros. by apply revision_of_cons.
    + eapply Forall_impl; [exact Hidx|]. intros r Hri. cbn. cbn in Hri. lia.
  - specialize (IH2 _ (IH1 _ Hr)). exact IH2.
Qed.

Lemma represents_writes s s' v f : represents s v -> step s s' -> core_of s' = f (core_of s) -> represents s' (v <| v_core ::= f |>).
Proof.
  intros Hr Hst Ec. replace (v <| v_core ::= f |>) with (v <| v_core := core_of s' |>); [by eapply represents_step|].
  rewrite Ec, <- (rp_core _ _ Hr). by destruct v.
Qed.

Lemma implements_step {A} (m : M st A) (r : core -> A) (f : core -> core) :
  (forall t s, ok s -> exists s', m (mkWorld t s) = (Ok (r (core_of s)), mkWorld t s') /\ step s s' /\ core_of s' = f (core_of s)) ->
  implements represents m (fun v => Ok (r (v_core v), v <| v_core ::= f |>)).
Proof.
  intros Hm t s v Hr. destruct (Hm t s (rp_ok _ _ Hr)) as (s' & E & Hst & Ec). exists s'. rewrite (rp_core _ _ Hr). split; [done|]. by eapply represents_writes.
Qed.
Lemma implements_writes (m : M st unit) (f : core -> core) :
  (forall t s, ok s -> exists s', m (mkWorld t s) = (Ok (), mkWorld t s') /\ step s s' /\ core_of s' = f (core_of s)) -> implements represents m (writes f).
Proof. exact (implements_step m (fun _ => ()) f). Qed.

(** The state with one object replaced. *)
Definition setObject (a : Address) (o : obj) (s : st) : st := s <| stateObjects ::= <[a := o]> |>.
(** The state with an entry added to the journal. *)
Definition pushEntry (e : journalEntry T) (s : st) : st :=
  s <| s_journal ::= fun j => mkJournal (e :: entries j) (match dirtied e with Some a => <[a := default 0 (dirties j !! a) + 1]> (dirties j) | None => dirties j end) |>.

Lemma run_append {B} e (k : unit -> M st B) t s : (journal_append e ≫= k) (mkWorld t s) = k () (mkWorld t (pushEntry e s)).
Proof. done. Qed.
Lemma run_setStateObject {B} o (k : unit -> M st B) t s : (setStateObject o ≫= k) (mkWorld t s) = k () (mkWorld t (setObject (so_address o) o s)).
Proof. done. Qed.

Lemma setObject_ok s a o : ok s -> obj_ok (s_snap s) (snapDestructs s) a o -> ok (setObject a o s).
Proof.
  intros Hok Ho. destruct Hok. split; try done; cbn.
  - intros b x. rewrite lookup_insert_Some. intros [[<- <-]|[_ Hb]]; auto.
  - intros b Hb. destruct (ok_destructs0 b Hb). split; [done|]. destruct (decide (a = b)) as [<-|]; [by rewrite lookup_insert_eq|by rewrite lookup_insert_ne].
Qed.

Lemma setObject_logical s a o : deleted o = false ->
  logical_of (setObject a o s) = mkLogical ((core_of s) <| k_accounts ::= <[a := abs o]> |>) (s_accessList s) (snapDestructs s).
Proof. intros Hd. unfold logical_of, core_of. cbn. by rewrite accounts_of_insert. Qed.

Lemma accounts_insert_id (k : core) a x : k_accounts k !! a = Some x -> k <| k_accounts ::= <[a := x]> |> = k.
Proof. intros Hx. destruct k. cbn in *. unfold upd, set_k_accounts. cbn. by rewrite insert_id. Qed.

(** A change to one object that the entry takes back by [g]. *)
Lemma object_step s a o o' e (g : obj -> obj) (K : M st unit) :
  ok s -> stateObjects s !! a = Some o -> deleted o = false -> obj_ok (s_snap s) (snapDestructs s) a o' -> deleted o' = false ->
  (forall w, entry_revert e w = (getStateObject a ≫= fun o => match o with Some o => setStateObject (g o) | None => K end) w) ->
  (forall snap D o2, obj_ok snap D a o2 -> deleted o2 = false -> abs o2 = abs o' -> obj_ok snap D a (g o2) /\ abs (g o2) = abs o /\ deleted (g o2) = false) ->
  step s (setObject a o' (pushEntry e s)).
Proof.
  intros Hok Ha Hd Ho' Hd' Hrev Hg. assert (Hok' : ok (setObject a o' (pushEntry e s))) by (apply setObject_ok; [by destruct Hok|done]).
  apply (step_entry _ _ e); try done. intros t s2 Hok2 Es2 El. rewrite Hrev.
  destruct (getStateObject_spec t s2 a Hok2) as (o2 & s3 & E & Hq & Hacc & Ho2). erewrite run_bind by exact E.
  assert (El3 : logical_of s3 = mkLogical ((core_of s) <| k_accounts ::= <[a := abs o']> |>) (s_accessList s) (snapDestructs s)).
  { rewrite (q_logical _ _ Hq), El. exact (setObject_logical (pushEntry e s) a o' Hd'). }
  assert (Hacc2 : accounts_of (stateObjects s2) !! a = Some (abs o')).
  { pose proof (f_equal (fun l => k_accounts (l_core l) !! a) El) as E'. cbn in E'. by rewrite E', accounts_of_insert, lookup_insert_eq. }
  rewrite Hacc2 in Hacc. destruct o2 as [o2|]; [|done]. change (Some (abs o') = Some (abs o2)) in Hacc. apply (inj Some) in Hacc. destruct (Ho2 o2 eq_refl) as [Hlk Hdel].
  pose proof (ok_objects _ (q_ok _ _ Hq) _ _ Hlk) as Hoo. destruct (Hg _ _ _ Hoo Hdel (eq_sym Hacc)) as (Hgo & Hga & Hgd).
  unfold setStateObject, modify. cbn [w_tick w_st]. rewrite (oo_address _ _ _ _ Hgo). eexists. split; [done|].
  split; [by apply setObject_ok; [apply Hq|]|]. split; [|destruct Hq; by split_and!].
  change (logical_of (setObject a (g o2) s3) = logical_of s). rewrite setObject_logical, Hga by done. 
  pose proof (f_equal l_core El3 : core_of s3 = _) as E1. pose proof (f_equal l_al El3 : s_accessList s3 = _) as E2. pose proof (f_equal l_destructs El3 : snapDestructs s3 = _) as E3.
  unfold logical_of. rewrite E1, E2, E3. f_equal. transitivity ((core_of s) <| k_accounts ::= <[a := abs o]> |>); [unfold upd, set_k_accounts; cbn; by rewrite insert_insert_eq|].
  apply accounts_insert_id. cbn. by rewrite accounts_of_lookup, Ha, Hd.
Qed.

(** ** How fields of an object show *)

Lemma abs_balance (o : obj) b : abs (o <| so_balance := b |>) = (abs o) <| ac_balance := b |>.
Proof. done. Qed.
Lemma abs_nonce (o : obj) n : abs (o <| so_nonce := n |>) = (abs o) <| ac_nonce := n |>.
Proof. done. Qed.
Lemma abs_suicided (o : obj) b : abs (o <| suicided := b |>) = (abs o) <| ac_suicided := b |>.
Proof. done. Qed.
Lemma abs_setState (o : obj) k v : abs (so_setState k v o) = (abs o) <| ac_storage ::= fun m => put m k v |>.
Proof.
  assert (E : nz (<[k := v]> (dirtyStorage o) ∪ storeOf o) = put (nz (dirtyStorage o ∪ storeOf o)) k v).
  { rewrite put_nz. apply nz_ext. intros k'. rewrite !slot_union.
    destruct (decide (k = k')) as [<-|]; [by rewrite lookup_insert_eq, slot_insert|]. by rewrite lookup_insert_ne, slot_insert_ne, slot_union. }
  unfold upd at 1. unfold set_ac_storage. change (account_eta (abs o)) with (abs o). unfold abs at 2 3 4 5 6 7 8. cbn [ac_nonce ac_balance ac_code ac_codeHash ac_storage ac_committed ac_suicided].
  rewrite <- E. done.
Qed.
Lemma abs_setCode (o : obj) (h : Hash) c : (c = None -> arr_bytes h = Keccak256 [[]]) ->
  abs (so_setCode h c o) = (abs o) <| ac_code := data c |> <| ac_codeHash := h |>.
Proof.
  intros Hc. assert (E1 : abs_code (so_setCode h c o) = data c).
  { unfold abs_code. cbn. destruct c as [c|]; [done|]. by rewrite decide_True by auto. }
  unfold abs at 1. rewrite E1. replace (BytesToHash (so_codeHash (so_setCode h c o))) with h by (symmetry; apply BytesToArr_arr_bytes). done.
Qed.

Lemma obj_ok_balance snap D a o b : obj_ok snap D a o -> obj_ok snap D a (o <| so_balance := b |>).
Proof. intros []. by split. Qed.
Lemma obj_ok_nonce snap D a o n : obj_ok snap D a o -> obj_ok snap D a (o <| so_nonce := n |>).
Proof. intros []. by split. Qed.
Lemma obj_ok_suicided snap D a o b : obj_ok snap D a o -> obj_ok snap D a (o <| suicided := b |>).
Proof. intros []. by split. Qed.
Lemma obj_ok_setState snap D a o k v : obj_ok snap D a o -> obj_ok snap D a (so_setState k v o).
Proof. intros []. by split. Qed.
Lemma obj_ok_setCode snap D a o h c : (c = None -> arr_bytes h = Keccak256 [[]]) -> obj_ok snap D a o -> obj_ok snap D a (so_setCode h c o).
Proof. intros Hc []. split; try done; cbn; [auto|apply arr_bytes_length]. Qed.

(** ** Creating objects *)

Definition freshObject (a : Address) : obj := newObject a (mkStateAccount 0 None HashZero None).

Lemma abs_freshObject a : abs (freshObject a) = newAccount.
Proof.
  unfold abs, freshObject, newObject, newAccount, storeOf, abs_code. cbn. rewrite !decide_True by done.
  rewrite b_storage_empty, !(left_id_L ∅ (∪)). done.
Qed.

Lemma freshObject_ok snap D a : (is_Some snap -> addrHashOf a ∈ D \/ b_root a = emptyRoot) -> obj_ok snap D a (freshObject a).
Proof.
  intros HD. split; cbn; try done; [left; by rewrite decide_True by done|auto|apply sha3_keccak256_size|].
  intros Hs _. rewrite decide_True by done. destruct (decide (addrHashOf a ∈ D)); [done|]. by destruct (HD Hs).
Qed.

(** Taking an address out of the destructed ones, or adding it, is of no concern to
    objects of other addresses. *)
Lemma obj_ok_destructs snap D D' a b o : a <> b -> (forall h, h <> addrHashOf a -> h ∈ D <-> h ∈ D') -> obj_ok snap D b o -> obj_ok snap D' b o.
Proof.
  intros Hab HD []. split; try done. intros Hs Hd. rewrite (oo_destruct0 Hs Hd).
  assert (addrHashOf b <> addrHashOf a) by (intros E; by apply addrHash_inj in E). specialize (HD _ H1).
  destruct (decide (addrHashOf b ∈ D)), (decide (addrHashOf b ∈ D')); naive_solver.
Qed.

Lemma accounts_of_put objs a o :
  accounts_of (<[a := o]> objs) = partial_alter (fun _ => if deleted o then None else Some (abs o)) a (accounts_of objs).
Proof.
  apply map_eq. intros b. rewrite accounts_of_lookup. destruct (decide (a = b)) as [<-|Hab].
  - by rewrite lookup_insert_eq, lookup_partial_alter_eq.
  - by rewrite lookup_insert_ne, lookup_partial_alter_ne, accounts_of_lookup by done.
Qed.

(** An object put in place together with a change of the destructed addresses. *)
Definition putObject (a : Address) (o : obj) (D : gset Hash) (s : st) : st := s <| snapDestructs := D |> <| stateObjects ::= <[a := o]> |>.

Lemma putObject_ok s a o D : ok s -> obj_ok (s_snap s) D a o -> (forall h, h <> addrHashOf a -> h ∈ snapDestructs s <-> h ∈ D) ->
  (addrHashOf a ∈ D -> is_Some (s_snap s)) -> ok (putObject a o D s).
Proof.
  intros Hok Ho HD Ha. destruct Hok. split; try done; cbn.
  - intros b x. rewrite lookup_insert_Some. intros [[<- <-]|[Hab Hb]]; [done|]. eapply obj_ok_destructs; [exact Hab|exact HD|auto].
  - intros b Hb. destruct (decide (a = b)) as [<-|Hab]; [rewrite lookup_insert_eq; eauto|]. rewrite lookup_insert_ne by done.
    apply ok_destructs0, HD; [|done]. intros E. by apply addrHash_inj in E.
Qed.

Lemma undo_create s a s2 : ok s -> stateObjects s !! a = None -> b_accounts !! a = None -> ok s2 ->
  logical_of s2 = logical_of (setObject a (freshObject a) s) ->
  let s3 := s2 <| stateObjects ::= delete a |> <| stateObjectsDirty ::= fun d => d ∖ {[a]} |> in ok s3 /\ logical_of s3 = logical_of s.
Proof.
  intros Hok Ha Hb Hok2 El s3. pose proof (f_equal l_destructs El : snapDestructs s2 = snapDestructs s) as ED. split.
  - destruct Hok2. split; try done; cbn.
    + intros b o. rewrite lookup_delete_Some. intros [_ Hx]. auto.
    + intros b Hin. destruct (ok_destructs0 b Hin) as [Hs Ho]. split; [done|]. destruct (decide (a = b)) as [<-|]; [|by rewrite lookup_delete_ne].
      exfalso. rewrite ED in Hin. destruct (ok_destructs _ Hok a Hin) as [_ Hx]. rewrite Ha in Hx. by destruct Hx.
  - rewrite setObject_logical in El by done. assert (Ec : core_of s3 = (core_of s2) <| k_accounts ::= delete a |>).
    { unfold core_of, upd, set_k_accounts. cbn. f_equal. apply map_eq. intros b. rewrite accounts_of_lookup. destruct (decide (a = b)) as [<-|].
      - by rewrite !lookup_delete_eq, Hb.
      - by rewrite !lookup_delete_ne, accounts_of_lookup by done. }
    unfold logical_of. rewrite Ec. pose proof (f_equal l_core El : core_of s2 = _) as ->. pose proof (f_equal l_al El : s_accessList s2 = _) as E2.
    change (s_accessList s3) with (s_accessList s2). change (snapDestructs s3) with (snapDestructs s2). rewrite E2, ED. f_equal.
    unfold upd, set_k_accounts. cbn. unfold core_of. f_equal. rewrite delete_insert_id; [done|]. by rewrite accounts_of_lookup, Ha, Hb.
Qed.

Lemma putObject_logical s a o D : logical_of (putObject a o D s) =
  mkLogical ((core_of s) <| k_accounts ::= partial_alter (fun _ => if deleted o then None else Some (abs o)) a |>) (s_accessList s) D.
Proof. unfold logical_of, core_of. cbn. by rewrite accounts_of_put. Qed.

(** The destructed addresses when an object of address [a] is replaced. *)
Definition destructing (s : st) (a : Address) : gset Hash := if decide (is_Some (s_snap s)) then {[addrHashOf a]} ∪ snapDestructs s else snapDestructs s.
Definition wasDestructed (s : st) (a : Address) : bool := bool_decide (is_Some (s_snap s) /\ addrHashOf a ∈ snapDestructs s).

Lemma destructing_others s a h : h <> addrHashOf a -> h ∈ snapDestructs s <-> h ∈ destructing s a.
Proof. intros Hh. unfold destructing. destruct (decide _); set_solver. Qed.

Lemma run_revert_reset t s p pd : entry_revert (resetObjectChange p pd) (mkWorld t s) =
  (Ok (), mkWorld t (putObject (so_address p) p (if negb pd && bool_decide (is_Some (s_snap s)) then snapDestructs s ∖ {[so_addrHash p]} else snapDestructs s) s)).
Proof. destruct s as [? ? sn]; by destruct pd, sn. Qed.

(** Undoing the replacement restores the destructed addresses. *)
Lemma destructing_undone s a : (if negb (wasDestructed s a) && bool_decide (is_Some (s_snap s)) then destructing s a ∖ {[addrHashOf a]} else destructing s a) = snapDestructs s.
Proof.
  unfold wasDestructed, destructing. destruct (s_snap s) as [n|].
  - rewrite decide_True, (bool_decide_eq_true_2 (is_Some (Some n))) by eauto. rewrite andb_true_r.
    destruct (decide (addrHashOf a ∈ snapDestructs s)).
    + rewrite bool_decide_eq_true_2 by eauto. cbn. set_solver.
    + rewrite bool_decide_eq_false_2 by naive_solver. cbn. set_solver.
  - rewrite decide_False by (by intros [? ?]). by rewrite (bool_decide_eq_false_2 (is_Some None)), andb_false_r by (by intros [? ?]).
Qed.

Lemma undo_reset t s a p x s2 : ok s -> stateObjects s !! a = Some p -> ok s2 -> s_snap s2 = s_snap s ->
  logical_of s2 = logical_of (putObject a x (destructing s a) s) ->
  let s3 := putObject a p (snapDestructs s) s2 in
  entry_revert (resetObjectChange p (wasDestructed s a)) (mkWorld t s2) = (Ok (), mkWorld t s3) /\ ok s3 /\ logical_of s3 = logical_of s.
Proof.
  intros Hok Hp Hok2 Es El s3. pose proof (ok_objects _ Hok _ _ Hp) as Ho. rewrite putObject_logical in El.
  pose proof (f_equal l_core El : core_of s2 = _) as E1. pose proof (f_equal l_al El : s_accessList s2 = _) as E2.
  pose proof (f_equal l_destructs El : snapDestructs s2 = destructing s a) as E3. split_and!.
  - by rewrite run_revert_reset, E3, Es, (oo_address _ _ _ _ Ho), (oo_hash _ _ _ _ Ho), destructing_undone.
  - apply putObject_ok; [done|by rewrite Es| |].
    + intros h Hh. rewrite E3. symmetry. by apply destructing_others.
    + intros Hin. rewrite Es. exact (proj1 (ok_destructs _ Hok a Hin)).
  - unfold s3. rewrite putObject_logical, E1, E2. unfold logical_of. f_equal. unfold upd, set_k_accounts, core_of. cbn. f_equal.
    apply map_eq. intros b. destruct (decide (a = b)) as [<-|]; [|by rewrite !lookup_partial_alter_ne by done].
    by rewrite lookup_partial_alter_eq, accounts_of_lookup, Hp.
Qed.

Lemma run_createObject t s s1 a prev : getDeletedStateObject a (mkWorld t s) = (Ok prev, mkWorld t s1) -> (forall p, prev = Some p -> so_addrHash p = addrHashOf a) ->
  createObject a (mkWorld t s) = (Ok (freshObject a, match prev with Some p => if deleted p then None else Some p | None => None end),
    mkWorld t (match prev with
               | None => setObject a (freshObject a) (pushEntry (createObjectChange a) s1)
               | Some p => putObject a (freshObject a) (destructing s1 a) (pushEntry (resetObjectChange p (wasDestructed s1 a)) s1)
               end)).
Proof.
  intros E Hp. unfold createObject. erewrite run_bind by exact E. run. fold (freshObject a). destruct prev as [p|]; [|by destruct s1 as [? ? []]].
  rewrite (Hp p eq_refl). unfold wasDestructed, destructing. destruct s1 as [? ? [n|] D]; cbn [s_snap snapDestructs].
  - rewrite decide_True by eauto. destruct (decide (addrHashOf a ∈ D)) as [Hin|Hin].
    + rewrite !(bool_decide_eq_true_2 _) by eauto. replace ({[addrHashOf a]} ∪ D) with D by set_solver. done.
    + by rewrite !(bool_decide_eq_false_2 _) by naive_solver.
  - rewrite decide_False by (by intros [? ?]). by rewrite !(bool_decide_eq_false_2 _) by (by intros [[? ?] ?]).
Qed.

(** The state after an object [p] has been replaced by [x], or after the first object
    of an address has been put in place. *)
Definition replaced (a : Address) (p x : obj) (s : st) : st := putObject a x (destructing s a) (pushEntry (resetObjectChange p (wasDestructed s a)) s).
Definition created (a : Address) (s : st) : st := setObject a (freshObject a) (pushEntry (createObjectChange a) s).

Lemma replaced_step s a p x : ok s -> stateObjects s !! a = Some p -> obj_ok (s_snap s) (destructing s a) a x -> deleted x = false ->
  step s (replaced a p x s) /\ ok (replaced a p x s) /\ core_of (replaced a p x s) = (core_of s) <| k_accounts ::= <[a := abs x]> |>.
Proof.
  intros Hok Hp Hx Hd. assert (Hok' : ok (replaced a p x s)).
  { apply putObject_ok; [by destruct Hok|done| |].
    - intros h Hh. exact (destructing_others s a h Hh).
    - cbn. unfold destructing. destruct (decide _); [done|]. intros Hin. exact (proj1 (ok_destructs _ Hok a Hin)). }
  split_and!; [|done|].
  - eapply step_entry; try done. intros t2 s2 Hok2 Es El. destruct (undo_reset t2 s a p x s2 Hok Hp Hok2 Es El) as (? & ? & ?). by eexists.
  - pose proof (f_equal l_core (putObject_logical (pushEntry (resetObjectChange p (wasDestructed s a)) s) a x (destructing s a))) as E1.
    cbn in E1. etransitivity; [exact E1|]. by rewrite Hd.
Qed.

Lemma created_step s a : ok s -> stateObjects s !! a = None -> b_accounts !! a = None ->
  step s (created a s) /\ ok (created a s) /\ core_of (created a s) = (core_of s) <| k_accounts ::= <[a := newAccount]> |>.
Proof.
  intros Hok Ha Hb. assert (Hok' : ok (created a s)).
  { apply setObject_ok; [by destruct Hok|]. apply freshObject_ok. intros _. right. unfold b_root. by rewrite Hb. }
  split_and!; [|done|].
  - eapply step_entry; try done. intros t2 s2 Hok2 Es El. destruct (undo_create s a s2 Hok Ha Hb Hok2 El). by eexists.
  - pose proof (f_equal l_core (setObject_logical (pushEntry (createObjectChange a) s) a (freshObject a) eq_refl)) as E1.
    cbn in E1. etransitivity; [exact E1|]. by rewrite abs_freshObject.
Qed.

Lemma freshObject_destructing s a b : obj_ok (s_snap s) (destructing s a) a ((freshObject a) <| so_balance := b |>).
Proof.
  apply obj_ok_balance, freshObject_ok. intros Hs. left. unfold destructing. rewrite decide_True by done. by apply elem_of_union_l, elem_of_singleton.
Qed.

(** An object made from scratch takes the place of whatever is there. *)
Lemma createObject_spec t s a : ok s -> exists prev s1 s', createObject a (mkWorld t s) = (Ok (freshObject a, prev), mkWorld t s') /\ quiet s s1 /\
  (s' = created a s1 /\ stateObjects s1 !! a = None /\ b_accounts !! a = None \/ exists p, s' = replaced a p (freshObject a) s1 /\ stateObjects s1 !! a = Some p) /\
  abs <$> prev = accounts_of (stateObjects s) !! a.
Proof.
  intros Hok. destruct (getDeletedStateObject_spec t s a Hok) as (prev & s1 & E & Hq & Hp & Hb).
  pose proof (f_equal (fun l => k_accounts (l_core l)) (q_logical _ _ Hq) : accounts_of (stateObjects s1) = accounts_of (stateObjects s)) as Ea.
  rewrite (run_createObject _ _ _ _ _ E) by (intros p ->; by apply (ok_objects _ (q_ok _ _ Hq))). rewrite <- Ea, accounts_of_lookup, Hp.
  do 3 eexists. split; [done|]. split; [done|]. destruct prev as [p|].
  - split; [right; by exists p|by destruct (deleted p)].
  - rewrite Hb by done. split; [by left; auto|done].
Qed.

Lemma created_or_replaced s s1 s' a : quiet s s1 ->
  (s' = created a s1 /\ stateObjects s1 !! a = None /\ b_accounts !! a = None \/ exists p, s' = replaced a p (freshObject a) s1 /\ stateObjects s1 !! a = Some p) ->
  step s s' /\ ok s' /\ core_of s' = (core_of s) <| k_accounts ::= <[a := newAccount]> |> /\ stateObjects s' !! a = Some (freshObject a).
Proof.
  intros Hq Hs'. pose proof (f_equal l_core (q_logical _ _ Hq) : core_of s1 = core_of s) as Ec. rewrite <- Ec.
  destruct Hs' as [(-> & Ha & Hb)|(p & -> & Hp)].
  - destruct (created_step s1 a (q_ok _ _ Hq) Ha Hb) as (? & ? & ?). split_and!; [|done..|cbn; by rewrite lookup_insert_eq]. eapply step_trans; [by apply step_quiet|done].
  - destruct (replaced_step s1 a p (freshObject a) (q_ok _ _ Hq) Hp) as (? & ? & Hc); [apply (freshObject_destructing s1 a 0)|done|].
    rewrite abs_freshObject in Hc. split_and!; [|done..|cbn; by rewrite lookup_insert_eq]. eapply step_trans; [by apply step_quiet|done].
Qed.

Lemma db_CreateAccount_spec a : implements represents (db_CreateAccount a) (writes (k_CreateAccount a)).
Proof.
  apply implements_writes. intros t s Hok. destruct (createObject_spec t s a Hok) as (prev & s1 & s' & E & Hq & Hs' & Ha). unfold db_CreateAccount. erewrite run_bind by exact E.
  unfold k_CreateAccount, balanceOf. cbn [core_of k_accounts]. rewrite <- Ha. destruct (created_or_replaced s s1 s' a Hq Hs') as (Hst & Hok' & Hc & Hl).
  destruct prev as [p|]; cbn [fmap option_fmap option_map from_option]; [|exists s'; rewrite Hc; by split_and!].
  destruct Hs' as [(-> & Hn & Hb)|(p0 & -> & Hp0)].
  { pose proof (f_equal (fun l => k_accounts (l_core l)) (q_logical _ _ Hq) : accounts_of (stateObjects s1) = accounts_of (stateObjects s)) as Ea.
    rewrite <- Ea, accounts_of_lookup, Hn, Hb in Ha. done. }
  destruct (replaced_step s1 a p0 ((freshObject a) <| so_balance := so_balance p |>) (q_ok _ _ Hq) Hp0) as (Hst1 & _ & Hc1); [apply freshObject_destructing|done|].
  exists (replaced a p0 ((freshObject a) <| so_balance := so_balance p |>) s1). split_and!.
  - unfold setStateObject, modify, replaced, putObject. cbn. do 2 f_equal. unfold upd, set_stateObjects. cbn. by rewrite insert_insert_eq.
  - eapply step_trans; [by apply step_quiet|done].
  - rewrite Hc1, (f_equal l_core (q_logical _ _ Hq) : core_of s1 = core_of s), abs_balance, abs_freshObject. done.
Qed.

(** ** Changing objects *)

Lemma GetOrNewStateObject_spec t s a : ok s -> exists o s', GetOrNewStateObject a (mkWorld t s) = (Ok o, mkWorld t s') /\ step s s' /\ ok s' /\
  stateObjects s' !! a = Some o /\ deleted o = false /\ abs o = orNew (k_accounts (core_of s) !! a) /\ core_of s' = (core_of s) <| k_accounts ::= <[a := abs o]> |>.
Proof.
  intros Hok. unfold GetOrNewStateObject. destruct (getStateObject_spec t s a Hok) as (o & s1 & E & Hq & Ha & Ho). erewrite run_bind by exact E.
  pose proof (f_equal l_core (q_logical _ _ Hq) : core_of s1 = core_of s) as Ec. destruct o as [o|].
  - destruct (Ho o eq_refl). exists o, s1. split_and!; try done; [by apply step_quiet|apply Hq|cbn; by rewrite Ha|]. rewrite Ec. by rewrite accounts_insert_id.
  - destruct (createObject_spec t s1 a (q_ok _ _ Hq)) as (prev & s2 & s' & E' & Hq' & Hs' & _). erewrite run_bind by exact E'.
    destruct (created_or_replaced _ _ _ _ Hq' Hs') as (Hst & Hok' & Hc & Hl). exists (freshObject a), s'. rewrite Ec in Hc. rewrite abs_freshObject.
    split_and!; try done; [eapply step_trans; [by apply step_quiet|done]|]. cbn. by rewrite Ha.
Qed.

(** An operation on the object of an address, which is made when there is none. *)
Lemma onNewObject_implements a (f : obj -> M st obj) (g : account -> account) :
  (forall t s o, ok s -> stateObjects s !! a = Some o -> deleted o = false -> exists o' s', f o (mkWorld t s) = (Ok o', mkWorld t s') /\
     so_address o' = a /\ step s (setObject a o' s') /\ core_of (setObject a o' s') = (core_of s) <| k_accounts ::= <[a := g (abs o)]> |>) ->
  implements represents (onNewObject a f) (writes (onAccount a g)).
Proof.
  intros Hf. apply implements_writes. intros t s Hok. destruct (GetOrNewStateObject_spec t s a Hok) as (o & s1 & E & Hst & Hok1 & Hl & Hd & Ha & Hc).
  unfold onNewObject. erewrite run_bind by exact E. destruct (Hf t s1 o Hok1 Hl Hd) as (o' & s2 & E2 & Hadr & Hst2 & Hc2). erewrite run_bind by exact E2.
  exists (setObject a o' s2). split_and!.
  - unfold setStateObject, modify. by rewrite Hadr.
  - by eapply step_trans.
  - rewrite Hc2, Hc. unfold onAccount, upd, set_k_accounts. cbn. cbn in Ha. by rewrite <- Ha, insert_insert_eq.
Qed.

(** [object_step] for an object that has been loaded further on the way. *)
Lemma loaded_step s a o o1 o' e (g : obj -> obj) (K : M st unit) :
  ok s -> stateObjects s !! a = Some o -> deleted o = false -> loaded (s_snap s) (snapDestructs s) a o o1 -> obj_ok (s_snap s) (snapDestructs s) a o' -> deleted o' = false ->
  (forall w, entry_revert e w = (getStateObject a ≫= fun o => match o with Some o => setStateObject (g o) | None => K end) w) ->
  (forall snap D o2, obj_ok snap D a o2 -> deleted o2 = false -> abs o2 = abs o' -> obj_ok snap D a (g o2) /\ abs (g o2) = abs o /\ deleted (g o2) = false) ->
  step s (setObject a o' (pushEntry e s)) /\ core_of (setObject a o' (pushEntry e s)) = (core_of s) <| k_accounts ::= <[a := abs o']> |>.
Proof.
  intros Hok Ha Hd (Hl1 & Hl2 & Hl3) Ho' Hd' Hrev Hg. split.
  - assert (Hq : quiet s (setObject a o1 s)) by (by eapply quiet_setObject). eapply step_trans; [by apply step_quiet|].
    replace (setObject a o' (pushEntry e s)) with (setObject a o' (pushEntry e (setObject a o1 s))).
    + eapply (object_step _ a o1); [apply Hq|cbn; by rewrite lookup_insert_eq|congruence|done|done|exact Hrev|]. intros snap D o2. rewrite Hl2. apply Hg.
    + unfold setObject, pushEntry, upd, set_stateObjects, set_s_journal. cbn. by rewrite insert_insert_eq.
  - exact (f_equal l_core (setObject_logical (pushEntry e s) a o' Hd')).
Qed.

Lemma run_liveObject a (g : obj -> obj) w : (liveObject a ≫= fun o => setStateObject (g o)) w =
  (getStateObject a ≫= fun o => match o with Some o => setStateObject (g o) | None => panic "invalid memory address or nil pointer dereference" end) w.
Proof. unfold liveObject. rewrite run_assoc. unfold mbind, M_bind. destruct (getStateObject a w) as [[[o|]| |] w']; done. Qed.

(** Writing back an object that stands for the same account. *)
Lemma same_object_core s s' a o o1 : stateObjects s !! a = Some o -> deleted o = false -> abs o1 = abs o -> deleted o1 = false -> core_of s' = core_of s ->
  core_of (setObject a o1 s') = (core_of s) <| k_accounts ::= <[a := abs o]> |>.
Proof. intros Ho Hd Ea Hd1 Ec. rewrite (f_equal l_core (setObject_logical s' a o1 Hd1) : core_of _ = _), Ea. cbn. by rewrite Ec. Qed.

Lemma so_SetBalance_step t s a o b : ok s -> stateObjects s !! a = Some o -> deleted o = false ->
  exists o' s', so_SetBalance o b (mkWorld t s) = (Ok o', mkWorld t s') /\ so_address o' = a /\ step s (setObject a o' s') /\
    core_of (setObject a o' s') = (core_of s) <| k_accounts ::= <[a := (abs o) <| ac_balance := b |> ]> |>.
Proof.
  intros Hok Ha Hd. pose proof (ok_objects _ Hok _ _ Ha) as Ho. unfold so_SetBalance. rewrite run_append. do 2 eexists. split; [done|]. split; [apply Ho|].
  rewrite (oo_address _ _ _ _ Ho), <- abs_balance. eapply (loaded_step s a o o _ _ (fun o2 => o2 <| so_balance := so_balance o |>)); [done|done|done|by apply loaded_refl|by apply obj_ok_balance|done|apply run_liveObject|].
  intros snap D o2 Ho2 Hd2 E2. split_and!; [by apply obj_ok_balance| |done]. by rewrite abs_balance, E2.
Qed.

Lemma db_SetNonce_spec a n : implements represents (db_SetNonce a n) (writes (k_SetNonce a n)).
Proof.
  apply onNewObject_implements. intros t s o Hok Ha Hd. pose proof (ok_objects _ Hok _ _ Ha) as Ho. unfold so_SetNonce. rewrite run_append. do 2 eexists. split; [done|]. split; [apply Ho|].
  rewrite (oo_address _ _ _ _ Ho), <- abs_nonce. eapply (loaded_step s a o o _ _ (fun o2 => o2 <| so_nonce := so_nonce o |>)); [done|done|done|by apply loaded_refl|by apply obj_ok_nonce|done|apply run_liveObject|].
  intros snap D o2 Ho2 Hd2 E2. split_and!; [by apply obj_ok_nonce| |done]. by rewrite abs_nonce, E2.
Qed.

Lemma db_SubBalance_spec a n : implements represents (db_SubBalance a n) (writes (k_SubBalance a n)).
Proof.
  apply onNewObject_implements. intros t s o Hok Ha Hd. pose proof (ok_objects _ Hok _ _ Ha) as Ho. unfold so_SubBalance.
  destruct (Z.eqb_spec n 0) as [->|]; [|by apply so_SetBalance_step]. exists o, s. split; [done|]. split; [apply Ho|]. split.
  - by apply step_quiet; eapply quiet_setObject.
  - erewrite same_object_core by done. unfold abs, upd, set_ac_balance. cbn. by rewrite Z.sub_0_r.
Qed.

(** Touching an object only leaves a trace in the journal. *)
Lemma so_touch_step t s a o : ok s -> stateObjects s !! a = Some o -> deleted o = false ->
  exists s', so_touch o (mkWorld t s) = (Ok (), mkWorld t s') /\ step s s' /\ stateObjects s' = stateObjects s /\ snapDestructs s' = snapDestructs s /\ s_snap s' = s_snap s /\ core_of s' = core_of s /\ ok s'.
Proof.
  intros Hok Ha Hd. unfold so_touch. rewrite run_append.
  assert (Hst : step s (pushEntry (touchChange (so_address o)) s)).
  { eapply step_entry; try done; [by destruct Hok|]. intros t2 s2 Hok2 Es El. exists s2. by split_and!. }
  assert (Hok' : ok (pushEntry (touchChange (so_address o)) s)) by (by destruct Hok).
  unfold when. destruct (bool_decide _); [|by eexists].
  eexists. split; [done|]. split_and!; try done; [|by destruct Hok]. eapply step_trans; [exact Hst|]. apply step_quiet. by split; [destruct Hok|..].
Qed.

Lemma db_AddBalance_spec a n : implements represents (db_AddBalance a n) (writes (k_AddBalance a n)).
Proof.
  apply onNewObject_implements. intros t s o Hok Ha Hd. pose proof (ok_objects _ Hok _ _ Ha) as Ho. unfold so_AddBalance.
  destruct (Z.eqb_spec n 0) as [->|]; [|by apply so_SetBalance_step].
  assert (exists s', when (so_empty o) (so_touch o) (mkWorld t s) = (Ok (), mkWorld t s') /\ step s s' /\ stateObjects s' = stateObjects s /\ snapDestructs s' = snapDestructs s /\ s_snap s' = s_snap s /\ core_of s' = core_of s /\ ok s')
    as (s' & E & Hst & Eo & ED & Es & Ec & Hok').
  { unfold when. destruct (so_empty o); [by eapply so_touch_step|]. exists s. split_and!; try done. by apply step_quiet, quiet_same. }
  erewrite run_bind by exact E. exists o, s'. split; [done|]. split; [apply Ho|]. split.
  - eapply step_trans; [exact Hst|]. apply step_quiet. eapply quiet_setObject; [done|by rewrite Eo|by rewrite Es, ED|done..].
  - erewrite same_object_core by done. unfold abs, upd, set_ac_balance. cbn. by rewrite Z.add_0_r.
Qed.

Lemma put_put m k v w : put (put m k v) k w = put m k w.
Proof.
  unfold put. destruct (decide (w = HashZero)), (decide (v = HashZero)); rewrite ?delete_delete_eq, ?delete_insert_eq, ?insert_delete_eq, ?insert_insert_eq; done.
Qed.

Lemma abs_storage_slot (o : obj) k : (abs o) <| ac_storage ::= fun m => put m k (slot (dirtyStorage o ∪ storeOf o) k) |> = abs o.
Proof. unfold abs, upd, set_ac_storage. cbn. by rewrite put_slot. Qed.

Lemma abs_storage_back (x : account) k v w : x <| ac_storage ::= fun m => put m k v |> <| ac_storage ::= fun m => put m k w |> = x <| ac_storage ::= fun m => put m k w |>.
Proof. unfold upd, set_ac_storage. cbn. by rewrite put_put. Qed.

Lemma db_SetState_spec a k v : implements represents (db_SetState a k v) (writes (k_SetState a k v)).
Proof.
  apply onNewObject_implements. intros t s o Hok Ha Hd. pose proof (ok_objects _ Hok _ _ Ha) as Ho. unfold so_SetState. rewrite (oo_fake _ _ _ _ Ho).
  destruct (so_GetState_spec t s a o k Hok Ho Hd) as (o1 & E & Hl & _). erewrite run_bind by exact E. pose proof Hl as (Ho1 & Ea1 & Ed1). destruct (decide _) as [<-|Hne].
  - exists o1, s. split; [done|]. split; [apply Ho1|]. split; [by apply step_quiet; eapply quiet_setObject|].
    rewrite abs_storage_slot. apply same_object_core; congruence.
  - rewrite run_append. do 2 eexists. split; [done|]. split; [apply Ho1|]. rewrite (oo_address _ _ _ _ Ho1), <- Ea1, <- abs_setState.
    eapply (loaded_step s a o o1 _ _ (so_setState k (slot (dirtyStorage o ∪ storeOf o) k))); [done|done|done|done|by apply obj_ok_setState|cbn; congruence|apply run_liveObject|].
    intros snap D o2 Ho2 Hd2 E2. split_and!; [by apply obj_ok_setState| |done]. by rewrite abs_setState, E2, abs_setState, abs_storage_back, Ea1, abs_storage_slot.
Qed.

Lemma db_SetCode_spec a c : implements represents (db_SetCode a c) (writes (k_SetCode a c)).
Proof.
  apply onNewObject_implements. intros t s o Hok Ha Hd. pose proof (ok_objects _ Hok _ _ Ha) as Ho. unfold so_SetCode.
  destruct (so_Code_spec _ _ _ _ Ho) as (pc & o1 & E & Epc & Hl & Ehash & Hnone). rewrite E, run_lift, run_append. pose proof Hl as (Ho1 & Ea1 & Ed1).
  do 2 eexists. split; [done|]. split; [apply Ho1|]. rewrite (oo_address _ _ _ _ Ho1).
  replace ((abs o) <| ac_code := c |> <| ac_codeHash := Keccak256Hash [c] |>) with (abs (so_setCode (Keccak256Hash [c]) (Some c) o1)) by (by rewrite abs_setCode, Ea1).
  assert (Hpc : pc = None -> arr_bytes (BytesToHash (so_codeHash o1)) = Keccak256 [[]]).
  { intros Hn. unfold BytesToHash, BytesToArr. rewrite arr_bytes_SetBytes_full by apply Ho1. rewrite Ehash. auto. }
  eapply (loaded_step s a o o1 _ _ (so_setCode (BytesToHash (so_codeHash o1)) pc)); [done|done|done|done|by apply obj_ok_setCode|cbn; congruence|apply run_liveObject|].
  intros snap D o2 Ho2 Hd2 E2. split_and!; [by apply obj_ok_setCode| |done]. rewrite abs_setCode, E2, abs_setCode, Ea1, Epc, Ehash by done. done.
Qed.

Lemma db_Suicide_spec a : implements represents (db_Suicide a) (v_Suicide a).
Proof.
  apply (implements_step (db_Suicide a) (fun k => existsIn k a) (k_Suicide a)). intros t s Hok.
  destruct (getStateObject_spec t s a Hok) as (o & s1 & E & Hq & Ha & Ho). unfold db_Suicide. erewrite run_bind by exact E.
  pose proof (f_equal l_core (q_logical _ _ Hq) : core_of s1 = core_of s) as Ec. unfold existsIn, k_Suicide. cbn [core_of k_accounts]. rewrite Ha.
  destruct o as [o|]; cbn [fmap option_fmap option_map]; [|exists s1; split_and!; [done|by apply step_quiet|done]].
  destruct (Ho o eq_refl) as [Hl Hd]. pose proof (ok_objects _ (q_ok _ _ Hq) _ _ Hl) as Hoo. rewrite run_append, run_setStateObject. eexists. split; [done|].
  cbn [so_address]. change (so_address (o <| suicided := true |> <| so_balance := 0 |>)) with (so_address o). rewrite (oo_address _ _ _ _ Hoo).
  rewrite <- abs_suicided, <- abs_balance, <- Ec. fold (core_of s1).
  assert (Hst : step s1 (setObject a (o <| suicided := true |> <| so_balance := 0 |>) (pushEntry (suicideChange a (suicided o) (so_balance o)) s1)) /\
    core_of (setObject a (o <| suicided := true |> <| so_balance := 0 |>) (pushEntry (suicideChange a (suicided o) (so_balance o)) s1)) = (core_of s1) <| k_accounts ::= <[a := abs (o <| suicided := true |> <| so_balance := 0 |>)]> |>).
  { eapply (loaded_step s1 a o o _ _ (fun o2 => o2 <| suicided := suicided o |> <| so_balance := so_balance o |>) (mret ()));
      [apply Hq|done|done|by apply loaded_refl|by apply obj_ok_balance, obj_ok_suicided|done|done|].
    intros snap D o2 Ho2 Hd2 E2. split_and!; [by apply obj_ok_balance, obj_ok_suicided| |done]. by rewrite abs_balance, abs_suicided, E2. }
  destruct Hst as [Hst Hc]. split; [|exact Hc]. eapply step_trans; [by apply step_quiet|exact Hst].
Qed.

(** ** Refunds, logs, preimages *)

(** A change outside the objects, which the entry takes back by [h]. *)
Lemma field_step s s' e (h : st -> st) : ok s -> ok s' -> s_snap s' = s_snap s -> validRevisions s' = validRevisions s -> nextRevisionId s' = nextRevisionId s ->
  s_thash s' = s_thash s -> s_txIndex s' = s_txIndex s -> entries (s_journal s') = e :: entries (s_journal s) ->
  (forall t s2, ok s2 -> logical_of s2 = logical_of s' -> entry_revert e (mkWorld t s2) = (Ok (), mkWorld t (h s2)) /\ ok (h s2) /\ logical_of (h s2) = logical_of s) ->
  (forall s2, s_snap (h s2) = s_snap s2 /\ entries (s_journal (h s2)) = entries (s_journal s2) /\ validRevisions (h s2) = validRevisions s2 /\ nextRevisionId (h s2) = nextRevisionId s2 /\
     s_thash (h s2) = s_thash s2 /\ s_txIndex (h s2) = s_txIndex s2) -> step s s'.
Proof.
  intros Hok Hok' E1 E2 E3 E4 E5 E6 Hh Hf. apply (step_entry _ _ e); try done. intros t s2 Hok2 Es El. destruct (Hh t s2 Hok2 El) as (E & ? & ?).
  destruct (Hf s2) as (? & ? & ? & ? & ? & ?). exists (h s2). by split_and!.
Qed.

Lemma refund_step s r : ok s -> step s (pushEntry (refundChange (s_refund s)) s <| s_refund := r |>).
Proof.
  intros Hok. eapply (field_step _ _ _ (fun s2 => s2 <| s_refund := s_refund s |>)); try done; [by destruct Hok|]. intros t s2 Hok2 El.
  split; [done|]. split; [by destruct Hok2|]. 
  pose proof (f_equal l_core El : core_of s2 = _) as E1. pose proof (f_equal l_al El : s_accessList s2 = _) as E2. pose proof (f_equal l_destructs El : snapDestructs s2 = _) as E3.
  change (mkLogical ((core_of s2) <| k_refund := s_refund s |>) (s_accessList s2) (snapDestructs s2) = logical_of s). by rewrite E1, E2, E3.
Qed.

Lemma db_AddRefund_spec n : implements represents (db_AddRefund n) (writes (k_AddRefund n)).
Proof.
  apply implements_writes. intros t s Hok. eexists. split; [done|]. split; [by apply refund_step|done].
Qed.
Lemma db_SubRefund_spec n : implements represents (db_SubRefund n) (v_SubRefund n).
Proof.
  intros t s v Hr. unfold v_SubRefund, writes. rewrite (rp_core _ _ Hr). cbn [core_of k_refund]. unfold db_SubRefund. run. destruct (Z.ltb _ _) eqn:En; [eauto|]. eexists. split; [done|]. eapply represents_writes; [done|apply refund_step, Hr|done].
Qed.

Lemma u64_succ_pred n : is_u64 n -> u64 (u64 (n + 1) - 1) = n.
Proof. intros Hn. unfold u64, is_u64 in *. rewrite Zminus_mod_idemp_l. rewrite Z.mod_small by lia. lia. Qed.

(** Adding a log to the logs of a transaction, and taking it away again. *)
Lemma logs_back (m : gmap Hash (list Log)) h l : (forall x, m !! h = Some x -> x <> []) ->
  let m' := <[h := default [] (m !! h) ++ [l]]> m in
  let logs := default [] (m' !! h) in
  (if Nat.eqb (length logs) 1 then delete h m' else <[h := take (length logs - 1) logs]> m') = m.
Proof.
  intros Hm m' logs. unfold logs, m'. rewrite lookup_insert_eq. cbn [default from_option id]. rewrite length_app. cbn [length].
  destruct (m !! h) as [x|] eqn:E; cbn [default from_option id].
  - destruct x as [|y x]; [by destruct (Hm [])|]. destruct (Nat.eqb_spec (length (y :: x) + 1) 1) as [E'|_]; [cbn in E'; lia|].
    rewrite insert_insert_eq. replace (length (y :: x) + 1 - 1)%nat with (length (y :: x)) by lia. rewrite take_app_length. by apply insert_id.
  - cbn. by apply delete_insert_id.
Qed.

Lemma addLog_step s l : ok s ->
  step s (pushEntry (addLogChange (s_thash s)) s <| s_logs ::= fun m => <[s_thash s := default [] (m !! s_thash s) ++ [l]]> m |> <| s_logSize ::= fun n => u64 (n + 1) |>).
Proof.
  intros Hok. eapply (field_step _ _ _ (fun s2 => s2 <| s_logs := s_logs s |> <| s_logSize := s_logSize s |>)); try done.
  - destruct Hok. split; try done; cbn.
    + intros h x. rewrite lookup_insert_Some. intros [[_ <-]|[_ Hx]]; [by destruct (default [] _)|eauto].
    + unfold is_u64, u64. apply Z.mod_pos_bound. lia.
  - intros t s2 Hok2 El. pose proof (f_equal l_core El : core_of s2 = _) as E1. pose proof (f_equal l_al El : s_accessList s2 = _) as E2. pose proof (f_equal l_destructs El : snapDestructs s2 = _) as E3.
    pose proof (f_equal k_logs E1 : s_logs s2 = <[s_thash s := default [] (s_logs s !! s_thash s) ++ [l]]> (s_logs s)) as E4.
    pose proof (f_equal k_logSize E1 : s_logSize s2 = u64 (s_logSize s + 1)) as E5. split_and!.
    + unfold entry_revert, modify. cbn [w_tick w_st]. do 2 f_equal. unfold upd, set_s_logs, set_s_logSize. cbn. rewrite E4, E5, u64_succ_pred by apply Hok. f_equal.
      apply (logs_back (s_logs s) (s_thash s) l). apply Hok.
    + destruct Hok2, Hok. by split.
    + change (mkLogical ((core_of s2) <| k_logs := s_logs s |> <| k_logSize := s_logSize s |>) (s_accessList s2) (snapDestructs s2) = logical_of s). by rewrite E1, E2, E3.
Qed.

Lemma db_AddLog_spec l : implements represents (db_AddLog l) (v_AddLog l).
Proof.
  intros t s v Hr. unfold v_AddLog, writes. destruct (rp_tx _ _ Hr) as [Eh Ei]. rewrite (rp_core _ _ Hr), Eh, Ei. unfold db_AddLog, get, mbind, M_bind, journal_append, modify. cbn [w_st w_tick]. eexists. split; [reflexivity|].
  exact (represents_writes s _ v _ Hr (addLog_step s (mkLog (log_Address l) (log_Topics l) (log_Data l) (log_BlockNumber l) (s_thash s) (s_txIndex s) (log_BlockHash l) (s_logSize s) (log_Removed l)) (rp_ok _ _ Hr)) eq_refl).
Qed.

Lemma db_AddPreimage_spec h p : implements represents (db_AddPreimage h p) (writes (k_AddPreimage h p)).
Proof.
  apply implements_writes. intros t s Hok. unfold db_AddPreimage, k_AddPreimage. run. destruct (s_preimages s !! h) as [x|] eqn:Ex.
  - exists s. split; [done|]. split; [by apply step_quiet, quiet_same|]. unfold upd, set_k_preimages. cbn. by rewrite Ex.
  - eexists. split; [done|]. split; [|unfold core_of, upd, set_k_preimages; cbn; by rewrite Ex].
    eapply (field_step _ _ (addPreimageChange h) (fun s2 => s2 <| s_preimages ::= delete h |>)); try done; [by destruct Hok|]. intros t2 s2 Hok2 El. split; [done|].
    pose proof (f_equal l_core El : core_of s2 = _) as E1. pose proof (f_equal l_al El : s_accessList s2 = _) as E2. pose proof (f_equal l_destructs El : snapDestructs s2 = _) as E3.
    split; [by destruct Hok2|]. change (mkLogical ((core_of s2) <| k_preimages ::= delete h |>) (s_accessList s2) (snapDestructs s2) = logical_of s).
    rewrite E1, E2, E3. unfold logical_of, core_of, upd, set_k_preimages. cbn. by rewrite delete_insert_id.
Qed.

(** ** Access lists *)

Lemma access_step s al' e : ok s -> al_ok al' ->
  (forall t s2, s_accessList s2 = al' -> entry_revert e (mkWorld t s2) = (Ok (), mkWorld t (s2 <| s_accessList := s_accessList s |>))) ->
  step s (pushEntry e (s <| s_accessList := al' |>)).
Proof.
  intros Hok Hal Hrev. eapply (field_step _ _ e (fun s2 => s2 <| s_accessList := s_accessList s |>)); try done; [by destruct Hok|]. intros t s2 Hok2 El.
  pose proof (f_equal l_core El : core_of s2 = _) as E1. pose proof (f_equal l_al El : s_accessList s2 = al') as E2. pose proof (f_equal l_destructs El : snapDestructs s2 = _) as E3.
  split_and!; [by apply Hrev|by destruct Hok2, Hok|].
  change (mkLogical ((core_of s2) <| k_addresses := dom (addresses (s_accessList s)) |> <| k_slots := al_slots (s_accessList s) |>) (s_accessList s) (snapDestructs s2) = logical_of s).
  by rewrite E1, E3.
Qed.

Lemma address_step s a : ok s -> let '(c, al') := AddAddress (s_accessList s) a in
  let s' := s <| s_accessList := al' |> in
  step s (if c then pushEntry (accessListAddAccountChange a) s' else s') /\ core_of s' = k_AddAddress a (core_of s) /\ al_ok al'.
Proof.
  intros Hok. destruct (AddAddress_spec (s_accessList s) a) as (c & al' & E & Hal & Hd & Hs & Hc); [apply Hok|]. rewrite E. split_and!; [|unfold core_of, k_AddAddress, upd, set_k_addresses; cbn; by rewrite Hd, Hs|done].
  destruct c.
  - apply access_step; [done..|]. intros t s2 E2. unfold entry_revert, modify. cbn [w_tick w_st]. do 2 f_equal. unfold upd, set_s_accessList. by rewrite E2, Hc.
  - subst al'. replace (s <| s_accessList := s_accessList s |>) with s by (by destruct s). by apply step_quiet, quiet_same.
Qed.

Lemma db_AddAddressToAccessList_spec a : implements represents (db_AddAddressToAccessList a) (writes (k_AddAddress a)).
Proof.
  apply implements_writes. intros t s Hok. pose proof (address_step s a Hok) as Hs. unfold db_AddAddressToAccessList. run.
  destruct (AddAddress (s_accessList s) a) as [c al']. run. unfold when. destruct c; (eexists; split; [done|]; split; apply Hs).
Qed.

Lemma db_AddSlotToAccessList_spec a k : implements represents (db_AddSlotToAccessList a k) (writes (k_AddSlot a k)).
Proof.
  apply implements_writes. intros t s Hok. pose proof (address_step s a Hok) as Hs. unfold db_AddSlotToAccessList. run.
  destruct (AddSlot_spec (s_accessList s) a k) as (ca & ck & al' & E & Hal & Hd & Hsl & Eca & Hck); [apply Hok|]. rewrite E. run.
  assert (Hc : core_of (s <| s_accessList := al' |>) = k_AddSlot a k (core_of s)) by (unfold core_of, k_AddSlot, upd, set_k_addresses, set_k_slots; cbn; by rewrite Hd, Hsl).
  destruct (AddAddress (s_accessList s) a) as [c al1]. cbn [fst snd] in *. subst c. destruct Hs as (Hst & Hc1 & Hal1). destruct ck.
  - assert (Hst2 : forall s1, step s s1 -> ok s1 -> s_accessList s1 = al1 -> step s (pushEntry (accessListAddSlotChange a k) (s1 <| s_accessList := al' |>))).
    { intros s1 H1 Hok1 E1. eapply step_trans; [exact H1|]. apply access_step; [done..|]. intros t2 s2 E2. cbn. run. rewrite E2, Hck. cbn. by rewrite E1. }
    unfold when. destruct ca; (eexists; split; [reflexivity|]; split; [|exact Hc]).
    + assert (Hok1 : ok (pushEntry (accessListAddAccountChange a) (s <| s_accessList := al1 |>))) by (by destruct Hok). exact (Hst2 _ Hst Hok1 eq_refl).
    + assert (Hok1 : ok (s <| s_accessList := al1 |>)) by (by destruct Hok). exact (Hst2 _ Hst Hok1 eq_refl).
  - destruct Hck as [-> ->]. unfold when. eexists. split; [reflexivity|]. split; [|exact Hc].
    replace (s <| s_accessList := s_accessList s |>) with s by (by destruct s). by apply step_quiet, quiet_same.
Qed.

(** ** Snapshots *)

Lemma history_length snap es ls : history snap es ls -> length ls = S (length es).
Proof. induction 1; cbn in *; lia. Qed.

Lemma db_Snapshot_spec : implements represents db_Snapshot v_Snapshot.
Proof.
  intros t s v Hr. unfold v_Snapshot. destruct Hr as [Hok (ls & Hh & Hrev) Ec Hsort [En Hlt] Hidx Htx]. rewrite En, Ec. eexists. split; [reflexivity|].
  split; try done; cbn.
  - by destruct Hok.
  - exists ls. split; [exact Hh|]. rewrite rev_app_distr. cbn. constructor; [|exact Hrev]. unfold revision_of. pose proof (history_length _ _ _ Hh) as Hl. cbn in *. injection Hl as ->.
    split_and!; [done|lia|]. by rewrite Nat.sub_0_r, Nat.sub_diag.
  - apply StronglySorted_app_2; [|done|by repeat constructor]. intros r r' Hr Hr'. apply list_elem_of_singleton in Hr' as ->. cbn.
    rewrite Forall_forall in Hlt, Hidx. by split; [apply Hlt|apply Hidx].
  - split; [lia|]. apply Forall_app. split; [|constructor; [cbn; lia|done]]. eapply Forall_impl; [exact Hlt|]. cbn. lia.
  - apply Forall_app. split; [exact Hidx|]. by repeat constructor.
Qed.

(** Binary search finds where [f] starts to hold. *)
Lemma sort_Search_loop_spec fuel (f : nat -> bool) n i j : (forall x y, x <= y -> y < n -> f x = true -> f y = true)%nat ->
  (i <= j <= n)%nat -> (j - i <= fuel)%nat -> (forall x, x < i -> f x = false)%nat -> (forall x, j <= x < n -> f x = true)%nat ->
  let r := sort_Search_loop fuel f i j in (r <= n /\ (forall x, x < r -> f x = false) /\ (forall x, r <= x < n -> f x = true))%nat.
Proof.
  intros Hmono. revert i j. induction fuel as [|fuel IH]; intros i j Hij Hf Hlo Hhi; cbn [sort_Search_loop].
  - assert (i = j) as -> by lia. split_and!; [lia|done|done].
  - destruct (Nat.ltb_spec i j) as [Hlt|Hge]; [|assert (i = j) as -> by lia; split_and!; [lia|done|done]].
    assert (Hh : (i <= (i + j) / 2 < j)%nat) by (split; [apply Nat.div_le_lower_bound|apply Nat.Div0.div_lt_upper_bound]; lia).
    set (h := ((i + j) / 2)%nat) in *. destruct (f h) eqn:Efh; cbn [negb].
    + apply IH; [lia|lia|done|]. intros x Hx. apply (Hmono h x); [lia|lia|done].
    + apply IH; [lia|lia| |done]. intros x Hx. destruct (f x) eqn:Efx; [|done]. rewrite (Hmono x h) in Efh; [done|lia|lia|done].
Qed.

Lemma sort_Search_spec (f : nat -> bool) n : (forall x y, x <= y -> y < n -> f x = true -> f y = true)%nat ->
  (sort_Search n f <= n /\ (forall x, x < sort_Search n f -> f x = false) /\ (forall x, sort_Search n f <= x < n -> f x = true))%nat.
Proof. intros Hmono. apply sort_Search_loop_spec; [done|lia|lia|lia|lia]. Qed.

(** The revision with a given identifier is the one that the search finds. *)
Lemma search_revision r1 r r2 : StronglySorted (fun r r' => rev_id r < rev_id r' /\ (journalIndex r <= journalIndex r')%nat) (r1 ++ r :: r2) ->
  sort_Search (length (r1 ++ r :: r2)) (fun i => match (r1 ++ r :: r2) !! i with Some x => Z.leb (rev_id r) (rev_id x) | None => true end) = length r1.
Proof.
  intros Hs. set (revs := r1 ++ r :: r2) in *. set (f := fun i => match revs !! i with Some x => Z.leb (rev_id r) (rev_id x) | None => true end).
  assert (Hlo : forall i, (i < length r1)%nat -> f i = false).
  { intros i Hi. unfold f, revs. destruct (lookup_lt_is_Some_2 r1 i Hi) as [x Hx]. rewrite lookup_app_l, Hx by done. apply Z.leb_gt.
    eapply (StronglySorted_app_1_elem_of _ r1 (r :: r2) x r Hs); [by eapply list_elem_of_lookup_2|by left]. }
  assert (Hhi : forall i, (length r1 <= i)%nat -> f i = true).
  { intros i Hi. unfold f, revs. rewrite lookup_app_r by done. destruct (i - length r1)%nat as [|m]; cbn; [apply Z.leb_refl|].
    destruct (r2 !! m) as [x|] eqn:Ex; [|done]. apply Z.leb_le. apply StronglySorted_app_1_r in Hs. apply StronglySorted_cons in Hs as [Hs _].
    rewrite Forall_forall in Hs. apply list_elem_of_lookup_2, Hs in Ex. lia. }
  destruct (sort_Search_spec f (length revs)) as (Hle & Hf & Ht).
  - intros x y Hxy Hy Hx. destruct (Nat.lt_ge_cases y (length r1)); [|by apply Hhi]. rewrite Hlo in Hx by lia. done.
  - assert (Hlen : (length r1 < length revs)%nat) by (unfold revs; rewrite length_app; cbn; lia).
    destruct (Nat.lt_trichotomy (sort_Search (length revs) f) (length r1)) as [Hc|[Hc|Hc]]; [|done|].
    + pose proof (Ht (sort_Search (length revs) f)) as Ht'. rewrite Hlo in Ht' by done. discriminate Ht'. lia.
    + pose proof (Hf (length r1) Hc) as Hf'. by rewrite Hhi in Hf'.
Qed.

(** Undoing the latest entries walks back through the history. *)
Lemma revert_loop_spec t l1 es snap l0 ls s : history snap (l1 ++ es) (l0 :: ls) -> ok s -> s_snap s = snap -> logical_of s = l0 ->
  exists s', revert_loop l1 (mkWorld t s) = (Ok (), mkWorld t s') /\ ok s' /\ history snap es (drop (length l1) (l0 :: ls)) /\
    (l0 :: ls) !! length l1 = Some (logical_of s') /\ s_snap s' = s_snap s /\ entries (s_journal s') = entries (s_journal s) /\
    validRevisions s' = validRevisions s /\ nextRevisionId s' = nextRevisionId s /\ s_thash s' = s_thash s /\ s_txIndex s' = s_txIndex s.
Proof.
  revert l0 ls s. induction l1 as [|e l1 IH]; intros l0 ls s Hh Hok Es El; cbn [app length] in *.
  { exists s. split_and!; try done. cbn. by rewrite El. }
  inversion Hh as [|e' es' l' l ls' Hu Hh' E1 E2]; subst e' es' l' ls. destruct (Hu t s Hok Es El) as (s1 & E & Hok1 & El1 & Hs1 & Hj1 & Hv1 & Hn1 & Hth1 & Htx1).
  set (s1' := s1 <| s_journal ::= fun j => mkJournal (entries j) (undirty e (dirties j)) |>).
  assert (Hok1' : ok s1') by (by destruct Hok1).
  destruct (IH l ls' s1' Hh' Hok1' ltac:(cbn; congruence) El1) as (s' & E' & Hok' & Hhist & Hlk & ? & Hj & ? & ? & ? & ?).
  exists s'. cbn [revert_loop]. erewrite run_bind by exact E. rewrite run_modify. fold s1'. rewrite E'. cbn in *. split_and!; congruence || done.
Qed.

Lemma findSnapshot_split ls revs snaps id k l : Forall2 (revision_of ls) revs snaps -> findSnapshot id snaps = Some (k, l) ->
  exists r2 r r1, revs = r2 ++ r :: r1 /\ rev_id r = id /\ revision_of ls r (id, k) /\ Forall2 (revision_of ls) r1 l.
Proof.
  intros Hf. revert l. induction Hf as [|r [i x] revs snaps Hr Hf IH]; intros l Hfind; [done|]. cbn in Hfind. destruct (Z.eqb_spec i id) as [->|].
  - injection Hfind as -> ->. exists [], r, revs. split_and!; try done. by destruct Hr.
  - destruct (IH l Hfind) as (r2 & r' & r1 & -> & ? & ? & ?). exists (r :: r2), r', r1. done.
Qed.

(** Older revisions still stand for the same states once later changes are undone. *)
Lemma revision_of_drop ls m r x : (m < length ls)%nat -> (journalIndex r <= length ls - 1 - m)%nat -> revision_of ls r x -> revision_of (drop m ls) r x.
Proof.
  intros Hm Hj (E & Hl & Hx). unfold revision_of. rewrite length_drop, lookup_drop. split_and!; [done|lia|].
  by replace (m + (length ls - m - 1 - journalIndex r))%nat with (length ls - 1 - journalIndex r)%nat by lia.
Qed.

Lemma revisions_drop ls m revs snaps : (m < length ls)%nat -> Forall (fun r => (journalIndex r <= length ls - 1 - m)%nat) revs ->
  Forall2 (revision_of ls) revs snaps -> Forall2 (revision_of (drop m ls)) revs snaps.
Proof. intros Hm Hf Hr. induction Hr; [done|]. apply Forall_cons in Hf as [? ?]. constructor; [by apply revision_of_drop|auto]. Qed.

Lemma findSnapshot_None ls revs snaps id : Forall2 (revision_of ls) revs snaps -> findSnapshot id snaps = None -> Forall (fun r => rev_id r <> id) revs.
Proof.
  induction 1 as [|r [i x] revs snaps Hr Hf IH]; intros Hn; [done|]. cbn in Hn. destruct (Z.eqb_spec i id); [done|]. constructor; [|auto]. by destruct Hr as [<- _].
Qed.

Lemma revert_unknown t s v id : represents s v -> findSnapshot id (v_snapshots v) = None -> exists q w', db_RevertToSnapshot id (mkWorld t s) = (Panic q, w').
Proof.
  intros [_ (ls & _ & Hrev) _ _ _ _ _] Hn. apply (findSnapshot_None _ _ _ _ Hrev) in Hn. apply Forall_rev in Hn. rewrite rev_involutive in Hn.
  unfold db_RevertToSnapshot. run. set (idx := sort_Search _ _). destruct (validRevisions s !! idx) as [r|] eqn:Er; [|by do 2 eexists].
  rewrite Forall_lookup in Hn. apply Hn in Er. destruct (Z.eqb_spec (rev_id r) id); [done|]. by do 2 eexists.
Qed.

Lemma db_RevertToSnapshot_spec id : implements represents (db_RevertToSnapshot id) (v_RevertToSnapshot id).
Proof.
  intros t s v Hr. unfold v_RevertToSnapshot. destruct (findSnapshot id (v_snapshots v)) as [[k l]|] eqn:Ef; [|by eapply revert_unknown].
  destruct Hr as [Hok (ls & Hh & Hrev) Ec Hsort [En Hlt] Hidx Htx]. pose proof (history_length _ _ _ Hh) as Hlen. cbn [length] in Hlen.
  destruct (findSnapshot_split _ _ _ _ _ _ Hrev Ef) as (r2 & r & r1 & Er & Eid & Hro & Hold).
  assert (Erevs : validRevisions s = rev r1 ++ r :: rev r2) by (rewrite <- (rev_involutive (validRevisions s)), Er, rev_app_distr; cbn; by rewrite <- app_assoc).
  rewrite Erevs in Hsort, Hidx, Hlt. unfold db_RevertToSnapshot. run. rewrite Erevs, <- Eid, search_revision by done.
  rewrite lookup_app_r, Nat.sub_diag by done. cbn [lookup list_lookup]. rewrite Z.eqb_refl. cbn [negb]. unfold journal_revert. rewrite run_assoc, run_gets.
  set (es := entries (s_journal s)) in *. set (m := (length es - journalIndex r)%nat) in *.
  assert (Hj : (journalIndex r <= length es)%nat) by (rewrite Forall_app, Forall_cons in Hidx; by destruct Hidx as [_ [? _]]).
  rewrite <- (take_drop m es) in Hh. destruct (revert_loop_spec t _ _ _ _ _ s Hh Hok eq_refl eq_refl) as (s' & E & Hok' & Hhist & Hlk & Hs' & Hj' & Hv' & Hn' & Hth' & Htx').
  rewrite run_assoc. erewrite run_bind by exact E. rewrite run_modify. eexists. split; [reflexivity|].
  rewrite length_take, Nat.min_l in Hhist, Hlk by lia. fold es in Hj'. set (L := logical_of s :: ls) in *.
  assert (HL : length L = S (length es)) by exact Hlen. rewrite (drop_S L _ m Hlk) in Hhist.
  assert (Htake : take (length (rev r1)) (validRevisions s') = rev r1) by (rewrite Hv', Erevs; apply take_app_length).
  assert (Holder : Forall (fun r' => (journalIndex r' <= journalIndex r)%nat) r1).
  { apply Forall_forall. intros r' Hr'. eapply (StronglySorted_app_1_elem_of _ (rev r1) _ r' r Hsort); [by apply list_elem_of_In, in_rev; rewrite rev_involutive; apply list_elem_of_In|by left]. }
  rewrite Forall_app in Hidx, Hlt. pose proof (StronglySorted_app_1_l _ _ _ Hsort) as Hsort1. split; cbn [s_journal entries validRevisions].
  - by destruct Hok'.
  - exists (drop (S m) L). cbn. rewrite Hj', Htake, rev_involutive, Hs'. split; [exact Hhist|].
    change (Forall2 (revision_of (logical_of s' :: drop (S m) L)) r1 l). rewrite <- (drop_S L _ m Hlk). 
    apply revisions_drop; [lia| |done]. eapply Forall_impl; [exact Holder|]. cbn. lia.
  - destruct Hro as (_ & _ & Hk). cbn [snd] in Hk. replace (length L - 1 - journalIndex r)%nat with m in Hk by lia. rewrite Hlk in Hk. by injection Hk as <-.
  - cbn. by rewrite Htake.
  - cbn. rewrite Htake, Hn'. by destruct Hlt.
  - cbn. rewrite Htake, Hj', length_drop. apply Forall_rev. eapply Forall_impl; [exact Holder|]. cbn. lia.
  - cbn. by rewrite Hth', Htx'.
Qed.

(** The database implements the interface. *)
#[export] Instance sdbStateDBSpec : StateDBSpec st := {|
  sdb_rep := represents;
  CreateAccount_spec := db_CreateAccount_spec;
  SubBalance_spec := db_SubBalance_spec;
  AddBalance_spec := db_AddBalance_spec;
  GetBalance_spec := db_GetBalance_spec;
  GetNonce_spec := db_GetNonce_spec;
  SetNonce_spec := db_SetNonce_spec;
  GetCodeHash_spec := db_GetCodeHash_spec;
  GetCode_spec := db_GetCode_spec;
  SetCode_spec := db_SetCode_spec;
  GetCodeSize_spec := db_GetCodeSize_spec;
  AddRefund_spec := db_AddRefund_spec;
  SubRefund_spec := db_SubRefund_spec;
  GetRefund_spec := db_GetRefund_spec;
  GetCommittedState_spec := db_GetCommittedState_spec;
  GetState_spec := db_GetState_spec;
  SetState_spec := db_SetState_spec;
  Suicide_spec := db_Suicide_spec;
  HasSuicided_spec := db_HasSuicided_spec;
  Exist_spec := db_Exist_spec;
  Empty_spec := db_Empty_spec;
  AddressInAccessList_spec := db_AddressInAccessList_spec;
  SlotInAccessList_spec := db_SlotInAccessList_spec;
  AddAddressToAccessList_spec := db_AddAddressToAccessList_spec;
  AddSlotToAccessList_spec := db_AddSlotToAccessList_spec;
  RevertToSnapshot_spec := db_RevertToSnapshot_spec;
  Snapshot_spec := db_Snapshot_spec;
  AddLog_spec := db_AddLog_spec;
  AddPreimage_spec := db_AddPreimage_spec;
|}.
End refine.
