(* ===== verification/StateProps.v ===== *)
(** * Properties of the state database

    What the refinement of [StateRefine] gives: sequences of calls are answered as the
    abstract state answers them, a snapshot brings back exactly the state it was taken
    of, and finalising a transaction leaves a state database for the next one. *)

From S2P Require Import Prelude Common Rlp RlpEnc RlpDec Packets StateSpec StateDB StateRefine.
From Stdlib Require Import Strings.Byte.
Import AccessList.

(** ** A new database *)

Section opened.
Context `{Crypto} {T N : Type} `{StateDatabase T N} `{!BaseState T N}.

(** The state that a new database stands for: the accounts of the trie. *)
Definition openedAbs : Abs := mkAbs (mkCore (accounts_of ∅) 0 ∅ ∅ ∅ 0 ∅) [] 0 HashZero 0.

Lemma db_New_represents root tr snap : accountTrie tr -> represents (db_New root tr snap) openedAbs.
Proof.
  intros Htr. assert (Hok : ok (db_New root tr snap)) by (split; cbn; try done; apply al_ok_new).
  split; cbn; try done; try by constructor.
  eexists []. split; constructor.
Qed.
End opened.

(** ** The end of a transaction *)

Section finalising.
Context `{GoRuntime} `{Crypto} {T N : Type} `{StateDatabase T N} `{!BaseState T N}.
Abbreviation st := (sdb T N).

(** Touched accounts that are destructed, or empty if those go, disappear; in the others
    the storage becomes the committed one. *)
Definition finalised (del : bool) (touched : gset Address) (m : gmap Address account) : gmap Address account :=
  map_imap (fun a x => if decide (a ∈ touched) then if ac_suicided x || del && isEmpty x then None else Some (x <| ac_committed := ac_storage x |>) else Some x) m.

Lemma finalised_empty del m : finalised del ∅ m = m.
Proof. unfold finalised. apply map_eq. intros a. rewrite map_lookup_imap. destruct (m !! a); [|done]. cbn. by rewrite decide_False by set_solver. Qed.

Lemma finalised_twice del A B m : finalised del A (finalised del B m) = finalised del (A ∪ B) m.
Proof.
  apply map_eq. intros a. unfold finalised. rewrite !map_lookup_imap. destruct (m !! a) as [x|]; [|done]. cbn.
  destruct (decide (a ∈ B)) as [HB|HB].
  - rewrite (decide_True (P := a ∈ A ∪ B)) by set_solver. destruct (ac_suicided x || del && isEmpty x) eqn:E; [done|]. cbn. destruct (decide (a ∈ A)); [|done].
    change (isEmpty (x <| ac_committed := ac_storage x |>)) with (isEmpty x). by rewrite E.
  - cbn. destruct (decide (a ∈ A)); [by rewrite (decide_True (P := a ∈ A ∪ B)) by set_solver|by rewrite (decide_False (P := a ∈ A ∪ B)) by set_solver].
Qed.

(** The parts of the state that finalising objects leaves alone. *)
Definition rest_of (s : st) := (s_trie s, s_snap s, s_refund s, s_thash s, s_txIndex s, s_logs s, s_logSize s, s_preimages s, s_accessList s, s_journal s, validRevisions s, nextRevisionId s).

Lemma abs_finalise (o : stateObject T) : abs (so_finalise o) = (abs o) <| ac_committed := ac_storage (abs o) |>.
Proof.
  assert (E : storeOf (so_finalise o) = dirtyStorage o ∪ storeOf o) by (symmetry; exact (assoc_L (∪) (dirtyStorage o) (pendingStorage o) (originStorage o ∪ b_storage (so_addrHash o) (so_root o)))).
  assert (E' : dirtyStorage (so_finalise o) ∪ storeOf (so_finalise o) = dirtyStorage o ∪ storeOf o) by (rewrite E; exact (left_id_L ∅ (∪) (dirtyStorage o ∪ storeOf o))).
  unfold abs at 1. by rewrite E', E.
Qed.
Lemma so_finalise_ok snap D a (o : stateObject T) : obj_ok snap D a o -> obj_ok snap D a (so_finalise o).
Proof. intros []. by split. Qed.

Lemma run_finalise_delete del a t (s : st) o : stateObjects s !! a = Some o -> suicided o || del && so_empty o = true ->
  finaliseObject del a (mkWorld t s) = (Ok (), mkWorld t
    ((match s_snap s with
      | Some _ => s <| stateObjects ::= <[a := o <| deleted := true |>]> |> <| snapDestructs ::= fun d => {[so_addrHash o]} ∪ d |> <| snapAccounts ::= delete (so_addrHash o) |> <| snapStorage ::= delete (so_addrHash o) |>
      | None => s <| stateObjects ::= <[a := o <| deleted := true |>]> |>
      end) <| stateObjectsPending ::= fun d => {[a]} ∪ d |> <| stateObjectsDirty ::= fun d => {[a]} ∪ d |>)).
Proof. intros Eo Ed. unfold finaliseObject. run. rewrite Eo, Ed. by destruct s as [? ? [n|]]. Qed.

Lemma finaliseObject_spec del a t s : ok s -> exists s', finaliseObject del a (mkWorld t s) = (Ok (), mkWorld t s') /\ ok s' /\ rest_of s' = rest_of s /\
  dom (stateObjects s') = dom (stateObjects s) /\ accounts_of (stateObjects s') = finalised del ({[a]} ∩ dom (stateObjects s)) (accounts_of (stateObjects s)).
Proof.
  intros Hok. destruct (stateObjects s !! a) as [o|] eqn:Eo.
  2: { exists s. unfold finaliseObject. run. rewrite Eo. split_and!; try done. replace ({[a]} ∩ dom (stateObjects s)) with (∅ : gset Address); [by rewrite finalised_empty|].
       apply not_elem_of_dom in Eo. set_solver. }
  pose proof (ok_objects _ Hok _ _ Eo) as Ho. assert (Hdom : a ∈ dom (stateObjects s)) by (by apply elem_of_dom).
  replace ({[a]} ∩ dom (stateObjects s)) with ({[a]} : gset Address) by set_solver.
  assert (Hacc : forall o', (if deleted o' then None else Some (abs o')) = (accounts_of (stateObjects s) !! a ≫= fun x => if ac_suicided x || del && isEmpty x then None else Some (x <| ac_committed := ac_storage x |>)) ->
    accounts_of (<[a := o']> (stateObjects s)) = finalised del {[a]} (accounts_of (stateObjects s))).
  { intros o' Ho'. rewrite accounts_of_put. apply map_eq. intros b. unfold finalised. rewrite map_lookup_imap. destruct (decide (a = b)) as [<-|Hab].
    - rewrite lookup_partial_alter_eq, Ho'. destruct (accounts_of (stateObjects s) !! a); [|done]. cbn. by rewrite decide_True by set_solver.
    - rewrite lookup_partial_alter_ne by done. destruct (accounts_of (stateObjects s) !! b); [|done]. cbn. by rewrite decide_False by set_solver. }
  rewrite accounts_of_lookup, Eo in Hacc. pose proof (so_empty_spec o (oo_codeHash _ _ _ _ Ho)) as Hemp.
  destruct (suicided o || del && so_empty o) eqn:Ed.
  - assert (Hok' : ok (putObject a (o <| deleted := true |>) (destructing s a) s)).
    { apply putObject_ok; [done| |apply destructing_others|].
      - destruct Ho. by split.
      - unfold destructing. destruct (decide _); [done|]. intros Hin. exact (proj1 (ok_destructs _ Hok a Hin)). }
    assert (Ea : accounts_of (<[a := o <| deleted := true |>]> (stateObjects s)) = finalised del {[a]} (accounts_of (stateObjects s))).
    { apply Hacc. cbn. destruct (deleted o); [done|]. cbn. change (ac_suicided (abs o)) with (suicided o). by rewrite <- Hemp, Ed. }
    rewrite (run_finalise_delete del a t s o Eo Ed). eexists. split; [reflexivity|]. unfold destructing in Hok'. unfold rest_of. destruct (s_snap s) as [n|] eqn:En; cbn.
    + rewrite decide_True in Hok' by eauto. rewrite En, dom_insert_L. split_and!; [|done|set_solver|exact Ea]. rewrite (oo_hash _ _ _ _ Ho). by destruct Hok'.
    + rewrite decide_False in Hok' by (by intros [? ?]). rewrite En, dom_insert_L. split_and!; [by destruct Hok'|done|set_solver|exact Ea].
  - assert (Hok' : ok (setObject a (so_finalise o) s)) by (apply setObject_ok; [done|by apply so_finalise_ok]).
    unfold finaliseObject. run. rewrite Eo, Ed. eexists. split; [reflexivity|]. split_and!; [destruct Hok'; by split|done|cbn; rewrite dom_insert_L; set_solver|].
    apply Hacc. cbn. destruct (deleted o); [done|]. cbn. change (ac_suicided (abs o)) with (suicided o). by rewrite <- Hemp, Ed, abs_finalise.
Qed.

Lemma finalise_loop del (l : list (Address * Z)) t s : ok s -> exists s', forM (fun kv => finaliseObject del kv.1) l (mkWorld t s) = (Ok (), mkWorld t s') /\ ok s' /\ rest_of s' = rest_of s /\
  dom (stateObjects s') = dom (stateObjects s) /\ accounts_of (stateObjects s') = finalised del (list_to_set (map fst l) ∩ dom (stateObjects s)) (accounts_of (stateObjects s)).
Proof.
  revert s. induction l as [|[a n] l IH]; intros s Hok; cbn [forM map list_to_set fst].
  - exists s. split_and!; try done. rewrite <- (finalised_empty del) at 1. f_equal. set_solver.
  - destruct (finaliseObject_spec del a t s Hok) as (s1 & E1 & Hok1 & Hr1 & Hd1 & Ha1). destruct (IH s1 Hok1) as (s2 & E2 & Hok2 & Hr2 & Hd2 & Ha2).
    erewrite run_bind by exact E1. exists s2. split_and!; [done|done|congruence|congruence|]. rewrite Ha2, Hd1, Ha1, finalised_twice. f_equal. by rewrite (comm_L (∪)), <- intersection_union_r_L.
Qed.

(** The abstract state after a transaction has been finalised. *)
Definition finalisedAbs (del : bool) (s : st) (v : Abs) : Abs :=
  mkAbs ((v_core v) <| k_accounts ::= finalised del (dom (dirties (s_journal s)) ∩ dom (stateObjects s)) |>
           <| k_refund := if decide (entries (s_journal s) = []) then k_refund (v_core v) else 0 |>) [] (v_next v) (v_thash v) (v_txIndex v).

Lemma range_keys {K} `{Countable K} {V} (m : gmap K V) (l : list (K * V)) : l ≡ₚ map_to_list m -> list_to_set (map fst l) = dom m.
Proof.
  intros Hl. apply set_eq. intros k. rewrite elem_of_list_to_set, elem_of_dom. split.
  - intros Hk. apply list_elem_of_fmap in Hk as ([k' x] & -> & Hx). rewrite Hl in Hx. apply elem_of_map_to_list in Hx. eauto.
  - intros [x Hx]. apply list_elem_of_fmap. exists (k, x). split; [done|]. rewrite Hl. by apply elem_of_map_to_list.
Qed.

(** Nothing can be undone once the journal is cleared. *)
Lemma clear_represents t (s : st) : ok s -> exists s', clearJournalAndRefund (mkWorld t s) = (Ok (), mkWorld t s') /\
  represents s' (mkAbs ((core_of s) <| k_refund := if decide (entries (s_journal s) = []) then k_refund (core_of s) else 0 |>) [] (nextRevisionId s) (s_thash s) (s_txIndex s)).
Proof.
  intros Hok. unfold clearJournalAndRefund, modify. cbn [w_tick w_st]. eexists. split; [reflexivity|]. destruct (entries (s_journal s)) as [|e es] eqn:Ee.
  - rewrite decide_True by done. assert (ok (s <| validRevisions := [] |>)) by (by destruct Hok).
    split; cbn; rewrite ?Ee; try done; try (by constructor). exists []. split; constructor.
  - rewrite decide_False by done. assert (ok (s <| s_journal := newJournal |> <| s_refund := 0 |> <| validRevisions := [] |>)) by (by destruct Hok).
    split; cbn; try done; try (by constructor). exists []. split; constructor.
Qed.

Lemma db_Finalise_spec del t s v : represents s v -> exists t' s', db_Finalise del (mkWorld t s) = (Ok (), mkWorld t' s') /\ represents s' (finalisedAbs del s v).
Proof.
  intros Hr. unfold db_Finalise. run. unfold range. set (l := map_order t _ (map_to_list (dirties (s_journal s)))).
  pose proof (map_order_perm t _ _ : l ≡ₚ map_to_list (dirties (s_journal s))) as Hl.
  destruct (finalise_loop del l (S t) s (rp_ok _ _ Hr)) as (s1 & E & Hok1 & Hr1 & Hd1 & Ha1). rewrite (range_keys _ _ Hl) in Ha1.
  unfold ext. erewrite run_bind by (cbn [w_tick w_st]; reflexivity). erewrite run_bind by exact E.
  destruct (clear_represents (S t) s1 Hok1) as (s' & E' & Hr'). exists (S t), s'. split; [exact E'|].
  injection Hr1 as E1 E2 E3 E4 E5 E6 E7 E8 E9 E10 E11 E12. destruct Hr as [Hok _ Ec _ [En _] _ [Eh Ei]].
  rewrite E4, E5, E10, E12, <- En, <- Eh, <- Ei in Hr'. unfold finalisedAbs. rewrite Ec. revert Hr'. unfold core_of, upd, set_k_accounts, set_k_refund. cbn. by rewrite Ha1, E3, E6, E7, E8, E9.
Qed.
End finalising.

(** ** Snapshots *)

(** The snapshot [id] of [k] is still there, above the older ones. *)
Definition kept (id : Z) (k : core) (older : list (Z * core)) (v : Abs) : Prop :=
  exists newer, v_snapshots v = newer ++ (id, k) :: older /\ Forall (fun x => id < x.1) newer /\ id < v_next v.

Definition revertsAfter (id : Z) (c : call) : Prop := match c with cRevertToSnapshot j => id < j | _ => True end.

Lemma findSnapshot_app j newer l : findSnapshot j (newer ++ l) =
  match findSnapshot j newer with Some (k, r) => Some (k, r ++ l) | None => findSnapshot j l end.
Proof. induction newer as [|[i k] newer IH]; [done|]. cbn. by destruct (Z.eqb i j). Qed.

Lemma findSnapshot_suffix j l k r : findSnapshot j l = Some (k, r) -> r `suffix_of` l.
Proof.
  induction l as [|[i x] l IH]; [done|]. cbn. destruct (Z.eqb i j).
  - intros [= -> ->]. by exists [(i, k)].
  - intros Hr. by apply suffix_cons_r, IH.
Qed.

Lemma findSnapshot_lt j id k older l : Forall (fun x => x.1 < id) older -> id < j -> findSnapshot j ((id, k) :: older) = Some l -> False.
Proof.
  intros Ho Hj. cbn. destruct (Z.eqb_spec id j); [lia|]. induction older as [|[i x] older IH]; [done|]. apply Forall_cons in Ho as [Hi Ho]. cbn in *.
  destruct (Z.eqb_spec i j); [lia|auto].
Qed.

Section snapshots.
Context `{Crypto}.

Lemma do_call_kept id k older c t (v : Abs) x w : Forall (fun x => x.1 < id) older -> revertsAfter id c -> kept id k older v ->
  do_call c (mkWorld t v) = (Ok x, w) -> kept id k older (w_st w).
Proof.
  intros Hold Hc (newer & Es & Hnew & Hn) E. destruct c; cbn in E; try (injection E as <- <-; exists newer; done).
  - unfold runAbs, v_SubRefund, mbind, M_bind in E. cbn in E. destruct (Z.ltb _ _); [done|]. cbn in E. injection E as <- <-. by exists newer.
  - unfold runAbs, v_RevertToSnapshot, mbind, M_bind in E. cbn in E. rewrite Es, findSnapshot_app in E. destruct (findSnapshot id0 newer) as [[k' r]|] eqn:Ef.
    + cbn in E. injection E as <- <-. exists r. split_and!; try done. destruct (findSnapshot_suffix _ _ _ _ Ef) as [pre ->]. by apply Forall_app in Hnew as [_ ?].
    + destruct (findSnapshot id0 ((id, k) :: older)) as [[k' r]|] eqn:Ef'; [|discriminate E]. exfalso. exact (findSnapshot_lt id0 id k older _ Hold Hc Ef').
  - injection E as <- <-. exists ((v_next v, v_core v) :: newer). cbn. rewrite Es. split_and!; [done|by constructor|lia].
Qed.

Lemma do_calls_kept id k older calls t (v : Abs) x w : Forall (fun x => x.1 < id) older -> Forall (revertsAfter id) calls -> kept id k older v ->
  do_calls calls (mkWorld t v) = (Ok x, w) -> kept id k older (w_st w).
Proof.
  intros Hold. revert t v x w. induction calls as [|c calls IH]; intros t v x w Hc Hk E; [by injection E as <- <-|]. apply Forall_cons in Hc as [Hc Hcs].
  cbn in E. unfold mbind, M_bind in E. destruct (do_call c _) as [[a|e|p] [t1 v1]] eqn:E1; [|done..]. pose proof (do_call_kept _ _ _ _ _ _ _ _ Hold Hc Hk E1) as Hk1.
  destruct (do_calls calls _) as [[r|e|p] w2] eqn:E2; [|done..]. injection E as <- <-. by eapply IH.
Qed.

Lemma kept_found id k older v : kept id k older v -> findSnapshot id (v_snapshots v) = Some (k, older).
Proof.
  intros (newer & -> & Hnew & _). induction Hnew as [|[i x] newer Hi Hnew IH]; cbn; [by rewrite Z.eqb_refl|]. cbn in *. by destruct (Z.eqb_spec i id); [lia|].
Qed.

Lemma do_call_tx c t (v : Abs) x w : do_call c (mkWorld t v) = (Ok x, w) -> v_thash (w_st w) = v_thash v /\ v_txIndex (w_st w) = v_txIndex v.
Proof.
  intros E. destruct c; cbn in E; try (injection E as <- <-; done).
  - unfold runAbs, v_SubRefund, mbind, M_bind in E. cbn in E. destruct (Z.ltb _ _); [done|]. cbn in E. by injection E as <- <-.
  - unfold runAbs, v_RevertToSnapshot, mbind, M_bind in E. cbn in E. destruct (findSnapshot _ _) as [[k' r]|]; [|done]. by injection E as <- <-.
Qed.
Lemma do_calls_tx calls t (v : Abs) x w : do_calls calls (mkWorld t v) = (Ok x, w) -> v_thash (w_st w) = v_thash v /\ v_txIndex (w_st w) = v_txIndex v.
Proof.
  revert t v x w. induction calls as [|c calls IH]; intros t v x w E; [by injection E as <- <-|]. cbn in E. unfold mbind, M_bind in E.
  destruct (do_call c _) as [[a|e|p] [t1 v1]] eqn:E1; [|done..]. destruct (do_calls calls _) as [[r|e|p] w2] eqn:E2; [|done..]. injection E as <- <-.
  apply do_call_tx in E1. apply IH in E2. cbn in *. naive_solver congruence.
Qed.
End snapshots.

(** * Theorems *)

Section theorems.
Context `{Crypto} {T N : Type} `{StateDatabase T N} `{!BaseState T N}.

Lemma older_ids (s : sdb T N) v : represents s v -> Forall (fun x => x.1 < v_next v) (v_snapshots v).
Proof.
  intros [_ (ls & _ & Hrev) _ _ [En Hlt] _ _]. rewrite En. apply Forall_rev in Hlt. revert Hlt. induction Hrev as [|r x revs snaps Hr Hf IH]; intros Hlt; [done|].
  apply Forall_cons in Hlt as [Hr' Hlt]. constructor; [|auto]. by destruct Hr as [-> _].
Qed.

Lemma snapshot_restores t (s : sdb T N) v calls answers w : represents s v -> Forall (revertsAfter (v_next v)) calls ->
  do_calls (cSnapshot :: calls) (mkWorld t s) = (Ok answers, w) ->
  exists s', db_RevertToSnapshot (v_next v) w = (Ok (), mkWorld t s') /\ core_of s' = core_of s /\ exists n, represents s' (v <| v_next := n |>).
Proof.
  intros Hr Hc E. pose proof (do_calls_agrees (cSnapshot :: calls) t s v Hr) as Hag.
  destruct (do_calls (cSnapshot :: calls) (mkWorld t v)) as [[x|e|p] [t1 v1]] eqn:Ev; [|done|destruct Hag as (q & w' & Hq); congruence].
  destruct Hag as (s1 & E1 & Hr1 & Ht). cbn in Ht, Hr1. subst t1. rewrite E in E1. injection E1 as -> ->.
  assert (Hk : kept (v_next v) (v_core v) (v_snapshots v) v1).
  { cbn in Ev. unfold mbind, M_bind in Ev. cbn in Ev. destruct (do_calls calls _) as [[r|e|p] w2] eqn:E2; [|done..]. injection Ev as _ ->.
    refine (do_calls_kept _ _ _ _ _ _ _ _ _ Hc _ E2); [by eapply older_ids|]. exists []. cbn. split_and!; [done|done|lia]. }
  pose proof (db_RevertToSnapshot_spec (v_next v) t s1 v1 Hr1) as Hrev. unfold v_RevertToSnapshot in Hrev. rewrite (kept_found _ _ _ _ Hk) in Hrev.
  destruct Hrev as (s' & E' & Hr'). exists s'. split; [done|]. apply do_calls_tx in Ev as [Eh Ei]. cbn in Eh, Ei. split.
  - rewrite <- (rp_core _ _ Hr), <- (rp_core _ _ Hr'). done.
  - exists (v_next v1). destruct v, v1. cbn in *. by subst.
Qed.
End theorems.

(** ** A base state for closed examples: one contract with one slot *)

Module Sample.
Definition prefixHash : Crypto.
Proof.
  refine {| sha3_keccak256 := fun b => take 32 (b ++ replicate 32 Byte.x00) |}. intros b. rewrite length_take, length_app, length_replicate. lia.
Defined.
#[local] Existing Instance prefixHash.

Lemma prefixHash_addr (a : Address) : Keccak256Hash [arr_bytes a] = a.
Proof.
  apply arr_bytes_inj. rewrite Keccak256Hash_bytes. unfold Keccak256. cbn [concat app sha3_keccak256 prefixHash]. rewrite app_nil_r.
  apply take_app_length'. symmetry. apply arr_bytes_length.
Qed.

Definition hash (n : Z) : Hash := BytesToHash [bZ n].
Definition contract : Address := hash 1.
Definition code : list byte := [Byte.x60; Byte.x00].
Definition acc : Z * Z * Hash * list byte := (1, 100, hash 5, arr_bytes (hash 6)).
Definition accEnc : list byte := enc (to_rval acc).

Lemma accEnc_decodes : rlp_DecodeBytes accEnc = Ok acc.
Proof. apply (rlp_DecodeBytes_enc acc); [|by vm_compute]. apply has_typeb_sound. by vm_compute. Qed.

Abbreviation trie := (gmap (list byte) (list byte)).
Definition accounts : trie := {[arr_bytes contract := accEnc]}.
Definition storage (ah r : Hash) : trie := if decide (ah = contract /\ r = hash 5) then {[arr_bytes (hash 2) := [Byte.x07]]} else ∅.
Definition slots (ah r : Hash) : gmap Hash Hash := if decide (ah = contract /\ r = hash 5) then {[hash 2 := hash 7]} else ∅.

#[local] Instance database : StateDatabase trie unit := {|
  TryGet k := gets (fun t => default [] (t !! k));
  TryUpdate k v := modify <[k := v]>;
  TryDelete k := modify (delete k);
  trie_Hash := mret HashZero;
  OpenStorageTrie ah r := Ok (storage ah r);
  ContractCode ah h := if decide (h = hash 6) then Ok code else Fail (ErrorsNew "not found");
  ContractCodeSize ah h := if decide (h = hash 6) then Ok (len code) else Fail (ErrorsNew "not found");
  snap_Account _ _ := Fail (ErrorsNew "not covered yet");
  snap_Storage _ _ _ := Fail (ErrorsNew "not covered yet");
|}.

#[local] Instance base : BaseState trie unit.
Proof.
  refine {| b_accounts := {[contract := acc]}; b_storage := slots; b_code := fun _ _ => code; accountTrie := fun t => t = accounts; storageTrie := fun ah r t => t = storage ah r |}.
  - intros n t a ->. do 2 eexists. split; [reflexivity|]. split; [done|]. cbn [w_st]. unfold accounts. destruct (decide (a = contract)) as [->|Ha].
    + rewrite !lookup_singleton_eq. split; [by vm_compute|]. exact accEnc_decodes.
    + assert (arr_bytes contract <> arr_bytes a) by (intros E; apply arr_bytes_inj in E; congruence). cbn [w_st]. by rewrite !lookup_singleton_ne by congruence.
  - intros a r _. by eexists.
  - intros n ah r t k ->. do 2 eexists. split; [reflexivity|]. split; [done|]. cbn [w_st]. unfold storage, slots, slot. destruct (decide _) as [[-> ->]|_]; [|done].
    destruct (decide (k = hash 2)) as [->|Hk].
    + rewrite !lookup_singleton_eq. cbn. do 3 eexists. split; [reflexivity|]. by apply arr_bytes_inj.
    + assert (arr_bytes (hash 2) <> arr_bytes k) by (intros E; apply arr_bytes_inj in E; congruence). cbn [w_st]. by rewrite !lookup_singleton_ne by congruence.
  - intros a n b r c Ha Hc. apply lookup_singleton_Some in Ha as [<- Ha]. assert (c = arr_bytes (hash 6)) as -> by (unfold acc in Ha; congruence). cbn [ContractCode ContractCodeSize database]. unfold BytesToHash. rewrite BytesToArr_arr_bytes. by rewrite !decide_True by done.
  - done.
  - done.
  - intros a n b r c Ha. apply lookup_singleton_Some in Ha as [<- Ha]. assert (c = arr_bytes (hash 6)) as -> by (unfold acc in Ha; congruence). apply arr_bytes_length.
  - intros ah. unfold slots. rewrite decide_False; [done|]. intros [_ E]. apply (f_equal arr_bytes) in E. vm_compute in E. discriminate.
  - intros a b. rewrite !prefixHash_addr. done.
Defined.
End Sample.

(** C8: The journaled state database refines the abstract one: opened over a trie, it
    answers any sequence of calls of the interface exactly as finite maps with a stack
    of copies do, and it panics exactly when they do (an unknown snapshot, a refund
    below zero). *)
Theorem statedb_refines `{Crypto} {T N : Type} `{StateDatabase T N} `{!BaseState T N} root (tr : T) (snap : option N) calls t :
  accountTrie tr ->
  match do_calls calls (mkWorld t openedAbs) with
  | (Ok answers, w) => exists s', do_calls calls (mkWorld t (db_New root tr snap)) = (Ok answers, mkWorld t s') /\ represents s' (w_st w)
  | (Fail _, _) => False
  | (Panic _, _) => exists q w', do_calls calls (mkWorld t (db_New root tr snap)) = (Panic q, w')
  end.
Proof.
  intros Htr. pose proof (do_calls_agrees calls t (db_New root tr snap) openedAbs (db_New_represents root tr snap Htr)) as Hag.
  destruct (do_calls calls (mkWorld t openedAbs)) as [[x|e|p] w]; [|done|done]. destruct Hag as (s' & ? & ? & _). by exists s'.
Qed.

Lemma statedb_refines_witness :
  let _ := Sample.prefixHash in let _ := Sample.database in let _ := Sample.base in
  let calls := [cSnapshot; cSubBalance Sample.contract 30; cGetBalance Sample.contract; cSetState Sample.contract (Sample.hash 2) (Sample.hash 8);
                cCreateAccount Sample.contract; cGetNonce Sample.contract; cRevertToSnapshot 0; cGetBalance Sample.contract; cGetNonce Sample.contract] in
  fst (do_calls calls (mkWorld 0 openedAbs)) = Ok [aInt 0; aNone; aInt 70; aNone; aNone; aInt 0; aNone; aInt 100; aInt 1] /\
  match do_calls calls (mkWorld 0 openedAbs) with
  | (Ok answers, w) => exists s', do_calls calls (mkWorld 0 (db_New HashZero Sample.accounts None)) = (Ok answers, mkWorld 0 s') /\ represents s' (w_st w)
  | (Fail _, _) => False
  | (Panic _, _) => exists q w', do_calls calls (mkWorld 0 (db_New HashZero Sample.accounts None)) = (Panic q, w')
  end.
Proof.
  intros inst1 inst2 inst3 calls. split; [vm_compute; reflexivity|]. exact (statedb_refines HashZero Sample.accounts None calls 0 eq_refl).
Defined.

(** C9: A snapshot brings back the state it was taken of: whatever calls come between,
    as long as they do not revert to it or to an older one, reverting to it restores the
    accounts, storage, code, refund counter, access lists, logs and preimages, and leaves
    the older snapshots as they were. *)
Theorem RevertToSnapshot_restores `{Crypto} {T N : Type} `{StateDatabase T N} `{!BaseState T N} t (s : sdb T N) v calls answers w :
  represents s v -> Forall (revertsAfter (v_next v)) calls ->
  do_calls (cSnapshot :: calls) (mkWorld t s) = (Ok answers, w) ->
  exists s', db_RevertToSnapshot (v_next v) w = (Ok (), mkWorld t s') /\ core_of s' = core_of s /\ exists n, represents s' (v <| v_next := n |>).
Proof. exact (snapshot_restores t s v calls answers w). Qed.

Definition sampleChanges : list call :=
  [cSubBalance Sample.contract 30; cSetState Sample.contract (Sample.hash 2) (Sample.hash 8); cSnapshot; cSuicide Sample.contract; cRevertToSnapshot 1;
   cCreateAccount Sample.contract; cSetCode Sample.contract [Byte.x00]; cAddSlotToAccessList (Sample.hash 9) (Sample.hash 3); cAddRefund 5].
Lemma RevertToSnapshot_restores_witness :
  let _ := Sample.prefixHash in let _ := Sample.database in let _ := Sample.base in
  let s := db_New HashZero Sample.accounts None in
  let r := do_calls (cSnapshot :: sampleChanges) (mkWorld 0 s) in
  represents s openedAbs /\ exists s', db_RevertToSnapshot 0 (snd r) = (Ok (), mkWorld 0 s') /\ core_of s' = core_of s /\ exists n, represents s' (openedAbs <| v_next := n |>).
Proof.
  intros inst1 inst2 inst3 s r. assert (Hr : represents s openedAbs) by exact (db_New_represents HashZero Sample.accounts None eq_refl). split; [exact Hr|].
  apply (RevertToSnapshot_restores 0 s openedAbs sampleChanges [aInt 0; aNone; aNone; aInt 1; aBool true; aNone; aNone; aNone; aNone; aNone] (snd r)).
  - exact Hr.
  - repeat constructor.
  - assert (E : fst r = Ok [aInt 0; aNone; aNone; aInt 1; aBool true; aNone; aNone; aNone; aNone; aNone]) by (vm_compute; reflexivity).
    rewrite <- E. apply surjective_pairing.
Defined.

(** C10: Finalising a transaction gives a database for the next one: no change can be
    undone any more, the refund counter restarts, the accounts touched by a change in
    the journal disappear if they were destructed (or are empty, where those are
    deleted), and for the other touched accounts the storage written becomes the
    committed storage. *)
Theorem Finalise_correct `{GoRuntime} `{Crypto} {T N : Type} `{StateDatabase T N} `{!BaseState T N} del t (s : sdb T N) v :
  represents s v ->
  exists t' s', db_Finalise del (mkWorld t s) = (Ok (), mkWorld t' s') /\ represents s' (finalisedAbs del s v).
Proof. apply db_Finalise_spec. Qed.

(** A transfer to a new account, a written slot and a refund. *)
Definition sampleTransaction : list call :=
  [cSubBalance Sample.contract 30; cAddBalance (Sample.hash 9) 30; cSetState Sample.contract (Sample.hash 2) (Sample.hash 8); cAddRefund 5].
Lemma Finalise_correct_witness :
  let _ := steadyRuntime in let _ := Sample.prefixHash in let _ := Sample.database in let _ := Sample.base in
  let s := w_st (snd (do_calls sampleTransaction (mkWorld 0 (db_New HashZero Sample.accounts (Some ()))))) in
  let v := w_st (snd (do_calls sampleTransaction (mkWorld 0 openedAbs))) in
  length (entries (s_journal s)) = 5%nat /\ k_refund (v_core v) = 5 /\ represents s v /\
  exists t' s', db_Finalise true (mkWorld 0 s) = (Ok (), mkWorld t' s') /\ represents s' (finalisedAbs true s v) /\ k_refund (v_core (finalisedAbs true s v)) = 0.
Proof.
  intros inst0 inst1 inst2 inst3 s v. split; [vm_compute; reflexivity|]. split; [vm_compute; reflexivity|].
  assert (Hr : represents s v).
  { pose proof (do_calls_agrees sampleTransaction 0%nat (db_New HashZero Sample.accounts (Some ())) openedAbs (db_New_represents HashZero Sample.accounts (Some ()) eq_refl)) as Hag.
    unfold s, v. assert (Hok : is_ok (fst (do_calls sampleTransaction (mkWorld 0 openedAbs))) = true) by (vm_compute; reflexivity). revert Hag Hok.
    destruct (do_calls sampleTransaction (mkWorld 0 openedAbs)) as [[x|er|q] w]; [|discriminate..]. intros (s' & E & Hr & _) _. rewrite E. exact Hr. }
  split; [exact Hr|]. destruct (Finalise_correct true 0 s v Hr) as (t' & s' & E & Hr'). exists t', s'. split; [exact E|]. split; [exact Hr'|]. vm_compute. reflexivity.
Defined.
