(* ===== verification/Context.v ===== *)
(** What the consensus engine reads from the chain: the validators, the finalised
    transactions and the consensus context, a 32-byte value per block kept in a
    system contract that seeds the selection of proposers.

    Models src/consensus/proofofstake/context.go (the keys) and the part of
    [Finalize] in src/consensus/proofofstake/proofofstake.go that writes and
    deletes contexts; the theorem shows that the context a block needs is there. *)

From stdpp Require Import pretty.
From S2P Require Import Prelude Common Selection.
From Stdlib Require Import Strings.Byte.
#[local] Open Scope Z_scope.

(** * The chain, as the engine reads it

    [GetValidatorsFn], [ListValidatorsAsMapFn], [DoesFinalizedTransactionExistFn]
    and [GetBlockConsensusContextFn]: calls into the state database. *)
Class Chain := {
  getValidatorsFn : nat -> Hash -> gmap Address Z + error;
  listValidatorsFn : nat -> Hash -> gmap Address ValidatorDetailsV2 + error;
  doesFinalizedTransactionExistFn : nat -> Hash -> bool + error;
  getBlockConsensusContext : nat -> string -> Hash -> byteArray 32 + error;
}.

(** [strconv.Itoa], [strconv.FormatUint(_, 10)]. *)
Definition Itoa (n : Z) : string := pretty n.

(** * Keys *)

Definition GetConsensusContextKey (blockNumber : Z) : outcome string :=
  if Z.leb blockNumber CONSENSUS_CONTEXT_START_BLOCK
  then Fail (ErrorsNew "GetBlockConsensusContextFn blockNumber below CONSENSUS_CONTEXT_START_BLOCK")
  else Ok ("bc-" +:+ Itoa blockNumber)%string.

Definition GetBlockConsensusContextKeyForBlock (currrentBlockNumber : Z) : outcome string :=
  if Z.ltb currrentBlockNumber CONTEXT_BASED_START_BLOCK
  then Fail (ErrorsNew "GetBlockConsensusContextFn blockNumber below CONTEXT_BASED_START_BLOCK")
  else if Z.ltb (CONSENSUS_CONTEXT_START_BLOCK + CONSENSUS_CONTEXT_MAX_BLOCK_COUNT) currrentBlockNumber
  then GetConsensusContextKey (currrentBlockNumber - CONSENSUS_CONTEXT_MAX_BLOCK_COUNT)
  else GetConsensusContextKey (currrentBlockNumber - CONTEXT_BASED_BLOCK_THRESHOLD).

(** * The contract

    The storage of the consensus context contract is a map from keys to values;
    [setContext] and [deleteContext] write it. *)
Abbreviation ContextStore := (gmap string (byteArray 32)).

Definition SetConsensusContext (key : string) (context : byteArray 32) (st : ContextStore) : ContextStore :=
  <[key := context]> st.
Definition DeleteConsensusContext (key : string) (st : ContextStore) : ContextStore := delete key st.

(** The consensus context part of [Finalize] for block [number]. *)
Definition finalizeContext (number : Z) (parentHash : Hash) (st : ContextStore) : outcome ContextStore :=
  if Z.ltb CONSENSUS_CONTEXT_START_BLOCK number then
    match GetConsensusContextKey number with
    | Ok key =>
        let st := SetConsensusContext key parentHash st in
        if Z.ltb (CONSENSUS_CONTEXT_START_BLOCK + CONSENSUS_CONTEXT_MAX_BLOCK_COUNT) number then
          match GetConsensusContextKey (number - CONSENSUS_CONTEXT_MAX_BLOCK_COUNT) with
          | Ok oldKey => Ok (DeleteConsensusContext oldKey st)
          | Fail e => Fail e
          | Panic p => Panic p
          end
        else Ok st
    | Fail e => Fail e
    | Panic p => Panic p
    end
  else Ok st.

(** The store after the blocks 1, 2, ..., [n] of a chain are finalised, where
    [parent i] is the parent hash of block [i]. *)
Fixpoint finalizeBlocks (parent : Z -> Hash) (n : nat) : outcome ContextStore :=
  match n with
  | O => Ok ∅
  | S n => match finalizeBlocks parent n with
           | Ok st => finalizeContext (Z.of_nat (S n)) (parent (Z.of_nat (S n))) st
           | Fail e => Fail e
           | Panic p => Panic p
           end
  end.

(** * Theorems *)

Lemma GetConsensusContextKey_ok n : CONSENSUS_CONTEXT_START_BLOCK < n ->
  GetConsensusContextKey n = Ok ("bc-" +:+ Itoa n)%string.
Proof. intros Hn. unfold GetConsensusContextKey. destruct (Z.leb_spec n CONSENSUS_CONTEXT_START_BLOCK); [lia|done]. Qed.

Definition contextKey (n : Z) : string := ("bc-" +:+ Itoa n)%string.

#[export] Instance contextKey_inj : Inj (=) (=) contextKey.
Proof. intros a b Hab. unfold contextKey in Hab. simplify_eq/=. by apply (inj pretty). Qed.

(** What is stored after block [n]: the parent hashes of the last
    [CONSENSUS_CONTEXT_MAX_BLOCK_COUNT] blocks above the start block. *)
Definition stored (n i : Z) : bool :=
  Z.ltb CONSENSUS_CONTEXT_START_BLOCK i && Z.leb i n && Z.ltb (n - CONSENSUS_CONTEXT_MAX_BLOCK_COUNT) i.

Lemma finalizeContext_lookup n parentHash st :
  exists st', finalizeContext n parentHash st = Ok st' /\
  forall i, CONSENSUS_CONTEXT_START_BLOCK < i -> st' !! contextKey i =
    if Z.ltb CONSENSUS_CONTEXT_START_BLOCK n then
      if Z.ltb (CONSENSUS_CONTEXT_START_BLOCK + CONSENSUS_CONTEXT_MAX_BLOCK_COUNT) n
         && Z.eqb i (n - CONSENSUS_CONTEXT_MAX_BLOCK_COUNT) then None
      else if Z.eqb i n then Some parentHash else st !! contextKey i
    else st !! contextKey i.
Proof.
  unfold finalizeContext, SetConsensusContext, DeleteConsensusContext.
  destruct (Z.ltb_spec CONSENSUS_CONTEXT_START_BLOCK n) as [Hn|Hn]; [|by eexists].
  rewrite GetConsensusContextKey_ok by done. fold (contextKey n).
  destruct (Z.ltb_spec (CONSENSUS_CONTEXT_START_BLOCK + CONSENSUS_CONTEXT_MAX_BLOCK_COUNT) n) as [Hm|Hm].
  - rewrite GetConsensusContextKey_ok by lia. fold (contextKey (n - CONSENSUS_CONTEXT_MAX_BLOCK_COUNT)).
    eexists. split; [done|]. intros i Hi. cbn [andb].
    destruct (Z.eqb_spec i (n - CONSENSUS_CONTEXT_MAX_BLOCK_COUNT)) as [->|Hne]; [apply lookup_delete_eq|].
    rewrite lookup_delete_ne by (intros ?%(inj contextKey); lia).
    destruct (Z.eqb_spec i n) as [->|Hne']; [apply lookup_insert_eq|].
    apply lookup_insert_ne. intros ?%(inj contextKey). lia.
  - eexists. split; [done|]. intros i Hi. cbn [andb].
    destruct (Z.eqb_spec i n) as [->|Hne']; [apply lookup_insert_eq|].
    apply lookup_insert_ne. intros ?%(inj contextKey). lia.
Qed.

(** The store of a chain of [n] blocks, key by key. *)
Lemma finalizeBlocks_lookup parent n : exists st, finalizeBlocks parent n = Ok st /\
  forall i, CONSENSUS_CONTEXT_START_BLOCK < i ->
    st !! contextKey i = if stored (Z.of_nat n) i then Some (parent i) else None.
Proof.
  induction n as [|n (st & Hst & IH)].
  - exists ∅. split; [done|]. intros i Hi. rewrite lookup_empty. unfold stored.
    destruct (Z.leb_spec i (Z.of_nat 0)); [unfold CONSENSUS_CONTEXT_START_BLOCK, FULL_SIGN_PROPOSAL_CUTOFF_BLOCK in Hi; lia|].
    by rewrite andb_false_r.
  - cbn [finalizeBlocks]. rewrite Hst.
    destruct (finalizeContext_lookup (Z.of_nat (S n)) (parent (Z.of_nat (S n))) st) as (st' & Hst' & Hl).
    exists st'. split; [done|]. intros i Hi. rewrite Hl by done.
    rewrite IH by done. unfold stored, CONSENSUS_CONTEXT_MAX_BLOCK_COUNT.
    repeat match goal with
    | |- context [Z.ltb ?a ?b] => destruct (Z.ltb_spec a b)
    | |- context [Z.leb ?a ?b] => destruct (Z.leb_spec a b)
    | |- context [Z.eqb ?a ?b] => destruct (Z.eqb_spec a b)
    end; cbn [andb]; subst; try done; lia.
Qed.

(** C37: the consensus context that seeds the proposer selection of block [b] is
    always in the contract when the block is built on its parent: after the
    blocks 1 to [b - 1] are finalised, the key of [b] holds the parent hash of an
    earlier block, the oldest one kept once the window is full. *)
Theorem consensus_context_available parent (b : nat)
  (Hb : CONTEXT_BASED_START_BLOCK <= Z.of_nat b) :
  exists key st, GetBlockConsensusContextKeyForBlock (Z.of_nat b) = Ok key
    /\ finalizeBlocks parent (Nat.pred b) = Ok st
    /\ st !! key = Some (parent (Z.of_nat b -
         (if Z.ltb (CONSENSUS_CONTEXT_START_BLOCK + CONSENSUS_CONTEXT_MAX_BLOCK_COUNT) (Z.of_nat b)
          then CONSENSUS_CONTEXT_MAX_BLOCK_COUNT else CONTEXT_BASED_BLOCK_THRESHOLD))).
Proof.
  destruct (finalizeBlocks_lookup parent (Nat.pred b)) as (st & Hst & Hl).
  unfold GetBlockConsensusContextKeyForBlock.
  unfold CONTEXT_BASED_START_BLOCK, CONSENSUS_CONTEXT_START_BLOCK, FULL_SIGN_PROPOSAL_CUTOFF_BLOCK, CONSENSUS_CONTEXT_MAX_BLOCK_COUNT,
    CONTEXT_BASED_BLOCK_THRESHOLD in *.
  destruct (Z.ltb_spec (Z.of_nat b) 536000); [lia|].
  set (d := if Z.ltb (421888 + 512000) (Z.of_nat b) then 512000 else 64000).
  assert (Hd : 421888 < Z.of_nat b - d /\ 0 < d <= 512000).
  { unfold d. destruct (Z.ltb_spec (421888 + 512000) (Z.of_nat b)); lia. }
  exists (contextKey (Z.of_nat b - d)), st. split_and!; [|done|].
  - unfold d. destruct (Z.ltb _ _); apply GetConsensusContextKey_ok;
      unfold CONSENSUS_CONTEXT_START_BLOCK, FULL_SIGN_PROPOSAL_CUTOFF_BLOCK; unfold d in Hd; lia.
  - rewrite Hl by lia. unfold stored, CONSENSUS_CONTEXT_START_BLOCK, FULL_SIGN_PROPOSAL_CUTOFF_BLOCK, CONSENSUS_CONTEXT_MAX_BLOCK_COUNT.
    replace (_ && _ && _) with true; [done|]. symmetry. rewrite !andb_true_iff, !Z.ltb_lt, Z.leb_le. lia.
Qed.

Lemma consensus_context_available_witness :
  exists key st, GetBlockConsensusContextKeyForBlock (Z.of_nat (Z.to_nat 1000000)) = Ok key
    /\ finalizeBlocks (fun _ => ZERO_HASH) (Nat.pred (Z.to_nat 1000000)) = Ok st
    /\ st !! key = Some ZERO_HASH.
Proof.
  apply (consensus_context_available (fun _ => ZERO_HASH) (Z.to_nat 1000000)).
  rewrite Z2Nat.id; unfold CONTEXT_BASED_START_BLOCK; lia.
Defined.
