(* ===== verification/BlockValidator.v ===== *)
(** Validation of a block's consensus data: the packets that a block carries as
    the proof of its decision are parsed, their signatures recovered, and the
    votes are counted against the deposits of the validators.

    Models src/consensus/proofofstake/BlockValidator.go. *)

From S2P Require Import Prelude Common Selection Rlp RlpEnc RlpDec Packets Context.
From Stdlib Require Import Strings.Byte.

(** * Data *)

Record PacketMap := mkPacketMap {
  pm_round : Z;
  proposalDetailsMap : gmap Address ProposalDetails;
  proposalAckDetailsMap : gmap Address ProposalAckDetails;
  precommitDetailsMap : gmap Address PreCommitDetails;
  commitDetailsMap : gmap Address CommitDetails;
}.

#[export] Instance eta_PacketMap : Eta PacketMap := fun m =>
  mkPacketMap (pm_round m) (proposalDetailsMap m) (proposalAckDetailsMap m) (precommitDetailsMap m) (commitDetailsMap m).
#[export] Instance set_proposalDetailsMap : Setter proposalDetailsMap := ltac:(derive_setter).
#[export] Instance set_proposalAckDetailsMap : Setter proposalAckDetailsMap := ltac:(derive_setter).
#[export] Instance set_precommitDetailsMap : Setter precommitDetailsMap := ltac:(derive_setter).
#[export] Instance set_commitDetailsMap : Setter commitDetailsMap := ltac:(derive_setter).

(** PacketHandler.go *)
Record BlockConsensusData := mkBlockConsensusData {
  BlockProposer : Address;
  bcd_VoteType : Z;
  bcd_ProposalHash : Hash;
  bcd_PrecommitHash : Hash;
  SlashedBlockProposers : slice Address;
  bcd_Round : Z;
  SelectedTransactions : slice Hash;
  bcd_BlockTime : Z;
}.

Record BlockAdditionalConsensusData := mkBlockAdditionalConsensusData {
  ConsensusPackets : slice ConsensusPacket;
  InitTime : Z;
}.

(** ** RLP codecs

    On the wire no slice is nil: the decoder makes a slice for every list and
    byte string, the encoder writes a nil slice as an empty one. *)
Record BlockConsensusDataWire := mkBlockConsensusDataWire {
  w_BlockProposer : Address;
  w_VoteType : Z;
  w_ProposalHash : Hash;
  w_PrecommitHash : Hash;
  w_SlashedBlockProposers : list Address;
  w_Round : Z;
  w_SelectedTransactions : list Hash;
  w_BlockTime : Z;
}.

Record WirePacket := mkWirePacket { w_ParentHash : Hash; w_Signature : list byte; w_ConsensusData : list byte }.

Record BlockAdditionalConsensusDataWire := mkBlockAdditionalConsensusDataWire {
  w_ConsensusPackets : list WirePacket;
  w_InitTime : Z;
}.

#[export] Instance rlp_BlockConsensusData : RlpStruct BlockConsensusDataWire := {|
  rlp_type := TStruct [TByteArray 32; TUint 8; TByteArray 32; TByteArray 32; TSlice (TByteArray 32); TUint 8;
                       TSlice (TByteArray 32); TUint 64];
  to_rval := fun d => VList [v_arr (w_BlockProposer d); VUint (w_VoteType d); v_arr (w_ProposalHash d);
    v_arr (w_PrecommitHash d); v_arrs (w_SlashedBlockProposers d); VUint (w_Round d);
    v_arrs (w_SelectedTransactions d); VUint (w_BlockTime d)];
  of_rval := fun v => match v with
    | VList [p; VUint vote; ph; pch; sl; VUint round; txns; VUint time] =>
        p ← of_v_arr p; ph ← of_v_arr ph; pch ← of_v_arr pch; sl ← of_v_arrs sl; txns ← of_v_arrs txns;
        Some (mkBlockConsensusDataWire p vote ph pch sl round txns time)
    | _ => None end;
  rlp_wf := ltac:(simpl; naive_solver);
  of_to_rval := ltac:(rlp_of_to);
  to_of_rval := ltac:(rlp_to_of);
|}.

Definition v_packet (p : WirePacket) : rval :=
  VList [v_arr (w_ParentHash p); VBytes (w_Signature p); VBytes (w_ConsensusData p)].
Definition of_v_packet (v : rval) : option WirePacket :=
  match v with
  | VList [h; VBytes sg; VBytes cd] => h ← of_v_arr h; Some (mkWirePacket h sg cd)
  | _ => None
  end.
Definition packet_type : rtype := TStruct [TByteArray 32; TBytes; TBytes].

Lemma of_v_packets l : mapM of_v_packet (map v_packet l) = Some l.
Proof.
  apply mapM_Some. induction l as [|[h sg cd] l IH]; simpl; constructor; [|done].
  cbn -[of_v_arr v_arr]. by rewrite of_v_arr_v_arr.
Qed.

Lemma v_packets_of l : Forall (has_type packet_type) l ->
  exists l', mapM of_v_packet l = Some l' /\ map v_packet l' = l.
Proof.
  induction 1 as [|v l Hv _ (l' & Hl' & <-)]; [by exists []|].
  destruct v as [| | | |vs]; try done. destruct Hv as [Hv _].
  destruct vs as [|h vs]; [done|]. destruct Hv as [Hh Hv].
  destruct vs as [|sg vs]; [done|]. destruct Hv as [Hsg Hv].
  destruct vs as [|cd vs]; [done|]. destruct Hv as [Hcd Hv]. destruct vs; [|done].
  destruct sg as [| |sg| |]; try done. destruct cd as [| |cd| |]; try done.
  destruct (v_arr_of_v_arr h Hh) as (a & Ha & <-). exists (mkWirePacket a sg cd :: l').
  split; [|done]. rewrite mapM_Some in *. constructor; [|done]. cbn -[of_v_arr v_arr]. by rewrite Ha.
Qed.

Lemma rlp_to_of_additional v :
  has_type (TStruct [TSlice packet_type; TUint 64]) v ->
  exists a, (match v with
    | VList [VList ps; VUint time] => ps ← mapM of_v_packet ps; Some (mkBlockAdditionalConsensusDataWire ps time)
    | _ => None end) = Some a
    /\ VList [VList (map v_packet (w_ConsensusPackets a)); VUint (w_InitTime a)] = v.
Proof.
  destruct v as [| | | |vs]; try done. intros [Hv _].
  destruct vs as [|ps vs]; [done|]. destruct Hv as [Hps Hv].
  destruct vs as [|time vs]; [done|]. destruct Hv as [Ht Hv]. destruct vs; [|done].
  destruct time; try done. destruct ps as [| | | |ps]; try done. destruct Hps as [Hps _].
  destruct (v_packets_of ps Hps) as (l & Hl & <-). exists (mkBlockAdditionalConsensusDataWire l i).
  by rewrite Hl.
Qed.

#[export] Instance rlp_BlockAdditionalConsensusData : RlpStruct BlockAdditionalConsensusDataWire := {|
  rlp_type := TStruct [TSlice packet_type; TUint 64];
  to_rval := fun d => VList [VList (map v_packet (w_ConsensusPackets d)); VUint (w_InitTime d)];
  of_rval := fun v => match v with
    | VList [VList ps; VUint time] => ps ← mapM of_v_packet ps; Some (mkBlockAdditionalConsensusDataWire ps time)
    | _ => None end;
  rlp_wf := ltac:(simpl; naive_solver);
  of_to_rval := ltac:(intros []; cbn -[mapM map]; by rewrite of_v_packets);
  to_of_rval := rlp_to_of_additional;
|}.

(** The values that decoding stores in the Go structs. *)
Definition bcd_of_wire (d : BlockConsensusDataWire) : BlockConsensusData :=
  mkBlockConsensusData (w_BlockProposer d) (w_VoteType d) (w_ProposalHash d) (w_PrecommitHash d)
    (Some (w_SlashedBlockProposers d)) (w_Round d) (Some (w_SelectedTransactions d)) (w_BlockTime d).
Definition packet_of_wire (p : WirePacket) : ConsensusPacket :=
  mkConsensusPacket (w_ParentHash p) (Some (w_Signature p)) (Some (w_ConsensusData p)).
Definition badd_of_wire (d : BlockAdditionalConsensusDataWire) : BlockAdditionalConsensusData :=
  mkBlockAdditionalConsensusData (Some (map packet_of_wire (w_ConsensusPackets d))) (w_InitTime d).

(** * Parsing *)

Section parse.
Context `{FloatConv} `{NodeConfig} `{Crypto} `{GoRuntime} `{SignatureAlgorithm}.

(** The public key that a packet's signature carries, once it verifies: full
    signatures on proposals are told apart by their length. *)
Definition recoverPublicKey {S} (packet : ConsensusPacket) (packetType : Z) : M S (list byte) :=
  let sig := data (Signature packet) in
  if Z.eqb packetType CONSENSUS_PACKET_TYPE_PROPOSE_BLOCK && negb (Z.eqb (len sig) SignatureWithPublicKeyLength) then
    pubKey ← check_err_as InvalidPacketErr (PublicKeyFromSignatureWithContext (digestHash packet) sig FULL_SIGN_CONTEXT);
    fail_if (negb (VerifyWithContext pubKey (digestHash packet) sig [bZ DILITHIUM_ED25519_SPHINCS_FULL_ID])) InvalidPacketErr;;
    mret pubKey
  else
    pubKey ← check_err (PublicKeyFromSignature (digestHash packet) sig);
    fail_if (negb (Verify pubKey (digestHash packet) sig)) InvalidPacketErr;;
    mret pubKey.

Definition newPacketMap (round : Z) : PacketMap := mkPacketMap round ∅ ∅ ∅ ∅.

Definition invalidRound (round : Z) : bool := Z.ltb round 1 || Z.ltb MAX_ROUND round.

Section packets.
Context (parentHash : Hash) (filteredValidatorDepositMap : gmap Address Z) (blockNumber : Z)
  (validatorDetailsMap : option (gmap Address ValidatorDetailsV2)) (consensusContext : Hash).

Definition parseProposal {S} (packetRoundMap : gmap Z PacketMap) (validator : Address)
    (packet : ConsensusPacket) : M S (gmap Z PacketMap) :=
  details ← lift (decodePayload packet);
  fail_if (invalidRound (pd_Round details)) (ErrorsNew "invalid round d");;
  blockProposer ← getBlockProposer parentHash filteredValidatorDepositMap (pd_Round details)
                    validatorDetailsMap blockNumber consensusContext;
  fail_if (negb (IsEqualTo blockProposer validator)) (ErrorsNew "invalid block proposer");;
  let packetMap := default (newPacketMap (pd_Round details)) (packetRoundMap !! pd_Round details) in
  fail_if (bool_decide (is_Some (proposalDetailsMap packetMap !! validator))) (ErrorsNew "duplicate proposal packet");;
  (* the block time is not copied *)
  mret (<[pd_Round details := packetMap <| proposalDetailsMap ::=
           <[validator := mkProposalDetails (Txns details) (pd_Round details) 0]> |>]> packetRoundMap).

Definition parseAck {S} (packetRoundMap : gmap Z PacketMap) (validator : Address)
    (packet : ConsensusPacket) : M S (gmap Z PacketMap) :=
  details ← lift (decodePayload packet);
  fail_if (invalidRound (pad_Round details)) (ErrorsNew "invalid round e");;
  let packetMap := default (newPacketMap (pad_Round details)) (packetRoundMap !! pad_Round details) in
  fail_if (bool_decide (is_Some (proposalAckDetailsMap packetMap !! validator))) (ErrorsNew "duplicate ack proposal packet");;
  let vote := ProposalAckVoteType details in
  fail_if (negb (Z.eqb vote VOTE_TYPE_NIL) && negb (Z.eqb vote VOTE_TYPE_OK)) (ErrorsNew "invalid vote type a");;
  fail_if (Z.eqb (pad_Round details) MAX_ROUND && negb (Z.eqb vote VOTE_TYPE_NIL)) (ErrorsNew "invalid vote type expecting nil");;
  mret (<[pad_Round details := packetMap <| proposalAckDetailsMap ::= <[validator := details]> |>]> packetRoundMap).

Definition parsePrecommit {S} (packetRoundMap : gmap Z PacketMap) (validator : Address)
    (packet : ConsensusPacket) : M S (gmap Z PacketMap) :=
  details ← lift (decodePayload packet);
  fail_if (invalidRound (pcd_Round details)) (ErrorsNew "invalid round c");;
  let packetMap := default (newPacketMap (pcd_Round details)) (packetRoundMap !! pcd_Round details) in
  fail_if (bool_decide (is_Some (precommitDetailsMap packetMap !! validator))) (ErrorsNew "duplicate precommit packet");;
  mret (<[pcd_Round details := packetMap <| precommitDetailsMap ::= <[validator := details]> |>]> packetRoundMap).

Definition parseCommit {S} (packetRoundMap : gmap Z PacketMap) (validator : Address)
    (packet : ConsensusPacket) : M S (gmap Z PacketMap) :=
  details ← lift (decodePayload packet);
  fail_if (invalidRound (cd_Round details)) (ErrorsNew "invalid roun 4");;
  let packetMap := default (newPacketMap (cd_Round details)) (packetRoundMap !! cd_Round details) in
  fail_if (bool_decide (is_Some (commitDetailsMap packetMap !! validator))) (ErrorsNew "duplicate commit packet");;
  mret (<[cd_Round details := packetMap <| commitDetailsMap ::= <[validator := details]> |>]> packetRoundMap).

(** One iteration of the loop of [ParseConsensusPackets]. *)
Definition parseOne {S} (packetRoundMap : gmap Z PacketMap) (packet : ConsensusPacket) : M S (gmap Z PacketMap) :=
  fail_if (negb (IsEqualTo (ParentHash packet) parentHash)) (ErrorsNew "unexpected parenthash");;
  fail_if (Z.eqb (len (data (Signature packet))) 0 || Z.eqb (len (data (ConsensusData packet))) 0)
    (ErrorsNew "invalid consensus packet, nil data");;
  packetType ← lift (getPacketType packet);
  pubKey ← recoverPublicKey packet packetType;
  validator ← check_err (PublicKeyToAddress pubKey);
  fail_if (bool_decide (filteredValidatorDepositMap !! validator = None)) (ErrorsNew "validator not part of block");;
  if Z.eqb packetType CONSENSUS_PACKET_TYPE_PROPOSE_BLOCK then parseProposal packetRoundMap validator packet
  else if Z.eqb packetType CONSENSUS_PACKET_TYPE_ACK_BLOCK_PROPOSAL then parseAck packetRoundMap validator packet
  else if Z.eqb packetType CONSENSUS_PACKET_TYPE_PRECOMMIT_BLOCK then parsePrecommit packetRoundMap validator packet
  else if Z.eqb packetType CONSENSUS_PACKET_TYPE_COMMIT_BLOCK then parseCommit packetRoundMap validator packet
  else fail (ErrorsNew "unknown packet type").

Definition ParseConsensusPackets {S} (packets : list ConsensusPacket) : M S (gmap Z PacketMap) :=
  foldM parseOne ∅ packets.
End packets.

(** * Counting the votes *)

(** The running deposit totals of the loop over the acknowledgements. *)
Record VoteTotals := mkVoteTotals { okVotesDepositValue : Z; nilVotesDepositValue : Z }.

Section votes.
Context (round voteType : Z) (valMap : gmap Address Z) (totalBlockDepositValue minDepositRequired : Z).

Definition countAck {S} (proposalHash : Hash) (tot : VoteTotals) (entry : Address * ProposalAckDetails) : M S VoteTotals :=
  let '(v, ack) := entry in
  match valMap !! v with
  | None => fail (ErrorsNew "unrecognized validator")
  | Some depositValue =>
      fail_if (negb (Z.eqb (pad_Round ack) round)) (ErrorsNew "invalid round f");;
      let checkTotal tot' :=
        fail_if (Z.ltb totalBlockDepositValue (SafeAddBigInt (nilVotesDepositValue tot') (okVotesDepositValue tot')))
          (ErrorsNew "invalid totalVotesDepositValue");;
        mret tot' in
      if Z.eqb (ProposalAckVoteType ack) VOTE_TYPE_NIL then
        if negb (IsEqualTo (pad_ProposalHash ack) proposalHash) then
          fail_if (negb (Z.eqb voteType VOTE_TYPE_OK)) (ErrorsNew "invalid proposal hash");;
          mret tot
        else checkTotal (mkVoteTotals (okVotesDepositValue tot) (SafeAddBigInt (nilVotesDepositValue tot) depositValue))
      else if Z.eqb (ProposalAckVoteType ack) VOTE_TYPE_OK then
        if negb (IsEqualTo (pad_ProposalHash ack) proposalHash) then mret tot
        else checkTotal (mkVoteTotals (SafeAddBigInt (okVotesDepositValue tot) depositValue) (nilVotesDepositValue tot))
      else fail (ErrorsNew "invalid vote type b")
  end.

(** The loops over the precommits and over the commits: a hash that differs from
    the expected one builds an error value and drops it. *)
Definition countVote {S A} (total : Z) (entry : Address * A) : M S Z :=
  match valMap !! fst entry with
  | None => fail (ErrorsNew "unrecognized validator")
  | Some depositValue => mret (SafeAddBigInt total depositValue)
  end.
End votes.

(** The hash that the acknowledgements of a block must carry. *)
Definition votedHash (parentHash : Hash) (round voteType : Z) (txns : list Hash) (blockNumber proposedBlockTime : Z) : Hash :=
  if Z.eqb voteType VOTE_TYPE_OK then
    if Z.leb PROPOSAL_TIME_HASH_START_BLOCK blockNumber
    then GetCombinedTxnHashWithTime parentHash round txns proposedBlockTime
    else GetCombinedTxnHash parentHash round txns
  else getNilVoteProposalHash parentHash round.

Definition ValidatePackets {S} (parentHash : Hash) (round : Z) (packetMap : option PacketMap) (voteType : Z)
    (valMap : gmap Address Z) (totalBlockDepositValue minDepositRequired : Z) (txns : slice Hash)
    (blockNumber proposedBlockTime : Z) : M S unit :=
  let proposalHash := votedHash parentHash round voteType (data txns) blockNumber proposedBlockTime in
  fail_if (negb (Z.eqb voteType VOTE_TYPE_OK) && Z.ltb 0 (len (data txns))) (ErrorsNew "invalid transactions with nil vote");;
  pm ← must "nil packetMap" packetMap;
  acks ← range (proposalAckDetailsMap pm);
  tot ← foldM (countAck round voteType valMap totalBlockDepositValue proposalHash) (mkVoteTotals 0 0) acks;
  (if Z.eqb voteType VOTE_TYPE_NIL then
     fail_if (Z.leb minDepositRequired (okVotesDepositValue tot)) (ErrorsNew "VOTE_TYPE_NIL okVotesDepositValue error");;
     fail_if (Z.ltb (nilVotesDepositValue tot) minDepositRequired) (ErrorsNew "VOTE_TYPE_NIL nilVotesDepositValue error")
   else
     fail_if (Z.ltb (okVotesDepositValue tot) minDepositRequired) (ErrorsNew "VOTE_TYPE_OK okVotesDepositValue error");;
     fail_if (Z.leb minDepositRequired (nilVotesDepositValue tot)) (ErrorsNew "VOTE_TYPE_OK nilVotesDepositValue error"));;
  precommits ← range (precommitDetailsMap pm);
  precommitDepositValue ← foldM (countVote valMap) 0 precommits;
  fail_if (Z.ltb precommitDepositValue minDepositRequired) (ErrorsNew "precommit low deposit");;
  commits ← range (commitDetailsMap pm);
  commitDepositValue ← foldM (countVote valMap) 0 commits;
  fail_if (Z.ltb commitDepositValue minDepositRequired) (ErrorsNew "precommit low deposit").
End parse.

(** * The consensus data of a block *)

(** The two maps that the caller passes by reference and that are changed in
    place: the deposits and the validator details. *)
Record ValidatorMaps := mkValidatorMaps {
  vm_deposits : gmap Address Z;
  vm_details : option (gmap Address ValidatorDetailsV2);
}.

#[export] Instance eta_ValidatorMaps : Eta ValidatorMaps := fun m => mkValidatorMaps (vm_deposits m) (vm_details m).
#[export] Instance set_vm_deposits : Setter vm_deposits := ltac:(derive_setter).
#[export] Instance set_vm_details : Setter vm_details := ltac:(derive_setter).

Section validate.
Context `{FloatConv} `{NodeConfig} `{Crypto} `{DRNG} `{GoRuntime} `{SignatureAlgorithm}.

(** Paused validators and validators that were not selected are deleted from
    the map of validator details. *)
Definition pruneValidators (selected : gset Address) (entries : list (Address * ValidatorDetailsV2))
    (m : gmap Address ValidatorDetailsV2) : gmap Address ValidatorDetailsV2 :=
  foldl (fun m '(valAddr, valDetails) =>
           if negb (IsValidationPaused valDetails) && bool_decide (valAddr ∈ selected) then m else delete valAddr m)
    m entries.

(** [for r := byte(1); r <= round; r++]: the proposers of the rounds. *)
Definition roundProposersLoop {S} (fuel : nat) (parentHash : Hash) (deposits : gmap Address Z)
    (details : option (gmap Address ValidatorDetailsV2)) (blockNumber : Z) (consensusContext : Hash)
    (round : Z) : M S (gmap Z Address) :=
  byteFor fuel (fun r => Z.leb r round)
    (fun acc r =>
       p ← getBlockProposer parentHash deposits r details blockNumber consensusContext;
       mret (<[r := p]> acc))
    ∅ 1.
Definition roundProposers {S} := @roundProposersLoop S byteFuel.

(** A missing key of a map of addresses reads as the zero address. *)
Definition proposerOf (m : gmap Z Address) (r : Z) : Address := default (arr_zero 32) (m !! r).

Definition validateNil {S} (txns : slice Hash) (parentHash : Hash) (bcd : BlockConsensusData)
    (nilVotedProposers : gset Address) (roundBlockValidators : gmap Z Address)
    (packetRoundMap : gmap Z PacketMap) (deposits : gmap Address Z)
    (totalBlockDepositValue minDepositRequired blockNumber : Z) : M S unit :=
  fail_if (Z.ltb 0 (len (data txns))) (ErrorsNew "txns in a NIL block");;
  fail_if (Z.ltb 0 (len (data (SelectedTransactions bcd)))) (ErrorsNew "SelectedTransactions in a NIL vote");;
  fail_if (negb (IsEqualTo (BlockProposer bcd) ZERO_ADDRESS)) (ErrorsNew "ValidateBlockConsensusData BlockProposer false");;
  fail_if (negb (IsEqualTo (bcd_ProposalHash bcd) (getNilVoteProposalHash parentHash (bcd_Round bcd))))
    (ErrorsNew "proposal hash check failed");;
  fail_if (negb (IsEqualTo (bcd_PrecommitHash bcd) (getNilVotePreCommitHash parentHash (bcd_Round bcd))))
    (ErrorsNew "precommitHash hash check failed");;
  byteFor byteFuel (fun r => Z.leb r (bcd_Round bcd))
    (fun _ r =>
       fail_if (Z.ltb r MAX_ROUND && negb (bool_decide (proposerOf roundBlockValidators r ∈ nilVotedProposers)))
         (ErrorsNew "nilVotedProposers 1");;
       fail_if (bool_decide (packetRoundMap !! r = None)) (ErrorsNew "could not find packetMap for round"))
    () 1;;
  fail_if (Z.ltb (bcd_Round bcd) (Z.of_nat (base.size nilVotedProposers))) (ErrorsNew "unexpected number of nilVotedProposers");;
  ValidatePackets parentHash (bcd_Round bcd) (packetRoundMap !! bcd_Round bcd) VOTE_TYPE_NIL deposits
    totalBlockDepositValue minDepositRequired (SelectedTransactions bcd) blockNumber (bcd_BlockTime bcd).

Definition validateOk {S} (txns : slice Hash) (parentHash : Hash) (bcd : BlockConsensusData)
    (nilVotedProposers : gset Address) (roundBlockValidators : gmap Z Address)
    (packetRoundMap : gmap Z PacketMap) (deposits : gmap Address Z)
    (totalBlockDepositValue minDepositRequired blockNumber : Z) : M S unit :=
  fail_if (IsEqualTo (BlockProposer bcd) ZERO_ADDRESS) (ErrorsNew "ValidateBlockConsensusData BlockProposer true");;
  fail_if (negb (IsEqualTo (BlockProposer bcd) (proposerOf roundBlockValidators (bcd_Round bcd))))
    (ErrorsNew "ValidateBlockConsensusData BlockProposer true");;
  fail_if (IsEqualTo (bcd_ProposalHash bcd) ZERO_HASH) (ErrorsNew "ValidateBlockConsensusData ProposalHash zero_hash");;
  (match SelectedTransactions bcd with
   | None => fail_if (Z.ltb 0 (len (data txns)))
               (ErrorsNew "ValidateBlockConsensusData txns is non-empty but SelectedTransactions is nil")
   | Some selected =>
       forM (fun txn => fail_if (negb (bool_decide (txn ∈ (list_to_set selected : gset Hash))))
               (ErrorsNew "ValidateBlockConsensusData txns should be a subset of blockConsensusData.SelectedTransactions"))
         (data txns)
   end);;
  when (Z.ltb 1 (bcd_Round bcd)) (
    byteFor byteFuel (fun r => Z.ltb r (bcd_Round bcd))
      (fun _ r => fail_if (negb (bool_decide (proposerOf roundBlockValidators r ∈ nilVotedProposers)))
                    (ErrorsNew "nilVotedProposers 2"))
      () 1;;
    fail_if (Z.ltb (len (data (SlashedBlockProposers bcd))) (bcd_Round bcd - 1))
      (ErrorsNew "ValidateBlockConsensusData SlashedBlockProposers length"));;
  ValidatePackets parentHash (bcd_Round bcd) (packetRoundMap !! bcd_Round bcd) VOTE_TYPE_OK deposits
    totalBlockDepositValue minDepositRequired (SelectedTransactions bcd) blockNumber (bcd_BlockTime bcd).

Definition ValidateBlockConsensusDataInner (txns : slice Hash) (parentHash : Hash) (bcd : BlockConsensusData)
    (badd : BlockAdditionalConsensusData) (blockNumber : Z) (consensusContext : Hash) : M ValidatorMaps unit :=
  fail_if (Z.ltb (bcd_Round bcd) 1) (ErrorsNew "ValidateBlockConsensusData round min");;
  fail_if (Z.leb MAX_ROUND (bcd_Round bcd) && Z.ltb 0 (len (data txns))) (ErrorsNew "ValidateBlockConsensusData round max");;
  fail_if (IsEqualTo (bcd_PrecommitHash bcd) ZERO_HASH) (ErrorsNew "ValidateBlockConsensusData PrecommitHash zero_hash");;
  let nilVotedProposers : gset Address := list_to_set (data (SlashedBlockProposers bcd)) in
  valMap ← gets vm_deposits;
  f ← filterValidators parentHash valMap blockNumber;
  modify (fun m => m <| vm_deposits := fr_deposits f |>);;
  fail_if (Z.ltb (fr_minRequired f) MIN_BLOCK_DEPOSIT) (ErrorsNew "min deposit required error");;
  fail_if (Z.ltb (Z.of_nat (base.size (fr_validators f))) MIN_VALIDATORS) (ErrorsNew "filteredValidators MIN_VALIDATORS");;
  fail_if (Z.ltb MAX_VALIDATORS (Z.of_nat (base.size (fr_validators f)))) (ErrorsNew "filteredValidators MAX_VALIDATORS");;
  let deposits := selectedDeposits f in
  when (Z.leb BLOCK_PROPOSER_NIL_BLOCK_START_BLOCK blockNumber) (
    valDetailsMap ← gets vm_details;
    m ← must "nil valDetailsMap" valDetailsMap;
    entries ← range m;
    modify (fun s => s <| vm_details := Some (pruneValidators (dom deposits) entries m) |>));;
  valDetailsMap ← gets vm_details;
  roundBlockValidators ← roundProposers parentHash deposits valDetailsMap blockNumber consensusContext (bcd_Round bcd);
  packets ← match ConsensusPackets badd with
            | None => fail (ErrorsNew "nil ConsensusPackets")
            | Some l => mret l
            end;
  packetRoundMap ← ParseConsensusPackets parentHash deposits blockNumber valDetailsMap consensusContext packets;
  if Z.eqb (bcd_VoteType bcd) VOTE_TYPE_NIL then
    validateNil txns parentHash bcd nilVotedProposers roundBlockValidators packetRoundMap deposits
      (fr_depositValue f) (fr_minRequired f) blockNumber
  else if Z.eqb (bcd_VoteType bcd) VOTE_TYPE_OK then
    validateOk txns parentHash bcd nilVotedProposers roundBlockValidators packetRoundMap deposits
      (fr_depositValue f) (fr_minRequired f) blockNumber
  else fail (ErrorsNew "ValidateBlockConsensusData unexpected vote type").

(** Only the shape of the time is checked when old blocks are read. *)
Definition ValidateBlockProposalTime (blockNumber proposedTime : Z) : bool :=
  if blockTimeChanges blockNumber then
    Z.eqb proposedTime 0 || Z.eqb (i64 proposedTime mod 60) 0
  else Z.eqb proposedTime 0.

(** What the validation reads of a block. *)
Record BlockView := mkBlockView {
  b_ParentHash : Hash;
  b_Number : Z;
  b_ConsensusData : slice byte;
  b_UnhashedConsensusData : slice byte;
  b_TxnHashes : list Hash;
}.

(** [crypto.Keccak256Hash(blockContext[:], []byte(strconv.Itoa(preFilterValidatorCount)))] *)
Definition contextHash (blockContext : byteArray 32) (preFilterValidatorCount : Z) : Hash :=
  Keccak256Hash [arr_bytes blockContext; bytes_of_string (Itoa preFilterValidatorCount)].

Definition ValidateBlockConsensusData `{Chain} (block : BlockView) : M ValidatorMaps unit :=
  match b_ConsensusData block, b_UnhashedConsensusData block with
  | Some cd, Some ucd =>
      blockConsensusData ← bcd_of_wire <$> lift (rlp_DecodeBytes cd);
      blockAdditionalConsensusData ← badd_of_wire <$> lift (rlp_DecodeBytes ucd);
      fail_if (negb (ValidateBlockProposalTime (b_Number block) (bcd_BlockTime blockConsensusData)))
        (ErrorsNew "ValidateBlockProposalTime failed");;
      consensusContext ←
        (if Z.leb CONTEXT_BASED_START_BLOCK (b_Number block) then
           validators ← ext (fun t => getValidatorsFn t (b_ParentHash block)) ≫= check_err;
           contextKey ← lift (GetBlockConsensusContextKeyForBlock (b_Number block));
           blockContext ← ext (fun t => getBlockConsensusContext t contextKey (b_ParentHash block)) ≫= check_err;
           mret (contextHash blockContext (mlen validators))
         else mret (arr_zero 32));
      ValidateBlockConsensusDataInner (Some (b_TxnHashes block)) (b_ParentHash block) blockConsensusData
        blockAdditionalConsensusData (b_Number block) consensusContext
  | _, _ => fail (ErrorsNew "ValidateBlockConsensusData nil")
  end.
End validate.
