(* ===== verification/Certificate.v ===== *)
(** What an accepted block proves.  The consensus data of a block is a
    certificate: [ValidateBlockConsensusDataInner] accepts it only when it holds
    signed votes of validators with the required deposit.  Two accepted blocks on
    the same parent with different transactions expose the validators that signed
    both.

    Properties of the definitions of BlockValidator.v. *)

From S2P Require Import Prelude Common Selection Rlp RlpEnc RlpDec Packets Context BlockValidator.
From Stdlib Require Import Strings.Byte.

(** * Parsing *)

Section parse.
Context `{FloatConv} `{NodeConfig} `{Crypto} `{GoRuntime} `{SignatureAlgorithm}.

(** Every vote in the parsed maps was signed, in a packet of the block, by a
    validator of the block. *)
Definition backed {A} `{RlpStruct A} (h : Hash) (deposits : gmap Address Z) (packets : list ConsensusPacket)
    (ty : Z) (v : Address) (a : A) : Prop :=
  v ∈ dom deposits /\ exists p, p ∈ packets /\ signedVote h ty a v p.

Definition round_parsed (h : Hash) (deposits : gmap Address Z) (packets : list ConsensusPacket) (r : Z)
    (pm : PacketMap) : Prop :=
  pm_round pm = r /\ 1 <= r <= MAX_ROUND
  /\ map_Forall (fun v a => backed h deposits packets CONSENSUS_PACKET_TYPE_ACK_BLOCK_PROPOSAL v a
       /\ pad_Round a = r /\ (ProposalAckVoteType a = VOTE_TYPE_NIL \/ ProposalAckVoteType a = VOTE_TYPE_OK /\ r < MAX_ROUND))
       (proposalAckDetailsMap pm)
  /\ map_Forall (fun v a => backed h deposits packets CONSENSUS_PACKET_TYPE_PRECOMMIT_BLOCK v a /\ pcd_Round a = r)
       (precommitDetailsMap pm)
  /\ map_Forall (fun v a => backed h deposits packets CONSENSUS_PACKET_TYPE_COMMIT_BLOCK v a /\ cd_Round a = r)
       (commitDetailsMap pm).

Definition parsed (h : Hash) (deposits : gmap Address Z) (packets : list ConsensusPacket)
    (m : gmap Z PacketMap) : Prop := map_Forall (round_parsed h deposits packets) m.

Section one.
Context (h : Hash) (deposits : gmap Address Z).

Lemma backed_mono {A} `{RlpStruct A} packets packets' ty v (a : A) :
  packets ⊆ packets' -> backed h deposits packets ty v a -> backed h deposits packets' ty v a.
Proof. unfold backed. set_solver. Qed.

Lemma round_parsed_mono packets packets' r pm :
  packets ⊆ packets' -> round_parsed h deposits packets r pm -> round_parsed h deposits packets' r pm.
Proof.
  intros Hsub (Hr & Hround & Hacks & Hpre & Hcom). split; [done|]. split; [done|].
  split; [|split]; [revert Hacks|revert Hpre|revert Hcom]; intros Hv; (eapply map_Forall_impl; [exact Hv|]);
    intros v a [Hb ?]; (split; [by eapply backed_mono|done]).
Qed.

Lemma round_parsed_default packets m r :
  parsed h deposits packets m -> 1 <= r <= MAX_ROUND ->
  round_parsed h deposits packets r (default (newPacketMap r) (m !! r)).
Proof.
  intros Hm Hr. destruct (m !! r) as [pm|] eqn:Hpm; [by apply Hm|]. split_and!; simpl; try done; lia || apply map_Forall_empty.
Qed.

(** Recording one more vote. *)
Lemma parsed_insert packets p m r pm :
  parsed h deposits packets m -> round_parsed h deposits (packets ++ [p]) r pm ->
  parsed h deposits (packets ++ [p]) (<[r := pm]> m).
Proof.
  intros Hm Hpm. apply map_Forall_insert_2; [done|]. eapply map_Forall_impl; [exact Hm|].
  intros. eapply round_parsed_mono; [|eassumption]. set_solver.
Qed.

Lemma backed_here {A} `{RlpStruct A} packets p ty v (a : A) :
  v ∈ dom deposits -> signedVote h ty a v p -> backed h deposits (packets ++ [p]) ty v a.
Proof. intros. split; [done|]. exists p. split; [set_solver|done]. Qed.

Lemma invalidRound_false r : invalidRound r = false -> 1 <= r <= MAX_ROUND.
Proof. unfold invalidRound. intros. b2p. lia. Qed.

(** The signer that [recoverPublicKey] reports for a vote. *)
Lemma recoverPublicKey_wp {S} packet ty (w : World S) : ty <> CONSENSUS_PACKET_TYPE_PROPOSE_BLOCK ->
  wp (recoverPublicKey packet ty) (fun o w' => w' = w /\ forall pub v, o = Ok pub ->
    PublicKeyToAddress pub = inl v -> signedBy packet v) w.
Proof.
  intros Hty. unfold recoverPublicKey. apply Z.eqb_neq in Hty. rewrite Hty. cbn [andb].
  wp_norm. apply wp_check_err. destruct (PublicKeyFromSignature _ _) as [pub|e] eqn:Hpub; [|done].
  wp_step; [done|]. wp_step. split; [done|]. intros pub' v [= <-] Hv. exists pub. b2p. done.
Qed.

(** Each loop iteration keeps the maps sound, whatever the kind of the packet. *)
Context (n : Z) (details : option (gmap Address ValidatorDetailsV2)) (ctx : Hash).

Definition parses {S} (packets : list ConsensusPacket) (w : World S) (o : outcome (gmap Z PacketMap)) (w' : World S) : Prop :=
  w_st w' = w_st w /\ forall m, o = Ok m -> parsed h deposits packets m.

Lemma parseProposal_wp {S} packets m v p (w : World S) : parsed h deposits packets m ->
  wp (parseProposal h deposits n details ctx m v p) (parses (packets ++ [p]) w) w.
Proof.
  intros Hm. unfold parseProposal. wp_step. destruct (decodePayload p) as [a|e|e]; [|by split..].
  wp_step; [by split|]. wp_use getBlockProposer_wp. intros [bp|e|e] w1 [Hst _]; [|by split..].
  wp_step; [by split|]. cbn zeta. wp_step; [by split|]. wp_step. split; [done|]. intros m' [= <-].
  apply parsed_insert; [done|].
  match goal with Hr : invalidRound _ = false |- _ => apply invalidRound_false in Hr end.
  apply (round_parsed_mono packets); [set_solver|].
  exact (round_parsed_default packets m _ Hm ltac:(done)).
Qed.

(** The round of a new vote: what was recorded before, and the vote itself. *)
Lemma round_with_vote packets p m r : parsed h deposits packets m -> invalidRound r = false ->
  round_parsed h deposits (packets ++ [p]) r (default (newPacketMap r) (m !! r)).
Proof.
  intros Hm Hr%invalidRound_false. apply (round_parsed_mono packets); [set_solver|].
  by apply round_parsed_default.
Qed.

Lemma parseAck_wp {S} packets m v p (w : World S) : parsed h deposits packets m ->
  ParentHash p = h -> getPacketType p = Ok CONSENSUS_PACKET_TYPE_ACK_BLOCK_PROPOSAL -> signedBy p v -> v ∈ dom deposits ->
  wp (parseAck m v p) (parses (packets ++ [p]) w) w.
Proof.
  intros Hm Hh Hty Hv Hdep. unfold parseAck. wp_step. destruct (decodePayload p) as [a|e|e] eqn:Ha; [|by split..].
  wp_step; [by split|]. cbn zeta. wp_step; [by split|]. wp_step; [by split|]. wp_step; [by split|]. wp_step.
  split; [done|]. intros m' [= <-]. apply parsed_insert; [done|].
  destruct (round_with_vote packets p m (pad_Round a)) as (Hr & Hround & Hacks & Hpre & Hcom); [done..|].
  split_and!; try done; try apply Hround. apply map_Forall_insert_2; [|done].
  split; [by apply backed_here|]. split; [done|]. b2p; unfold MAX_ROUND in *; auto; right; split; try done; lia.
Qed.

Lemma parsePrecommit_wp {S} packets m v p (w : World S) : parsed h deposits packets m ->
  ParentHash p = h -> getPacketType p = Ok CONSENSUS_PACKET_TYPE_PRECOMMIT_BLOCK -> signedBy p v -> v ∈ dom deposits ->
  wp (parsePrecommit m v p) (parses (packets ++ [p]) w) w.
Proof.
  intros Hm Hh Hty Hv Hdep. unfold parsePrecommit. wp_step. destruct (decodePayload p) as [a|e|e] eqn:Ha; [|by split..].
  wp_step; [by split|]. cbn zeta. wp_step; [by split|]. wp_step.
  split; [done|]. intros m' [= <-]. apply parsed_insert; [done|].
  destruct (round_with_vote packets p m (pcd_Round a)) as (Hr & Hround & Hacks & Hpre & Hcom); [done..|].
  split_and!; try done; try apply Hround. apply map_Forall_insert_2; [|done]. split; [by apply backed_here|done].
Qed.

Lemma parseCommit_wp {S} packets m v p (w : World S) : parsed h deposits packets m ->
  ParentHash p = h -> getPacketType p = Ok CONSENSUS_PACKET_TYPE_COMMIT_BLOCK -> signedBy p v -> v ∈ dom deposits ->
  wp (parseCommit m v p) (parses (packets ++ [p]) w) w.
Proof.
  intros Hm Hh Hty Hv Hdep. unfold parseCommit. wp_step. destruct (decodePayload p) as [a|e|e] eqn:Ha; [|by split..].
  wp_step; [by split|]. cbn zeta. wp_step; [by split|]. wp_step.
  split; [done|]. intros m' [= <-]. apply parsed_insert; [done|].
  destruct (round_with_vote packets p m (cd_Round a)) as (Hr & Hround & Hacks & Hpre & Hcom); [done..|].
  split_and!; try done; try apply Hround. apply map_Forall_insert_2; [|done]. split; [by apply backed_here|done].
Qed.

Lemma parseOne_wp {S} packets m p (w : World S) : parsed h deposits packets m ->
  wp (parseOne h deposits n details ctx m p) (parses (packets ++ [p]) w) w.
Proof.
  intros Hm. unfold parseOne. wp_step; [by split|]. wp_step; [by split|]. wp_step.
  destruct (getPacketType p) as [ty|e|e] eqn:Hty; [|by split..]. b2p.
  assert (HP : ParentHash p = h) by (by apply IsEqualTo_true).
  destruct (Z.eqb_spec ty CONSENSUS_PACKET_TYPE_PROPOSE_BLOCK) as [->|Hprop].
  - wp_norm. eapply wp_mono with (P := fun _ w' => w' = w).
    { unfold recoverPublicKey. wp_norm. case_match; wp_norm; (apply wp_check_err || apply wp_check_err_as);
        case_match; try done; wp_step; try done; by wp_step. }
    intros [pub|e|e] w1 ->; [|by split..]. wp_norm. apply wp_check_err.
    destruct (PublicKeyToAddress pub) as [v|e]; [|by split]. wp_step; [by split|]. by apply parseProposal_wp.
  - wp_use recoverPublicKey_wp; [done|]. intros [pub|e|e] w1 [-> Hsig]; [|by split..]. wp_norm.
    apply wp_check_err. destruct (PublicKeyToAddress pub) as [v|e] eqn:Hv; [|by split].
    specialize (Hsig pub v eq_refl Hv). wp_step; [by split|].
    assert (Hdep : v ∈ dom deposits) 
      by (match goal with Hn : bool_decide _ = false |- _ => apply bool_decide_eq_false in Hn end;
          by apply elem_of_dom, not_eq_None_Some).
    destruct (Z.eqb_spec ty CONSENSUS_PACKET_TYPE_ACK_BLOCK_PROPOSAL) as [->|?]; [by apply parseAck_wp|].
    destruct (Z.eqb_spec ty CONSENSUS_PACKET_TYPE_PRECOMMIT_BLOCK) as [->|?]; [by apply parsePrecommit_wp|].
    destruct (Z.eqb_spec ty CONSENSUS_PACKET_TYPE_COMMIT_BLOCK) as [->|?]; [by apply parseCommit_wp|].
    wp_step; [by b2p|]. wp_step. by split.
Qed.

Lemma ParseConsensusPackets_wp {S} packets (w : World S) :
  wp (ParseConsensusPackets h deposits n details ctx packets) (parses packets w) w.
Proof.
  unfold ParseConsensusPackets.
  apply (wp_foldM _ (fun dn m (w' : World S) => w_st w' = w_st w /\ parsed h deposits dn m)).
  - split; [done|]. apply map_Forall_empty.
  - intros dn p rest m w1 _ [Hst Hm]. eapply wp_mono; [by apply parseOne_wp|].
    intros [m'|e|e] w2 [Hst' Hm']; (split; [by rewrite Hst'|]); auto; by intros.
  - intros m w1 [Hst Hm]. split; [done|]. by intros ? [= <-].
Qed.
End one.
End parse.

(** * Counting *)

(** The validators that acknowledged with this vote and this hash. *)
Definition voters (vote : Z) (hash : Hash) (acks : gmap Address ProposalAckDetails) : gset Address :=
  dom (filter (fun kv => ProposalAckVoteType kv.2 = vote /\ pad_ProposalHash kv.2 = hash) acks).

Lemma elem_of_voters vote hash acks v :
  v ∈ voters vote hash acks <-> exists a, acks !! v = Some a /\ ProposalAckVoteType a = vote /\ pad_ProposalHash a = hash.
Proof.
  unfold voters. rewrite elem_of_dom. split.
  - intros [a [Ha Hp]%map_lookup_filter_Some]. eauto.
  - intros (a & Ha & Hp). exists a. by apply map_lookup_filter_Some.
Qed.

Lemma zsum_keys_weight {A} (d : gmap Address Z) (m : gmap Address A) l : l ≡ₚ map_to_list m ->
  zsum (map (dep d) (map fst l)) = weight d (dom m).
Proof.
  intros Hl. unfold weight, sum_over. change (map fst l) with l.*1. by rewrite (range_keys_perm m l Hl).
Qed.

Lemma filter_perm_map_to_list {A} (P : Address * A -> Prop) `{forall x, Decision (P x)} (m : gmap Address A) l :
  l ≡ₚ map_to_list m -> filter P l ≡ₚ map_to_list (filter P m).
Proof.
  intros Hl. rewrite <- (list_to_map_filter_perm P m l Hl), map_to_list_to_map; [done|].
  eapply sublist_NoDup; [|apply (fmap_sublist fst), sublist_filter]. by eapply perm_map_to_list_NoDup.
Qed.

Section counting.
Context `{FloatConv} `{NodeConfig} `{Crypto} `{GoRuntime} `{SignatureAlgorithm}.
Context (valMap : gmap Address Z) (Hpos : forall v, v ∈ dom valMap -> 0 <= dep valMap v).

(** What the votes of a round must look like for [ValidatePackets]. *)
Definition votes_known (round : Z) (pm : PacketMap) : Prop :=
  map_Forall (fun v a => v ∈ dom valMap /\ pad_Round a = round
    /\ (ProposalAckVoteType a = VOTE_TYPE_NIL \/ ProposalAckVoteType a = VOTE_TYPE_OK)) (proposalAckDetailsMap pm)
  /\ dom (precommitDetailsMap pm) ⊆ dom valMap /\ dom (commitDetailsMap pm) ⊆ dom valMap.

(** The sum of the deposits of the entries that satisfy [P]. *)
Definition depositsOf {A} (P : Address * A -> Prop) `{forall x, Decision (P x)} (l : list (Address * A)) : Z :=
  zsum (map (dep valMap) (map fst (filter P l))).

Lemma depositsOf_snoc {A} (P : Address * A -> Prop) `{forall x, Decision (P x)} l e :
  depositsOf P (l ++ [e]) = depositsOf P l + if decide (P e) then dep valMap e.1 else 0.
Proof.
  unfold depositsOf. rewrite filter_app, !map_app, zsum_app, filter_cons, filter_nil. f_equal.
  destruct (decide (P e)); simpl; autorewrite with zsum; lia.
Qed.

Lemma depositsOf_perm {A} (P : Address * A -> Prop) `{forall x, Decision (P x)} l (m : gmap Address A) :
  l ≡ₚ map_to_list m -> depositsOf P l = weight valMap (dom (filter P m)).
Proof. intros Hl. apply zsum_keys_weight. by apply filter_perm_map_to_list. Qed.

Lemma countVote_wp {S A} (votes : gmap Address A) l (w : World S) :
  l ≡ₚ map_to_list votes -> dom votes ⊆ dom valMap ->
  wp (foldM (countVote valMap) 0 l) (fun o w' => w' = w /\ o = Ok (weight valMap (dom votes))) w.
Proof.
  intros Hl Hsub.
  apply (wp_foldM _ (fun dn acc w' => w' = w /\ acc = zsum (map (dep valMap) (map fst dn)))); [done| |].
  - intros dn [v a] rest acc w' -> [-> ->]. unfold countVote. cbn [fst].
    assert (Hv : v ∈ dom valMap).
    { apply Hsub, elem_of_dom. exists a. apply elem_of_map_to_list. rewrite <- Hl. set_solver. }
    apply elem_of_dom in Hv as [d Hd]. rewrite Hd. wp_step. split; [done|].
    rewrite !map_app, zsum_app. unfold SafeAddBigInt, dep. simpl. rewrite Hd. autorewrite with zsum. simpl. lia.
  - intros acc w' [-> ->]. split; [done|]. f_equal. by apply zsum_keys_weight.
Qed.

Definition says (vote : Z) (hash : Hash) (kv : Address * ProposalAckDetails) : Prop :=
  ProposalAckVoteType kv.2 = vote /\ pad_ProposalHash kv.2 = hash.
#[local] Instance says_dec vote hash kv : Decision (says vote hash kv).
Proof. unfold says. apply _. Defined.

(** A NIL acknowledgement with another hash is an error in a NIL block. *)
Definition stray (voteType : Z) (hash : Hash) (a : ProposalAckDetails) : Prop :=
  voteType <> VOTE_TYPE_OK /\ ProposalAckVoteType a = VOTE_TYPE_NIL /\ pad_ProposalHash a <> hash.

#[local] Instance stray_dec voteType hash a : Decision (stray voteType hash a).
Proof. unfold stray. apply _. Defined.

Lemma zsum_dep_nonneg {A} (l : list (Address * A)) : Forall (fun e => e.1 ∈ dom valMap) l ->
  0 <= zsum (map (dep valMap) (map fst l)).
Proof.
  intros Hl. apply zsum_nonneg. rewrite map_map. apply Forall_map. eapply Forall_impl; [exact Hl|].
  intros e He. by apply Hpos.
Qed.

Lemma countAck_wp {S} round voteType total hash ok nil v a d (w : World S) :
  valMap !! v = Some d -> 0 <= d -> ok + nil + d <= total -> pad_Round a = round ->
  ProposalAckVoteType a = VOTE_TYPE_NIL \/ ProposalAckVoteType a = VOTE_TYPE_OK ->
  wp (countAck round voteType valMap total hash (mkVoteTotals ok nil) (v, a))
    (fun o w' => w' = w /\ if decide (stray voteType hash a) then exists e, o = Fail e
       else o = Ok (mkVoteTotals (ok + if decide (says VOTE_TYPE_OK hash (v, a)) then d else 0)
                                 (nil + if decide (says VOTE_TYPE_NIL hash (v, a)) then d else 0))) w.
Proof.
  intros Hd Hd0 Hle Hround Hvote. unfold countAck, SafeAddBigInt. rewrite Hd.
  wp_step; [b2p; congruence|]. cbn zeta. cbn [okVotesDepositValue nilVotesDepositValue].
  wp_steps; b2p; try lia; try (destruct Hvote; congruence); (split; [done|]);
    repeat match goal with
    | Hq : IsEqualTo _ _ = true |- _ => apply IsEqualTo_true in Hq
    | Hq : IsEqualTo _ _ = false |- _ => apply IsEqualTo_false in Hq
    end; unfold VOTE_TYPE_NIL, VOTE_TYPE_OK in *;
    repeat case_decide; unfold stray, says, VOTE_TYPE_NIL, VOTE_TYPE_OK in *; simpl in *; eauto;
    try (exfalso; intuition (congruence || lia)); do 2 f_equal; lia.
Qed.

Lemma countAcks_wp {S} round voteType hash acks l (w : World S) :
  l ≡ₚ map_to_list acks ->
  map_Forall (fun v a => v ∈ dom valMap /\ pad_Round a = round
    /\ (ProposalAckVoteType a = VOTE_TYPE_NIL \/ ProposalAckVoteType a = VOTE_TYPE_OK)) acks ->
  wp (foldM (countAck round voteType valMap (weight valMap (dom valMap)) hash) (mkVoteTotals 0 0) l)
    (fun o w' => w' = w /\
       if decide (map_Forall (fun _ a => ~ stray voteType hash a) acks)
       then o = Ok (mkVoteTotals (weight valMap (voters VOTE_TYPE_OK hash acks))
                                 (weight valMap (voters VOTE_TYPE_NIL hash acks)))
       else exists e, o = Fail e) w.
Proof.
  intros Hl Hall.
  assert (Hin : forall v a, (v, a) ∈ l <-> acks !! v = Some a) by (intros; by rewrite Hl, elem_of_map_to_list).
  assert (Hdom : Forall (fun e => e.1 ∈ dom valMap) l).
  { apply Forall_forall. intros [v a] Ha%Hin. by apply Hall in Ha as [? _]. }
  assert (Hmax : zsum (map (dep valMap) (map fst l)) <= weight valMap (dom valMap)).
  { rewrite (zsum_keys_weight valMap acks l Hl). apply sum_over_subset; [done|].
    intros v [a Ha]%elem_of_dom. by apply Hall in Ha as [? _]. }
  apply (wp_foldM _ (fun dn t w' => w' = w
    /\ t = mkVoteTotals (depositsOf (says VOTE_TYPE_OK hash) dn) (depositsOf (says VOTE_TYPE_NIL hash) dn)
    /\ okVotesDepositValue t + nilVotesDepositValue t <= zsum (map (dep valMap) (map fst dn))
    /\ Forall (fun e => ~ stray voteType hash e.2) dn)); [done| |].
  - intros dn [v a] rest t w' Hsplit (-> & -> & Hle & Hdn). cbn [okVotesDepositValue nilVotesDepositValue] in Hle.
    assert (Ha : acks !! v = Some a) by (apply Hin; rewrite Hsplit; set_solver).
    destruct (Hall v a Ha) as (Hv & Hround & Hvote).
    pose proof (Hpos v Hv) as Hd0. apply elem_of_dom in Hv as [d Hd].
    assert (Hdv : dep valMap v = d) by (unfold dep; by rewrite Hd). rewrite Hdv in Hd0.
    rewrite Hsplit, !map_app, zsum_app in Hmax. cbn [map fst] in Hmax. rewrite zsum_cons, Hdv in Hmax.
    rewrite Hsplit in Hdom. apply Forall_app in Hdom as [_ [_ Hdom]%Forall_cons].
    pose proof (zsum_dep_nonneg rest Hdom) as Hrest.
    eapply wp_mono; [apply (countAck_wp round voteType _ hash _ _ v a d); [done|done|lia|done..]|].
    intros o w' [-> Ho]. destruct (decide (stray voteType hash a)) as [Hs|Hs].
    + destruct Ho as [e ->]. split; [done|]. rewrite decide_False by (intros Hn; by apply (Hn v a Ha)). eauto.
    + subst o. rewrite !depositsOf_snoc, !map_app, zsum_app. cbn [map fst]. rewrite Hdv. rewrite zsum_singleton.
      split_and!; [done|done| |apply Forall_app; by split; [|constructor]].
      cbn [okVotesDepositValue nilVotesDepositValue].
      destruct (decide (says VOTE_TYPE_OK hash (v, a))) as [[]|], (decide (says VOTE_TYPE_NIL hash (v, a))) as [[]|]; try lia.
      unfold VOTE_TYPE_OK, VOTE_TYPE_NIL in *. lia.
  - intros t w' (-> & -> & _ & Hst). split; [done|].
    rewrite decide_True by (intros v a Ha%Hin; rewrite Forall_forall in Hst; by apply (Hst (v, a))).
    do 2 f_equal; by apply depositsOf_perm.
Qed.

(** When the votes of a round decide the block. *)
Definition decides (voteType : Z) (hash : Hash) (required : Z) (pm : PacketMap) : Prop :=
  let ok := weight valMap (voters VOTE_TYPE_OK hash (proposalAckDetailsMap pm)) in
  let nil := weight valMap (voters VOTE_TYPE_NIL hash (proposalAckDetailsMap pm)) in
  map_Forall (fun _ a => ~ stray voteType hash a) (proposalAckDetailsMap pm)
  /\ (if Z.eqb voteType VOTE_TYPE_NIL then ok < required <= nil else nil < required <= ok)
  /\ required <= weight valMap (dom (precommitDetailsMap pm))
  /\ required <= weight valMap (dom (commitDetailsMap pm)).

Lemma ValidatePackets_wp {S} parentHash round pm voteType required txns n time (w : World S) :
  votes_known round pm ->
  wp (ValidatePackets parentHash round (Some pm) voteType valMap (weight valMap (dom valMap)) required txns n time)
    (fun o w' => w_st w' = w_st w /\ is_panic o = false /\
       (is_ok o = true <-> (voteType = VOTE_TYPE_OK \/ data txns = []) /\
          decides voteType (votedHash parentHash round voteType (data txns) n time) required pm)) w.
Proof.
  intros (Hacks & Hpre & Hcom). unfold ValidatePackets, decides. cbn zeta.
  set (hash := votedHash _ _ _ _ _ _).
  assert (Hlen : Z.ltb 0 (len (data txns)) = true <-> data txns <> []).
  { unfold len. rewrite Z.ltb_lt. destruct (data txns); simpl; split; try done; try lia. }
  assert (Hguard : negb (Z.eqb voteType VOTE_TYPE_OK) && Z.ltb 0 (len (data txns)) = true <-> ~ (voteType = VOTE_TYPE_OK \/ data txns = [])).
  { rewrite andb_true_iff, negb_true_iff, Z.eqb_neq, Hlen. tauto. }
  wp_step; [split_and!; [done..|]; split; [done|]; intros [Hg _]; by apply Hguard in Hg|].
  assert (Hg : voteType = VOTE_TYPE_OK \/ data txns = []).
  { destruct (decide (voteType = VOTE_TYPE_OK)); [by left|]. destruct (data txns) eqn:E; [by right|].
    exfalso. match goal with Hf : _ && _ = false |- _ => apply not_true_iff_false in Hf; apply Hf, Hguard end. intros [?|?]; done. }
  match goal with Hf : _ && _ = false |- _ => clear Hf end.
  wp_norm. apply wp_must. wp_step. wp_use countAcks_wp; [done|done|]. intros o w1 [-> Ho].
  case_decide as Hstray; [|destruct Ho as [e ->]; split_and!; [done..|]; split; [done|]; tauto]. subst o.
  wp_norm. cbn [okVotesDepositValue nilVotesDepositValue].
  eapply wp_mono with (P := fun o w' => w_st w' = w_st w /\ is_panic o = false /\
     (is_ok o = true <-> if Z.eqb voteType VOTE_TYPE_NIL then
        weight valMap (voters VOTE_TYPE_OK hash (proposalAckDetailsMap pm)) < required
          <= weight valMap (voters VOTE_TYPE_NIL hash (proposalAckDetailsMap pm))
        else weight valMap (voters VOTE_TYPE_NIL hash (proposalAckDetailsMap pm)) < required
          <= weight valMap (voters VOTE_TYPE_OK hash (proposalAckDetailsMap pm)))).
  { wp_steps; b2p; simpl; split_and!; try done; split; try done; lia. }
  intros o w2 (Hst & Hp & Hq). destruct o as [[]|e|e]; try done; [|simpl; split_and!; [done..|]; split; [done|]; tauto].
  assert (Hv := proj1 Hq eq_refl). wp_step. wp_use countVote_wp; [done|done|]. intros o w3 [-> ->].
  wp_step; [b2p; simpl; split; [done|]; split; [done|]; split; [done|lia]|]. wp_step.
  wp_use countVote_wp; [done|done|]. intros o w3 [-> ->]. b2p. wp_step; b2p; simpl; (split; [done|]); (split; [done|]).
  - split; [done|]. intros (_ & _ & _ & _ & ?). lia.
  - split; [|done]. intros _. split; [done|]. split; [done|]. split; [done|lia].
Qed.
End counting.

(** * The certificate of a block *)

Section certificate.
Context `{FloatConv} `{NodeConfig} `{Crypto} `{DRNG} `{GoRuntime} `{SignatureAlgorithm}.

(** The details of the validators that may propose: paused and unselected ones
    are left out. *)
Definition activeDetails (selected : gset Address) (n : Z) (details : option (gmap Address ValidatorDetailsV2))
  : option (gmap Address ValidatorDetailsV2) :=
  if Z.leb BLOCK_PROPOSER_NIL_BLOCK_START_BLOCK n
  then m ← details; Some (filter (fun kv => negb (IsValidationPaused kv.2) && bool_decide (kv.1 ∈ selected) = true) m)
  else details.

Lemma pruneValidators_filter selected l m : l ≡ₚ map_to_list m ->
  pruneValidators selected l m = filter (fun kv => negb (IsValidationPaused kv.2) && bool_decide (kv.1 ∈ selected) = true) m.
Proof.
  apply (range_delete_filter (fun a d => negb (IsValidationPaused d) && bool_decide (a ∈ selected))).
Qed.

(** A group of validators with the required deposit, each of which signed a
    packet of the block that says [a]. *)
Definition quorum_signed {A} `{RlpStruct A} (h : Hash) (vd : gmap Address Z) (f : FilterResult)
    (packets : list ConsensusPacket) (ty : Z) (P : A -> Prop) : Prop :=
  exists X, X ⊆ fr_validators f /\ fr_minRequired f <= weight vd X /\
    forall v, v ∈ X -> exists p a, p ∈ packets /\ signedVote h ty a v p /\ P a.

(** The acknowledgement that the votes for a block consist of. *)
Definition ackOf (h : Hash) (n : Z) (bcd : BlockConsensusData) : ProposalAckDetails :=
  mkProposalAckDetails
    (votedHash h (bcd_Round bcd) (bcd_VoteType bcd) (data (SelectedTransactions bcd)) n (bcd_BlockTime bcd))
    (bcd_VoteType bcd) (bcd_Round bcd).

Record certificate (h : Hash) (vd : gmap Address Z) (details : option (gmap Address ValidatorDetailsV2))
    (txns : list Hash) (bcd : BlockConsensusData) (packets : list ConsensusPacket) (n : Z) (ctx : Hash)
    (f : FilterResult) : Prop := {
  cert_filter : filter_spec vd n f;
  cert_round : 1 <= bcd_Round bcd <= MAX_ROUND;
  cert_acks : quorum_signed h vd f packets CONSENSUS_PACKET_TYPE_ACK_BLOCK_PROPOSAL
    (fun a => a = ackOf h n bcd);
  cert_precommits : quorum_signed h vd f packets CONSENSUS_PACKET_TYPE_PRECOMMIT_BLOCK
    (fun a => pcd_Round a = bcd_Round bcd);
  cert_commits : quorum_signed h vd f packets CONSENSUS_PACKET_TYPE_COMMIT_BLOCK
    (fun a => cd_Round a = bcd_Round bcd);
  cert_vote :
    bcd_VoteType bcd = VOTE_TYPE_OK /\ bcd_Round bcd < MAX_ROUND
      /\ isProposer h (selectedDeposits f) (bcd_Round bcd) (activeDetails (fr_validators f) n details) n ctx (BlockProposer bcd)
      /\ txns ⊆ data (SelectedTransactions bcd)
    \/ bcd_VoteType bcd = VOTE_TYPE_NIL /\ txns = [] /\ data (SelectedTransactions bcd) = []
      /\ BlockProposer bcd = ZERO_ADDRESS
      /\ bcd_ProposalHash bcd = getNilVoteProposalHash h (bcd_Round bcd)
      /\ bcd_PrecommitHash bcd = getNilVotePreCommitHash h (bcd_Round bcd);
}.

Lemma roundProposers_wp {S} fuel h deposits details n ctx round (w : World S) :
  wp (roundProposersLoop fuel h deposits details n ctx round)
    (fun o w' => w_st w' = w_st w /\ forall m, o = Ok m ->
       map_Forall (fun r p => isProposer h deposits r details n ctx p) m) w.
Proof.
  unfold roundProposersLoop.
  apply (wp_byteFor _ _ (fun m _ w' => w_st w' = w_st w /\ map_Forall (fun r p => isProposer h deposits r details n ctx p) m)).
  - split; [done|]. apply map_Forall_empty.
  - intros m r w1 _ [Hst Hm]. wp_use getBlockProposer_wp. intros [p|e|e] w2 [Hst' Hp]; simpl;
      [wp_step|..]; rewrite Hst', Hst; (split; [done|]); [|done..]. by apply map_Forall_insert_2.
  - intros m r w1 _ [Hst Hm]. split; [done|]. by intros ? [= <-].
  - intros m r w1 _ [Hst _]. by split.
Qed.

Lemma ZERO_ADDRESS_zero : arr_zero 32 = ZERO_ADDRESS.
Proof. apply arr_bytes_inj. vm_compute. reflexivity. Qed.

(** What the parsed packets of the block's round give once they decide it. *)
Definition decided (h : Hash) (vd : gmap Address Z) (f : FilterResult) (packets : list ConsensusPacket) (n : Z)
    (bcd : BlockConsensusData) : Prop :=
  1 <= bcd_Round bcd <= MAX_ROUND
  /\ (bcd_VoteType bcd = VOTE_TYPE_OK -> bcd_Round bcd < MAX_ROUND)
  /\ quorum_signed h vd f packets CONSENSUS_PACKET_TYPE_ACK_BLOCK_PROPOSAL
    (fun a => a = ackOf h n bcd)
  /\ quorum_signed h vd f packets CONSENSUS_PACKET_TYPE_PRECOMMIT_BLOCK (fun a => pcd_Round a = bcd_Round bcd)
  /\ quorum_signed h vd f packets CONSENSUS_PACKET_TYPE_COMMIT_BLOCK (fun a => cd_Round a = bcd_Round bcd).

Section decided.
Context (h : Hash) (vd : gmap Address Z) (n : Z) (f : FilterResult) (Hf : filter_spec vd n f).
Context (packets : list ConsensusPacket).

(** The validators that cast a backed vote. *)
Lemma backed_quorum {A} `{RlpStruct A} ty (votes : gmap Address A) (X : gset Address) (P : A -> Prop) :
  map_Forall (fun v a => backed h (selectedDeposits f) packets ty v a) votes ->
  fr_minRequired f <= weight (selectedDeposits f) X ->
  (forall v, v ∈ X -> exists a, votes !! v = Some a /\ P a) ->
  quorum_signed h vd f packets ty P.
Proof.
  intros Hv Hw HX. assert (Hsub : X ⊆ fr_validators f).
  { intros v (a & Ha & _)%HX. apply Hv in Ha as [Hd _]. by rewrite (selectedDeposits_dom vd n f Hf) in Hd. }
  exists X. split; [done|]. split; [by rewrite <- (selectedDeposits_weight vd n f Hf X)|].
  intros v (a & Ha & HP)%HX. apply Hv in Ha as [_ (p & Hp & Hs)]. eauto.
Qed.

Lemma round_parsed_known r pm : round_parsed h (selectedDeposits f) packets r pm -> votes_known (selectedDeposits f) r pm.
Proof.
  intros (_ & _ & Hacks & Hpre & Hcom). split; [|split].
  - eapply map_Forall_impl; [exact Hacks|]. intros v a ((Hv & _) & Hr & Hvote). naive_solver.
  - intros v [a Ha]%elem_of_dom. by apply Hpre in Ha as [[? _] _].
  - intros v [a Ha]%elem_of_dom. by apply Hcom in Ha as [[? _] _].
Qed.

Lemma decides_decided pm bcd :
  round_parsed h (selectedDeposits f) packets (bcd_Round bcd) pm ->
  bcd_VoteType bcd = VOTE_TYPE_OK \/ bcd_VoteType bcd = VOTE_TYPE_NIL ->
  decides (selectedDeposits f) (bcd_VoteType bcd)
    (votedHash h (bcd_Round bcd) (bcd_VoteType bcd) (data (SelectedTransactions bcd)) n (bcd_BlockTime bcd))
    (fr_minRequired f) pm ->
  decided h vd f packets n bcd.
Proof.
  intros (Hpm & Hround & Hacks & Hpre & Hcom) Hvote (_ & Hq & Hqp & Hqc).
  set (hash := votedHash _ _ _ _ _ _) in *.
  assert (Hw : fr_minRequired f <= weight (selectedDeposits f) (voters (bcd_VoteType bcd) hash (proposalAckDetailsMap pm))).
  { destruct Hvote as [E|E]; rewrite E in *; simpl in Hq; lia. }
  split; [done|]. split; [|split; [|split]].
  - intros E. rewrite E in Hw. destruct (decide (voters VOTE_TYPE_OK hash (proposalAckDetailsMap pm) = ∅)) as [He|(v & Hv)%set_choose_L].
    + rewrite He in Hw. unfold weight in Hw. rewrite sum_over_empty in Hw. pose proof (required_pos vd n f Hf). lia.
    + apply elem_of_voters in Hv as (a & Ha & Hok & _). apply Hacks in Ha as (_ & _ & [Hn|[_ ?]]); [|done].
      rewrite Hok in Hn. done.
  - eapply (backed_quorum _ (proposalAckDetailsMap pm)); [|exact Hw|].
    + eapply map_Forall_impl; [exact Hacks|]. by intros v a [? _].
    + intros v (a & Ha & Hva & Hha)%elem_of_voters. exists a. split; [done|].
      apply Hacks in Ha as (_ & Hra & _). destruct a as [h' v' r']. cbn in Hva, Hha, Hra. by rewrite Hva, Hha, Hra.
  - eapply (backed_quorum _ (precommitDetailsMap pm)); [|exact Hqp|].
    + eapply map_Forall_impl; [exact Hpre|]. by intros v a [? _].
    + intros v [a Ha]%elem_of_dom. exists a. split; [done|]. by apply Hpre in Ha as [_ ?].
  - eapply (backed_quorum _ (commitDetailsMap pm)); [|exact Hqc|].
    + eapply map_Forall_impl; [exact Hcom|]. by intros v a [? _].
    + intros v [a Ha]%elem_of_dom. exists a. split; [done|]. by apply Hcom in Ha as [_ ?].
Qed.

(** The votes of the block's round, when there are any. *)
Lemma ValidatePackets_decided {S} m bcd (w : World S) :
  parsed h (selectedDeposits f) packets m ->
  bcd_VoteType bcd = VOTE_TYPE_OK \/ bcd_VoteType bcd = VOTE_TYPE_NIL ->
  wp (ValidatePackets h (bcd_Round bcd) (m !! bcd_Round bcd) (bcd_VoteType bcd) (selectedDeposits f)
        (fr_depositValue f) (fr_minRequired f) (SelectedTransactions bcd) n (bcd_BlockTime bcd))
    (fun o w' => w_st w' = w_st w /\ (o = Ok () -> decided h vd f packets n bcd)
       /\ (is_panic o = true -> m !! bcd_Round bcd = None)) w.
Proof.
  intros Hm Hvote. destruct (m !! bcd_Round bcd) as [pm|] eqn:Hpm.
  - specialize (Hm _ _ Hpm). rewrite <- (selectedDeposits_total vd n f Hf).
    eapply wp_mono; [apply ValidatePackets_wp|].
    + intros v Hv. rewrite (selectedDeposits_dom vd n f Hf) in Hv. pose proof (selectedDeposits_pos vd n f Hf v Hv). lia.
    + by apply round_parsed_known.
    + intros o w' (Hst & Hp & Ho). split; [done|]. split; [|by rewrite Hp]. intros ->.
      destruct (proj1 Ho eq_refl) as [_ Hd]. by eapply decides_decided.
  - unfold ValidatePackets. cbn zeta. wp_step; [by split|]. wp_norm. apply wp_must. done.
Qed.

(** Loops of checks change nothing. *)
Lemma byteFor_check_wp {S} fuel cond (body : unit -> Z -> M S unit) r (w : World S) :
  (forall a r w', wp (body a r) (fun o w'' => w'' = w' /\ is_panic o = false) w') ->
  wp (byteFor fuel cond body () r) (fun o w' => w' = w /\ (is_panic o = true -> o = Panic out_of_fuel)) w.
Proof.
  intros Hb. apply (wp_byteFor _ _ (fun _ _ w' => w' = w)); [done|..].
  - intros a r' w1 _ ->. eapply wp_mono; [apply Hb|]. intros [] w2 [-> Hp]; try done; by split.
  - by intros a r' w1 _ ->.
  - by intros a r' w1 _ ->.
Qed.

Lemma forM_check_wp {S A} (body : A -> M S unit) (P : A -> Prop) l (w : World S) :
  (forall a w', wp (body a) (fun o w'' => w'' = w' /\ is_panic o = false /\ (o = Ok () -> P a)) w') ->
  wp (forM body l) (fun o w' => w' = w /\ is_panic o = false /\ (o = Ok () -> Forall P l)) w.
Proof.
  intros Hb. induction l as [|a l IH]; simpl; [wp_step; split_and!; try done; constructor|].
  wp_norm. eapply wp_mono; [apply Hb|]. intros [[]|e|e] w' (-> & Hp & HP); try done. simpl.
  eapply wp_mono; [apply IH|]. intros o w' (-> & Hp' & HP'). split_and!; try done.
  intros Ho. constructor; auto.
Qed.

Lemma validateOk_wp {S} txns bcd nilVoted rounds m details ctx (w : World S) :
  parsed h (selectedDeposits f) packets m -> bcd_VoteType bcd = VOTE_TYPE_OK ->
  map_Forall (fun r p => isProposer h (selectedDeposits f) r details n ctx p) rounds ->
  wp (validateOk txns h bcd nilVoted rounds m (selectedDeposits f) (fr_depositValue f) (fr_minRequired f) n)
    (fun o w' => w_st w' = w_st w /\ (o = Ok () -> decided h vd f packets n bcd
       /\ isProposer h (selectedDeposits f) (bcd_Round bcd) details n ctx (BlockProposer bcd)
       /\ data txns ⊆ data (SelectedTransactions bcd))) w.
Proof.
  intros Hm Hok Hrounds. unfold validateOk.
  wp_step; [done|]. apply IsEqualTo_false in H5. wp_step; [done|]. b2p. apply IsEqualTo_true in H6.
  wp_step; [done|].
  assert (Hprop : isProposer h (selectedDeposits f) (bcd_Round bcd) details n ctx (BlockProposer bcd)).
  { unfold proposerOf in H6. destruct (rounds !! bcd_Round bcd) as [p|] eqn:Hp; simpl in H6; [subst p; by apply Hrounds|].
    by rewrite ZERO_ADDRESS_zero in H6. }
  wp_norm. eapply wp_mono with (P := fun o w' => w' = w /\ (o = Ok () -> data txns ⊆ data (SelectedTransactions bcd))).
  { destruct (SelectedTransactions bcd) as [selected|].
    - eapply wp_mono; [apply (forM_check_wp _ (fun t => t ∈ selected))|].
      + intros t w'. wp_step; [done|]. split_and!; try done. intros _. b2p. apply bool_decide_eq_true in H8. set_solver.
      + intros o w' (-> & _ & HP). split; [done|]. intros Ho t Ht. apply HP in Ho. rewrite Forall_forall in Ho. by apply Ho.
    - wp_step; [done|]. split; [done|]. intros _. b2p. unfold len in *. destruct (data txns); simpl in *; [set_solver|lia]. }
  intros [[]|e|e] w1 [-> Hsub]; try done. specialize (Hsub eq_refl). wp_norm.
  eapply wp_mono with (P := fun o w' => w' = w).
  { wp_step; [|done]. wp_norm. eapply wp_mono; [apply byteFor_check_wp|].
    - intros a r w'. by wp_step.
    - intros [[]|e|e] w' [-> _]; try done. simpl. by wp_step. }
  intros [[]|e|e] w1 ->; try done. simpl. rewrite <- Hok.
  eapply wp_mono; [by apply ValidatePackets_decided; [|left]|]. intros o w' (Hst & Ho & _). split; [done|]. intros E. auto.
Qed.

Lemma len_nil {A} (l : list A) : Z.ltb 0 (len l) = false -> l = [].
Proof. unfold len. destruct l; simpl; [done|]. intros. b2p. lia. Qed.

Lemma validateNil_wp {S} txns bcd nilVoted rounds m (w : World S) :
  parsed h (selectedDeposits f) packets m -> bcd_VoteType bcd = VOTE_TYPE_NIL ->
  wp (validateNil txns h bcd nilVoted rounds m (selectedDeposits f) (fr_depositValue f) (fr_minRequired f) n)
    (fun o w' => w_st w' = w_st w /\ (o = Ok () -> decided h vd f packets n bcd
       /\ data txns = [] /\ data (SelectedTransactions bcd) = [] /\ BlockProposer bcd = ZERO_ADDRESS
       /\ bcd_ProposalHash bcd = getNilVoteProposalHash h (bcd_Round bcd)
       /\ bcd_PrecommitHash bcd = getNilVotePreCommitHash h (bcd_Round bcd))) w.
Proof.
  intros Hm Hnil. unfold validateNil.
  wp_step; [done|]. apply len_nil in H5. wp_step; [done|]. apply len_nil in H6.
  wp_step; [done|]. wp_step; [done|]. wp_step; [done|]. b2p.
  repeat match goal with Hq : IsEqualTo _ _ = true |- _ => apply IsEqualTo_true in Hq end.
  wp_norm. eapply wp_mono; [apply byteFor_check_wp|].
  { intros a r w'. wp_step; [done|]. by wp_step. }
  intros [[]|e|e] w1 [-> _]; try done. simpl. wp_step; [done|]. rewrite <- Hnil.
  eapply wp_mono; [by apply ValidatePackets_decided; [|right]|]. intros o w' (Hst & Ho & _).
  split; [done|]. intros E. split; auto.
Qed.
End decided.

Lemma ValidateBlockConsensusDataInner_wp txns h bcd badd n ctx (w : World ValidatorMaps) :
  wp (ValidateBlockConsensusDataInner txns h bcd badd n ctx)
    (fun o w' => o = Ok () -> exists f (wf : World ValidatorMaps),
       out (filterValidators h (vm_deposits (w_st w)) n) wf = Ok f /\
       certificate h (vm_deposits (w_st w)) (vm_details (w_st w)) (data txns) bcd (data (ConsensusPackets badd)) n ctx f) w.
Proof.
  unfold ValidateBlockConsensusDataInner.
  wp_step; [done|]. wp_step; [done|]. wp_step; [done|]. cbn zeta. wp_step.
  wp_use (wp_out _ _ _ (filterValidators_wp _ _ _ _)). intros [f|e|e] w1 [[Hst Hfo] Hout]; try done. apply filter_outcome_ok in Hfo as Hf.
  wp_step. wp_step; [done|]. wp_step; [done|]. wp_step; [done|]. wp_norm.
  set (vd := vm_deposits (w_st w)) in *.
  eapply wp_mono with (P := fun o w' => o = Ok () ->
    vm_details (w_st w') = activeDetails (fr_validators f) n (vm_details (w_st w))).
  { unfold activeDetails. destruct (Z.leb BLOCK_PROPOSER_NIL_BLOCK_START_BLOCK n); cbn [when]; [|wp_step; intros _; simpl; by rewrite Hst].
    wp_step. wp_norm. apply wp_must. simpl. rewrite Hst. destruct (vm_details (w_st w)) as [m|]; [|done]. wp_step. wp_step.
    intros _. simpl. rewrite pruneValidators_filter by done. by rewrite (selectedDeposits_dom vd n f Hf). }
  intros [[]|e|e] w2 Hdetails; try done. specialize (Hdetails eq_refl). wp_step. rewrite Hdetails.
  wp_use roundProposers_wp. intros [rounds|e|e] w3 [_ Hrounds]; try done. specialize (Hrounds _ eq_refl). wp_norm.
  eapply wp_mono with (P := fun o w' => forall packets, o = Ok packets -> packets = data (ConsensusPackets badd)).
  { destruct (ConsensusPackets badd) as [l|]; wp_step; [|done]. by intros packets [= <-]. }
  intros [packets|e|e] w4 Hpackets; try done. rewrite (Hpackets packets eq_refl). clear packets Hpackets.
  wp_use ParseConsensusPackets_wp. intros [m|e|e] w5 [_ Hm]; try done. specialize (Hm _ eq_refl). wp_norm.
  destruct (Z.eqb_spec (bcd_VoteType bcd) VOTE_TYPE_NIL) as [Hv|_]; [|destruct (Z.eqb_spec (bcd_VoteType bcd) VOTE_TYPE_OK) as [Hv|_]; [|by wp_step]].
  - eapply wp_mono; [by apply (validateNil_wp h vd n f Hf)|]. intros o w6 [_ Ho] Hok. exists f, w. split; [done|].
    destruct (Ho Hok) as ((Hr & Hr' & Ha & Hp & Hc) & Hnil). split; try done. right. by split.
  - eapply wp_mono; [by apply (validateOk_wp h vd n f Hf)|]. intros o w6 [_ Ho] Hok. exists f, w. split; [done|].
    destruct (Ho Hok) as ((Hr & Hr' & Ha & Hp & Hc) & Hprop & Hsub). split; try done. left. split; [done|]. split; auto.
Qed.

(** * Theorems *)

(** The validator [v] signed two different acknowledgements of one round. *)
Definition doubleSigned (h : Hash) (packets1 packets2 : list ConsensusPacket) (v : Address) : Prop :=
  exists p1 p2 a1 a2, p1 ∈ packets1 /\ p2 ∈ packets2 /\ a1 <> a2 /\ pad_Round a1 = pad_Round a2
    /\ signedVote h CONSENSUS_PACKET_TYPE_ACK_BLOCK_PROPOSAL a1 v p1
    /\ signedVote h CONSENSUS_PACKET_TYPE_ACK_BLOCK_PROPOSAL a2 v p2.

(** Two certificates over the same validators with different acknowledgements. *)
Lemma certificates_conflict h vd f n details1 details2 txns1 txns2 bcd1 bcd2 packets1 packets2 ctx1 ctx2 :
  certificate h vd details1 txns1 bcd1 packets1 n ctx1 f ->
  certificate h vd details2 txns2 bcd2 packets2 n ctx2 f ->
  bcd_VoteType bcd1 = VOTE_TYPE_OK /\ bcd_VoteType bcd2 = VOTE_TYPE_OK \/ bcd_Round bcd1 = bcd_Round bcd2 ->
  ackOf h n bcd1 <> ackOf h n bcd2 ->
  exists D, D ⊆ fr_validators f /\ D <> ∅
    /\ (2 * minPercentage n - 100) * fr_depositValue f - 200 < 100 * weight vd D
    /\ forall v, v ∈ D -> doubleSigned h packets1 packets2 v.
Proof.
  intros C1 C2 Hvote Hdiff.
  assert (Hround : bcd_Round bcd1 = bcd_Round bcd2).
  { destruct Hvote as [[V1 V2]|]; [|done]. pose proof (cert_round _ _ _ _ _ _ _ _ _ C1). pose proof (cert_round _ _ _ _ _ _ _ _ _ C2).
    destruct (cert_vote _ _ _ _ _ _ _ _ _ C1) as [(_ & ? & _)|[E _]]; [|by rewrite V1 in E].
    destruct (cert_vote _ _ _ _ _ _ _ _ _ C2) as [(_ & ? & _)|[E _]]; [|by rewrite V2 in E].
    unfold MAX_ROUND in *. lia. }
  destruct (cert_acks _ _ _ _ _ _ _ _ _ C1) as (X & HX & HwX & HsX).
  destruct (cert_acks _ _ _ _ _ _ _ _ _ C2) as (Y & HY & HwY & HsY).
  destruct (quorum_overlap vd n f (cert_filter _ _ _ _ _ _ _ _ _ C1) X Y HX HY HwX HwY) as [Hw Hne].
  exists (X ∩ Y). split; [set_solver|]. split; [done|]. split; [done|].
  intros v [Hv1 Hv2]%elem_of_intersection.
  destruct (HsX v Hv1) as (p1 & a1 & Hp1 & Hs1 & ->), (HsY v Hv2) as (p2 & a2 & Hp2 & Hs2 & ->).
  exists p1, p2, (ackOf h n bcd1), (ackOf h n bcd2). by split_and!.
Qed.

Lemma filterValidators_same {S} (R1 R2 : GoRuntime) h vd n (w1 w2 : World S) :
  (forall x y, x ∈ dom vd -> y ∈ dom vd -> filterKey h x = filterKey h y -> x = y) ->
  @out S _ (@filterValidators _ _ _ R1 S h vd n) w1 = @out S _ (@filterValidators _ _ _ R2 S h vd n) w2.
Proof.
  intros Hinj.
  pose proof (@filterValidators_canonical _ _ _ R1 _ h vd n w1 w1 Hinj) as ->%wp_run.
  pose proof (@filterValidators_canonical _ _ _ R2 _ h vd n w2 w1 Hinj) as ->%wp_run. done.
Qed.
End certificate.

(** * Termination and panics *)

Section termination.
Context `{FloatConv} `{NodeConfig} `{Crypto} `{DRNG} `{GoRuntime} `{SignatureAlgorithm}.

Lemma recoverPublicKey_safe {S} (P : S -> Prop) Q packet ty : safe P Q (recoverPublicKey packet ty).
Proof. unfold recoverPublicKey. cbn zeta. safe_steps. Qed.
#[local] Hint Resolve recoverPublicKey_safe : safe.

Lemma parseOne_safe {S} (P : S -> Prop) Q h deposits n details ctx m packet :
  (BLOCK_PROPOSER_NIL_BLOCK_START_BLOCK <= n -> details <> None) -> packet_ok packet ->
  safe P Q (parseOne h deposits n details ctx m packet).
Proof.
  intros Hd Hp. unfold parseOne, parseProposal, parseAck, parsePrecommit, parseCommit. cbn zeta.
  safe_steps.
Qed.

Lemma ValidatePackets_safe {S} (P : S -> Prop) (Q : string -> Prop) h r pm vote valMap total required txns n t :
  (pm = None -> Q "nil packetMap") ->
  safe P Q (ValidatePackets h r pm vote valMap total required txns n t).
Proof. intros Hpm. unfold ValidatePackets, countAck, countVote. cbn zeta. safe_steps. Qed.

Lemma validateOk_safe {S} (P : S -> Prop) Q txns h bcd nilVoted rounds m deposits total required n :
  bcd_Round bcd < 255 -> Q "nil packetMap" ->
  safe P Q (validateOk txns h bcd nilVoted rounds m deposits total required n).
Proof.
  intros Hr HQ. unfold validateOk.
  safe_steps; try (by apply ValidatePackets_safe). apply safe_byteFor_lt; [lia..|]. safe_steps.
Qed.

Lemma validateNil_safe {S} (P : S -> Prop) Q txns h bcd nilVoted rounds m deposits total required n :
  1 <= bcd_Round bcd < 255 ->
  safe P Q (validateNil txns h bcd nilVoted rounds m deposits total required n).
Proof.
  intros Hr w Hw. unfold validateNil. do 5 (wp_step; [by split|]). wp_norm.
  eapply wp_mono; [apply (byteFor_le_check _ (fun r => m !! r <> None)); [lia|]|].
  { intros r w'. wp_step; [done|]. wp_step; [done|]. split_and!; try done.
    intros _. match goal with Hn : bool_decide (m !! r = None) = false |- _ => by apply bool_decide_eq_false in Hn end. }
  intros [[]|e|e] w' (-> & Hp & Hall); try done. specialize (Hall eq_refl (bcd_Round bcd) ltac:(lia)). simpl.
  wp_step; [by split|]. by apply ValidatePackets_safe.
Qed.

Lemma ValidateBlockConsensusDataInner_safe txns h bcd badd n ctx :
  bcd_Round bcd < 255 -> Forall packet_ok (data (ConsensusPackets badd)) ->
  safe (fun s => BLOCK_PROPOSER_NIL_BLOCK_START_BLOCK <= n -> vm_details s <> None)
    (fun why => why = "nil packetMap"%string /\ bcd_VoteType bcd = VOTE_TYPE_OK)
    (ValidateBlockConsensusDataInner txns h bcd badd n ctx).
Proof.
  intros Hround Hpackets. unfold ValidateBlockConsensusDataInner, ParseConsensusPackets, fail_if at 1.
  destruct (Z.ltb_spec (bcd_Round bcd) 1) as [?|Hr1]; [apply safe_bind_fail|]. rewrite Forall_forall in Hpackets.
  destruct (ConsensusPackets badd) as [l|]; cbn zeta; safe_steps; auto.
  all: lazymatch goal with
  | |- safe _ _ (parseOne _ _ _ _ _ _ _) => by apply parseOne_safe; auto
  | |- safe _ _ (validateNil _ _ _ _ _ _ _ _ _ _) => by apply validateNil_safe
  | |- safe _ _ (validateOk _ _ _ _ _ _ _ _ _ _) => apply validateOk_safe; [done|by b2p]
  | |- safe _ _ (roundProposers _ _ _ _ _ _) => apply safe_byteFor_le; [lia..|]; safe_steps; auto
  | |- vm_details _ = None -> _ => intros E; b2p; by destruct (H7 H6)
  end.
Qed.
End termination.

Section theorems.
Context `{FloatConv} `{NodeConfig} `{Crypto} `{DRNG} `{SignatureAlgorithm}.

(** C3: an accepted block carries a certificate.  When
    [ValidateBlockConsensusDataInner] accepts the consensus data of a block, whatever
    the order in which maps are visited, validators holding the required deposit
    signed an acknowledgement of exactly this round, vote and set of selected
    transactions, and validators holding the required deposit signed a precommit and
    a commit of the round; an OK block was decided before the last round by its
    elected proposer and contains selected transactions only; a NIL block is empty. *)
Theorem accepted_block_certificate `{GoRuntime} txns h bcd badd n ctx (w : World ValidatorMaps)
  (Hok : out (ValidateBlockConsensusDataInner txns h bcd badd n ctx) w = Ok ()) :
  exists f, filter_outcome h (vm_deposits (w_st w)) n (Ok f) /\
    certificate h (vm_deposits (w_st w)) (vm_details (w_st w)) (data txns) bcd (data (ConsensusPackets badd)) n ctx f.
Proof.
  pose proof (ValidateBlockConsensusDataInner_wp txns h bcd badd n ctx w) as Hw%wp_run.
  destruct (Hw Hok) as (f & wf & Hf & Hc). exists f. split; [|done].
  pose proof (filterValidators_wp h (vm_deposits (w_st w)) n wf) as [_ Ho]%wp_run. by rewrite Hf in Ho.
Qed.

(** C4: conflicting blocks expose double signers.  When two nodes accept two blocks
    on the same parent that are both OK blocks, or both of the same round, and whose
    votes differ (other transactions, other time or other vote), then validators
    holding more than (2 * percentage - 100)% of the deposits signed two different
    acknowledgements of one round, and the packets of the two blocks prove it. *)
Theorem conflicting_blocks_accountable (R1 R2 : GoRuntime) h n txns1 txns2 bcd1 bcd2 badd1 badd2 ctx1 ctx2
  (w1 w2 : World ValidatorMaps)
  (Hinj : forall x y, x ∈ dom (vm_deposits (w_st w1)) -> y ∈ dom (vm_deposits (w_st w1)) ->
     filterKey h x = filterKey h y -> x = y)
  (Hvd : vm_deposits (w_st w2) = vm_deposits (w_st w1))
  (Hok1 : out (@ValidateBlockConsensusDataInner _ _ _ _ R1 _ txns1 h bcd1 badd1 n ctx1) w1 = Ok ())
  (Hok2 : out (@ValidateBlockConsensusDataInner _ _ _ _ R2 _ txns2 h bcd2 badd2 n ctx2) w2 = Ok ())
  (Hvote : bcd_VoteType bcd1 = VOTE_TYPE_OK /\ bcd_VoteType bcd2 = VOTE_TYPE_OK \/ bcd_Round bcd1 = bcd_Round bcd2)
  (Hdiff : ackOf h n bcd1 <> ackOf h n bcd2) :
  exists f D, filter_spec (vm_deposits (w_st w1)) n f /\ D ⊆ fr_validators f /\ D <> ∅
    /\ (2 * minPercentage n - 100) * fr_depositValue f - 200 < 100 * weight (vm_deposits (w_st w1)) D
    /\ forall v, v ∈ D -> doubleSigned h (data (ConsensusPackets badd1)) (data (ConsensusPackets badd2)) v.
Proof.
  pose proof (@ValidateBlockConsensusDataInner_wp _ _ _ _ R1 _ txns1 h bcd1 badd1 n ctx1 w1) as Hw1%wp_run.
  pose proof (@ValidateBlockConsensusDataInner_wp _ _ _ _ R2 _ txns2 h bcd2 badd2 n ctx2 w2) as Hw2%wp_run.
  destruct (Hw1 Hok1) as (f1 & wf1 & Hf1 & C1), (Hw2 Hok2) as (f2 & wf2 & Hf2 & C2). rewrite Hvd in Hf2, C2.
  rewrite (filterValidators_same R2 R1 h _ n wf2 wf1 Hinj), Hf1 in Hf2. injection Hf2 as <-.
  exists f1. destruct (certificates_conflict h _ f1 n _ _ _ _ bcd1 bcd2 _ _ _ _ C1 C2 Hvote Hdiff) as (D & HD).
  exists D. split; [exact (cert_filter _ _ _ _ _ _ _ _ _ C1)|exact HD].
Qed.

(** C20: [ValidatePackets] decides exactly when the deposits do.  On the votes that
    [ParseConsensusPackets] lets through, and whatever the order in which they are
    visited, it succeeds if and only if a NIL block has no transactions and no NIL
    acknowledgement with another hash, the acknowledgements with the block's vote
    and hash reach the required deposit while those with the other vote do not, and
    the precommits and the commits each reach it; it never panics. *)
Theorem ValidatePackets_correct `{GoRuntime} {S} (valMap : gmap Address Z) parentHash round pm voteType required txns n time
  (w : World S)
  (Hpos : forall v, v ∈ dom valMap -> 0 <= dep valMap v) (Hknown : votes_known valMap round pm) :
  let o := out (ValidatePackets parentHash round (Some pm) voteType valMap (weight valMap (dom valMap)) required txns n time) w in
  is_panic o = false /\
  (is_ok o = true <-> (voteType = VOTE_TYPE_OK \/ data txns = []) /\
     decides valMap voteType (votedHash parentHash round voteType (data txns) n time) required pm).
Proof.
  pose proof (ValidatePackets_wp valMap Hpos parentHash round pm voteType required txns n time w Hknown) as Hw%wp_run.
  apply Hw.
Qed.

(** The hashes in the precommits and commits of a block are not checked: only
    who sent them counts.  Replacing all of them changes nothing. *)
Theorem ValidatePackets_ignores_hashes `{GoRuntime} {S} (valMap : gmap Address Z) parentHash round pm pm' voteType required txns
  n time (w w' : World S)
  (Hpos : forall v, v ∈ dom valMap -> 0 <= dep valMap v)
  (Hknown : votes_known valMap round pm)
  (Hacks : proposalAckDetailsMap pm' = proposalAckDetailsMap pm)
  (Hpre : dom (precommitDetailsMap pm') = dom (precommitDetailsMap pm))
  (Hcom : dom (commitDetailsMap pm') = dom (commitDetailsMap pm)) :
  is_ok (out (ValidatePackets parentHash round (Some pm') voteType valMap (weight valMap (dom valMap)) required txns n time) w')
  = is_ok (out (ValidatePackets parentHash round (Some pm) voteType valMap (weight valMap (dom valMap)) required txns n time) w).
Proof.
  assert (Hknown' : votes_known valMap round pm') by (unfold votes_known; by rewrite Hacks, Hpre, Hcom).
  pose proof (ValidatePackets_wp valMap Hpos parentHash round pm voteType required txns n time w Hknown) as (_ & _ & H1')%wp_run.
  pose proof (ValidatePackets_wp valMap Hpos parentHash round pm' voteType required txns n time w' Hknown') as (_ & _ & H2')%wp_run.
  unfold decides in *. rewrite Hacks, Hpre, Hcom in H2'. apply eq_true_iff_eq. by rewrite H1', H2'.
Qed.

(** C21: the validation of a block terminates and does not crash, but for one case.
    With a round below 255, readable packets and the validator details that the
    block number calls for, [ValidateBlockConsensusDataInner] returns or refuses the
    block; the only panic left is that of an OK block without packets of its round. *)
Theorem ValidateBlockConsensusDataInner_terminates `{GoRuntime} txns h bcd badd n ctx (w : World ValidatorMaps)
  (Hround : bcd_Round bcd < 255) (Hpackets : Forall packet_ok (data (ConsensusPackets badd)))
  (Hdetails : BLOCK_PROPOSER_NIL_BLOCK_START_BLOCK <= n -> vm_details (w_st w) <> None) :
  match out (ValidateBlockConsensusDataInner txns h bcd badd n ctx) w with
  | Panic why => why = "nil packetMap"%string /\ bcd_VoteType bcd = VOTE_TYPE_OK
  | _ => True
  end.
Proof.
  pose proof (ValidateBlockConsensusDataInner_safe txns h bcd badd n ctx Hround Hpackets w Hdetails) as [_ Hw]%wp_run.
  exact Hw.
Qed.

(** A block that claims round 255 hangs the node.  The loop over the rounds
    [for r := byte(1); r <= Round; r++] wraps around and never ends: however long it
    runs, it is still running. *)
Theorem roundProposers_255_diverges `{GoRuntime} {S} fuel h deposits vm n ctx (w : World S)
  (Hdep : MIN_VALIDATORS <= Z.of_nat (base.size deposits)) (Hvm : MIN_VALIDATORS <= Z.of_nat (base.size vm)) :
  out (roundProposersLoop fuel h deposits (Some vm) n ctx 255) w = Panic out_of_fuel.
Proof.
  apply byteFor_255; [|split; lia]. intros acc r _ w'.
  pose proof (getBlockProposer_wp h deposits r (Some vm) n ctx w') as [_ Ho]%wp_run.
  unfold out in Ho. unfold mbind, M_bind. destruct (getBlockProposer h deposits r (Some vm) n ctx w') as [[p|e|e] w''].
  - by eexists _, _.
  - exfalso. destruct Ho as [?|(vm' & [= <-] & ?)]; lia.
  - by destruct Ho as [_ ?].
Qed.
End theorems.

(** * Closed instances *)

Section witnesses.
#[local] Existing Instance windowHash.
#[local] Existing Instance threeValidators.
#[local] Existing Instance zeroFloat.
#[local] Existing Instance zeroDRNG.
#[local] Existing Instance plainSignatures.
#[local] Existing Instance steadyRuntime.

(** A vote of the validator [v] on the zero parent. *)
Definition exampleVote {A} `{RlpStruct A} (ty : Z) (a : A) (v : Address) : ConsensusPacket :=
  mkConsensusPacket ZERO_HASH (Some (arr_bytes v))
    (Some (dataToSend 0 ty (match rlp_EncodeToBytes a with Ok b => b | _ => [] end))).

(** The votes of four validators for an OK block with the transactions [txns];
    the precommits and commits carry the hash [hash]. *)
Definition examplePackets (hash : Hash) (txns : list Hash) : list ConsensusPacket :=
  let vs := map (fun i => addr (Z.of_nat i)) (seq 1 4) in
  map (exampleVote CONSENSUS_PACKET_TYPE_ACK_BLOCK_PROPOSAL
    (mkProposalAckDetails (votedHash ZERO_HASH 1 VOTE_TYPE_OK txns 100 0) VOTE_TYPE_OK 1)) vs
  ++ map (exampleVote CONSENSUS_PACKET_TYPE_PRECOMMIT_BLOCK (mkPreCommitDetails hash 1)) vs
  ++ map (exampleVote CONSENSUS_PACKET_TYPE_COMMIT_BLOCK (mkCommitDetails hash 1)) vs.

Definition exampleData (round : Z) (txns : list Hash) : BlockConsensusData :=
  mkBlockConsensusData (addr 1) VOTE_TYPE_OK (addr 9) (addr 9) (Some []) round (Some txns) 0.

Definition exampleMaps : World ValidatorMaps :=
  mkWorld 0 (mkValidatorMaps (exampleDeposits 4 MIN_BLOCK_DEPOSIT) None).

Definition validateExample (round : Z) (txns : list Hash) (packets : list ConsensusPacket) : outcome unit :=
  out (ValidateBlockConsensusDataInner (Some txns) ZERO_HASH (exampleData round txns)
    (mkBlockAdditionalConsensusData (Some packets) 0) 100 ZERO_HASH) exampleMaps.

Lemma accepted_block_certificate_witness :
  exists f, filter_outcome ZERO_HASH (exampleDeposits 4 MIN_BLOCK_DEPOSIT) 100 (Ok f) /\
    certificate ZERO_HASH (exampleDeposits 4 MIN_BLOCK_DEPOSIT) None [addr 7] (exampleData 1 [addr 7])
      (examplePackets (addr 8) [addr 7]) 100 ZERO_HASH f.
Proof.
  apply (accepted_block_certificate (Some [addr 7]) ZERO_HASH (exampleData 1 [addr 7])
    (mkBlockAdditionalConsensusData (Some (examplePackets (addr 8) [addr 7])) 0) 100 ZERO_HASH exampleMaps).
  vm_compute. reflexivity.
Defined.

Lemma conflicting_blocks_accountable_witness :
  exists f D, filter_spec (exampleDeposits 4 MIN_BLOCK_DEPOSIT) 100 f /\ D ⊆ fr_validators f /\ D <> ∅
    /\ (2 * minPercentage 100 - 100) * fr_depositValue f - 200 < 100 * weight (exampleDeposits 4 MIN_BLOCK_DEPOSIT) D
    /\ forall v, v ∈ D -> doubleSigned ZERO_HASH (examplePackets (addr 8) []) (examplePackets (addr 8) [addr 7]) v.
Proof.
  apply (conflicting_blocks_accountable steadyRuntime reverseRuntime ZERO_HASH 100 (Some []) (Some [addr 7])
    (exampleData 1 []) (exampleData 1 [addr 7])
    (mkBlockAdditionalConsensusData (Some (examplePackets (addr 8) [])) 0)
    (mkBlockAdditionalConsensusData (Some (examplePackets (addr 8) [addr 7])) 0) ZERO_HASH ZERO_HASH exampleMaps exampleMaps).
  - intros x y _ _. apply window_filterKey_inj.
  - reflexivity.
  - vm_compute. reflexivity.
  - vm_compute. reflexivity.
  - left. split; reflexivity.
  - intros E. apply (f_equal (fun a => arr_bytes (pad_ProposalHash a))) in E. vm_compute in E. discriminate.
Defined.

(** The votes of the example block as [ParseConsensusPackets] reads them. *)
Definition examplePacketMap (hash : Hash) : PacketMap :=
  mkPacketMap 1 ∅
    (list_to_map (map (fun i => (addr (Z.of_nat i),
       mkProposalAckDetails (votedHash ZERO_HASH 1 VOTE_TYPE_OK [] 100 0) VOTE_TYPE_OK 1)) (seq 1 4)))
    (list_to_map (map (fun i => (addr (Z.of_nat i), mkPreCommitDetails hash 1)) (seq 1 4)))
    (list_to_map (map (fun i => (addr (Z.of_nat i), mkCommitDetails hash 1)) (seq 1 4))).

Lemma examplePacketMap_known hash : votes_known (exampleDeposits 4 MIN_BLOCK_DEPOSIT) 1 (examplePacketMap hash).
Proof.
  assert (Hd : dom (exampleDeposits 4 MIN_BLOCK_DEPOSIT) = list_to_set (map (fun i => addr (Z.of_nat i)) (seq 1 4))).
  { unfold exampleDeposits. rewrite dom_list_to_map_L. by rewrite map_map. }
  unfold votes_known, examplePacketMap; cbn [proposalAckDetailsMap precommitDetailsMap commitDetailsMap].
  rewrite !dom_list_to_map_L, !map_map, Hd. split; [|split; done].
  intros v a Hv. apply elem_of_list_to_map_2, list_elem_of_fmap in Hv as (i & [= -> ->] & Hi).
  split; [|split; [done|by right]]. apply elem_of_list_to_set, list_elem_of_fmap. eauto.
Qed.

Lemma exampleDeposits_nonneg v : v ∈ dom (exampleDeposits 4 MIN_BLOCK_DEPOSIT) -> 0 <= dep (exampleDeposits 4 MIN_BLOCK_DEPOSIT) v.
Proof.
  intros [d Hd]%elem_of_dom. unfold dep. rewrite Hd. unfold exampleDeposits in Hd.
  apply elem_of_list_to_map_2, list_elem_of_fmap in Hd as (i & [= -> ->] & _). simpl. unfold MIN_BLOCK_DEPOSIT, EtherToWei, Ether. lia.
Qed.

Definition validateVotes (pm : PacketMap) : M unit unit :=
  ValidatePackets ZERO_HASH 1 (Some pm) VOTE_TYPE_OK (exampleDeposits 4 MIN_BLOCK_DEPOSIT)
    (weight (exampleDeposits 4 MIN_BLOCK_DEPOSIT) (dom (exampleDeposits 4 MIN_BLOCK_DEPOSIT))) MIN_BLOCK_DEPOSIT (Some []) 100 0.

Lemma ValidatePackets_correct_witness :
  let o := out (validateVotes (examplePacketMap (addr 8))) (mkWorld 0 ()) in
  is_panic o = false /\
  (is_ok o = true <-> (VOTE_TYPE_OK = VOTE_TYPE_OK \/ @nil Hash = []) /\
     decides (exampleDeposits 4 MIN_BLOCK_DEPOSIT) VOTE_TYPE_OK (votedHash ZERO_HASH 1 VOTE_TYPE_OK [] 100 0)
       MIN_BLOCK_DEPOSIT (examplePacketMap (addr 8))).
Proof.
  apply (ValidatePackets_correct (exampleDeposits 4 MIN_BLOCK_DEPOSIT) ZERO_HASH 1 (examplePacketMap (addr 8)) VOTE_TYPE_OK
    MIN_BLOCK_DEPOSIT (Some []) 100 0 (mkWorld 0%nat ())).
  - exact exampleDeposits_nonneg.
  - exact (examplePacketMap_known (addr 8)).
Defined.

Lemma ValidatePackets_ignores_hashes_witness :
  is_ok (out (validateVotes (examplePacketMap (addr 9))) (mkWorld 0 ())) = is_ok (out (validateVotes (examplePacketMap (addr 8))) (mkWorld 0 ())).
Proof.
  apply (ValidatePackets_ignores_hashes (exampleDeposits 4 MIN_BLOCK_DEPOSIT) ZERO_HASH 1 (examplePacketMap (addr 8)) (examplePacketMap (addr 9))
    VOTE_TYPE_OK MIN_BLOCK_DEPOSIT (Some []) 100 0 (mkWorld 0%nat ()) (mkWorld 0%nat ())).
  - exact exampleDeposits_nonneg.
  - exact (examplePacketMap_known (addr 8)).
  - reflexivity.
  - cbn [precommitDetailsMap examplePacketMap]. by rewrite !dom_list_to_map_L, !map_map.
  - cbn [commitDetailsMap examplePacketMap]. by rewrite !dom_list_to_map_L, !map_map.
Defined.

Lemma ValidateBlockConsensusDataInner_terminates_witness :
  match validateExample 1 [addr 7] (examplePackets (addr 8) [addr 7]) with
  | Panic why => why = "nil packetMap"%string /\ VOTE_TYPE_OK = VOTE_TYPE_OK
  | _ => True
  end.
Proof.
  apply (ValidateBlockConsensusDataInner_terminates (Some [addr 7]) ZERO_HASH (exampleData 1 [addr 7])
    (mkBlockAdditionalConsensusData (Some (examplePackets (addr 8) [addr 7])) 0) 100 ZERO_HASH exampleMaps).
  - reflexivity.
  - repeat (apply List.Forall_cons; [split; [vm_compute; reflexivity|vm_compute; exact I]|]). apply List.Forall_nil.
  - intros E. exfalso. vm_compute in E. apply E. reflexivity.
Defined.

Lemma roundProposers_255_diverges_witness :
  out (roundProposersLoop 1000 ZERO_HASH (exampleDeposits 4 MIN_BLOCK_DEPOSIT) (Some (exampleValidators 4)) 600000 ZERO_HASH 255)
    (mkWorld 0%nat ()) = Panic out_of_fuel.
Proof.
  apply (roundProposers_255_diverges 1000 ZERO_HASH (exampleDeposits 4 MIN_BLOCK_DEPOSIT) (exampleValidators 4) 600000 ZERO_HASH (mkWorld 0%nat ()));
    apply Z.leb_le; vm_compute; reflexivity.
Defined.

(** An OK block without any packet of its round crashes the validation: the
    missing map entry is dereferenced. *)
Theorem ValidateBlockConsensusDataInner_missing_round_panics :
  validateExample 1 [] [] = Panic "nil packetMap".
Proof. vm_compute. reflexivity. Qed.
End witnesses.
