(* ===== verification/Peer.v ===== *)
(** The peer handler: which peers are consensus relays, which asked for
    consensus packets, and to whom a packet still has to be sent.

    Models src/consensus/proofofstake/PeerHandler.go, every function of it.  A
    [go] statement appends a task to the state; a task runs later, in any order
    ([runTask]).  The two mutexes are the subject of the last section. *)

From S2P Require Import Prelude Common Selection Rlp RlpEnc RlpDec Packets.
From Stdlib Require Import Strings.Byte.

(** A peer id is a Go string, here its bytes. *)
Abbreviation PeerId := (list byte).

(** * What the node provides

    The signer of the account ([SignerFn], [SignerFnWithContext]) and the
    network ([handler.P2PHandler]); every answer may depend on the moment. *)
Class Signer := {
  signFn : nat -> Address -> list byte -> list byte + error;
  signFnWithContext : nat -> Address -> list byte -> list byte -> list byte + error;
}.

Class P2PHandler := {
  SendConsensusPacket : nat -> list PeerId -> ConsensusPacket -> option error;
  RequestTransactions : nat -> list Hash -> option error;
}.

(** * State *)

Record PeerDetails := mkPeerDetails {
  capabilityDetails : option CapabilityDetails;
  peerId : PeerId;
}.

Record PacketSyncDetails := mkPacketSyncDetails {
  incomingPeerMap : gset PeerId;
  sync_packet : ConsensusPacket;
  sendPeerMap : gset PeerId;
}.

(** The goroutines that the handler starts. *)
Inductive PeerTask :=
| GoSendCapabilityPacket (peerList : list PeerId)
| GoConnectAvailableConsensusRelay
| GoHandleCapabilityPacket (d : CapabilityDetails) (fromPeerId : PeerId)
| GoHandleRequestConsensusSync (d : RequestConsensusSyncDetails) (fromPeerId : PeerId)
| GoBroadcastToSyncPeers (packet : ConsensusPacket) (fromPeerId : PeerId)
| GoBroadcastToConsensusRelays (packet : ConsensusPacket) (fromPeerId : PeerId)
| GoSendRequestConsensusSyncPacket (peer : PeerId)
| GoSendCapabilityToAllPeers
| GoSendCapabilityToDeltaPeers
| GoSendConsensusPacket (peerList : list PeerId) (packet : ConsensusPacket).

(** The counters of one kind of packet: the running total, and the count since
    the parent hash last changed. *)
Record Counter := mkCounter { c_total : Z; c_current : Z }.

Record PeerHandler := mkPeerHandler {
  peerMap : gmap PeerId PeerDetails;
  p2pHandlerSet : bool;
  p_signFnSet : bool;
  p_account : Address;
  isConsensusRelay : bool;
  localPeerId : PeerId;
  consensusRelayMap : gmap PeerId bool;
  syncPeerMap : gmap PeerId bool;
  packetSyncMap : gmap Hash PacketSyncDetails;
  p_currentParentHash : Hash;
  p_currentBlockNumber : Z;
  totalBlocks : Z;
  packetsReceived : Counter;
  packetsReceivedFromRelay : Counter;
  packetsSent : Counter;
  packetsSentToRelays : Counter;
  localPacketsSentToRelays : Counter;
  tasks : list PeerTask;
  sentPackets : list (list PeerId * ConsensusPacket);
}.

#[export] Instance eta_PeerHandler : Eta PeerHandler := fun p =>
  mkPeerHandler (peerMap p) (p2pHandlerSet p) (p_signFnSet p) (p_account p) (isConsensusRelay p)
    (localPeerId p) (consensusRelayMap p) (syncPeerMap p) (packetSyncMap p) (p_currentParentHash p)
    (p_currentBlockNumber p) (totalBlocks p) (packetsReceived p) (packetsReceivedFromRelay p)
    (packetsSent p) (packetsSentToRelays p) (localPacketsSentToRelays p) (tasks p) (sentPackets p).

#[export] Instance set_peerMap : Setter peerMap := ltac:(derive_setter).
#[export] Instance set_p2pHandlerSet : Setter p2pHandlerSet := ltac:(derive_setter).
#[export] Instance set_p_signFnSet : Setter p_signFnSet := ltac:(derive_setter).
#[export] Instance set_p_account : Setter p_account := ltac:(derive_setter).
#[export] Instance set_localPeerId : Setter localPeerId := ltac:(derive_setter).
#[export] Instance set_consensusRelayMap : Setter consensusRelayMap := ltac:(derive_setter).
#[export] Instance set_syncPeerMap : Setter syncPeerMap := ltac:(derive_setter).
#[export] Instance set_packetSyncMap : Setter packetSyncMap := ltac:(derive_setter).
#[export] Instance set_p_currentParentHash : Setter p_currentParentHash := ltac:(derive_setter).
#[export] Instance set_p_currentBlockNumber : Setter p_currentBlockNumber := ltac:(derive_setter).
#[export] Instance set_totalBlocks : Setter totalBlocks := ltac:(derive_setter).
#[export] Instance set_packetsReceived : Setter packetsReceived := ltac:(derive_setter).
#[export] Instance set_packetsReceivedFromRelay : Setter packetsReceivedFromRelay := ltac:(derive_setter).
#[export] Instance set_packetsSent : Setter packetsSent := ltac:(derive_setter).
#[export] Instance set_packetsSentToRelays : Setter packetsSentToRelays := ltac:(derive_setter).
#[export] Instance set_localPacketsSentToRelays : Setter localPacketsSentToRelays := ltac:(derive_setter).
#[export] Instance set_tasks : Setter tasks := ltac:(derive_setter).
#[export] Instance set_sentPackets : Setter sentPackets := ltac:(derive_setter).

(** Reads the fields of an updated peer handler. *)
Ltac peer_simpl :=
  cbn [upd set_peerMap set_p2pHandlerSet set_p_signFnSet set_p_account set_localPeerId
    set_consensusRelayMap set_syncPeerMap set_packetSyncMap set_p_currentParentHash
    set_p_currentBlockNumber set_totalBlocks set_packetsReceived set_packetsReceivedFromRelay
    set_packetsSent set_packetsSentToRelays set_localPacketsSentToRelays set_tasks set_sentPackets
    peerMap p2pHandlerSet p_signFnSet p_account isConsensusRelay localPeerId consensusRelayMap
    syncPeerMap packetSyncMap p_currentParentHash p_currentBlockNumber totalBlocks packetsReceived
    packetsReceivedFromRelay packetsSent packetsSentToRelays localPacketsSentToRelays tasks
    sentPackets w_st w_tick] in *.

(** int64 counters. *)
Definition count (n : Z) (c : Counter) : Counter := mkCounter (c_total c) (i64 (c_current c + n)).
Definition rollover (c : Counter) : Counter := mkCounter (i64 (c_total c + c_current c)) 0.
Definition noCount : Counter := mkCounter 0 0.

(** [m[k] == true]: a missing key reads as false. *)
Definition flag (m : gmap PeerId bool) (k : PeerId) : bool := default false (m !! k).

Definition NewPeerHandler (isConsensusRelay : bool) : PeerHandler :=
  mkPeerHandler ∅ false false (arr_zero 32) isConsensusRelay [] ∅ ∅ ∅ (arr_zero 32) 0 0
    noCount noCount noCount noCount noCount [] [].

(** * Operations *)

Section peer.
Context `{GoRuntime} `{Crypto} `{Signer} `{P2PHandler}.

Abbreviation P := (M PeerHandler).

Definition spawn (t : PeerTask) : P unit := modify (fun p => p <| tasks ::= fun ts => ts ++ [t] |>).

Definition p_SetP2PHandler (localPeer : PeerId) : P unit :=
  modify (fun p => p <| p2pHandlerSet := true |> <| localPeerId := localPeer |>).

Definition SetSignFn (account : Address) : P unit :=
  modify (fun p => p <| p_signFnSet := true |> <| p_account := account |>).

Definition OnPeerConnected (peer : PeerId) : P unit :=
  modify (fun p => p <| peerMap ::= <[peer := mkPeerDetails None peer]> |>);;
  p ← get;
  when (isConsensusRelay p) (spawn (GoSendCapabilityPacket [peer])).

Definition OnPeerDisconnected (peer : PeerId) : P unit :=
  modify (fun p => p <| peerMap ::= delete peer |>
                     <| consensusRelayMap ::= delete peer |>
                     <| syncPeerMap ::= delete peer |>);;
  p ← get;
  when (Z.eqb (mlen (consensusRelayMap p)) 0) (spawn GoConnectAvailableConsensusRelay).

(** The nil checks at the entry of the packet handlers. *)
Definition emptyPacket (packet : ConsensusPacket) : bool :=
  Z.eqb (len (data (Signature packet))) 0 || Z.eqb (len (data (ConsensusData packet))) 0.

Definition p_HandleConsensusPacket (packet : ConsensusPacket) (fromPeerId : PeerId) : P unit :=
  fail_if (emptyPacket packet) InvalidPacketErr;;
  packetType ← lift (getPacketType packet);
  if Z.eqb packetType CONSENSUS_PACKET_TYPE_CAPABILITY then
    d ← lift (decodePayload packet);
    spawn (GoHandleCapabilityPacket d fromPeerId)
  else if Z.eqb packetType CONSENSUS_PACKET_TYPE_SYNC then
    d ← lift (decodePayload packet);
    spawn (GoHandleRequestConsensusSync d fromPeerId)
  else if Z.leb CONSENSUS_PACKET_TYPE_PROPOSE_BLOCK packetType && Z.leb packetType CONSENSUS_PACKET_TYPE_COMMIT_BLOCK then
    modify (fun p => p <| packetsReceived ::= count 1 |>);;
    p ← get;
    when (flag (consensusRelayMap p) fromPeerId)
      (modify (fun p => p <| packetsReceivedFromRelay ::= count 1 |>));;
    when (isConsensusRelay p) (
      spawn (GoBroadcastToSyncPeers packet fromPeerId);;
      when (flag (syncPeerMap p) fromPeerId) (spawn (GoBroadcastToConsensusRelays packet fromPeerId)))
  else mret ().

Definition HandleCapabilityPacket (d : CapabilityDetails) (fromPeerId : PeerId) : P unit :=
  if negb (cap_IsConsensusRelay d) || negb (bool_decide (fromPeerId = cap_PeerId d)) then mret ()
  else
    modify (fun p => p <| peerMap ::= <[cap_PeerId d := mkPeerDetails (Some d) (cap_PeerId d)]> |>);;
    p ← get;
    when (isConsensusRelay p || Z.eqb (mlen (consensusRelayMap p)) 0)
      (spawn (GoSendRequestConsensusSyncPacket (cap_PeerId d))).

Definition HandleRequestConsensusSync (d : RequestConsensusSyncDetails) (fromPeerId : PeerId) : P unit :=
  if negb (bool_decide (fromPeerId = rcs_PeerId d)) then mret ()
  else modify (fun p => p <| syncPeerMap ::= <[rcs_PeerId d := true]> |>).

Definition p_HandleRequestConsensusDataPacket (packet : RequestConsensusDataPacket) : P (list ConsensusPacket) :=
  mret [].

Definition CreateConsensusPacket (d : list byte) : P ConsensusPacket :=
  p ← get;
  fail_if (negb (p_signFnSet p)) (ErrorsNew "signFn is not set");;
  signature ← ext (fun t => signFn t (p_account p) (arr_bytes ZERO_HASH ++ d)) ≫= check_err;
  mret (mkConsensusPacket ZERO_HASH (Some signature) (Some d)).

(** [p.p2pHandler.SendConsensusPacket(peers, packet)], waited for. *)
Definition sendNow (peers : list PeerId) (packet : ConsensusPacket) : P unit :=
  p ← get;
  if p2pHandlerSet p then
    modify (fun p => p <| sentPackets ::= fun l => l ++ [(peers, packet)] |>);;
    r ← ext (fun t => SendConsensusPacket t peers packet);
    match r with Some e => fail e | None => mret () end
  else panic "nil p2pHandler".

(** [latestBlockNumber] is the result of [getLatestBlockNumberFn]. *)
Definition SendCapabilityPacket (latestBlockNumber : Z) (peerList : list PeerId) : P unit :=
  p ← get;
  if negb (p2pHandlerSet p) || negb (isConsensusRelay p) || Z.ltb latestBlockNumber PACKET_PROTOCOL_START_BLOCK
  then mret ()
  else
    d ← lift (rlp_EncodeToBytes (mkCapabilityDetails true (localPeerId p)));
    packet ← CreateConsensusPacket (bZ ConsensusNetworkProtocolVersion :: bZ CONSENSUS_PACKET_TYPE_CAPABILITY :: d);
    sendNow peerList packet.

(** The loop panics on a peer that has sent no capability; it stops at the
    first relay it meets. *)
Fixpoint connectFirst (entries : list (PeerId * PeerDetails)) : P unit :=
  match entries with
  | [] => mret ()
  | (k, v) :: entries =>
      d ← must "nil capabilityDetails" (capabilityDetails v);
      if cap_IsConsensusRelay d then spawn (GoSendRequestConsensusSyncPacket k) else connectFirst entries
  end.

Definition ConnectAvailableConsensusRelay : P unit :=
  p ← get;
  entries ← range (peerMap p);
  connectFirst entries.

Definition SendRequestConsensusSyncPacket (latestBlockNumber : Z) (peer : PeerId) : P unit :=
  p ← get;
  if negb (p2pHandlerSet p) || Z.ltb latestBlockNumber PACKET_PROTOCOL_START_BLOCK then mret ()
  else
    d ← lift (rlp_EncodeToBytes (mkRequestConsensusSyncDetails (isConsensusRelay p) (localPeerId p)));
    packet ← CreateConsensusPacket (bZ ConsensusNetworkProtocolVersion :: bZ CONSENSUS_PACKET_TYPE_SYNC :: d);
    sendNow [peer] packet;;
    modify (fun p => p <| consensusRelayMap ::= <[peer := true]> |>).

Definition p_ShouldRebroadCast (packet : ConsensusPacket) (fromPeerId : PeerId) : bool := false.

(** One iteration of the loops that pick the receivers: a peer that was sent the
    packet or that sent it is counted in [alreadySentCount] and skipped. *)
Definition pickPeer (incoming : gset PeerId) (st : list PeerId * gset PeerId) (k : PeerId) :
    list PeerId * gset PeerId :=
  if bool_decide (k ∈ snd st) then st
  else if bool_decide (k ∈ incoming) then st
  else (fst st ++ [k], {[k]} ∪ snd st).

Definition syncDetails (p : PeerHandler) (packet : ConsensusPacket) : PacketSyncDetails :=
  default (mkPacketSyncDetails ∅ packet ∅) (packetSyncMap p !! packet_Hash packet).

Definition BroadcastToConsensusRelays (packet : ConsensusPacket) (fromPeerId : PeerId) : P Z :=
  p ← get;
  let d := syncDetails p packet in
  let incoming := {[fromPeerId]} ∪ incomingPeerMap d in
  entries ← range (consensusRelayMap p);
  let '(sendList, sendPeers) := foldl (pickPeer incoming) ([], sendPeerMap d) (map fst entries) in
  modify (fun p => p <| packetSyncMap ::=
    <[packet_Hash packet := mkPacketSyncDetails incoming (sync_packet d) sendPeers]> |>);;
  modify (fun p => p <| packetsSentToRelays ::= count (len sendList) |>);;
  when (bool_decide (fromPeerId = localPeerId p))
    (modify (fun p => p <| localPacketsSentToRelays ::= count (len sendList) |>));;
  spawn (GoSendConsensusPacket sendList packet);;
  mret (len sendList).

Definition GetCurrentParentHash : P Hash := gets p_currentParentHash.

Definition BroadcastToSyncPeers (packet : ConsensusPacket) (fromPeerId : PeerId) : P Z :=
  current ← GetCurrentParentHash;
  if negb (IsEqualTo (ParentHash packet) current) then mret 0
  else
    p ← get;
    let d := syncDetails p packet in
    let incoming := {[fromPeerId]} ∪ incomingPeerMap d in
    entries ← range (syncPeerMap p);
    let '(sendPeerList, sendPeers) :=
      foldl (fun st k => if bool_decide (k = fromPeerId) then st else pickPeer incoming st k)
        ([], sendPeerMap d) (map fst entries) in
    modify (fun p => p <| packetSyncMap ::=
      <[packet_Hash packet := mkPacketSyncDetails incoming (sync_packet d) sendPeers]> |>);;
    modify (fun p => p <| packetsSent ::= count (len sendPeerList) |>);;
    spawn (GoSendConsensusPacket sendPeerList packet);;
    mret (len sendPeerList).

Definition BroadcastLocalPacket (packet : ConsensusPacket) : P Z :=
  p ← get;
  if isConsensusRelay p then
    syncPeerCount ← BroadcastToSyncPeers packet (localPeerId p);
    consensusRelayCount ← BroadcastToConsensusRelays packet (localPeerId p);
    mret (syncPeerCount + consensusRelayCount)
  else BroadcastToConsensusRelays packet (localPeerId p).

Definition SetCurrentParentHash (parentHash : Hash) (currentBlockNumber : Z) : P unit :=
  modify (fun p => p <| totalBlocks ::= fun n => i64 (n + 1) |>
    <| packetsReceived ::= rollover |> <| packetsReceivedFromRelay ::= rollover |>
    <| packetsSent ::= rollover |> <| packetsSentToRelays ::= rollover |>
    <| localPacketsSentToRelays ::= rollover |>
    <| p_currentParentHash := parentHash |> <| p_currentBlockNumber := currentBlockNumber |>);;
  p ← get;
  entries ← range (packetSyncMap p);
  modify (fun p => p <| packetSyncMap ::= fun m =>
    foldl (fun m '(k, v) => if IsEqualTo (ParentHash (sync_packet v)) (p_currentParentHash p)
                            then m else delete k m) m entries |>);;
  when (isConsensusRelay p) (
    if Z.eqb currentBlockNumber PACKET_PROTOCOL_START_BLOCK then spawn GoSendCapabilityToAllPeers
    else when (Z.ltb PACKET_PROTOCOL_START_BLOCK currentBlockNumber
               && (Z.ltb (mlen (syncPeerMap p)) (mlen (peerMap p))
                   && Z.eqb (currentBlockNumber mod 128) 0))
           (spawn GoSendCapabilityToDeltaPeers)).

Definition SendCapabilityToDeltaPeers (latestBlockNumber : Z) : P unit :=
  p ← get;
  entries ← range (peerMap p);
  let peerList := filter (fun k => flag (syncPeerMap p) k = false) (map fst entries) in
  ignore (SendCapabilityPacket latestBlockNumber peerList).

Definition SendCapabilityToAllPeers (latestBlockNumber : Z) : P unit :=
  p ← get;
  entries ← range (peerMap p);
  ignore (SendCapabilityPacket latestBlockNumber (map fst entries)).

(** The body of a goroutine; its result is dropped. *)
Definition runTask (latestBlockNumber : Z) (t : PeerTask) : P unit :=
  match t with
  | GoSendCapabilityPacket l => ignore (SendCapabilityPacket latestBlockNumber l)
  | GoConnectAvailableConsensusRelay => ConnectAvailableConsensusRelay
  | GoHandleCapabilityPacket d f => HandleCapabilityPacket d f
  | GoHandleRequestConsensusSync d f => HandleRequestConsensusSync d f
  | GoBroadcastToSyncPeers pkt f => ignore (BroadcastToSyncPeers pkt f)
  | GoBroadcastToConsensusRelays pkt f => ignore (BroadcastToConsensusRelays pkt f)
  | GoSendRequestConsensusSyncPacket k => ignore (SendRequestConsensusSyncPacket latestBlockNumber k)
  | GoSendCapabilityToAllPeers => SendCapabilityToAllPeers latestBlockNumber
  | GoSendCapabilityToDeltaPeers => SendCapabilityToDeltaPeers latestBlockNumber
  | GoSendConsensusPacket l pkt => ignore (sendNow l pkt)
  end.
End peer.

(** * Choosing the receivers *)

Section pick.
Implicit Types (ks acc : list PeerId) (s incoming : gset PeerId).

Definition fresh (s incoming : gset PeerId) (k : PeerId) : Prop := k ∉ s /\ k ∉ incoming.
#[export] Instance fresh_dec s incoming k : Decision (fresh s incoming k).
Proof. unfold fresh. apply _. Defined.

Lemma foldl_pickPeer incoming ks : NoDup ks -> forall acc s,
  foldl (pickPeer incoming) (acc, s) ks
  = (acc ++ filter (fresh s incoming) ks, s ∪ list_to_set (filter (fresh s incoming) ks)).
Proof.
  induction 1 as [|k ks Hk _ IH]; intros acc s; simpl.
  { rewrite filter_nil, app_nil_r. f_equal. set_solver. }
  unfold pickPeer at 2. simpl. rewrite filter_cons. unfold fresh at 1 3.
  destruct (decide (k ∈ s)) as [Hs|Hs].
  { rewrite bool_decide_true by done. rewrite IH. by destruct (decide _) as [[? _]|_]. }
  rewrite bool_decide_false by done. destruct (decide (k ∈ incoming)) as [Hi|Hi].
  { rewrite bool_decide_true by done. rewrite IH. by destruct (decide _) as [[_ ?]|_]. }
  rewrite bool_decide_false by done. rewrite IH. destruct (decide _) as [_|Hn]; [|naive_solver].
  rewrite <- app_assoc. simpl.
  rewrite (filter_iff_in (fresh ({[k]} ∪ s) incoming) (fresh s incoming) ks) by (unfold fresh; set_solver).
  f_equal. set_solver.
Qed.

Lemma foldl_skip {A B} `{EqDecision B} (f : A -> B -> A) (x : B) (l : list B) a :
  foldl (fun st k => if bool_decide (k = x) then st else f st k) a l = foldl f a (filter (fun k => k <> x) l).
Proof.
  revert a. induction l as [|k l IH]; intros a; simpl; [done|]. rewrite filter_cons.
  destruct (decide (k = x)) as [->|Hk].
  - rewrite bool_decide_true by done. rewrite IH. by destruct (decide _).
  - rewrite bool_decide_false by done. rewrite IH. by destruct (decide _).
Qed.
End pick.

(** The receivers of one broadcast among the peers [cand]: everybody who neither
    was sent the packet nor sent it, once. *)
Record broadcast_ok (cand : gset PeerId) (d : PacketSyncDetails) (from : PeerId)
    (receivers : list PeerId) (d' : PacketSyncDetails) : Prop := {
  bc_nodup : NoDup receivers;
  bc_exact : forall k, k ∈ receivers <-> k ∈ cand /\ k ∉ sendPeerMap d /\ k ∉ incomingPeerMap d /\ k <> from;
  bc_sent : sendPeerMap d' = sendPeerMap d ∪ list_to_set receivers;
  bc_incoming : incomingPeerMap d' = {[from]} ∪ incomingPeerMap d;
  bc_packet : sync_packet d' = sync_packet d;
}.

Section peer_specs.
Context `{GoRuntime} `{Crypto} `{Signer} `{P2PHandler}.

Lemma keys_NoDup {V} (m : gmap PeerId V) l : l ≡ₚ map_to_list m ->
  NoDup l.*1 /\ forall k, k ∈ l.*1 <-> k ∈ dom m.
Proof.
  intros Hp. split.
  - rewrite Hp. apply NoDup_fst_map_to_list.
  - intros k. rewrite Hp, elem_of_dom, list_elem_of_fmap. split.
    + intros ([k' v] & -> & Hin%elem_of_map_to_list). by exists v.
    + intros [v Hv]. exists (k, v). by rewrite elem_of_map_to_list.
Qed.

Definition after_broadcast (p p' : PeerHandler) (cand : gset PeerId) (packet : ConsensusPacket)
    (from : PeerId) (n : Z) : Prop :=
  exists receivers d',
    broadcast_ok cand (syncDetails p packet) from receivers d'
    /\ n = len receivers
    /\ packetSyncMap p' = <[packet_Hash packet := d']> (packetSyncMap p)
    /\ sentPackets p' = sentPackets p
    /\ tasks p' = tasks p ++ [GoSendConsensusPacket receivers packet].

Lemma BroadcastToConsensusRelays_wp packet from (w : World PeerHandler) :
  wp (BroadcastToConsensusRelays packet from)
     (fun o w' => exists n, o = Ok n
        /\ after_broadcast (w_st w) (w_st w') (dom (consensusRelayMap (w_st w))) packet from n) w.
Proof.
  unfold BroadcastToConsensusRelays. wp_step. wp_step.
  destruct (keys_NoDup _ _ H3) as [Hnd Hdom]. rewrite foldl_pickPeer by done. rewrite app_nil_l.
  wp_steps; (eexists; split; [done|]); peer_simpl;
    (eexists _, _; split; [|done]); split; cbn [sendPeerMap incomingPeerMap sync_packet];
    try done; try (by apply NoDup_filter);
    (intros k; rewrite list_elem_of_filter; unfold fresh; rewrite Hdom; set_solver).
Qed.

Lemma BroadcastToSyncPeers_wp packet from (w : World PeerHandler) :
  wp (BroadcastToSyncPeers packet from)
     (fun o w' =>
        if IsEqualTo (ParentHash packet) (p_currentParentHash (w_st w))
        then exists n, o = Ok n
               /\ after_broadcast (w_st w) (w_st w') (dom (syncPeerMap (w_st w))) packet from n
        else o = Ok 0 /\ w_st w' = w_st w) w.
Proof.
  unfold BroadcastToSyncPeers, GetCurrentParentHash. wp_step.
  destruct (IsEqualTo _ _); cbn [negb]; [|by wp_step].
  wp_step. wp_step. destruct (keys_NoDup _ _ H3) as [Hnd Hdom].
  rewrite foldl_skip, foldl_pickPeer by (by apply NoDup_filter). rewrite app_nil_l.
  wp_steps. eexists; split; [done|]. peer_simpl. eexists _, _; split; [|done].
  split; cbn [sendPeerMap incomingPeerMap sync_packet]; try done.
  - by apply NoDup_filter, NoDup_filter.
  - intros k. rewrite !list_elem_of_filter. unfold fresh. rewrite Hdom. set_solver.
Qed.
End peer_specs.

(** * Histories

    The calls the rest of the node makes on the peer handler while the parent
    hash stays the same.  The goroutines they start run at any later moment, in
    any order, each of them once. *)
Inductive PeerOp :=
| OpSetP2PHandler (localPeer : PeerId)
| OpSetSignFn (account : Address)
| OpConnected (peer : PeerId)
| OpDisconnected (peer : PeerId)
| OpPacket (packet : ConsensusPacket) (fromPeerId : PeerId)
| OpLocalPacket (packet : ConsensusPacket).

(** The packets by which the nodes get to know each other: a capability packet, or
    a request for synchronisation. *)
Definition handshake (packet : ConsensusPacket) : bool :=
  match getPacketType packet with
  | Ok t => Z.eqb t CONSENSUS_PACKET_TYPE_CAPABILITY || Z.eqb t CONSENSUS_PACKET_TYPE_SYNC
  | _ => false
  end.

(** The peers to which the network was handed the consensus packet with hash [h],
    once for each time. *)
Fixpoint delivered `{Crypto} (h : Hash) (sent : list (list PeerId * ConsensusPacket)) : list PeerId :=
  match sent with
  | [] => []
  | (peers, packet) :: sent =>
      (if bool_decide (packet_Hash packet = h) && negb (handshake packet) then peers else []) ++ delivered h sent
  end.

(** The peers to which a started goroutine will send the packet with hash [h]. *)
Definition receivers `{Crypto} (h : Hash) (t : PeerTask) : list PeerId :=
  match t with
  | GoSendConsensusPacket l packet => if bool_decide (packet_Hash packet = h) then l else []
  | _ => []
  end.

(** The same of the goroutines of [ts], numbered from [i], that are not in [D]. *)
Fixpoint pending `{Crypto} (h : Hash) (D : gset nat) (i : nat) (ts : list PeerTask) : list PeerId :=
  match ts with
  | [] => []
  | t :: ts => (if bool_decide (i ∈ D) then [] else receivers h t) ++ pending h D (S i) ts
  end.

Section histories.
Context `{GoRuntime} `{Crypto} `{Signer} `{P2PHandler}.

Definition runOp (op : PeerOp) : M PeerHandler unit :=
  match op with
  | OpSetP2PHandler l => p_SetP2PHandler l
  | OpSetSignFn a => SetSignFn a
  | OpConnected k => OnPeerConnected k
  | OpDisconnected k => OnPeerDisconnected k
  | OpPacket packet from => p_HandleConsensusPacket packet from
  | OpLocalPacket packet => ignore (BroadcastLocalPacket packet)
  end.

(** A history, with the numbers of the goroutines that have run.  A failed or
    panicking call keeps the writes it made. *)
Inductive history : World PeerHandler * gset nat -> World PeerHandler * gset nat -> Prop :=
| history_refl s : history s s
| history_call s w D op : history s (w, D) -> history s (snd (runOp op w), D)
| history_task s w D latest n t : history s (w, D) -> tasks (w_st w) !! n = Some t -> n ∉ D ->
    history s (snd (runTask latest t w), {[n]} ∪ D).

Lemma delivered_app h l k : delivered h (l ++ k) = delivered h l ++ delivered h k.
Proof. induction l as [|[peers packet] l IH]; [done|]. simpl. by rewrite IH, app_assoc. Qed.

Lemma delivered_handshake h l : Forall (fun e => handshake e.2 = true) l -> delivered h l = [].
Proof. induction 1 as [|[peers packet] l Hp _ IH]; [done|]. simpl in *. by rewrite IH, Hp, andb_false_r. Qed.

Lemma pending_app h D ts us : forall i, pending h D i (ts ++ us) = pending h D i ts ++ pending h D (i + length ts) us.
Proof.
  induction ts as [|t ts IH]; intros i; simpl; [by rewrite Nat.add_0_r|].
  by rewrite IH, app_assoc, Nat.add_succ_comm.
Qed.

Lemma pending_none h D us : Forall (fun t => receivers h t = []) us -> forall i, pending h D i us = [].
Proof. induction 1 as [|t us Ht _ IH]; intros i; [done|]. simpl. rewrite Ht, IH. by case_bool_decide. Qed.

Lemma pending_ext h D D' ts : forall i, (forall n, (i <= n)%nat -> n ∈ D <-> n ∈ D') ->
  pending h D i ts = pending h D' i ts.
Proof.
  induction ts as [|t ts IH]; intros i Hn; [done|]. simpl. rewrite (IH (S i)) by (intros; apply Hn; lia).
  by rewrite (bool_decide_ext _ _ (Hn i (le_n i))).
Qed.

(** A goroutine that runs leaves the ones that are pending. *)
Lemma pending_run h D t : forall ts n i, ts !! n = Some t -> (i + n)%nat ∉ D ->
  pending h D i ts ≡ₚ receivers h t ++ pending h ({[(i + n)%nat]} ∪ D) i ts.
Proof.
  induction ts as [|t' ts IH]; intros [|n] i Ht Hn; simplify_eq/=.
  - rewrite Nat.add_0_r in *. rewrite bool_decide_false, bool_decide_true by set_solver. simpl.
    rewrite (pending_ext h D ({[i]} ∪ D)); [done|]. intros m ?. rewrite elem_of_union, elem_of_singleton. intuition lia.
  - rewrite <- Nat.add_succ_comm in *. rewrite (IH n (S i)) by done.
    rewrite (bool_decide_ext (i ∈ {[(S i + n)%nat]} ∪ D) (i ∈ D)) by (rewrite elem_of_union, elem_of_singleton; intuition lia).
    by rewrite !app_assoc, (Permutation_app_comm _ (receivers h t)).
Qed.

(** No peer was or will be sent a packet twice since the network had been handed
    [S0], and all receivers are on record. *)
Definition sent_once (S0 : list (list PeerId * ConsensusPacket)) (D : gset nat) (p : PeerHandler) : Prop :=
  exists L, sentPackets p = S0 ++ L /\ forall h, NoDup (delivered h L ++ pending h D 0 (tasks p))
    /\ forall k, k ∈ delivered h L ++ pending h D 0 (tasks p) ->
         exists d, packetSyncMap p !! h = Some d /\ k ∈ sendPeerMap d.

(** A computation that keeps the records, hands only handshake packets to the
    network and starts no sending goroutine. *)
Definition quiet (p p' : PeerHandler) : Prop :=
  packetSyncMap p' = packetSyncMap p
  /\ (exists L, sentPackets p' = sentPackets p ++ L /\ Forall (fun e => handshake e.2 = true) L)
  /\ exists us, tasks p' = tasks p ++ us /\ forall h, Forall (fun t => receivers h t = []) us.

Lemma submseteq_NoDup {A} (l k : list A) : l ⊆+ k -> NoDup k -> NoDup l.
Proof. intros [k' ->]%submseteq_Permutation [? _]%NoDup_app. done. Qed.

(** A step after which no more is delivered or pending than was pending before. *)
Lemma sent_once_step S0 D D' p p' M :
  packetSyncMap p' = packetSyncMap p -> sentPackets p' = sentPackets p ++ M ->
  (forall h, delivered h M ++ pending h D' 0 (tasks p') ⊆+ pending h D 0 (tasks p)) ->
  sent_once S0 D p -> sent_once S0 D' p'.
Proof.
  intros Hm Hs Hp (L & HL & Ho). exists (L ++ M). rewrite app_assoc, <- HL. split; [done|]. intros h.
  destruct (Ho h) as [Hnd Hrec]. rewrite delivered_app, <- app_assoc, Hm.
  assert (Hsub : delivered h L ++ delivered h M ++ pending h D' 0 (tasks p') ⊆+ delivered h L ++ pending h D 0 (tasks p))
    by apply submseteq_skips_l, Hp.
  split; [by eapply submseteq_NoDup|]. intros k Hk. apply Hrec. by eapply elem_of_submseteq.
Qed.

Lemma sent_once_quiet S0 D p p' : quiet p p' -> sent_once S0 D p -> sent_once S0 D p'.
Proof.
  intros (Hm & (M & Hs & HM) & us & Ht & Hus). apply (sent_once_step S0 D D p p' M Hm Hs). intros h.
  by rewrite delivered_handshake, Ht, pending_app, (pending_none h D us), app_nil_r by done.
Qed.

Lemma sent_once_broadcast S0 D p p' cand packet from n :
  after_broadcast p p' cand packet from n -> sent_once S0 D p -> sent_once S0 D p'.
Proof.
  intros (l & d' & Hb & _ & Hm & Hs & Ht) (L & HL & Ho). exists L. split; [congruence|]. intros h.
  rewrite Ht, pending_app, app_assoc, Hm. destruct (Ho h) as [Hnd Hrec]. destruct Hb as [Hl Hex Hsent _ _].
  set (X := delivered h L ++ pending h D 0 (tasks p)) in *. simpl. rewrite app_nil_r.
  destruct (decide (packet_Hash packet = h)) as [<-|Hne].
  - rewrite (bool_decide_true (packet_Hash packet = packet_Hash packet)), lookup_insert, decide_True by done.
    assert (Hin : forall k, k ∈ X -> k ∈ sendPeerMap (syncDetails p packet)).
    { intros k (d & Hd & Hk)%Hrec. unfold syncDetails. by rewrite Hd. }
    assert (Hsub : (if bool_decide (length (tasks p) ∈ D) then [] else l) `sublist_of` l)
      by (case_bool_decide; [apply sublist_nil_l|done]).
    split.
    + apply NoDup_app. split_and!; [done| |eapply sublist_NoDup; [exact Hl|done]]. intros k Hk Hkl%(sublist_subseteq _ _ Hsub).
      apply Hex in Hkl as (_ & Hn & _). by apply Hn, Hin.
    + intros k [Hk|Hk%(sublist_subseteq _ _ Hsub)]%elem_of_app; (eexists; split; [done|]; rewrite Hsent; set_solver).
  - rewrite (bool_decide_false (packet_Hash packet = h)), lookup_insert_ne by done. case_bool_decide; by rewrite app_nil_r.
Qed.

Lemma pending_idle h D ts : forall i,
  (forall n l packet, ts !! n = Some (GoSendConsensusPacket l packet) -> (i + n)%nat ∈ D) -> pending h D i ts = [].
Proof.
  induction ts as [|t ts IH]; intros i Hts; [done|]. simpl. rewrite IH, app_nil_r.
  - case_bool_decide as Hi; [done|]. destruct t; try done. destruct Hi. rewrite <- (Nat.add_0_r i). by eapply (Hts 0%nat).
  - intros n l packet Hn. rewrite Nat.add_succ_comm. by eapply (Hts (S n)).
Qed.

Lemma sent_once_start D p :
  (forall n l packet, tasks p !! n = Some (GoSendConsensusPacket l packet) -> n ∈ D) ->
  sent_once (sentPackets p) D p.
Proof.
  intros Hidle. exists []. rewrite app_nil_r. split; [done|]. intros h. simpl. rewrite pending_idle by done.
  split; [constructor|]. by intros k []%not_elem_of_nil.
Qed.

(** A goroutine that starts to run is no longer pending; a sending one then hands
    its packet to the network. *)
Lemma sent_once_ran S0 D p n t :
  tasks p !! n = Some t -> n ∉ D -> sent_once S0 D p -> sent_once S0 ({[n]} ∪ D) p.
Proof.
  intros Ht Hn. apply (sent_once_step S0 _ _ p p []); [done|by rewrite app_nil_r|]. intros h. simpl.
  rewrite (pending_run h D t _ n 0) by done. by apply submseteq_inserts_l.
Qed.

Lemma sent_once_send S0 D p n l packet :
  tasks p !! n = Some (GoSendConsensusPacket l packet) -> n ∉ D -> sent_once S0 D p ->
  sent_once S0 ({[n]} ∪ D) (p <| sentPackets ::= fun s => s ++ [(l, packet)] |>).
Proof.
  intros Ht Hn. apply (sent_once_step S0 _ _ p _ [(l, packet)]); [done..|]. intros h. peer_simpl.
  rewrite (pending_run h D _ _ n 0) by done. apply submseteq_skips_r. simpl.
  case_bool_decide; simpl; [|done]. rewrite app_nil_r. by destruct (handshake packet); [apply submseteq_nil_l|].
Qed.

Section operations.
Context (S0 : list (list PeerId * ConsensusPacket)) (D : gset nat).
Abbreviation once := (sent_once S0 D).

(** Writes other than to the records, the tasks and the network are quiet. *)
Lemma once_frame p p' :
  packetSyncMap p' = packetSyncMap p -> sentPackets p' = sentPackets p -> tasks p' = tasks p -> once p -> once p'.
Proof.
  intros ? ? ?. apply sent_once_quiet. split; [done|].
  split; [exists [] | exists []]; rewrite app_nil_r; (split; [done|]); [constructor|intros h; constructor].
Qed.

Lemma once_spawn t : (forall h, receivers h t = []) -> preserves once (spawn t).
Proof.
  intros Ht. apply preserves_modify. intros p. apply sent_once_quiet. split; [done|].
  split; [exists []; rewrite app_nil_r; (split; [done|constructor])|]. exists [t]. peer_simpl. split; [done|].
  intros h. by repeat constructor.
Qed.

Lemma BroadcastToConsensusRelays_once packet from : preserves once (BroadcastToConsensusRelays packet from).
Proof.
  intros w Hw. wp_use (BroadcastToConsensusRelays_wp packet from w). intros o w' (n & _ & Hb). by eapply sent_once_broadcast.
Qed.

Lemma BroadcastToSyncPeers_once packet from : preserves once (BroadcastToSyncPeers packet from).
Proof.
  intros w Hw. wp_use (BroadcastToSyncPeers_wp packet from w). intros o w'. destruct (IsEqualTo _ _).
  - intros (n & _ & Hb). by eapply sent_once_broadcast.
  - by intros [_ ->].
Qed.

#[local] Hint Extern 1 (forall _, sent_once _ _ _ -> sent_once _ _ _) => (intros ?; apply once_frame; done) : preserves.
#[local] Hint Extern 1 (sent_once _ _ _) => (eapply once_frame; [| | |eassumption]; done) : preserves.
#[local] Hint Extern 1 (preserves _ (spawn _)) => (apply once_spawn; done) : preserves.
#[local] Hint Resolve BroadcastToConsensusRelays_once BroadcastToSyncPeers_once : preserves.

Lemma sendNow_handshake l packet : handshake packet = true -> preserves once (sendNow l packet).
Proof.
  intros Hh. unfold sendNow. preserves_steps. intros p. apply sent_once_quiet. split; [done|].
  split; [exists [(l, packet)]; by repeat constructor|].
  exists []. rewrite app_nil_r. split; [done|]. intros h. constructor.
Qed.

(** What [CreateConsensusPacket] packs is what it was given. *)
Lemma CreateConsensusPacket_handshake {A} t d (k : ConsensusPacket -> M PeerHandler A) :
  t = CONSENSUS_PACKET_TYPE_CAPABILITY \/ t = CONSENSUS_PACKET_TYPE_SYNC ->
  (forall packet, handshake packet = true -> preserves once (k packet)) ->
  preserves once (CreateConsensusPacket (bZ ConsensusNetworkProtocolVersion :: bZ t :: d) ≫= k).
Proof.
  intros Ht Hk w Hw. unfold CreateConsensusPacket, check_err. wp_steps; try done.
  apply Hk; [|done]. by destruct Ht as [-> | ->].
Qed.

Local Ltac packet_step :=
  apply preserves_bind; [apply preserves_get|intros p]; destruct (_ || _); [apply preserves_ret|];
  apply preserves_bind; [apply preserves_lift|intros d].

Lemma SendCapabilityPacket_once n l : preserves once (SendCapabilityPacket n l).
Proof.
  unfold SendCapabilityPacket. packet_step. apply CreateConsensusPacket_handshake; [by left|].
  intros packet. apply sendNow_handshake.
Qed.
Lemma SendRequestConsensusSyncPacket_once n k : preserves once (SendRequestConsensusSyncPacket n k).
Proof.
  unfold SendRequestConsensusSyncPacket. packet_step. apply CreateConsensusPacket_handshake; [by right|].
  intros packet Hp. apply preserves_bind; [by apply sendNow_handshake|]. preserves_steps.
Qed.
Lemma connectFirst_once l : preserves once (connectFirst l).
Proof. induction l as [|[k v] l IH]; simpl; preserves_steps. Qed.
#[local] Hint Resolve SendCapabilityPacket_once SendRequestConsensusSyncPacket_once connectFirst_once : preserves.

Lemma runTask_once n t : (forall l packet, t <> GoSendConsensusPacket l packet) -> preserves once (runTask n t).
Proof.
  unfold runTask, ConnectAvailableConsensusRelay, HandleCapabilityPacket, HandleRequestConsensusSync,
    SendCapabilityToAllPeers, SendCapabilityToDeltaPeers. intros Ht. preserves_steps. by destruct (Ht peerList packet).
Qed.

Lemma runOp_once op : preserves once (runOp op).
Proof.
  unfold runOp, p_SetP2PHandler, SetSignFn, OnPeerConnected, OnPeerDisconnected,
    p_HandleConsensusPacket, BroadcastLocalPacket. preserves_steps.
Qed.
End operations.

(** Every goroutine leads from a state where it is pending to one where it has run. *)
Lemma task_once S0 D latest n t w : tasks (w_st w) !! n = Some t -> n ∉ D ->
  sent_once S0 D (w_st w) -> sent_once S0 ({[n]} ∪ D) (w_st (snd (runTask latest t w))).
Proof.
  intros Ht Hn Ho.
  destruct t; try (apply preserves_run; [by apply runTask_once|by eapply sent_once_ran]).
  simpl. apply (wp_exec (ignore (sendNow peerList packet)) w (fun _ p => sent_once S0 ({[n]} ∪ D) p)).
  unfold sendNow. wp_steps; peer_simpl; try (by eapply sent_once_ran); by apply sent_once_send.
Qed.

(** C38: while the parent hash stays the same, whatever calls are made and in
    whatever order the started goroutines run, the network is handed no consensus
    packet twice for the same peer.  The history starts when every earlier
    broadcast has left; the capability and synchronisation packets, which a node
    sends anew to a peer that reconnects, are not counted. *)
Theorem no_peer_is_sent_a_packet_twice w D w' D' (Hh : history (w, D) (w', D'))
  (Hidle : forall n l packet, tasks (w_st w) !! n = Some (GoSendConsensusPacket l packet) -> n ∈ D) :
  exists new, sentPackets (w_st w') = sentPackets (w_st w) ++ new /\ forall h, NoDup (delivered h new).
Proof.
  assert (Hs : sent_once (sentPackets (w_st w)) D' (w_st w')).
  { remember (w, D) as s eqn:Hs. remember (w', D') as s' eqn:Hs'. revert w' D' Hs'.
    induction Hh as [s|s w1 D1 op _ IH|s w1 D1 latest n t _ IH Ht Hn]; intros; simplify_eq.
    - by apply sent_once_start.
    - apply preserves_run; [apply runOp_once|]. by apply IH.
    - apply task_once; [done..|]. by apply IH. }
  destruct Hs as (L & HL & Hs). exists L. split; [done|]. intros h. destruct (Hs h) as [Hnd _].
  by apply NoDup_app in Hnd as [? _].
Qed.
End histories.

(** Closed instances: a signature is the account's address, and the network
    accepts everything. *)
Definition plainSigner : Signer := {|
  signFn := fun _ a _ => inl (arr_bytes a ++ replicate 2560 Byte.x01);
  signFnWithContext := fun _ a _ _ => inl (arr_bytes a ++ replicate 2560 Byte.x01) |}.
Definition openNetwork : P2PHandler := {|
  SendConsensusPacket := fun _ _ _ => None; RequestTransactions := fun _ _ => None |}.

(** A proposal, and the request for synchronisation of the peer [b]. *)
Definition examplePacket : ConsensusPacket :=
  mkConsensusPacket (arr_zero 32) (Some (replicate 2560 Byte.x01)) (Some [Byte.x05; Byte.x00; Byte.xc0]).
Definition syncPacket (b : byte) : ConsensusPacket :=
  mkConsensusPacket (arr_zero 32) (Some (replicate 2560 Byte.x01)) (Some [Byte.x05; Byte.x07; Byte.xc2; Byte.x80; b]).

Section example_history.
#[local] Existing Instances steadyRuntime windowHash plainSigner openNetwork.

Definition call (op : PeerOp) (w : World PeerHandler) : World PeerHandler := snd (runOp op w).
Definition goroutine (n : nat) (w : World PeerHandler) : World PeerHandler :=
  match tasks (w_st w) !! n with Some t => snd (runTask 600000 t w) | None => w end.

Definition waits (n : nat) (w : World PeerHandler) : bool :=
  match tasks (w_st w) !! n with Some _ => true | None => false end.

Lemma history_goroutine s w D n : history s (w, D) -> waits n w && bool_decide (n ∉ D) = true ->
  history s (goroutine n w, {[n]} ∪ D).
Proof.
  intros Hh [Ht Hn%bool_decide_eq_true]%andb_prop. unfold waits, goroutine in *.
  destruct (tasks (w_st w) !! n) as [t|] eqn:E; [|done]. by apply history_task.
Qed.

Lemma history_op s w D op : history s (w, D) -> history s (call op w, D).
Proof. apply history_call. Qed.

(** A relay which two peers ask for synchronisation, and that sends a packet which it
    is then given again by one of them; the sending goroutines run last. *)
Definition joined : World PeerHandler :=
  goroutine 1 (call (OpPacket (syncPacket Byte.x02) [Byte.x02]) (goroutine 0 (call (OpPacket (syncPacket Byte.x01) [Byte.x01])
    (call (OpSetP2PHandler [Byte.x09]) (mkWorld 0%nat (NewPeerHandler true)))))).
Definition broadcast : World PeerHandler :=
  goroutine 2 (goroutine 6 (goroutine 4 (call (OpPacket examplePacket [Byte.x02]) (call (OpLocalPacket examplePacket) joined)))).

Lemma broadcast_history : exists D, history (mkWorld 0%nat (NewPeerHandler true), ∅) (broadcast, D).
Proof.
  exists ({[2%nat]} ∪ ({[6%nat]} ∪ ({[4%nat]} ∪ ({[1%nat]} ∪ ({[0%nat]} ∪ ∅))))). unfold broadcast, joined.
  repeat lazymatch goal with
  | |- history _ (call _ _, _) => apply history_op
  | |- history _ (goroutine _ _, _) => apply history_goroutine; [|vm_compute; reflexivity]
  end. apply history_refl.
Qed.

Lemma no_peer_is_sent_a_packet_twice_witness :
  delivered (packet_Hash examplePacket) (sentPackets (w_st broadcast)) = [[Byte.x02]; [Byte.x01]] /\
  exists new, sentPackets (w_st broadcast) = [] ++ new /\ forall h, NoDup (delivered h new).
Proof.
  split; [vm_compute; reflexivity|]. destruct broadcast_history as [D Hh].
  apply (no_peer_is_sent_a_packet_twice (mkWorld 0%nat (NewPeerHandler true)) ∅ broadcast D Hh).
  intros n l packet Hn. discriminate Hn.
Defined.
End example_history.

Section parent_hash.
Context `{GoRuntime} `{Crypto}.

(** The effect of a change of the parent hash. *)
Record parent_changed (parentHash : Hash) (n : Z) (p p' : PeerHandler) : Prop := {
  pc_hash : p_currentParentHash p' = parentHash;
  pc_number : p_currentBlockNumber p' = n;
  pc_records : packetSyncMap p' = filter (fun kv => ParentHash (sync_packet kv.2) = parentHash) (packetSyncMap p);
  pc_counters : Forall (fun c : PeerHandler -> Counter => c p' = mkCounter (i64 (c_total (c p) + c_current (c p))) 0)
    [packetsReceived; packetsReceivedFromRelay; packetsSent; packetsSentToRelays; localPacketsSentToRelays];
}.

(** When the parent hash changes, exactly the packets of the new parent stay
    on record, and every counter of the previous block is added to its total
    and reset. *)
Theorem SetCurrentParentHash_correct parentHash n (w : World PeerHandler) :
  parent_changed parentHash n (w_st w) (exec (SetCurrentParentHash parentHash n) w).
Proof.
  apply (wp_exec (SetCurrentParentHash parentHash n) w (fun _ => parent_changed parentHash n (w_st w))).
  unfold SetCurrentParentHash. do 3 wp_step. wp_step. peer_simpl.
  assert (Hm : foldl (fun m '(k, v) => if IsEqualTo (ParentHash (sync_packet v)) parentHash then m else delete k m)
      (packetSyncMap (w_st w)) l = filter (fun kv => ParentHash (sync_packet kv.2) = parentHash) (packetSyncMap (w_st w))).
  { rewrite (range_delete_filter (fun _ v => IsEqualTo (ParentHash (sync_packet v)) parentHash)) by done.
    apply map_filter_ext. intros k v _. apply IsEqualTo_true. }
  unfold spawn. wp_steps; peer_simpl; rewrite ?Hm; split; try done; repeat constructor.
Qed.

(** A goroutine that looks for a relay panics when no connected peer has
    announced its capabilities: [capabilityDetails] of such a peer is nil. *)
Theorem ConnectAvailableConsensusRelay_panics (w : World PeerHandler)
  (Hne : peerMap (w_st w) <> ∅)
  (Hnone : map_Forall (fun _ d => capabilityDetails d = None) (peerMap (w_st w))) :
  out ConnectAvailableConsensusRelay w = Panic "nil capabilityDetails".
Proof.
  apply (wp_exec ConnectAvailableConsensusRelay w (fun o _ => o = Panic "nil capabilityDetails")).
  unfold ConnectAvailableConsensusRelay. wp_step. wp_step.
  destruct l as [|[k d] l].
  { apply Permutation_nil_l in H1. symmetry in H1. by apply map_to_list_empty_iff in H1. }
  simpl. assert (Hd : capabilityDetails d = None).
  { apply (Hnone k). apply elem_of_map_to_list. rewrite <- H1. by left. }
  rewrite Hd. by wp_step.
Qed.
End parent_hash.

(** A node that two peers have joined. *)
Definition twoPeers : PeerHandler :=
  (NewPeerHandler false) <| peerMap := {[ [Byte.x01] := mkPeerDetails None [Byte.x01];
                                          [Byte.x02] := mkPeerDetails None [Byte.x02] ]} |>.

Lemma ConnectAvailableConsensusRelay_panics_witness :
  out (ConnectAvailableConsensusRelay (H := steadyRuntime)) (mkWorld 0%nat twoPeers) = Panic "nil capabilityDetails".
Proof.
  apply ConnectAvailableConsensusRelay_panics.
  - apply (bool_decide_unpack _). vm_compute. exact I.
  - apply map_Forall_insert_2; [done|]. by apply map_Forall_singleton.
Defined.

(** * The two mutexes

    [BroadcastToSyncPeers] holds [peerLock] when it takes [parentHashLock]
    through [GetCurrentParentHash]; [SetCurrentParentHash] takes them in the
    opposite order. *)

Inductive Mutex := peerLock | parentHashLock.
#[export] Instance Mutex_eq_dec : EqDecision Mutex.
Proof. solve_decision. Defined.

Inductive LockOp := Lock (m : Mutex) | Unlock (m : Mutex).

(** The lock operations of a call, in program order. *)
Definition locks_GetCurrentParentHash : list LockOp := [Lock parentHashLock; Unlock parentHashLock].
Definition locks_BroadcastToSyncPeers : list LockOp :=
  [Lock peerLock] ++ locks_GetCurrentParentHash ++ [Unlock peerLock].
Definition locks_BroadcastToConsensusRelays : list LockOp := [Lock peerLock; Unlock peerLock].
(** The deferred unlocks run in reverse order. *)
Definition locks_SetCurrentParentHash : list LockOp :=
  [Lock parentHashLock; Lock peerLock; Unlock peerLock; Unlock parentHashLock].

(** Threads with the operations left to do, and the holder of each mutex. *)
Record Threads := mkThreads { holder : Mutex -> option nat; threads : list (list LockOp) }.

Definition set_holder (h : Mutex -> option nat) (m : Mutex) (o : option nat) : Mutex -> option nat :=
  fun m' => if decide (m' = m) then o else h m'.

(** A thread takes a free mutex, or releases one. *)
Inductive lock_step : Threads -> Threads -> Prop :=
| step_Lock h ts i m ops :
    ts !! i = Some (Lock m :: ops) -> h m = None ->
    lock_step (mkThreads h ts) (mkThreads (set_holder h m (Some i)) (<[i := ops]> ts))
| step_Unlock h ts i m ops :
    ts !! i = Some (Unlock m :: ops) ->
    lock_step (mkThreads h ts) (mkThreads (set_holder h m None) (<[i := ops]> ts)).

Definition started (ts : list (list LockOp)) : Threads := mkThreads (fun _ => None) ts.

(** C39: a relay can deadlock: with one goroutine in [BroadcastToSyncPeers] and
    the consensus thread in [SetCurrentParentHash], a reachable state has both
    threads waiting for the other's mutex and no step left. *)
Theorem peer_locks_deadlock :
  exists s, rtc lock_step (started [locks_BroadcastToSyncPeers; locks_SetCurrentParentHash]) s
    /\ Forall (fun ops => ops <> []) (threads s) /\ forall s', ~ lock_step s s'.
Proof.
  eexists. split_and!.
  - eapply rtc_l; [by apply (step_Lock _ _ 0)|]. eapply rtc_l; [by apply (step_Lock _ _ 1)|]. apply rtc_refl.
  - by repeat constructor.
  - intros s' Hs. inversion Hs as [h ts i m ops Hi Hm|h ts i m ops Hi]; subst;
      destruct i as [|[|i]]; simpl in Hi; simplify_eq/=.
Qed.
