(* ===== verification/Consensus.v ===== *)
(** The consensus handler: the state of the rounds of each block under
    decision, and the operations that receive, create and count the proposals,
    acknowledgements, precommits and commits.

    Models src/consensus/proofofstake/PacketHandler.go.  The pointers to
    [BlockStateDetails] and [BlockRoundDetails] are paths: the parent hash in
    [blockStateDetailsMap] and the round in [blockRoundMap]; no two paths reach
    the same object.  A write through a pointer is a write at its path, and it
    stays when the function later returns an error. *)

From S2P Require Import Prelude Common Selection Rlp RlpEnc RlpDec Packets Context BlockValidator Peer.
From Stdlib Require Import Strings.Byte Strings.Ascii.

(** * State *)

Record OutOfOrderPacket := mkOutOfOrderPacket { ReceivedTime : Z; Packet : ConsensusPacket }.

Record BlockRoundDetails := mkBlockRoundDetails {
  rd_Round : Z;
  proposalPacket : option ConsensusPacket;
  proposalAckPackets : gmap Address ConsensusPacket;
  precommitPackets : gmap Address ConsensusPacket;
  commitPackets : gmap Address ConsensusPacket;
  rd_state : Z;
  rd_precommitHash : Hash;
  blockVoteType : Z;
  blockProposalDetails : option ProposalDetails;
  rd_proposalHash : Hash;
  proposalTxns : slice Hash;
  validatorProposalAcks : gmap Address ProposalAckDetails;
  validatorPrecommits : gmap Address PreCommitDetails;
  validatorCommits : gmap Address CommitDetails;
  rd_initTime : Z;
  selfKnownTransactions : gset Hash;
  selfProposed : bool;
  selfProposalPacket : option ConsensusPacket;
  selfProposedTime : Z;
  selfAckd : bool;
  selfAckPacket : option ConsensusPacket;
  selfAckProposalVoteType : Z;
  selfPrecommited : bool;
  selfPrecommitPacket : option ConsensusPacket;
  precommitInitTime : Z;
  selfCommited : bool;
  selfCommitPacket : option ConsensusPacket;
  rd_proposer : Address;
  newRoundReason : Z;
}.

#[export] Instance eta_BlockRoundDetails : Eta BlockRoundDetails := fun r =>
  mkBlockRoundDetails (rd_Round r) (proposalPacket r) (proposalAckPackets r) (precommitPackets r)
    (commitPackets r) (rd_state r) (rd_precommitHash r) (blockVoteType r) (blockProposalDetails r)
    (rd_proposalHash r) (proposalTxns r) (validatorProposalAcks r) (validatorPrecommits r)
    (validatorCommits r) (rd_initTime r) (selfKnownTransactions r) (selfProposed r)
    (selfProposalPacket r) (selfProposedTime r) (selfAckd r) (selfAckPacket r)
    (selfAckProposalVoteType r) (selfPrecommited r) (selfPrecommitPacket r) (precommitInitTime r)
    (selfCommited r) (selfCommitPacket r) (rd_proposer r) (newRoundReason r).

#[export] Instance set_proposalPacket : Setter proposalPacket := ltac:(derive_setter).
#[export] Instance set_proposalAckPackets : Setter proposalAckPackets := ltac:(derive_setter).
#[export] Instance set_precommitPackets : Setter precommitPackets := ltac:(derive_setter).
#[export] Instance set_commitPackets : Setter commitPackets := ltac:(derive_setter).
#[export] Instance set_rd_state : Setter rd_state := ltac:(derive_setter).
#[export] Instance set_rd_precommitHash : Setter rd_precommitHash := ltac:(derive_setter).
#[export] Instance set_blockVoteType : Setter blockVoteType := ltac:(derive_setter).
#[export] Instance set_blockProposalDetails : Setter blockProposalDetails := ltac:(derive_setter).
#[export] Instance set_rd_proposalHash : Setter rd_proposalHash := ltac:(derive_setter).
#[export] Instance set_proposalTxns : Setter proposalTxns := ltac:(derive_setter).
#[export] Instance set_validatorProposalAcks : Setter validatorProposalAcks := ltac:(derive_setter).
#[export] Instance set_validatorPrecommits : Setter validatorPrecommits := ltac:(derive_setter).
#[export] Instance set_validatorCommits : Setter validatorCommits := ltac:(derive_setter).
#[export] Instance set_selfKnownTransactions : Setter selfKnownTransactions := ltac:(derive_setter).
#[export] Instance set_selfProposed : Setter selfProposed := ltac:(derive_setter).
#[export] Instance set_selfProposalPacket : Setter selfProposalPacket := ltac:(derive_setter).
#[export] Instance set_selfProposedTime : Setter selfProposedTime := ltac:(derive_setter).
#[export] Instance set_selfAckd : Setter selfAckd := ltac:(derive_setter).
#[export] Instance set_selfAckPacket : Setter selfAckPacket := ltac:(derive_setter).
#[export] Instance set_selfAckProposalVoteType : Setter selfAckProposalVoteType := ltac:(derive_setter).
#[export] Instance set_selfPrecommited : Setter selfPrecommited := ltac:(derive_setter).
#[export] Instance set_selfPrecommitPacket : Setter selfPrecommitPacket := ltac:(derive_setter).
#[export] Instance set_precommitInitTime : Setter precommitInitTime := ltac:(derive_setter).
#[export] Instance set_selfCommited : Setter selfCommited := ltac:(derive_setter).
#[export] Instance set_selfCommitPacket : Setter selfCommitPacket := ltac:(derive_setter).
#[export] Instance set_rd_proposer : Setter rd_proposer := ltac:(derive_setter).

(** Reads the fields of an updated round. *)
Ltac round_simpl :=
  cbn [upd set_proposalPacket set_proposalAckPackets set_precommitPackets set_commitPackets
    set_rd_state set_rd_precommitHash set_blockVoteType set_blockProposalDetails set_rd_proposalHash
    set_proposalTxns set_validatorProposalAcks set_validatorPrecommits set_validatorCommits
    set_selfKnownTransactions set_selfProposed set_selfProposalPacket set_selfProposedTime
    set_selfAckd set_selfAckPacket set_selfAckProposalVoteType set_selfPrecommited
    set_selfPrecommitPacket set_precommitInitTime set_selfCommited set_selfCommitPacket set_rd_proposer
    rd_Round proposalPacket proposalAckPackets precommitPackets commitPackets rd_state
    rd_precommitHash blockVoteType blockProposalDetails rd_proposalHash proposalTxns
    validatorProposalAcks validatorPrecommits validatorCommits rd_initTime selfKnownTransactions
    selfProposed selfProposalPacket selfProposedTime selfAckd selfAckPacket selfAckProposalVoteType
    selfPrecommited selfPrecommitPacket precommitInitTime selfCommited selfCommitPacket rd_proposer
    newRoundReason] in *.

(** The two deposit values are nil pointers until [filterValidators] has set
    them, before any other operation can see the record. *)
Record BlockStateDetails := mkBlockStateDetails {
  filteredValidatorsDepositMap : gmap Address Z;
  bs_validatorDetailsMap : option (gmap Address ValidatorDetailsV2);
  bs_totalBlockDepositValue : Z;
  blockMinWeightedProposalsRequired : Z;
  bs_initTime : Z;
  blockRoundMap : gmap Z BlockRoundDetails;
  currentRound : Z;
  bs_parentHash : Hash;
  highestProposalRoundSeen : Z;
  bs_consensusContext : Hash;
  proposalTime : Z;
  ackProposalTime : Z;
  precommitTime : Z;
  commitTime : Z;
  bs_blockNumber : Z;
}.

#[export] Instance eta_BlockStateDetails : Eta BlockStateDetails := fun b =>
  mkBlockStateDetails (filteredValidatorsDepositMap b) (bs_validatorDetailsMap b)
    (bs_totalBlockDepositValue b) (blockMinWeightedProposalsRequired b) (bs_initTime b)
    (blockRoundMap b) (currentRound b) (bs_parentHash b) (highestProposalRoundSeen b)
    (bs_consensusContext b) (proposalTime b) (ackProposalTime b) (precommitTime b) (commitTime b)
    (bs_blockNumber b).

#[export] Instance set_filteredValidatorsDepositMap : Setter filteredValidatorsDepositMap := ltac:(derive_setter).
#[export] Instance set_bs_validatorDetailsMap : Setter bs_validatorDetailsMap := ltac:(derive_setter).
#[export] Instance set_bs_totalBlockDepositValue : Setter bs_totalBlockDepositValue := ltac:(derive_setter).
#[export] Instance set_blockMinWeightedProposalsRequired : Setter blockMinWeightedProposalsRequired := ltac:(derive_setter).
#[export] Instance set_blockRoundMap : Setter blockRoundMap := ltac:(derive_setter).
#[export] Instance set_currentRound : Setter currentRound := ltac:(derive_setter).
#[export] Instance set_highestProposalRoundSeen : Setter highestProposalRoundSeen := ltac:(derive_setter).
#[export] Instance set_bs_consensusContext : Setter bs_consensusContext := ltac:(derive_setter).
#[export] Instance set_proposalTime : Setter proposalTime := ltac:(derive_setter).
#[export] Instance set_ackProposalTime : Setter ackProposalTime := ltac:(derive_setter).
#[export] Instance set_precommitTime : Setter precommitTime := ltac:(derive_setter).
#[export] Instance set_commitTime : Setter commitTime := ltac:(derive_setter).

Ltac block_simpl :=
  cbn [upd set_filteredValidatorsDepositMap set_bs_validatorDetailsMap set_bs_totalBlockDepositValue
    set_blockMinWeightedProposalsRequired set_blockRoundMap set_currentRound
    set_highestProposalRoundSeen set_bs_consensusContext set_proposalTime set_ackProposalTime
    set_precommitTime set_commitTime
    filteredValidatorsDepositMap bs_validatorDetailsMap bs_totalBlockDepositValue
    blockMinWeightedProposalsRequired bs_initTime blockRoundMap currentRound bs_parentHash
    highestProposalRoundSeen bs_consensusContext proposalTime ackProposalTime precommitTime commitTime
    bs_blockNumber] in *.

(** The goroutines that send on the network. *)
Inductive HandlerTask :=
| GoBroadcastConsensusData (packet : ConsensusPacket)
| GoRequestConsensusData (packet : RequestConsensusDataPacket).

Record ConsensusHandler := mkConsensusHandler {
  account : Address;
  signFnSet : bool;
  h_p2pSet : bool;
  blockStateDetailsMap : gmap Hash BlockStateDetails;
  outOfOrderPacketsMap : gmap Hash (gmap Hash OutOfOrderPacket);
  currentParentHash : Hash;
  timeStatMap : gmap string Z;
  nilVoteBlocks : Z;
  okVoteBlocks : Z;
  totalTransactions : Z;
  maxTransactionsInBlock : Z;
  maxTransactionsBlockTime : Z;
  h_initTime : Z;
  initialized : bool;
  (** nil until consensus starts *)
  packetHashLastSentMap : option (gmap Hash Z);
  lastRequestConsensusDataTime : Z;
  lastBlockNumber : Z;
  lastBlockNumberChangeTime : Z;
  TotalIncomingPacketCount : Z;
  latestBlockNumber : Z;
  peerHandler : PeerHandler;
  (** previoushash.txt in the data directory *)
  previousHashFile : option string;
  h_tasks : list HandlerTask;
}.

#[export] Instance eta_ConsensusHandler : Eta ConsensusHandler := fun h =>
  mkConsensusHandler (account h) (signFnSet h) (h_p2pSet h) (blockStateDetailsMap h)
    (outOfOrderPacketsMap h) (currentParentHash h) (timeStatMap h) (nilVoteBlocks h) (okVoteBlocks h)
    (totalTransactions h) (maxTransactionsInBlock h) (maxTransactionsBlockTime h) (h_initTime h)
    (initialized h) (packetHashLastSentMap h) (lastRequestConsensusDataTime h) (lastBlockNumber h)
    (lastBlockNumberChangeTime h) (TotalIncomingPacketCount h) (latestBlockNumber h) (peerHandler h)
    (previousHashFile h) (h_tasks h).

#[export] Instance set_account : Setter account := ltac:(derive_setter).
#[export] Instance set_signFnSet : Setter signFnSet := ltac:(derive_setter).
#[export] Instance set_h_p2pSet : Setter h_p2pSet := ltac:(derive_setter).
#[export] Instance set_blockStateDetailsMap : Setter blockStateDetailsMap := ltac:(derive_setter).
#[export] Instance set_outOfOrderPacketsMap : Setter outOfOrderPacketsMap := ltac:(derive_setter).
#[export] Instance set_currentParentHash : Setter currentParentHash := ltac:(derive_setter).
#[export] Instance set_timeStatMap : Setter timeStatMap := ltac:(derive_setter).
#[export] Instance set_nilVoteBlocks : Setter nilVoteBlocks := ltac:(derive_setter).
#[export] Instance set_okVoteBlocks : Setter okVoteBlocks := ltac:(derive_setter).
#[export] Instance set_totalTransactions : Setter totalTransactions := ltac:(derive_setter).
#[export] Instance set_maxTransactionsInBlock : Setter maxTransactionsInBlock := ltac:(derive_setter).
#[export] Instance set_maxTransactionsBlockTime : Setter maxTransactionsBlockTime := ltac:(derive_setter).
#[export] Instance set_h_initTime : Setter h_initTime := ltac:(derive_setter).
#[export] Instance set_initialized : Setter initialized := ltac:(derive_setter).
#[export] Instance set_packetHashLastSentMap : Setter packetHashLastSentMap := ltac:(derive_setter).
#[export] Instance set_lastRequestConsensusDataTime : Setter lastRequestConsensusDataTime := ltac:(derive_setter).
#[export] Instance set_lastBlockNumber : Setter lastBlockNumber := ltac:(derive_setter).
#[export] Instance set_lastBlockNumberChangeTime : Setter lastBlockNumberChangeTime := ltac:(derive_setter).
#[export] Instance set_TotalIncomingPacketCount : Setter TotalIncomingPacketCount := ltac:(derive_setter).
#[export] Instance set_latestBlockNumber : Setter latestBlockNumber := ltac:(derive_setter).
#[export] Instance set_peerHandler : Setter peerHandler := ltac:(derive_setter).
#[export] Instance set_previousHashFile : Setter previousHashFile := ltac:(derive_setter).
#[export] Instance set_h_tasks : Setter h_tasks := ltac:(derive_setter).

Ltac handler_simpl :=
  cbn [upd set_account set_signFnSet set_h_p2pSet set_blockStateDetailsMap set_outOfOrderPacketsMap
    set_currentParentHash set_timeStatMap set_nilVoteBlocks set_okVoteBlocks set_totalTransactions
    set_maxTransactionsInBlock set_maxTransactionsBlockTime set_h_initTime set_initialized
    set_packetHashLastSentMap set_lastRequestConsensusDataTime set_lastBlockNumber
    set_lastBlockNumberChangeTime set_TotalIncomingPacketCount set_latestBlockNumber set_peerHandler
    set_previousHashFile set_h_tasks
    account signFnSet h_p2pSet blockStateDetailsMap outOfOrderPacketsMap currentParentHash timeStatMap
    nilVoteBlocks okVoteBlocks totalTransactions maxTransactionsInBlock maxTransactionsBlockTime
    h_initTime initialized packetHashLastSentMap lastRequestConsensusDataTime lastBlockNumber
    lastBlockNumberChangeTime TotalIncomingPacketCount latestBlockNumber peerHandler previousHashFile
    h_tasks w_st w_tick] in *.

(** * The machine the node runs on: environment variables and files *)
Class NodeFiles := {
  env_SKIP_HASH_CHECK : nat -> bool;
  ReadFile_error : nat -> option error;
  SaveFile_error : nat -> option error;
  breakglass_file_exists : nat -> Z -> bool;
}.

(** [NewConsensusPacketHandler]; the 25 statistics counters start at 0.  A zero
    [time.Time] is [zeroTime]. *)
Definition NewConsensusPacketHandler (isConsensusRelay : bool) (file : option string) : ConsensusHandler :=
  mkConsensusHandler (arr_zero 32) false false ∅ ∅ (arr_zero 32)
    (list_to_map (map (fun k => (k, 0)) timeStatKeys)) 0 0 0 0 0 zeroTime false None zeroTime 0 zeroTime 0 0
    (NewPeerHandler isConsensusRelay) file [].

(** * Operations *)

Section handler.
Context `{FloatConv} `{NodeConfig} `{Crypto} `{DRNG} `{GoRuntime} `{SignatureAlgorithm}.
Context `{Signer} `{P2PHandler} `{Chain} `{NodeFiles}.

Abbreviation C := (M ConsensusHandler).

(** ** Access through pointers *)

Definition modBlock (h : Hash) (f : BlockStateDetails -> BlockStateDetails) : C unit :=
  modify (fun s => s <| blockStateDetailsMap ::= alter f h |>).

Definition modRound (h : Hash) (r : Z) (f : BlockRoundDetails -> BlockRoundDetails) : C unit :=
  modBlock h (fun b => b <| blockRoundMap ::= alter f r |>).

(** [cph.blockStateDetailsMap[h]], dereferenced. *)
Definition theBlock (h : Hash) : C BlockStateDetails :=
  m ← gets blockStateDetailsMap; must "nil blockStateDetails" (m !! h).

(** [blockStateDetails.blockRoundMap[blockStateDetails.currentRound]], dereferenced. *)
Definition theRound (h : Hash) : C BlockRoundDetails :=
  b ← theBlock h; must "nil blockRoundDetails" (blockRoundMap b !! currentRound b).

Definition onPeers {A} (m : M PeerHandler A) : C A :=
  zoom peerHandler (fun p s => s <| peerHandler := p |>) m.

Definition h_spawn (t : HandlerTask) : C unit :=
  s ← get;
  if h_p2pSet s then modify (fun s => s <| h_tasks ::= fun ts => ts ++ [t] |>)
  else panic "nil p2pHandler".

Definition GetLatestBlockNumber : C Z := gets latestBlockNumber.
Definition SetLatestBlockNumber (number : Z) : C unit := modify (fun s => s <| latestBlockNumber := number |>).

Definition LogIncomingPacketStats : C unit :=
  modify (fun s => s <| TotalIncomingPacketCount ::= fun n => u64 (n + 1) |>).

(** ** Sending *)

Definition createConsensusPacket (parentHash : Hash) (d : list byte) (fullSign : bool) : C ConsensusPacket :=
  s ← get;
  fail_if (negb (signFnSet s)) (ErrorsNew "signFn is not set");;
  let dataToSign := arr_bytes parentHash ++ d in
  signature ← ext (fun t => if fullSign then signFnWithContext t (account s) dataToSign FULL_SIGN_CONTEXT
                            else signFn t (account s) dataToSign) ≫= check_err;
  mret (mkConsensusPacket parentHash (Some signature) (Some d)).

(** A write to [packetHashLastSentMap], which panics while the map is nil. *)
Definition setLastSent (hash : Hash) (t : Z) : C unit :=
  s ← get;
  m ← must "assignment to entry in nil map" (packetHashLastSentMap s);
  modify (fun s => s <| packetHashLastSentMap := Some (<[hash := t]> m) |>).

Definition cleanupBroadcast : C unit :=
  s ← get;
  entries ← range (default ∅ (packetHashLastSentMap s));
  forM (fun '(k, v) =>
    elapsed ← Elapsed v;
    when (Z.leb BROADCAST_CLEANUP_DELAY elapsed)
      (modify (fun s => s <| packetHashLastSentMap ::= fmap (delete k) |>))) entries.

(** Whether a packet or request with this hash may be sent again; notes the time. *)
Definition claimSend (hash : Hash) (resendDelay : Z) : C bool :=
  s ← get;
  match default ∅ (packetHashLastSentMap s) !! hash with
  | None => now ← time_Now; setLastSent hash now;; mret true
  | Some lastSent =>
      elapsed ← Elapsed lastSent;
      if Z.ltb resendDelay elapsed then now ← time_Now; setLastSent hash now;; mret true
      else mret false
  end.

Definition broadCast (packet : option ConsensusPacket) : C unit :=
  match packet with
  | None => fail (ErrorsNew "packet is nil")
  | Some packet =>
      n ← gets latestBlockNumber;
      sendCount ← (if Z.leb PACKET_PROTOCOL_START_BLOCK n then onPeers (BroadcastLocalPacket packet) else mret 0);
      if Z.leb PACKET_PROTOCOL_START_BLOCK n && Z.ltb 8 sendCount then mret ()
      else
        let hash := SetBytes (arr_zero 32) (digestHash packet) in
        packetType ← lift (getPacketType packet);
        send ← claimSend hash BROADCAST_RESEND_DELAY;
        when send (cleanupBroadcast;; h_spawn (GoBroadcastConsensusData packet))
  end.

(** The validators whose packets are missing, in the order of the map. *)
Definition missing {A} (b : BlockStateDetails) (have : gmap Address A) : C (list Address) :=
  entries ← range (filteredValidatorsDepositMap b);
  mret (filter (fun v => have !! v = None) (map fst entries)).

Definition getRequestConsensusDataPacket (b : BlockStateDetails) : C RequestConsensusPacketDetails :=
  rd ← must "nil blockRoundDetails" (blockRoundMap b !! currentRound b);
  if Z.eqb (rd_state rd) BLOCK_STATE_WAITING_FOR_PROPOSAL then
    mret (mkRequestConsensusPacketDetails true [] [] [] 0)
  else if Z.eqb (rd_state rd) BLOCK_STATE_WAITING_FOR_PROPOSAL_ACKS then
    acks ← missing b (proposalAckPackets rd);
    mret (mkRequestConsensusPacketDetails false acks [] [] 0)
  else if Z.eqb (rd_state rd) BLOCK_STATE_WAITING_FOR_PRECOMMITS then
    acks ← missing b (proposalAckPackets rd);
    precommits ← missing b (precommitPackets rd);
    mret (mkRequestConsensusPacketDetails false acks precommits [] 0)
  else if Z.eqb (rd_state rd) BLOCK_STATE_WAITING_FOR_COMMITS then
    acks ← missing b (proposalAckPackets rd);
    precommits ← missing b (precommitPackets rd);
    commits ← missing b (commitPackets rd);
    mret (mkRequestConsensusPacketDetails false acks precommits commits 0)
  else fail (ErrorsNew "unknown state").

Definition requestConsensusData (parentHash : Hash) : C unit :=
  b ← theBlock parentHash;
  let hash := SetBytes (arr_zero 32) (Keccak256 [arr_bytes (bs_parentHash b)]) in
  send ← claimSend hash (BROADCAST_RESEND_DELAY * 3);
  when send (
    elapsed ← Elapsed (bs_initTime b);
    when (negb (Z.ltb elapsed BLOCK_TIMEOUT_MS)) (
      last ← gets lastRequestConsensusDataTime;
      elapsed ← Elapsed last;
      when (negb (Z.ltb elapsed CONSENSUS_DATA_REQUEST_RESEND_DELAY)) (
        now ← time_Now;
        modify (fun s => s <| lastRequestConsensusDataTime := now |>);;
        details ← getRequestConsensusDataPacket b;
        d ← lift (rlp_EncodeToBytes details);
        h_spawn (GoRequestConsensusData (mkRequestConsensusDataPacket (bs_parentHash b) (Some d)))))).

(** ** Rounds *)

Definition newBlockRound (round initTime reason : Z) : BlockRoundDetails :=
  {| rd_Round := round; proposalPacket := None; proposalAckPackets := ∅; precommitPackets := ∅;
     commitPackets := ∅; rd_state := BLOCK_STATE_WAITING_FOR_PROPOSAL; rd_precommitHash := arr_zero 32;
     blockVoteType := 0; blockProposalDetails := None; rd_proposalHash := arr_zero 32; proposalTxns := None;
     validatorProposalAcks := ∅; validatorPrecommits := ∅; validatorCommits := ∅; rd_initTime := initTime;
     selfKnownTransactions := ∅; selfProposed := false; selfProposalPacket := None;
     selfProposedTime := zeroTime; selfAckd := false; selfAckPacket := None; selfAckProposalVoteType := 0;
     selfPrecommited := false; selfPrecommitPacket := None; precommitInitTime := zeroTime;
     selfCommited := false; selfCommitPacket := None; rd_proposer := arr_zero 32; newRoundReason := reason |}.

(** It works on the block of [currentParentHash]. *)
Definition initializeNewBlockRound (reason : Z) : C unit :=
  h ← gets currentParentHash;
  b ← theBlock h;
  now ← time_Now;
  let rd := newBlockRound (u8 (currentRound b + 1)) now reason in
  proposer ← getBlockProposer h (filteredValidatorsDepositMap b) (rd_Round rd) (bs_validatorDetailsMap b)
               (bs_blockNumber b) (bs_consensusContext b);
  modBlock h (fun b => b <| blockRoundMap ::= <[rd_Round rd := rd <| rd_proposer := proposer |>]> |>
                         <| currentRound := rd_Round rd |>).

Definition isBlockProposer (parentHash : Hash) (round : Z) (b : BlockStateDetails) : C bool :=
  blockProposer ← getBlockProposer parentHash (filteredValidatorsDepositMap b) round (bs_validatorDetailsMap b)
                    (bs_blockNumber b) (bs_consensusContext b);
  me ← gets account;
  mret (IsEqualTo blockProposer me).

(** [parentHash.Hex()] written to previoushash.txt. *)
Definition hexDigit (z : Z) : Ascii.ascii :=
  Ascii.ascii_of_nat (Z.to_nat (if Z.ltb z 10 then 48 + z else 87 + z)).
Definition hex_EncodeToString (l : list byte) : string :=
  foldr (fun b s => String (hexDigit (Z.shiftr (Zb b) 4)) (String (hexDigit (Z.land (Zb b) 15)) s)) EmptyString l.
Definition Hash_Hex (h : Hash) : string := ("0x" +:+ hex_EncodeToString (arr_bytes h))%string.

Definition SaveHash (parentHash : Hash) : C unit :=
  err ← ext SaveFile_error;
  match err with
  | Some e => fail e
  | None => modify (fun s => s <| previousHashFile := Some (Hash_Hex parentHash) |>)
  end.

(** [common.FromHex]: an optional 0x prefix, and a digit 0 in front of an odd
    number of digits. *)
Definition strip0x (s : string) : string :=
  match s with
  | String "0"%char (String "x"%char t) | String "0"%char (String "X"%char t) => t
  | _ => s
  end.
Definition FromHex (s : string) : list byte :=
  let s := strip0x s in
  let s := if Nat.odd (String.length s) then ("0" +:+ s)%string else s in
  Hex2Bytes s.
Definition HexToHash (s : string) : Hash := BytesToHash (FromHex s).

Definition DoesPreviousHashMatch (parentHash : Hash) : C bool :=
  skipCheck ← ext env_SKIP_HASH_CHECK;
  if (skipCheck : bool) then mret false
  else
    file ← gets previousHashFile;
    match file with
    | None => mret false
    | Some content =>
        err ← ext ReadFile_error;
        match err with
        | Some e => fail e
        | None => mret (IsEqualTo (HexToHash content) parentHash)
        end
    end.

Definition deleteBlock (h : Hash) : C unit := modify (fun s => s <| blockStateDetailsMap ::= delete h |>).

(** [if err != nil { delete(cph.blockStateDetailsMap, parentHash); return e }] *)
Definition orDelete {A} (h : Hash) (f : error -> error) (m : C A) : C A :=
  r ← try_ m;
  match r with
  | inl a => mret a
  | inr e => deleteBlock h;; fail (f e)
  end.

Definition initializeBlockStateIfRequired (parentHash : Hash) (blockNumber : Z) : C unit :=
  m ← gets blockStateDetailsMap;
  if bool_decide (is_Some (m !! parentHash)) then mret ()
  else
    now ← time_Now;
    modify (fun s => s <| blockStateDetailsMap ::= <[parentHash :=
      mkBlockStateDetails ∅ None 0 0 now ∅ 0 parentHash 0 (arr_zero 32) 0 0 0 0 blockNumber]> |>);;
    now ← time_Now;
    modify (fun s => s <| lastRequestConsensusDataTime := now |>);;
    validators ← orDelete parentHash (fun e => e) (ext (fun t => getValidatorsFn t parentHash) ≫= check_err);
    let preFilterValidatorCount := mlen validators in
    f ← orDelete parentHash (fun e => e) (filterValidators parentHash validators blockNumber);
    modBlock parentHash (fun b => b <| bs_totalBlockDepositValue := fr_depositValue f |>
                                    <| blockMinWeightedProposalsRequired := fr_minRequired f |>);;
    (* an error of listValidatorsFn leaves the new entry in place *)
    when (Z.leb BLOCK_PROPOSER_NIL_BLOCK_START_BLOCK blockNumber) (
      details ← ext (fun t => listValidatorsFn t parentHash) ≫= check_err;
      entries ← range details;
      modBlock parentHash (fun b => b <| bs_validatorDetailsMap :=
        Some (pruneValidators (fr_validators f) entries details) |>));;
    (if Z.ltb (fr_depositValue f) MIN_BLOCK_DEPOSIT
     then deleteBlock parentHash;; fail (ErrorsNew "min block deposit not met") else mret ());;
    modBlock parentHash (fun b => b <| filteredValidatorsDepositMap := selectedDeposits f |>);;
    modify (fun s => s <| currentParentHash := parentHash |>);;
    (* neither does an error of the consensus context *)
    when (Z.leb CONTEXT_BASED_START_BLOCK blockNumber) (
      contextKey ← lift (GetBlockConsensusContextKeyForBlock blockNumber);
      blockContext ← ext (fun t => getBlockConsensusContext t contextKey parentHash) ≫= check_err;
      modBlock parentHash (fun b => b <| bs_consensusContext := contextHash blockContext preFilterValidatorCount |>));;
    orDelete parentHash (fun _ => ErrorsNew "min block deposit not met")
      (initializeNewBlockRound NEW_ROUND_REASON_START);;
    onPeers (SetCurrentParentHash parentHash blockNumber);;
    SaveHash parentHash.

Definition cleanupBlockState : C unit :=
  s ← get;
  entries ← range (blockStateDetailsMap s);
  forM (fun '(key, b) =>
    if IsEqualTo (bs_parentHash b) (currentParentHash s) then mret ()
    else
      elapsed ← Elapsed (bs_initTime b);
      when (Z.leb BLOCK_CLEANUP_TIME_MS elapsed) (deleteBlock key)) entries.

(** ** Receiving *)

(** The state of the block a packet is about, and its current round. *)
Definition packetBlock (packet : ConsensusPacket) : C BlockStateDetails :=
  s ← get;
  match blockStateDetailsMap s !! ParentHash packet with
  | None => fail UnknownParentHashErr
  | Some b =>
      fail_if (bool_decide (filteredValidatorsDepositMap b !! account s = None)) (ErrorsNew "not a validator in this block");;
      mret b
  end.

Definition packetRound (b : BlockStateDetails) : C BlockRoundDetails :=
  match blockRoundMap b !! currentRound b with
  | None => fail (ErrorsNew "invalid round")
  | Some rd => mret rd
  end.

Definition isFiltered (b : BlockStateDetails) (v : Address) : bool :=
  bool_decide (is_Some (filteredValidatorsDepositMap b !! v)).

(** The loop that copies the transactions of a proposal; it stops at a
    transaction that is already finalised. *)
Definition copyTxns (h : Hash) (r : Z) (txns : list Hash) : C unit :=
  modRound h r (fun rd => rd <| proposalTxns := Some (replicate (length txns) (arr_zero 32)) |>);;
  forM (fun '(i, txn) =>
    exists_ ← ext (fun t => doesFinalizedTransactionExistFn t txn) ≫= check_err;
    fail_if exists_ (ErrorsNew "transaction already finalized");;
    modRound h r (fun rd => rd <| proposalTxns ::= fmap <[i := txn]> |>)) (imap pair txns).

(** [cph.p2pHandler.RequestTransactions(txns)] *)
Definition requestTransactions (txns : list Hash) : C (option error) :=
  s ← get;
  if h_p2pSet s then ext (fun t => RequestTransactions t txns) else panic "nil p2pHandler".

Definition handleProposeBlockPacket (validator : Address) (packet : ConsensusPacket) (self : bool) : C unit :=
  let h := ParentHash packet in
  b ← packetBlock packet;
  rd ← packetRound b;
  details ← lift (decodePayload packet);
  fail_if (negb (Z.eqb (pd_Round details) (rd_Round rd))) OutOfOrderPackerErr;;
  fail_if (Z.leb BLOCK_STATE_WAITING_FOR_PROPOSAL_ACKS (rd_state rd)) OutOfOrderPackerErr;;
  fail_if (negb (isFiltered b validator)) (ErrorsNew "invalid validator");;
  fail_if (negb (IsEqualTo (rd_proposer rd) validator)) (ErrorsNew "invalid proposer");;
  timeOk ← ValidateBlockProposalTimeConsensus (bs_blockNumber b) (pd_BlockTime details);
  fail_if (negb timeOk) (ErrorsNew "block time validation failed, skipping packet");;
  me ← gets account;
  fail_if (IsEqualTo validator me && negb self) (ErrorsNew "self packet from elsewhere");;
  fail_if (Z.leb MAX_ROUND (currentRound b) && Z.ltb 0 (len (Txns details)))
    (ErrorsNew "unexpected transaction count when handling blockProposal");;
  let proposalHash :=
    if Z.leb PROPOSAL_TIME_HASH_START_BLOCK (bs_blockNumber b)
    then GetCombinedTxnHashWithTime h (pd_Round details) (Txns details) (pd_BlockTime details)
    else GetCombinedTxnHash h (pd_Round details) (Txns details) in
  fail_if (bool_decide (is_Some (proposalPacket rd)) && negb (IsEqualTo proposalHash (rd_proposalHash rd)))
    (ErrorsNew "invalid proposal hash");;
  modRound h (currentRound b) (fun rd => rd <| blockProposalDetails := Some details |>
                                            <| rd_proposalHash ::= fun old => CopyFrom old proposalHash |>);;
  copyTxns h (currentRound b) (Txns details);;
  (if negb self then
     let unknownTxns := filter (fun t => t ∉ selfKnownTransactions rd) (Txns details) in
     if Z.ltb 0 (len unknownTxns) then requestTransactions unknownTxns;; mret ()
     else
       modRound h (currentRound b) (fun rd => rd <| rd_state := BLOCK_STATE_WAITING_FOR_PROPOSAL_ACKS |>);;
       elapsed ← Elapsed (bs_initTime b);
       modBlock h (fun b => b <| proposalTime := elapsed |>)
   else
     elapsed ← Elapsed (bs_initTime b);
     modBlock h (fun b => b <| proposalTime := elapsed |>);;
     now ← time_Now;
     modRound h (currentRound b) (fun rd => rd <| rd_state := BLOCK_STATE_WAITING_FOR_PROPOSAL_ACKS |>
       <| selfProposed := true |> <| selfProposalPacket := Some packet |> <| selfProposedTime := now |>));;
  modRound h (currentRound b) (fun rd => rd <| proposalPacket := Some (NewConsensusPacket packet) |>).

Definition handleAckBlockProposalPacket (validator : Address) (packet : ConsensusPacket) : C unit :=
  let h := ParentHash packet in
  b ← packetBlock packet;
  fail_if (negb (isFiltered b validator)) (ErrorsNew "invalid validator");;
  rd ← packetRound b;
  details ← lift (decodePayload packet);
  (if negb (Z.eqb (pad_Round details) (currentRound b)) then
     when (Z.ltb (currentRound b) (pad_Round details))
       (modBlock h (fun b => b <| highestProposalRoundSeen := pad_Round details |>));;
     fail OutOfOrderPackerErr
   else mret ());;
  let vote := ProposalAckVoteType details in
  fail_if (negb (Z.eqb vote VOTE_TYPE_OK) && negb (Z.eqb vote VOTE_TYPE_NIL)) (ErrorsNew "invalid vote type c");;
  fail_if (Z.leb MAX_ROUND (pad_Round details) && negb (Z.eqb vote VOTE_TYPE_NIL))
    (ErrorsNew "invalid vote type, expected nil vote");;
  let st := rd_state rd in
  if Z.eqb st BLOCK_STATE_RECEIVED_COMMITS then mret ()
  else if Z.eqb st BLOCK_STATE_WAITING_FOR_PROPOSAL_ACKS || Z.eqb st BLOCK_STATE_WAITING_FOR_PRECOMMITS
       || Z.eqb st BLOCK_STATE_WAITING_FOR_PROPOSAL || Z.eqb st BLOCK_STATE_WAITING_FOR_COMMITS then
    modRound h (currentRound b) (fun rd => rd <| validatorProposalAcks ::= <[validator := details]> |>
      <| proposalAckPackets ::= <[validator := NewConsensusPacket packet]> |>)
  else fail (ErrorsNew "invalid state").

(** The deposits of the validators in a vote map; a validator without a deposit
    is a nil pointer. *)
Definition votedDeposits {A} (b : BlockStateDetails) (votes : gmap Address A) : C Z :=
  entries ← range votes;
  foldM (fun total '(val, _) =>
    d ← must "nil deposit" (filteredValidatorsDepositMap b !! val);
    mret (SafeAddBigInt total d)) 0 entries.

Definition handlePrecommitPacket (validator : Address) (packet : ConsensusPacket) (self : bool) : C unit :=
  let h := ParentHash packet in
  b ← packetBlock packet;
  rd ← packetRound b;
  fail_if (negb (Z.eqb (rd_state rd) BLOCK_STATE_WAITING_FOR_PRECOMMITS)) OutOfOrderPackerErr;;
  fail_if (negb (isFiltered b validator)) (ErrorsNew "invalid validator");;
  me ← gets account;
  fail_if (IsEqualTo validator me && negb self) (ErrorsNew "self packet from elsewhere");;
  details ← lift (decodePayload packet);
  fail_if (negb (Z.eqb (pcd_Round details) (currentRound b))) OutOfOrderPackerErr;;
  fail_if (negb (IsEqualTo (pcd_PrecommitHash details) (rd_precommitHash rd))) (ErrorsNew "invalid Precommit Hash");;
  modRound h (currentRound b) (fun rd => rd <| validatorPrecommits ::= <[validator := details]> |>);;
  when self (modRound h (currentRound b) (fun rd => rd <| selfPrecommited := true |> <| selfPrecommitPacket := Some packet |>));;
  when (self || selfPrecommited rd) (
    totalVotesDepositCount ← votedDeposits b (<[validator := details]> (validatorPrecommits rd));
    when (Z.leb (blockMinWeightedProposalsRequired b) totalVotesDepositCount) (
      elapsed ← Elapsed (bs_initTime b);
      modBlock h (fun b => b <| precommitTime := elapsed |>);;
      modRound h (currentRound b) (fun rd => rd <| rd_state := BLOCK_STATE_WAITING_FOR_COMMITS |>)));;
  modRound h (currentRound b) (fun rd => rd <| precommitPackets ::= <[validator := NewConsensusPacket packet]> |>).

(** [cph.timeStatMap[key]++] *)
Definition countStat (key : string) : C unit :=
  modify (fun s => s <| timeStatMap ::= fun m => <[key := i64 (default 0 (m !! key) + 1)]> m |>).

(** The block is decided: statistics. *)
Definition blockStats (h : Hash) (b : BlockStateDetails) (rd : BlockRoundDetails) : C unit :=
  (if Z.eqb (blockVoteType rd) VOTE_TYPE_NIL then
     modify (fun s => s <| nilVoteBlocks ::= fun n => u64 (n + 1) |>)
   else when (Z.eqb (blockVoteType rd) VOTE_TYPE_OK) (
     modify (fun s => s <| okVoteBlocks ::= fun n => u64 (n + 1) |>);;
     let txnCountInBlock := u64 (len (data (proposalTxns rd))) in
     modify (fun s => s <| totalTransactions ::= fun n => u64 (n + txnCountInBlock) |>);;
     s ← get;
     when (Z.ltb (maxTransactionsInBlock s) txnCountInBlock) (
       modify (fun s => s <| maxTransactionsInBlock := txnCountInBlock |>);;
       elapsed ← Elapsed (bs_initTime b);
       modify (fun s => s <| maxTransactionsBlockTime := elapsed |>))));;
  elapsed ← Elapsed (bs_initTime b);
  modBlock h (fun b => b <| commitTime := elapsed |>);;
  countStat (GetTimeStatBucket "proposal" (proposalTime b));;
  countStat (GetTimeStatBucket "ackProposal" (i64 (ackProposalTime b - proposalTime b)));;
  countStat (GetTimeStatBucket "precommit" (i64 (precommitTime b - ackProposalTime b)));;
  countStat (GetTimeStatBucket "commit" (i64 (elapsed - precommitTime b)));;
  countStat (GetTimeStatBucket "total" elapsed).

Definition handleCommitPacket (validator : Address) (packet : ConsensusPacket) (self : bool) : C unit :=
  let h := ParentHash packet in
  b ← packetBlock packet;
  rd ← packetRound b;
  fail_if (negb (Z.eqb (rd_state rd) BLOCK_STATE_WAITING_FOR_COMMITS)) OutOfOrderPackerErr;;
  fail_if (negb (isFiltered b validator)) (ErrorsNew "invalid validator");;
  me ← gets account;
  fail_if (IsEqualTo validator me && negb self) (ErrorsNew "self packet from elsewhere");;
  details ← lift (decodePayload packet);
  fail_if (negb (Z.eqb (cd_Round details) (currentRound b))) OutOfOrderPackerErr;;
  let commitHash := CopyFrom (arr_zero 32) (Keccak256Hash [arr_bytes (rd_precommitHash rd)]) in
  fail_if (negb (IsEqualTo (CommitHash details) commitHash)) (ErrorsNew "invalid commit Hash");;
  modRound h (currentRound b) (fun rd => rd <| validatorCommits ::= <[validator := details]> |>);;
  when self (modRound h (currentRound b) (fun rd => rd <| selfCommited := true |> <| selfCommitPacket := Some packet |>));;
  when (self || selfCommited rd) (
    totalVotesDepositCount ← votedDeposits b (<[validator := details]> (validatorCommits rd));
    when (Z.leb (blockMinWeightedProposalsRequired b) totalVotesDepositCount) (
      blockStats h b rd;;
      modRound h (currentRound b) (fun rd => rd <| rd_state := BLOCK_STATE_RECEIVED_COMMITS |>)));;
  modRound h (currentRound b) (fun rd => rd <| commitPackets ::= <[validator := NewConsensusPacket packet]> |>).

(** The signer of a packet; unlike [ParseConsensusPackets] every failure is
    [InvalidPacketErr], and full signatures verify under [FULL_SIGN_CONTEXT]. *)
Definition packetSigner (packet : ConsensusPacket) (packetType : Z) : C Address :=
  let sig := data (Signature packet) in
  let digest := digestHash packet in
  pubKey ←
    (if Z.eqb packetType CONSENSUS_PACKET_TYPE_PROPOSE_BLOCK && negb (Z.eqb (len sig) SignatureWithPublicKeyLength) then
       pubKey ← check_err_as InvalidPacketErr (PublicKeyFromSignatureWithContext digest sig FULL_SIGN_CONTEXT);
       fail_if (negb (VerifyWithContext pubKey digest sig FULL_SIGN_CONTEXT)) InvalidPacketErr;;
       mret pubKey
     else
       pubKey ← check_err_as InvalidPacketErr (PublicKeyFromSignature digest sig);
       fail_if (negb (Verify pubKey digest sig)) InvalidPacketErr;;
       mret pubKey);
  check_err_as InvalidPacketErr (PublicKeyToAddress pubKey).

Definition processPacket (packet : ConsensusPacket) : C unit :=
  fail_if (Z.ltb (len (data (ConsensusData packet))) 1 || Z.ltb (len (data (Signature packet))) CRYPTO_SIGNATURE_BYTES)
    (ErrorsNew "nil packet");;
  packetType ← lift (getPacketType packet);
  validator ← packetSigner packet packetType;
  if Z.eqb packetType CONSENSUS_PACKET_TYPE_PROPOSE_BLOCK then handleProposeBlockPacket validator packet false
  else if Z.eqb packetType CONSENSUS_PACKET_TYPE_ACK_BLOCK_PROPOSAL then handleAckBlockProposalPacket validator packet
  else if Z.eqb packetType CONSENSUS_PACKET_TYPE_PRECOMMIT_BLOCK then handlePrecommitPacket validator packet false
  else if Z.eqb packetType CONSENSUS_PACKET_TYPE_COMMIT_BLOCK then handleCommitPacket validator packet false
  else
    n ← GetLatestBlockNumber;
    fail_if (negb (Z.leb PACKET_PROTOCOL_START_BLOCK n && Z.leb CONSENSUS_PACKET_TYPE_CAPABILITY packetType))
      (ErrorsNew "unknown packet type").

(** A packet that came too early or too late is kept, under its parent hash. *)
Definition bufferPacket (packet : ConsensusPacket) : C unit :=
  let pkt := NewConsensusPacket packet in
  s ← get;
  let packetMap := default ∅ (outOfOrderPacketsMap s !! ParentHash packet) in
  modify (fun s => s <| outOfOrderPacketsMap ::= <[ParentHash packet := packetMap]> |>);;
  if bool_decide (is_Some (packetMap !! packet_Hash pkt)) then mret ()
  else
    now ← time_Now;
    modify (fun s => s <| outOfOrderPacketsMap ::=
      <[ParentHash packet := <[ParentHash packet := mkOutOfOrderPacket now pkt]> packetMap]> |>).

Definition HandleConsensusPacket (packet : ConsensusPacket) (fromPeerId : PeerId) : C unit :=
  fail_if (emptyPacket packet) (ErrorsNew "invalid packet, nil data");;
  s ← get;
  if negb (signFnSet s) then mret ()
  else
    ready ← (if initialized s then HasExceededTimeThreshold (h_initTime s) STARTUP_DELAY_MS else mret false);
    if negb ready then ignore (onPeers (p_HandleConsensusPacket packet fromPeerId))
    else
      LogIncomingPacketStats;;
      r ← try_ (processPacket packet);
      match r with
      | inr e => when (bool_decide (e = OutOfOrderPackerErr)) (bufferPacket packet)
      | inl _ => onPeers (p_HandleConsensusPacket packet fromPeerId)
      end.

(** The packets of [parentHash] that were kept are processed again; a map of
    another parent is deleted when it is visited before a packet failed. *)
Definition retryPackets (parentHash : Hash) (unprocessed : list OutOfOrderPacket) (key : Hash) : C (list OutOfOrderPacket) :=
  m ← gets outOfOrderPacketsMap;
  match m !! key with
  | None => mret unprocessed
  | Some pktList =>
      entries ← range pktList;
      unprocessed ← foldM (fun acc '(_, pkt) =>
        if IsEqualTo (ParentHash (Packet pkt)) parentHash then
          r ← try_ (processPacket (Packet pkt));
          mret (match r with inl _ => acc | inr _ => acc ++ [mkOutOfOrderPacket (ReceivedTime pkt) (Packet pkt)] end)
        else mret acc) unprocessed entries;
      (if Z.eqb (len unprocessed) 0 then modify (fun s => s <| outOfOrderPacketsMap ::= delete key |>)
       else
         m ← gets outOfOrderPacketsMap;
         packetMap ← must "assignment to entry in nil map" (m !! parentHash);
         modify (fun s => s <| outOfOrderPacketsMap ::= <[parentHash :=
           foldl (fun pm pkt => <[packet_Hash (Packet pkt) := pkt]> pm) packetMap unprocessed]> |>));;
      mret unprocessed
  end.

Definition processOutOfOrderPackets (parentHash : Hash) : C unit :=
  m ← gets outOfOrderPacketsMap;
  entries ← range m;
  foldM (retryPackets parentHash) [] (map fst entries);;
  mret ().

(** ** Moving to the next round *)

(** The validators with a kept packet of a later round of this block.  In the
    precommit phase a kept commit of the current round stops the search. *)
Definition laterRound (stopOnCommit : bool) (parentHash : Hash) (current : Z) (acc : option (gset Address))
    (pkt : OutOfOrderPacket) : C (option (gset Address)) :=
  match acc with
  | None => mret None
  | Some vals =>
      if IsEqualTo (ParentHash (Packet pkt)) parentHash then
        r ← try_ (parsePacket (Packet pkt));
        match r with
        | inr _ => mret (Some vals)
        | inl (round, validator) =>
            packetType ← (if stopOnCommit then lift (getPacketType (Packet pkt)) else mret 0);
            if stopOnCommit && (Z.eqb round current && Z.eqb packetType CONSENSUS_PACKET_TYPE_COMMIT_BLOCK) then mret None
            else mret (Some (if Z.leb round current then vals else {[validator]} ∪ vals))
        end
      else mret (Some vals)
  end.

(** The two nested loops over [outOfOrderPacketsMap]; [None] when it was stopped. *)
Definition validatorsInLaterRounds (stopOnCommit : bool) (parentHash : Hash) (current : Z) : C (option (gset Address)) :=
  m ← gets outOfOrderPacketsMap;
  outer ← range m;
  foldM (fun acc '(_, pktList) =>
    inner ← range pktList;
    foldM (laterRound stopOnCommit parentHash current) acc (map snd inner)) (Some ∅) outer.

Definition findTotalDepositsInGreaterRound (parentHash : Hash) : C Z :=
  b ← theBlock parentHash;
  rd ← theRound parentHash;
  m ← gets outOfOrderPacketsMap;
  outer ← range m;
  valMap ← foldM (fun acc '(_, pktList) =>
    inner ← range pktList;
    foldM (fun acc '(_, pkt) =>
      if IsEqualTo (ParentHash (Packet pkt)) parentHash then
        r ← try_ (parsePacket (Packet pkt));
        mret (match r with
              | inr _ => acc
              | inl (round, validator) =>
                  if Z.leb round (currentRound b) then acc
                  else if bool_decide (is_Some (validatorPrecommits rd !! validator)) then acc
                  else {[validator]} ∪ acc
              end)
      else mret acc) acc inner) (∅ : gset Address) outer;
  deposits ← range (filteredValidatorsDepositMap b);
  mret (foldl (fun total '(val, depositAmount) =>
    if bool_decide (val ∈ valMap) then SafeAddBigInt depositAmount total else total) 0 deposits).

(** The deposits of the validators in later rounds, and of those that voted in
    the current round. *)
Definition splitDeposits (later voted : gset Address) (deposits : list (Address * Z)) : Z * Z :=
  foldl (fun '(greater, soFar) '(val, depositAmount) =>
    if bool_decide (val ∈ later) then (SafeAddBigInt depositAmount greater, soFar)
    else if bool_decide (val ∈ voted) then (greater, SafeAddBigInt depositAmount soFar)
    else (greater, soFar)) (0, 0) deposits.

(** With the votes that are missing already in later rounds, the current round
    cannot be decided any more. *)
Definition cannotDecide (required : Z) (split : Z * Z) : bool :=
  let '(greater, soFar) := split in
  if Z.leb required soFar then false else Z.leb (SafeSubBigInt required soFar) greater.

Definition shouldMoveToNextRoundProposalAcks (parentHash : Hash) : C bool :=
  b ← theBlock parentHash;
  rd ← theRound parentHash;
  later ← validatorsInLaterRounds false parentHash (currentRound b);
  deposits ← range (filteredValidatorsDepositMap b);
  mret (cannotDecide (blockMinWeightedProposalsRequired b)
          (splitDeposits (default ∅ later) (dom (validatorProposalAcks rd)) deposits)).

(** The map of validators that committed, [valCommitMap], is never filled. *)
Definition shouldMoveToNextRoundPrecommit (parentHash : Hash) : C bool :=
  b ← theBlock parentHash;
  rd ← theRound parentHash;
  exceeded ← HasExceededTimeThreshold (precommitInitTime rd) (ACK_BLOCK_TIMEOUT_MS * rd_Round rd);
  if negb exceeded then mret false
  else
    later ← validatorsInLaterRounds true parentHash (currentRound b);
    match later with
    | None => mret false
    | Some later =>
        deposits ← range (filteredValidatorsDepositMap b);
        mret (cannotDecide (blockMinWeightedProposalsRequired b)
                (splitDeposits later (dom (validatorPrecommits rd)) deposits))
    end.

(** ** Acting *)

(** Encode the details, put the header in front and sign. *)
Definition newPacket {A} `{RlpStruct A} (parentHash : Hash) (packetType : Z) (details : A) (fullSign : bool) : C ConsensusPacket :=
  d ← lift (rlp_EncodeToBytes details);
  n ← GetLatestBlockNumber;
  createConsensusPacket parentHash (dataToSend n packetType d) fullSign.

Definition proposeBlock (parentHash : Hash) (txns : list Hash) (blockNumber : Z) : C unit :=
  b ← theBlock parentHash;
  rd ← theRound parentHash;
  if selfProposed rd then broadCast (selfProposalPacket rd)
  else
    blockTime ← GetProposalTime blockNumber;
    let details := mkProposalDetails (if Z.ltb (currentRound b) MAX_ROUND then txns else []) (currentRound b) blockTime in
    packet ← newPacket parentHash CONSENSUS_PACKET_TYPE_PROPOSE_BLOCK details (shouldSignFull blockNumber);
    lift (decodePayload (A := ProposalDetails) packet);;
    me ← gets account;
    handleProposeBlockPacket me packet true;;
    broadCast (Some packet).

(** The counts over the acknowledgements of a round: the deposits of the OK votes
    for the proposal, of the NIL votes, and of all votes. *)
Record AckTotals := mkAckTotals { okTotal : Z; nilTotal : Z; voteTotal : Z }.

Definition countAcks (b : BlockStateDetails) (rd : BlockRoundDetails) : C AckTotals :=
  entries ← range (validatorProposalAcks rd);
  foldM (fun t '(val, ack) =>
    if Z.eqb (ProposalAckVoteType ack) VOTE_TYPE_OK then
      d ← must "nil deposit" (filteredValidatorsDepositMap b !! val);
      mret (mkAckTotals (if IsEqualTo (pad_ProposalHash ack) (rd_proposalHash rd) then SafeAddBigInt (okTotal t) d else okTotal t)
              (nilTotal t) (SafeAddBigInt (voteTotal t) d))
    else if Z.eqb (ProposalAckVoteType ack) VOTE_TYPE_NIL then
      d ← must "nil deposit" (filteredValidatorsDepositMap b !! val);
      mret (mkAckTotals (okTotal t) (SafeAddBigInt (nilTotal t) d) (SafeAddBigInt (voteTotal t) d))
    else fail (ErrorsNew "unexpected")) (mkAckTotals 0 0 0) entries.

(** [currentRound] stands where the loop variable belongs. *)
Definition broadcastPreviousRoundPackets (parentHash : Hash) : C unit :=
  b ← theBlock parentHash;
  rd ← theRound parentHash;
  when (Z.ltb 1 (rd_Round rd)) (
    byteFor byteFuel (fun i => Z.ltb i (rd_Round rd))
      (fun _ i =>
         prev ← must "nil blockRoundDetails" (blockRoundMap b !! currentRound b);
         when (selfAckd prev) (broadCast (selfAckPacket prev)))
      () 1).

(** The acknowledgement of this node is recorded with its packet. *)
Definition recordSelfAck (parentHash : Hash) (r : Z) (details : ProposalAckDetails) (packet : ConsensusPacket) : C unit :=
  me ← gets account;
  modRound parentHash r (fun rd => rd
    <| proposalAckPackets ::= <[me := NewConsensusPacket packet]> |>
    <| validatorProposalAcks ::= <[me := details]> |>
    <| selfAckd := true |> <| selfAckPacket := Some packet |>
    <| selfAckProposalVoteType := ProposalAckVoteType details |>).

(** Enter the precommit phase with the given hash and vote. *)
Definition startPrecommits (parentHash : Hash) (r : Z) (precommitHash : Hash) (vote : Z) : C unit :=
  now ← time_Now;
  modRound parentHash r (fun rd => rd <| rd_state := BLOCK_STATE_WAITING_FOR_PRECOMMITS |>
    <| precommitInitTime := now |>
    <| rd_precommitHash ::= fun old => CopyFrom old precommitHash |>
    <| blockVoteType := vote |>).

(** The end of both functions when no new round was started. *)
Definition afterAcks (parentHash : Hash) : C unit :=
  rd ← theRound parentHash;
  broadCast (selfAckPacket rd);;
  broadcastPreviousRoundPackets parentHash.

Definition ackBlockProposalTimeout (parentHash : Hash) : C unit :=
  b ← theBlock parentHash;
  rd ← theRound parentHash;
  let r := currentRound b in
  (if selfAckd rd then mret ()
   else
     fail_if (negb (Z.eqb (rd_state rd) BLOCK_STATE_WAITING_FOR_PROPOSAL)
              && negb (Z.eqb (rd_state rd) BLOCK_STATE_WAITING_FOR_PROPOSAL_ACKS)) (ErrorsNew "unexpected state");;
     let details := mkProposalAckDetails (CopyFrom (arr_zero 32) (getNilVoteProposalHash parentHash r)) VOTE_TYPE_NIL r in
     packet ← newPacket parentHash CONSENSUS_PACKET_TYPE_ACK_BLOCK_PROPOSAL details false;
     recordSelfAck parentHash r details packet;;
     modRound parentHash r (fun rd => rd <| blockVoteType := VOTE_TYPE_NIL |>));;
  rd ← theRound parentHash;
  t ← countAcks b rd;
  if Z.leb (blockMinWeightedProposalsRequired b) (okTotal t) then afterAcks parentHash
  else if Z.leb (blockMinWeightedProposalsRequired b) (nilTotal t) then
    startPrecommits parentHash r (getNilVotePreCommitHash parentHash r) VOTE_TYPE_NIL;;
    afterAcks parentHash
  else
    exceeded ← HasExceededTimeThreshold (rd_initTime rd) (ACK_BLOCK_TIMEOUT_MS * rd_Round rd);
    if negb exceeded then afterAcks parentHash
    else if Z.leb (bs_totalBlockDepositValue b) (voteTotal t) || Z.leb (blockMinWeightedProposalsRequired b) (voteTotal t) then
      initializeNewBlockRound NEW_ROUND_REASON_WAIT_ACK_BLOCK_PROPOSAL_TIMEOUT
    else
      ok ← shouldMoveToNextRoundProposalAcks parentHash;
      if (ok : bool) then initializeNewBlockRound NEW_ROUND_REASON_WAIT_ACK_BLOCK_PROPOSAL_HIGHER_ROUND
      else afterAcks parentHash.

(** The first half of [ackBlockProposal] when this node has not voted yet. *)
Definition selfAck (parentHash : Hash) (b : BlockStateDetails) (rd : BlockRoundDetails) : C unit :=
  let r := currentRound b in
  fail_if (negb (Z.eqb (rd_state rd) BLOCK_STATE_WAITING_FOR_PROPOSAL_ACKS)) (ErrorsNew "unexpected state");;
  proposal ← must "nil blockProposalDetails" (blockProposalDetails rd);
  fail_if (Z.leb MAX_ROUND r && Z.ltb 0 (len (Txns proposal))) (ErrorsNew "unexpected transaction count");;
  let unknownTxns := filter (fun t => t ∉ selfKnownTransactions rd) (Txns proposal) in
  when (Z.ltb 0 (len unknownTxns)) (
    err ← requestTransactions unknownTxns;
    fail_if (bool_decide (is_Some err)) (ErrorsNew "unknown transactions"));;
  let details :=
    if Z.leb MAX_ROUND r
    then mkProposalAckDetails (CopyFrom (arr_zero 32) (getNilVoteProposalHash parentHash r)) VOTE_TYPE_NIL r
    else mkProposalAckDetails (CopyFrom (arr_zero 32) (rd_proposalHash rd)) VOTE_TYPE_OK r in
  packet ← newPacket parentHash CONSENSUS_PACKET_TYPE_ACK_BLOCK_PROPOSAL details false;
  recordSelfAck parentHash r details packet.

Definition ackBlockProposal (parentHash : Hash) : C unit :=
  b ← theBlock parentHash;
  rd ← theRound parentHash;
  let r := currentRound b in
  (if selfAckd rd then
     shouldPropose ← isBlockProposer parentHash r b;
     when shouldPropose (ignore (broadCast (selfProposalPacket rd)))
   else selfAck parentHash b rd);;
  rd ← theRound parentHash;
  t ← countAcks b rd;
  if Z.leb (blockMinWeightedProposalsRequired b) (okTotal t) && Z.eqb (selfAckProposalVoteType rd) VOTE_TYPE_OK then
    startPrecommits parentHash r (getOkVotePreCommitHash parentHash (rd_proposalHash rd) r) VOTE_TYPE_OK;;
    elapsed ← Elapsed (bs_initTime b);
    modBlock parentHash (fun b => b <| ackProposalTime := elapsed |>);;
    afterAcks parentHash
  else if Z.leb (blockMinWeightedProposalsRequired b) (nilTotal t) then
    startPrecommits parentHash r (getNilVotePreCommitHash parentHash r) VOTE_TYPE_NIL;;
    afterAcks parentHash
  else
    timeout ← (if Z.leb (bs_totalBlockDepositValue b) (voteTotal t) then mret true
               else if Z.leb (blockMinWeightedProposalsRequired b) (voteTotal t) then
                 HasExceededTimeThreshold (rd_initTime rd) (ACK_BLOCK_TIMEOUT_MS * rd_Round rd)
               else mret false);
    if (timeout : bool) then initializeNewBlockRound NEW_ROUND_REASON_WAIT_ACK_BLOCK_PROPOSAL_TIMEOUT
    else
      ok ← shouldMoveToNextRoundProposalAcks parentHash;
      if (ok : bool) then initializeNewBlockRound NEW_ROUND_REASON_WAIT_ACK_BLOCK_PROPOSAL_HIGHER_ROUND
      else afterAcks parentHash.

Definition precommitBlock (parentHash : Hash) : C unit :=
  rd ← theRound parentHash;
  fail_if (bool_decide (selfAckPacket rd = None)) (ErrorsNew "invalid state 1");;
  fail_if (negb (Z.eqb (rd_state rd) BLOCK_STATE_WAITING_FOR_PRECOMMITS)) (ErrorsNew "invalid state 2");;
  me ← gets account;
  if selfPrecommited rd then
    ignore (broadCast (selfAckPacket rd));;
    ignore (broadCast (selfPrecommitPacket rd));;
    packet ← must "nil packet" (selfPrecommitPacket rd);
    handlePrecommitPacket me packet true
  else
    packet ← newPacket parentHash CONSENSUS_PACKET_TYPE_PRECOMMIT_BLOCK
               (mkPreCommitDetails (rd_precommitHash rd) (rd_Round rd)) false;
    handlePrecommitPacket me packet true;;
    ignore (broadCast (selfAckPacket rd));;
    broadCast (Some packet).

Definition commitBlock (parentHash : Hash) : C unit :=
  rd ← theRound parentHash;
  fail_if (bool_decide (selfAckPacket rd = None) || bool_decide (selfPrecommitPacket rd = None)) (ErrorsNew "invalid state 1");;
  fail_if (negb (Z.eqb (rd_state rd) BLOCK_STATE_WAITING_FOR_COMMITS)) (ErrorsNew "invalid state 2");;
  me ← gets account;
  if selfCommited rd then
    ignore (broadCast (selfAckPacket rd));;
    ignore (broadCast (selfPrecommitPacket rd));;
    ignore (broadCast (selfCommitPacket rd));;
    packet ← must "nil packet" (selfCommitPacket rd);
    handleCommitPacket me packet true
  else
    packet ← newPacket parentHash CONSENSUS_PACKET_TYPE_COMMIT_BLOCK
               (mkCommitDetails (CopyFrom (arr_zero 32) (getCommitHash (rd_precommitHash rd))) (rd_Round rd)) false;
    handleCommitPacket me packet true;;
    broadCast (Some packet).

Definition shouldBreakglassNilVote (blockNumber : Z) : C bool := ext (fun t => breakglass_file_exists t blockNumber).

(** The transactions of this node's pool become known to the round. *)
Definition knowTxns (parentHash : Hash) (r : Z) (txns : list Hash) : C unit :=
  modRound parentHash r (fun rd => rd <| selfKnownTransactions ::= fun known => list_to_set txns ∪ known |>).

(** One step of the round of [parentHash], by its state. *)
Definition stepRound (parentHash : Hash) (txns : list Hash) (blockNumber : Z) (shouldPropose : bool) : C unit :=
  b ← theBlock parentHash;
  rd ← theRound parentHash;
  let r := currentRound b in
  let notReady := fail (ErrorsNew "not ready yet") in
  if Z.eqb (rd_state rd) BLOCK_STATE_WAITING_FOR_PROPOSAL then
    knowTxns parentHash r txns;;
    (if shouldPropose then ignore (proposeBlock parentHash txns blockNumber)
     else
       breakglass ← shouldBreakglassNilVote blockNumber;
       if (breakglass : bool) then ignore (ackBlockProposalTimeout parentHash)
       else
         let timeoutMs := if shouldSignFull blockNumber then FULL_BLOCK_TIMEOUT_MS else BLOCK_TIMEOUT_MS in
         exceeded ← HasExceededTimeThreshold (rd_initTime rd) (timeoutMs * rd_Round rd);
         if (exceeded : bool) then ignore (ackBlockProposalTimeout parentHash)
         else ignore (requestConsensusData parentHash));;
    notReady
  else if Z.eqb (rd_state rd) BLOCK_STATE_WAITING_FOR_PROPOSAL_ACKS then
    knowTxns parentHash r txns;;
    ignore (requestConsensusData parentHash);;
    (if Z.eqb (selfAckProposalVoteType rd) VOTE_TYPE_NIL then ignore (ackBlockProposalTimeout parentHash)
     else ignore (ackBlockProposal parentHash));;
    notReady
  else if Z.eqb (rd_state rd) BLOCK_STATE_WAITING_FOR_PRECOMMITS then
    shouldMove ← shouldMoveToNextRoundPrecommit parentHash;
    if (shouldMove : bool) then initializeNewBlockRound NEW_ROUND_REASON_WAIT_PRECOMMIT_TIMEOUT
    else
      ignore (requestConsensusData parentHash);;
      ignore (precommitBlock parentHash);;
      notReady
  else if Z.eqb (rd_state rd) BLOCK_STATE_WAITING_FOR_COMMITS then
    ignore (requestConsensusData parentHash);;
    ignore (commitBlock parentHash);;
    notReady
  else if Z.eqb (rd_state rd) BLOCK_STATE_RECEIVED_COMMITS then
    ignore (broadCast (selfCommitPacket rd))
  else notReady.

(** The start of the first call, until the startup delay. *)
Definition startConsensus (parentHash : Hash) (rndVal : Z) : C unit :=
  matched ← DoesPreviousHashMatch parentHash;
  fail_if (matched && Z.eqb rndVal 1) (ErrorsNew "Waiting for previous block to mine");;
  now ← time_Now;
  modify (fun s => s <| h_initTime := now |> <| initialized := true |>
    <| packetHashLastSentMap := Some ∅ |> <| TotalIncomingPacketCount := 0 |>);;
  fail (ErrorsNew "starting up").

Definition HandleConsensus (parentHash : Hash) (txns : list Hash) (blockNumber : Z) : C unit :=
  rnd ← ext (fun t => rand_Intn t 8);
  let rndVal := rnd + 1 in
  SetLatestBlockNumber blockNumber;;
  s ← get;
  if negb (initialized s) then startConsensus parentHash rndVal
  else
    (if Z.eqb (lastBlockNumber s) blockNumber then mret ()
     else
       now ← time_Now;
       modify (fun s => s <| lastBlockNumber := blockNumber |> <| lastBlockNumberChangeTime := now |>));;
    exceeded ← HasExceededTimeThreshold (h_initTime s) STARTUP_DELAY_MS;
    fail_if (negb exceeded && Z.eqb rndVal 1) (ErrorsNew "starting up");;
    initializeBlockStateIfRequired parentHash blockNumber;;
    cleanupBlockState;;
    b ← theBlock parentHash;
    fail_if (negb (isFiltered b (account s))) (ErrorsNew "not a validator in this block");;
    shouldPropose ← isBlockProposer parentHash (currentRound b) b;
    processOutOfOrderPackets parentHash;;
    stepRound parentHash txns blockNumber shouldPropose.

(** ** Reading *)

Definition isValidator (parentHash : Hash) : C bool :=
  s ← get;
  match blockStateDetailsMap s !! parentHash with
  | None => fail (ErrorsNew "block hash not found")
  | Some b => mret (isFiltered b (account s))
  end.

Definition getBlockRoundState (parentHash : Hash) (round : Z) : C (Z * Z * Z) :=
  s ← get;
  match blockStateDetailsMap s !! parentHash with
  | None => mret (BLOCK_STATE_UNKNOWN, 0, 0)
  | Some b =>
      if Z.ltb (currentRound b) round || Z.eqb round 0 then mret (BLOCK_STATE_UNKNOWN, 0, 0)
      else
        rd ← must "nil blockRoundDetails" (blockRoundMap b !! round);
        mret (rd_state rd, blockVoteType rd, mlen (validatorProposalAcks rd))
  end.

Definition getBlockRound (parentHash : Hash) (round : Z) : C (option BlockRoundDetails) :=
  s ← get;
  mret (b ← blockStateDetailsMap s !! parentHash; blockRoundMap b !! round).

Definition getBlockState (parentHash : Hash) : C (Z * Z) :=
  s ← get;
  match blockStateDetailsMap s !! parentHash with
  | None => mret (BLOCK_STATE_UNKNOWN, 0)
  | Some b =>
      rd ← must "nil blockRoundDetails" (blockRoundMap b !! currentRound b);
      mret (rd_state rd, currentRound b)
  end.

Definition getBlockSelectedTransactions (parentHash : Hash) : C (slice Hash) :=
  s ← get;
  match blockStateDetailsMap s !! parentHash with
  | None => fail (ErrorsNew "block doesn't exist")
  | Some b =>
      fail_if (Z.eqb (currentRound b) 0) (ErrorsNew "invalid block round");;
      rd ← must "nil blockRoundDetails" (blockRoundMap b !! currentRound b);
      fail_if (negb (Z.eqb (rd_state rd) BLOCK_STATE_RECEIVED_COMMITS)) (ErrorsNew "block state not done commit yet");;
      if Z.eqb (blockVoteType rd) VOTE_TYPE_NIL then mret None
      else mret (Some (data (proposalTxns rd)))
  end.

Definition getBlockVote (parentHash : Hash) : C Z :=
  s ← get;
  match blockStateDetailsMap s !! parentHash with
  | None => mret VOTE_TYPE_NIL
  | Some b =>
      rd ← must "nil blockRoundDetails" (blockRoundMap b !! currentRound b);
      mret (selfAckProposalVoteType rd)
  end.

(** The packets of one round for the block: proposal, acknowledgements,
    precommits, commits. *)
Definition roundPackets (rd : BlockRoundDetails) : C (list ConsensusPacket) :=
  acks ← range (proposalAckPackets rd);
  precommits ← range (precommitPackets rd);
  commits ← range (commitPackets rd);
  mret (map NewConsensusPacket
    (option_list (proposalPacket rd) ++ map snd acks ++ map snd precommits ++ map snd commits)).

Definition gatherRound (parentHash : Hash) (b : BlockStateDetails) (vote : Z)
    (acc : list ConsensusPacket * list Address) (r : Z) : C (list ConsensusPacket * list Address) :=
  let '(packets, slashed) := acc in
  rd ← must "nil blockRoundDetails" (blockRoundMap b !! r);
  pkts ← roundPackets rd;
  roundProposer ← getBlockProposer parentHash (filteredValidatorsDepositMap b) r (bs_validatorDetailsMap b)
                    (bs_blockNumber b) (bs_consensusContext b);
  fail_if (Z.eqb (len pkts) 0) (ErrorsNew "no consensus packets for round");;
  let slash := if Z.eqb vote VOTE_TYPE_NIL then Z.ltb r MAX_ROUND
               else negb (Z.eqb (currentRound b) 1) && Z.ltb r (currentRound b) in
  mret (packets ++ pkts, if slash then slashed ++ [roundProposer] else slashed).

(** The deposits and details of a block, as [ValidateBlockConsensusDataInner]
    sees and changes them. *)
Definition onValidators {A} (h : Hash) (b : BlockStateDetails) (m : M ValidatorMaps A) : C A :=
  zoom (fun s => match blockStateDetailsMap s !! h with
                 | Some b => mkValidatorMaps (filteredValidatorsDepositMap b) (bs_validatorDetailsMap b)
                 | None => mkValidatorMaps (filteredValidatorsDepositMap b) (bs_validatorDetailsMap b)
                 end)
       (fun v s => s <| blockStateDetailsMap ::= alter (fun b => b
                          <| filteredValidatorsDepositMap := vm_deposits v |>
                          <| bs_validatorDetailsMap := vm_details v |>) h |>) m.

Definition getBlockConsensusData (parentHash : Hash) : C (BlockConsensusData * BlockAdditionalConsensusData) :=
  s ← get;
  match blockStateDetailsMap s !! parentHash with
  | None => fail (ErrorsNew "block doesn't exist")
  | Some b =>
      fail_if (Z.eqb (currentRound b) 0) (ErrorsNew "invalid block round");;
      rd ← must "nil blockRoundDetails" (blockRoundMap b !! currentRound b);
      fail_if (negb (Z.eqb (rd_state rd) BLOCK_STATE_RECEIVED_COMMITS)) (ErrorsNew "block state not done commit yet");;
      let vote := blockVoteType rd in
      fail_if (negb (Z.eqb vote VOTE_TYPE_OK) && negb (Z.eqb vote VOTE_TYPE_NIL))
        (ErrorsNew "getBlockConsensusData invalid vote type e");;
      '(proposer, proposalHash, selected, blockTime) ←
        (if Z.eqb vote VOTE_TYPE_OK then
           proposal ← must "nil blockProposalDetails" (blockProposalDetails rd);
           mret (rd_proposer rd, rd_proposalHash rd, data (proposalTxns rd), pd_BlockTime proposal)
         else mret (ZERO_ADDRESS, getNilVoteProposalHash parentHash (currentRound b), [], 0));
      '(packets, slashed) ← byteFor byteFuel (fun r => Z.leb r (currentRound b)) (gatherRound parentHash b vote) ([], []) 1;
      let bcd := mkBlockConsensusData proposer vote proposalHash (rd_precommitHash rd) (Some slashed)
                   (currentRound b) (Some selected) blockTime in
      let badd := mkBlockAdditionalConsensusData (Some (map NewConsensusPacket packets)) (u64 (millis (bs_initTime b))) in
      onValidators parentHash b (ValidateBlockConsensusDataInner
        (if Z.eqb vote VOTE_TYPE_NIL then None else proposalTxns rd) parentHash bcd badd
        (bs_blockNumber b) (bs_consensusContext b));;
      mret (bcd, badd)
  end.

(** The packets sent to a node that asks for them; what it says it lacks is
    not looked at. *)
Definition packetsToSend (rd : BlockRoundDetails) : C (list ConsensusPacket) :=
  acks ← range (proposalAckPackets rd);
  precommits ← range (precommitPackets rd);
  commits ← range (commitPackets rd);
  let from st (l : list (Address * ConsensusPacket)) := if Z.leb st (rd_state rd) then map snd l else [] in
  mret ((if Z.leb BLOCK_STATE_WAITING_FOR_PROPOSAL_ACKS (rd_state rd) then option_list (proposalPacket rd) else [])
        ++ from BLOCK_STATE_WAITING_FOR_PROPOSAL_ACKS acks
        ++ from BLOCK_STATE_WAITING_FOR_PRECOMMITS precommits
        ++ from BLOCK_STATE_WAITING_FOR_COMMITS commits).

Definition HandleRequestConsensusDataPacket (packet : RequestConsensusDataPacket) : C (list ConsensusPacket) :=
  fail_if (Z.eqb (len (data (RequestData packet))) 0) (ErrorsNew "invalid request consensus data packet");;
  s ← get;
  ready ← (if initialized s then HasExceededTimeThreshold (h_initTime s) STARTUP_DELAY_MS else mret false);
  fail_if (negb ready) (ErrorsNew "received request for consensus packet, but consensus is not ready yet");;
  lift (rlp_DecodeBytes (A := RequestConsensusPacketDetails) (data (RequestData packet)));;
  match blockStateDetailsMap s !! Req_ParentHash packet with
  | None => fail UnknownParentHashErr
  | Some b =>
      byteFor byteFuel (fun r => Z.leb r (currentRound b))
        (fun packets r =>
           rd ← must "nil blockRoundDetails" (blockRoundMap b !! r);
           more ← packetsToSend rd;
           mret (packets ++ more)) [] 1
  end.

(** ** The rest of the interface *)

Definition h_OnPeerConnected (peer : PeerId) : C unit := onPeers (OnPeerConnected peer).

(** It reports the peer as connected. *)
Definition h_OnPeerDisconnected (peer : PeerId) : C unit := onPeers (OnPeerConnected peer).

Definition SetP2PHandler (localPeer : PeerId) : C unit :=
  modify (fun s => s <| h_p2pSet := true |>);;
  onPeers (p_SetP2PHandler localPeer).

(** The consensus handler's part of [Authorize] in proofofstake.go. *)
Definition Authorize (acct : Address) : C unit :=
  modify (fun s => s <| signFnSet := true |> <| account := acct |>);;
  onPeers (SetSignFn acct).

Definition ShouldRebroadCast (packet : ConsensusPacket) : outcome bool :=
  if emptyPacket packet then Ok false
  else match getPacketType packet with
       | Ok packetType => Ok (negb (Z.ltb packetType CONSENSUS_PACKET_TYPE_PROPOSE_BLOCK
                                    || Z.ltb CONSENSUS_PACKET_TYPE_COMMIT_BLOCK packetType))
       | Fail e => Fail e
       | Panic p => Panic p
       end.
End handler.
