(* ===== verification/ConsensusInv.v ===== *)
(** The invariant of the consensus handler.  Every vote that a node counts in a
    round was signed by a validator of the block and is about that round and the
    hash the node decided on; a round passes to the commits, and is decided, only
    with votes of the required deposit; a round never goes back and never changes
    the hash it voted for.

    Properties of the definitions of Consensus.v. *)

From S2P Require Import Prelude Common Selection Rlp RlpEnc RlpDec Packets Context BlockValidator Certificate Peer Consensus.
From Stdlib Require Import Strings.Byte.

Section invariant.
Context `{FloatConv} `{NodeConfig} `{Crypto} `{DRNG} `{GoRuntime} `{SignatureAlgorithm}.
Context `{Signer} `{P2PHandler} `{Chain} `{NodeFiles}.

Abbreviation C := (M ConsensusHandler).

(** The block that the handler is at: no handler of packets and no step of a
    round changes it. *)
Variable c : Hash.

(** * Operations that leave the blocks alone *)

(** The part of the state that the invariant is about. *)
Definition frame (B : gmap Hash BlockStateDetails) (a : Address) (s : ConsensusHandler) : Prop :=
  blockStateDetailsMap s = B /\ account s = a /\ currentParentHash s = c.

Definition keeps {A} (m : C A) : Prop := forall B a, preserves (frame B a) m.

Lemma wp_keeps {A} (m : C A) Q w :
  currentParentHash (w_st w) = c -> keeps m ->
  (forall o w', frame (blockStateDetailsMap (w_st w)) (account (w_st w)) (w_st w') -> Q o w') -> wp m Q w.
Proof. intros Hc Hm HQ. eapply wp_mono; [by apply Hm|]. auto. Qed.

Lemma preserves_onPeers {A} B a (m : M PeerHandler A) : preserves (frame B a) (onPeers m).
Proof.
  intros w (HB & Ha & Hc). unfold onPeers. apply wp_zoom. unfold wp. destruct (m _) as [o w']. by split.
Qed.

Ltac frame_modify := intros ? (? & ? & ?); split_and!; handler_simpl; done.
Ltac keeps_steps := preserves_steps; try frame_modify.

#[local] Hint Resolve preserves_onPeers : preserves.
#[local] Hint Extern 1 (preserves (frame _ _) (modify _)) => (apply preserves_modify; frame_modify) : preserves.

Lemma keeps_Elapsed B a t : preserves (frame B a) (Elapsed t).
Proof. unfold Elapsed. keeps_steps. Qed.
Lemma keeps_Exceeded B a t d : preserves (frame B a) (HasExceededTimeThreshold t d).
Proof. unfold HasExceededTimeThreshold. keeps_steps. Qed.
Lemma keeps_GetProposalTime B a n : preserves (frame B a) (GetProposalTime n).
Proof. unfold GetProposalTime, time_Unix. keeps_steps. Qed.
Lemma keeps_ValidateTime B a n t : preserves (frame B a) (ValidateBlockProposalTimeConsensus n t).
Proof. unfold ValidateBlockProposalTimeConsensus, time_Unix. keeps_steps. Qed.
Lemma keeps_theBlock B a h : preserves (frame B a) (theBlock h).
Proof. unfold theBlock. keeps_steps. Qed.
#[local] Hint Resolve keeps_Elapsed keeps_Exceeded keeps_GetProposalTime keeps_ValidateTime keeps_theBlock : preserves.
Lemma keeps_theRound B a h : preserves (frame B a) (theRound h).
Proof. unfold theRound. keeps_steps. Qed.
Lemma keeps_h_spawn B a t : preserves (frame B a) (h_spawn t).
Proof. unfold h_spawn. keeps_steps. Qed.
Lemma keeps_createConsensusPacket B a h d f : preserves (frame B a) (createConsensusPacket h d f).
Proof. unfold createConsensusPacket. keeps_steps. Qed.
Lemma keeps_setLastSent B a h t : preserves (frame B a) (setLastSent h t).
Proof. unfold setLastSent. keeps_steps. Qed.
Lemma keeps_cleanupBroadcast B a : preserves (frame B a) cleanupBroadcast.
Proof. unfold cleanupBroadcast. keeps_steps. Qed.
#[local] Hint Resolve keeps_theRound keeps_h_spawn keeps_createConsensusPacket keeps_setLastSent keeps_cleanupBroadcast : preserves.
Lemma keeps_claimSend B a h t : preserves (frame B a) (claimSend h t).
Proof. unfold claimSend. keeps_steps. Qed.
#[local] Hint Resolve keeps_claimSend : preserves.
Lemma keeps_broadCast B a p : preserves (frame B a) (broadCast p).
Proof. unfold broadCast. keeps_steps. Qed.
Lemma keeps_missing {T} B a b (m : gmap Address T) : preserves (frame B a) (missing b m).
Proof. unfold missing. keeps_steps. Qed.
#[local] Hint Resolve keeps_broadCast keeps_missing : preserves.
Lemma keeps_getRequest B a b : preserves (frame B a) (getRequestConsensusDataPacket b).
Proof. unfold getRequestConsensusDataPacket. keeps_steps. Qed.
#[local] Hint Resolve keeps_getRequest : preserves.
Lemma keeps_requestConsensusData B a h : preserves (frame B a) (requestConsensusData h).
Proof. unfold requestConsensusData. keeps_steps. Qed.
Lemma keeps_isBlockProposer B a h r b : preserves (frame B a) (isBlockProposer h r b).
Proof. unfold isBlockProposer. keeps_steps. Qed.
Lemma keeps_SaveHash B a h : preserves (frame B a) (SaveHash h).
Proof. unfold SaveHash. keeps_steps. Qed.
Lemma keeps_DoesPreviousHashMatch B a h : preserves (frame B a) (DoesPreviousHashMatch h).
Proof. unfold DoesPreviousHashMatch. keeps_steps. Qed.
Lemma keeps_requestTransactions B a l : preserves (frame B a) (requestTransactions l).
Proof. unfold requestTransactions. keeps_steps. Qed.
Lemma keeps_votedDeposits {T} B a b (m : gmap Address T) : preserves (frame B a) (votedDeposits b m).
Proof. unfold votedDeposits. keeps_steps. Qed.
Lemma keeps_countStat B a k : preserves (frame B a) (countStat k).
Proof. unfold countStat. keeps_steps. Qed.
Lemma keeps_bufferPacket B a p : preserves (frame B a) (bufferPacket p).
Proof. unfold bufferPacket. keeps_steps. Qed.
Lemma keeps_LogIncomingPacketStats B a : preserves (frame B a) LogIncomingPacketStats.
Proof. unfold LogIncomingPacketStats. keeps_steps. Qed.
#[local] Hint Resolve keeps_requestConsensusData keeps_isBlockProposer keeps_SaveHash keeps_DoesPreviousHashMatch
  keeps_requestTransactions keeps_votedDeposits keeps_countStat keeps_bufferPacket keeps_LogIncomingPacketStats : preserves.
Lemma keeps_parsePacket B a p : preserves (frame B a) (parsePacket p).
Proof. unfold parsePacket. keeps_steps. Qed.
#[local] Hint Resolve keeps_parsePacket : preserves.
Lemma keeps_laterRound B a b h cr acc p : preserves (frame B a) (laterRound b h cr acc p).
Proof. unfold laterRound. keeps_steps. Qed.
#[local] Hint Resolve keeps_laterRound : preserves.
Lemma keeps_validatorsInLaterRounds B a b h cr : preserves (frame B a) (validatorsInLaterRounds b h cr).
Proof. unfold validatorsInLaterRounds. keeps_steps. Qed.
#[local] Hint Resolve keeps_validatorsInLaterRounds : preserves.
Lemma keeps_shouldMoveAcks B a h : preserves (frame B a) (shouldMoveToNextRoundProposalAcks h).
Proof. unfold shouldMoveToNextRoundProposalAcks. keeps_steps. Qed.
Lemma keeps_shouldMovePrecommit B a h : preserves (frame B a) (shouldMoveToNextRoundPrecommit h).
Proof. unfold shouldMoveToNextRoundPrecommit. keeps_steps. Qed.
Lemma keeps_newPacket {T} `{RlpStruct T} B a h ty (d : T) f : preserves (frame B a) (newPacket h ty d f).
Proof. unfold newPacket, GetLatestBlockNumber. keeps_steps. Qed.
Lemma keeps_countAcks B a b rd : preserves (frame B a) (countAcks b rd).
Proof. unfold countAcks. keeps_steps. Qed.
Lemma keeps_broadcastPrevious B a h : preserves (frame B a) (broadcastPreviousRoundPackets h).
Proof. unfold broadcastPreviousRoundPackets. keeps_steps. Qed.
#[local] Hint Resolve keeps_shouldMoveAcks keeps_shouldMovePrecommit keeps_newPacket keeps_countAcks keeps_broadcastPrevious : preserves.
Lemma keeps_afterAcks B a h : preserves (frame B a) (afterAcks h).
Proof. unfold afterAcks. keeps_steps. Qed.
Lemma keeps_startConsensus B a h r : preserves (frame B a) (startConsensus h r).
Proof. unfold startConsensus. keeps_steps. Qed.
Lemma keeps_breakglass B a n : preserves (frame B a) (shouldBreakglassNilVote n).
Proof. unfold shouldBreakglassNilVote. keeps_steps. Qed.
Lemma keeps_packetSigner B a p ty : preserves (frame B a) (packetSigner p ty).
Proof. unfold packetSigner. cbn zeta. keeps_steps. Qed.
Lemma keeps_packetsToSend B a rd : preserves (frame B a) (packetsToSend rd).
Proof. unfold packetsToSend. cbn zeta. keeps_steps. Qed.
#[local] Hint Resolve keeps_afterAcks keeps_startConsensus keeps_breakglass keeps_packetSigner keeps_packetsToSend : preserves.
Lemma keeps_HandleRequest B a p : preserves (frame B a) (HandleRequestConsensusDataPacket p).
Proof. unfold HandleRequestConsensusDataPacket. keeps_steps. Qed.
Lemma keeps_gatherRound B a h b v acc r : preserves (frame B a) (gatherRound h b v acc r).
Proof. unfold gatherRound, roundPackets. keeps_steps. Qed.
#[local] Hint Resolve keeps_HandleRequest keeps_gatherRound : preserves.

(** * The invariant *)

(** The node made the packet itself, with the key of its account. *)
Definition ownPacket (me : Address) (p : ConsensusPacket) : Prop :=
  exists t, signFn t me (arr_bytes (ParentHash p) ++ data (ConsensusData p)) = inl (data (Signature p)).

(** Who stands behind a packet: its signer, or the node itself. *)
Definition vouched (me v : Address) (p : ConsensusPacket) : Prop := signedBy p v \/ v = me /\ ownPacket me p.

Definition votePacket {A} `{RlpStruct A} (me : Address) (h : Hash) (ty : Z) (a : A) (v : Address) (p : ConsensusPacket) : Prop :=
  packetSays h ty a p /\ vouched me v p.

(** The proposal of the round is complete: its hash is that of its transactions. *)
Definition proposal_ok (h : Hash) (n r : Z) (rd : BlockRoundDetails) : Prop :=
  exists d, blockProposalDetails rd = Some d /\ pd_Round d = r /\ proposalTxns rd = Some (Txns d)
    /\ rd_proposalHash rd = votedHash h r VOTE_TYPE_OK (Txns d) n (pd_BlockTime d).

(** The hash that the node precommits to follows from its vote. *)
Definition vote_ok (h : Hash) (n r : Z) (rd : BlockRoundDetails) : Prop :=
  blockVoteType rd = VOTE_TYPE_OK /\ proposal_ok h n r rd
    /\ rd_precommitHash rd = getOkVotePreCommitHash h (rd_proposalHash rd) r
  \/ blockVoteType rd = VOTE_TYPE_NIL /\ rd_precommitHash rd = getNilVotePreCommitHash h r.

(** Every vote counted was cast by a validator of the block, in a packet that is
    kept with it. *)
Definition counted {A} `{RlpStruct A} (me : Address) (h : Hash) (deps : gmap Address Z) (ty : Z)
    (packets : gmap Address ConsensusPacket) (ok : A -> Prop) (votes : gmap Address A) : Prop :=
  map_Forall (fun v a => (v ∈ dom deps /\ ok a) /\ exists p, packets !! v = Some p /\ votePacket me h ty a v p) votes.

Record round_ok (me : Address) (h : Hash) (deps : gmap Address Z) (required n r : Z) (rd : BlockRoundDetails) : Prop := {
  ro_round : rd_Round rd = r;
  ro_state : BLOCK_STATE_WAITING_FOR_PROPOSAL <= rd_state rd <= BLOCK_STATE_RECEIVED_COMMITS;
  ro_acks : counted me h deps CONSENSUS_PACKET_TYPE_ACK_BLOCK_PROPOSAL (proposalAckPackets rd)
    (fun a => pad_Round a = r /\ (ProposalAckVoteType a = VOTE_TYPE_OK \/ ProposalAckVoteType a = VOTE_TYPE_NIL))
    (validatorProposalAcks rd);
  ro_precommits : counted me h deps CONSENSUS_PACKET_TYPE_PRECOMMIT_BLOCK (precommitPackets rd)
    (fun d => BLOCK_STATE_WAITING_FOR_PRECOMMITS <= rd_state rd /\ d = mkPreCommitDetails (rd_precommitHash rd) r)
    (validatorPrecommits rd);
  ro_commits : counted me h deps CONSENSUS_PACKET_TYPE_COMMIT_BLOCK (commitPackets rd)
    (fun d => BLOCK_STATE_WAITING_FOR_COMMITS <= rd_state rd /\ d = mkCommitDetails (getCommitHash (rd_precommitHash rd)) r)
    (validatorCommits rd);
  ro_proposal : rd_state rd = BLOCK_STATE_WAITING_FOR_PROPOSAL_ACKS -> proposal_ok h n r rd;
  ro_vote : BLOCK_STATE_WAITING_FOR_PRECOMMITS <= rd_state rd -> vote_ok h n r rd;
  ro_precommit_quorum : BLOCK_STATE_WAITING_FOR_COMMITS <= rd_state rd -> required <= weight deps (dom (validatorPrecommits rd));
  ro_commit_quorum : BLOCK_STATE_RECEIVED_COMMITS <= rd_state rd -> required <= weight deps (dom (validatorCommits rd));
  ro_prompt_precommit : selfPrecommited rd = true -> rd_state rd <= BLOCK_STATE_WAITING_FOR_PRECOMMITS -> 0 < required ->
    weight deps (dom (validatorPrecommits rd)) < required;
  ro_prompt_commit : selfCommited rd = true -> rd_state rd <= BLOCK_STATE_WAITING_FOR_COMMITS -> 0 < required ->
    weight deps (dom (validatorCommits rd)) < required;
  ro_self_precommit : forall p, selfPrecommitPacket rd = Some p ->
    ParentHash p = h /\ getPacketType p = Ok CONSENSUS_PACKET_TYPE_PRECOMMIT_BLOCK /\ ownPacket me p;
  ro_self_commit : forall p, selfCommitPacket rd = Some p ->
    ParentHash p = h /\ getPacketType p = Ok CONSENSUS_PACKET_TYPE_COMMIT_BLOCK /\ ownPacket me p;
}.

(** The validators of a block are those that [filterValidators] selected from the
    validators of its parent; there are none until the block is initialised. *)
Definition deposits_ok (h : Hash) (b : BlockStateDetails) : Prop :=
  filteredValidatorsDepositMap b = ∅ \/
  exists t vd f (wf : World ConsensusHandler), getValidatorsFn t h = inl vd
    /\ out (filterValidators h vd (bs_blockNumber b)) wf = Ok f
    /\ filteredValidatorsDepositMap b = selectedDeposits f
    /\ blockMinWeightedProposalsRequired b = fr_minRequired f
    /\ bs_totalBlockDepositValue b = fr_depositValue f.

Record block_ok (me : Address) (h : Hash) (b : BlockStateDetails) : Prop := {
  bo_parent : bs_parentHash b = h;
  bo_current : is_u8 (currentRound b);
  bo_deposits : deposits_ok h b;
  bo_rounds : map_Forall (round_ok me h (filteredValidatorsDepositMap b) (blockMinWeightedProposalsRequired b) (bs_blockNumber b))
    (blockRoundMap b);
}.

Definition Inv (me : Address) (s : ConsensusHandler) : Prop :=
  account s = me /\ map_Forall (block_ok me) (blockStateDetailsMap s).

(** * How rounds evolve *)

(** A round only goes forward; from the precommits on its vote and its hash are
    fixed; the node's own acknowledgement is given once. *)
Record round_le (rd rd' : BlockRoundDetails) : Prop := {
  rl_state : rd_state rd <= rd_state rd';
  rl_vote : BLOCK_STATE_WAITING_FOR_PRECOMMITS <= rd_state rd ->
    rd_precommitHash rd' = rd_precommitHash rd /\ blockVoteType rd' = blockVoteType rd;
  rl_ack : selfAckd rd = true -> selfAckd rd' = true /\ selfAckPacket rd' = selfAckPacket rd;
}.

Definition block_le (b b' : BlockStateDetails) : Prop :=
  filteredValidatorsDepositMap b' = filteredValidatorsDepositMap b
  /\ blockMinWeightedProposalsRequired b' = blockMinWeightedProposalsRequired b
  /\ bs_blockNumber b' = bs_blockNumber b
  /\ currentRound b' = currentRound b
  /\ forall r, option_Forall2 round_le (blockRoundMap b !! r) (blockRoundMap b' !! r).

(** Blocks may go, those that stay evolve, none is added. *)
Definition blocks_le (B B' : gmap Hash BlockStateDetails) : Prop :=
  forall h b', B' !! h = Some b' -> exists b, B !! h = Some b /\ block_le b b'.

#[global] Instance round_le_preorder : PreOrder round_le.
Proof.
  split.
  - intros rd. split; auto. lia.
  - intros rd1 rd2 rd3 [L1 V1 A1] [L2 V2 A2]. split; [lia| |].
    + intros Hs. destruct (V1 Hs) as [<- <-]. by apply V2; lia.
    + intros Ha. destruct (A1 Ha) as [Ha' <-]. by apply A2.
Qed.

#[global] Instance block_le_preorder : PreOrder block_le.
Proof.
  split.
  - intros b. by split_and!.
  - intros b1 b2 b3 (E1 & E2 & E3 & E4 & R1) (F1 & F2 & F3 & F4 & R2). split_and!; try congruence.
    intros r. specialize (R1 r). specialize (R2 r). destruct R1 as [x y Hxy|]; inversion R2; subst; constructor.
    by etrans.
Qed.

#[global] Instance blocks_le_preorder : PreOrder blocks_le.
Proof.
  split.
  - intros B h b Hb. exists b. by split.
  - intros B1 B2 B3 H12 H23 h b3 Hb3. destruct (H23 h b3 Hb3) as (b2 & Hb2 & L2).
    destruct (H12 h b2 Hb2) as (b1 & Hb1 & L1). exists b1. split; [done|]. by etrans.
Qed.

(** The invariant with the history since [B0]. *)
Definition Good (me : Address) (B0 : gmap Hash BlockStateDetails) (s : ConsensusHandler) : Prop :=
  Inv me s /\ blocks_le B0 (blockStateDetailsMap s) /\ currentParentHash s = c.

Lemma keeps_Good {A} me B0 (m : C A) : keeps m -> preserves (Good me B0) m.
Proof.
  intros Hm w ([Ha HB] & Hle & Hc). eapply wp_mono; [by apply Hm|].
  intros o w' (HB' & Ha' & Hc'). unfold Good, Inv. by rewrite HB', Ha'.
Qed.

(** * Working on one round

    While a handler works on the round [r] of the block [h], the blocks are those
    it started with, but for this round. *)
Definition focus (me : Address) (B : gmap Hash BlockStateDetails) (h : Hash) (b : BlockStateDetails) (r : Z)
    (rd : BlockRoundDetails) (s : ConsensusHandler) : Prop :=
  blockStateDetailsMap s = <[h := b <| blockRoundMap ::= <[r := rd]> |>]> B /\ account s = me /\ currentParentHash s = c.

(** The fields of a block that handlers do not change. *)
Definition same_static (b b' : BlockStateDetails) : Prop :=
  filteredValidatorsDepositMap b' = filteredValidatorsDepositMap b
  /\ blockMinWeightedProposalsRequired b' = blockMinWeightedProposalsRequired b
  /\ bs_totalBlockDepositValue b' = bs_totalBlockDepositValue b
  /\ bs_blockNumber b' = bs_blockNumber b /\ bs_parentHash b' = bs_parentHash b
  /\ currentRound b' = currentRound b /\ blockRoundMap b' = blockRoundMap b.

Lemma upd_rounds_id b f : f (blockRoundMap b) = blockRoundMap b -> b <| blockRoundMap ::= f |> = b.
Proof. intros Hf. unfold upd, set_blockRoundMap. cbn beta. rewrite Hf. by destruct b. Qed.

Lemma focus_init h b r rd s :
  blockStateDetailsMap s !! h = Some b -> blockRoundMap b !! r = Some rd -> currentParentHash s = c ->
  focus (account s) (blockStateDetailsMap s) h b r rd s.
Proof.
  intros Hb Hr Hc. split; [|done]. rewrite upd_rounds_id by (by apply insert_id). by rewrite insert_id.
Qed.

Lemma wp_modRound_focus me B h b r rd f Q w :
  focus me B h b r rd (w_st w) -> (forall w', focus me B h b r (f rd) (w_st w') -> Q (Ok ()) w') ->
  wp (modRound h r f) Q w.
Proof.
  intros [HB Ha] HQ. unfold modRound, modBlock. apply wp_modify, HQ. split; [|done]. handler_simpl.
  rewrite HB, alter_insert_eq. f_equal. unfold upd, set_blockRoundMap. cbn beta. block_simpl. by rewrite alter_insert_eq.
Qed.

Lemma wp_modBlock_focus me B h b r rd g Q w :
  (forall F, g (b <| blockRoundMap ::= F |>) = (g b) <| blockRoundMap ::= F |>) ->
  focus me B h b r rd (w_st w) -> (forall w', focus me B h (g b) r rd (w_st w') -> Q (Ok ()) w') ->
  wp (modBlock h g) Q w.
Proof.
  intros Hg [HB Ha] HQ. unfold modBlock. apply wp_modify, HQ. split; [|done]. handler_simpl.
  by rewrite HB, alter_insert_eq, Hg.
Qed.

Lemma wp_keeps_focus {A} me B h b r rd (m : C A) Q w :
  focus me B h b r rd (w_st w) -> keeps m -> (forall o w', focus me B h b r rd (w_st w') -> Q o w') -> wp m Q w.
Proof.
  intros (HB & Ha & Hc) Hm HQ. eapply wp_mono; [by apply Hm|]. intros o w' (HB' & Ha' & Hc'). apply HQ.
  unfold focus. by rewrite HB', Ha'.
Qed.

Lemma wp_Elapsed_focus me B h b r rd t Q w :
  focus me B h b r rd (w_st w) -> (forall e w', focus me B h b r rd (w_st w') -> Q (Ok e) w') -> wp (Elapsed t) Q w.
Proof. intros Hf HQ. unfold Elapsed. wp_step. wp_step. by apply HQ. Qed.

Lemma wp_time_Now_focus me B h b r rd Q w :
  focus me B h b r rd (w_st w) -> (forall e w', focus me B h b r rd (w_st w') -> Q (Ok e) w') -> wp time_Now Q w.
Proof. intros Hf HQ. wp_step. by apply HQ. Qed.

Lemma wp_modify_focus me B h b r rd f Q w :
  focus me B h b r rd (w_st w) ->
  (forall s, blockStateDetailsMap (f s) = blockStateDetailsMap s /\ account (f s) = account s
    /\ currentParentHash (f s) = currentParentHash s) ->
  (forall w', focus me B h b r rd (w_st w') -> Q (Ok ()) w') -> wp (modify f) Q w.
Proof.
  intros (HB & Ha & Hc) Hf HQ. apply wp_modify, HQ. destruct (Hf (w_st w)) as (HB' & Ha' & Hc'). unfold focus. handler_simpl.
  by rewrite HB', Ha', Hc'.
Qed.

(** The handler is done with the round: the invariant again. *)
Lemma focus_Good me B0 B h b0 r rd0 b rd s :
  map_Forall (block_ok me) B -> blocks_le B0 B -> B !! h = Some b0 -> blockRoundMap b0 !! r = Some rd0 ->
  focus me B h b r rd s -> same_static b0 b ->
  round_ok me h (filteredValidatorsDepositMap b0) (blockMinWeightedProposalsRequired b0) (bs_blockNumber b0) r rd ->
  round_le rd0 rd -> Good me B0 s.
Proof.
  intros HB Hle Hb0 Hrd0 (HBs & Ha & Hc) (E1 & E2 & E3 & E4 & E5 & E6 & E7) Hok Hrle. pose proof (HB _ _ Hb0) as [P1 P2 P3 P4].
  split; [split; [done|]|split; [|done]]; rewrite HBs.
  - apply map_Forall_insert_2; [|done]. split; block_simpl; [congruence|congruence| |].
    + unfold deposits_ok in *. block_simpl. rewrite E1, E2, E3, E4. exact P3.
    + rewrite E1, E2, E4, E7. by apply map_Forall_insert_2.
  - transitivity B; [done|]. intros h' b' Hb'. destruct (decide (h' = h)) as [->|].
    + rewrite lookup_insert_eq in Hb'. injection Hb' as <-. exists b0. split; [done|].
      unfold block_le. block_simpl. split_and!; try done. intros r'. rewrite E7. destruct (decide (r' = r)) as [->|].
      * rewrite lookup_insert_eq, Hrd0. by constructor.
      * rewrite lookup_insert_ne by done. reflexivity.
    + rewrite lookup_insert_ne in Hb' by done. by exists b'.
Qed.

(** * Counting votes *)

Section counted.
Context {A : Type} `{RlpStruct A} (me : Address) (h : Hash) (deps : gmap Address Z) (ty : Z).

Lemma counted_insert packets ok (votes : gmap Address A) v a p :
  counted me h deps ty packets ok votes -> v ∈ dom deps -> ok a ->
  ParentHash p = h -> getPacketType p = Ok ty -> decodePayload p = Ok a -> vouched me v p ->
  counted me h deps ty (<[v := NewConsensusPacket p]> packets) ok (<[v := a]> votes).
Proof.
  intros Hc Hv Ha Hh Hty Hd Hvo v' a' Hl. destruct (decide (v' = v)) as [->|Hne].
  - rewrite lookup_insert_eq in Hl. injection Hl as <-. split; [done|]. exists (NewConsensusPacket p).
    rewrite lookup_insert_eq. split; [done|]. split; [by apply packetSays_copy|].
    destruct Hvo as [Hs|[-> (t & Ht)]]; [left; by apply signedBy_copy|right; split; [done|]]. exists t.
    destruct (NewConsensusPacket_data p) as (-> & -> & ->). done.
  - rewrite lookup_insert_ne in Hl by done. rewrite lookup_insert_ne by done. by apply Hc.
Qed.

Lemma counted_mono packets (ok ok' : A -> Prop) (votes : gmap Address A) :
  counted me h deps ty packets ok votes -> (forall a, ok a -> ok' a) -> counted me h deps ty packets ok' votes.
Proof. intros Hc Hok v a Ha. destruct (Hc v a Ha) as [[Hv Ho] Hp]. naive_solver. Qed.

Lemma counted_dom packets ok (votes : gmap Address A) : counted me h deps ty packets ok votes -> dom votes ⊆ dom deps.
Proof. intros Hc v [a Ha]%elem_of_dom. by destruct (Hc v a Ha) as [[? _] _]. Qed.

(** No vote satisfies the condition: there is none. *)
Lemma counted_empty packets ok (votes : gmap Address A) :
  counted me h deps ty packets ok votes -> (forall a, ~ ok a) -> votes = ∅.
Proof. intros Hc Hno. apply map_empty. intros v. apply eq_None_not_Some. intros [a Ha]. destruct (Hc v a Ha) as [[_ Ho] _]. by apply (Hno a). Qed.
End counted.

Lemma weight_none {A} deps (votes : gmap Address A) : votes = ∅ -> weight deps (dom votes) = 0.
Proof. intros ->. rewrite dom_empty_L. apply sum_over_empty. Qed.

(** The deposits of the voters, in whatever order they are visited. *)
Lemma votedDeposits_wp {A} b (votes : gmap Address A) (w : World ConsensusHandler) :
  dom votes ⊆ dom (filteredValidatorsDepositMap b) ->
  wp (votedDeposits b votes) (fun o w' => w_st w' = w_st w /\ o = Ok (weight (filteredValidatorsDepositMap b) (dom votes))) w.
Proof.
  intros Hsub. unfold votedDeposits. wp_step.
  apply (wp_foldM _ (fun dn acc w' => w_st w' = w_st w /\ acc = zsum (map (dep (filteredValidatorsDepositMap b)) (map fst dn)))); [done| |].
  - intros dn [v a] rest acc w' -> [Hst ->].
    assert (Hv : v ∈ dom (filteredValidatorsDepositMap b)).
    { apply Hsub, elem_of_dom. exists a. apply elem_of_map_to_list. rewrite <- H9. set_solver. }
    apply elem_of_dom in Hv as [d Hd]. rewrite Hd. wp_norm. apply wp_must. wp_step. split; [done|].
    rewrite !map_app, zsum_app. unfold SafeAddBigInt, dep. simpl. rewrite Hd. autorewrite with zsum. simpl. lia.
  - intros acc w' [Hst ->]. split; [done|]. f_equal. by apply zsum_keys_weight.
Qed.

(** * The handlers of packets *)

Lemma wp_packetBlock p (Q : outcome BlockStateDetails -> World ConsensusHandler -> Prop) w :
  (forall b, blockStateDetailsMap (w_st w) !! ParentHash p = Some b -> Q (Ok b) w) ->
  (forall e, Q (Fail e) w) -> wp (packetBlock p) Q w.
Proof.
  intros Hok Hfail. unfold packetBlock. wp_step. destruct (_ !! _) as [b|]; [|wp_step; auto].
  wp_step; [auto|]. wp_step. auto.
Qed.

Lemma wp_packetRound b (Q : outcome BlockRoundDetails -> World ConsensusHandler -> Prop) w :
  (forall rd, blockRoundMap b !! currentRound b = Some rd -> Q (Ok rd) w) ->
  (forall e, Q (Fail e) w) -> wp (packetRound b) Q w.
Proof. intros Hok Hfail. unfold packetRound. destruct (_ !! _) as [rd|]; wp_step; auto. Qed.

Lemma isFiltered_dom b v : negb (isFiltered b v) = false -> v ∈ dom (filteredValidatorsDepositMap b).
Proof. unfold isFiltered. intros Hf%negb_false_iff%bool_decide_eq_true. by apply elem_of_dom. Qed.

(** The invariant of the round that a handler found. *)
Lemma Good_round me B0 s h b r rd :
  Good me B0 s -> blockStateDetailsMap s !! h = Some b -> blockRoundMap b !! r = Some rd ->
  round_ok me h (filteredValidatorsDepositMap b) (blockMinWeightedProposalsRequired b) (bs_blockNumber b) r rd
  /\ focus me (blockStateDetailsMap s) h b r rd s.
Proof.
  intros ([Ha HB] & _ & Hc) Hb Hrd. split; [by apply (bo_rounds _ _ _ (HB _ _ Hb))|].
  rewrite <- Ha. by apply focus_init.
Qed.

Lemma Good_finish me B0 s h b r rd b' rd' s' :
  Good me B0 s -> blockStateDetailsMap s !! h = Some b -> blockRoundMap b !! r = Some rd ->
  focus me (blockStateDetailsMap s) h b' r rd' s' -> same_static b b' ->
  round_ok me h (filteredValidatorsDepositMap b) (blockMinWeightedProposalsRequired b) (bs_blockNumber b) r rd' ->
  round_le rd rd' -> Good me B0 s'.
Proof. intros ([_ HB] & Hle & _) Hb Hrd. by apply focus_Good. Qed.

(** Run the next statement of a handler that works on a round. *)
Ltac focus_step :=
  wp_norm;
  lazymatch goal with
  | |- wp (modRound _ _ _) _ _ => eapply wp_modRound_focus; [eassumption|intros ? ?]
  | |- wp (modBlock _ _) _ _ => eapply wp_modBlock_focus; [intros ?; reflexivity|eassumption|intros ? ?]
  | |- wp (modify _) _ _ => eapply wp_modify_focus; [eassumption|intros ?; handler_simpl; done|intros ? ?]
  | |- wp get _ _ => apply wp_get
  | |- wp (gets _) _ _ => apply wp_gets
  | |- wp (Elapsed _) _ _ => eapply wp_Elapsed_focus; [eassumption|intros ? ? ?]
  | |- wp time_Now _ _ => eapply wp_time_Now_focus; [eassumption|intros ? ? ?]
  | |- wp (when ?b _) _ _ => apply wp_when; intros ?
  | |- wp (mret _) _ _ => apply wp_ret
  | |- wp (fail _) _ _ => apply wp_fail
  | |- wp (fail_if _ _) _ _ => apply wp_fail_if; intros ?
  | |- wp (if ?b then _ else _) _ _ => destruct b eqn:?
  | |- wp _ _ _ => eapply wp_keeps_focus; [eassumption|intros ? ?; solve [auto with preserves]|intros [?|?|?] ? ?]
  end; wp_norm.

(** [round_ok] and [round_le] after an update, from the round before. *)
Ltac round_same Hok :=
  destruct Hok; split; unfold vote_ok, proposal_ok in *; round_simpl; try assumption.
Ltac round_up := split; round_simpl; try lia; auto.
Ltac state_lia :=
  unfold BLOCK_STATE_WAITING_FOR_PROPOSAL, BLOCK_STATE_WAITING_FOR_PROPOSAL_ACKS, BLOCK_STATE_WAITING_FOR_PRECOMMITS,
    BLOCK_STATE_WAITING_FOR_COMMITS, BLOCK_STATE_RECEIVED_COMMITS in *; lia.
Ltac finish HG Hb Hrd Hok :=
  eapply (Good_finish _ _ _ _ _ _ _ _ _ _ HG Hb Hrd); [eassumption|by split_and!|try exact Hok|try reflexivity].

Lemma handleAck_wp me B0 v p w :
  Good me B0 (w_st w) -> getPacketType p = Ok CONSENSUS_PACKET_TYPE_ACK_BLOCK_PROPOSAL -> vouched me v p ->
  wp (handleAckBlockProposalPacket v p) (fun _ w' => Good me B0 (w_st w')) w.
Proof.
  intros HG Hty Hv. unfold handleAckBlockProposalPacket. wp_norm. apply wp_packetBlock; [|done]. intros b Hb. wp_norm.
  wp_step; [done|]. match goal with Hf : negb (isFiltered _ _) = false |- _ => apply isFiltered_dom in Hf as Hdep end.
  wp_norm. apply wp_packetRound; [|done]. intros rd Hrd. destruct (Good_round _ _ _ _ _ _ _ HG Hb Hrd) as [Hok Hf].
  wp_step. destruct (decodePayload p) as [a|e|e] eqn:Ha; [|done..]. wp_norm.
  destruct (negb (Z.eqb (pad_Round a) (currentRound b))) eqn:Hr.
  { focus_step; [focus_step|]; focus_step; [finish HG Hb Hrd Hok|done]. }
  focus_step. cbn zeta. focus_step; [done|]. focus_step; [done|].
  focus_step; [by focus_step|]. focus_step; [|by focus_step].
  eapply wp_modRound_focus; [eassumption|]. intros w' Hf'. finish HG Hb Hrd Hok; [|round_up].
  round_same Hok. apply counted_insert; try done. b2p; unfold VOTE_TYPE_OK, VOTE_TYPE_NIL in *; auto with lia.
Qed.

(** Counting the votes with one more vote, while working on a round. *)
Lemma wp_votedDeposits_focus {A} me B h b0 r rd b (votes : gmap Address A) v a Q w :
  focus me B h b r rd (w_st w) ->
  dom votes ⊆ dom (filteredValidatorsDepositMap b0) -> v ∈ dom (filteredValidatorsDepositMap b0) ->
  (forall w', focus me B h b r rd (w_st w') -> Q (Ok (weight (filteredValidatorsDepositMap b0) (dom (<[v := a]> votes)))) w') ->
  wp (votedDeposits b0 (<[v := a]> votes)) Q w.
Proof.
  intros Hf Hsub Hv HQ. eapply wp_mono; [apply votedDeposits_wp; rewrite dom_insert; set_solver|].
  intros o w' [Hst ->]. apply HQ. by rewrite Hst.
Qed.

Lemma handlePrecommit_wp me B0 v p self w :
  Good me B0 (w_st w) -> getPacketType p = Ok CONSENSUS_PACKET_TYPE_PRECOMMIT_BLOCK -> vouched me v p ->
  (self = true -> ownPacket me p) ->
  wp (handlePrecommitPacket v p self) (fun _ w' => Good me B0 (w_st w')) w.
Proof.
  intros HG Hty Hv Hself. unfold handlePrecommitPacket. wp_norm. apply wp_packetBlock; [|done]. intros b Hb. wp_norm.
  apply wp_packetRound; [|done]. intros rd Hrd. destruct (Good_round _ _ _ _ _ _ _ HG Hb Hrd) as [Hok Hf].
  wp_step; [done|]. wp_step; [done|]. match goal with Hq : negb (isFiltered _ _) = false |- _ => apply isFiltered_dom in Hq as Hdep end.
  wp_step. wp_step; [done|]. match goal with Hq : _ && _ = false |- _ => clear Hq end.
  wp_step. destruct (decodePayload p) as [a|e|e] eqn:Ha; [|done..]. wp_norm. wp_step; [done|]. wp_step; [done|]. b2p.
  match goal with Hq : IsEqualTo _ _ = true |- _ => apply IsEqualTo_true in Hq end.
  pose proof (counted_dom _ _ _ _ _ _ _ (ro_precommits _ _ _ _ _ _ _ Hok)) as Hdom.
  assert (Hcount : counted me (ParentHash p) (filteredValidatorsDepositMap b) CONSENSUS_PACKET_TYPE_PRECOMMIT_BLOCK
      (<[v := NewConsensusPacket p]> (precommitPackets rd))
      (fun d => d = mkPreCommitDetails (rd_precommitHash rd) (currentRound b)) (<[v := a]> (validatorPrecommits rd))).
  { apply counted_insert; try done; [|destruct a; simpl in *; congruence].
    eapply counted_mono; [apply (ro_precommits _ _ _ _ _ _ _ Hok)|]. by intros ? [_ ?]. }
  assert (Hnone : validatorCommits rd = ∅).
  { eapply counted_empty; [apply (ro_commits _ _ _ _ _ _ _ Hok)|]. intros d [Hs _]. rewrite H9 in Hs. done. }
  pose proof (ro_vote _ _ _ _ _ _ _ Hok ltac:(by rewrite H9)) as Hvote.
  focus_step. focus_step; [focus_step|]; (focus_step; [wp_norm; eapply wp_votedDeposits_focus; [eassumption|done..|];
    intros ? ?; wp_norm; focus_step|]); repeat focus_step; b2p.
  all: finish HG Hb Hrd Hok; [round_same Hok|round_up; state_lia].
  all: lazymatch goal with
  | |- counted _ _ _ CONSENSUS_PACKET_TYPE_PRECOMMIT_BLOCK _ _ _ =>
      eapply counted_mono; [exact Hcount|]; intros ? ->; split; [state_lia|done]
  | |- counted _ _ _ CONSENSUS_PACKET_TYPE_COMMIT_BLOCK _ _ _ => rewrite Hnone; apply map_Forall_empty
  | |- _ -> _ -> _ -> weight _ (dom (validatorCommits _)) < _ => intros; by rewrite (weight_none _ _ Hnone)
  | |- _ -> _ -> _ -> weight _ _ < _ => intros; assumption || state_lia || congruence
  | |- forall p, _ = Some p -> _ => intros ? [= <-]; auto
  | |- _ => try (intros; exact Hvote); try state_lia; intros; assumption || state_lia
  end.
Qed.

Lemma blockStats_wp me B h b0 rd0 b r rd w :
  focus me B h b r rd (w_st w) ->
  wp (blockStats h b0 rd0) (fun o w' => o = Ok () /\ exists t, focus me B h (b <| commitTime := t |>) r rd (w_st w')) w.
Proof.
  intros Hf. unfold blockStats, countStat. cbn zeta. repeat focus_step; split; try done; eexists; eassumption.
Qed.

Lemma handleCommit_wp me B0 v p self w :
  Good me B0 (w_st w) -> getPacketType p = Ok CONSENSUS_PACKET_TYPE_COMMIT_BLOCK -> vouched me v p ->
  (self = true -> ownPacket me p) ->
  wp (handleCommitPacket v p self) (fun _ w' => Good me B0 (w_st w')) w.
Proof.
  intros HG Hty Hv Hself. unfold handleCommitPacket. wp_norm. apply wp_packetBlock; [|done]. intros b Hb. wp_norm.
  apply wp_packetRound; [|done]. intros rd Hrd. destruct (Good_round _ _ _ _ _ _ _ HG Hb Hrd) as [Hok Hf].
  wp_step; [done|]. wp_step; [done|]. match goal with Hq : negb (isFiltered _ _) = false |- _ => apply isFiltered_dom in Hq as Hdep end.
  wp_step. wp_step; [done|]. match goal with Hq : _ && _ = false |- _ => clear Hq end.
  wp_step. destruct (decodePayload p) as [a|e|e] eqn:Ha; [|done..]. wp_norm. wp_step; [done|]. cbn zeta. wp_step; [done|]. b2p.
  match goal with Hq : IsEqualTo _ _ = true |- _ => apply IsEqualTo_true in Hq; rewrite CopyFrom_eq in Hq end.
  pose proof (counted_dom _ _ _ _ _ _ _ (ro_commits _ _ _ _ _ _ _ Hok)) as Hdom.
  assert (Hcount : counted me (ParentHash p) (filteredValidatorsDepositMap b) CONSENSUS_PACKET_TYPE_COMMIT_BLOCK
      (<[v := NewConsensusPacket p]> (commitPackets rd))
      (fun d => d = mkCommitDetails (getCommitHash (rd_precommitHash rd)) (currentRound b)) (<[v := a]> (validatorCommits rd))).
  { apply counted_insert; try done; [|destruct a; simpl in *; unfold getCommitHash; congruence].
    eapply counted_mono; [apply (ro_commits _ _ _ _ _ _ _ Hok)|]. by intros ? [_ ?]. }
  pose proof (ro_vote _ _ _ _ _ _ _ Hok ltac:(by rewrite H9)) as Hvote.
  pose proof (ro_precommit_quorum _ _ _ _ _ _ _ Hok ltac:(by rewrite H9)) as Hquorum.
  pose proof (ro_precommits _ _ _ _ _ _ _ Hok) as Hpre.
  focus_step. focus_step; [focus_step|]; (focus_step; [wp_norm; eapply wp_votedDeposits_focus; [eassumption|done..|];
    intros ? ?; wp_norm; focus_step; [wp_norm; eapply wp_mono; [eapply blockStats_wp; eassumption|];
      intros ? ? (-> & ? & ?); wp_norm|]|]); repeat focus_step; b2p.
  all: finish HG Hb Hrd Hok; [round_same Hok|round_up; state_lia].
  all: lazymatch goal with
  | |- counted _ _ _ CONSENSUS_PACKET_TYPE_COMMIT_BLOCK _ _ _ =>
      eapply counted_mono; [exact Hcount|]; intros ? ->; split; [state_lia|done]
  | |- counted _ _ _ CONSENSUS_PACKET_TYPE_PRECOMMIT_BLOCK _ _ _ =>
      eapply counted_mono; [exact Hpre|]; intros ? [? ?]; split; [state_lia|done]
  | |- _ -> _ -> _ -> weight _ _ < _ => intros; assumption || state_lia || congruence
  | |- forall p, _ = Some p -> _ => intros ? [= <-]; auto
  | |- _ => try (intros; exact Hvote); try state_lia; intros; assumption || state_lia
  end.
Qed.

(** The copy loop fills the slots from the left; it stops at an error. *)
Lemma copyLoop_wp me B h b r rd txns : forall todo dn w,
  txns = dn ++ todo ->
  focus me B h b r (rd <| proposalTxns := Some (dn ++ replicate (length todo) (arr_zero 32)) |>) (w_st w) ->
  wp (forM (fun '(i, txn) =>
      exists_ ← ext (fun t => doesFinalizedTransactionExistFn t txn) ≫= check_err;
      fail_if exists_ (ErrorsNew "transaction already finalized");;
      modRound h r (fun rd => rd <| proposalTxns ::= fmap <[i := txn]> |>)) (imap (fun i x => ((length dn + i)%nat, x)) todo))
    (fun o w' => exists pt, focus me B h b r (rd <| proposalTxns := pt |>) (w_st w') /\ (o = Ok () -> pt = Some txns)) w.
Proof.
  induction todo as [|t todo IH]; intros dn w -> Hf; simpl.
  { wp_step. eexists. split; [exact Hf|]. intros _. simpl. by rewrite !app_nil_r. }
  wp_norm. apply wp_ext. intros [ex|e]; wp_norm; apply wp_check_err; [|by eexists].
  wp_norm. wp_step; [by eexists|]. wp_norm. eapply wp_modRound_focus; [exact Hf|]. intros w' Hf'. wp_norm.
  rewrite (imap_ext _ (fun i x => ((length (dn ++ [t]) + i)%nat, x))).
  2:{ intros i x _. rewrite length_app. simpl. f_equal. lia. }
  apply IH; [by rewrite <- app_assoc|].
  replace (rd <| proposalTxns := Some ((dn ++ [t]) ++ replicate (length todo) (arr_zero 32)) |>)
    with (rd <| proposalTxns := Some (dn ++ replicate (length (t :: todo)) (arr_zero 32)) |> <| proposalTxns ::= fmap <[(length dn + 0)%nat := t]> |>); [done|].
  unfold upd, set_proposalTxns. round_simpl. f_equal. simpl. f_equal. rewrite Nat.add_0_r, insert_app_r_alt, Nat.sub_diag by done.
  by rewrite <- app_assoc.
Qed.

Lemma copyTxns_wp me B h b r rd txns w :
  focus me B h b r rd (w_st w) ->
  wp (copyTxns h r txns)
    (fun o w' => exists pt, focus me B h b r (rd <| proposalTxns := pt |>) (w_st w') /\ (o = Ok () -> pt = Some txns)) w.
Proof.
  intros Hf. unfold copyTxns. focus_step. by apply (copyLoop_wp me B h b r rd txns txns []).
Qed.

(** Before the precommits there is none to count. *)
Lemma round_ok_early me h deps required n r rd :
  round_ok me h deps required n r rd -> rd_state rd < BLOCK_STATE_WAITING_FOR_PRECOMMITS ->
  validatorPrecommits rd = ∅ /\ validatorCommits rd = ∅.
Proof.
  intros Hok Hs. split.
  - eapply counted_empty; [apply (ro_precommits _ _ _ _ _ _ _ Hok)|]. intros d [? _]. state_lia.
  - eapply counted_empty; [apply (ro_commits _ _ _ _ _ _ _ Hok)|]. intros d [? _]. state_lia.
Qed.

Lemma handlePropose_wp me B0 v p self w :
  Good me B0 (w_st w) -> wp (handleProposeBlockPacket v p self) (fun _ w' => Good me B0 (w_st w')) w.
Proof.
  intros HG. unfold handleProposeBlockPacket. wp_norm. apply wp_packetBlock; [|done]. intros b Hb. wp_norm.
  apply wp_packetRound; [|done]. intros rd Hrd. destruct (Good_round _ _ _ _ _ _ _ HG Hb Hrd) as [Hok Hf].
  wp_step. destruct (decodePayload p) as [a|e|e] eqn:Ha; [|done..]. wp_norm. do 4 (wp_step; [done|]). b2p.
  wp_norm. eapply wp_keeps_focus; [eassumption|intros ? ?; auto with preserves|]. intros [ok|e|e] w1 Hf1; [|by finish HG Hb Hrd Hok..].
  wp_norm. do 4 (focus_step; try by finish HG Hb Hrd Hok). cbn zeta. focus_step; [by finish HG Hb Hrd Hok|].
  repeat match goal with Hq : _ && _ = false |- _ => clear Hq end.
  set (hash := if Z.leb PROPOSAL_TIME_HASH_START_BLOCK (bs_blockNumber b) then _ else _).
  assert (Hhash : hash = votedHash (ParentHash p) (currentRound b) VOTE_TYPE_OK (Txns a) (bs_blockNumber b) (pd_BlockTime a)).
  { unfold hash, votedHash. cbn [Z.eqb]. by rewrite H9, (ro_round _ _ _ _ _ _ _ Hok). }
  destruct (round_ok_early _ _ _ _ _ _ _ Hok) as [Hnone1 Hnone2]; [state_lia|].
  assert (Hround : pd_Round a = currentRound b) by (by rewrite H9, (ro_round _ _ _ _ _ _ _ Hok)).
  focus_step. wp_norm. eapply wp_mono; [eapply copyTxns_wp; eassumption|]. cbn beta. intros o w2 (pt & Hf2 & Hpt).
  destruct o as [[]|e|e]; [rewrite Hpt in Hf2 by done; wp_norm; repeat focus_step|..].
  all: finish HG Hb Hrd Hok; [round_same Hok|round_up; state_lia].
  all: lazymatch goal with
  | |- counted _ _ _ _ _ _ (validatorPrecommits _) => rewrite Hnone1; apply map_Forall_empty
  | |- counted _ _ _ _ _ _ (validatorCommits _) => rewrite Hnone2; apply map_Forall_empty
  | |- _ -> _ -> _ -> weight _ _ < _ => intros; by rewrite weight_none
  | |- _ -> exists d, _ => intros ?; try state_lia; exists a; rewrite CopyFrom_eq; by split_and!
  | |- _ => try state_lia; intros; state_lia
  end.
Qed.

Lemma packetSigner_wp p ty (w : World ConsensusHandler) :
  wp (packetSigner p ty) (fun o w' => w' = w /\ forall v, o = Ok v -> ty <> CONSENSUS_PACKET_TYPE_PROPOSE_BLOCK -> signedBy p v) w.
Proof.
  unfold packetSigner. cbn zeta. wp_norm. destruct (Z.eqb_spec ty CONSENSUS_PACKET_TYPE_PROPOSE_BLOCK) as [->|Hne]; cbn [andb].
  - eapply wp_mono with (P := fun _ w' => w' = w).
    { wp_steps; repeat (wp_norm; (apply wp_check_err_as; case_match) || wp_step); done. }
    intros [pub|e|e] w' ->; try done. simpl. apply wp_check_err_as. case_match; split; try done; congruence.
  - wp_norm. apply wp_check_err_as. destruct (PublicKeyFromSignature _ _) as [pub|e] eqn:Hpub; [|done].
    wp_step; [done|]. wp_step. apply wp_check_err_as. destruct (PublicKeyToAddress pub) as [v|e] eqn:Hv; [|done].
    split; [done|]. intros v' [= <-] _. exists pub. b2p. done.
Qed.

Lemma processPacket_Good me B0 p : preserves (Good me B0) (processPacket p).
Proof.
  intros w HG. unfold processPacket. wp_step; [done|]. wp_step.
  destruct (getPacketType p) as [ty|e|e] eqn:Hty; [|done..]. wp_norm.
  eapply wp_mono; [apply packetSigner_wp|]. intros [v|e|e] w' [-> Hs]; [|done..]. wp_norm. specialize (Hs v eq_refl).
  destruct (Z.eqb_spec ty CONSENSUS_PACKET_TYPE_PROPOSE_BLOCK) as [->|Hne]; [by apply handlePropose_wp|]. specialize (Hs Hne).
  destruct (Z.eqb_spec ty CONSENSUS_PACKET_TYPE_ACK_BLOCK_PROPOSAL) as [->|]; [by apply handleAck_wp; [| |left]|].
  destruct (Z.eqb_spec ty CONSENSUS_PACKET_TYPE_PRECOMMIT_BLOCK) as [->|]; [by apply handlePrecommit_wp; [| |left|]|].
  destruct (Z.eqb_spec ty CONSENSUS_PACKET_TYPE_COMMIT_BLOCK) as [->|]; [by apply handleCommit_wp; [| |left|]|].
  unfold GetLatestBlockNumber. wp_step. by wp_step.
Qed.

Ltac good_keeps := apply keeps_Good; intros ? ?; solve [auto with preserves].
Ltac good_steps := preserves_steps; try good_keeps; try (by apply keeps_Good; intros ? ?; keeps_steps).
#[local] Hint Resolve processPacket_Good : preserves.
#[local] Hint Extern 1 (preserves (Good _ _) (onPeers _)) => good_keeps : preserves.
#[local] Hint Extern 1 (preserves (Good _ _) (bufferPacket _)) => good_keeps : preserves.
#[local] Hint Extern 1 (preserves (Good _ _) LogIncomingPacketStats) => good_keeps : preserves.
#[local] Hint Extern 1 (preserves (Good _ _) (HasExceededTimeThreshold _ _)) => good_keeps : preserves.

Lemma HandleConsensusPacket_Good me B0 p peer : preserves (Good me B0) (HandleConsensusPacket p peer).
Proof. unfold HandleConsensusPacket. good_steps. Qed.

Lemma retryPackets_Good me B0 h l k : preserves (Good me B0) (retryPackets h l k).
Proof. unfold retryPackets. good_steps. Qed.
#[local] Hint Resolve retryPackets_Good : preserves.

Lemma processOutOfOrderPackets_Good me B0 h : preserves (Good me B0) (processOutOfOrderPackets h).
Proof. unfold processOutOfOrderPackets. good_steps. Qed.

(** * New rounds *)

(** The next round of a block: its other rounds stay. *)
Definition block_next (b b' : BlockStateDetails) : Prop :=
  filteredValidatorsDepositMap b' = filteredValidatorsDepositMap b
  /\ blockMinWeightedProposalsRequired b' = blockMinWeightedProposalsRequired b
  /\ bs_blockNumber b' = bs_blockNumber b
  /\ currentRound b' = u8 (currentRound b + 1)
  /\ exists rd, rd_state rd = BLOCK_STATE_WAITING_FOR_PROPOSAL /\ blockRoundMap b' = <[currentRound b' := rd]> (blockRoundMap b).

(** The round of the block is not that of a node that sent its commit. *)
Definition uncommitted (b : BlockStateDetails) : Prop :=
  exists rd, blockRoundMap b !! currentRound b = Some rd /\ rd_state rd < BLOCK_STATE_WAITING_FOR_COMMITS.

(** A new round of the block that the handler is at; [h] is the block that the
    step is about. *)
Definition blocks_next (h : Hash) (B B' : gmap Hash BlockStateDetails) : Prop :=
  exists b b', B !! c = Some b /\ B' = <[c := b']> B /\ block_next b b' /\ (h = c -> uncommitted b).

(** After a step: the rounds evolved, and a new round may have begun. *)
Definition Moved (h : Hash) (me : Address) (B0 : gmap Hash BlockStateDetails) (s : ConsensusHandler) : Prop :=
  Inv me s /\ currentParentHash s = c
  /\ exists B1, blocks_le B0 B1 /\ (blockStateDetailsMap s = B1 \/ blocks_next h B1 (blockStateDetailsMap s)).

Lemma Good_Moved h me B0 s : Good me B0 s -> Moved h me B0 s.
Proof. intros (HI & Hle & Hc). split; [done|]. eauto. Qed.

Lemma newBlockRound_ok me h deps required n r t reason proposer :
  round_ok me h deps required n r ((newBlockRound r t reason) <| rd_proposer := proposer |>).
Proof. split; unfold newBlockRound; round_simpl; try done; try (intros; state_lia); apply map_Forall_empty. Qed.

(** A new round begins for the block the handler is at, or nothing changes. *)
Lemma initializeNewBlockRound_at me reason w :
  Inv me (w_st w) -> wp (initializeNewBlockRound reason) (fun _ w' => Inv me (w_st w') /\ currentParentHash (w_st w') = currentParentHash (w_st w)
    /\ (blockStateDetailsMap (w_st w') = blockStateDetailsMap (w_st w)
       \/ exists b b', blockStateDetailsMap (w_st w) !! currentParentHash (w_st w) = Some b
            /\ blockStateDetailsMap (w_st w') = <[currentParentHash (w_st w) := b']> (blockStateDetailsMap (w_st w)) /\ block_next b b')) w.
Proof.
  intros HI. unfold initializeNewBlockRound, theBlock. wp_step. wp_norm. wp_step. wp_norm.
  apply wp_must. destruct (_ !! _) as [b|] eqn:Hb; [|by split_and!; [| |left]]. wp_norm. wp_step. cbn zeta.
  wp_use getBlockProposer_wp. intros [pr|e|e] w1 [Hst _]; [|simpl; rewrite Hst; by split_and!; [| |left]..]. wp_norm.
  unfold modBlock. apply wp_modify. cbn [w_st w_tick] in Hst |- *. rewrite Hst. destruct HI as [Ha HB].
  pose proof (HB _ _ Hb) as [P1 P2 P3 P4]. unfold Inv. handler_simpl. rewrite (alter_Some _ _ _ _ Hb).
  split; [split; [done|]|split; [done|]].
  - apply map_Forall_insert_2; [|done]. split; block_simpl; [done|apply u8_range|done|].
    apply map_Forall_insert_2; [|done]. apply newBlockRound_ok.
  - right. eexists b, _. split; [done|]. split; [done|].
    unfold block_next. block_simpl. split_and!; try done. eexists. by split; [|reflexivity].
Qed.

(** The round that the node works on. *)
Definition current (h : Hash) (s : ConsensusHandler) (b : BlockStateDetails) (rd : BlockRoundDetails) : Prop :=
  blockStateDetailsMap s !! h = Some b /\ blockRoundMap b !! currentRound b = Some rd.

Lemma initializeNewBlockRound_wp me B0 h b rd reason w :
  Good me B0 (w_st w) -> current h (w_st w) b rd -> rd_state rd < BLOCK_STATE_WAITING_FOR_COMMITS ->
  wp (initializeNewBlockRound reason) (fun _ w' => Moved h me B0 (w_st w')) w.
Proof.
  intros (HI & Hle & Hc) [Hb Hrd] Hs. eapply wp_mono; [by apply initializeNewBlockRound_at|]. cbn beta. rewrite Hc.
  intros o w' (HI' & Hc' & Hn). split; [done|]. split; [done|].
  exists (blockStateDetailsMap (w_st w)). split; [done|]. destruct Hn as [->|(b1 & b' & Hb1 & -> & Hn)]; [by left|].
  right. exists b1, b'. split_and!; try done. intros ->. simplify_eq. by exists rd.
Qed.

(** * The node's own steps *)

Lemma wp_theBlock h b (Q : outcome BlockStateDetails -> World ConsensusHandler -> Prop) w :
  blockStateDetailsMap (w_st w) !! h = Some b -> Q (Ok b) w -> wp (theBlock h) Q w.
Proof. intros Hb HQ. unfold theBlock. wp_step. rewrite Hb. by wp_norm. Qed.

Lemma wp_theRound h b rd (Q : outcome BlockRoundDetails -> World ConsensusHandler -> Prop) w :
  blockStateDetailsMap (w_st w) !! h = Some b -> blockRoundMap b !! currentRound b = Some rd -> Q (Ok rd) w ->
  wp (theRound h) Q w.
Proof. intros Hb Hrd HQ. unfold theRound. wp_norm. eapply wp_theBlock; [done|]. wp_norm. by rewrite Hrd. Qed.

Lemma wp_theRound_focus me B h b rd (Q : outcome BlockRoundDetails -> World ConsensusHandler -> Prop) w :
  focus me B h b (currentRound b) rd (w_st w) -> Q (Ok rd) w -> wp (theRound h) Q w.
Proof.
  intros [HB _] HQ. eapply wp_theRound; [rewrite HB; apply lookup_insert_eq| |done]. block_simpl. apply lookup_insert_eq.
Qed.

Lemma newPacket_wp {A} `{RlpStruct A} h ty (a : A) w : 0 <= ty < MinConsensusNetworkProtocolVersion ->
  wp (newPacket h ty a false) (fun o w' => w_st w' = w_st w /\ forall p, o = Ok p ->
    ParentHash p = h /\ getPacketType p = Ok ty /\ ownPacket (account (w_st w)) p
    /\ (rlp_typed a -> len (enc (to_rval a)) < 2 ^ 63 -> decodePayload p = Ok a)) w.
Proof.
  intros Hty. unfold newPacket, GetLatestBlockNumber, createConsensusPacket. wp_step.
  destruct (rlp_EncodeToBytes a) as [d|e|e] eqn:Hd; [|done..]. wp_norm. wp_step. wp_step. wp_step; [done|]. cbn zeta. wp_norm.
  unfold wp at 1, ext. set (sig := signFn _ _ _). destruct sig as [sg|e] eqn:Hsig; wp_norm; apply wp_check_err; [|done].
  wp_norm. apply wp_ret. split; [done|]. intros p [= <-]. simpl. split; [done|]. split; [by apply getPacketType_dataToSend|].
  split; [by eexists|]. intros Ht Hl. rewrite rlp_EncodeToBytes_typed in Hd by done. injection Hd as <-.
  by apply decodePayload_dataToSend.
Qed.

(** The node's own acknowledgement, given before the precommits. *)
Lemma recordSelfAck_wp me B0 s h b rd a p w :
  Good me B0 s -> blockStateDetailsMap s !! h = Some b -> blockRoundMap b !! currentRound b = Some rd ->
  me ∈ dom (filteredValidatorsDepositMap b) -> selfAckd rd = false ->
  focus me (blockStateDetailsMap s) h b (currentRound b) rd (w_st w) ->
  ProposalAckVoteType a = VOTE_TYPE_OK \/ ProposalAckVoteType a = VOTE_TYPE_NIL -> pad_Round a = currentRound b ->
  ParentHash p = h -> getPacketType p = Ok CONSENSUS_PACKET_TYPE_ACK_BLOCK_PROPOSAL -> decodePayload p = Ok a -> ownPacket me p ->
  wp (recordSelfAck h (currentRound b) a p) (fun o w' => o = Ok () /\ Good me B0 (w_st w') /\ exists rd',
    focus me (blockStateDetailsMap s) h b (currentRound b) rd' (w_st w') /\ rd_state rd' = rd_state rd
    /\ (selfAckProposalVoteType rd' = VOTE_TYPE_OK -> ProposalAckVoteType a = VOTE_TYPE_OK)) w.
Proof.
  intros HG Hb Hrd Hme Hnot Hf Hvote Hr Hh Hty Hd Hown. destruct (Good_round _ _ _ _ _ _ _ HG Hb Hrd) as [Hok _].
  unfold recordSelfAck. wp_step. pose proof Hf as (_ & -> & _). eapply wp_modRound_focus; [exact Hf|]. intros w' Hf'.
  split; [done|]. split; [|eexists; split; [exact Hf'|]; by round_simpl].
  finish HG Hb Hrd Hok; [round_same Hok|round_up; congruence]. apply counted_insert; try done. by right.
Qed.

Lemma focus_current me B h b rd s : focus me B h b (currentRound b) rd s ->
  current h s (b <| blockRoundMap ::= <[currentRound b := rd]> |>) rd.
Proof. intros [HB _]. split; [rewrite HB; apply lookup_insert_eq|]. block_simpl. apply lookup_insert_eq. Qed.

(** What the node's own acknowledgement leaves of the round. *)
Definition acked (me : Address) B0 (h : Hash) (b : BlockStateDetails) (st : Z) (s : ConsensusHandler) : Prop :=
  Good me B0 s /\ exists b' rd', current h s b' rd' /\ currentRound b' = currentRound b /\ rd_state rd' = st
    /\ filteredValidatorsDepositMap b' = filteredValidatorsDepositMap b.

Lemma ownAck_wp me B0 h b rd a w :
  Good me B0 (w_st w) -> current h (w_st w) b rd -> me ∈ dom (filteredValidatorsDepositMap b) -> selfAckd rd = false ->
  ProposalAckVoteType a = VOTE_TYPE_OK \/ ProposalAckVoteType a = VOTE_TYPE_NIL -> pad_Round a = currentRound b ->
  wp (packet ← newPacket h CONSENSUS_PACKET_TYPE_ACK_BLOCK_PROPOSAL a false; recordSelfAck h (currentRound b) a packet)
    (fun o w' => Good me B0 (w_st w') /\ (o = Ok () -> acked me B0 h b (rd_state rd) (w_st w'))) w.
Proof.
  intros HG [Hb Hrd] Hme Hnot Hv Hr. destruct (Good_round _ _ _ _ _ _ _ HG Hb Hrd) as [Hok Hf].
  destruct (ack_encodable a) as [Ht Hl].
  { destruct Hv as [->| ->]; by unfold is_u8, VOTE_TYPE_OK, VOTE_TYPE_NIL. }
  { rewrite Hr. destruct HG as ([_ HB] & _). apply (bo_current _ _ _ (HB _ _ Hb)). }
  wp_norm. eapply wp_mono; [by apply newPacket_wp|]. intros [p|e|e] w1 [Hst Hp]; simpl; [|by rewrite Hst..].
  destruct (Hp p eq_refl) as (Hh & Hty & Hown & Hd).
  pose proof HG as ([Hacc _] & _). rewrite Hacc in Hown.
  assert (Hf1 : focus me (blockStateDetailsMap (w_st w)) h b (currentRound b) rd (w_st w1)) by (by rewrite Hst).
  eapply wp_mono; [eapply (recordSelfAck_wp me B0); try eassumption; try done; auto|].
  intros o w2 (-> & HG2 & rd' & Hf2 & Hs2 & _). split; [done|]. intros _. split; [done|].
  eexists _, rd'. split; [by eapply focus_current|]. by block_simpl.
Qed.

(** Entering the precommit phase with a vote that the invariant allows. *)
Lemma startPrecommits_wp me B0 h b rd r hash vote w :
  Good me B0 (w_st w) -> current h (w_st w) b rd -> r = currentRound b ->
  rd_state rd < BLOCK_STATE_WAITING_FOR_PRECOMMITS ->
  vote = VOTE_TYPE_OK /\ rd_state rd = BLOCK_STATE_WAITING_FOR_PROPOSAL_ACKS /\ hash = getOkVotePreCommitHash h (rd_proposalHash rd) r
  \/ vote = VOTE_TYPE_NIL /\ hash = getNilVotePreCommitHash h r ->
  wp (startPrecommits h r hash vote) (fun _ w' => Good me B0 (w_st w') /\ exists b' rd', current h (w_st w') b' rd') w.
Proof.
  intros HG [Hb Hrd] -> Hs Hv. destruct (Good_round _ _ _ _ _ _ _ HG Hb Hrd) as [Hok Hf].
  destruct (round_ok_early _ _ _ _ _ _ _ Hok) as [Hnone1 Hnone2]; [done|].
  unfold startPrecommits. focus_step. focus_step. split; [|eexists _, _; by eapply focus_current].
  finish HG Hb Hrd Hok; [round_same Hok|round_up; state_lia].
  - state_lia.
  - rewrite Hnone1. apply map_Forall_empty.
  - rewrite Hnone2. apply map_Forall_empty.
  - intros ?. state_lia.
  - intros _. rewrite CopyFrom_eq. destruct Hv as [(-> & Hst & ->)|[-> ->]]; [left|by right]. split; [done|].
    split; [|done]. by apply ro_proposal0.
  - intros ?. state_lia.
  - intros ?. state_lia.
  - intros. by rewrite weight_none.
  - intros. by rewrite weight_none.
Qed.

Lemma Good_frame me B0 s s' : frame (blockStateDetailsMap s) (account s) s' -> Good me B0 s -> Good me B0 s'.
Proof. intros (HB & Ha & Hc). unfold Good, Inv. rewrite HB, Ha. tauto. Qed.

Lemma current_frame h b rd s s' : frame (blockStateDetailsMap s) (account s) s' -> current h s b rd -> current h s' b rd.
Proof. intros (HB & _). unfold current. by rewrite HB. Qed.

(** Two statements that are specified together. *)
Lemma wp_bind2 {A B D} (m : C A) (k : A -> C B) (k' : B -> C D) P Q w :
  wp (m ≫= k) P w -> (forall o w', P o w' -> wp_k k' Q o w') -> wp m (wp_k (fun a => k a ≫= k') Q) w.
Proof.
  intros Hm HQ. eapply wp_mono; [exact (wp_bind_inv _ _ _ _ Hm)|]. intros [a|e|e] w' Ho; simpl in *; [|by apply (HQ _ _ Ho)..].
  apply wp_bind. by eapply wp_mono.
Qed.

(** Run an operation that leaves the blocks alone, keeping what is known. *)
Ltac keep_step :=
  wp_norm;
  lazymatch goal with
  | |- wp (if ?b then _ else _) _ _ => destruct b eqn:?
  | |- wp (mret _) _ _ => apply wp_ret
  | |- wp (fail _) _ _ => apply wp_fail
  | |- wp (fail_if _ _) _ _ => apply wp_fail_if; intros ?
  | |- wp (when _ _) _ _ => apply wp_when; intros ?
  | |- wp (must _ ?o) _ _ => apply wp_must; destruct o eqn:?
  | |- wp (gets _) _ _ => apply wp_gets
  | HG : Good _ _ (w_st ?w), Hc : current _ (w_st ?w) _ _ |- wp _ _ ?w =>
      eapply wp_keeps; [apply HG|intros ? ?; solve [auto with preserves]|];
      let o := fresh "o" in let w' := fresh "w" in let Hfr := fresh "Hfr" in
      intros [o|o|o] w' Hfr; apply (Good_frame _ _ _ _ Hfr) in HG; apply (current_frame _ _ _ _ _ Hfr) in Hc
  end; wp_norm.
Ltac moved := solve [by apply Good_Moved | eapply initializeNewBlockRound_wp; [eassumption..|state_lia]].

Lemma nilVote_wp me B0 h b rd r w :
  Good me B0 (w_st w) -> current h (w_st w) b rd -> r = currentRound b -> rd_state rd < BLOCK_STATE_WAITING_FOR_PRECOMMITS ->
  wp (modRound h r (fun rd => rd <| blockVoteType := VOTE_TYPE_NIL |>))
    (fun _ w' => acked me B0 h b (rd_state rd) (w_st w')) w.
Proof.
  intros HG [Hb Hrd] -> Hs. destruct (Good_round _ _ _ _ _ _ _ HG Hb Hrd) as [Hok Hf].
  eapply wp_modRound_focus; [done|]. intros w' Hf'. split.
  { finish HG Hb Hrd Hok; [round_same Hok|round_up]; intros; state_lia. }
  eexists _, _. split; [by eapply focus_current|]. by block_simpl.
Qed.

(** The end of both acknowledgement functions, when the round is not left. *)
Lemma nilPrecommits_wp me B0 h b rd r w :
  Good me B0 (w_st w) -> current h (w_st w) b rd -> r = currentRound b -> rd_state rd < BLOCK_STATE_WAITING_FOR_PRECOMMITS ->
  wp (startPrecommits h r (getNilVotePreCommitHash h r) VOTE_TYPE_NIL;; afterAcks h) (fun _ w' => Moved h me B0 (w_st w')) w.
Proof.
  intros HG Hc -> Hs. wp_norm. eapply wp_mono; [eapply startPrecommits_wp; try eassumption; [done|by right]|].
  intros [[]|e|e] w1 (HG1 & b1 & rd1 & Hc1); [|by apply Good_Moved..]. simpl. keep_step; moved.
Qed.

Lemma ackBlockProposalTimeout_wp me B0 h b rd w :
  Good me B0 (w_st w) -> current h (w_st w) b rd -> me ∈ dom (filteredValidatorsDepositMap b) ->
  rd_state rd < BLOCK_STATE_WAITING_FOR_PRECOMMITS ->
  wp (ackBlockProposalTimeout h) (fun _ w' => Moved h me B0 (w_st w')) w.
Proof.
  intros HG Hc Hme Hs. pose proof Hc as [Hb Hrd]. unfold ackBlockProposalTimeout.
  wp_norm. eapply wp_theBlock; [done|]. wp_norm. eapply wp_theRound; [done..|]. wp_norm. cbn zeta.
  eapply wp_mono with (P := fun o w' => Good me B0 (w_st w') /\ (o = Ok () -> acked me B0 h b (rd_state rd) (w_st w'))).
  { destruct (selfAckd rd) eqn:Hnot.
    - wp_step. split; [done|]. intros _. split; [done|]. by eexists _, _.
    - wp_step; [done|]. eapply wp_bind2; [eapply ownAck_wp; try eassumption; [by right|done]|]. cbn beta.
      intros [[]|e|e] w1 [HG1 Ha1]; [|by simpl..]. destruct (Ha1 eq_refl) as (_ & b1 & rd1 & Hc1 & Hr1 & Hs1 & Hd1). simpl.
      eapply wp_mono; [eapply (nilVote_wp me B0 h b1 rd1); try eassumption; [done|state_lia]|]. cbn beta.
      intros o w2 (HG2 & b2 & rd2 & Hc2 & Hr2 & Hs2 & Hd2). split; [done|]. intros _. split; [done|]. exists b2, rd2. by rewrite Hr2, Hs2, Hd2. }
  intros [[]|e|e] w1 [HG1 Ha1]; [|by apply Good_Moved..]. destruct (Ha1 eq_refl) as (_ & b1 & rd1 & Hc1 & Hr1 & Hs1 & Hd1). wp_norm.
  eapply wp_theRound; [apply Hc1..|]. keep_step; [|moved..]. keep_step; [keep_step; moved|]. keep_step; [eapply nilPrecommits_wp; try done; state_lia|].
  keep_step; [|moved..]. keep_step; [keep_step; moved|]. keep_step; [moved|]. keep_step; [|moved..].
  keep_step; [moved|]. keep_step; moved.
Qed.

Lemma selfAck_wp me B0 h b rd w :
  Good me B0 (w_st w) -> current h (w_st w) b rd -> me ∈ dom (filteredValidatorsDepositMap b) -> selfAckd rd = false ->
  wp (selfAck h b rd) (fun o w' => Good me B0 (w_st w') /\ (o = Ok () -> acked me B0 h b (rd_state rd) (w_st w'))) w.
Proof.
  intros HG Hc Hme Hnot. unfold selfAck. cbn zeta.
  assert (Hend : forall w, Good me B0 (w_st w) -> current h (w_st w) b rd ->
    wp (let details := if Z.leb MAX_ROUND (currentRound b)
          then mkProposalAckDetails (CopyFrom (arr_zero 32) (getNilVoteProposalHash h (currentRound b))) VOTE_TYPE_NIL (currentRound b)
          else mkProposalAckDetails (CopyFrom (arr_zero 32) (rd_proposalHash rd)) VOTE_TYPE_OK (currentRound b) in
        packet ← newPacket h CONSENSUS_PACKET_TYPE_ACK_BLOCK_PROPOSAL details false; recordSelfAck h (currentRound b) details packet)
      (fun o w' => Good me B0 (w_st w') /\ (o = Ok () -> acked me B0 h b (rd_state rd) (w_st w'))) w).
  { intros w1 HG1 Hc1. cbn zeta. eapply ownAck_wp; try eassumption; case_match; simpl; auto. }
  keep_step; [done|]. keep_step; [|done]. keep_step; [done|]. keep_step; [|by apply wp_bind_inv, Hend].
  keep_step; [|done..]. keep_step; [done|]. by apply wp_bind_inv, Hend.
Qed.

Lemma ackBlockProposal_wp me B0 h b rd w :
  Good me B0 (w_st w) -> current h (w_st w) b rd -> me ∈ dom (filteredValidatorsDepositMap b) ->
  rd_state rd = BLOCK_STATE_WAITING_FOR_PROPOSAL_ACKS ->
  wp (ackBlockProposal h) (fun _ w' => Moved h me B0 (w_st w')) w.
Proof.
  intros HG Hc Hme Hs. pose proof Hc as [Hb Hrd]. unfold ackBlockProposal.
  wp_norm. eapply wp_theBlock; [done|]. wp_norm. eapply wp_theRound; [done..|]. wp_norm. cbn zeta.
  eapply wp_mono with (P := fun o w' => Good me B0 (w_st w') /\ (o = Ok () -> acked me B0 h b (rd_state rd) (w_st w'))).
  { destruct (selfAckd rd) eqn:Hnot; [|by eapply selfAck_wp].
    keep_step; [|done..]. keep_step; [keep_step|]; (split; [done|]; try done); intros _; (split; [done|]); by eexists _, _. }
  intros [[]|e|e] w1 [HG1 Ha1]; [|by apply Good_Moved..]. destruct (Ha1 eq_refl) as (_ & b1 & rd1 & Hc1 & Hr1 & Hs1 & Hd1). wp_norm.
  eapply wp_theRound; [apply Hc1..|]. rewrite Hs in Hs1. keep_step; [|moved..]. keep_step.
  { wp_norm. eapply wp_mono; [eapply startPrecommits_wp; try eassumption; [done|state_lia|left; by rewrite Hs1]|].
    intros [[]|e|e] w2 (HG2 & b2 & rd2 & Hc2); [|by apply Good_Moved..]. wp_norm. keep_step; [|moved..].
    destruct Hc2 as [Hb2 Hrd2]. destruct (Good_round _ _ _ _ _ _ _ HG2 Hb2 Hrd2) as [Hok2 Hf2].
    focus_step. focus_step; apply Good_Moved; finish HG2 Hb2 Hrd2 Hok2. }
  keep_step; [eapply nilPrecommits_wp; try done; state_lia|]. wp_norm.
  eapply wp_mono with (P := fun _ w' => Good me B0 (w_st w') /\ current h (w_st w') b1 rd1).
  { keep_step; [by keep_step|]. keep_step; keep_step; done. }
  intros [ex|e|e] w3 [HG3 Hc3]; [|by apply Good_Moved..]. simpl. keep_step; [moved|]. keep_step; [|moved..].
  keep_step; [moved|]. keep_step; moved.
Qed.

Lemma proposeBlock_wp me B0 h b rd txns n w :
  Good me B0 (w_st w) -> current h (w_st w) b rd -> wp (proposeBlock h txns n) (fun _ w' => Good me B0 (w_st w')) w.
Proof.
  intros HG Hc. pose proof Hc as [Hb Hrd]. unfold proposeBlock.
  wp_norm. eapply wp_theBlock; [done|]. wp_norm. eapply wp_theRound; [done..|]. wp_norm. keep_step; [by keep_step|].
  do 2 (keep_step; [|done..]). wp_step. destruct (decodePayload o0); [|done..]. wp_norm. keep_step.
  eapply wp_mono; [by apply handlePropose_wp|]. intros [[]|e|e] w2 HG2; [|done..]. wp_norm.
  eapply keeps_Good; [|done]. intros ? ?. auto with preserves.
Qed.

(** The account of a node does not change. *)
Lemma Good_account me B0 s : Good me B0 s -> account s = me.
Proof. by intros ([? _] & _). Qed.

Lemma precommitBlock_wp me B0 h b rd w :
  Good me B0 (w_st w) -> current h (w_st w) b rd -> wp (precommitBlock h) (fun _ w' => Good me B0 (w_st w')) w.
Proof.
  intros HG Hc. pose proof Hc as [Hb Hrd]. destruct (Good_round _ _ _ _ _ _ _ HG Hb Hrd) as [Hok _]. unfold precommitBlock.
  wp_norm. eapply wp_theRound; [done..|]. do 3 (keep_step; try done). rewrite (Good_account _ _ _ HG). keep_step.
  - do 2 (keep_step; [|done..]). apply wp_must. destruct (selfPrecommitPacket rd) as [p|] eqn:Hsp; [|done]. wp_norm.
    destruct (ro_self_precommit _ _ _ _ _ _ _ Hok _ Hsp) as (Hp & Hty & Hown). apply handlePrecommit_wp; try done. by right.
  - wp_norm. eapply wp_mono; [by apply newPacket_wp|]. intros [p|e|e] w1 [Hst Hp]; [|by simpl; rewrite Hst..]. wp_norm.
    destruct (Hp p eq_refl) as (Hh & Hty & Hown & _). rewrite (Good_account _ _ _ HG) in Hown.
    eapply wp_mono; [apply (handlePrecommit_wp me B0); [by rewrite Hst|done|by right|done]|].
    intros [[]|e|e] w2 HG2; [|done..]. wp_norm. apply wp_bind_inv. eapply keeps_Good; [|done]. intros ? ?. keeps_steps.
Qed.

Lemma commitBlock_wp me B0 h b rd w :
  Good me B0 (w_st w) -> current h (w_st w) b rd -> wp (commitBlock h) (fun _ w' => Good me B0 (w_st w')) w.
Proof.
  intros HG Hc. pose proof Hc as [Hb Hrd]. destruct (Good_round _ _ _ _ _ _ _ HG Hb Hrd) as [Hok _]. unfold commitBlock.
  wp_norm. eapply wp_theRound; [done..|]. do 3 (keep_step; try done). rewrite (Good_account _ _ _ HG). keep_step.
  - do 3 (keep_step; [|done..]). apply wp_must. destruct (selfCommitPacket rd) as [p|] eqn:Hsp; [|done]. wp_norm.
    destruct (ro_self_commit _ _ _ _ _ _ _ Hok _ Hsp) as (Hp & Hty & Hown). apply handleCommit_wp; try done. by right.
  - wp_norm. eapply wp_mono; [by apply newPacket_wp|]. intros [p|e|e] w1 [Hst Hp]; [|by simpl; rewrite Hst..]. wp_norm.
    destruct (Hp p eq_refl) as (Hh & Hty & Hown & _). rewrite (Good_account _ _ _ HG) in Hown.
    eapply wp_mono; [apply (handleCommit_wp me B0); [by rewrite Hst|done|by right|done]|].
    intros [[]|e|e] w2 HG2; [|done..]. wp_norm. eapply keeps_Good; [|done]. intros ? ?. keeps_steps.
Qed.

Lemma knowTxns_wp me B0 h b rd r txns w :
  Good me B0 (w_st w) -> current h (w_st w) b rd -> r = currentRound b ->
  wp (knowTxns h r txns) (fun o w' => o = Ok () /\ acked me B0 h b (rd_state rd) (w_st w')) w.
Proof.
  intros HG [Hb Hrd] ->. destruct (Good_round _ _ _ _ _ _ _ HG Hb Hrd) as [Hok Hf]. unfold knowTxns.
  eapply wp_modRound_focus; [done|]. intros w' Hf'. split; [done|]. split.
  { finish HG Hb Hrd Hok; [round_same Hok|round_up]. }
  eexists _, _. split; [by eapply focus_current|]. by block_simpl.
Qed.

(** A step whose failure is only logged; the round is not ready yet after it. *)
Lemma wp_ignore_st {A} (P : ConsensusHandler -> Prop) (m : C A) w :
  wp m (fun _ w' => P (w_st w')) w -> wp (ignore m) (fun _ w' => P (w_st w')) w.
Proof.
  intros Hm. unfold ignore. wp_norm. apply wp_try. eapply wp_mono; [exact Hm|]. intros [a|e|e] w' HP; [..|done]; by wp_norm.
Qed.
Lemma wp_then_fail {A B} (P : ConsensusHandler -> Prop) (m : C A) e w :
  wp m (fun _ w' => P (w_st w')) w -> wp m (wp_k (fun _ => fail e : C B) (fun _ w' => P (w_st w'))) w.
Proof. intros Hm. eapply wp_mono; [exact Hm|]. by intros [a|e'|e'] w' HP. Qed.

Lemma stepRound_wp me B0 h b rd txns n sp w :
  Good me B0 (w_st w) -> current h (w_st w) b rd -> me ∈ dom (filteredValidatorsDepositMap b) ->
  wp (stepRound h txns n sp) (fun _ w' => Moved h me B0 (w_st w')) w.
Proof.
  intros HG Hc Hme. pose proof Hc as [Hb Hrd]. unfold stepRound.
  assert (HM : forall w, Good me B0 (w_st w) -> Moved h me B0 (w_st w)) by (intros; by apply Good_Moved).
  wp_norm. eapply wp_theBlock; [done|]. wp_norm. eapply wp_theRound; [done..|]. wp_norm. cbn zeta.
  destruct (Z.eqb_spec (rd_state rd) BLOCK_STATE_WAITING_FOR_PROPOSAL) as [Hs|_];
    [|destruct (Z.eqb_spec (rd_state rd) BLOCK_STATE_WAITING_FOR_PROPOSAL_ACKS) as [Hs|_]].
  - wp_norm. eapply wp_mono; [by eapply knowTxns_wp|]. intros o w1 (-> & HG1 & b1 & rd1 & Hc1 & Hr1 & Hs1 & Hd1). wp_norm.
    rewrite <- Hd1 in Hme. apply wp_then_fail. keep_step.
    { apply wp_ignore_st. eapply wp_mono; [by eapply proposeBlock_wp|]. intros; by apply HM. }
    keep_step; [|auto..]. keep_step; [apply wp_ignore_st; eapply ackBlockProposalTimeout_wp; try done; state_lia|].
    keep_step; [|auto..]. keep_step; [apply wp_ignore_st; eapply ackBlockProposalTimeout_wp; try done; state_lia|].
    keep_step; auto.
  - wp_norm. eapply wp_mono; [by eapply knowTxns_wp|]. intros o w1 (-> & HG1 & b1 & rd1 & Hc1 & Hr1 & Hs1 & Hd1). wp_norm.
    rewrite <- Hd1 in Hme. keep_step; [|auto..]. apply wp_then_fail. keep_step; apply wp_ignore_st.
    + eapply ackBlockProposalTimeout_wp; try done; state_lia.
    + eapply ackBlockProposal_wp; try done; state_lia.
  - keep_step.
    { keep_step; [|auto..]. b2p. keep_step; [moved|]. keep_step; [|auto..]. apply wp_then_fail, wp_ignore_st.
      eapply wp_mono; [by eapply precommitBlock_wp|]. intros; by apply HM. }
    keep_step.
    { keep_step; [|auto..]. apply wp_then_fail, wp_ignore_st. eapply wp_mono; [by eapply commitBlock_wp|]. intros; by apply HM. }
    keep_step; keep_step; auto.
Qed.

(** * The data of the decided block

    Validating it filters the validators of the block once more, which changes
    nothing: every one of them has the minimum deposit. *)
Section validate_preserves.
Context {T : Type} (P : T -> Prop).

Lemma preserves_roundProposers h deps vdm n ctx r : preserves P (roundProposers h deps vdm n ctx r).
Proof. unfold roundProposers, roundProposersLoop. preserves_steps. Qed.
Lemma preserves_parseOne h deps n vdm ctx m p : preserves P (parseOne h deps n vdm ctx m p).
Proof. unfold parseOne, recoverPublicKey, parseProposal, parseAck, parsePrecommit, parseCommit. preserves_steps. Qed.
Lemma preserves_ValidatePackets h r pm vt deps total req txns n t :
  preserves P (ValidatePackets h r pm vt deps total req txns n t).
Proof. unfold ValidatePackets, countAck, countVote. preserves_steps. Qed.
End validate_preserves.
#[local] Hint Resolve preserves_roundProposers preserves_parseOne preserves_ValidatePackets : preserves.

Lemma Inner_deposits D txns h bcd badd n ctx :
  big_deposits D = D -> preserves (fun m => vm_deposits m = D) (ValidateBlockConsensusDataInner txns h bcd badd n ctx).
Proof.
  intros HD w Hw. unfold ValidateBlockConsensusDataInner. do 3 (wp_step; [done|]). cbn zeta. wp_step.
  wp_use filterValidators_wp. intros [f|e|e] w1 [Hst Hfo]; [|simpl; by rewrite Hst..]. wp_norm. apply wp_modify. unfold wp_k at 1.
  apply filter_outcome_ok in Hfo as Hf.
  match goal with |- wp ?k _ _ => assert (Hp : preserves (fun m => vm_deposits m = D) k) end.
  { unfold ParseConsensusPackets, validateNil, validateOk. preserves_steps; by intros ? ?. }
  apply Hp. cbn [w_st]. rewrite Hst. cbn. rewrite (fs_deposits _ _ _ Hf). by rewrite Hw.
Qed.

Lemma deposits_big h b : deposits_ok h b -> big_deposits (filteredValidatorsDepositMap b) = filteredValidatorsDepositMap b.
Proof.
  intros [->|(t & vd & f & wf & _ & Hout & -> & _)]; [done|].
  pose proof (filterValidators_wp h vd (bs_blockNumber b) wf) as [_ Ho]%wp_run. rewrite Hout in Ho.
  apply filter_outcome_ok in Ho. by eapply selectedDeposits_big.
Qed.

(** Writing back the deposits of a block unchanged. *)
Lemma Good_details me B0 h D vdm b s :
  Good me B0 s -> blockStateDetailsMap s !! h = Some b -> D = filteredValidatorsDepositMap b ->
  Good me B0 (s <| blockStateDetailsMap ::= alter (fun b => b <| filteredValidatorsDepositMap := D |> <| bs_validatorDetailsMap := vdm |>) h |>).
Proof.
  intros ([Ha HB] & Hle & Hc) Hb ->. unfold Good, Inv. handler_simpl. rewrite (alter_Some _ _ _ _ Hb). pose proof (HB _ _ Hb) as [P1 P2 P3 P4].
  split; [split; [done|]|split; [|done]].
  - apply map_Forall_insert_2; [|done]. split; block_simpl; try done. 
  - etrans; [exact Hle|]. intros h' b' Hb'. destruct (decide (h' = h)) as [->|].
    + rewrite lookup_insert_eq in Hb'. injection Hb' as <-. exists b. split; [done|]. unfold block_le. block_simpl. by split_and!.
    + rewrite lookup_insert_ne in Hb' by done. by exists b'.
Qed.

Lemma onValidators_Good {A} me B0 h b0 b (m : M ValidatorMaps A) w :
  Good me B0 (w_st w) -> blockStateDetailsMap (w_st w) !! h = Some b ->
  preserves (fun v => vm_deposits v = filteredValidatorsDepositMap b) m ->
  wp (onValidators h b0 m) (fun _ w' => Good me B0 (w_st w')) w.
Proof.
  intros HG Hb Hm. unfold onValidators. apply wp_zoom. rewrite Hb. eapply wp_mono; [by apply Hm|]. cbn [w_st].
  intros o w' Hd. by eapply Good_details.
Qed.

Lemma getBlockConsensusData_Good me B0 h : preserves (Good me B0) (getBlockConsensusData h).
Proof.
  intros w HG. unfold getBlockConsensusData. wp_step. destruct (_ !! h) as [b|] eqn:Hb; [|by wp_step]. apply wp_bind, wp_fail_if; intros _; [done|].
  wp_norm. apply wp_must. destruct (blockRoundMap b !! currentRound b) as [rd|] eqn:Hrd; [|done]. wp_norm.
  assert (Hc : current h (w_st w) b rd) by done. cbn zeta. do 2 (keep_step; [done|]).
  wp_norm. eapply wp_keeps; [apply HG|intros ? ?; solve [keeps_steps]|]. intros [[[[proposer hash] selected] time]|e|e] w1 Hfr;
    apply (Good_frame _ _ _ _ Hfr) in HG; apply (current_frame _ _ _ _ _ Hfr) in Hc; [|done..]. wp_norm.
  keep_step; [|done..]. destruct o as [packets slashed]. wp_norm.
  eapply wp_mono; [eapply (onValidators_Good me B0); [done|apply Hc|]|].
  { apply Inner_deposits. eapply deposits_big, bo_deposits. destruct HG as ([_ HB] & _). by apply (HB h), Hc. }
  intros [[]|e|e] w2 HG2; [|done..]. by wp_norm.
Qed.

Lemma deleteBlock_Good me B0 h : preserves (Good me B0) (deleteBlock h).
Proof.
  unfold deleteBlock. apply preserves_modify. intros s ([Ha HB] & Hle & Hc). unfold Good, Inv. handler_simpl. split; [split; [done|]|split; [|done]].
  - intros h' b' [_ Hb']%lookup_delete_Some. by apply HB.
  - intros h' b' [_ Hb']%lookup_delete_Some. by apply Hle.
Qed.
#[local] Hint Resolve deleteBlock_Good : preserves.

Lemma cleanupBlockState_Good me B0 : preserves (Good me B0) cleanupBlockState.
Proof. unfold cleanupBlockState. good_steps. Qed.
End invariant.

#[export] Hint Resolve preserves_onPeers keeps_Elapsed keeps_Exceeded keeps_GetProposalTime keeps_ValidateTime
  keeps_theBlock keeps_theRound keeps_h_spawn keeps_createConsensusPacket keeps_setLastSent keeps_cleanupBroadcast
  keeps_claimSend keeps_broadCast keeps_missing keeps_getRequest keeps_requestConsensusData keeps_isBlockProposer
  keeps_SaveHash keeps_DoesPreviousHashMatch keeps_requestTransactions keeps_votedDeposits keeps_countStat
  keeps_bufferPacket keeps_LogIncomingPacketStats keeps_parsePacket keeps_laterRound keeps_validatorsInLaterRounds
  keeps_shouldMoveAcks keeps_shouldMovePrecommit keeps_newPacket keeps_countAcks keeps_broadcastPrevious
  keeps_afterAcks keeps_startConsensus keeps_breakglass keeps_packetSigner keeps_packetsToSend keeps_HandleRequest
  keeps_gatherRound : preserves.
#[export] Hint Resolve processPacket_Good HandleConsensusPacket_Good processOutOfOrderPackets_Good getBlockConsensusData_Good
  cleanupBlockState_Good : preserves.
