(* ===== verification/ConsensusRun.v ===== *)
(** The runs of a consensus handler: the blocks it opens, its step on a block, and
    the states it can reach by any sequence of calls.  The theorems are about every
    reachable state and every call made in it.

    Properties of the definitions of Consensus.v. *)

From S2P Require Import Prelude Common Selection Rlp RlpEnc RlpDec Packets Context BlockValidator Certificate Peer Consensus ConsensusInv.
From Stdlib Require Import Strings.Byte.

Section runs.
Context `{FloatConv} `{NodeConfig} `{Crypto} `{DRNG} `{GoRuntime} `{SignatureAlgorithm}.
Context `{Signer} `{P2PHandler} `{Chain} `{NodeFiles}.

Abbreviation C := (M ConsensusHandler).

Ltac frame_modify := intros ? (? & ? & ?); split_and!; handler_simpl; done.
Ltac keeps_steps := preserves_steps; try frame_modify.

(** * A new block *)

(** The entry of a new block while it is set up. *)
Definition entry (me : Address) (B0 : gmap Hash BlockStateDetails) (h : Hash) (c : Hash) (b : BlockStateDetails)
    (s : ConsensusHandler) : Prop :=
  blockStateDetailsMap s = <[h := b]> B0 /\ account s = me /\ currentParentHash s = c.

(** The blocks but for a new one. *)
Definition opened (me : Address) (B0 : gmap Hash BlockStateDetails) (h : Hash) (s : ConsensusHandler) : Prop :=
  Inv me s /\ (blockStateDetailsMap s = B0 \/ B0 !! h = None /\ forall h', h' <> h -> blockStateDetailsMap s !! h' = B0 !! h').

(** A block that has no round yet. *)
Definition pristine (h : Hash) (n : Z) (b : BlockStateDetails) : Prop :=
  bs_parentHash b = h /\ currentRound b = 0 /\ bs_blockNumber b = n /\ blockRoundMap b = ∅.

Lemma keeps_opened {A} me B0 h (m : C A) : (forall c, keeps c m) -> preserves (opened me B0 h) m.
Proof.
  intros Hm w [[Ha HB] Ho]. eapply wp_mono; [by apply (Hm (currentParentHash (w_st w)) (blockStateDetailsMap (w_st w)) me w)|]. intros o w' (HB' & Ha' & _). unfold opened, Inv. by rewrite HB', Ha'.
Qed.

Section newBlock.
Variables (me : Address) (B0 : gmap Hash BlockStateDetails) (h : Hash) (n : Z).
Hypotheses (HB0 : map_Forall (block_ok me) B0) (Hnew : B0 !! h = None).

Lemma entry_opened c b s : entry me B0 h c b s -> pristine h n b -> deposits_ok h b -> opened me B0 h s.
Proof.
  intros (HB & Ha & _) (P1 & P2 & P3 & P4) Hd. split; [split; [done|]|].
  - rewrite HB. apply map_Forall_insert_2; [|done]. split; try done; [by rewrite P2|]. rewrite P4. apply map_Forall_empty.
  - right. split; [done|]. intros h' Hne. by rewrite HB, lookup_insert_ne.
Qed.

Lemma deleteBlock_wp Q w :
  opened me B0 h (w_st w) -> (forall w', opened me B0 h (w_st w') -> Q (Ok ()) w') -> wp (deleteBlock h) Q w.
Proof.
  intros [[Ha HI] Ho] HQ. unfold deleteBlock. apply wp_modify, HQ. split; [split; [done|]|]; handler_simpl.
  - intros h' b' Hl. apply lookup_delete_Some in Hl as [_ Hl]. by apply HI.
  - destruct Ho as [->|[_ Ho]]; [left; by apply delete_id|]. right. split; [done|]. intros h' Hne. rewrite lookup_delete_ne by done. by apply Ho.
Qed.

Lemma wp_modBlock_entry c b g Q w :
  entry me B0 h c b (w_st w) -> (forall w', entry me B0 h c (g b) (w_st w') -> Q (Ok ()) w') -> wp (modBlock h g) Q w.
Proof.
  intros (HB & Ha & Hc) HQ. unfold modBlock. apply wp_modify, HQ. split; [|done]. handler_simpl. by rewrite HB, alter_insert_eq.
Qed.

(** An operation that fails takes the entry away. *)
Lemma wp_orDelete {A} f (m : C A) (Q : outcome A -> World ConsensusHandler -> Prop) w :
  wp m (fun o w' => match o with Ok a => Q (Ok a) w' | Fail _ => opened me B0 h (w_st w') | Panic p => Q (Panic p) w' end) w ->
  (forall e w', opened me B0 h (w_st w') -> Q (Fail e) w') -> wp (orDelete h f m) Q w.
Proof.
  intros Hm HQ. unfold orDelete. wp_norm. apply wp_try. eapply wp_mono; [exact Hm|]. intros [a|e|e] w' Ho; wp_norm; [done| |done].
  eapply deleteBlock_wp; [exact Ho|]. intros w2 Ho2. wp_norm. wp_step. by apply HQ.
Qed.

(** The first round of the new block. *)
Lemma firstRound_wp reason w : opened me B0 h (w_st w) -> currentParentHash (w_st w) = h ->
  wp (initializeNewBlockRound reason) (fun _ w' => opened me B0 h (w_st w')) w.
Proof.
  intros [HI Ho] Hc. eapply wp_mono; [by apply initializeNewBlockRound_at|]. cbn beta. rewrite Hc.
  intros o w' (HI' & _ & [HB|(b & b' & Hb & HB & _)]); (split; [done|]); [by rewrite HB|]. right. split; [done|].
  intros h' Hne. rewrite HB, lookup_insert_ne by done. destruct Ho as [->|[_ Ho]]; [done|]. by apply Ho.
Qed.
End newBlock.

(** The end of the setup, when the validators of the block are stored. *)
Lemma finishBlock_wp me B0 h n c b count w :
  map_Forall (block_ok me) B0 -> B0 !! h = None -> entry me B0 h c b (w_st w) -> pristine h n b -> deposits_ok h b ->
  wp (modify (fun s => s <| currentParentHash := h |>);;
      when (Z.leb CONTEXT_BASED_START_BLOCK n) (
        contextKey ← lift (GetBlockConsensusContextKeyForBlock n);
        blockContext ← ext (fun t => getBlockConsensusContext t contextKey h) ≫= check_err;
        modBlock h (fun b => b <| bs_consensusContext := contextHash blockContext count |>));;
      orDelete h (fun _ => ErrorsNew "min block deposit not met") (initializeNewBlockRound NEW_ROUND_REASON_START);;
      onPeers (SetCurrentParentHash h n);;
      SaveHash h) (fun _ w' => opened me B0 h (w_st w')) w.
Proof.
  intros HB Hnew (HBs & Ha & _) Hpr Hd. wp_step. wp_norm.
  match goal with |- wp _ _ ?W => assert (He : entry me B0 h h b (w_st W)) by done; generalize dependent W end. intros w1 He.
  assert (Hop : forall w b, entry me B0 h h b (w_st w) -> pristine h n b -> deposits_ok h b -> opened me B0 h (w_st w)).
  { intros. by eapply entry_opened. }
  eapply wp_mono with (P := fun o w' => opened me B0 h (w_st w') /\ currentParentHash (w_st w') = h).
  { wp_step; [|split; [by eapply Hop|apply He]]. wp_norm. apply wp_lift.
    destruct (GetBlockConsensusContextKeyForBlock n); [|split; [by eapply Hop|apply He]..]. wp_norm.
    apply wp_ext. intros [ctx|e]; wp_norm; apply wp_check_err; [|split; [by eapply Hop|apply He]]. wp_norm.
    eapply wp_modBlock_entry; [exact He|]. intros w2 He2. split; [by eapply Hop|apply He2]. }
  intros [[]|e|e] w2 [Ho Hc]; [|done..]. wp_norm. apply (wp_orDelete me B0); [done| |done].
  eapply wp_mono; [by apply (firstRound_wp me B0 h)|]. intros [[]|e|e] w3 Ho3; [|done..]. wp_norm. apply wp_bind_inv.
  eapply keeps_opened; [|done]. intros ? ? ?. keeps_steps.
Qed.

Lemma initializeBlockStateIfRequired_wp me h n w :
  Inv me (w_st w) -> wp (initializeBlockStateIfRequired h n) (fun _ w' => opened me (blockStateDetailsMap (w_st w)) h (w_st w')) w.
Proof.
  intros [Ha HB]. unfold initializeBlockStateIfRequired. wp_step. wp_step.
  { wp_step. split; [done|]. by left. }
  set (B0 := blockStateDetailsMap (w_st w)) in *.
  assert (Hnew : B0 !! h = None). { apply bool_decide_eq_false in Heqb. by apply eq_None_not_Some. }
  do 4 wp_step.
  match goal with |- wp _ _ ?W => assert (exists b, entry me B0 h (currentParentHash (w_st w)) b (w_st W) /\ pristine h n b
    /\ filteredValidatorsDepositMap b = ∅) as (b & He & Hpr & Hemp); [|generalize dependent W] end.
  { eexists. split; [split; [reflexivity|done]|]. done. }
  intros w1 He. assert (Hop : forall w b c, entry me B0 h c b (w_st w) -> pristine h n b -> filteredValidatorsDepositMap b = ∅ -> opened me B0 h (w_st w)).
  { intros. eapply entry_opened; try done. by left. }
  apply (wp_orDelete me B0); [done| |done]. wp_norm. unfold wp at 1, ext at 1. set (gv := getValidatorsFn _ h). destruct gv as [vd|e] eqn:Hgv; wp_norm; apply wp_check_err;
    [|by eapply Hop]. wp_norm. cbn zeta.
  wp_norm. apply (wp_orDelete me B0); [done| |done]. wp_use (wp_out _ _ _ (filterValidators_wp _ _ _ _)).
  intros [f|e|e] w2 [[Hst _] Hout]; cbn [w_st] in Hst; rewrite <- Hst in He; [|by eapply Hop..]. symmetry in Hout. wp_norm.
  eapply wp_modBlock_entry; [exact He|]. intros w3 He3. wp_norm.
  eapply wp_mono with (P := fun o w' => exists vdm, entry me B0 h (currentParentHash (w_st w)) (b <| bs_totalBlockDepositValue := fr_depositValue f |>
    <| blockMinWeightedProposalsRequired := fr_minRequired f |> <| bs_validatorDetailsMap := vdm |>) (w_st w')).
  { assert (Hid : entry me B0 h (currentParentHash (w_st w)) (b <| bs_totalBlockDepositValue := fr_depositValue f |>
      <| blockMinWeightedProposalsRequired := fr_minRequired f |> <| bs_validatorDetailsMap := bs_validatorDetailsMap b |>) (w_st w3)) by exact He3.
    apply wp_when; intros _; [|by eexists]. wp_norm. apply wp_ext. intros [ds|e]; wp_norm; apply wp_check_err; [|by eexists]. wp_norm. wp_step.
    eapply wp_modBlock_entry; [exact He3|]. intros w4 He4. by eexists. }
  intros o w4 [vdm He4]. set (b4 := b <| _ := _ |> <| _ := _ |> <| _ := _ |>) in He4.
  assert (Hop4 : opened me B0 h (w_st w4)) by (by eapply Hop).
  destruct o as [[]|e|e]; [|done..]. wp_norm. wp_step.
  { wp_norm. eapply deleteBlock_wp; [done..|]. intros w5 Ho5. by wp_norm. }
  wp_step. eapply wp_modBlock_entry; [exact He4|]. intros w5 He5. wp_norm. apply wp_bind_inv. eapply finishBlock_wp; try done.
  right. exists (w_tick w1), vd, f. eexists. unfold b4. block_simpl. destruct Hpr as (_ & _ & -> & _). by split_and!.
Qed.


(** A block that was opened is the one the handler is at. *)
Lemma wp_any {A} (m : C A) w : wp m (fun _ _ => True) w.
Proof. unfold wp. by destruct (m w). Qed.

Ltac skip := apply wp_bind; eapply wp_mono; [apply wp_any|]; intros [?|?|?] ? _; [|done..]; unfold wp_k at 1.

Lemma preserves_initRound h r : preserves (fun s => currentParentHash s = h) (initializeNewBlockRound r).
Proof. unfold initializeNewBlockRound, theBlock, modBlock. preserves_steps; by intros ? ?. Qed.
Lemma preserves_peers_at {A} h (m : M PeerHandler A) : preserves (fun s => currentParentHash s = h) (onPeers m).
Proof. intros w Hw. unfold onPeers. apply wp_zoom. unfold wp. by destruct (m _). Qed.
#[local] Hint Resolve preserves_initRound preserves_peers_at : preserves.

Lemma initializeBlockStateIfRequired_at h n w :
  wp (initializeBlockStateIfRequired h n) (fun o w' => o = Ok () ->
    blockStateDetailsMap (w_st w) !! h = None \/ currentParentHash (w_st w) = h -> currentParentHash (w_st w') = h) w.
Proof.
  unfold initializeBlockStateIfRequired. apply wp_bind, wp_gets. wp_norm. case_bool_decide as Hnew.
  { apply wp_ret. intros _ [E|E]; [rewrite E in Hnew; by destruct Hnew|done]. }
  do 4 skip. skip. cbn zeta. do 5 skip. apply wp_bind, wp_modify. unfold wp_k at 1.
  eapply wp_mono; [|intros o w1 Hw1 _ _; exact Hw1].
  match goal with |- wp ?m _ _ => assert (Hp : preserves (fun s => currentParentHash s = h) m) end; [|by apply Hp].
  unfold modBlock, orDelete, deleteBlock, SaveHash. preserves_steps; try (by intros ? ?).
Qed.

(** * A step of the node *)

(** What a call may do to a block that stays: its rounds evolve, and the next
    round may begin; if [strict], only from a round that is not committed. *)
Definition block_step (strict : Prop) (b b' : BlockStateDetails) : Prop :=
  exists b1, block_le b b1 /\ (b' = b1 \/ block_next b1 b' /\ (strict -> uncommitted b1)).

Definition Evolved (me : Address) (strict : Prop) (B0 : gmap Hash BlockStateDetails) (s : ConsensusHandler) : Prop :=
  Inv me s /\ forall k b b', B0 !! k = Some b -> blockStateDetailsMap s !! k = Some b' -> block_step strict b b'.

Lemma Moved_Evolved c h me strict B0 B s :
  (forall k b b1, B0 !! k = Some b -> B !! k = Some b1 -> block_le b b1) -> (strict -> c = h) -> Moved c h me B s -> Evolved me strict B0 s.
Proof.
  intros HB Hs (HI & _ & B1 & Hle & Hn). split; [done|]. intros k b b' Hb Hb'.
  assert (Hback : forall b1, B1 !! k = Some b1 -> block_le b b1).
  { intros b1 Hb1. destruct (Hle k b1 Hb1) as (b2 & Hb2 & L). etrans; [by eapply HB|done]. }
  destruct Hn as [E|(b0 & b0' & Hc & E & Hnext & Hun)]; rewrite E in Hb'.
  - exists b'. split; [by apply Hback|by left].
  - destruct (decide (k = c)) as [->|Hne].
    + rewrite lookup_insert_eq in Hb'. injection Hb' as <-. exists b0. split; [by apply Hback|]. right.
      split; [done|]. intros Hst. apply Hun. symmetry. by apply Hs.
    + rewrite lookup_insert_ne in Hb' by done. exists b'. split; [by apply Hback|by left].
Qed.

Lemma Inv_Good me s : Inv me s -> Good (currentParentHash s) me (blockStateDetailsMap s) s.
Proof. intros HI. split; [done|]. by split. Qed.

(** The round step, once the block is open. *)
Lemma openStep_wp c me h txns n w :
  Inv me (w_st w) -> currentParentHash (w_st w) = c ->
  wp (b ← theBlock h;
      fail_if (negb (isFiltered b me)) (ErrorsNew "not a validator in this block");;
      shouldPropose ← isBlockProposer h (currentRound b) b;
      processOutOfOrderPackets h;;
      stepRound h txns n shouldPropose)
    (fun _ w' => Moved c h me (blockStateDetailsMap (w_st w)) (w_st w')) w.
Proof.
  intros HI <-. apply Inv_Good in HI as HG. unfold theBlock at 1. wp_norm. wp_step. wp_norm. apply wp_must.
  destruct (_ !! h) as [b|] eqn:Hb; [|by apply Good_Moved]. wp_norm. apply wp_fail_if; intros Hf; [by apply Good_Moved|].
  apply isFiltered_dom in Hf. wp_norm. eapply wp_mono; [eapply keeps_Good; [|exact HG]; intros ? ?; auto with preserves|].
  intros [sp|e|e] w1 HG1; [|by apply Good_Moved..]. wp_norm. eapply wp_mono; [by apply processOutOfOrderPackets_Good|].
  intros [[]|e|e] w2 HG2; [|by apply Good_Moved..]. unfold wp_k at 1.
  destruct (blockStateDetailsMap (w_st w2) !! h) as [b2|] eqn:Hb2.
  2:{ unfold stepRound, theBlock. wp_norm. wp_step. rewrite Hb2. by apply Good_Moved. }
  destruct (blockRoundMap b2 !! currentRound b2) as [rd|] eqn:Hrd.
  2:{ unfold stepRound, theRound. wp_norm. eapply wp_theBlock; [done|]. wp_norm. eapply wp_theBlock; [done|]. wp_norm.
      rewrite Hrd. by apply Good_Moved. }
  eapply stepRound_wp; [done|by split|]. destruct HG2 as (_ & Hle & _). destruct (Hle h b2 Hb2) as (b0 & Hb0 & -> & _).
  rewrite Hb in Hb0. by injection Hb0 as <-.
Qed.

Lemma keeps_SetLatest c B a n : preserves (frame c B a) (SetLatestBlockNumber n).
Proof. unfold SetLatestBlockNumber. keeps_steps. Qed.
#[local] Hint Resolve keeps_SetLatest : preserves.
#[local] Hint Extern 1 (preserves (frame _ _ _) (modify _)) => (apply preserves_modify; frame_modify) : preserves.

(** Nothing has happened to the blocks yet. *)
Definition untouched (me : Address) (s0 s : ConsensusHandler) : Prop :=
  Inv me s /\ blockStateDetailsMap s = blockStateDetailsMap s0 /\ currentParentHash s = currentParentHash s0.

Lemma wp_keeps_untouched {A} me s0 (m : C A) Q w :
  untouched me s0 (w_st w) -> (forall c, keeps c m) -> (forall o w', untouched me s0 (w_st w') -> Q o w') -> wp m Q w.
Proof.
  intros (HI & HB & Hc) Hm HQ. eapply wp_keeps; [done|apply Hm|]. intros o w' (HB' & Ha' & Hc'). apply HQ.
  unfold untouched, Inv in *. rewrite HB', Ha'. naive_solver.
Qed.

Lemma untouched_Evolved me strict s0 s : untouched me s0 s -> Evolved me strict (blockStateDetailsMap s0) s.
Proof.
  intros (HI & HB & _). split; [done|]. intros k b b' Hb Hb'. rewrite HB, Hb in Hb'. injection Hb' as <-. exists b. split; [done|by left].
Qed.

Ltac untouched_step :=
  wp_norm; eapply wp_keeps_untouched; [eassumption|intros ? ? ?; solve [keeps_steps]|intros [?|?|?] ? ?]; wp_norm.

Lemma opened_back me B0 h s k b b' : opened me B0 h s -> B0 !! k = Some b -> blockStateDetailsMap s !! k = Some b' -> b' = b.
Proof.
  intros [_ [E|[Hnew Ho]]] Hb Hb'; [by rewrite E, Hb in Hb'; injection Hb'|].
  rewrite Ho in Hb' by (intros ->; congruence). rewrite Hb in Hb'. by injection Hb'.
Qed.

Lemma HandleConsensus_wp me h txns n w :
  Inv me (w_st w) ->
  wp (HandleConsensus h txns n) (fun _ w' =>
    Evolved me (blockStateDetailsMap (w_st w) !! h = None \/ currentParentHash (w_st w) = h) (blockStateDetailsMap (w_st w)) (w_st w')) w.
Proof.
  intros HI. assert (Hu : untouched me (w_st w) (w_st w)) by done. set (strict := _ \/ _).
  pose proof (fun s => untouched_Evolved me strict (w_st w) s) as Hend.
  unfold HandleConsensus. untouched_step; [|by apply Hend..]. untouched_step; [|by apply Hend..]. wp_step.
  destruct (negb _); [untouched_step; by apply Hend|]. untouched_step; [|by apply Hend..]. untouched_step; [|by apply Hend..].
  apply wp_fail_if; intros _; [by apply Hend|]. wp_norm.
  match goal with |- context [isFiltered _ (account ?s')] =>
    assert (Ha : account s' = me) by (match goal with Ht' : untouched me (w_st w) s' |- _ => apply Ht' end) end.
  rewrite Ha. match goal with Ht : untouched me (w_st w) (w_st ?w') |- wp _ _ ?w' => destruct Ht as (HI' & HB' & Hc') end.
  eapply wp_mono; [apply wp_conj; [by apply initializeBlockStateIfRequired_wp|apply initializeBlockStateIfRequired_at]|].
  rewrite HB', Hc'. cbn beta. intros o1 w2 [Ho Hat].
  assert (Hev : Evolved me strict (blockStateDetailsMap (w_st w)) (w_st w2)).
  { split; [apply Ho|]. intros k b b' Hb Hb'. rewrite (opened_back _ _ _ _ _ _ _ Ho Hb Hb'). exists b. split; [done|by left]. }
  destruct o1 as [[]|e|e]; [|done..]. wp_norm.
  eapply wp_mono; [apply cleanupBlockState_Good, Inv_Good, Ho|]. intros o3 w3 HG3.
  assert (Hback : forall k b b1, blockStateDetailsMap (w_st w) !! k = Some b -> blockStateDetailsMap (w_st w3) !! k = Some b1 -> block_le b b1).
  { intros k b b1 Hb Hb1. destruct HG3 as (_ & Hle & _). destruct (Hle k b1 Hb1) as (b2 & Hb2 & L).
    by rewrite (opened_back _ _ _ _ _ _ _ Ho Hb Hb2) in L. }
  assert (Hat' : strict -> currentParentHash (w_st w3) = h).
  { intros Hs. destruct HG3 as (_ & _ & ->). by apply Hat. }
  destruct o3 as [[]|e|e]; [|eapply Moved_Evolved; [exact Hback|exact Hat'|]; apply Good_Moved, Inv_Good, HG3..]. unfold wp_k at 1.
  eapply wp_mono; [eapply openStep_wp; [apply HG3|reflexivity]|]. intros o4 w4 HM. by eapply Moved_Evolved.
Qed.

(** * Reachable states *)

(** The calls that reach the handler: the miner's step, packets and requests of
    peers, the block builder, and the peer events. *)
Inductive call :=
| call_HandleConsensus (parentHash : Hash) (txns : list Hash) (blockNumber : Z)
| call_HandleConsensusPacket (packet : ConsensusPacket) (peer : PeerId)
| call_HandleRequestConsensusDataPacket (packet : RequestConsensusDataPacket)
| call_getBlockConsensusData (parentHash : Hash)
| call_OnPeerConnected (peer : PeerId)
| call_OnPeerDisconnected (peer : PeerId)
| call_SetP2PHandler (localPeer : PeerId).

Definition perform (cl : call) : C unit :=
  match cl with
  | call_HandleConsensus h txns n => HandleConsensus h txns n
  | call_HandleConsensusPacket p peer => HandleConsensusPacket p peer
  | call_HandleRequestConsensusDataPacket p => HandleRequestConsensusDataPacket p;; mret ()
  | call_getBlockConsensusData h => getBlockConsensusData h;; mret ()
  | call_OnPeerConnected peer => h_OnPeerConnected peer
  | call_OnPeerDisconnected peer => h_OnPeerDisconnected peer
  | call_SetP2PHandler peer => SetP2PHandler peer
  end.

(** A node starts without blocks, with the account it signs for; every call may
    succeed or fail. *)
Inductive reachable (me : Address) : World ConsensusHandler -> Prop :=
| reach_start t relay file : reachable me (mkWorld t (exec (Authorize me) (mkWorld t (NewConsensusPacketHandler relay file))))
| reach_call cl w : reachable me w -> reachable me (snd (perform cl w)).

(** The step is about a block that is new, or that the handler is at. *)
Definition strict_call (cl : call) (s : ConsensusHandler) : Prop :=
  match cl with
  | call_HandleConsensus h _ _ => blockStateDetailsMap s !! h = None \/ currentParentHash s = h
  | _ => True
  end.

Lemma Good_Evolved c me strict B0 s : Good c me B0 s -> Evolved me strict B0 s.
Proof.
  intros (HI & Hle & _). split; [done|]. intros k b b' Hb Hb'. destruct (Hle k b' Hb') as (b0 & Hb0 & L).
  rewrite Hb in Hb0. injection Hb0 as <-. exists b'. split; [done|by left].
Qed.

Lemma Good_call {A} me strict (m : C A) w :
  Inv me (w_st w) -> (forall c B0, preserves (Good c me B0) m) -> wp m (fun _ w' => Evolved me strict (blockStateDetailsMap (w_st w)) (w_st w')) w.
Proof.
  intros HI Hm. eapply wp_mono; [apply Hm, Inv_Good, HI|]. intros o w' HG. eapply Good_Evolved, HG.
Qed.

Lemma keeps_call {A} me c B0 (m : C A) : (forall c, keeps c m) -> preserves (Good c me B0) m.
Proof. intros Hm. apply keeps_Good, Hm. Qed.

Lemma perform_wp me cl w :
  Inv me (w_st w) ->
  wp (perform cl) (fun _ w' => Evolved me (strict_call cl (w_st w)) (blockStateDetailsMap (w_st w)) (w_st w')) w.
Proof.
  intros HI. destruct cl; simpl.
  - by apply HandleConsensus_wp.
  - apply Good_call; [done|]. intros. auto with preserves.
  - apply Good_call; [done|]. intros. apply keeps_call. intros ? ? ?. keeps_steps.
  - apply Good_call; [done|]. intros. preserves_steps.
  - apply Good_call; [done|]. intros. apply keeps_call. intros ? ? ?. unfold h_OnPeerConnected. keeps_steps.
  - apply Good_call; [done|]. intros. apply keeps_call. intros ? ? ?. unfold h_OnPeerDisconnected. keeps_steps.
  - apply Good_call; [done|]. intros. apply keeps_call. intros ? ? ?. unfold SetP2PHandler. keeps_steps.
Qed.

Lemma perform_Evolved me cl w : Inv me (w_st w) ->
  Evolved me (strict_call cl (w_st w)) (blockStateDetailsMap (w_st w)) (w_st (snd (perform cl w))).
Proof. intros HI. pose proof (perform_wp me cl w HI) as Hw. unfold wp in Hw. by destruct (perform cl w). Qed.

Lemma reachable_Inv me w : reachable me w -> Inv me (w_st w).
Proof.
  induction 1 as [t relay file|cl w _ IH].
  - split; [done|]. apply map_Forall_empty.
  - by apply perform_Evolved.
Qed.

(** * Properties of every run *)

(** The voters of a set each stand behind a packet that says [a]. *)
Definition allVoted {A} `{RlpStruct A} (me : Address) (h : Hash) (ty : Z) (a : A) (V : gset Address) : Prop :=
  forall v, v ∈ V -> exists p, votePacket me h ty a v p.

Lemma counted_allVoted {A} `{RlpStruct A} me h deps ty packets (P : A -> Prop) a (votes : gmap Address A) :
  counted me h deps ty packets P votes -> (forall x, P x -> x = a) -> allVoted me h ty a (dom votes).
Proof.
  intros Hc Ha v [x Hx]%elem_of_dom. destruct (Hc v x Hx) as ([_ HP] & p & _ & Hp). exists p. by rewrite <- (Ha x HP).
Qed.

Lemma reachable_round me w h b r rd :
  reachable me w -> blockStateDetailsMap (w_st w) !! h = Some b -> blockRoundMap b !! r = Some rd ->
  block_ok me h b /\ round_ok me h (filteredValidatorsDepositMap b) (blockMinWeightedProposalsRequired b) (bs_blockNumber b) r rd.
Proof.
  intros Hre Hb Hrd. apply reachable_Inv in Hre as [_ HB]. pose proof (HB _ _ Hb) as Hok. split; [done|].
  by apply (bo_rounds _ _ _ Hok).
Qed.

(** C2: a decided round has its certificate.  Whatever packets a node receives and
    however its calls interleave, a round that it holds decided is backed by
    validators of the block with the required deposit that each signed a precommit
    of the node's hash in this round, and by validators with the required deposit
    that each signed the matching commit; the hash follows from the proposal the
    node received, or is that of the NIL vote. *)
Theorem decided_round_certified me (w : World ConsensusHandler) h b r rd
  (Hre : reachable me w) (Hb : blockStateDetailsMap (w_st w) !! h = Some b) (Hrd : blockRoundMap b !! r = Some rd)
  (Hst : rd_state rd = BLOCK_STATE_RECEIVED_COMMITS) :
  exists precommitters committers : gset Address,
    precommitters ∪ committers ⊆ dom (filteredValidatorsDepositMap b)
    /\ blockMinWeightedProposalsRequired b <= weight (filteredValidatorsDepositMap b) precommitters
    /\ blockMinWeightedProposalsRequired b <= weight (filteredValidatorsDepositMap b) committers
    /\ allVoted me h CONSENSUS_PACKET_TYPE_PRECOMMIT_BLOCK (mkPreCommitDetails (rd_precommitHash rd) r) precommitters
    /\ allVoted me h CONSENSUS_PACKET_TYPE_COMMIT_BLOCK (mkCommitDetails (getCommitHash (rd_precommitHash rd)) r) committers
    /\ vote_ok h (bs_blockNumber b) r rd.
Proof.
  destruct (reachable_round _ _ _ _ _ _ Hre Hb Hrd) as [_ Hok].
  pose proof (counted_dom _ _ _ _ _ _ _ (ro_precommits _ _ _ _ _ _ _ Hok)).
  pose proof (counted_dom _ _ _ _ _ _ _ (ro_commits _ _ _ _ _ _ _ Hok)).
  exists (dom (validatorPrecommits rd)), (dom (validatorCommits rd)). split; [set_solver|].
  split; [apply Hok; by rewrite Hst|]. split; [apply Hok; by rewrite Hst|].
  split; [|split; [|apply Hok; by rewrite Hst]]; (eapply counted_allVoted; [apply Hok|]); by intros ? [_ ?].
Qed.

(** The validators of a block, as the chain and the filter give them. *)
Lemma deposits_filter h b : deposits_ok h b -> filteredValidatorsDepositMap b <> ∅ ->
  exists t vd f (wf : World ConsensusHandler), getValidatorsFn t h = inl vd /\ out (filterValidators h vd (bs_blockNumber b)) wf = Ok f
    /\ filter_spec vd (bs_blockNumber b) f /\ filteredValidatorsDepositMap b = selectedDeposits f
    /\ blockMinWeightedProposalsRequired b = fr_minRequired f /\ bs_totalBlockDepositValue b = fr_depositValue f.
Proof.
  intros [?|(t & vd & f & wf & Hvd & Hf & Hd)] Hne; [done|]. exists t, vd, f, wf. split; [done|]. split; [done|]. split; [|done].
  pose proof (filterValidators_wp h vd (bs_blockNumber b) wf) as [_ Ho]%wp_run. rewrite Hf in Ho. by apply filter_outcome_ok in Ho.
Qed.

(** C1: agreement of nodes, up to double signing.  If two nodes hold the same round
    of the same block decided with different hashes, then validators holding more
    than (2 * percentage - 100)% of the deposits signed precommits of both hashes in
    that round; it is assumed that the chain gives both nodes the same validators of
    the parent block, and that the hash that orders them has no collision. *)
Theorem decided_rounds_accountable me1 me2 (w1 w2 : World ConsensusHandler) h b1 b2 r rd1 rd2
  (Hre1 : reachable me1 w1) (Hre2 : reachable me2 w2)
  (Hb1 : blockStateDetailsMap (w_st w1) !! h = Some b1) (Hb2 : blockStateDetailsMap (w_st w2) !! h = Some b2)
  (Hrd1 : blockRoundMap b1 !! r = Some rd1) (Hrd2 : blockRoundMap b2 !! r = Some rd2)
  (Hst1 : rd_state rd1 = BLOCK_STATE_RECEIVED_COMMITS) (Hst2 : rd_state rd2 = BLOCK_STATE_RECEIVED_COMMITS)
  (Hv1 : filteredValidatorsDepositMap b1 <> ∅) (Hv2 : filteredValidatorsDepositMap b2 <> ∅)
  (Hchain : forall t1 t2, getValidatorsFn t1 h = getValidatorsFn t2 h)
  (Hinj : forall t vd x y, getValidatorsFn t h = inl vd -> x ∈ dom vd -> y ∈ dom vd -> filterKey h x = filterKey h y -> x = y)
  (Hnumber : bs_blockNumber b1 = bs_blockNumber b2)
  (Hdiff : rd_precommitHash rd1 <> rd_precommitHash rd2) :
  exists D, D ⊆ dom (filteredValidatorsDepositMap b1) /\ D <> ∅
    /\ (2 * minPercentage (bs_blockNumber b1) - 100) * bs_totalBlockDepositValue b1 - 200
       < 100 * weight (filteredValidatorsDepositMap b1) D
    /\ allVoted me1 h CONSENSUS_PACKET_TYPE_PRECOMMIT_BLOCK (mkPreCommitDetails (rd_precommitHash rd1) r) D
    /\ allVoted me2 h CONSENSUS_PACKET_TYPE_PRECOMMIT_BLOCK (mkPreCommitDetails (rd_precommitHash rd2) r) D.
Proof.
  destruct (reachable_round _ _ _ _ _ _ Hre1 Hb1 Hrd1) as [Bok1 Rok1].
  destruct (reachable_round _ _ _ _ _ _ Hre2 Hb2 Hrd2) as [Bok2 Rok2].
  destruct (deposits_filter _ _ (bo_deposits _ _ _ Bok1) Hv1) as (t1 & vd & f & wf1 & Hvd1 & Hf1 & Hs & Hd1 & Hreq1 & ->).
  destruct (deposits_filter _ _ (bo_deposits _ _ _ Bok2) Hv2) as (t2 & vd2 & f2 & wf2 & Hvd2 & Hf2 & _ & Hd2 & Hreq2 & _).
  rewrite (Hchain t2 t1), Hvd1 in Hvd2. injection Hvd2 as <-.
  rewrite <- Hnumber, (filterValidators_same _ _ h vd _ wf2 wf1), Hf1 in Hf2 by (intros x y; by apply (Hinj t1)). injection Hf2 as <-.
  pose proof (counted_dom _ _ _ _ _ _ _ (ro_precommits _ _ _ _ _ _ _ Rok1)) as HX.
  pose proof (counted_dom _ _ _ _ _ _ _ (ro_precommits _ _ _ _ _ _ _ Rok2)) as HY.
  pose proof (ro_precommit_quorum _ _ _ _ _ _ _ Rok1 ltac:(by rewrite Hst1)) as QX.
  pose proof (ro_precommit_quorum _ _ _ _ _ _ _ Rok2 ltac:(by rewrite Hst2)) as QY.
  rewrite Hd1, (selectedDeposits_dom vd _ f Hs) in HX. rewrite Hd2, (selectedDeposits_dom vd _ f Hs) in HY.
  rewrite Hd1, Hreq1, (selectedDeposits_weight vd _ f Hs) in QX by done. rewrite Hd2, Hreq2, (selectedDeposits_weight vd _ f Hs) in QY by done.
  destruct (quorum_overlap vd _ f Hs _ _ HX HY QX QY) as [Hw Hne].
  exists (dom (validatorPrecommits rd1) ∩ dom (validatorPrecommits rd2)).
  rewrite Hd1, (selectedDeposits_dom vd _ f Hs), (selectedDeposits_weight vd _ f Hs) by set_solver.
  split; [set_solver|]. split; [done|]. split; [done|].
  split; intros v [Hv1' Hv2']%elem_of_intersection.
  - eapply counted_allVoted; [apply Rok1| |done]. by intros ? [_ ?].
  - eapply counted_allVoted; [apply Rok2| |done]. by intros ? [_ ?].
Qed.

Lemma option_Forall2_Some {A} (R : A -> A -> Prop) x o : option_Forall2 R (Some x) o -> exists y, o = Some y /\ R x y.
Proof. intros Ho. inversion Ho. eauto. Qed.

(** C16: a vote is not changed.  Whatever call is made in a reachable state, a round
    that stays never goes back; from the precommits on its hash and its vote are
    fixed; and the node's own acknowledgement, once given, is never replaced.  Only
    the round that the round counter comes to next, 0 after 255, is written anew. *)
Theorem votes_are_final me (w : World ConsensusHandler) cl h b b' r rd
  (Hre : reachable me w) (Hb : blockStateDetailsMap (w_st w) !! h = Some b)
  (Hb' : blockStateDetailsMap (w_st (snd (perform cl w))) !! h = Some b')
  (Hrd : blockRoundMap b !! r = Some rd) (Hr : r <> u8 (currentRound b + 1)) :
  exists rd', blockRoundMap b' !! r = Some rd' /\ rd_state rd <= rd_state rd'
    /\ (BLOCK_STATE_WAITING_FOR_PRECOMMITS <= rd_state rd ->
        rd_precommitHash rd' = rd_precommitHash rd /\ blockVoteType rd' = blockVoteType rd)
    /\ (selfAckd rd = true -> selfAckd rd' = true /\ selfAckPacket rd' = selfAckPacket rd).
Proof.
  pose proof (perform_Evolved me cl w (reachable_Inv me w Hre)) as [_ Hev].
  destruct (Hev h b b' Hb Hb') as (b1 & (_ & _ & _ & Hcur & Hle) & Hnext). specialize (Hle r). rewrite Hrd in Hle.
  apply option_Forall2_Some in Hle as (rd' & Hrd' & [? ? ?]). exists rd'. split; [|done].
  destruct Hnext as [->|[(_ & _ & _ & Hcur' & rd0 & _ & Hmap) _]]; [done|].
  rewrite Hmap, lookup_insert_ne; [done|]. by rewrite Hcur', Hcur.
Qed.

(** C17: a node that sent its commit stays in its round.  As long as the steps of the
    miner are about a block that is new or that the handler is at, whatever call is
    made, the current round of a block that waits for commits, or is decided,
    remains the current round, with its hash and its vote. *)
Theorem committed_round_is_final me (w : World ConsensusHandler) cl h b b' rd
  (Hre : reachable me w) (Hstrict : strict_call cl (w_st w))
  (Hb : blockStateDetailsMap (w_st w) !! h = Some b)
  (Hb' : blockStateDetailsMap (w_st (snd (perform cl w))) !! h = Some b')
  (Hrd : blockRoundMap b !! currentRound b = Some rd) (Hst : BLOCK_STATE_WAITING_FOR_COMMITS <= rd_state rd) :
  currentRound b' = currentRound b /\ exists rd', blockRoundMap b' !! currentRound b = Some rd'
    /\ rd_state rd <= rd_state rd' /\ rd_precommitHash rd' = rd_precommitHash rd /\ blockVoteType rd' = blockVoteType rd.
Proof.
  pose proof (perform_Evolved me cl w (reachable_Inv me w Hre)) as [_ Hev].
  destruct (Hev h b b' Hb Hb') as (b1 & (_ & _ & _ & Hcur & Hle) & Hnext). specialize (Hle (currentRound b)). rewrite Hrd in Hle.
  apply option_Forall2_Some in Hle as (rd' & Hrd' & [Hs Hv _]).
  destruct Hnext as [->|[_ Hun]].
  - split; [done|]. exists rd'. split; [done|]. split; [done|]. apply Hv. etrans; [|exact Hst]. done.
  - destruct (Hun Hstrict) as (rd0 & Hrd0 & Hlt). rewrite Hcur, Hrd' in Hrd0. injection Hrd0 as <-. lia.
Qed.

(** C19: a quorum is noticed at once.  In every reachable state, a round in which the
    node sent its own commit and has counted commits of the required deposit is
    decided, and one in which it sent its precommit and has counted precommits of
    the required deposit waits for the commits or is decided. *)
Theorem quorum_is_noticed me (w : World ConsensusHandler) h b r rd
  (Hre : reachable me w) (Hb : blockStateDetailsMap (w_st w) !! h = Some b) (Hrd : blockRoundMap b !! r = Some rd)
  (Hv : filteredValidatorsDepositMap b <> ∅) :
  (selfCommited rd = true -> blockMinWeightedProposalsRequired b <= weight (filteredValidatorsDepositMap b) (dom (validatorCommits rd)) ->
     rd_state rd = BLOCK_STATE_RECEIVED_COMMITS)
  /\ (selfPrecommited rd = true ->
     blockMinWeightedProposalsRequired b <= weight (filteredValidatorsDepositMap b) (dom (validatorPrecommits rd)) ->
     BLOCK_STATE_WAITING_FOR_COMMITS <= rd_state rd).
Proof.
  destruct (reachable_round _ _ _ _ _ _ Hre Hb Hrd) as [Bok Rok].
  destruct (deposits_filter _ _ (bo_deposits _ _ _ Bok) Hv) as (t & vd & f & wf & _ & _ & Hs & _ & Hreq & _).
  pose proof (required_pos vd _ f Hs) as Hpos. rewrite <- Hreq in Hpos.
  pose proof (ro_prompt_commit _ _ _ _ _ _ _ Rok). pose proof (ro_prompt_precommit _ _ _ _ _ _ _ Rok).
  pose proof (ro_state _ _ _ _ _ _ _ Rok). unfold BLOCK_STATE_RECEIVED_COMMITS, BLOCK_STATE_WAITING_FOR_COMMITS,
    BLOCK_STATE_WAITING_FOR_PRECOMMITS in *.
  split; intros Hself Hq; [destruct (decide (rd_state rd <= 4))|destruct (decide (rd_state rd <= 3))]; try lia.
  - specialize (H9 Hself ltac:(done) Hpos). lia.
  - specialize (H10 Hself ltac:(done) Hpos). lia.
Qed.

(** The data that [getBlockConsensusData] returns. *)
Lemma getBlockConsensusData_wp h b w : blockStateDetailsMap (w_st w) !! h = Some b ->
  wp (getBlockConsensusData h) (fun o _ => forall bcd badd, o = Ok (bcd, badd) ->
    exists rd f, blockRoundMap b !! currentRound b = Some rd /\ rd_state rd = BLOCK_STATE_RECEIVED_COMMITS
      /\ bcd_Round bcd = currentRound b /\ bcd_VoteType bcd = blockVoteType rd /\ bcd_PrecommitHash bcd = rd_precommitHash rd
      /\ certificate h (filteredValidatorsDepositMap b) (bs_validatorDetailsMap b)
           (if Z.eqb (blockVoteType rd) VOTE_TYPE_NIL then [] else data (proposalTxns rd)) bcd (data (ConsensusPackets badd))
           (bs_blockNumber b) (bs_consensusContext b) f) w.
Proof.
  intros Hb. unfold getBlockConsensusData. wp_step. rewrite Hb. apply wp_bind, wp_fail_if; intros _; [done|].
  wp_norm. apply wp_must. destruct (blockRoundMap b !! currentRound b) as [rd|] eqn:Hrd; [|done]. wp_norm.
  cbn zeta. apply wp_fail_if; intros Hst; [done|]. wp_norm. apply wp_fail_if; intros _; [done|]. wp_norm.
  apply negb_false_iff, Z.eqb_eq in Hst.
  eapply wp_mono with (P := fun _ w' => w_st w' = w_st w).
  { destruct (Z.eqb _ _); [wp_norm; apply wp_must; case_match|]; by wp_norm. }
  intros [[[[proposer hash] selected] time]|e|e] w1 Hst1; [|done..]. wp_norm.
  eapply wp_keeps with (c := currentParentHash (w_st w1)); [done|intros ? ?; solve [keeps_steps]|].
  intros [[packets slashed]|e|e] w2 (HB2 & _); [|done..]. wp_norm. unfold onValidators. apply wp_zoom. rewrite HB2, Hst1, Hb.
  eapply wp_mono; [apply ValidateBlockConsensusDataInner_wp|]. intros [[]|e|e] w3 Hc; [|done..]. wp_norm. apply wp_ret.
  intros bcd badd [= <- <-]. destruct (Hc eq_refl) as (f & _ & _ & Hcert). exists rd, f. split_and!; try done.
  revert Hcert. cbn [w_st vm_deposits vm_details]. by destruct (Z.eqb (blockVoteType rd) VOTE_TYPE_NIL).
Qed.

(** C18: a node only builds blocks that others can accept.  When
    [getBlockConsensusData] returns the consensus data of a block, in any reachable
    state, the block's current round is decided, the data is about that round, its
    vote and its hash, and it carries the certificate that
    [ValidateBlockConsensusDataInner] asks for: signed acknowledgements, precommits
    and commits of the required deposits. *)
Theorem built_block_certified me (w : World ConsensusHandler) h b bcd badd
  (Hre : reachable me w) (Hb : blockStateDetailsMap (w_st w) !! h = Some b)
  (Hok : out (getBlockConsensusData h) w = Ok (bcd, badd)) :
  exists rd f, blockRoundMap b !! currentRound b = Some rd /\ rd_state rd = BLOCK_STATE_RECEIVED_COMMITS
    /\ bcd_Round bcd = currentRound b /\ bcd_VoteType bcd = blockVoteType rd /\ bcd_PrecommitHash bcd = rd_precommitHash rd
    /\ vote_ok h (bs_blockNumber b) (currentRound b) rd
    /\ certificate h (filteredValidatorsDepositMap b) (bs_validatorDetailsMap b)
         (if Z.eqb (blockVoteType rd) VOTE_TYPE_NIL then [] else data (proposalTxns rd)) bcd (data (ConsensusPackets badd))
         (bs_blockNumber b) (bs_consensusContext b) f.
Proof.
  pose proof (getBlockConsensusData_wp h b w Hb) as Hw%wp_run. destruct (Hw _ _ Hok) as (rd & f & Hrd & Hst & Hx).
  destruct (reachable_round _ _ _ _ _ _ Hre Hb Hrd) as [_ Rok]. exists rd, f. split_and!; try apply Hx; try done.
  apply (ro_vote _ _ _ _ _ _ _ Rok). by rewrite Hst.
Qed.
End runs.

(** * Closed runs *)

Section examples.
#[local] Existing Instances zeroFloat threeValidators windowHash zeroDRNG plainSignatures plainSigner openNetwork.

Lemma one_range (t : nat) n : 0 < n -> 0 <= Z.min 1 (n - 1) < n.
Proof. lia. Qed.

(** A clock that takes 10s between readings until the startup delay is over, and
    1s from then on. *)
Definition readyRuntime : GoRuntime := {|
  Now := fun t => if Nat.ltb t 20 then 10000000000 * Z.of_nat t else 200000000000 + 1000000000 * Z.of_nat t;
  map_order := fun _ _ l => l;
  rand_Intn := fun _ n => Z.min 1 (n - 1);
  map_order_perm := fun _ _ l => Permutation_refl l;
  rand_Intn_range := one_range |}.

(** Every block has the same four validators. *)
Definition fourValidators : Chain := {|
  getValidatorsFn := fun _ _ => inl (exampleDeposits 4 MIN_BLOCK_DEPOSIT);
  listValidatorsFn := fun _ _ => inl ∅;
  doesFinalizedTransactionExistFn := fun _ _ => inl false;
  getBlockConsensusContext := fun _ _ _ => inl (arr_zero 32) |}.

Definition plainFiles : NodeFiles := {|
  env_SKIP_HASH_CHECK := fun _ => true; ReadFile_error := fun _ => None; SaveFile_error := fun _ => None;
  breakglass_file_exists := fun _ _ => false |}.
#[local] Existing Instances readyRuntime fourValidators plainFiles.

Definition startNode (me : Address) : World ConsensusHandler :=
  mkWorld 0 (exec (Authorize me) (mkWorld 0 (NewConsensusPacketHandler false None))).
Definition runCalls (w : World ConsensusHandler) (cls : list call) : World ConsensusHandler :=
  foldl (fun w cl => snd (perform cl w)) w cls.

Lemma runCalls_reachable me w cls : reachable me w -> reachable me (runCalls w cls).
Proof. revert w. induction cls as [|cl cls IH]; intros w Hw; [done|]. apply IH. by constructor. Qed.

Definition step (h : Hash) : call := call_HandleConsensus h [addr 7] 100.

(** A packet of the [v]-th validator. *)
Definition vote {A} `{RlpStruct A} (h : Hash) (ty : Z) (a : A) (v : Z) : call :=
  call_HandleConsensusPacket (mkConsensusPacket h (Some (arr_bytes (addr v) ++ replicate 2560 Byte.x01))
    (Some (dataToSend 0 ty (match rlp_EncodeToBytes a with Ok b => b | _ => [] end)))) [Byte.x05].

(** The packets of the voters [vs] in the three phases of the first round, for the
    proposal of the first validator or for the NIL vote. *)
Definition ackedHash (h : Hash) (ok : bool) : Hash :=
  if ok then votedHash h 1 VOTE_TYPE_OK [addr 7] 100 0 else getNilVoteProposalHash h 1.
Definition precommitted (h : Hash) (ok : bool) : Hash :=
  if ok then getOkVotePreCommitHash h (ackedHash h true) 1 else getNilVotePreCommitHash h 1.
Definition acks (h : Hash) (ok : bool) (vs : list Z) : list call :=
  map (vote h CONSENSUS_PACKET_TYPE_ACK_BLOCK_PROPOSAL
    (mkProposalAckDetails (ackedHash h ok) (if ok then VOTE_TYPE_OK else VOTE_TYPE_NIL) 1)) vs.
Definition precommits (h : Hash) (ok : bool) (vs : list Z) : list call :=
  map (vote h CONSENSUS_PACKET_TYPE_PRECOMMIT_BLOCK (mkPreCommitDetails (precommitted h ok) 1)) vs.
Definition commits (h : Hash) (ok : bool) (vs : list Z) : list call :=
  map (vote h CONSENSUS_PACKET_TYPE_COMMIT_BLOCK (mkCommitDetails (getCommitHash (precommitted h ok)) 1)) vs.

Definition begin (h : Hash) : list call := [call_SetP2PHandler [Byte.x06]; step h; step h; step h; step h].
Definition decide_calls (h : Hash) (ok : bool) (vs : list Z) : list call :=
  begin h ++ acks h ok vs ++ [step h; step h] ++ precommits h ok vs ++ [step h] ++ commits h ok vs.

(** The first validator decides its proposal; the second, which does not hear of
    it, decides the NIL vote with the same two others. *)
Definition parent : Hash := addr 77.
Definition okNode : World ConsensusHandler := runCalls (startNode (addr 1)) (decide_calls parent true [2; 3; 4]).
Definition nilNode : World ConsensusHandler := runCalls (startNode (addr 2)) (decide_calls parent false [1; 3; 4]).

Lemma okNode_reachable : reachable (addr 1) okNode.
Proof. apply runCalls_reachable, (reach_start (addr 1) 0 false None). Qed.
Lemma nilNode_reachable : reachable (addr 2) nilNode.
Proof. apply runCalls_reachable, (reach_start (addr 2) 0 false None). Qed.

(** The block [h] and its first round, with what can be computed of them. *)
Definition firstRound (w : World ConsensusHandler) (h : Hash) : option (BlockStateDetails * BlockRoundDetails) :=
  b ← blockStateDetailsMap (w_st w) !! h; rd ← blockRoundMap b !! 1; Some (b, rd).

Lemma firstRound_Some w h b rd : firstRound w h = Some (b, rd) ->
  blockStateDetailsMap (w_st w) !! h = Some b /\ blockRoundMap b !! 1 = Some rd.
Proof.
  unfold firstRound. destruct (blockStateDetailsMap _ !! h) as [b'|]; simpl; [|done]. destruct (blockRoundMap b' !! 1) eqn:Hrd; simpl; [|done].
  by intros [= <- <-].
Qed.

(** What the two runs come to. *)
Definition facts (w : World ConsensusHandler) (h : Hash) : option (Z * Z * Z * Hash * Z * bool) :=
  '(b, rd) ← firstRound w h;
  Some (currentRound b, rd_state rd, bs_blockNumber b, rd_precommitHash rd, blockVoteType rd,
        bool_decide (filteredValidatorsDepositMap b = ∅)).

Lemma facts_Some w h r st n hash v e : facts w h = Some (r, st, n, hash, v, e) ->
  exists b rd, blockStateDetailsMap (w_st w) !! h = Some b /\ blockRoundMap b !! 1 = Some rd /\ currentRound b = r
    /\ rd_state rd = st /\ bs_blockNumber b = n /\ rd_precommitHash rd = hash /\ blockVoteType rd = v
    /\ bool_decide (filteredValidatorsDepositMap b = ∅) = e.
Proof.
  unfold facts. destruct (firstRound w h) as [[b rd]|] eqn:Hf; simpl; [|done]. intros [= <- <- <- <- <- <-].
  apply firstRound_Some in Hf as [Hb Hrd]. exists b, rd. by split_and!.
Qed.

Lemma okNode_facts : facts okNode parent = Some (1, BLOCK_STATE_RECEIVED_COMMITS, 100, precommitted parent true, VOTE_TYPE_OK, false).
Proof. vm_compute. reflexivity. Qed.
Lemma nilNode_facts : facts nilNode parent = Some (1, BLOCK_STATE_RECEIVED_COMMITS, 100, precommitted parent false, VOTE_TYPE_NIL, false).
Proof. vm_compute. reflexivity. Qed.

Lemma decided_round_certified_witness : exists precommitters : gset Address, precommitters <> ∅
  /\ allVoted (addr 1) parent CONSENSUS_PACKET_TYPE_PRECOMMIT_BLOCK (mkPreCommitDetails (precommitted parent true) 1) precommitters.
Proof.
  destruct (facts_Some _ _ _ _ _ _ _ _ okNode_facts) as (b & rd & Hb & Hrd & _ & Hst & _ & Hh & _ & Hv).
  destruct (decided_round_certified (addr 1) okNode parent b 1 rd okNode_reachable Hb Hrd Hst) as (P & Q & _ & HwP & _ & HP & _).
  exists P. rewrite <- Hh. split; [|exact HP]. intros ->.
  destruct (reachable_round _ _ _ _ _ _ okNode_reachable Hb Hrd) as [Bok _]. apply bool_decide_eq_false in Hv.
  destruct (deposits_filter _ _ (bo_deposits _ _ _ Bok) Hv) as (t & vd & f & wf & _ & _ & Hs & _ & Hreq & _).
  pose proof (required_pos vd _ f Hs). rewrite Hreq in HwP. unfold weight in HwP. rewrite sum_over_empty in HwP. lia.
Defined.

Lemma precommitted_differ : precommitted parent true <> precommitted parent false.
Proof. intros E. apply (f_equal arr_bytes) in E. vm_compute in E. discriminate. Qed.

Lemma decided_rounds_accountable_witness : exists D : gset Address, D <> ∅
  /\ allVoted (addr 1) parent CONSENSUS_PACKET_TYPE_PRECOMMIT_BLOCK (mkPreCommitDetails (precommitted parent true) 1) D
  /\ allVoted (addr 2) parent CONSENSUS_PACKET_TYPE_PRECOMMIT_BLOCK (mkPreCommitDetails (precommitted parent false) 1) D.
Proof.
  destruct (facts_Some _ _ _ _ _ _ _ _ okNode_facts) as (b1 & rd1 & Hb1 & Hrd1 & _ & Hst1 & Hn1 & Hh1 & _ & Hv1).
  destruct (facts_Some _ _ _ _ _ _ _ _ nilNode_facts) as (b2 & rd2 & Hb2 & Hrd2 & _ & Hst2 & Hn2 & Hh2 & _ & Hv2).
  apply bool_decide_eq_false in Hv1, Hv2.
  destruct (decided_rounds_accountable (addr 1) (addr 2) okNode nilNode parent b1 b2 1 rd1 rd2 okNode_reachable nilNode_reachable
    Hb1 Hb2 Hrd1 Hrd2 Hst1 Hst2 Hv1 Hv2) as (D & _ & Hne & _ & HD1 & HD2).
  - reflexivity.
  - intros t vd x y _ _ _. apply window_filterKey_inj.
  - congruence.
  - rewrite Hh1, Hh2. apply precommitted_differ.
  - exists D. rewrite <- Hh1, <- Hh2. auto.
Defined.

(** The next step of the node that decided. *)
Lemma okNode_next_facts : facts (snd (perform (step parent) okNode)) parent =
  Some (1, BLOCK_STATE_RECEIVED_COMMITS, 100, precommitted parent true, VOTE_TYPE_OK, false).
Proof. vm_compute. reflexivity. Qed.

Lemma votes_are_final_witness : exists b rd rd', blockStateDetailsMap (w_st okNode) !! parent = Some b
  /\ blockRoundMap b !! 1 = Some rd /\ rd_precommitHash rd' = rd_precommitHash rd /\ rd_state rd' = BLOCK_STATE_RECEIVED_COMMITS.
Proof.
  destruct (facts_Some _ _ _ _ _ _ _ _ okNode_facts) as (b & rd & Hb & Hrd & Hr & Hst & _).
  destruct (facts_Some _ _ _ _ _ _ _ _ okNode_next_facts) as (b' & rd2 & Hb' & Hrd2 & _ & Hst2 & _).
  destruct (votes_are_final (addr 1) okNode (step parent) parent b b' 1 rd okNode_reachable Hb Hb' Hrd) as (rd' & Hrd' & _ & Hv & _).
  - rewrite Hr. vm_compute. discriminate.
  - exists b, rd, rd'. rewrite Hrd2 in Hrd'. injection Hrd' as <-. split; [done|]. split; [done|]. split; [|done].
    apply Hv. rewrite Hst. vm_compute. discriminate.
Defined.

Lemma committed_round_is_final_witness : exists b', blockStateDetailsMap (w_st (snd (perform (step parent) okNode))) !! parent = Some b'
  /\ currentRound b' = 1.
Proof.
  destruct (facts_Some _ _ _ _ _ _ _ _ okNode_facts) as (b & rd & Hb & Hrd & Hr & Hst & _).
  destruct (facts_Some _ _ _ _ _ _ _ _ okNode_next_facts) as (b' & _ & Hb' & _).
  exists b'. split; [done|]. rewrite <- Hr. apply (committed_round_is_final (addr 1) okNode (step parent) parent b b' rd okNode_reachable).
  - right. apply arr_bytes_inj. vm_compute. reflexivity.
  - exact Hb.
  - exact Hb'.
  - by rewrite Hr.
  - rewrite Hst. vm_compute. discriminate.
Defined.

(** The node has sent its commit and counted a quorum of commits and of precommits. *)
Lemma okNode_quorum : match firstRound okNode parent with
  | Some (b, rd) => selfCommited rd && selfPrecommited rd
      && Z.leb (blockMinWeightedProposalsRequired b) (weight (filteredValidatorsDepositMap b) (dom (validatorCommits rd)))
      && Z.leb (blockMinWeightedProposalsRequired b) (weight (filteredValidatorsDepositMap b) (dom (validatorPrecommits rd)))
  | None => false end = true.
Proof. vm_compute. reflexivity. Qed.

Lemma quorum_is_noticed_witness : exists b rd, firstRound okNode parent = Some (b, rd)
  /\ rd_state rd = BLOCK_STATE_RECEIVED_COMMITS /\ BLOCK_STATE_WAITING_FOR_COMMITS <= rd_state rd.
Proof.
  destruct (facts_Some _ _ _ _ _ _ _ _ okNode_facts) as (b & rd & Hb & Hrd & _ & _ & _ & _ & _ & Hv). apply bool_decide_eq_false in Hv.
  assert (Hf : firstRound okNode parent = Some (b, rd)) by (unfold firstRound; rewrite Hb; simpl; by rewrite Hrd).
  exists b, rd. split; [exact Hf|]. pose proof okNode_quorum as Hq. rewrite Hf in Hq. b2p.
  destruct (quorum_is_noticed (addr 1) okNode parent b 1 rd okNode_reachable Hb Hrd Hv) as [Hc Hp]. split; [by apply Hc|by apply Hp].
Defined.

Lemma okNode_builds : is_ok (out (getBlockConsensusData parent) okNode) = true.
Proof. vm_compute. reflexivity. Qed.

Lemma built_block_certified_witness : exists b bcd badd txns f, out (getBlockConsensusData parent) okNode = Ok (bcd, badd)
  /\ bcd_PrecommitHash bcd = precommitted parent true
  /\ certificate parent (filteredValidatorsDepositMap b) (bs_validatorDetailsMap b) txns bcd (data (ConsensusPackets badd)) 100
       (bs_consensusContext b) f.
Proof.
  destruct (facts_Some _ _ _ _ _ _ _ _ okNode_facts) as (b & rd0 & Hb & Hrd0 & Hr & _ & Hn & Hh & _).
  destruct (out (getBlockConsensusData parent) okNode) as [[bcd badd]|e|e] eqn:Hout; [|pose proof okNode_builds as E; rewrite Hout in E; discriminate..].
  destruct (built_block_certified (addr 1) okNode parent b bcd badd okNode_reachable Hb Hout) as (rd & f & Hrd & _ & _ & _ & Hpre & _ & Hc).
  rewrite Hr, Hrd0 in Hrd. injection Hrd as <-. rewrite Hn in Hc. eexists b, bcd, badd, _, f. split; [done|]. split; [congruence|exact Hc].
Defined.

(** A step on an older block abandons a commit.  [initializeNewBlockRound] opens
    a new round of the block that the handler is at, whatever block the step is
    about.  In this run the node has sent its commit for the second block, the step
    is about the first one, whose round timed out, and the second block leaves its
    committed round for the next. *)
Theorem step_on_older_block_leaves_commit :
  let newer := addr 78 in
  let w := runCalls (startNode (addr 1)) (begin parent ++ acks parent true [2] ++ acks parent false [3; 4]
             ++ [step newer; step newer] ++ acks newer true [2; 3; 4] ++ [step newer; step newer] ++ precommits newer true [2; 3; 4]) in
  let current w := b ← blockStateDetailsMap (w_st w) !! newer; rd ← blockRoundMap b !! currentRound b; Some (currentRound b, rd_state rd) in
  reachable (addr 1) w
  /\ current w = Some (1, BLOCK_STATE_WAITING_FOR_COMMITS)
  /\ current (snd (perform (step parent) w)) = Some (2, BLOCK_STATE_WAITING_FOR_PROPOSAL).
Proof.
  cbn zeta. split; [apply runCalls_reachable, (reach_start (addr 1) 0 false None)|]. split; vm_compute; reflexivity.
Qed.
End examples.
