(* ===== verification/EvmBase.v ===== *)
(** The parts of the EVM below the interpreter.

    Models src/core/vm/common.go, stack.go, stack_table.go, memory.go, analysis.go,
    gas.go and errors.go, the opcodes of opcodes.go, the parameters of
    src/params/protocol_params.go and the rules of src/params/config.go, and the
    overflow checks of src/common/math/integer.go.

    A word is the [Int] of package uint256.  The stack is a list with the top first,
    the memory a list of bytes with the fee paid for it so far.  A function that can
    panic returns an [outcome]; slicing a slice beyond its length is taken as a panic,
    also where the capacity would allow it, and no run gets there. *)

From S2P Require Import Prelude Common Uint256 Uint256Spec Uint256Conv.
From Stdlib Require Import Strings.Byte.
From stdpp Require Import pretty.
#[local] Open Scope Z_scope.

(** * Parameters (src/params/protocol_params.go) *)

Module params.
Definition CallValueTransferGas : Z := 9000.
Definition CallNewAccountGas : Z := 25000.
Definition QuadCoeffDiv : Z := 512.
Definition LogDataGas : Z := 8.
Definition CallStipend : Z := 2300.
Definition Sha3Gas : Z := 30.
Definition Sha3WordGas : Z := 6.
Definition SstoreSetGas : Z := 20000.
Definition SstoreResetGas : Z := 5000.
Definition SstoreClearGas : Z := 5000.
Definition SstoreRefundGas : Z := 15000.
Definition NetSstoreNoopGas : Z := 200.
Definition NetSstoreInitGas : Z := 20000.
Definition NetSstoreCleanGas : Z := 5000.
Definition NetSstoreDirtyGas : Z := 200.
Definition NetSstoreClearRefund : Z := 15000.
Definition NetSstoreResetRefund : Z := 4800.
Definition NetSstoreResetClearRefund : Z := 19800.
Definition SstoreSentryGasEIP2200 : Z := 2300.
Definition SstoreSetGasEIP2200 : Z := 20000.
Definition SstoreResetGasEIP2200 : Z := 5000.
Definition SstoreClearsScheduleRefundEIP2200 : Z := 15000.
Definition ColdAccountAccessCostEIP2929 : Z := 2600.
Definition ColdSloadCostEIP2929 : Z := 2100.
Definition WarmStorageReadCostEIP2929 : Z := 100.
Definition TxAccessListStorageKeyGas : Z := 1900.
Definition SstoreClearsScheduleRefundEIP3529 : Z := SstoreResetGasEIP2200 - ColdSloadCostEIP2929 + TxAccessListStorageKeyGas.
Definition JumpdestGas : Z := 1.
Definition CreateDataGas : Z := 200.
Definition CallCreateDepth : Z := 1024.
Definition ExpGas : Z := 10.
Definition LogGas : Z := 375.
Definition CopyGas : Z := 3.
Definition StackLimit : Z := 1024.
Definition LogTopicGas : Z := 375.
Definition CreateGas : Z := 32000.
Definition Create2Gas : Z := 32000.
Definition SelfdestructRefundGas : Z := 24000.
Definition MemoryGas : Z := 3.
Definition CallGasFrontier : Z := 40.
Definition CallGasEIP150 : Z := 700.
Definition BalanceGasFrontier : Z := 20.
Definition BalanceGasEIP150 : Z := 400.
Definition BalanceGasEIP1884 : Z := 700.
Definition ExtcodeSizeGasFrontier : Z := 20.
Definition ExtcodeSizeGasEIP150 : Z := 700.
Definition SloadGasFrontier : Z := 50.
Definition SloadGasEIP150 : Z := 200.
Definition SloadGasEIP1884 : Z := 800.
Definition SloadGasEIP2200 : Z := 800.
Definition ExtcodeHashGasConstantinople : Z := 400.
Definition ExtcodeHashGasEIP1884 : Z := 700.
Definition SelfdestructGasEIP150 : Z := 5000.
Definition ExpByteFrontier : Z := 10.
Definition ExpByteEIP158 : Z := 50.
Definition ExtcodeCopyBaseFrontier : Z := 20.
Definition ExtcodeCopyBaseEIP150 : Z := 700.
Definition CreateBySelfdestructGas : Z := 25000.
Definition MaxCodeSize : Z := 24576.
Definition Sha256BaseGas : Z := 60.
Definition Sha256PerWordGas : Z := 12.
Definition Ripemd160BaseGas : Z := 600.
Definition Ripemd160PerWordGas : Z := 120.
Definition IdentityBaseGas : Z := 15.
Definition IdentityPerWordGas : Z := 3.
Definition Bn256AddGasByzantium : Z := 500.
Definition Bn256ScalarMulGasByzantium : Z := 40000.
Definition Bn256ScalarMulGasIstanbul : Z := 6000.
Definition Bn256PairingBaseGasByzantium : Z := 100000.
Definition Bn256PairingBaseGasIstanbul : Z := 45000.
Definition Bn256PairingPerPointGasByzantium : Z := 80000.
Definition Bn256PairingPerPointGasIstanbul : Z := 34000.
End params.

(** The forks that are active for a block. *)
Record Rules := mkRules {
  IsHomestead : bool; IsEIP150 : bool; IsEIP155 : bool; IsEIP158 : bool;
  IsByzantium : bool; IsConstantinople : bool; IsPetersburg : bool; IsIstanbul : bool;
  IsBerlin : bool; IsLondon : bool; IsCatalyst : bool;
}.

(** * Errors *)

Definition ErrOutOfGas : error := Sentinel "ErrOutOfGas".
Definition ErrCodeStoreOutOfGas : error := Sentinel "ErrCodeStoreOutOfGas".
Definition ErrDepth : error := Sentinel "ErrDepth".
Definition ErrInsufficientBalance : error := Sentinel "ErrInsufficientBalance".
Definition ErrContractAddressCollision : error := Sentinel "ErrContractAddressCollision".
Definition ErrExecutionReverted : error := Sentinel "ErrExecutionReverted".
Definition ErrMaxCodeSizeExceeded : error := Sentinel "ErrMaxCodeSizeExceeded".
Definition ErrInvalidJump : error := Sentinel "ErrInvalidJump".
Definition ErrWriteProtection : error := Sentinel "ErrWriteProtection".
Definition ErrReturnDataOutOfBounds : error := Sentinel "ErrReturnDataOutOfBounds".
Definition ErrGasUintOverflow : error := Sentinel "ErrGasUintOverflow".
Definition ErrInvalidCode : error := Sentinel "ErrInvalidCode".
Definition ErrStackUnderflow (stackLen required : Z) : error :=
  ErrorsNew ("stack underflow (" +:+ pretty stackLen +:+ " <=> " +:+ pretty required +:+ ")").
Definition ErrStackOverflow (stackLen limit : Z) : error :=
  ErrorsNew ("stack limit reached " +:+ pretty stackLen +:+ " (" +:+ pretty limit +:+ ")").

(** * Integers with overflow checks (src/common/math/integer.go) *)

Definition SafeSub (x y : Z) : Z * bool := let '(diff, borrowOut) := Sub64 x y 0 in (diff, negb (Z.eqb borrowOut 0)).
Definition SafeAdd (x y : Z) : Z * bool := let '(sum, carryOut) := Add64 x y 0 in (sum, negb (Z.eqb carryOut 0)).
Definition SafeMul (x y : Z) : Z * bool := let '(hi, lo) := Mul64 x y in (lo, negb (Z.eqb hi 0)).

(** * Slices *)

(** [l[i:j]] and [l[i]]. *)
Definition slice_ {A} (l : list A) (i j : Z) : outcome (list A) :=
  if Z.leb 0 i && Z.leb i j && Z.leb j (len l) then Ok (take (Z.to_nat (j - i)) (drop (Z.to_nat i) l))
  else Panic "slice bounds out of range".
Definition at_Z {A} (l : list A) (i : Z) : outcome A :=
  if Z.leb 0 i then match l !! Z.to_nat i with Some x => Ok x | None => Panic "index out of range" end else Panic "index out of range".
Definition setAt {A} (l : list A) (i : Z) (x : A) : outcome (list A) :=
  if Z.leb 0 i && Z.ltb i (len l) then Ok (<[Z.to_nat i := x]> l) else Panic "index out of range".
(** [copy(l[i:j], value)]. *)
Definition copyTo {A} (l : list A) (i j : Z) (value : list A) : outcome (list A) :=
  old ← slice_ l i j;
  let v := take (length old) value in
  Ok (take (Z.to_nat i) l ++ v ++ drop (Z.to_nat i + length v) l).

(** src/common/bytes.go *)
Definition RightPadBytes (slice : list byte) (l : Z) : list byte :=
  if Z.leb l (len slice) then slice else slice ++ replicate (Z.to_nat l - length slice) Byte.x00.
Definition LeftPadBytes (slice : list byte) (l : Z) : list byte :=
  if Z.leb l (len slice) then slice else replicate (Z.to_nat l - length slice) Byte.x00 ++ slice.

(** * Sizes of memory and of data (common.go) *)

Definition calcMemSize64WithUint (off : Int) (length64 : Z) : Z * bool :=
  if Z.eqb length64 0 then (0, false)
  else let '(offset64, overflow) := U256.Uint64WithOverflow off in
       if overflow : bool then (0, true)
       else let val := u64 (offset64 + length64) in (val, Z.ltb val offset64).
Definition calcMemSize64 (off l : Int) : Z * bool :=
  if negb (U256.IsUint64 l) then (0, true) else calcMemSize64WithUint off (U256.Uint64 l).

Definition getData (data : list byte) (start size : Z) : outcome (list byte) :=
  let length := len data in
  let start := if Z.ltb length start then length else start in
  let end_ := u64 (start + size) in
  let end_ := if Z.ltb length end_ then length else end_ in
  d ← slice_ data start end_; Ok (RightPadBytes d (i64 size)).

Definition toWordSize (size : Z) : Z :=
  if Z.ltb (MaxUint64 - 31) size then MaxUint64 / 32 + 1 else (size + 31) / 32.

Definition allZero (b : list byte) : bool := forallb (fun x => Z.eqb (Zb x) 0) b.

(** * Gas (gas.go) *)

Definition GasQuickStep : Z := 2.
Definition GasFastestStep : Z := 3.
Definition GasFastStep : Z := 5.
Definition GasMidStep : Z := 8.
Definition GasSlowStep : Z := 10.
Definition GasExtStep : Z := 20.

(** The gas for a call that asks for [callCost], from [availableGas] of which [base]
    is spent on the call itself. *)
Definition callGas (isEip150 : bool) (availableGas base : Z) (callCost : Int) : outcome Z :=
  let rest := u64 (availableGas - base) in
  let gas := rest - rest / 64 in
  if isEip150 && (negb (U256.IsUint64 callCost) || Z.ltb gas (U256.Uint64 callCost)) then Ok gas
  else if negb (U256.IsUint64 callCost) then Fail ErrGasUintOverflow
  else Ok (U256.Uint64 callCost).

(** * The stack (stack.go, stack_table.go) *)

Abbreviation Stack := (list Int).

Definition push (d : Int) (st : Stack) : Stack := d :: st.
Definition pop (st : Stack) : outcome (Int * Stack) :=
  match st with x :: r => Ok (x, r) | [] => Panic "index out of range" end.
(** [Back(n)]: the item below [n] others; [peek] is [Back(0)]. *)
Definition Back (st : Stack) (n : nat) : outcome Int :=
  match st !! n with Some x => Ok x | None => Panic "index out of range" end.
Definition peek (st : Stack) : outcome Int := Back st 0.
(** Writing through the pointer that [peek] returns. *)
Definition setPeek (x : Int) (st : Stack) : outcome Stack :=
  match st with _ :: r => Ok (x :: r) | [] => Panic "index out of range" end.
(** [swap(n)] and [dup(n)] count the top as 1. *)
Definition swap (n : nat) (st : Stack) : outcome Stack :=
  x ← Back st 0; y ← Back st (n - 1); Ok (<[(n - 1)%nat := x]> (<[0%nat := y]> st)).
Definition dup (n : nat) (st : Stack) : outcome Stack :=
  x ← Back st (n - 1); Ok (x :: st).

Definition maxStack (pop push : Z) : Z := params.StackLimit + pop - push.
Definition minStack (pops push : Z) : Z := pops.
Definition minSwapStack (n : Z) : Z := minStack n n.
Definition maxSwapStack (n : Z) : Z := maxStack n n.
Definition minDupStack (n : Z) : Z := minStack n (n + 1).
Definition maxDupStack (n : Z) : Z := maxStack n (n + 1).

(** * The memory (memory.go) *)

Record Memory := mkMemory { store : list byte; lastGasCost : Z }.
#[export] Instance Memory_eta : Eta Memory := fun m => mkMemory (store m) (lastGasCost m).
#[export] Instance set_store : Setter store := ltac:(derive_setter).
#[export] Instance set_lastGasCost : Setter lastGasCost := ltac:(derive_setter).

Definition NewMemory : Memory := mkMemory [] 0.
Definition Len (m : Memory) : Z := len (store m).
Definition Set_ (m : Memory) (offset size : Z) (value : list byte) : outcome Memory :=
  if Z.ltb 0 size then
    if Z.ltb (Len m) (u64 (offset + size)) then Panic "invalid memory: store empty"
    else s ← copyTo (store m) offset (u64 (offset + size)) value; Ok (m <| store := s |>)
  else Ok m.
Definition Set32 (m : Memory) (offset : Z) (val : Int) : outcome Memory :=
  if Z.ltb (Len m) (u64 (offset + 32)) then Panic "invalid memory: store empty"
  else s ← copyTo (store m) offset (u64 (offset + 32)) (replicate 32 Byte.x00);
       rest ← slice_ s offset (len s);
       Ok (m <| store := take (Z.to_nat offset) s ++ U256.WriteToSlice val rest |>).
Definition Resize (m : Memory) (size : Z) : Memory :=
  if Z.ltb (Len m) size then m <| store := store m ++ replicate (Z.to_nat (size - Len m)) Byte.x00 |> else m.
(** [GetCopy] and [GetPtr] differ in that the second result is the memory itself. *)
Definition GetPtr (m : Memory) (offset size : Z) : outcome (list byte) :=
  if Z.eqb size 0 then Ok []
  else if Z.ltb offset (Len m) then slice_ (store m) offset (i64 (offset + size)) else Ok [].
Definition GetCopy (m : Memory) (offset size : Z) : outcome (list byte) :=
  if Z.eqb size 0 then Ok []
  else if Z.ltb offset (Len m) then if Z.ltb size 0 then Panic "makeslice: len out of range" else slice_ (store m) offset (i64 (offset + size)) else Ok [].

(** [memoryGasCost] of gas_table.go: the fee for growing the memory, and the memory that
    remembers what has been paid. *)
Definition memoryGasCost (mem : Memory) (newMemSize : Z) : outcome (Z * Memory) :=
  if Z.eqb newMemSize 0 then Ok (0, mem)
  else if Z.ltb 0x1FFFFFFFE0 newMemSize then Fail ErrGasUintOverflow
  else
    let newMemSizeWords := toWordSize newMemSize in
    let newMemSize := u64 (newMemSizeWords * 32) in
    if Z.ltb (Len mem) newMemSize then
      let square := u64 (newMemSizeWords * newMemSizeWords) in
      let linCoef := u64 (newMemSizeWords * params.MemoryGas) in
      let quadCoef := square / params.QuadCoeffDiv in
      let newTotalFee := u64 (linCoef + quadCoef) in
      let fee := u64 (newTotalFee - lastGasCost mem) in
      Ok (fee, mem <| lastGasCost := newTotalFee |>)
    else Ok (0, mem).

(** * Opcodes (opcodes.go) *)

Module opcodes.
Definition STOP : Z := 0x00.
Definition ADD : Z := 0x01.
Definition MUL : Z := 0x02.
Definition SUB : Z := 0x03.
Definition DIV : Z := 0x04.
Definition SDIV : Z := 0x05.
Definition MOD : Z := 0x06.
Definition SMOD : Z := 0x07.
Definition ADDMOD : Z := 0x08.
Definition MULMOD : Z := 0x09.
Definition EXP : Z := 0x0a.
Definition SIGNEXTEND : Z := 0x0b.
Definition LT : Z := 0x10.
Definition GT : Z := 0x11.
Definition SLT : Z := 0x12.
Definition SGT : Z := 0x13.
Definition EQ : Z := 0x14.
Definition ISZERO : Z := 0x15.
Definition AND : Z := 0x16.
Definition OR : Z := 0x17.
Definition XOR : Z := 0x18.
Definition NOT : Z := 0x19.
Definition BYTE : Z := 0x1a.
Definition SHL : Z := 0x1b.
Definition SHR : Z := 0x1c.
Definition SAR : Z := 0x1d.
Definition SHA3 : Z := 0x20.
Definition ADDRESS : Z := 0x30.
Definition BALANCE : Z := 0x31.
Definition ORIGIN : Z := 0x32.
Definition CALLER : Z := 0x33.
Definition CALLVALUE : Z := 0x34.
Definition CALLDATALOAD : Z := 0x35.
Definition CALLDATASIZE : Z := 0x36.
Definition CALLDATACOPY : Z := 0x37.
Definition CODESIZE : Z := 0x38.
Definition CODECOPY : Z := 0x39.
Definition GASPRICE : Z := 0x3a.
Definition EXTCODESIZE : Z := 0x3b.
Definition EXTCODECOPY : Z := 0x3c.
Definition RETURNDATASIZE : Z := 0x3d.
Definition RETURNDATACOPY : Z := 0x3e.
Definition EXTCODEHASH : Z := 0x3f.
Definition BLOCKHASH : Z := 0x40.
Definition COINBASE : Z := 0x41.
Definition TIMESTAMP : Z := 0x42.
Definition NUMBER : Z := 0x43.
Definition DIFFICULTY : Z := 0x44.
Definition GASLIMIT : Z := 0x45.
Definition CHAINID : Z := 0x46.
Definition SELFBALANCE : Z := 0x47.
Definition BASEFEE : Z := 0x48.
Definition POP : Z := 0x50.
Definition MLOAD : Z := 0x51.
Definition MSTORE : Z := 0x52.
Definition MSTORE8 : Z := 0x53.
Definition SLOAD : Z := 0x54.
Definition SSTORE : Z := 0x55.
Definition JUMP : Z := 0x56.
Definition JUMPI : Z := 0x57.
Definition PC : Z := 0x58.
Definition MSIZE : Z := 0x59.
Definition GAS : Z := 0x5a.
Definition JUMPDEST : Z := 0x5b.
Definition PUSH1 : Z := 0x60.
Definition PUSH2 : Z := 0x61.
Definition PUSH3 : Z := 0x62.
Definition PUSH4 : Z := 0x63.
Definition PUSH5 : Z := 0x64.
Definition PUSH6 : Z := 0x65.
Definition PUSH7 : Z := 0x66.
Definition PUSH8 : Z := 0x67.
Definition PUSH9 : Z := 0x68.
Definition PUSH10 : Z := 0x69.
Definition PUSH11 : Z := 0x6a.
Definition PUSH12 : Z := 0x6b.
Definition PUSH13 : Z := 0x6c.
Definition PUSH14 : Z := 0x6d.
Definition PUSH15 : Z := 0x6e.
Definition PUSH16 : Z := 0x6f.
Definition PUSH17 : Z := 0x70.
Definition PUSH18 : Z := 0x71.
Definition PUSH19 : Z := 0x72.
Definition PUSH20 : Z := 0x73.
Definition PUSH21 : Z := 0x74.
Definition PUSH22 : Z := 0x75.
Definition PUSH23 : Z := 0x76.
Definition PUSH24 : Z := 0x77.
Definition PUSH25 : Z := 0x78.
Definition PUSH26 : Z := 0x79.
Definition PUSH27 : Z := 0x7a.
Definition PUSH28 : Z := 0x7b.
Definition PUSH29 : Z := 0x7c.
Definition PUSH30 : Z := 0x7d.
Definition PUSH31 : Z := 0x7e.
Definition PUSH32 : Z := 0x7f.
Definition DUP1 : Z := 0x80.
Definition DUP2 : Z := 0x81.
Definition DUP3 : Z := 0x82.
Definition DUP4 : Z := 0x83.
Definition DUP5 : Z := 0x84.
Definition DUP6 : Z := 0x85.
Definition DUP7 : Z := 0x86.
Definition DUP8 : Z := 0x87.
Definition DUP9 : Z := 0x88.
Definition DUP10 : Z := 0x89.
Definition DUP11 : Z := 0x8a.
Definition DUP12 : Z := 0x8b.
Definition DUP13 : Z := 0x8c.
Definition DUP14 : Z := 0x8d.
Definition DUP15 : Z := 0x8e.
Definition DUP16 : Z := 0x8f.
Definition SWAP1 : Z := 0x90.
Definition SWAP2 : Z := 0x91.
Definition SWAP3 : Z := 0x92.
Definition SWAP4 : Z := 0x93.
Definition SWAP5 : Z := 0x94.
Definition SWAP6 : Z := 0x95.
Definition SWAP7 : Z := 0x96.
Definition SWAP8 : Z := 0x97.
Definition SWAP9 : Z := 0x98.
Definition SWAP10 : Z := 0x99.
Definition SWAP11 : Z := 0x9a.
Definition SWAP12 : Z := 0x9b.
Definition SWAP13 : Z := 0x9c.
Definition SWAP14 : Z := 0x9d.
Definition SWAP15 : Z := 0x9e.
Definition SWAP16 : Z := 0x9f.
Definition LOG0 : Z := 0xa0.
Definition LOG1 : Z := 0xa1.
Definition LOG2 : Z := 0xa2.
Definition LOG3 : Z := 0xa3.
Definition LOG4 : Z := 0xa4.
Definition PUSH : Z := 0xb0.
Definition DUP : Z := 0xb1.
Definition SWAP : Z := 0xb2.
Definition CREATE : Z := 0xf0.
Definition CALL : Z := 0xf1.
Definition CALLCODE : Z := 0xf2.
Definition RETURN : Z := 0xf3.
Definition DELEGATECALL : Z := 0xf4.
Definition CREATE2 : Z := 0xf5.
Definition STATICCALL : Z := 0xfa.
Definition REVERT : Z := 0xfd.
Definition SELFDESTRUCT : Z := 0xff.
End opcodes.

(** * The analysis of jump destinations (analysis.go) *)

(** One bit per byte of code, the first in the top bit of the first byte. *)
Abbreviation bitvec := (list Z).

Definition set1 (bits : bitvec) (pos : Z) : outcome bitvec :=
  b ← at_Z bits (pos / 8); setAt bits (pos / 8) (Z.lor b (Z.shiftr 0x80 (pos mod 8))).
Definition set8 (bits : bitvec) (pos : Z) : outcome bitvec :=
  b ← at_Z bits (pos / 8); bits ← setAt bits (pos / 8) (Z.lor b (Z.shiftr 0xFF (pos mod 8)));
  c ← at_Z bits (pos / 8 + 1); setAt bits (pos / 8 + 1) (Z.lor c (0xFF - Z.shiftr 0xFF (pos mod 8))).
(** The index is the only one that depends on the analysis fitting the code. *)
Definition bitvecRange : string := "bitvec: index out of range".
Definition codeSegment (bits : bitvec) (pos : Z) : outcome bool :=
  match bits !! Z.to_nat (pos / 8) with
  | Some b => Ok (Z.eqb (Z.land b (Z.shiftr 0x80 (pos mod 8))) 0)
  | None => Panic bitvecRange
  end.

(** The two inner loops: while eight bits are left, and while one is. *)
Fixpoint mark8 (fuel : nat) (numbits pc : Z) (bits : bitvec) : outcome (Z * Z * bitvec) :=
  match fuel with
  | O => Panic out_of_fuel
  | S fuel => if Z.leb 8 numbits then bits ← set8 bits pc; mark8 fuel (numbits - 8) (pc + 8) bits else Ok (numbits, pc, bits)
  end.
Fixpoint mark1 (fuel : nat) (numbits pc : Z) (bits : bitvec) : outcome (Z * bitvec) :=
  match fuel with
  | O => Panic out_of_fuel
  | S fuel => if Z.ltb 0 numbits then bits ← set1 bits pc; mark1 fuel (numbits - 1) (pc + 1) bits else Ok (pc, bits)
  end.
Fixpoint codeBitmap_loop (fuel : nat) (code : list byte) (pc : Z) (bits : bitvec) : outcome bitvec :=
  match fuel with
  | O => Panic out_of_fuel
  | S fuel =>
    if Z.ltb pc (len code) then
      b ← at_Z code pc;
      let op := Zb b in
      if Z.leb opcodes.PUSH1 op && Z.leb op opcodes.PUSH32 then
        '(numbits, pc, bits) ← mark8 5 (op - opcodes.PUSH1 + 1) (pc + 1) bits;
        '(pc, bits) ← mark1 8 numbits pc bits;
        codeBitmap_loop fuel code pc bits
      else codeBitmap_loop fuel code (pc + 1) bits
    else Ok bits
  end.
Definition codeBitmap (code : list byte) : outcome bitvec :=
  codeBitmap_loop (S (length code)) code 0 (replicate (length code / 8 + 1 + 4) 0).

(** * The bitmap marks the arguments of PUSH *)

(** The reference: one flag per byte, set on the [n] bytes after a PUSHn. *)
Definition pushSize (b : byte) : nat :=
  if Z.leb opcodes.PUSH1 (Zb b) && Z.leb (Zb b) opcodes.PUSH32 then Z.to_nat (Zb b - opcodes.PUSH1 + 1) else O.
Fixpoint pushData (skip : nat) (code : list byte) : list bool :=
  match code with
  | [] => []
  | b :: code => match skip with S k => true :: pushData k code | O => false :: pushData (pushSize b) code end
  end.

Definition bitAt (bits : bitvec) (p : Z) : bool := from_option (fun b => Z.testbit b (7 - p mod 8)) false (bits !! Z.to_nat (p / 8)).

Lemma at_Z_lookup {A} (l : list A) i x : 0 <= i -> l !! Z.to_nat i = Some x -> at_Z l i = Ok x.
Proof. intros Hi E. unfold at_Z. rewrite (proj2 (Z.leb_le _ _)), E; done. Qed.

Lemma at_Z_in {A} (l : list A) i : 0 <= i < len l -> exists x, at_Z l i = Ok x /\ l !! Z.to_nat i = Some x.
Proof.
  intros Hi. unfold len in Hi. destruct (lookup_lt_is_Some_2 l (Z.to_nat i)) as [x E]; [lia|]. exists x. split; [apply at_Z_lookup; [lia|done]|done].
Qed.

Lemma setAt_in {A} (l : list A) i x : 0 <= i < len l -> setAt l i x = Ok (<[Z.to_nat i := x]> l).
Proof. intros Hi. unfold setAt. by rewrite (proj2 (Z.leb_le _ _)), (proj2 (Z.ltb_lt _ _)) by lia. Qed.

Lemma bit_masks k i : 0 <= k < 8 -> 0 <= i < 8 ->
  Z.testbit (Z.shiftr 0x80 k) (7 - i) = Z.eqb i k /\
  Z.testbit (Z.shiftr 0xFF k) (7 - i) = Z.leb k i /\
  Z.testbit (0xFF - Z.shiftr 0xFF k) (7 - i) = Z.ltb i k.
Proof.
  intros Hk Hi.
  assert (forallb (fun k => forallb (fun i => Bool.eqb (Z.testbit (Z.shiftr 0x80 k) (7 - i)) (Z.eqb i k)
    && Bool.eqb (Z.testbit (Z.shiftr 0xFF k) (7 - i)) (Z.leb k i) && Bool.eqb (Z.testbit (0xFF - Z.shiftr 0xFF k) (7 - i)) (Z.ltb i k)) (seqZ 0 8)) (seqZ 0 8) = true) as H by (by vm_compute).
  rewrite forallb_forall in H. specialize (H k). rewrite forallb_forall in H. rewrite <- !list_elem_of_In in H.
  specialize (H ltac:(apply elem_of_seqZ; lia) i). rewrite <- list_elem_of_In in H. specialize (H ltac:(apply elem_of_seqZ; lia)).
  apply andb_prop in H as [H H3]. apply andb_prop in H as [H1 H2]. by apply eqb_prop in H1, H2, H3.
Qed.

Lemma bitAt_insert bits i b q : 0 <= i < len bits -> 0 <= q ->
  bitAt (<[Z.to_nat i := b]> bits) q = if Z.eqb (q / 8) i then Z.testbit b (7 - q mod 8) else bitAt bits q.
Proof.
  intros Hi Hq. unfold bitAt, len in *. pose proof (Z.div_pos q 8 Hq ltac:(lia)). destruct (Z.eqb_spec (q / 8) i) as [->|Hne].
  - by rewrite list_lookup_insert_eq by lia.
  - by rewrite list_lookup_insert_ne by lia.
Qed.

Lemma set1_spec bits p : 0 <= p < 8 * len bits -> exists bits', set1 bits p = Ok bits' /\ length bits' = length bits /\
  forall q, 0 <= q -> bitAt bits' q = Z.eqb q p || bitAt bits q.
Proof.
  intros Hp. assert (0 <= p / 8 < len bits) as Hi by (split; [apply Z.div_pos|apply Z.div_lt_upper_bound]; lia).
  destruct (at_Z_in bits (p / 8) Hi) as (b & E & El). unfold set1. rewrite E. cbn -[Z.div Z.modulo Z.shiftr]. rewrite setAt_in by done.
  eexists. split; [done|]. split; [apply length_insert|]. intros q Hq. rewrite bitAt_insert by lia.
  pose proof (Z.mod_pos_bound q 8 ltac:(lia)). pose proof (Z.mod_pos_bound p 8 ltac:(lia)). pose proof (Z.div_mod q 8 ltac:(lia)). pose proof (Z.div_mod p 8 ltac:(lia)).
  destruct (Z.eqb_spec (q / 8) (p / 8)) as [Ed|Hne].
  - rewrite Z.lor_spec, (proj1 (bit_masks (p mod 8) (q mod 8) ltac:(lia) ltac:(lia))). unfold bitAt. rewrite Ed, El. cbn [from_option]. rewrite orb_comm. f_equal.
    apply eq_bool_prop_intro. unfold Is_true. destruct (Z.eqb_spec (q mod 8) (p mod 8)), (Z.eqb_spec q p); subst; try done; lia.
  - destruct (Z.eqb_spec q p); [congruence|done].
Qed.

Lemma set8_spec bits p : 0 <= p -> p / 8 + 1 < len bits -> exists bits', set8 bits p = Ok bits' /\ length bits' = length bits /\
  forall q, 0 <= q -> bitAt bits' q = (Z.leb p q && Z.ltb q (p + 8)) || bitAt bits q.
Proof.
  intros Hp Hl. pose proof (Z.div_pos p 8 Hp ltac:(lia)). destruct (at_Z_in bits (p / 8) ltac:(lia)) as (b & E & El).
  unfold set8. rewrite E. cbn -[Z.div Z.modulo Z.shiftr Z.sub Z.add]. rewrite setAt_in by lia. cbn -[Z.div Z.modulo Z.shiftr Z.sub Z.add].
  set (bits1 := <[Z.to_nat (p / 8) := _]> bits). assert (length bits1 = length bits) as Hl1 by apply length_insert.
  destruct (at_Z_in bits1 (p / 8 + 1)) as (c & Ec & Elc); [unfold len in *; lia|]. rewrite Ec. cbn -[Z.div Z.modulo Z.shiftr Z.sub Z.add].
  rewrite setAt_in by (unfold len in *; lia). eexists. split; [done|]. split; [by rewrite length_insert|]. intros q Hq.
  rewrite bitAt_insert by (unfold len in *; lia).
  assert (bits !! Z.to_nat (p / 8 + 1) = Some c) as Elc' by (unfold bits1 in Elc; rewrite list_lookup_insert_ne in Elc; [done|lia]).
  pose proof (Z.mod_pos_bound q 8 ltac:(lia)). pose proof (Z.mod_pos_bound p 8 ltac:(lia)). pose proof (Z.div_mod q 8 ltac:(lia)). pose proof (Z.div_mod p 8 ltac:(lia)).
  destruct (bit_masks (p mod 8) (q mod 8) ltac:(lia) ltac:(lia)) as (_ & Hm1 & Hm2).
  destruct (Z.eqb_spec (q / 8) (p / 8 + 1)) as [Ed|Hne].
  - rewrite Z.lor_spec, Hm2. unfold bitAt. rewrite Ed, Elc'. cbn [from_option]. rewrite orb_comm. f_equal.
    apply eq_bool_prop_intro. unfold Is_true. destruct (Z.ltb_spec (q mod 8) (p mod 8)), (Z.leb_spec p q), (Z.ltb_spec q (p + 8)); cbn; try done; lia.
  - unfold bits1. rewrite bitAt_insert by lia. destruct (Z.eqb_spec (q / 8) (p / 8)) as [Ed|Hne'].
    + rewrite Z.lor_spec, Hm1. unfold bitAt. rewrite Ed, El. cbn [from_option]. rewrite orb_comm. f_equal.
      apply eq_bool_prop_intro. unfold Is_true. destruct (Z.leb_spec (p mod 8) (q mod 8)), (Z.leb_spec p q), (Z.ltb_spec q (p + 8)); cbn; try done; lia.
    + destruct (Z.leb_spec p q), (Z.ltb_spec q (p + 8)); cbn; try done. exfalso. assert (q / 8 = p / 8 \/ q / 8 = p / 8 + 1) by lia. lia.
Qed.

(** Marks [n] bits from [pc] on. *)
Definition marked (bits : bitvec) (pc n : Z) (bits' : bitvec) : Prop :=
  length bits' = length bits /\ forall q, 0 <= q -> bitAt bits' q = (Z.leb pc q && Z.ltb q (pc + n)) || bitAt bits q.

Lemma marked_none bits pc : marked bits pc 0 bits.
Proof. split; [done|]. intros q Hq. destruct (Z.leb_spec pc q), (Z.ltb_spec q (pc + 0)); cbn; try done; lia. Qed.

Lemma marked_more bits bits1 bits2 pc n m : 0 <= n -> 0 <= m -> marked bits pc n bits1 -> marked bits1 (pc + n) m bits2 -> marked bits pc (n + m) bits2.
Proof.
  intros Hn Hm [Hl1 H1] [Hl2 H2]. split; [congruence|]. intros q Hq. rewrite H2, H1, orb_assoc by done. f_equal.
  destruct (Z.leb_spec pc q), (Z.leb_spec (pc + n) q), (Z.ltb_spec q (pc + n)), (Z.ltb_spec q (pc + n + m)), (Z.ltb_spec q (pc + (n + m))); cbn; try done; lia.
Qed.

Lemma mark1_spec fuel : forall n pc bits, 0 <= n < Z.of_nat fuel -> 0 <= pc -> pc + n <= 8 * len bits ->
  exists bits', mark1 fuel n pc bits = Ok (pc + n, bits') /\ marked bits pc n bits'.
Proof.
  induction fuel as [|fuel IH]; intros n pc bits Hn Hpc Hl; [lia|]. cbn [mark1]. destruct (Z.ltb_spec 0 n).
  - destruct (set1_spec bits pc ltac:(lia)) as (b1 & E1 & Hl1 & H1). rewrite E1. cbn.
    destruct (IH (n - 1) (pc + 1) b1) as (b2 & E2 & H2); [lia|lia|unfold len in *; lia|]. exists b2. rewrite E2. split; [do 2 f_equal; lia|].
    replace n with (1 + (n - 1)) by lia. eapply marked_more; [lia|lia| |exact H2]. split; [done|]. intros q Hq. rewrite H1 by done.
    destruct (Z.eqb_spec q pc), (Z.leb_spec pc q), (Z.ltb_spec q (pc + 1)); cbn; try done; lia.
  - replace n with 0 by lia. exists bits. split; [do 2 f_equal; lia|apply marked_none].
Qed.

Lemma mark8_spec fuel : forall n pc bits, 0 <= n < 8 * Z.of_nat fuel -> 0 <= pc -> pc + n < 8 * len bits ->
  exists bits', mark8 fuel n pc bits = Ok (n mod 8, pc + (n - n mod 8), bits') /\ marked bits pc (n - n mod 8) bits'.
Proof.
  induction fuel as [|fuel IH]; intros n pc bits Hn Hpc Hl; [lia|]. cbn [mark8]. destruct (Z.leb_spec 8 n).
  - destruct (set8_spec bits pc Hpc) as (b1 & E1 & Hl1 & H1). { apply Z.le_lt_trans with ((pc + n) / 8); [|apply Z.div_lt_upper_bound; lia]. rewrite <- (Z.div_add pc 1 8) by lia. apply Z.div_le_mono; lia. }
    rewrite E1. cbn -[Z.modulo]. destruct (IH (n - 8) (pc + 8) b1) as (b2 & E2 & H2); [lia|lia|unfold len in *; lia|].
    assert ((n - 8) mod 8 = n mod 8) as Em by (rewrite <- (Z.mod_add n (-1) 8) by lia; f_equal; lia). rewrite Em in *. pose proof (Z.mod_pos_bound n 8 ltac:(lia)). pose proof (Z.mod_le n 8 ltac:(lia) ltac:(lia)).
    assert (n mod 8 <= n - 8) as Hm8 by (rewrite <- Em; apply Z.mod_le; lia). exists b2. rewrite E2. split; [do 3 f_equal; lia|].
    replace (n - n mod 8) with (8 + (n - 8 - n mod 8)) by lia. eapply marked_more; [lia|lia| |exact H2]. split; [done|exact H1].
  - rewrite Z.mod_small by lia. exists bits. rewrite Z.sub_diag. split; [do 3 f_equal; lia|apply marked_none].
Qed.

Lemma pushData_skip k : forall code, pushData k code = replicate (Nat.min k (length code)) true ++ pushData 0 (drop k code).
Proof.
  induction k as [|k IH]; intros code; [by rewrite drop_0|]. destruct code as [|b code]; [done|]. cbn [pushData length drop]. by rewrite IH.
Qed.

Lemma pushSize_range b : (pushSize b <= 32)%nat.
Proof. unfold pushSize. destruct (_ && _) eqn:E; [|lia]. apply andb_prop in E as [E1 E2]. apply Z.leb_le in E1, E2. unfold opcodes.PUSH1, opcodes.PUSH32 in *. lia. Qed.

(** One step of the outer loop. *)
Lemma codeBitmap_step fuel code pc bits b : 0 <= pc < len code -> code !! Z.to_nat pc = Some b -> len code + 33 <= 8 * len bits ->
  exists bits', codeBitmap_loop (S fuel) code pc bits = codeBitmap_loop fuel code (pc + 1 + Z.of_nat (pushSize b)) bits' /\ marked bits (pc + 1) (Z.of_nat (pushSize b)) bits'.
Proof.
  intros Hpc Eb Hl. cbn [codeBitmap_loop]. rewrite (proj2 (Z.ltb_lt _ _)) by lia. rewrite (at_Z_lookup _ _ b) by (done || lia). cbn -[mark8 mark1 Z.add Z.leb].
  pose proof (pushSize_range b) as Hs. unfold pushSize in *. destruct (_ && _) eqn:E.
  - apply andb_prop in E as [E1 E2]. apply Z.leb_le in E1, E2. rewrite Z2Nat.id in * by lia. set (n := Zb b - opcodes.PUSH1 + 1) in *.
    assert (0 <= n <= 32) by lia. destruct (mark8_spec 5 n (pc + 1) bits) as (b1 & -> & Hk1); [lia|lia|lia|]. cbn -[mark1 Z.add Z.modulo].
    pose proof (Z.mod_pos_bound n 8 ltac:(lia)). pose proof (Z.mod_le n 8 ltac:(lia) ltac:(lia)).
    destruct (mark1_spec 8 (n mod 8) (pc + 1 + (n - n mod 8)) b1) as (b2 & -> & Hk2); [lia|lia|destruct Hk1 as [Hl1 _]; unfold len in *; lia|]. cbn -[Z.add Z.modulo].
    exists b2. split; [f_equal; lia|]. replace n with (n - n mod 8 + n mod 8) at 1 by lia. eapply marked_more; [lia|lia|exact Hk1|exact Hk2].
  - exists bits. split; [f_equal; lia|apply marked_none].
Qed.

Lemma codeBitmap_loop_spec fuel : forall code pc bits, 0 <= pc -> Z.max 0 (len code - pc) < Z.of_nat fuel -> len code + 33 <= 8 * len bits ->
  (forall q, pc <= q -> q < len code -> bitAt bits q = false) ->
  exists bits', codeBitmap_loop fuel code pc bits = Ok bits' /\ length bits' = length bits /\
    forall q, 0 <= q < len code -> bitAt bits' q = if Z.ltb q pc then bitAt bits q else default false (pushData 0 (drop (Z.to_nat pc) code) !! Z.to_nat (q - pc)).
Proof.
  induction fuel as [|fuel IH]; intros code pc bits Hpc Hf Hl Hz; [lia|].
  destruct (Z.ltb_spec pc (len code)) as [Hlt|Hge].
  - destruct (at_Z_in code pc ltac:(lia)) as (b & _ & Eb). destruct (codeBitmap_step fuel code pc bits b ltac:(lia) Eb Hl) as (b1 & E1 & Hl1 & H1).
    destruct (IH code (pc + 1 + Z.of_nat (pushSize b)) b1) as (b2 & E2 & Hl2 & H2); [lia|lia|unfold len in *; lia| |].
    { intros q Hq1 Hq2. rewrite H1, Hz by lia. rewrite (proj2 (Z.ltb_ge _ _)) by lia. by rewrite andb_false_r. }
    exists b2. rewrite E1, E2. split; [done|]. split; [congruence|]. intros q Hq. rewrite H2 by lia. clear H2 E2 E1 IH.
    rewrite (drop_S code b (Z.to_nat pc)) by done. cbn [pushData]. rewrite (pushData_skip (pushSize b)), drop_drop.
    destruct (Z.ltb_spec q pc) as [Hqp|Hqp].
    { rewrite (proj2 (Z.ltb_lt _ _)), H1, (proj2 (Z.leb_gt _ _)) by lia. done. }
    destruct (Z.eqb_spec q pc) as [->|Hne].
    { rewrite Z.sub_diag, (proj2 (Z.ltb_lt _ _)), H1, (proj2 (Z.leb_gt _ _)) by lia. cbn. apply Hz; lia. }
    replace (Z.to_nat (q - pc)) with (S (Z.to_nat (q - pc - 1))) by lia. change ((false :: ?l) !! S ?n) with (l !! n).
    destruct (Z.ltb_spec q (pc + 1 + Z.of_nat (pushSize b))) as [Hin|Hout].
    + rewrite H1, (proj2 (Z.leb_le _ _)), (proj2 (Z.ltb_lt _ _)) by lia. rewrite lookup_app_l, lookup_replicate_2; [done| |]; rewrite ?length_replicate, length_drop; unfold len in *; lia.
    + rewrite lookup_app_r by (rewrite length_replicate; lia). rewrite length_replicate, length_drop.
      replace (S (Z.to_nat pc) + pushSize b)%nat with (Z.to_nat (pc + 1 + Z.of_nat (pushSize b))) by lia. do 2 f_equal. unfold len in *. lia.
  - exists bits. cbn [codeBitmap_loop]. rewrite (proj2 (Z.ltb_ge _ _)) by lia. split; [done|]. split; [done|]. intros q Hq. by rewrite (proj2 (Z.ltb_lt _ _)) by lia.
Qed.

(** The analysis never fails, and a position is code when it is no argument of a PUSH. *)
Lemma codeBitmap_spec code : exists bits, codeBitmap code = Ok bits /\
  forall pos, 0 <= pos < len code -> codeSegment bits pos = Ok (negb (default false (pushData 0 code !! Z.to_nat pos))).
Proof.
  unfold codeBitmap. set (bits0 := replicate _ 0).
  assert (len code + 33 <= 8 * len bits0) as Hl.
  { unfold bits0, len. rewrite length_replicate. pose proof (Nat.div_mod (length code) 8 ltac:(lia)). pose proof (Nat.mod_upper_bound (length code) 8 ltac:(lia)). lia. }
  destruct (codeBitmap_loop_spec (S (length code)) code 0 bits0) as (bits & E & Hlb & Hb); [lia|unfold len; lia|done| |].
  { intros q _ _. unfold bitAt, bits0. destruct (replicate _ _ !! _) eqn:Er; [|done]. apply lookup_replicate in Er as [-> _]. cbn. apply Z.bits_0. }
  exists bits. split; [exact E|]. intros pos Hpos. specialize (Hb pos Hpos). rewrite drop_0, Z.sub_0_r, (proj2 (Z.ltb_ge _ _)) in Hb by lia. rewrite <- Hb.
  unfold codeSegment. pose proof (Z.div_pos pos 8 ltac:(lia) ltac:(lia)). destruct (at_Z_in bits (pos / 8)) as (b & _ & El).
  { split; [done|]. apply Z.div_lt_upper_bound; [lia|]. unfold len in *. lia. }
  unfold bitAt. rewrite El. cbn [from_option]. f_equal.
  pose proof (Z.mod_pos_bound pos 8 ltac:(lia)). replace (Z.shiftr 0x80 (pos mod 8)) with (2 ^ (7 - pos mod 8)).
  - rewrite land_pow2 by lia. destruct (Z.testbit _ _); [|done]. cbn [negb]. apply Z.eqb_neq. pose proof (Z.pow_pos_nonneg 2 (7 - pos mod 8)). lia.
  - change 0x80 with (2 ^ 7). rewrite Z.shiftr_div_pow2, Z.pow_sub_r by lia. done.
Qed.

(** * Arithmetic *)

Lemma SafeAdd_ok x y s : is_u64 x -> is_u64 y -> SafeAdd x y = (s, false) -> s = x + y /\ is_u64 s.
Proof.
  intros Hx Hy. unfold SafeAdd. destruct (Add64_spec x y 0 Hx Hy ltac:(lia)) as (r & k & -> & Hr & Hu & _). intros [= <- E].
  apply negb_false_iff, Z.eqb_eq in E. subst k. split; [lia|done].
Qed.

Lemma SafeMul_ok x y s : is_u64 x -> is_u64 y -> SafeMul x y = (s, false) -> s = x * y /\ is_u64 s.
Proof.
  intros Hx Hy. unfold SafeMul. destruct (Mul64_spec x y Hx Hy) as (hi & lo & -> & Hr & Hu & _). intros [= <- E].
  apply negb_false_iff, Z.eqb_eq in E. subst hi. split; [lia|done].
Qed.

Lemma toWordSize_spec size : is_u64 size -> 0 <= toWordSize size <= 2 ^ 59 /\ size <= 32 * toWordSize size < size + 32.
Proof.
  intros Hs. unfold is_u64 in Hs. unfold toWordSize. rewrite MaxUint64_val. change (2 ^ 64) with 18446744073709551616 in Hs. change (2 ^ 59) with 576460752303423488.
  destruct (Z.ltb_spec (18446744073709551615 - 31) size).
  - change (18446744073709551615 / 32 + 1) with 576460752303423488. lia.
  - pose proof (Z.div_mod (size + 31) 32 ltac:(lia)). pose proof (Z.mod_pos_bound (size + 31) 32 ltac:(lia)). lia.
Qed.

(** The memory that an access of [l] bytes at [off] needs. *)
Definition memNeed (off l s : Z) : Prop := is_u64 s /\ ((l = 0 /\ s = 0) \/ (0 < l /\ s = off + l)).

Lemma calcMemSize64WithUint_ok off l s : wf off -> is_u64 l -> calcMemSize64WithUint off l = (s, false) -> memNeed (toZ off) l s.
Proof.
  intros Ho Hl. unfold calcMemSize64WithUint. rewrite Uint64WithOverflow_spec by done. pose proof (toZ_range off Ho).
  destruct (Z.eqb_spec l 0) as [->|Hne]; [intros [= <-]; split; [apply is_u64_0|by left]|].
  destruct (Z.leb_spec B64 (toZ off)); [done|]. rewrite Z.mod_small by lia. intros E. injection E as E1 E2. apply Z.ltb_ge in E2.
  destruct (u64_spec (toZ off + l)) as [k Hk]. pose proof (u64_range (toZ off + l)) as Hr. rewrite E1 in *. unfold is_u64 in *. unfold B64 in *.
  change (2 ^ 64) with 18446744073709551616 in *. assert (k = 0) as -> by lia. split; [done|]. right. lia.
Qed.

Lemma calcMemSize64_ok off l s : wf off -> wf l -> calcMemSize64 off l = (s, false) -> memNeed (toZ off) (toZ l) s /\ toZ l < 2 ^ 64.
Proof.
  intros Ho Hl. unfold calcMemSize64. rewrite IsUint64_spec by done. destruct (Z.ltb_spec (toZ l) B64); [|done]. cbn [negb]. intros E.
  unfold U256.Uint64 in E. rewrite <- (toZ_IsUint64 l Hl) in E by done. pose proof (toZ_range l Hl). split; [|done]. apply calcMemSize64WithUint_ok; [done|split; [lia|done]|done].
Qed.

(** * Slices *)

Lemma slice_ok {A} (l : list A) i j : 0 <= i <= j -> j <= len l -> slice_ l i j = Ok (take (Z.to_nat (j - i)) (drop (Z.to_nat i) l)).
Proof. intros Hi Hj. unfold slice_. by rewrite !(proj2 (Z.leb_le _ _)) by lia. Qed.

Lemma length_slice {A} (l : list A) i j : 0 <= i <= j -> j <= len l -> length (take (Z.to_nat (j - i)) (drop (Z.to_nat i) l)) = Z.to_nat (j - i).
Proof. intros Hi Hj. unfold len in *. rewrite length_take, length_drop. lia. Qed.

(** [value] written over [l] from [i] on, up to [n] bytes of it. *)
Definition splice {A} (l : list A) (i n : nat) (value : list A) : list A :=
  let v := take n value in take i l ++ v ++ drop (i + length v) l.

Lemma length_splice {A} (l : list A) i n value : (i + n <= length l)%nat -> length (splice l i n value) = length l.
Proof. intros H. unfold splice. rewrite !length_app, length_drop, !length_take. lia. Qed.

Lemma copyTo_ok {A} (l : list A) i j value : 0 <= i <= j -> j <= len l -> copyTo l i j value = Ok (splice l (Z.to_nat i) (Z.to_nat (j - i)) value).
Proof. intros Hi Hj. unfold copyTo, splice. rewrite slice_ok by done. cbn. by rewrite length_slice by done. Qed.

Lemma length_RightPadBytes b l : 0 <= l -> len b <= l -> len (RightPadBytes b l) = l.
Proof.
  intros Hl Hb. unfold RightPadBytes, len in *. destruct (Z.leb_spec l (Z.of_nat (length b))); [lia|]. rewrite length_app, length_replicate. lia.
Qed.

(** [size] bytes of the data from [start] on, with zeros beyond its end. *)
Lemma getData_ok data start size : len data < 2 ^ 63 -> 0 <= start -> 0 <= size < 2 ^ 63 -> exists d, getData data start size = Ok d /\ len d = size /\
  forall i, (i < Z.to_nat size)%nat -> d !! i = Some (default Byte.x00 (data !! (Z.to_nat start + i)%nat)).
Proof.
  intros Hd Hs Hz. unfold getData. change (2 ^ 63) with 9223372036854775808 in *. assert (forall x y, (if Z.ltb x y then x else y) = Z.min x y) as Hmin by (intros x y; destruct (Z.ltb_spec x y); lia).
  assert (0 <= len data) by (unfold len; lia). rewrite !Hmin, u64_small by (split; [lia|change (2 ^ 64) with 18446744073709551616; lia]). rewrite i64_small by (change (2 ^ 63) with 9223372036854775808; lia).
  set (st := Z.min (len data) start). set (en := Z.min (len data) (st + size)). assert (0 <= st <= en /\ en <= len data) as [Hst Hen] by lia.
  rewrite slice_ok by lia. cbn. eexists. split; [done|]. pose proof (length_slice data st en ltac:(lia) ltac:(lia)) as Hlen.
  split; [apply length_RightPadBytes; [lia|]; unfold len at 1; rewrite Hlen; lia|]. intros i Hi.
  assert (forall i, (i < Z.to_nat (en - st))%nat -> take (Z.to_nat (en - st)) (drop (Z.to_nat st) data) !! i = Some (default Byte.x00 (data !! (Z.to_nat start + i)%nat))) as Hin.
  { intros k Hk. rewrite lookup_take_lt, lookup_drop by done. replace (Z.to_nat st) with (Z.to_nat start) by lia.
    destruct (lookup_lt_is_Some_2 data (Z.to_nat start + k)) as [x E]; [unfold len in *; lia|]. by rewrite E. }
  unfold RightPadBytes. unfold len at 1. rewrite Hlen. destruct (Z.leb_spec size (Z.of_nat (Z.to_nat (en - st)))); [apply Hin; lia|].
  destruct (decide (i < Z.to_nat (en - st))%nat) as [Hlt|Hge]; [rewrite lookup_app_l by lia; by apply Hin|].
  rewrite lookup_app_r, lookup_replicate_2 by lia. rewrite lookup_ge_None_2; [done|]. unfold len in *. lia.
Qed.

(** * The memory *)

(** The fee for a memory of [w] words. *)
Definition memFee (w : Z) : Z := 3 * w + w * w / 512.

Lemma memFee_mono v w : 0 <= v <= w -> memFee v <= memFee w.
Proof. intros H. unfold memFee. assert (v * v / 512 <= w * w / 512) by (apply Z.div_le_mono; nia). lia. Qed.

Lemma memFee_range w : 0 <= w <= 0xFFFFFFFF -> 0 <= memFee w < 2 ^ 56.
Proof.
  intros H. split; [apply (memFee_mono 0 w); lia|]. apply Z.le_lt_trans with (memFee 0xFFFFFFFF); [apply memFee_mono; lia|by vm_compute].
Qed.

(** The memory is whole words, and they are paid. *)
Definition memOk (m : Memory) : Prop := exists w, 0 <= w <= 0xFFFFFFFF /\ Len m = 32 * w /\ lastGasCost m = memFee w.

Lemma memOk_New : memOk NewMemory.
Proof. exists 0. split; [lia|done]. Qed.

(** An access of [size] bytes at [off] is inside the memory. *)
Definition inMem (m : Memory) (off size : Z) : Prop := size = 0 \/ (0 <= off /\ 0 < size /\ off + size <= Len m).

Lemma Len_Resize m n : 0 <= n -> Len (Resize m n) = Z.max (Len m) n.
Proof.
  intros Hn. unfold Resize. destruct (Z.ltb_spec (Len m) n); [|lia]. unfold upd, set_store, Len in *. cbn [store]. unfold len in *. rewrite length_app, length_replicate. lia.
Qed.

Lemma lastGasCost_Resize m n : lastGasCost (Resize m n) = lastGasCost m.
Proof. unfold Resize. by destruct (Z.ltb _ _). Qed.

(** What [memoryGasCost] charges pays for the memory after the resize. *)
Lemma memoryGasCost_ok m words : memOk m -> 0 <= words -> match memoryGasCost m (32 * words) with
  | Ok (fee, m') => 0 <= fee < 2 ^ 56 /\ store m' = store m /\ lastGasCost m' = lastGasCost m + fee /\ memOk (Resize m' (32 * words))
  | Fail _ => True
  | Panic _ => False
  end.
Proof.
  intros (w & Hw & El & Ef) Hn. unfold memoryGasCost. destruct (Z.eqb_spec (32 * words) 0) as [E0|Hne].
  { rewrite E0. split; [lia|]. split; [done|]. split; [lia|]. exists w. unfold Resize. rewrite (proj2 (Z.ltb_ge _ _)) by lia. done. }
  destruct (Z.ltb_spec 0x1FFFFFFFE0 (32 * words)) as [|Hle]; [done|].
  assert (toWordSize (32 * words) = words) as -> by (pose proof (toWordSize_spec (32 * words)) as H; unfold is_u64 in H; change (2 ^ 64) with 18446744073709551616 in H; lia).
  pose proof (memFee_range w Hw). pose proof (memFee_range words ltac:(lia)) as Hfw. change (2 ^ 56) with 72057594037927936 in *.
  assert (0 <= words * words <= 0xFFFFFFFF * 0xFFFFFFFF) by nia.
  assert (forall z, 0 <= z < 18446744073709551616 -> u64 z = z) as Hu by (intros z Hz; by apply u64_small).
  rewrite (Hu (words * 32)), (Z.mul_comm words 32) by lia.
  destruct (Z.ltb_spec (Len m) (32 * words)).
  - pose proof (memFee_mono w words ltac:(lia)). rewrite (Hu (words * params.MemoryGas)), (Hu (words * words)) by (unfold params.MemoryGas; lia).
    replace (words * params.MemoryGas + words * words / params.QuadCoeffDiv) with (memFee words) by (unfold memFee, params.MemoryGas, params.QuadCoeffDiv; lia).
    rewrite Ef, (Hu (memFee words)), (Hu (memFee words - memFee w)) by lia.
    split; [lia|]. split; [done|]. split; [cbn; lia|]. exists words. split; [lia|]. rewrite Len_Resize by lia. split; [unfold upd, set_lastGasCost, Len in *; cbn [store]; lia|]. by rewrite lastGasCost_Resize.
  - split; [lia|]. split; [done|]. split; [lia|]. unfold Resize. rewrite (proj2 (Z.ltb_ge _ _)) by lia. exists w. split; [done|]. split; [lia|done].
Qed.

Lemma GetPtr_ok m off size : inMem m off size -> Len m < 2 ^ 40 -> exists d, GetPtr m off size = Ok d /\ GetCopy m off size = Ok d /\ len d = size /\
  (0 < size -> d = take (Z.to_nat size) (drop (Z.to_nat off) (store m))).
Proof.
  intros [->|(Ho & Hs & Hl)] HL; [by exists []|]. change (2 ^ 40) with 1099511627776 in HL. unfold GetPtr, GetCopy. rewrite (proj2 (Z.eqb_neq _ _)), (proj2 (Z.ltb_lt _ _)), (proj2 (Z.ltb_ge _ _)) by lia.
  rewrite i64_small by (change (2 ^ 63) with 9223372036854775808; lia). rewrite slice_ok by (unfold Len in *; lia). eexists. split; [done|]. split; [done|].
  split; [unfold len; rewrite length_slice by (unfold Len in *; lia); lia|]. intros _. do 2 f_equal. lia.
Qed.

Lemma Set_ok m off size value : inMem m off size -> Len m < 2 ^ 40 -> exists m', Set_ m off size value = Ok m' /\ Len m' = Len m /\ lastGasCost m' = lastGasCost m /\
  (0 < size -> store m' = splice (store m) (Z.to_nat off) (Z.to_nat size) value).
Proof.
  intros [->|(Ho & Hs & Hl)] HL; [by exists m|]. change (2 ^ 40) with 1099511627776 in HL. unfold Set_. rewrite (proj2 (Z.ltb_lt _ _)) by lia.
  rewrite u64_small by (unfold is_u64; change (2 ^ 64) with 18446744073709551616; lia). rewrite (proj2 (Z.ltb_ge _ _)), copyTo_ok by (unfold Len in *; lia). cbn.
  replace (off + size - off) with size by lia. eexists. split; [done|]. cbn. split; [|done]. unfold Len, len in *. cbn. rewrite length_splice by lia. done.
Qed.

Lemma Set32_ok m off val : wf val -> 0 <= off -> off + 32 <= Len m -> Len m < 2 ^ 40 ->
  exists m', Set32 m off val = Ok m' /\ Len m' = Len m /\ lastGasCost m' = lastGasCost m /\ store m' = splice (store m) (Z.to_nat off) 32 (U256.Bytes32 val).
Proof.
  intros Hv Ho Hl HL. change (2 ^ 40) with 1099511627776 in HL. unfold Set32. rewrite u64_small by (unfold is_u64; change (2 ^ 64) with 18446744073709551616; lia).
  rewrite (proj2 (Z.ltb_ge _ _)), copyTo_ok by (unfold Len in *; lia). cbn -[replicate]. replace (off + 32 - off) with 32 by lia. change (Z.to_nat 32) with 32%nat.
  set (s0 := splice (store m) (Z.to_nat off) 32 (replicate 32 Byte.x00)). assert (length s0 = length (store m)) as Hs0 by (apply length_splice; unfold Len, len in *; lia).
  unfold Len, len in *. rewrite slice_ok by (unfold len; lia). cbn -[replicate]. eexists. split; [done|]. cbn [store lastGasCost upd set_store].
  rewrite (take_ge (drop _ _)) by (rewrite length_drop; unfold len; lia).
  assert (take (Z.to_nat off) s0 ++ U256.WriteToSlice val (drop (Z.to_nat off) s0) = splice (store m) (Z.to_nat off) 32 (U256.Bytes32 val)) as ->.
  { unfold U256.WriteToSlice. rewrite length_drop. replace (Nat.min _ 32) with 32%nat by lia. rewrite writeBytes_spec by (rewrite ?length_drop; lia). cbn [Nat.sub]. rewrite take_0. cbn [app].
    rewrite bytes_map, <- Bytes32_be, drop_drop by (done || lia). unfold splice. rewrite (take_ge (U256.Bytes32 val)) by (rewrite length_Bytes32; lia). rewrite length_Bytes32.
    unfold s0, splice. rewrite (take_ge (replicate _ _)) by done. rewrite length_replicate. f_equal; [|f_equal].
    - rewrite take_app_le, take_take by (rewrite length_take; lia). f_equal. lia.
    - rewrite app_assoc, drop_app_ge by (rewrite length_app, length_take, length_replicate; lia). rewrite length_app, length_take, length_replicate, drop_drop. f_equal. lia. }
  split; [|done]. rewrite length_splice; lia.
Qed.
