(* ===== verification/EvmTable.v ===== *)
(** The instruction tables of the EVM.

    Models src/core/vm/jump_table.go and eips.go, the tables' choice by the rules in
    [NewEVMInterpreter] (interpreter.go) and the names of opcodes.go.  The functions
    that an entry holds are named by constructors here and given their meaning in
    Evm.v, so that the tables are closed data and can be checked by evaluation. *)

From S2P Require Import Prelude Common Uint256 EvmBase.
From Stdlib Require Import Strings.Byte.
#[local] Open Scope Z_scope.

(** * Entries *)

Inductive executionFunc :=
| X_opAdd | X_opAddmod | X_opAddress | X_opAnd | X_opBalance | X_opBaseFee | X_opBlockhash | X_opByte
| X_opCall | X_opCallCode | X_opCallDataCopy | X_opCallDataLoad | X_opCallDataSize | X_opCallValue | X_opCaller | X_opChainID
| X_opCodeCopy | X_opCodeSize | X_opCoinbase | X_opCreate | X_opCreate2 | X_opDelegateCall | X_opDifficulty | X_opDiv
| X_opEq | X_opExp | X_opExtCodeCopy | X_opExtCodeHash | X_opExtCodeSize | X_opGas | X_opGasLimit | X_opGasprice
| X_opGt | X_opIszero | X_opJump | X_opJumpdest | X_opJumpi | X_opLt | X_opMload | X_opMod
| X_opMsize | X_opMstore | X_opMstore8 | X_opMul | X_opMulmod | X_opNot | X_opNumber | X_opOr
| X_opOrigin | X_opPc | X_opPop | X_opPush1 | X_opReturn | X_opReturnDataCopy | X_opReturnDataSize | X_opRevert
| X_opSAR | X_opSHL | X_opSHR | X_opSdiv | X_opSelfBalance | X_opSgt | X_opSha3 | X_opSignExtend
| X_opSload | X_opSlt | X_opSmod | X_opSstore | X_opStaticCall | X_opStop | X_opSub | X_opSuicide
| X_opTimestamp | X_opXor
| X_makeLog (size : nat)
| X_makePush (size pushByteSize : Z)
| X_makeDup (size : nat)
| X_makeSwap (size : nat).

Inductive memorySizeFunc :=
| M_memoryCall | M_memoryCallDataCopy | M_memoryCodeCopy | M_memoryCreate | M_memoryCreate2 | M_memoryDelegateCall
| M_memoryExtCodeCopy | M_memoryLog | M_memoryMLoad | M_memoryMStore | M_memoryMStore8 | M_memoryReturn
| M_memoryReturnDataCopy | M_memoryRevert | M_memorySha3 | M_memoryStaticCall.

(** [G_makeCallVariantGasCallEIP2929] wraps one of the four older functions. *)
Inductive gasFunc :=
| G_memoryCopierGas (stackpos : nat)
| G_gasSStore
| G_gasSStoreEIP2200
| G_makeGasLog (n : Z)
| G_gasSha3
| G_pureMemoryGascost
| G_gasCreate2
| G_gasExpFrontier
| G_gasExpEIP158
| G_gasCall
| G_gasCallCode
| G_gasDelegateCall
| G_gasStaticCall
| G_gasSelfdestruct
| G_makeGasSStoreFunc (clearingRefund : Z)
| G_gasSLoadEIP2929
| G_gasExtCodeCopyEIP2929
| G_gasEip2929AccountCheck
| G_makeCallVariantGasCallEIP2929 (oldCalculator : gasFunc)
| G_makeSelfdestructGasFn (refundsEnabled : bool).

#[export] Instance executionFunc_eq_dec : EqDecision executionFunc.
Proof. solve_decision. Defined.
#[export] Instance memorySizeFunc_eq_dec : EqDecision memorySizeFunc.
Proof. solve_decision. Defined.
#[export] Instance gasFunc_eq_dec : EqDecision gasFunc.
Proof. solve_decision. Defined.

Record operation := mkOperation {
  execute : executionFunc;
  constantGas : Z;
  dynamicGas : option gasFunc;
  op_minStack : Z;
  op_maxStack : Z;
  memorySize : option memorySizeFunc;
  halts : bool;
  jumps : bool;
  writes : bool;
  reverts : bool;
  returns : bool;
}.
#[export] Instance operation_eta : Eta operation := fun o => mkOperation (execute o) (constantGas o) (dynamicGas o) (op_minStack o) (op_maxStack o) (memorySize o) (halts o) (jumps o) (writes o) (reverts o) (returns o).
#[export] Instance set_constantGas : Setter constantGas := ltac:(derive_setter).
#[export] Instance set_dynamicGas : Setter dynamicGas := ltac:(derive_setter).

(** The [nil] entries are absent. *)
Abbreviation JumpTable := (gmap Z operation).

(** The gas functions that are variables of gas_table.go and operations_acl.go. *)
Definition gasCallDataCopy : gasFunc := G_memoryCopierGas 2.
Definition gasCodeCopy : gasFunc := G_memoryCopierGas 2.
Definition gasExtCodeCopy : gasFunc := G_memoryCopierGas 3.
Definition gasReturnDataCopy : gasFunc := G_memoryCopierGas 2.
Definition gasReturn : gasFunc := G_pureMemoryGascost.
Definition gasRevert : gasFunc := G_pureMemoryGascost.
Definition gasMLoad : gasFunc := G_pureMemoryGascost.
Definition gasMStore8 : gasFunc := G_pureMemoryGascost.
Definition gasMStore : gasFunc := G_pureMemoryGascost.
Definition gasCreate : gasFunc := G_pureMemoryGascost.
Definition gasCallEIP2929 : gasFunc := G_makeCallVariantGasCallEIP2929 G_gasCall.
Definition gasDelegateCallEIP2929 : gasFunc := G_makeCallVariantGasCallEIP2929 G_gasDelegateCall.
Definition gasStaticCallEIP2929 : gasFunc := G_makeCallVariantGasCallEIP2929 G_gasStaticCall.
Definition gasCallCodeEIP2929 : gasFunc := G_makeCallVariantGasCallEIP2929 G_gasCallCode.
Definition gasSelfdestructEIP2929 : gasFunc := G_makeSelfdestructGasFn true.
Definition gasSelfdestructEIP3529 : gasFunc := G_makeSelfdestructGasFn false.
Definition gasSStoreEIP2929 : gasFunc := G_makeGasSStoreFunc params.SstoreClearsScheduleRefundEIP2200.
Definition gasSStoreEIP3529 : gasFunc := G_makeGasSStoreFunc params.SstoreClearsScheduleRefundEIP3529.

(** * The tables *)

Section tables.
Import params.

(** The table of Frontier, in the order of jump_table.go. *)
(** Arithmetic, comparisons, bits and hashes. *)
Definition frontierArithmetic : list (Z * operation) := [
  (opcodes.STOP, mkOperation X_opStop 0 None (minStack 0 0) (maxStack 0 0) None true false false false false);
  (opcodes.ADD, mkOperation X_opAdd GasFastestStep None (minStack 2 1) (maxStack 2 1) None false false false false false);
  (opcodes.MUL, mkOperation X_opMul GasFastStep None (minStack 2 1) (maxStack 2 1) None false false false false false);
  (opcodes.SUB, mkOperation X_opSub GasFastestStep None (minStack 2 1) (maxStack 2 1) None false false false false false);
  (opcodes.DIV, mkOperation X_opDiv GasFastStep None (minStack 2 1) (maxStack 2 1) None false false false false false);
  (opcodes.SDIV, mkOperation X_opSdiv GasFastStep None (minStack 2 1) (maxStack 2 1) None false false false false false);
  (opcodes.MOD, mkOperation X_opMod GasFastStep None (minStack 2 1) (maxStack 2 1) None false false false false false);
  (opcodes.SMOD, mkOperation X_opSmod GasFastStep None (minStack 2 1) (maxStack 2 1) None false false false false false);
  (opcodes.ADDMOD, mkOperation X_opAddmod GasMidStep None (minStack 3 1) (maxStack 3 1) None false false false false false);
  (opcodes.MULMOD, mkOperation X_opMulmod GasMidStep None (minStack 3 1) (maxStack 3 1) None false false false false false);
  (opcodes.EXP, mkOperation X_opExp 0 (Some G_gasExpFrontier) (minStack 2 1) (maxStack 2 1) None false false false false false);
  (opcodes.SIGNEXTEND, mkOperation X_opSignExtend GasFastStep None (minStack 2 1) (maxStack 2 1) None false false false false false);
  (opcodes.LT, mkOperation X_opLt GasFastestStep None (minStack 2 1) (maxStack 2 1) None false false false false false);
  (opcodes.GT, mkOperation X_opGt GasFastestStep None (minStack 2 1) (maxStack 2 1) None false false false false false);
  (opcodes.SLT, mkOperation X_opSlt GasFastestStep None (minStack 2 1) (maxStack 2 1) None false false false false false);
  (opcodes.SGT, mkOperation X_opSgt GasFastestStep None (minStack 2 1) (maxStack 2 1) None false false false false false);
  (opcodes.EQ, mkOperation X_opEq GasFastestStep None (minStack 2 1) (maxStack 2 1) None false false false false false);
  (opcodes.ISZERO, mkOperation X_opIszero GasFastestStep None (minStack 1 1) (maxStack 1 1) None false false false false false);
  (opcodes.AND, mkOperation X_opAnd GasFastestStep None (minStack 2 1) (maxStack 2 1) None false false false false false);
  (opcodes.XOR, mkOperation X_opXor GasFastestStep None (minStack 2 1) (maxStack 2 1) None false false false false false);
  (opcodes.OR, mkOperation X_opOr GasFastestStep None (minStack 2 1) (maxStack 2 1) None false false false false false);
  (opcodes.NOT, mkOperation X_opNot GasFastestStep None (minStack 1 1) (maxStack 1 1) None false false false false false);
  (opcodes.BYTE, mkOperation X_opByte GasFastestStep None (minStack 2 1) (maxStack 2 1) None false false false false false);
  (opcodes.SHA3, mkOperation X_opSha3 Sha3Gas (Some G_gasSha3) (minStack 2 1) (maxStack 2 1) (Some M_memorySha3) false false false false false)].
(** The contract, its call and the block. *)
Definition frontierEnvironment : list (Z * operation) := [
  (opcodes.ADDRESS, mkOperation X_opAddress GasQuickStep None (minStack 0 1) (maxStack 0 1) None false false false false false);
  (opcodes.BALANCE, mkOperation X_opBalance BalanceGasFrontier None (minStack 1 1) (maxStack 1 1) None false false false false false);
  (opcodes.ORIGIN, mkOperation X_opOrigin GasQuickStep None (minStack 0 1) (maxStack 0 1) None false false false false false);
  (opcodes.CALLER, mkOperation X_opCaller GasQuickStep None (minStack 0 1) (maxStack 0 1) None false false false false false);
  (opcodes.CALLVALUE, mkOperation X_opCallValue GasQuickStep None (minStack 0 1) (maxStack 0 1) None false false false false false);
  (opcodes.CALLDATALOAD, mkOperation X_opCallDataLoad GasFastestStep None (minStack 1 1) (maxStack 1 1) None false false false false false);
  (opcodes.CALLDATASIZE, mkOperation X_opCallDataSize GasQuickStep None (minStack 0 1) (maxStack 0 1) None false false false false false);
  (opcodes.CALLDATACOPY, mkOperation X_opCallDataCopy GasFastestStep (Some gasCallDataCopy) (minStack 3 0) (maxStack 3 0) (Some M_memoryCallDataCopy) false false false false false);
  (opcodes.CODESIZE, mkOperation X_opCodeSize GasQuickStep None (minStack 0 1) (maxStack 0 1) None false false false false false);
  (opcodes.CODECOPY, mkOperation X_opCodeCopy GasFastestStep (Some gasCodeCopy) (minStack 3 0) (maxStack 3 0) (Some M_memoryCodeCopy) false false false false false);
  (opcodes.GASPRICE, mkOperation X_opGasprice GasQuickStep None (minStack 0 1) (maxStack 0 1) None false false false false false);
  (opcodes.EXTCODESIZE, mkOperation X_opExtCodeSize ExtcodeSizeGasFrontier None (minStack 1 1) (maxStack 1 1) None false false false false false);
  (opcodes.EXTCODECOPY, mkOperation X_opExtCodeCopy ExtcodeCopyBaseFrontier (Some gasExtCodeCopy) (minStack 4 0) (maxStack 4 0) (Some M_memoryExtCodeCopy) false false false false false);
  (opcodes.BLOCKHASH, mkOperation X_opBlockhash GasExtStep None (minStack 1 1) (maxStack 1 1) None false false false false false);
  (opcodes.COINBASE, mkOperation X_opCoinbase GasQuickStep None (minStack 0 1) (maxStack 0 1) None false false false false false);
  (opcodes.TIMESTAMP, mkOperation X_opTimestamp GasQuickStep None (minStack 0 1) (maxStack 0 1) None false false false false false);
  (opcodes.NUMBER, mkOperation X_opNumber GasQuickStep None (minStack 0 1) (maxStack 0 1) None false false false false false);
  (opcodes.DIFFICULTY, mkOperation X_opDifficulty GasQuickStep None (minStack 0 1) (maxStack 0 1) None false false false false false);
  (opcodes.GASLIMIT, mkOperation X_opGasLimit GasQuickStep None (minStack 0 1) (maxStack 0 1) None false false false false false)].
(** Stack, memory, storage and jumps. *)
Definition frontierMachine : list (Z * operation) := [
  (opcodes.POP, mkOperation X_opPop GasQuickStep None (minStack 1 0) (maxStack 1 0) None false false false false false);
  (opcodes.MLOAD, mkOperation X_opMload GasFastestStep (Some gasMLoad) (minStack 1 1) (maxStack 1 1) (Some M_memoryMLoad) false false false false false);
  (opcodes.MSTORE, mkOperation X_opMstore GasFastestStep (Some gasMStore) (minStack 2 0) (maxStack 2 0) (Some M_memoryMStore) false false false false false);
  (opcodes.MSTORE8, mkOperation X_opMstore8 GasFastestStep (Some gasMStore8) (minStack 2 0) (maxStack 2 0) (Some M_memoryMStore8) false false false false false);
  (opcodes.SLOAD, mkOperation X_opSload SloadGasFrontier None (minStack 1 1) (maxStack 1 1) None false false false false false);
  (opcodes.SSTORE, mkOperation X_opSstore 0 (Some G_gasSStore) (minStack 2 0) (maxStack 2 0) None false false true false false);
  (opcodes.JUMP, mkOperation X_opJump GasMidStep None (minStack 1 0) (maxStack 1 0) None false true false false false);
  (opcodes.JUMPI, mkOperation X_opJumpi GasSlowStep None (minStack 2 0) (maxStack 2 0) None false true false false false);
  (opcodes.PC, mkOperation X_opPc GasQuickStep None (minStack 0 1) (maxStack 0 1) None false false false false false);
  (opcodes.MSIZE, mkOperation X_opMsize GasQuickStep None (minStack 0 1) (maxStack 0 1) None false false false false false);
  (opcodes.GAS, mkOperation X_opGas GasQuickStep None (minStack 0 1) (maxStack 0 1) None false false false false false);
  (opcodes.JUMPDEST, mkOperation X_opJumpdest JumpdestGas None (minStack 0 0) (maxStack 0 0) None false false false false false)].
(** PUSH1 to PUSH16. *)
Definition frontierPush : list (Z * operation) := [
  (opcodes.PUSH1, mkOperation X_opPush1 GasFastestStep None (minStack 0 1) (maxStack 0 1) None false false false false false);
  (opcodes.PUSH2, mkOperation (X_makePush 2 2) GasFastestStep None (minStack 0 1) (maxStack 0 1) None false false false false false);
  (opcodes.PUSH3, mkOperation (X_makePush 3 3) GasFastestStep None (minStack 0 1) (maxStack 0 1) None false false false false false);
  (opcodes.PUSH4, mkOperation (X_makePush 4 4) GasFastestStep None (minStack 0 1) (maxStack 0 1) None false false false false false);
  (opcodes.PUSH5, mkOperation (X_makePush 5 5) GasFastestStep None (minStack 0 1) (maxStack 0 1) None false false false false false);
  (opcodes.PUSH6, mkOperation (X_makePush 6 6) GasFastestStep None (minStack 0 1) (maxStack 0 1) None false false false false false);
  (opcodes.PUSH7, mkOperation (X_makePush 7 7) GasFastestStep None (minStack 0 1) (maxStack 0 1) None false false false false false);
  (opcodes.PUSH8, mkOperation (X_makePush 8 8) GasFastestStep None (minStack 0 1) (maxStack 0 1) None false false false false false);
  (opcodes.PUSH9, mkOperation (X_makePush 9 9) GasFastestStep None (minStack 0 1) (maxStack 0 1) None false false false false false);
  (opcodes.PUSH10, mkOperation (X_makePush 10 10) GasFastestStep None (minStack 0 1) (maxStack 0 1) None false false false false false);
  (opcodes.PUSH11, mkOperation (X_makePush 11 11) GasFastestStep None (minStack 0 1) (maxStack 0 1) None false false false false false);
  (opcodes.PUSH12, mkOperation (X_makePush 12 12) GasFastestStep None (minStack 0 1) (maxStack 0 1) None false false false false false);
  (opcodes.PUSH13, mkOperation (X_makePush 13 13) GasFastestStep None (minStack 0 1) (maxStack 0 1) None false false false false false);
  (opcodes.PUSH14, mkOperation (X_makePush 14 14) GasFastestStep None (minStack 0 1) (maxStack 0 1) None false false false false false);
  (opcodes.PUSH15, mkOperation (X_makePush 15 15) GasFastestStep None (minStack 0 1) (maxStack 0 1) None false false false false false);
  (opcodes.PUSH16, mkOperation (X_makePush 16 16) GasFastestStep None (minStack 0 1) (maxStack 0 1) None false false false false false)].
(** PUSH17 to PUSH32. *)
Definition frontierLongPush : list (Z * operation) := [
  (opcodes.PUSH17, mkOperation (X_makePush 17 17) GasFastestStep None (minStack 0 1) (maxStack 0 1) None false false false false false);
  (opcodes.PUSH18, mkOperation (X_makePush 18 18) GasFastestStep None (minStack 0 1) (maxStack 0 1) None false false false false false);
  (opcodes.PUSH19, mkOperation (X_makePush 19 19) GasFastestStep None (minStack 0 1) (maxStack 0 1) None false false false false false);
  (opcodes.PUSH20, mkOperation (X_makePush 20 20) GasFastestStep None (minStack 0 1) (maxStack 0 1) None false false false false false);
  (opcodes.PUSH21, mkOperation (X_makePush 21 21) GasFastestStep None (minStack 0 1) (maxStack 0 1) None false false false false false);
  (opcodes.PUSH22, mkOperation (X_makePush 22 22) GasFastestStep None (minStack 0 1) (maxStack 0 1) None false false false false false);
  (opcodes.PUSH23, mkOperation (X_makePush 23 23) GasFastestStep None (minStack 0 1) (maxStack 0 1) None false false false false false);
  (opcodes.PUSH24, mkOperation (X_makePush 24 24) GasFastestStep None (minStack 0 1) (maxStack 0 1) None false false false false false);
  (opcodes.PUSH25, mkOperation (X_makePush 25 25) GasFastestStep None (minStack 0 1) (maxStack 0 1) None false false false false false);
  (opcodes.PUSH26, mkOperation (X_makePush 26 26) GasFastestStep None (minStack 0 1) (maxStack 0 1) None false false false false false);
  (opcodes.PUSH27, mkOperation (X_makePush 27 27) GasFastestStep None (minStack 0 1) (maxStack 0 1) None false false false false false);
  (opcodes.PUSH28, mkOperation (X_makePush 28 28) GasFastestStep None (minStack 0 1) (maxStack 0 1) None false false false false false);
  (opcodes.PUSH29, mkOperation (X_makePush 29 29) GasFastestStep None (minStack 0 1) (maxStack 0 1) None false false false false false);
  (opcodes.PUSH30, mkOperation (X_makePush 30 30) GasFastestStep None (minStack 0 1) (maxStack 0 1) None false false false false false);
  (opcodes.PUSH31, mkOperation (X_makePush 31 31) GasFastestStep None (minStack 0 1) (maxStack 0 1) None false false false false false);
  (opcodes.PUSH32, mkOperation (X_makePush 32 32) GasFastestStep None (minStack 0 1) (maxStack 0 1) None false false false false false)].
(** DUP1 to DUP16. *)
Definition frontierDup : list (Z * operation) := [
  (opcodes.DUP1, mkOperation (X_makeDup 1) GasFastestStep None (minDupStack 1) (maxDupStack 1) None false false false false false);
  (opcodes.DUP2, mkOperation (X_makeDup 2) GasFastestStep None (minDupStack 2) (maxDupStack 2) None false false false false false);
  (opcodes.DUP3, mkOperation (X_makeDup 3) GasFastestStep None (minDupStack 3) (maxDupStack 3) None false false false false false);
  (opcodes.DUP4, mkOperation (X_makeDup 4) GasFastestStep None (minDupStack 4) (maxDupStack 4) None false false false false false);
  (opcodes.DUP5, mkOperation (X_makeDup 5) GasFastestStep None (minDupStack 5) (maxDupStack 5) None false false false false false);
  (opcodes.DUP6, mkOperation (X_makeDup 6) GasFastestStep None (minDupStack 6) (maxDupStack 6) None false false false false false);
  (opcodes.DUP7, mkOperation (X_makeDup 7) GasFastestStep None (minDupStack 7) (maxDupStack 7) None false false false false false);
  (opcodes.DUP8, mkOperation (X_makeDup 8) GasFastestStep None (minDupStack 8) (maxDupStack 8) None false false false false false);
  (opcodes.DUP9, mkOperation (X_makeDup 9) GasFastestStep None (minDupStack 9) (maxDupStack 9) None false false false false false);
  (opcodes.DUP10, mkOperation (X_makeDup 10) GasFastestStep None (minDupStack 10) (maxDupStack 10) None false false false false false);
  (opcodes.DUP11, mkOperation (X_makeDup 11) GasFastestStep None (minDupStack 11) (maxDupStack 11) None false false false false false);
  (opcodes.DUP12, mkOperation (X_makeDup 12) GasFastestStep None (minDupStack 12) (maxDupStack 12) None false false false false false);
  (opcodes.DUP13, mkOperation (X_makeDup 13) GasFastestStep None (minDupStack 13) (maxDupStack 13) None false false false false false);
  (opcodes.DUP14, mkOperation (X_makeDup 14) GasFastestStep None (minDupStack 14) (maxDupStack 14) None false false false false false);
  (opcodes.DUP15, mkOperation (X_makeDup 15) GasFastestStep None (minDupStack 15) (maxDupStack 15) None false false false false false);
  (opcodes.DUP16, mkOperation (X_makeDup 16) GasFastestStep None (minDupStack 16) (maxDupStack 16) None false false false false false)].
(** SWAP1 to SWAP16. *)
Definition frontierSwap : list (Z * operation) := [
  (opcodes.SWAP1, mkOperation (X_makeSwap 1) GasFastestStep None (minSwapStack 2) (maxSwapStack 2) None false false false false false);
  (opcodes.SWAP2, mkOperation (X_makeSwap 2) GasFastestStep None (minSwapStack 3) (maxSwapStack 3) None false false false false false);
  (opcodes.SWAP3, mkOperation (X_makeSwap 3) GasFastestStep None (minSwapStack 4) (maxSwapStack 4) None false false false false false);
  (opcodes.SWAP4, mkOperation (X_makeSwap 4) GasFastestStep None (minSwapStack 5) (maxSwapStack 5) None false false false false false);
  (opcodes.SWAP5, mkOperation (X_makeSwap 5) GasFastestStep None (minSwapStack 6) (maxSwapStack 6) None false false false false false);
  (opcodes.SWAP6, mkOperation (X_makeSwap 6) GasFastestStep None (minSwapStack 7) (maxSwapStack 7) None false false false false false);
  (opcodes.SWAP7, mkOperation (X_makeSwap 7) GasFastestStep None (minSwapStack 8) (maxSwapStack 8) None false false false false false);
  (opcodes.SWAP8, mkOperation (X_makeSwap 8) GasFastestStep None (minSwapStack 9) (maxSwapStack 9) None false false false false false);
  (opcodes.SWAP9, mkOperation (X_makeSwap 9) GasFastestStep None (minSwapStack 10) (maxSwapStack 10) None false false false false false);
  (opcodes.SWAP10, mkOperation (X_makeSwap 10) GasFastestStep None (minSwapStack 11) (maxSwapStack 11) None false false false false false);
  (opcodes.SWAP11, mkOperation (X_makeSwap 11) GasFastestStep None (minSwapStack 12) (maxSwapStack 12) None false false false false false);
  (opcodes.SWAP12, mkOperation (X_makeSwap 12) GasFastestStep None (minSwapStack 13) (maxSwapStack 13) None false false false false false);
  (opcodes.SWAP13, mkOperation (X_makeSwap 13) GasFastestStep None (minSwapStack 14) (maxSwapStack 14) None false false false false false);
  (opcodes.SWAP14, mkOperation (X_makeSwap 14) GasFastestStep None (minSwapStack 15) (maxSwapStack 15) None false false false false false);
  (opcodes.SWAP15, mkOperation (X_makeSwap 15) GasFastestStep None (minSwapStack 16) (maxSwapStack 16) None false false false false false);
  (opcodes.SWAP16, mkOperation (X_makeSwap 16) GasFastestStep None (minSwapStack 17) (maxSwapStack 17) None false false false false false)].
(** Logs, calls, creation and ends. *)
Definition frontierSystem : list (Z * operation) := [
  (opcodes.LOG0, mkOperation (X_makeLog 0) 0 (Some (G_makeGasLog 0)) (minStack 2 0) (maxStack 2 0) (Some M_memoryLog) false false true false false);
  (opcodes.LOG1, mkOperation (X_makeLog 1) 0 (Some (G_makeGasLog 1)) (minStack 3 0) (maxStack 3 0) (Some M_memoryLog) false false true false false);
  (opcodes.LOG2, mkOperation (X_makeLog 2) 0 (Some (G_makeGasLog 2)) (minStack 4 0) (maxStack 4 0) (Some M_memoryLog) false false true false false);
  (opcodes.LOG3, mkOperation (X_makeLog 3) 0 (Some (G_makeGasLog 3)) (minStack 5 0) (maxStack 5 0) (Some M_memoryLog) false false true false false);
  (opcodes.LOG4, mkOperation (X_makeLog 4) 0 (Some (G_makeGasLog 4)) (minStack 6 0) (maxStack 6 0) (Some M_memoryLog) false false true false false);
  (opcodes.CREATE, mkOperation X_opCreate CreateGas (Some gasCreate) (minStack 3 1) (maxStack 3 1) (Some M_memoryCreate) false false true false true);
  (opcodes.CALL, mkOperation X_opCall CallGasFrontier (Some G_gasCall) (minStack 7 1) (maxStack 7 1) (Some M_memoryCall) false false false false true);
  (opcodes.CALLCODE, mkOperation X_opCallCode CallGasFrontier (Some G_gasCallCode) (minStack 7 1) (maxStack 7 1) (Some M_memoryCall) false false false false true);
  (opcodes.RETURN, mkOperation X_opReturn 0 (Some gasReturn) (minStack 2 0) (maxStack 2 0) (Some M_memoryReturn) true false false false false);
  (opcodes.SELFDESTRUCT, mkOperation X_opSuicide 0 (Some G_gasSelfdestruct) (minStack 1 0) (maxStack 1 0) None true false true false false)].
Definition newFrontierInstructionSet : JumpTable :=
  list_to_map (frontierArithmetic ++ frontierEnvironment ++ frontierMachine ++ frontierPush ++ frontierLongPush ++ frontierDup ++ frontierSwap ++ frontierSystem).

Definition newHomesteadInstructionSet : JumpTable :=
  <[opcodes.DELEGATECALL := mkOperation X_opDelegateCall CallGasFrontier (Some G_gasDelegateCall) (minStack 6 1) (maxStack 6 1) (Some M_memoryDelegateCall) false false false false true]> newFrontierInstructionSet.

(** [jt[op].constantGas = gas] and [jt[op].dynamicGas = f]. *)
Definition setConstant (op gas : Z) (jt : JumpTable) : JumpTable := alter (fun o => o <| constantGas := gas |>) op jt.
Definition setDynamic (op : Z) (f : gasFunc) (jt : JumpTable) : JumpTable := alter (fun o => o <| dynamicGas := Some f |>) op jt.

Definition newTangerineWhistleInstructionSet : JumpTable :=
  setConstant opcodes.DELEGATECALL CallGasEIP150 $ setConstant opcodes.CALLCODE CallGasEIP150 $ setConstant opcodes.CALL CallGasEIP150 $
  setConstant opcodes.EXTCODECOPY ExtcodeCopyBaseEIP150 $ setConstant opcodes.SLOAD SloadGasEIP150 $ setConstant opcodes.EXTCODESIZE ExtcodeSizeGasEIP150 $
  setConstant opcodes.BALANCE BalanceGasEIP150 newHomesteadInstructionSet.

Definition newSpuriousDragonInstructionSet : JumpTable := setDynamic opcodes.EXP G_gasExpEIP158 newTangerineWhistleInstructionSet.

Definition newByzantiumInstructionSet : JumpTable :=
  <[opcodes.REVERT := mkOperation X_opRevert 0 (Some gasRevert) (minStack 2 0) (maxStack 2 0) (Some M_memoryRevert) false false false true true]> $
  <[opcodes.RETURNDATACOPY := mkOperation X_opReturnDataCopy GasFastestStep (Some gasReturnDataCopy) (minStack 3 0) (maxStack 3 0) (Some M_memoryReturnDataCopy) false false false false false]> $
  <[opcodes.RETURNDATASIZE := mkOperation X_opReturnDataSize GasQuickStep None (minStack 0 1) (maxStack 0 1) None false false false false false]> $
  <[opcodes.STATICCALL := mkOperation X_opStaticCall CallGasEIP150 (Some G_gasStaticCall) (minStack 6 1) (maxStack 6 1) (Some M_memoryStaticCall) false false false false true]> newSpuriousDragonInstructionSet.

Definition newConstantinopleInstructionSet : JumpTable :=
  <[opcodes.CREATE2 := mkOperation X_opCreate2 Create2Gas (Some G_gasCreate2) (minStack 4 1) (maxStack 4 1) (Some M_memoryCreate2) false false true false true]> $
  <[opcodes.EXTCODEHASH := mkOperation X_opExtCodeHash ExtcodeHashGasConstantinople None (minStack 1 1) (maxStack 1 1) None false false false false false]> $
  <[opcodes.SAR := mkOperation X_opSAR GasFastestStep None (minStack 2 1) (maxStack 2 1) None false false false false false]> $
  <[opcodes.SHR := mkOperation X_opSHR GasFastestStep None (minStack 2 1) (maxStack 2 1) None false false false false false]> $
  <[opcodes.SHL := mkOperation X_opSHL GasFastestStep None (minStack 2 1) (maxStack 2 1) None false false false false false]> newByzantiumInstructionSet.

(** ** The improvement proposals (eips.go) *)

Definition enable1884 (jt : JumpTable) : JumpTable :=
  <[opcodes.SELFBALANCE := mkOperation X_opSelfBalance GasFastStep None (minStack 0 1) (maxStack 0 1) None false false false false false]> $
  setConstant opcodes.EXTCODEHASH ExtcodeHashGasEIP1884 $ setConstant opcodes.BALANCE BalanceGasEIP1884 $ setConstant opcodes.SLOAD SloadGasEIP1884 jt.
Definition enable1344 (jt : JumpTable) : JumpTable :=
  <[opcodes.CHAINID := mkOperation X_opChainID GasQuickStep None (minStack 0 1) (maxStack 0 1) None false false false false false]> jt.
Definition enable2200 (jt : JumpTable) : JumpTable := setDynamic opcodes.SSTORE G_gasSStoreEIP2200 $ setConstant opcodes.SLOAD SloadGasEIP2200 jt.
Definition enable2929 (jt : JumpTable) : JumpTable :=
  setDynamic opcodes.SELFDESTRUCT gasSelfdestructEIP2929 $ setConstant opcodes.SELFDESTRUCT SelfdestructGasEIP150 $
  setDynamic opcodes.DELEGATECALL gasDelegateCallEIP2929 $ setConstant opcodes.DELEGATECALL WarmStorageReadCostEIP2929 $
  setDynamic opcodes.STATICCALL gasStaticCallEIP2929 $ setConstant opcodes.STATICCALL WarmStorageReadCostEIP2929 $
  setDynamic opcodes.CALLCODE gasCallCodeEIP2929 $ setConstant opcodes.CALLCODE WarmStorageReadCostEIP2929 $
  setDynamic opcodes.CALL gasCallEIP2929 $ setConstant opcodes.CALL WarmStorageReadCostEIP2929 $
  setDynamic opcodes.BALANCE G_gasEip2929AccountCheck $ setConstant opcodes.BALANCE WarmStorageReadCostEIP2929 $
  setDynamic opcodes.EXTCODEHASH G_gasEip2929AccountCheck $ setConstant opcodes.EXTCODEHASH WarmStorageReadCostEIP2929 $
  setDynamic opcodes.EXTCODESIZE G_gasEip2929AccountCheck $ setConstant opcodes.EXTCODESIZE WarmStorageReadCostEIP2929 $
  setDynamic opcodes.EXTCODECOPY G_gasExtCodeCopyEIP2929 $ setConstant opcodes.EXTCODECOPY WarmStorageReadCostEIP2929 $
  setDynamic opcodes.SLOAD G_gasSLoadEIP2929 $ setConstant opcodes.SLOAD 0 $
  setDynamic opcodes.SSTORE gasSStoreEIP2929 jt.
Definition enable3529 (jt : JumpTable) : JumpTable :=
  setDynamic opcodes.SELFDESTRUCT gasSelfdestructEIP3529 $ setDynamic opcodes.SSTORE gasSStoreEIP3529 jt.
Definition enable3198 (jt : JumpTable) : JumpTable :=
  <[opcodes.BASEFEE := mkOperation X_opBaseFee GasQuickStep None (minStack 0 1) (maxStack 0 1) None false false false false false]> jt.

Definition newIstanbulInstructionSet : JumpTable := enable2200 $ enable1884 $ enable1344 newConstantinopleInstructionSet.
Definition newBerlinInstructionSet : JumpTable := enable2929 newIstanbulInstructionSet.
Definition newLondonInstructionSet : JumpTable := enable3198 $ enable3529 newBerlinInstructionSet.

(** [activators] and [EnableEIP]. *)
Definition activators (eipNum : Z) : option (JumpTable -> JumpTable) :=
  if Z.eqb eipNum 3529 then Some enable3529 else if Z.eqb eipNum 3198 then Some enable3198 else if Z.eqb eipNum 2929 then Some enable2929
  else if Z.eqb eipNum 2200 then Some enable2200 else if Z.eqb eipNum 1884 then Some enable1884 else if Z.eqb eipNum 1344 then Some enable1344 else None.
Definition EnableEIP (eipNum : Z) (jt : JumpTable) : outcome JumpTable :=
  match activators eipNum with Some enablerFn => Ok (enablerFn jt) | None => Fail (ErrorsNew "undefined eip") end.
End tables.

(** ** The choice of [NewEVMInterpreter] *)

Definition instructionSet (r : Rules) : JumpTable :=
  if IsLondon r then newLondonInstructionSet
  else if IsBerlin r then newBerlinInstructionSet
  else if IsIstanbul r then newIstanbulInstructionSet
  else if IsConstantinople r then newConstantinopleInstructionSet
  else if IsByzantium r then newByzantiumInstructionSet
  else if IsEIP158 r then newSpuriousDragonInstructionSet
  else if IsEIP150 r then newTangerineWhistleInstructionSet
  else if IsHomestead r then newHomesteadInstructionSet
  else newFrontierInstructionSet.

(** The loop over [cfg.ExtraEips].  It ranges over the array that the slice had at the
    start, and drops an unknown EIP by moving the rest of [cfg.ExtraEips] to the left in
    that same array: [arr] is the array, [n] the length of [cfg.ExtraEips] by now. *)
Fixpoint enableExtraEips (fuel i : nat) (arr : list Z) (n : nat) (jt : JumpTable) : outcome (list Z * JumpTable) :=
  match fuel with
  | O => Ok (take n arr, jt)
  | S fuel =>
    eip ← idx arr i;
    match EnableEIP eip jt with
    | Ok jt => enableExtraEips fuel (S i) arr n jt
    | Panic p => Panic p
    | Fail _ =>
      _ ← slc (take n arr) (S i) n;
      enableExtraEips fuel (S i) (take i arr ++ drop (S i) (take n arr) ++ drop (n - 1) arr) (n - 1) jt
    end
  end.
(** The table and the EIPs that the configuration keeps. *)
Definition NewEVMInterpreter (r : Rules) (ExtraEips : list Z) : outcome (list Z * JumpTable) :=
  enableExtraEips (length ExtraEips) 0 ExtraEips (length ExtraEips) (instructionSet r).

(** * The names of the opcodes *)

Definition opCodeToString : list (Z * string) := [
  (opcodes.STOP, "STOP"); (opcodes.ADD, "ADD"); (opcodes.MUL, "MUL"); (opcodes.SUB, "SUB"); (opcodes.DIV, "DIV");
  (opcodes.SDIV, "SDIV"); (opcodes.MOD, "MOD"); (opcodes.SMOD, "SMOD"); (opcodes.EXP, "EXP"); (opcodes.NOT, "NOT");
  (opcodes.LT, "LT"); (opcodes.GT, "GT"); (opcodes.SLT, "SLT"); (opcodes.SGT, "SGT"); (opcodes.EQ, "EQ");
  (opcodes.ISZERO, "ISZERO"); (opcodes.SIGNEXTEND, "SIGNEXTEND"); (opcodes.AND, "AND"); (opcodes.OR, "OR"); (opcodes.XOR, "XOR");
  (opcodes.BYTE, "BYTE"); (opcodes.SHL, "SHL"); (opcodes.SHR, "SHR"); (opcodes.SAR, "SAR"); (opcodes.ADDMOD, "ADDMOD");
  (opcodes.MULMOD, "MULMOD"); (opcodes.SHA3, "SHA3"); (opcodes.ADDRESS, "ADDRESS"); (opcodes.BALANCE, "BALANCE"); (opcodes.ORIGIN, "ORIGIN");
  (opcodes.CALLER, "CALLER"); (opcodes.CALLVALUE, "CALLVALUE"); (opcodes.CALLDATALOAD, "CALLDATALOAD"); (opcodes.CALLDATASIZE, "CALLDATASIZE"); (opcodes.CALLDATACOPY, "CALLDATACOPY");
  (opcodes.CODESIZE, "CODESIZE"); (opcodes.CODECOPY, "CODECOPY"); (opcodes.GASPRICE, "GASPRICE"); (opcodes.EXTCODESIZE, "EXTCODESIZE"); (opcodes.EXTCODECOPY, "EXTCODECOPY");
  (opcodes.RETURNDATASIZE, "RETURNDATASIZE"); (opcodes.RETURNDATACOPY, "RETURNDATACOPY"); (opcodes.EXTCODEHASH, "EXTCODEHASH"); (opcodes.BLOCKHASH, "BLOCKHASH"); (opcodes.COINBASE, "COINBASE");
  (opcodes.TIMESTAMP, "TIMESTAMP"); (opcodes.NUMBER, "NUMBER"); (opcodes.DIFFICULTY, "DIFFICULTY"); (opcodes.GASLIMIT, "GASLIMIT"); (opcodes.CHAINID, "CHAINID");
  (opcodes.SELFBALANCE, "SELFBALANCE"); (opcodes.BASEFEE, "BASEFEE"); (opcodes.POP, "POP"); (opcodes.MLOAD, "MLOAD"); (opcodes.MSTORE, "MSTORE");
  (opcodes.MSTORE8, "MSTORE8"); (opcodes.SLOAD, "SLOAD"); (opcodes.SSTORE, "SSTORE"); (opcodes.JUMP, "JUMP"); (opcodes.JUMPI, "JUMPI");
  (opcodes.PC, "PC"); (opcodes.MSIZE, "MSIZE"); (opcodes.GAS, "GAS"); (opcodes.JUMPDEST, "JUMPDEST"); (opcodes.PUSH1, "PUSH1");
  (opcodes.PUSH2, "PUSH2"); (opcodes.PUSH3, "PUSH3"); (opcodes.PUSH4, "PUSH4"); (opcodes.PUSH5, "PUSH5"); (opcodes.PUSH6, "PUSH6");
  (opcodes.PUSH7, "PUSH7"); (opcodes.PUSH8, "PUSH8"); (opcodes.PUSH9, "PUSH9"); (opcodes.PUSH10, "PUSH10"); (opcodes.PUSH11, "PUSH11");
  (opcodes.PUSH12, "PUSH12"); (opcodes.PUSH13, "PUSH13"); (opcodes.PUSH14, "PUSH14"); (opcodes.PUSH15, "PUSH15"); (opcodes.PUSH16, "PUSH16");
  (opcodes.PUSH17, "PUSH17"); (opcodes.PUSH18, "PUSH18"); (opcodes.PUSH19, "PUSH19"); (opcodes.PUSH20, "PUSH20"); (opcodes.PUSH21, "PUSH21");
  (opcodes.PUSH22, "PUSH22"); (opcodes.PUSH23, "PUSH23"); (opcodes.PUSH24, "PUSH24"); (opcodes.PUSH25, "PUSH25"); (opcodes.PUSH26, "PUSH26");
  (opcodes.PUSH27, "PUSH27"); (opcodes.PUSH28, "PUSH28"); (opcodes.PUSH29, "PUSH29"); (opcodes.PUSH30, "PUSH30"); (opcodes.PUSH31, "PUSH31");
  (opcodes.PUSH32, "PUSH32"); (opcodes.DUP1, "DUP1"); (opcodes.DUP2, "DUP2"); (opcodes.DUP3, "DUP3"); (opcodes.DUP4, "DUP4");
  (opcodes.DUP5, "DUP5"); (opcodes.DUP6, "DUP6"); (opcodes.DUP7, "DUP7"); (opcodes.DUP8, "DUP8"); (opcodes.DUP9, "DUP9");
  (opcodes.DUP10, "DUP10"); (opcodes.DUP11, "DUP11"); (opcodes.DUP12, "DUP12"); (opcodes.DUP13, "DUP13"); (opcodes.DUP14, "DUP14");
  (opcodes.DUP15, "DUP15"); (opcodes.DUP16, "DUP16"); (opcodes.SWAP1, "SWAP1"); (opcodes.SWAP2, "SWAP2"); (opcodes.SWAP3, "SWAP3");
  (opcodes.SWAP4, "SWAP4"); (opcodes.SWAP5, "SWAP5"); (opcodes.SWAP6, "SWAP6"); (opcodes.SWAP7, "SWAP7"); (opcodes.SWAP8, "SWAP8");
  (opcodes.SWAP9, "SWAP9"); (opcodes.SWAP10, "SWAP10"); (opcodes.SWAP11, "SWAP11"); (opcodes.SWAP12, "SWAP12"); (opcodes.SWAP13, "SWAP13");
  (opcodes.SWAP14, "SWAP14"); (opcodes.SWAP15, "SWAP15"); (opcodes.SWAP16, "SWAP16"); (opcodes.LOG0, "LOG0"); (opcodes.LOG1, "LOG1");
  (opcodes.LOG2, "LOG2"); (opcodes.LOG3, "LOG3"); (opcodes.LOG4, "LOG4"); (opcodes.CREATE, "CREATE"); (opcodes.CALL, "CALL");
  (opcodes.RETURN, "RETURN"); (opcodes.CALLCODE, "CALLCODE"); (opcodes.DELEGATECALL, "DELEGATECALL"); (opcodes.CREATE2, "CREATE2"); (opcodes.STATICCALL, "STATICCALL");
  (opcodes.REVERT, "REVERT"); (opcodes.SELFDESTRUCT, "SELFDESTRUCT"); (opcodes.PUSH, "PUSH"); (opcodes.DUP, "DUP"); (opcodes.SWAP, "SWAP")].

(** [%x] of a byte. *)
Definition hexOf (n : Z) : string :=
  let digit := fun d => String.substring (Z.to_nat d) 1 "0123456789abcdef" in
  if Z.ltb n 16 then digit n else digit (n / 16) +:+ digit (n mod 16).
Definition OpCode_String (op : Z) : string :=
  match list_find (fun p => p.1 = op) opCodeToString with
  | Some (_, (_, str)) => str
  | None => "opcode 0x" +:+ hexOf op +:+ " not defined"
  end.
Definition ErrInvalidOpCode (opcode : Z) : error := ErrorsNew ("invalid opcode: " +:+ OpCode_String opcode).

(** * What an entry must say

    The tables tell the interpreter how many words an instruction takes and leaves, how
    much memory it touches and what it may do.  These are the facts about the functions
    themselves; every entry of every table agrees with them. *)

Definition arity (f : executionFunc) : nat * nat :=
  match f with
  | X_opStop | X_opJumpdest => (0, 0)
  | X_opAdd | X_opSub | X_opMul | X_opDiv | X_opSdiv | X_opMod | X_opSmod | X_opExp | X_opSignExtend | X_opLt | X_opGt | X_opSlt | X_opSgt | X_opEq
  | X_opAnd | X_opOr | X_opXor | X_opByte | X_opSHL | X_opSHR | X_opSAR | X_opSha3 => (2, 1)
  | X_opAddmod | X_opMulmod => (3, 1)
  | X_opNot | X_opIszero | X_opBalance | X_opCallDataLoad | X_opExtCodeSize | X_opExtCodeHash | X_opBlockhash | X_opMload | X_opSload => (1, 1)
  | X_opAddress | X_opOrigin | X_opCaller | X_opCallValue | X_opCallDataSize | X_opReturnDataSize | X_opCodeSize | X_opGasprice | X_opCoinbase | X_opTimestamp
  | X_opNumber | X_opDifficulty | X_opGasLimit | X_opPc | X_opMsize | X_opGas | X_opSelfBalance | X_opChainID | X_opBaseFee | X_opPush1 => (0, 1)
  | X_makePush _ _ => (0, 1)
  | X_opPop | X_opJump | X_opSuicide => (1, 0)
  | X_opMstore | X_opMstore8 | X_opSstore | X_opJumpi | X_opReturn | X_opRevert => (2, 0)
  | X_opCallDataCopy | X_opReturnDataCopy | X_opCodeCopy => (3, 0)
  | X_opExtCodeCopy => (4, 0)
  | X_opCreate => (3, 1)
  | X_opCreate2 => (4, 1)
  | X_opCall | X_opCallCode => (7, 1)
  | X_opDelegateCall | X_opStaticCall => (6, 1)
  | X_makeLog n => (2 + n, 0)
  | X_makeDup n => (n, n + 1)
  | X_makeSwap n => (n + 1, n + 1)
  end%nat.

Definition memOf (f : executionFunc) : option memorySizeFunc :=
  match f with
  | X_opSha3 => Some M_memorySha3
  | X_opCallDataCopy => Some M_memoryCallDataCopy
  | X_opReturnDataCopy => Some M_memoryReturnDataCopy
  | X_opCodeCopy => Some M_memoryCodeCopy
  | X_opExtCodeCopy => Some M_memoryExtCodeCopy
  | X_opMload => Some M_memoryMLoad
  | X_opMstore => Some M_memoryMStore
  | X_opMstore8 => Some M_memoryMStore8
  | X_opCreate => Some M_memoryCreate
  | X_opCreate2 => Some M_memoryCreate2
  | X_opCall | X_opCallCode => Some M_memoryCall
  | X_opDelegateCall => Some M_memoryDelegateCall
  | X_opStaticCall => Some M_memoryStaticCall
  | X_opReturn => Some M_memoryReturn
  | X_opRevert => Some M_memoryRevert
  | X_makeLog _ => Some M_memoryLog
  | _ => None
  end.

(** The gas functions an instruction may have; [sstore] is the one for SSTORE. *)
Definition gasOf (sstore : gasFunc) (f : executionFunc) : list (option gasFunc) :=
  match f with
  | X_opSha3 => [Some G_gasSha3]
  | X_opCallDataCopy | X_opReturnDataCopy | X_opCodeCopy => [Some (G_memoryCopierGas 2)]
  | X_opExtCodeCopy => [Some (G_memoryCopierGas 3); Some G_gasExtCodeCopyEIP2929]
  | X_opMload | X_opMstore | X_opMstore8 | X_opCreate | X_opReturn | X_opRevert => [Some G_pureMemoryGascost]
  | X_opCreate2 => [Some G_gasCreate2]
  | X_opExp => [Some G_gasExpFrontier; Some G_gasExpEIP158]
  | X_opBalance | X_opExtCodeSize | X_opExtCodeHash => [None; Some G_gasEip2929AccountCheck]
  | X_opSload => [None; Some G_gasSLoadEIP2929]
  | X_opSstore => [Some sstore]
  | X_makeLog n => [Some (G_makeGasLog (Z.of_nat n))]
  | X_opCall => [Some G_gasCall; Some (G_makeCallVariantGasCallEIP2929 G_gasCall)]
  | X_opCallCode => [Some G_gasCallCode; Some (G_makeCallVariantGasCallEIP2929 G_gasCallCode)]
  | X_opDelegateCall => [Some G_gasDelegateCall; Some (G_makeCallVariantGasCallEIP2929 G_gasDelegateCall)]
  | X_opStaticCall => [Some G_gasStaticCall; Some (G_makeCallVariantGasCallEIP2929 G_gasStaticCall)]
  | X_opSuicide => [Some G_gasSelfdestruct; Some (G_makeSelfdestructGasFn true); Some (G_makeSelfdestructGasFn false)]
  | _ => [None]
  end.

(** A run ends with these, so they may be free. *)
Definition finalOp (f : executionFunc) : bool :=
  match f with X_opStop | X_opReturn | X_opRevert | X_opSuicide => true | _ => false end.
(** The functions that charge something themselves. *)
Definition charges (g : option gasFunc) : bool :=
  match g with
  | Some (G_gasSStore | G_gasSStoreEIP2200 | G_makeGasSStoreFunc _ | G_gasExpFrontier | G_gasExpEIP158 | G_gasSLoadEIP2929 | G_makeGasLog _) => true
  | _ => false
  end.
Definition sizesOk (f : executionFunc) : bool :=
  match f with
  | X_makeLog n => Nat.leb n 4
  | X_makePush s n => Z.eqb s n && Z.leb 1 n && Z.leb n 32
  | X_makeDup n | X_makeSwap n => Nat.leb 1 n && Nat.leb n 16
  | _ => true
  end.
Definition bool_of {A} `{EqDecision A} (x : A) (l : list A) : bool := bool_decide (x ∈ l).

Definition operation_ok (sstore : gasFunc) (op : Z) (o : operation) : bool :=
  let f := execute o in
  Z.eqb (op_minStack o) (Z.of_nat (fst (arity f))) && Z.eqb (op_maxStack o) (1024 + Z.of_nat (fst (arity f)) - Z.of_nat (snd (arity f)))
  && bool_decide (memorySize o = memOf f) && bool_decide (dynamicGas o ∈ gasOf sstore f) && sizesOk f
  && Z.leb 0 (constantGas o) && Z.leb (constantGas o) 32000 && (finalOp f || charges (dynamicGas o) || Z.leb 1 (constantGas o))
  && (match dynamicGas o with Some (G_makeSelfdestructGasFn _) => Z.leb 5000 (constantGas o) | _ => true end)
  && Bool.eqb (halts o) (bool_of f [X_opStop; X_opReturn; X_opSuicide]) && Bool.eqb (reverts o) (bool_of f [X_opRevert])
  && Bool.eqb (jumps o) (bool_of f [X_opJump; X_opJumpi])
  && Bool.eqb (returns o) (bool_of f [X_opCreate; X_opCreate2; X_opCall; X_opCallCode; X_opDelegateCall; X_opStaticCall; X_opRevert])
  && Bool.eqb (writes o) (bool_of f [X_opSstore; X_opCreate; X_opCreate2; X_opSuicide] || match f with X_makeLog _ => true | _ => false end)
  && Bool.eqb (bool_decide (f = X_opCall)) (Z.eqb op opcodes.CALL)
  && (match sstore, f with
      | G_makeGasSStoreFunc _, (X_opCall | X_opCallCode | X_opDelegateCall | X_opStaticCall) => match dynamicGas o with Some (G_makeCallVariantGasCallEIP2929 _) => true | _ => false end
      | _, _ => true
      end)
  && (negb (Z.eqb op opcodes.STOP) || bool_decide (f = X_opStop)).

Definition table_ok (sstore : gasFunc) (jt : JumpTable) : bool := forallb (fun p => operation_ok sstore p.1 p.2) (map_to_list jt).

(** The gas function of SSTORE under the rules. *)
Definition sstoreGas (r : Rules) : gasFunc :=
  if IsLondon r then gasSStoreEIP3529 else if IsBerlin r then gasSStoreEIP2929 else if IsIstanbul r then G_gasSStoreEIP2200 else G_gasSStore.

Lemma table_ok_all : forallb (fun p => table_ok p.1 p.2)
  [(gasSStoreEIP3529, newLondonInstructionSet); (gasSStoreEIP2929, newBerlinInstructionSet); (G_gasSStoreEIP2200, newIstanbulInstructionSet);
   (G_gasSStore, newConstantinopleInstructionSet); (G_gasSStore, newByzantiumInstructionSet); (G_gasSStore, newSpuriousDragonInstructionSet);
   (G_gasSStore, newTangerineWhistleInstructionSet); (G_gasSStore, newHomesteadInstructionSet); (G_gasSStore, newFrontierInstructionSet)] = true.
Proof. by vm_compute. Qed.

Lemma instructionSet_ok r : table_ok (sstoreGas r) (instructionSet r) = true.
Proof.
  pose proof table_ok_all as H. cbn [forallb fst snd] in H. repeat apply andb_prop in H as [?H H]. unfold instructionSet, sstoreGas.
  destruct (IsLondon r); [done|]. destruct (IsBerlin r); [done|]. destruct (IsIstanbul r); [done|].
  destruct (IsConstantinople r); [done|]. destruct (IsByzantium r); [done|]. destruct (IsEIP158 r); [done|]. destruct (IsEIP150 r); [done|]. by destruct (IsHomestead r).
Qed.

(** Every entry of every table agrees with its functions. *)
Lemma instructionSet_entry r op o : instructionSet r !! op = Some o -> operation_ok (sstoreGas r) op o = true.
Proof.
  intros E. pose proof (instructionSet_ok r) as H. unfold table_ok in H. rewrite forallb_forall in H. apply (H (op, o)). by apply list_elem_of_In, elem_of_map_to_list.
Qed.
