(* ===== verification/EvmPre.v ===== *)
(** The precompiled contracts of the EVM.

    Models src/core/vm/contracts.go: the sets of contracts, their gas, and what they run.
    The hash functions, the curve arithmetic of bn256 and the compression function of
    BLAKE2b are a parameter ([PrecompileLibs]).  The contracts of EIP-2537 are in no set
    that the EVM selects; [ecrecover] is commented out of every set. *)

From S2P Require Import Prelude Common Rlp RlpEnc Uint256 Uint256Spec Uint256Conv EvmBase.
From Stdlib Require Import Strings.Byte.
#[local] Open Scope Z_scope.

(** * The libraries *)

Class PrecompileLibs := {
  sha256_Sum256 : list byte -> list byte;
  sha256_size b : length (sha256_Sum256 b) = 32%nat;
  ripemd160_Sum : list byte -> list byte;
  ripemd160_size b : length (ripemd160_Sum b) = 20%nat;
  G1 : Type;
  G2 : Type;
  G1_Unmarshal : list byte -> G1 + error;
  G1_Marshal : G1 -> list byte;
  G1_Marshal_size p : length (G1_Marshal p) = 64%nat;
  G1_Add : G1 -> G1 -> G1;
  G1_ScalarMult : G1 -> Z -> G1;
  G2_Unmarshal : list byte -> G2 + error;
  PairingCheck : list G1 -> list G2 -> bool;
  blake2b_F : list Z -> list Z -> list Z -> bool -> Z -> list Z;
  blake2b_F_size h m t f rounds : length h = 8%nat -> length (blake2b_F h m t f rounds) = 8%nat;
}.

(** * The contracts *)

Inductive PrecompiledContract :=
| sha256hash
| ripemd160hash
| dataCopy
| bigModExp (eip2565 : bool)
| bn256AddByzantium
| bn256ScalarMulByzantium
| bn256PairingByzantium
| bn256ScalarMulIstanbul
| bn256PairingIstanbul
| blake2F.

Definition precompileAddress (n : Z) : Address := BytesToAddress [bZ n].
Definition PrecompiledContractsHomestead : gmap Address PrecompiledContract := list_to_map
  [(precompileAddress 2, sha256hash); (precompileAddress 3, ripemd160hash); (precompileAddress 4, dataCopy)].
Definition PrecompiledContractsByzantium : gmap Address PrecompiledContract := list_to_map
  [(precompileAddress 2, sha256hash); (precompileAddress 3, ripemd160hash); (precompileAddress 4, dataCopy); (precompileAddress 5, bigModExp false);
   (precompileAddress 6, bn256AddByzantium); (precompileAddress 7, bn256ScalarMulByzantium); (precompileAddress 8, bn256PairingByzantium)].
Definition PrecompiledContractsIstanbul : gmap Address PrecompiledContract := list_to_map
  [(precompileAddress 2, sha256hash); (precompileAddress 3, ripemd160hash); (precompileAddress 4, dataCopy); (precompileAddress 5, bigModExp false);
   (precompileAddress 7, bn256ScalarMulIstanbul); (precompileAddress 8, bn256PairingIstanbul); (precompileAddress 9, blake2F)].
Definition PrecompiledContractsBerlin : gmap Address PrecompiledContract := list_to_map
  [(precompileAddress 2, sha256hash); (precompileAddress 3, ripemd160hash); (precompileAddress 4, dataCopy); (precompileAddress 5, bigModExp true);
   (precompileAddress 7, bn256ScalarMulIstanbul); (precompileAddress 8, bn256PairingIstanbul); (precompileAddress 9, blake2F)].

(** [evm.precompile]. *)
Definition precompile (r : Rules) (addr : Address) : option PrecompiledContract :=
  (if IsBerlin r then PrecompiledContractsBerlin else if IsIstanbul r then PrecompiledContractsIstanbul
   else if IsByzantium r then PrecompiledContractsByzantium else PrecompiledContractsHomestead) !! addr.
Definition ActivePrecompiles (r : Rules) : gset Address :=
  dom (if IsBerlin r then PrecompiledContractsBerlin else if IsIstanbul r then PrecompiledContractsIstanbul
       else if IsByzantium r then PrecompiledContractsByzantium else PrecompiledContractsHomestead).

(** What a contract returns: a slice of its own, or the slice it was given. *)
Inductive retval := Own (b : list byte) | SameAsInput.
Definition retBytes (input : list byte) (r : retval) : list byte := match r with Own b => b | SameAsInput => input end.

(** * Gas *)

Definition BigMax (x y : Z) : Z := if Z.ltb x y then y else x.

Definition modexpMultComplexity (x : Z) : Z :=
  if Z.leb x 64 then x * x
  else if Z.leb x 1024 then big_Div (x * x) 4 + (96 * x - 3072)
  else big_Div (x * x) 16 + (480 * x - 199680).

(** The three lengths at the head of the input, and the rest. *)
Definition modexpHead (input : list byte) : outcome (Z * Z * Z * list byte) :=
  b ← getData input 0 32; e ← getData input 32 32; m ← getData input 64 32;
  rest ← (if Z.ltb 96 (len input) then slice_ input 96 (len input) else Ok []);
  Ok (be_val b, be_val e, be_val m, rest).

Definition modexpHeadBits (baseLen expLen : Z) (input : list byte) : outcome Z :=
  if Z.leb (len input) baseLen then Ok 0
  else if Z.ltb 32 expLen then d ← getData input (u64 baseLen) 32; Ok (be_val d)
  else d ← getData input (u64 baseLen) (u64 expLen); Ok (be_val d).

Definition bigModExp_RequiredGas (eip2565 : bool) (input : list byte) : outcome Z :=
  '(baseLen, expLen, modLen, input) ← modexpHead input;
  expHead ← modexpHeadBits baseLen expLen input;
  let msb := if Z.ltb 0 (BitLen expHead) then BitLen expHead - 1 else 0 in
  let adjExpLen := (if Z.ltb 32 expLen then 8 * (expLen - 32) else 0) + msb in
  let gas := BigMax modLen baseLen in
  if eip2565 then
    let gas := big_Div (gas + 7) 8 in
    let gas := big_Div (gas * gas * BigMax adjExpLen 1) 3 in
    if Z.ltb 64 (BitLen gas) then Ok MaxUint64
    else if Z.ltb (u64 gas) 200 then Ok 200 else Ok (u64 gas)
  else
    let gas := big_Div (modexpMultComplexity gas * BigMax adjExpLen 1) 20 in
    if Z.ltb 64 (BitLen gas) then Ok MaxUint64 else Ok (u64 gas).

Definition perWord (input : list byte) (word base : Z) : Z := u64 (u64 (len input + 31) / 32 * word + base).

Definition blake2FInputLength : Z := 213.

Definition RequiredGas (p : PrecompiledContract) (input : list byte) : outcome Z :=
  match p with
  | sha256hash => Ok (perWord input params.Sha256PerWordGas params.Sha256BaseGas)
  | ripemd160hash => Ok (perWord input params.Ripemd160PerWordGas params.Ripemd160BaseGas)
  | dataCopy => Ok (perWord input params.IdentityPerWordGas params.IdentityBaseGas)
  | bigModExp eip2565 => bigModExp_RequiredGas eip2565 input
  | bn256AddByzantium => Ok params.Bn256AddGasByzantium
  | bn256ScalarMulByzantium => Ok params.Bn256ScalarMulGasByzantium
  | bn256ScalarMulIstanbul => Ok params.Bn256ScalarMulGasIstanbul
  | bn256PairingByzantium => Ok (u64 (params.Bn256PairingBaseGasByzantium + len input / 192 * params.Bn256PairingPerPointGasByzantium))
  | bn256PairingIstanbul => Ok (u64 (params.Bn256PairingBaseGasIstanbul + len input / 192 * params.Bn256PairingPerPointGasIstanbul))
  | blake2F => if negb (Z.eqb (len input) blake2FInputLength) then Ok 0 else d ← slice_ input 0 4; Ok (be_val d)
  end.

(** * Runs *)

(** [big.Int.Exp] with a positive modulus. *)
Definition bigExp (x y m : Z) : Z := (x ^ y) mod m.

Definition bigModExp_Run (input : list byte) : outcome (list byte) :=
  '(b, e, m, input) ← modexpHead input;
  let baseLen := u64 b in let expLen := u64 e in let modLen := u64 m in
  if Z.eqb baseLen 0 && Z.eqb modLen 0 then Ok []
  else
    base ← getData input 0 baseLen;
    exp ← getData input baseLen expLen;
    mod_ ← getData input (u64 (baseLen + expLen)) modLen;
    if Z.eqb (BitLen (be_val mod_)) 0 then Ok (LeftPadBytes [] (i64 modLen))
    else Ok (LeftPadBytes (min_bytes (bigExp (be_val base) (be_val exp) (be_val mod_))) (i64 modLen)).

Definition errBadPairingInput : error := Sentinel "errBadPairingInput".
Definition errBlake2FInvalidInputLength : error := Sentinel "errBlake2FInvalidInputLength".
Definition errBlake2FInvalidFinalFlag : error := Sentinel "errBlake2FInvalidFinalFlag".
Definition true32Byte : list byte := replicate 31 Byte.x00 ++ [Byte.x01].
Definition false32Byte : list byte := replicate 32 Byte.x00.

Section run.
Context `{PrecompileLibs}.

Definition orFail {A} (r : A + error) : outcome A := match r with inl a => Ok a | inr e => Fail e end.
Definition newCurvePoint (blob : list byte) : outcome G1 := orFail (G1_Unmarshal blob).
Definition newTwistPoint (blob : list byte) : outcome G2 := orFail (G2_Unmarshal blob).

Definition runBn256Add (input : list byte) : outcome (list byte) :=
  b ← getData input 0 64; x ← newCurvePoint b;
  b ← getData input 64 64; y ← newCurvePoint b;
  Ok (G1_Marshal (G1_Add x y)).
Definition runBn256ScalarMul (input : list byte) : outcome (list byte) :=
  b ← getData input 0 64; p ← newCurvePoint b;
  s ← getData input 64 32;
  Ok (G1_Marshal (G1_ScalarMult p (be_val s))).

(** The points of the pairing, [n] of them from [i] on. *)
Fixpoint pairingPoints (n : nat) (i : Z) (input : list byte) : outcome (list G1 * list G2) :=
  match n with
  | O => Ok ([], [])
  | S n =>
    b ← slice_ input i (i + 64); c ← newCurvePoint b;
    b ← slice_ input (i + 64) (i + 192); t ← newTwistPoint b;
    '(cs, ts) ← pairingPoints n (i + 192) input;
    Ok (c :: cs, t :: ts)
  end.
Definition runBn256Pairing (input : list byte) : outcome (list byte) :=
  if Z.ltb 0 (len input mod 192) then Fail errBadPairingInput
  else
    '(cs, ts) ← pairingPoints (Z.to_nat (len input / 192)) 0 input;
    Ok (if PairingCheck cs ts then true32Byte else false32Byte).

(** [n] little-endian words of the input from [offset] on. *)
Fixpoint leWords (n : nat) (offset : Z) (input : list byte) : outcome (list Z) :=
  match n with
  | O => Ok []
  | S n => b ← slice_ input offset (offset + 8); l ← leWords n (offset + 8) input; Ok (le_val b :: l)
  end.
Definition blake2F_Run (input : list byte) : outcome (list byte) :=
  if negb (Z.eqb (len input) blake2FInputLength) then Fail errBlake2FInvalidInputLength
  else
    flag ← at_Z input 212;
    if negb (Z.eqb (Zb flag) 0) && negb (Z.eqb (Zb flag) 1) then Fail errBlake2FInvalidFinalFlag
    else
      b ← slice_ input 0 4;
      let rounds := be_val b in
      let final := Z.eqb (Zb flag) 1 in
      h ← leWords 8 4 input; m ← leWords 16 68 input; t ← leWords 2 196 input;
      Ok (concat (map (le_bytes 8) (blake2b_F h m t final rounds))).

Definition Run (p : PrecompiledContract) (input : list byte) : outcome retval :=
  match p with
  | sha256hash => Ok (Own (sha256_Sum256 input))
  | ripemd160hash => Ok (Own (LeftPadBytes (ripemd160_Sum input) 32))
  | dataCopy => Ok SameAsInput
  | bigModExp _ => b ← bigModExp_Run input; Ok (Own b)
  | bn256AddByzantium => b ← runBn256Add input; Ok (Own b)
  | bn256ScalarMulByzantium | bn256ScalarMulIstanbul => b ← runBn256ScalarMul input; Ok (Own b)
  | bn256PairingByzantium | bn256PairingIstanbul => b ← runBn256Pairing input; Ok (Own b)
  | blake2F => b ← blake2F_Run input; Ok (Own b)
  end.

(** The result, the gas that is left and the error. *)
Definition RunPrecompiledContract (p : PrecompiledContract) (input : list byte) (suppliedGas : Z) : outcome (retval * Z * option error) :=
  gasCost ← RequiredGas p input;
  if Z.ltb suppliedGas gasCost then Ok (Own [], 0, Some ErrOutOfGas)
  else
    let suppliedGas := suppliedGas - gasCost in
    match Run p input with
    | Ok output => Ok (output, suppliedGas, None)
    | Fail e => Ok (Own [], suppliedGas, Some e)
    | Panic q => Panic q
    end.
End run.

(** * No panic when the gas is paid *)

(** Sizes below which lengths and gas stay clear of the width of an integer. *)
Definition small (z : Z) : Prop := 0 <= z < 2 ^ 60.

Lemma big_Div_pos x y : 0 < y -> big_Div x y = x / y.
Proof. intros Hy. unfold big_Div. by rewrite (proj2 (Z.ltb_ge _ _)) by lia. Qed.

Lemma getData_total data start size : small (len data) -> 0 <= start -> 0 <= size < 2 ^ 63 -> exists d, getData data start size = Ok d /\ len d = size.
Proof. intros Hd Hs Hz. destruct (getData_ok data start size) as (d & E & El & _); [unfold small in Hd; lia|done|done|]. eauto. Qed.

Lemma modexpHead_ok input : small (len input) -> exists b e m rest, modexpHead input = Ok (b, e, m, rest) /\ 0 <= b /\ 0 <= e /\ 0 <= m /\ small (len rest).
Proof.
  intros Hi. unfold modexpHead.
  destruct (getData_total input 0 32) as (b & -> & _); [done|lia|lia|]. destruct (getData_total input 32 32) as (e & -> & _); [done|lia|lia|].
  destruct (getData_total input 64 32) as (m & -> & _); [done|lia|lia|]. cbn -[slice_]. unfold small in *.
  assert (forall l, 0 <= be_val l) as Hb by (intros l; apply be_val_range).
  destruct (Z.ltb_spec 96 (len input)).
  - rewrite slice_ok by lia. cbn. do 4 eexists. split; [done|]. do 3 (split; [apply Hb|]). unfold len in *. rewrite length_take, length_drop. lia.
  - cbn. do 4 eexists. split; [done|]. do 3 (split; [apply Hb|]). unfold len. cbn. lia.
Qed.

Lemma BitLen_pow z : 0 <= z -> BitLen z <= 64 -> z < 2 ^ 64.
Proof. intros Hz H. by apply BitLen_le. Qed.

Lemma u64_of_small z : 0 <= z < 2 ^ 64 -> u64 z = z.
Proof. intros H. by apply u64_small. Qed.

(** What the price says about the lengths. *)
Lemma modexp_price (eip : bool) x adj g : 0 <= adj -> 0 <= x -> 1 <= x ->
  (if eip then big_Div (big_Div (x + 7) 8 * big_Div (x + 7) 8 * BigMax adj 1) 3 else big_Div (modexpMultComplexity x * BigMax adj 1) 20) <= g -> 0 <= g < 2 ^ 60 ->
  x < 2 ^ 36 /\ adj < 2 ^ 65.
Proof.
  intros Ha _ Hx Hg Hr. assert (1 <= BigMax adj 1 /\ adj <= BigMax adj 1) as [Hm1 Hm2] by (unfold BigMax; destruct (Z.ltb_spec adj 1); lia). set (a := BigMax adj 1) in *.
  change (2 ^ 60) with 1152921504606846976 in *. change (2 ^ 36) with 68719476736. change (2 ^ 65) with 36893488147419103232.
  destruct eip.
  - rewrite !big_Div_pos in Hg by lia. set (w := (x + 7) / 8) in *. assert (x <= 8 * w) by (subst w; pose proof (Z.div_mod (x + 7) 8); pose proof (Z.mod_pos_bound (x + 7) 8); lia).
    assert (w * w * a <= 3 * g + 2) by (pose proof (Z.div_mod (w * w * a) 3); pose proof (Z.mod_pos_bound (w * w * a) 3); lia). assert (1 <= w) by lia.
    assert (w * w <= 3 * g + 2) by nia. assert (a <= 3 * g + 2) by nia. split; nia.
  - assert (x * x / 16 <= modexpMultComplexity x /\ 1 <= modexpMultComplexity x) as [Hc Hc1].
    { unfold modexpMultComplexity. pose proof (Z.div_mod (x * x) 16 ltac:(lia)). pose proof (Z.mod_pos_bound (x * x) 16 ltac:(lia)).
      destruct (Z.leb_spec x 64); [nia|]. rewrite !big_Div_pos by lia. pose proof (Z.div_mod (x * x) 4 ltac:(lia)). pose proof (Z.mod_pos_bound (x * x) 4 ltac:(lia)). destruct (Z.leb_spec x 1024); nia. }
    set (c := modexpMultComplexity x) in *. rewrite big_Div_pos in Hg by lia.
    assert (c * a <= 20 * g + 19) by (pose proof (Z.div_mod (c * a) 20); pose proof (Z.mod_pos_bound (c * a) 20); lia).
    assert (c <= 20 * g + 19) by nia. assert (a <= 20 * g + 19) by nia. pose proof (Z.div_mod (x * x) 16 ltac:(lia)). pose proof (Z.mod_pos_bound (x * x) 16 ltac:(lia)). split; nia.
Qed.

Lemma modexpHeadBits_ok b e input : small (len input) -> 0 <= b -> 0 <= e -> exists h, modexpHeadBits b e input = Ok h /\ 0 <= h.
Proof.
  intros Hi Hb He. unfold modexpHeadBits. destruct (Z.leb_spec (len input) b); [by exists 0|]. unfold small in Hi. change (2 ^ 60) with 1152921504606846976 in Hi.
  rewrite (u64_of_small b) by (change (2 ^ 64) with 18446744073709551616; lia). destruct (Z.ltb_spec 32 e).
  - destruct (getData_total input b 32) as (d & -> & _); [done|lia|lia|]. cbn. eexists. split; [done|]. apply be_val_range.
  - rewrite u64_of_small by (change (2 ^ 64) with 18446744073709551616; lia). destruct (getData_total input b e) as (d & -> & _); [done|lia|lia|]. cbn. eexists. split; [done|]. apply be_val_range.
Qed.

Lemma modexp_gas_nonneg (eip : bool) x adj : 0 <= x -> 0 <= adj ->
  0 <= (if eip then big_Div (big_Div (x + 7) 8 * big_Div (x + 7) 8 * BigMax adj 1) 3 else big_Div (modexpMultComplexity x * BigMax adj 1) 20).
Proof.
  intros Hx Ha. assert (1 <= BigMax adj 1) by (unfold BigMax; destruct (Z.ltb_spec adj 1); lia).
  assert (0 <= modexpMultComplexity x).
  { unfold modexpMultComplexity. destruct (Z.leb_spec x 64); [nia|]. rewrite !big_Div_pos by lia. pose proof (Z.div_pos (x * x) 4 ltac:(nia) ltac:(lia)). pose proof (Z.div_pos (x * x) 16 ltac:(nia) ltac:(lia)). destruct (Z.leb_spec x 1024); lia. }
  destruct eip; rewrite !big_Div_pos by lia; apply Z.div_pos; nia.
Qed.

(** The price of a modular exponentiation bounds its operands. *)
Lemma bigModExp_RequiredGas_ok eip input : small (len input) -> exists b e m rest g, modexpHead input = Ok (b, e, m, rest) /\ bigModExp_RequiredGas eip input = Ok g /\ is_u64 g /\
  0 <= b /\ 0 <= e /\ 0 <= m /\ small (len rest) /\ (g < 2 ^ 60 -> (b = 0 /\ m = 0) \/ (b < 2 ^ 36 /\ e < 2 ^ 63 /\ m < 2 ^ 36)).
Proof.
  intros Hi. unfold bigModExp_RequiredGas. destruct (modexpHead_ok input Hi) as (b & e & m & rest & -> & Hb & He & Hm & Hr).
  cbn -[Z.mul Z.ltb Z.sub u64 modexpHeadBits big_Div]. destruct (modexpHeadBits_ok b e rest Hr Hb He) as (h & -> & Hh). cbn -[Z.mul Z.ltb Z.sub u64 big_Div].
  set (adj := (if Z.ltb 32 e then 8 * (e - 32) else 0) + (if Z.ltb 0 (BitLen h) then BitLen h - 1 else 0)).
  assert (0 <= adj /\ e <= 32 + adj / 8) as [Ha He'].
  { subst adj. pose proof (Z.div_mod ((if Z.ltb 32 e then 8 * (e - 32) else 0) + (if Z.ltb 0 (BitLen h) then BitLen h - 1 else 0)) 8 ltac:(lia)) as Hd.
    pose proof (Z.mod_pos_bound ((if Z.ltb 32 e then 8 * (e - 32) else 0) + (if Z.ltb 0 (BitLen h) then BitLen h - 1 else 0)) 8 ltac:(lia)). destruct (Z.ltb_spec 32 e), (Z.ltb_spec 0 (BitLen h)); lia. }
  assert (BigMax m b = Z.max m b) as -> by (unfold BigMax; destruct (Z.ltb_spec m b); lia). set (x := Z.max m b).
  assert (forall p, 0 <= p -> is_u64 p -> (p < 2 ^ 60 -> (if eip then big_Div (big_Div (x + 7) 8 * big_Div (x + 7) 8 * BigMax adj 1) 3 else big_Div (modexpMultComplexity x * BigMax adj 1) 20) <= p) ->
    p < 2 ^ 60 -> b = 0 /\ m = 0 \/ b < 2 ^ 36 /\ e < 2 ^ 63 /\ m < 2 ^ 36) as Hprice.
  { intros p Hp _ Hle Hlt. destruct (decide (x = 0)) as [E0|Hne]; [left; lia|right].
    destruct (modexp_price eip x adj p Ha ltac:(lia) ltac:(lia) (Hle Hlt) ltac:(lia)) as [Hx Hadj]. split; [lia|]. split; [|lia].
    assert (adj / 8 < 2 ^ 62) by (apply Z.div_lt_upper_bound; lia). lia. }
  pose proof (modexp_gas_nonneg eip x adj ltac:(lia) Ha) as Hg0. assert (is_u64 MaxUint64) as HM by (unfold is_u64; by vm_compute).
  exists b, e, m, rest. destruct eip; set (g := big_Div _ _) in *.
  - destruct (Z.ltb_spec 64 (BitLen g)) as [|Hbl]; [exists MaxUint64; do 7 (split; [done|]); by rewrite MaxUint64_val|].
    assert (is_u64 g) as Hg by (split; [done|by apply BitLen_pow]). rewrite u64_small by done. destruct (Z.ltb_spec g 200).
    + exists 200. do 2 (split; [done|]). assert (is_u64 200) by (by vm_compute). do 5 (split; [done|]). apply Hprice; [lia|done|lia].
    + exists g. do 7 (split; [done|]). by apply Hprice.
  - destruct (Z.ltb_spec 64 (BitLen g)) as [|Hbl]; [exists MaxUint64; do 7 (split; [done|]); by rewrite MaxUint64_val|].
    assert (is_u64 g) as Hg by (split; [done|by apply BitLen_pow]). rewrite u64_small by done. exists g. do 7 (split; [done|]). by apply Hprice.
Qed.

Lemma RequiredGas_ok p input : small (len input) -> exists g, RequiredGas p input = Ok g /\ is_u64 g.
Proof.
  intros Hi. destruct p; cbn [RequiredGas]; try (eexists; split; [done|]; apply u64_range || (split; [done|by vm_compute])).
  - destruct (bigModExp_RequiredGas_ok eip2565 input Hi) as (b & e & m & rest & g & _ & E & Hg & _). eauto.
  - destruct (Z.eqb_spec (len input) blake2FInputLength) as [El|]; cbn [negb].
    + rewrite slice_ok by (rewrite ?El; unfold blake2FInputLength; lia). cbn -[take drop be_val]. eexists. split; [done|]. pose proof (be_val_range (take 4 (drop 0 input))) as Hr.
      assert (len (take 4 (drop 0 input)) = 4) as El4 by (unfold len, blake2FInputLength in *; rewrite length_take, length_drop; lia). change (Z.to_nat (4 - 0)) with 4%nat. change (Z.to_nat 0) with 0%nat.
      rewrite El4 in Hr. unfold is_u64. change (256 ^ 4) with 4294967296 in Hr. change (2 ^ 64) with 18446744073709551616. lia.
    + exists 0. split; [done|]. by vm_compute.
Qed.

Lemma min_bytes_bound v n : 0 <= v < 256 ^ n -> 0 <= n -> len (min_bytes v) <= n.
Proof.
  intros Hv Hn. unfold min_bytes, len. rewrite length_be_bytes. assert (BitLen v <= 8 * n).
  { unfold BitLen. destruct (Z.eqb_spec v 0); [lia|]. replace (Z.abs v) with v by lia. assert (Z.log2 v < 8 * n); [|lia].
    apply Z.log2_lt_pow2; [lia|]. replace (2 ^ (8 * n)) with (256 ^ n); [lia|]. rewrite Z.pow_mul_r by lia. done. }
  pose proof (Z.div_le_upper_bound (BitLen v + 7) 8 n). assert ((BitLen v + 7) / 8 <= n); [|lia]. apply Z.lt_succ_r, Z.div_lt_upper_bound; lia.
Qed.

Lemma length_LeftPadBytes b l : len b <= l -> len (LeftPadBytes b l) = l.
Proof. intros Hb. unfold LeftPadBytes, len in *. destruct (Z.leb_spec l (Z.of_nat (length b))); [lia|]. rewrite length_app, length_replicate. lia. Qed.

Lemma bigModExp_Run_ok eip input g : small (len input) -> bigModExp_RequiredGas eip input = Ok g -> g < 2 ^ 60 -> exists out, bigModExp_Run input = Ok out /\ small (len out).
Proof.
  intros Hi Eg Hlt. destruct (bigModExp_RequiredGas_ok eip input Hi) as (b & e & m & rest & g' & Eh & Eg' & _ & Hb & He & Hm & Hr & Hp).
  rewrite Eg in Eg'. injection Eg' as <-. unfold bigModExp_Run. rewrite Eh. cbn -[getData u64 Z.eqb LeftPadBytes]. destruct (Hp Hlt) as [[-> ->]|(Hb' & He' & Hm')].
  { exists []. split; [done|]. by vm_compute. }
  assert (forall z, 0 <= z < 2 ^ 63 -> u64 z = z) as Hu by (intros z Hz; apply u64_of_small; lia).
  rewrite (Hu b), (Hu e), (Hu m) by lia. assert (small 0) as Hs0 by (by vm_compute). destruct (Z.eqb b 0 && Z.eqb m 0); [by exists []|].
  destruct (getData_total rest 0 b Hr ltac:(lia) ltac:(lia)) as (db & -> & _). destruct (getData_total rest b e Hr ltac:(lia) ltac:(lia)) as (de & -> & _).
  destruct (getData_total rest (u64 (b + e)) m Hr ltac:(apply u64_range) ltac:(lia)) as (dm & -> & Edm). cbn -[Z.eqb LeftPadBytes]. rewrite i64_small by lia.
  assert (small m) as Hsm by (unfold small; lia). destruct (Z.eqb_spec (BitLen (be_val dm)) 0) as [|Hne].
  - eexists. split; [done|]. by rewrite length_LeftPadBytes by (unfold len; cbn; lia).
  - eexists. split; [done|]. pose proof (be_val_range dm) as Hdm. rewrite Edm in Hdm. assert (0 < be_val dm) by (destruct (decide (be_val dm = 0)) as [E0|]; [rewrite E0 in Hne; done|lia]).
    rewrite length_LeftPadBytes; [done|]. apply min_bytes_bound; [|done]. pose proof (Z.mod_pos_bound (be_val db ^ be_val de) (be_val dm)). unfold bigExp. lia.
Qed.

Section run_ok.
Context `{PrecompileLibs}.

Definition noPanic {A} (P : A -> Prop) (o : outcome A) : Prop := match o with Ok a => P a | Fail _ => True | Panic _ => False end.

Lemma noPanic_bind {A B} (P : A -> Prop) (Q : B -> Prop) (o : outcome A) (k : A -> outcome B) : noPanic P o -> (forall a, P a -> noPanic Q (k a)) -> noPanic Q (o ≫= k).
Proof. intros Ho Hk. destruct o; cbn in *; auto. Qed.

Lemma noPanic_point {A} (r : A + error) : noPanic (fun _ => True) (orFail r).
Proof. by destruct r. Qed.

Lemma noPanic_getData input start size : small (len input) -> 0 <= start -> 0 <= size < 2 ^ 63 -> noPanic (fun _ => True) (getData input start size).
Proof. intros Hi Hs Hz. by destruct (getData_total input start size Hi Hs Hz) as (d & -> & _). Qed.

Lemma noPanic_slice {A} (l : list A) i j : 0 <= i <= j -> j <= len l -> noPanic (fun _ => True) (slice_ l i j).
Proof. intros Hi Hj. by rewrite slice_ok. Qed.

Lemma pairingPoints_ok input n : forall i, 0 <= i -> i + 192 * Z.of_nat n <= len input -> noPanic (fun _ => True) (pairingPoints n i input).
Proof.
  induction n as [|n IH]; intros i Hi Hl; [done|]. cbn [pairingPoints].
  eapply noPanic_bind; [apply noPanic_slice; lia|intros b _]. eapply noPanic_bind; [apply noPanic_point|intros c _].
  eapply noPanic_bind; [apply noPanic_slice; lia|intros b' _]. eapply noPanic_bind; [apply noPanic_point|intros t _].
  eapply noPanic_bind; [apply IH; lia|]. by intros [cs ts] _.
Qed.

Lemma leWords_ok input n : forall i, 0 <= i -> i + 8 * Z.of_nat n <= len input -> noPanic (fun l => length l = n) (leWords n i input).
Proof.
  induction n as [|n IH]; intros i Hi Hl; [done|]. cbn [leWords]. eapply noPanic_bind; [apply noPanic_slice; lia|intros b _].
  eapply noPanic_bind; [apply IH; lia|]. intros l Hll. cbn. by rewrite Hll.
Qed.

Lemma length_concat_le8 l : len (concat (map (le_bytes 8) l)) = 8 * len l.
Proof. unfold len. induction l as [|x l IH]; [done|]. cbn [map concat]. rewrite length_app, length_le_bytes. cbn [length]. lia. Qed.

Ltac no_panic :=
  repeat (eapply noPanic_bind; [first [apply noPanic_getData; [done|lia|lia] | apply noPanic_point | apply noPanic_slice; lia]|intros ? _]).

Lemma runBn256Add_ok input : small (len input) -> noPanic (fun b => length b = 64%nat) (runBn256Add input).
Proof. intros Hi. unfold runBn256Add. no_panic. apply G1_Marshal_size. Qed.

Lemma runBn256ScalarMul_ok input : small (len input) -> noPanic (fun b => length b = 64%nat) (runBn256ScalarMul input).
Proof. intros Hi. unfold runBn256ScalarMul. no_panic. apply G1_Marshal_size. Qed.

Lemma runBn256Pairing_ok input : noPanic (fun b => length b = 32%nat) (runBn256Pairing input).
Proof.
  unfold runBn256Pairing. destruct (Z.ltb_spec 0 (len input mod 192)); [done|]. pose proof (Z.div_mod (len input) 192 ltac:(lia)). pose proof (Z.mod_pos_bound (len input) 192 ltac:(lia)).
  assert (0 <= len input / 192) by (apply Z.div_pos; unfold len; lia). eapply noPanic_bind; [apply pairingPoints_ok; lia|]. intros [cs ts] _. cbn. by destruct (PairingCheck cs ts).
Qed.

Lemma blake2F_Run_ok input : noPanic (fun b => length b = 64%nat) (blake2F_Run input).
Proof.
  unfold blake2F_Run. destruct (Z.eqb_spec (len input) blake2FInputLength) as [El|]; [|done]. cbn [negb]. unfold blake2FInputLength in El.
  destruct (at_Z_in input 212 ltac:(lia)) as (flag & -> & _). cbn -[Z.eqb leWords slice_ le_bytes]. destruct (_ && _); [done|]. rewrite slice_ok by lia. cbn -[Z.eqb leWords take drop le_bytes].
  eapply noPanic_bind; [apply leWords_ok; lia|]. intros h Hh. eapply noPanic_bind; [apply leWords_ok; lia|]. intros m Hm. eapply noPanic_bind; [apply leWords_ok; lia|]. intros t Ht.
  cbv [noPanic]. set (r := blake2b_F _ _ _ _ _). pose proof (length_concat_le8 r) as Hl. assert (length r = 8%nat) as Hr by (by apply blake2b_F_size). unfold len in Hl. lia.
Qed.

(** A contract whose price is below 2^60 does not panic, and returns no more than a
    memory holds. *)
Lemma Run_ok p input g : small (len input) -> RequiredGas p input = Ok g -> g < 2 ^ 60 -> noPanic (fun r => small (len (retBytes input r))) (Run p input).
Proof.
  intros Hi Eg Hg. assert (forall b : list byte, (length b <= 64)%nat -> small (len b)) as Hs by (intros b Hb; unfold small, len; change (2 ^ 60) with 1152921504606846976; lia).
  assert (forall o, noPanic (fun b => (length b <= 64)%nat) o -> noPanic (fun r => small (len (retBytes input r))) (b ← o; Ok (Own b))) as Hown.
  { intros o Ho. eapply noPanic_bind; [exact Ho|]. intros b Hb. by apply Hs. }
  assert (forall n (o : outcome (list byte)), noPanic (fun b => length b = n) o -> (n <= 64)%nat -> noPanic (fun b => (length b <= 64)%nat) o) as Hle by (intros n [b|e|q] Ho Hn; cbn in *; [lia|done|done]).
  destruct p; cbn [Run].
  - cbn. apply Hs. rewrite sha256_size. lia.
  - cbn. rewrite length_LeftPadBytes by (unfold len; rewrite ripemd160_size; lia). by vm_compute.
  - done.
  - by destruct (bigModExp_Run_ok eip2565 input g Hi Eg Hg) as (out & -> & Ho).
  - apply Hown, (Hle 64%nat); [by apply runBn256Add_ok|lia].
  - apply Hown, (Hle 64%nat); [by apply runBn256ScalarMul_ok|lia].
  - apply Hown, (Hle 32%nat); [by apply runBn256Pairing_ok|lia].
  - apply Hown, (Hle 64%nat); [by apply runBn256ScalarMul_ok|lia].
  - apply Hown, (Hle 32%nat); [by apply runBn256Pairing_ok|lia].
  - apply Hown, (Hle 64%nat); [by apply blake2F_Run_ok|lia].
Qed.

Lemma RunPrecompiledContract_ok p input gas : small (len input) -> small gas ->
  exists ret gas' err, RunPrecompiledContract p input gas = Ok (ret, gas', err) /\ 0 <= gas' <= gas /\ small (len (retBytes input ret)).
Proof.
  intros Hi Hg. unfold RunPrecompiledContract. destruct (RequiredGas_ok p input Hi) as (g & E & Hu). rewrite E. cbn -[Z.ltb]. assert (small (len (@nil byte))) as H0 by (by vm_compute).
  unfold small, is_u64 in *. destruct (Z.ltb_spec gas g); [do 3 eexists; split; [done|]; cbn; lia|].
  pose proof (Run_ok p input g Hi E ltac:(lia)) as Hr. destruct (Run p input) as [out|e|q]; cbn in Hr; [| |done]; do 3 eexists; (split; [done|]); (split; [lia|done]).
Qed.
End run_ok.
