(* ===== verification/Evm.v ===== *)
(** The EVM: contracts, instructions, gas, calls and the interpreter.

    Models src/core/vm/contract.go, instructions.go, the opcodes of eips.go,
    gas_table.go, operations_acl.go, memory_table.go, evm.go and interpreter.go, with
    [CanTransfer] and [Transfer] of src/core/evm.go, over any state database
    ([StateDB]).  The state of the EVM is a record ([EVM]); a running contract adds its
    memory, stack, contract and program counter ([Scope]).  A Go error is a failure of
    the monad inside an instruction or a gas function, and a value once the interpreter
    or a call returns it.  The stack of frames is the recursion of [loop] on its fuel:
    running out of it is a panic, which EvmRun shows not to happen when the fuel exceeds
    the gas.  The tracer (Config.Debug) is left out, and the flag [abort] that another
    goroutine may set keeps its value during a run. *)

From S2P Require Import Prelude Common Rlp RlpEnc Uint256 StateSpec EvmBase EvmTable EvmPre.
From Stdlib Require Import Strings.Byte.
#[local] Open Scope Z_scope.

(** * The environment (evm.go) *)

Record BlockContext := mkBlockContext {
  GetHash : Z -> Hash;
  Coinbase : Address;
  GasLimit : Z;
  BlockNumber : Z;
  Time : Z;
  Difficulty : Z;
  BaseFee : Z;
}.
Record TxContext := mkTxContext { Origin : Address; GasPrice : Z }.
Record Config := mkConfig { NoRecursion : bool; EnablePreimageRecording : bool; OverrideGasFailure : bool }.
(** What an EVM is made with; the interpreter's table is in it. *)
Record Env := mkEnv {
  Context_ : BlockContext;
  Tx : TxContext;
  chainRules : Rules;
  ChainID : Z;
  cfg : Config;
  table : JumpTable;
}.

(** * Contracts (contract.go) *)

(** The interface [ContractRef]: an account, or a contract with what is read of it
    through the reference. *)
Inductive ContractRef :=
| AccountRef (a : Address)
| ContractPtr (a : Address) (callerAddress : Address) (val : Z).
Definition refAddress (r : ContractRef) : Address := match r with AccountRef a => a | ContractPtr a _ _ => a end.

Record Contract := mkContract {
  CallerAddress : Address;
  caller : ContractRef;
  self : Address;
  analysis : option bitvec;
  Code : list byte;
  CodeHash : Hash;
  CodeAddr : option Address;
  Input : list byte;
  Gas : Z;
  value : Z;
}.
#[export] Instance Contract_eta : Eta Contract := fun c => mkContract (CallerAddress c) (caller c) (self c) (analysis c) (Code c) (CodeHash c) (CodeAddr c) (Input c) (Gas c) (value c).
#[export] Instance set_CallerAddress : Setter CallerAddress := ltac:(derive_setter).
#[export] Instance set_analysis : Setter analysis := ltac:(derive_setter).
#[export] Instance set_Code : Setter Code := ltac:(derive_setter).
#[export] Instance set_CodeHash : Setter CodeHash := ltac:(derive_setter).
#[export] Instance set_CodeAddr : Setter CodeAddr := ltac:(derive_setter).
#[export] Instance set_Input : Setter Input := ltac:(derive_setter).
#[export] Instance set_Gas : Setter Gas := ltac:(derive_setter).
#[export] Instance set_value : Setter value := ltac:(derive_setter).

Definition contractRef (c : Contract) : ContractRef := ContractPtr (self c) (CallerAddress c) (value c).

Definition GetByte (c : Contract) (n : Z) : Z :=
  if Z.ltb n (len (Code c)) then match Code c !! Z.to_nat n with Some b => Zb b | None => 0 end else 0.
Definition GetOp (c : Contract) (n : Z) : Z := GetByte c n.
Definition SetCallCode (addr : option Address) (hash : Hash) (code : list byte) (c : Contract) : Contract :=
  c <| Code := code |> <| CodeHash := hash |> <| CodeAddr := addr |>.
(** [c.caller.( *Contract)] panics for an account. *)
Definition AsDelegate (c : Contract) : outcome Contract :=
  match caller c with
  | ContractPtr _ ca v => Ok (c <| CallerAddress := ca |> <| value := v |>)
  | AccountRef _ => Panic "interface conversion"
  end.
Definition UseGas (gas : Z) (c : Contract) : bool * Contract :=
  if Z.ltb (Gas c) gas then (false, c) else (true, c <| Gas ::= fun g => g - gas |>).

(** * The state *)

(** [jumpdests] is the map that the contracts of one outermost call share. *)
Record EVM (S : Type) := mkEVM {
  e_db : S;
  depth : Z;
  abort : Z;
  callGasTemp : Z;
  readOnly : bool;
  returnData : list byte;
  jumpdests : gmap Hash bitvec;
}.
Arguments mkEVM {S}. Arguments e_db {S}. Arguments depth {S}. Arguments abort {S}. Arguments callGasTemp {S}.
Arguments readOnly {S}. Arguments returnData {S}. Arguments jumpdests {S}.
#[export] Instance EVM_eta S : Eta (EVM S) := fun e => mkEVM (e_db e) (depth e) (abort e) (callGasTemp e) (readOnly e) (returnData e) (jumpdests e).
#[export] Instance set_e_db S : Setter (@e_db S) := ltac:(derive_setter).
#[export] Instance set_depth S : Setter (@depth S) := ltac:(derive_setter).
#[export] Instance set_callGasTemp S : Setter (@callGasTemp S) := ltac:(derive_setter).
#[export] Instance set_readOnly S : Setter (@readOnly S) := ltac:(derive_setter).
#[export] Instance set_returnData S : Setter (@returnData S) := ltac:(derive_setter).
#[export] Instance set_jumpdests S : Setter (@jumpdests S) := ltac:(derive_setter).

(** A running contract: the variables of [runInternal]. *)
Record Scope (S : Type) := mkScope {
  sc_evm : EVM S;
  sc_mem : Memory;
  sc_stack : Stack;
  sc_contract : Contract;
  sc_pc : Z;
  sc_steps : Z;
}.
Arguments mkScope {S}. Arguments sc_evm {S}. Arguments sc_mem {S}. Arguments sc_stack {S}. Arguments sc_contract {S}. Arguments sc_pc {S}. Arguments sc_steps {S}.
#[export] Instance Scope_eta S : Eta (Scope S) := fun s => mkScope (sc_evm s) (sc_mem s) (sc_stack s) (sc_contract s) (sc_pc s) (sc_steps s).
#[export] Instance set_sc_evm S : Setter (@sc_evm S) := ltac:(derive_setter).
#[export] Instance set_sc_mem S : Setter (@sc_mem S) := ltac:(derive_setter).
#[export] Instance set_sc_stack S : Setter (@sc_stack S) := ltac:(derive_setter).
#[export] Instance set_sc_contract S : Setter (@sc_contract S) := ltac:(derive_setter).
#[export] Instance set_sc_pc S : Setter (@sc_pc S) := ltac:(derive_setter).
#[export] Instance set_sc_steps S : Setter (@sc_steps S) := ltac:(derive_setter).

(** * Words as addresses and hashes *)

Definition toAddress (x : Int) : Address := BytesToAddress (U256.BytesAddress x).
Definition toHash (x : Int) : Hash := BytesToHash (U256.Bytes32 x).
Definition ofBool (b : bool) : Int := if b then U256.SetOne else U256.Clear.
Definition fromBig (z : Z) : Int := fst (U256.FromBig z).

(** * Memory sizes (memory_table.go) *)

Definition back2 (st : Stack) (i j : nat) : outcome (Int * Int) := x ← Back st i; y ← Back st j; Ok (x, y).
Definition memSize (st : Stack) (off l : nat) : outcome (Z * bool) := '(o, n) ← back2 st off l; Ok (calcMemSize64 o n).
Definition memorySha3 (st : Stack) : outcome (Z * bool) := memSize st 0 1.
Definition memoryCallDataCopy (st : Stack) : outcome (Z * bool) := memSize st 0 2.
Definition memoryReturnDataCopy (st : Stack) : outcome (Z * bool) := memSize st 0 2.
Definition memoryCodeCopy (st : Stack) : outcome (Z * bool) := memSize st 0 2.
Definition memoryExtCodeCopy (st : Stack) : outcome (Z * bool) := memSize st 1 3.
Definition memoryMLoad (st : Stack) : outcome (Z * bool) := o ← Back st 0; Ok (calcMemSize64WithUint o 32).
Definition memoryMStore8 (st : Stack) : outcome (Z * bool) := o ← Back st 0; Ok (calcMemSize64WithUint o 1).
Definition memoryMStore (st : Stack) : outcome (Z * bool) := o ← Back st 0; Ok (calcMemSize64WithUint o 32).
Definition memoryCreate (st : Stack) : outcome (Z * bool) := memSize st 1 2.
Definition memoryCreate2 (st : Stack) : outcome (Z * bool) := memSize st 1 2.
(** The larger of the memory for the result and for the arguments. *)
Definition memSizes (st : Stack) (retOff retLen inOff inLen : nat) : outcome (Z * bool) :=
  '(x, overflow) ← memSize st retOff retLen;
  if overflow : bool then Ok (0, true)
  else '(y, overflow) ← memSize st inOff inLen;
       if overflow : bool then Ok (0, true) else if Z.ltb y x then Ok (x, false) else Ok (y, false).
Definition memoryCall (st : Stack) : outcome (Z * bool) := memSizes st 5 6 3 4.
Definition memoryDelegateCall (st : Stack) : outcome (Z * bool) := memSizes st 4 5 2 3.
Definition memoryStaticCall (st : Stack) : outcome (Z * bool) := memSizes st 4 5 2 3.
Definition memoryReturn (st : Stack) : outcome (Z * bool) := memSize st 0 1.
Definition memoryRevert (st : Stack) : outcome (Z * bool) := memSize st 0 1.
Definition memoryLog (st : Stack) : outcome (Z * bool) := memSize st 0 1.

Definition runMemorySize (f : memorySizeFunc) (st : Stack) : outcome (Z * bool) :=
  match f with
  | M_memoryCall => memoryCall st
  | M_memoryCallDataCopy => memoryCallDataCopy st
  | M_memoryCodeCopy => memoryCodeCopy st
  | M_memoryCreate => memoryCreate st
  | M_memoryCreate2 => memoryCreate2 st
  | M_memoryDelegateCall => memoryDelegateCall st
  | M_memoryExtCodeCopy => memoryExtCodeCopy st
  | M_memoryLog => memoryLog st
  | M_memoryMLoad => memoryMLoad st
  | M_memoryMStore => memoryMStore st
  | M_memoryMStore8 => memoryMStore8 st
  | M_memoryReturn => memoryReturn st
  | M_memoryReturnDataCopy => memoryReturnDataCopy st
  | M_memoryRevert => memoryRevert st
  | M_memorySha3 => memorySha3 st
  | M_memoryStaticCall => memoryStaticCall st
  end.

Section evm.
Context {S : Type} `{Crypto} `{PrecompileLibs} `{!StateDB S} (env : Env).

Abbreviation rules := (chainRules env).

(** * Access to the parts of the state *)

Definition onDB {A} (m : M S A) : M (EVM S) A := zoom e_db (fun s e => e <| e_db := s |>) m.
Definition onEVM {A} (m : M (EVM S) A) : M (Scope S) A := zoom sc_evm (fun e sc => sc <| sc_evm := e |>) m.
Definition db {A} (m : M S A) : M (Scope S) A := onEVM (onDB m).

Definition popS : M (Scope S) Int :=
  st ← gets sc_stack; '(x, r) ← lift (pop st); modify (fun s => s <| sc_stack := r |>);; mret x.
Definition pushS (x : Int) : M (Scope S) unit := modify (fun s => s <| sc_stack ::= push x |>).
Definition peekS : M (Scope S) Int := st ← gets sc_stack; lift (peek st).
Definition setPeekS (x : Int) : M (Scope S) unit :=
  st ← gets sc_stack; r ← lift (setPeek x st); modify (fun s => s <| sc_stack := r |>).
Definition backS (n : nat) : M (Scope S) Int := st ← gets sc_stack; lift (Back st n).

Definition useGas (gas : Z) : M (Scope S) bool :=
  c ← gets sc_contract; let '(ok, c) := UseGas gas c in modify (fun s => s <| sc_contract := c |>);; mret ok.
Definition addGas (gas : Z) : M (Scope S) unit := modify (fun s => s <| sc_contract ::= fun c => c <| Gas ::= fun g => u64 (g + gas) |> |>).
Definition selfS : M (Scope S) Address := gets (fun s => self (sc_contract s)).

Definition memSet (offset size : Z) (v : list byte) : M (Scope S) unit :=
  m ← gets sc_mem; m ← lift (Set_ m offset size v); modify (fun s => s <| sc_mem := m |>).
Definition memPtr (offset size : Int) : M (Scope S) (list byte) :=
  m ← gets sc_mem; lift (GetPtr m (i64 (U256.Uint64 offset)) (i64 (U256.Uint64 size))).
Definition memCopy (offset size : Int) : M (Scope S) (list byte) :=
  m ← gets sc_mem; lift (GetCopy m (i64 (U256.Uint64 offset)) (i64 (U256.Uint64 size))).

(** * Gas (gas_table.go) *)

Definition orOverflow (r : Z * bool) : M (Scope S) Z := fail_if (snd r) ErrGasUintOverflow;; mret (fst r).
Definition memoryGas (size : Z) : M (Scope S) Z :=
  m ← gets sc_mem; '(fee, m) ← lift (memoryGasCost m size); modify (fun s => s <| sc_mem := m |>);; mret fee.

Definition memoryCopierGas (stackpos : nat) (size : Z) : M (Scope S) Z :=
  gas ← memoryGas size;
  x ← backS stackpos; words ← orOverflow (U256.Uint64WithOverflow x);
  words ← orOverflow (SafeMul (toWordSize words) params.CopyGas);
  orOverflow (SafeAdd gas words).

Definition isZeroHash (h : Hash) : bool := bool_decide (h = HashZero).

Definition gasSStore : M (Scope S) Z :=
  y ← backS 1; x ← backS 0; a ← selfS;
  current ← db (GetState a (toHash x));
  if IsPetersburg rules || negb (IsConstantinople rules) then
    if isZeroHash current && negb (Z.eqb (U256.Sign y) 0) then mret params.SstoreSetGas
    else if negb (isZeroHash current) && Z.eqb (U256.Sign y) 0 then db (AddRefund params.SstoreRefundGas);; mret params.SstoreClearGas
    else mret params.SstoreResetGas
  else
    let value := toHash y in
    if bool_decide (current = value) then mret params.NetSstoreNoopGas
    else
      original ← db (GetCommittedState a (toHash x));
      if bool_decide (original = current) then
        if isZeroHash original then mret params.NetSstoreInitGas
        else when (isZeroHash value) (db (AddRefund params.NetSstoreClearRefund));; mret params.NetSstoreCleanGas
      else
        when (negb (isZeroHash original))
          (if isZeroHash current then db (SubRefund params.NetSstoreClearRefund) else when (isZeroHash value) (db (AddRefund params.NetSstoreClearRefund)));;
        when (bool_decide (original = value))
          (if isZeroHash original then db (AddRefund params.NetSstoreResetClearRefund) else db (AddRefund params.NetSstoreResetRefund));;
        mret params.NetSstoreDirtyGas.

Definition gasSStoreEIP2200 : M (Scope S) Z :=
  c ← gets sc_contract;
  fail_if (Z.leb (Gas c) params.SstoreSentryGasEIP2200) (ErrorsNew "not enough gas for reentrancy sentry");;
  y ← backS 1; x ← backS 0; a ← selfS;
  current ← db (GetState a (toHash x));
  let value := toHash y in
  if bool_decide (current = value) then mret params.SloadGasEIP2200
  else
    original ← db (GetCommittedState a (toHash x));
    if bool_decide (original = current) then
      if isZeroHash original then mret params.SstoreSetGasEIP2200
      else when (isZeroHash value) (db (AddRefund params.SstoreClearsScheduleRefundEIP2200));; mret params.SstoreResetGasEIP2200
    else
      when (negb (isZeroHash original))
        (if isZeroHash current then db (SubRefund params.SstoreClearsScheduleRefundEIP2200)
         else when (isZeroHash value) (db (AddRefund params.SstoreClearsScheduleRefundEIP2200)));;
      when (bool_decide (original = value))
        (if isZeroHash original then db (AddRefund (params.SstoreSetGasEIP2200 - params.SloadGasEIP2200))
         else db (AddRefund (params.SstoreResetGasEIP2200 - params.SloadGasEIP2200)));;
      mret params.SloadGasEIP2200.

Definition makeGasLog (n : Z) (size : Z) : M (Scope S) Z :=
  x ← backS 1; requestedSize ← orOverflow (U256.Uint64WithOverflow x);
  gas ← memoryGas size;
  gas ← orOverflow (SafeAdd gas params.LogGas);
  gas ← orOverflow (SafeAdd gas (u64 (n * params.LogTopicGas)));
  memorySizeGas ← orOverflow (SafeMul requestedSize params.LogDataGas);
  orOverflow (SafeAdd gas memorySizeGas).

(** [gasSha3] and [gasCreate2] differ in where the size is. *)
Definition wordGas (stackpos : nat) (size : Z) : M (Scope S) Z :=
  gas ← memoryGas size;
  x ← backS stackpos; w ← orOverflow (U256.Uint64WithOverflow x);
  w ← orOverflow (SafeMul (toWordSize w) params.Sha3WordGas);
  orOverflow (SafeAdd gas w).
Definition gasSha3 (size : Z) : M (Scope S) Z := wordGas 1 size.
Definition gasCreate2 (size : Z) : M (Scope S) Z := wordGas 2 size.
Definition pureMemoryGascost (size : Z) : M (Scope S) Z := memoryGas size.

Definition expGas (perByte : Z) : M (Scope S) Z :=
  x ← backS 1;
  let expByteLen := (U256.BitLen x + 7) / 8 in
  orOverflow (SafeAdd (u64 (expByteLen * perByte)) params.ExpGas).
Definition gasExpFrontier : M (Scope S) Z := expGas params.ExpByteFrontier.
Definition gasExpEIP158 : M (Scope S) Z := expGas params.ExpByteEIP158.

(** [evm.callGasTemp] set, and the cost of the call with it. *)
Definition setCallGas (gas : Z) : M (Scope S) Z :=
  c ← gets sc_contract; x ← backS 0;
  t ← lift (callGas (IsEIP150 rules) (Gas c) gas x);
  modify (fun s => s <| sc_evm ::= fun e => e <| callGasTemp := t |> |>);;
  orOverflow (SafeAdd gas t).

Definition gasCall (size : Z) : M (Scope S) Z :=
  v ← backS 2; a ← backS 1;
  let transfersValue := negb (U256.IsZero v) in
  let address := toAddress a in
  new ← (if IsEIP158 rules then if transfersValue then db (Empty address) else mret false
         else ex ← db (Exist address); mret (negb ex));
  let gas := (if new : bool then params.CallNewAccountGas else 0) + (if transfersValue then params.CallValueTransferGas else 0) in
  m ← memoryGas size;
  gas ← orOverflow (SafeAdd gas m);
  setCallGas gas.
Definition gasCallCode (size : Z) : M (Scope S) Z :=
  m ← memoryGas size;
  v ← backS 2;
  let gas := if negb (Z.eqb (U256.Sign v) 0) then params.CallValueTransferGas else 0 in
  gas ← orOverflow (SafeAdd gas m);
  setCallGas gas.
Definition gasDelegateCall (size : Z) : M (Scope S) Z := gas ← memoryGas size; setCallGas gas.
Definition gasStaticCall (size : Z) : M (Scope S) Z := gas ← memoryGas size; setCallGas gas.

Definition gasSelfdestruct : M (Scope S) Z :=
  a ← selfS;
  gas ← (if IsEIP150 rules then
           b ← backS 0;
           let address := toAddress b in
           new ← (if IsEIP158 rules then e ← db (Empty address); (if e : bool then bal ← db (GetBalance a); mret (negb (Z.eqb bal 0)) else mret false)
                  else ex ← db (Exist address); mret (negb ex));
           mret (params.SelfdestructGasEIP150 + (if new : bool then params.CreateBySelfdestructGas else 0))
         else mret 0);
  suicided ← db (HasSuicided a);
  when (negb suicided) (db (AddRefund params.SelfdestructRefundGas));;
  mret gas.

(** ** Access lists (operations_acl.go) *)

Definition makeGasSStoreFunc (clearingRefund : Z) : M (Scope S) Z :=
  c ← gets sc_contract;
  fail_if (Z.leb (Gas c) params.SstoreSentryGasEIP2200) (ErrorsNew "not enough gas for reentrancy sentry");;
  y ← backS 1; x ← peekS; a ← selfS;
  let slot := toHash x in
  current ← db (GetState a slot);
  '(addrPresent, slotPresent) ← db (SlotInAccessList a slot);
  cost ← (if negb slotPresent then
            db (AddSlotToAccessList a slot);;
            (if negb addrPresent then panic "impossible case: address was not present in access list during sstore op" else mret params.ColdSloadCostEIP2929)
          else mret 0);
  let value := toHash y in
  if bool_decide (current = value) then mret (cost + params.WarmStorageReadCostEIP2929)
  else
    original ← db (GetCommittedState a (toHash x));
    if bool_decide (original = current) then
      if isZeroHash original then mret (cost + params.SstoreSetGasEIP2200)
      else when (isZeroHash value) (db (AddRefund clearingRefund));; mret (cost + (params.SstoreResetGasEIP2200 - params.ColdSloadCostEIP2929))
    else
      when (negb (isZeroHash original))
        (if isZeroHash current then db (SubRefund clearingRefund) else when (isZeroHash value) (db (AddRefund clearingRefund)));;
      when (bool_decide (original = value))
        (if isZeroHash original then db (AddRefund (params.SstoreSetGasEIP2200 - params.WarmStorageReadCostEIP2929))
         else db (AddRefund ((params.SstoreResetGasEIP2200 - params.ColdSloadCostEIP2929) - params.WarmStorageReadCostEIP2929)));;
      mret (cost + params.WarmStorageReadCostEIP2929).

Definition gasSLoadEIP2929 : M (Scope S) Z :=
  loc ← peekS; a ← selfS;
  let slot := toHash loc in
  '(_, slotPresent) ← db (SlotInAccessList a slot);
  if negb slotPresent then db (AddSlotToAccessList a slot);; mret params.ColdSloadCostEIP2929
  else mret params.WarmStorageReadCostEIP2929.

Definition gasExtCodeCopyEIP2929 (size : Z) : M (Scope S) Z :=
  gas ← memoryCopierGas 3 size;
  x ← peekS;
  let addr := toAddress x in
  present ← db (AddressInAccessList addr);
  if negb present then
    db (AddAddressToAccessList addr);;
    orOverflow (SafeAdd gas (params.ColdAccountAccessCostEIP2929 - params.WarmStorageReadCostEIP2929))
  else mret gas.

Definition gasEip2929AccountCheck : M (Scope S) Z :=
  x ← peekS;
  let addr := toAddress x in
  present ← db (AddressInAccessList addr);
  if negb present then db (AddAddressToAccessList addr);; mret (params.ColdAccountAccessCostEIP2929 - params.WarmStorageReadCostEIP2929)
  else mret 0.

Definition makeCallVariantGasCallEIP2929 (oldCalculator : M (Scope S) Z) : M (Scope S) Z :=
  x ← backS 1;
  let addr := toAddress x in
  warmAccess ← db (AddressInAccessList addr);
  let coldCost := params.ColdAccountAccessCostEIP2929 - params.WarmStorageReadCostEIP2929 in
  when (negb warmAccess) (db (AddAddressToAccessList addr);; ok ← useGas coldCost; fail_if (negb ok) ErrOutOfGas);;
  gas ← oldCalculator;
  if warmAccess : bool then mret gas
  else addGas coldCost;; mret (u64 (gas + coldCost)).

Definition makeSelfdestructGasFn (refundsEnabled : bool) : M (Scope S) Z :=
  x ← peekS; a ← selfS;
  let address := toAddress x in
  present ← db (AddressInAccessList address);
  gas ← (if negb present then db (AddAddressToAccessList address);; mret params.ColdAccountAccessCostEIP2929 else mret 0);
  empty ← db (Empty address);
  new ← (if empty : bool then bal ← db (GetBalance a); mret (negb (Z.eqb bal 0)) else mret false);
  let gas := gas + (if new : bool then params.CreateBySelfdestructGas else 0) in
  (if refundsEnabled then suicided ← db (HasSuicided a); when (negb suicided) (db (AddRefund params.SelfdestructRefundGas)) else mret ());;
  mret gas.

Fixpoint runGas (f : gasFunc) (size : Z) : M (Scope S) Z :=
  match f with
  | G_memoryCopierGas n => memoryCopierGas n size
  | G_gasSStore => gasSStore
  | G_gasSStoreEIP2200 => gasSStoreEIP2200
  | G_makeGasLog n => makeGasLog n size
  | G_gasSha3 => gasSha3 size
  | G_pureMemoryGascost => pureMemoryGascost size
  | G_gasCreate2 => gasCreate2 size
  | G_gasExpFrontier => gasExpFrontier
  | G_gasExpEIP158 => gasExpEIP158
  | G_gasCall => gasCall size
  | G_gasCallCode => gasCallCode size
  | G_gasDelegateCall => gasDelegateCall size
  | G_gasStaticCall => gasStaticCall size
  | G_gasSelfdestruct => gasSelfdestruct
  | G_makeGasSStoreFunc r => makeGasSStoreFunc r
  | G_gasSLoadEIP2929 => gasSLoadEIP2929
  | G_gasExtCodeCopyEIP2929 => gasExtCodeCopyEIP2929 size
  | G_gasEip2929AccountCheck => gasEip2929AccountCheck
  | G_makeCallVariantGasCallEIP2929 old => makeCallVariantGasCallEIP2929 (runGas old size)
  | G_makeSelfdestructGasFn b => makeSelfdestructGasFn b
  end.

(** * Jump destinations (contract.go) *)

Definition isCode (udest : Z) : M (Scope S) bool :=
  c ← gets sc_contract;
  match analysis c with
  | Some bits => lift (codeSegment bits udest)
  | None =>
    bits ← (if negb (isZeroHash (CodeHash c)) then
              jd ← gets (fun s => jumpdests (sc_evm s));
              match jd !! CodeHash c with
              | Some bits => mret bits
              | None =>
                bits ← lift (codeBitmap (Code c));
                modify (fun s => s <| sc_evm ::= fun e => e <| jumpdests ::= fun m => <[CodeHash c := bits]> m |> |>);;
                mret bits
              end
            else lift (codeBitmap (Code c)));
    modify (fun s => s <| sc_contract ::= fun c => c <| analysis := Some bits |> |>);;
    lift (codeSegment bits udest)
  end.

Definition validJumpdest (dest : Int) : M (Scope S) bool :=
  c ← gets sc_contract;
  let '(udest, overflow) := U256.Uint64WithOverflow dest in
  if overflow || Z.leb (len (Code c)) udest then mret false
  else b ← lift (at_Z (Code c) udest);
       if negb (Z.eqb (Zb b) opcodes.JUMPDEST) then mret false else isCode udest.

(** * Calls (evm.go) *)

Definition CanTransfer (addr : Address) (amount : Z) : M (EVM S) bool := b ← onDB (GetBalance addr); mret (Z.leb amount b).
Definition Transfer (sender recipient : Address) (amount : Z) : M (EVM S) unit :=
  onDB (SubBalance sender amount);; onDB (AddBalance recipient amount).

(** A contract called by an account starts a new map of jump destinations. *)
Definition NewContract (caller : ContractRef) (object : Address) (v gas : Z) : M (EVM S) Contract :=
  (match caller with AccountRef _ => modify (fun e => e <| jumpdests := ∅ |>) | ContractPtr _ _ _ => mret () end);;
  mret (mkContract (refAddress caller) caller object None [] HashZero None [] gas v).

(** What [interpreter.Run] gives back: the data, the error, and the gas that the contract
    has left. *)
Definition runResult : Type := list byte * option error * Z.
Definition callResult : Type := retval * Z * option error.
(** The interpreter, as the calls use it. *)
Context (run : Contract -> list byte -> bool -> M (EVM S) runResult).

(** The end of a call: undo its effects and take its gas when it failed. *)
Definition endCall (snapshot : Z) (r : callResult) : M (EVM S) callResult :=
  let '(ret, gas, err) := r in
  match err with
  | None => mret r
  | Some e => onDB (RevertToSnapshot snapshot);; mret (ret, if bool_decide (e = ErrExecutionReverted) then gas else 0, err)
  end.

Definition runContract (c : Contract) (input : list byte) (ro : bool) : M (EVM S) callResult :=
  '(ret, err, gas) ← run c input ro; mret (Own ret, gas, err).

Definition tooDeep : M (EVM S) bool := d ← gets depth; mret (Z.ltb params.CallCreateDepth d).
Definition recursionOff : M (EVM S) bool := d ← gets depth; mret (NoRecursion (cfg env) && Z.ltb 0 d).

Definition Call (caller : ContractRef) (addr : Address) (input : list byte) (gas v : Z) : M (EVM S) callResult :=
  off ← recursionOff;
  if off : bool then mret (Own [], gas, None)
  else
  deep ← tooDeep;
  if deep : bool then mret (Own [], gas, Some ErrDepth)
  else
  can ← (if negb (Z.eqb v 0) then CanTransfer (refAddress caller) v else mret true);
  if negb can then mret (Own [], gas, Some ErrInsufficientBalance)
  else
  snapshot ← onDB Snapshot;
  let p := precompile rules addr in
  ex ← onDB (Exist addr);
  if negb ex && match p with None => true | Some _ => false end && IsEIP158 rules && Z.eqb v 0 then mret (Own [], gas, None)
  else
  when (negb ex) (onDB (CreateAccount addr));;
  Transfer (refAddress caller) addr v;;
  r ← match p with
      | Some p => lift (RunPrecompiledContract p input gas)
      | None =>
        code ← onDB (GetCode addr);
        if Z.eqb (len code) 0 then mret (Own [], gas, None)
        else
          contract ← NewContract caller addr v gas;
          h ← onDB (GetCodeHash addr);
          runContract (SetCallCode (Some addr) h code contract) input false
      end;
  endCall snapshot r.

(** The code of [addr] run by a contract made of [contract], or a precompiled one. *)
Definition runAt (contract : M (EVM S) Contract) (addr : Address) (input : list byte) (gas : Z) (ro : bool) : M (EVM S) callResult :=
  match precompile rules addr with
  | Some p => lift (RunPrecompiledContract p input gas)
  | None =>
    contract ← contract;
    h ← onDB (GetCodeHash addr);
    code ← onDB (GetCode addr);
    runContract (SetCallCode (Some addr) h code contract) input ro
  end.

Definition CallCode (caller : ContractRef) (addr : Address) (input : list byte) (gas v : Z) : M (EVM S) callResult :=
  off ← recursionOff;
  if off : bool then mret (Own [], gas, None)
  else
  deep ← tooDeep;
  if deep : bool then mret (Own [], gas, Some ErrDepth)
  else
  can ← CanTransfer (refAddress caller) v;
  if negb can then mret (Own [], gas, Some ErrInsufficientBalance)
  else
  snapshot ← onDB Snapshot;
  r ← runAt (NewContract caller (refAddress caller) v gas) addr input gas false;
  endCall snapshot r.

Definition DelegateCall (caller : ContractRef) (addr : Address) (input : list byte) (gas : Z) : M (EVM S) callResult :=
  off ← recursionOff;
  if off : bool then mret (Own [], gas, None)
  else
  deep ← tooDeep;
  if deep : bool then mret (Own [], gas, Some ErrDepth)
  else
  snapshot ← onDB Snapshot;
  r ← runAt (c ← NewContract caller (refAddress caller) 0 gas; lift (AsDelegate c)) addr input gas false;
  endCall snapshot r.

Definition StaticCall (caller : ContractRef) (addr : Address) (input : list byte) (gas : Z) : M (EVM S) callResult :=
  off ← recursionOff;
  if off : bool then mret (Own [], gas, None)
  else
  deep ← tooDeep;
  if deep : bool then mret (Own [], gas, Some ErrDepth)
  else
  snapshot ← onDB Snapshot;
  onDB (AddBalance addr 0);;
  r ← runAt (NewContract caller addr 0 gas) addr input gas true;
  endCall snapshot r.

(** ** Creation *)

Definition CreateAddress (b : Address) (nonce : Z) : outcome Address :=
  match EncodeToBytes (TStruct [TByteArray 32; TUint 64]) (VList [VBytes (arr_bytes b); VUint nonce]) with
  | Ok data => Ok (BytesToAddress (Keccak256 [data]))
  | Fail _ => Ok (BytesToAddress (Keccak256 [[]]))
  | Panic p => Panic p
  end.
Definition CreateAddress2 (b : Address) (salt : list byte) (inithash : list byte) : Address :=
  BytesToAddress (Keccak256 [[bZ 0xff]; arr_bytes b; salt; inithash]).

(** The checks on the code that a creation returned, and its storing. *)
Definition storeCode (address : Address) (ret : list byte) (gas : Z) : M (EVM S) (option error * Z) :=
  if IsEIP158 rules && Z.ltb params.MaxCodeSize (len ret) then mret (Some ErrMaxCodeSizeExceeded, gas)
  else if match ret with b :: _ => Z.eqb (Zb b) 0xEF && IsLondon rules | [] => false end then mret (Some ErrInvalidCode, gas)
  else
    let createDataGas := u64 (len ret * params.CreateDataGas) in
    if Z.ltb gas createDataGas then mret (Some ErrCodeStoreOutOfGas, gas)
    else onDB (SetCode address ret);; mret (None, gas - createDataGas).

Definition createResult : Type := list byte * Address * Z * option error.
Definition create (caller : ContractRef) (code : list byte) (hash : Hash) (gas v : Z) (address : Address) : M (EVM S) createResult :=
  deep ← tooDeep;
  if deep : bool then mret ([], HashZero, gas, Some ErrDepth)
  else
  can ← CanTransfer (refAddress caller) v;
  if negb can then mret ([], HashZero, gas, Some ErrInsufficientBalance)
  else
  nonce ← onDB (GetNonce (refAddress caller));
  onDB (SetNonce (refAddress caller) (u64 (nonce + 1)));;
  when (IsBerlin rules) (onDB (AddAddressToAccessList address));;
  contractHash ← onDB (GetCodeHash address);
  n ← onDB (GetNonce address);
  if negb (Z.eqb n 0) || (negb (isZeroHash contractHash) && negb (bool_decide (contractHash = emptyCodeHash))) then mret ([], HashZero, 0, Some ErrContractAddressCollision)
  else
  snapshot ← onDB Snapshot;
  onDB (CreateAccount address);;
  when (IsEIP158 rules) (onDB (SetNonce address 1));;
  Transfer (refAddress caller) address v;;
  contract ← NewContract caller address v gas;
  let contract := SetCallCode (Some address) hash code contract in
  off ← recursionOff;
  if off : bool then mret ([], address, gas, None)
  else
  '(ret, err, gas) ← run contract [] false;
  '(err, gas) ← match err with None => storeCode address ret gas | Some e => mret (Some e, gas) end;
  match err with
  | Some e =>
    if IsHomestead rules || negb (bool_decide (e = ErrCodeStoreOutOfGas)) then
      onDB (RevertToSnapshot snapshot);;
      mret (ret, address, if bool_decide (e = ErrExecutionReverted) then gas else 0, err)
    else mret (ret, address, gas, err)
  | None => mret (ret, address, gas, None)
  end.

Definition Create (caller : ContractRef) (code : list byte) (gas v : Z) : M (EVM S) createResult :=
  nonce ← onDB (GetNonce (refAddress caller));
  contractAddr ← lift (CreateAddress (refAddress caller) nonce);
  create caller code HashZero gas v contractAddr.
Definition Create2 (caller : ContractRef) (code : list byte) (gas endowment : Z) (salt : Int) : M (EVM S) createResult :=
  let hash := Keccak256Hash [code] in
  let contractAddr := CreateAddress2 (refAddress caller) (U256.Bytes32 salt) (arr_bytes hash) in
  create caller code hash gas endowment contractAddr.

(** * Instructions (instructions.go) *)

(** An instruction gives the slice it returns, empty for nil. *)
Abbreviation Exec := (M (Scope S) (list byte)).

(** [x, y := pop(), peek(); y = f x y], and with one and three operands. *)
Definition top1 (f : Int -> Int) : Exec := x ← peekS; setPeekS (f x);; mret [].
Definition top2 (f : Int -> Int -> outcome Int) : Exec := x ← popS; y ← peekS; z ← lift (f x y); setPeekS z;; mret [].
Definition top3 (f : Int -> Int -> Int -> outcome Int) : Exec := x ← popS; y ← popS; z ← peekS; r ← lift (f x y z); setPeekS r;; mret [].

Definition opAdd : Exec := top2 (fun x y => Ok (U256.Add x y)).
Definition opSub : Exec := top2 (fun x y => Ok (U256.Sub x y)).
Definition opMul : Exec := top2 (fun x y => Ok (U256.Mul x y)).
Definition opDiv : Exec := top2 U256.Div.
Definition opSdiv : Exec := top2 U256.SDiv.
Definition opMod : Exec := top2 U256.Mod.
Definition opSmod : Exec := top2 U256.SMod.
Definition opExp : Exec := top2 (fun base exponent => Ok (U256.Exp base exponent)).
Definition opSignExtend : Exec := top2 (fun back num => Ok (U256.ExtendSign num back)).
Definition opNot : Exec := top1 U256.Not.
Definition opLt : Exec := top2 (fun x y => Ok (ofBool (U256.Lt x y))).
Definition opGt : Exec := top2 (fun x y => Ok (ofBool (U256.Gt x y))).
Definition opSlt : Exec := top2 (fun x y => Ok (ofBool (U256.Slt x y))).
Definition opSgt : Exec := top2 (fun x y => Ok (ofBool (U256.Sgt x y))).
Definition opEq : Exec := top2 (fun x y => Ok (ofBool (U256.Eq x y))).
Definition opIszero : Exec := top1 (fun x => ofBool (U256.IsZero x)).
Definition opAnd : Exec := top2 (fun x y => Ok (U256.And x y)).
Definition opOr : Exec := top2 (fun x y => Ok (U256.Or x y)).
Definition opXor : Exec := top2 (fun x y => Ok (U256.Xor x y)).
Definition opByte : Exec := top2 (fun th val => Ok (U256.Byte val th)).
Definition opAddmod : Exec := top3 (fun x y z => if U256.IsZero z then Ok U256.Clear else U256.AddMod x y z).
Definition opMulmod : Exec := top3 U256.MulMod.
Definition opSHL : Exec := top2 (fun shift v => Ok (if U256.LtUint64 shift 256 then U256.Lsh v (U256.Uint64 shift) else U256.Clear)).
Definition opSHR : Exec := top2 (fun shift v => Ok (if U256.LtUint64 shift 256 then U256.Rsh v (U256.Uint64 shift) else U256.Clear)).
Definition opSAR : Exec := top2 (fun shift v =>
  Ok (if U256.GtUint64 shift 256 then if Z.leb 0 (U256.Sign v) then U256.Clear else U256.SetAllOne else U256.SRsh v (U256.Uint64 shift))).

(** Push a number, or the number that bytes stand for. *)
Definition pushInt (x : Int) : Exec := pushS x;; mret [].
Definition pushBytes (b : list byte) : Exec := x ← lift (U256.SetBytes b); pushInt x.
(** Replace the top by the number that bytes stand for. *)
Definition topBytes (b : list byte) : Exec := x ← lift (U256.SetBytes b); setPeekS x;; mret [].

Definition opSha3 : Exec :=
  offset ← popS; size ← peekS;
  data ← memPtr offset size;
  let h := BytesToHash (Keccak256 [data]) in
  when (EnablePreimageRecording (cfg env)) (db (AddPreimage h data));;
  topBytes (arr_bytes h).
Definition opAddress : Exec := a ← selfS; pushBytes (arr_bytes a).
Definition opBalance : Exec := slot ← peekS; b ← db (GetBalance (toAddress slot)); setPeekS (fromBig b);; mret [].
Definition opOrigin : Exec := pushBytes (arr_bytes (Origin (Tx env))).
Definition opCaller : Exec := c ← gets sc_contract; pushBytes (arr_bytes (CallerAddress c)).
Definition opCallValue : Exec := c ← gets sc_contract; pushInt (fromBig (value c)).
Definition opCallDataLoad : Exec :=
  x ← peekS; c ← gets sc_contract;
  let '(offset, overflow) := U256.Uint64WithOverflow x in
  if negb overflow then data ← lift (getData (Input c) offset 32); topBytes data
  else setPeekS U256.Clear;; mret [].
Definition opCallDataSize : Exec := c ← gets sc_contract; pushInt (U256.SetUint64 (len (Input c))).
(** An offset that does not fit is taken as the largest one. *)
Definition offset64 (x : Int) : Z := let '(o, overflow) := U256.Uint64WithOverflow x in if overflow : bool then 0xffffffffffffffff else o.
Definition opCallDataCopy : Exec :=
  memOffset ← popS; dataOffset ← popS; length_ ← popS;
  c ← gets sc_contract;
  data ← lift (getData (Input c) (offset64 dataOffset) (U256.Uint64 length_));
  memSet (U256.Uint64 memOffset) (U256.Uint64 length_) data;; mret [].
Definition opReturnDataSize : Exec := r ← gets (fun s => returnData (sc_evm s)); pushInt (U256.SetUint64 (len r)).
Definition opReturnDataCopy : Exec :=
  memOffset ← popS; dataOffset ← popS; length_ ← popS;
  let '(offset, overflow) := U256.Uint64WithOverflow dataOffset in
  fail_if overflow ErrReturnDataOutOfBounds;;
  let '(end64, overflow) := U256.Uint64WithOverflow (U256.Add dataOffset length_) in
  r ← gets (fun s => returnData (sc_evm s));
  fail_if (overflow || Z.ltb (len r) end64) ErrReturnDataOutOfBounds;;
  d ← lift (slice_ r offset end64);
  memSet (U256.Uint64 memOffset) (U256.Uint64 length_) d;; mret [].
Definition opExtCodeSize : Exec := slot ← peekS; n ← db (GetCodeSize (toAddress slot)); setPeekS (U256.SetUint64 n);; mret [].
Definition opCodeSize : Exec := c ← gets sc_contract; pushInt (U256.SetUint64 (len (Code c))).
Definition opCodeCopy : Exec :=
  memOffset ← popS; codeOffset ← popS; length_ ← popS;
  c ← gets sc_contract;
  codeCopy ← lift (getData (Code c) (offset64 codeOffset) (U256.Uint64 length_));
  memSet (U256.Uint64 memOffset) (U256.Uint64 length_) codeCopy;; mret [].
Definition opExtCodeCopy : Exec :=
  a ← popS; memOffset ← popS; codeOffset ← popS; length_ ← popS;
  code ← db (GetCode (toAddress a));
  codeCopy ← lift (getData code (offset64 codeOffset) (U256.Uint64 length_));
  memSet (U256.Uint64 memOffset) (U256.Uint64 length_) codeCopy;; mret [].
Definition opExtCodeHash : Exec :=
  slot ← peekS;
  let address := toAddress slot in
  e ← db (Empty address);
  if e : bool then setPeekS U256.Clear;; mret []
  else h ← db (GetCodeHash address); topBytes (arr_bytes h).
Definition opGasprice : Exec := pushInt (fromBig (GasPrice (Tx env))).
Definition opBlockhash : Exec :=
  num ← peekS;
  let '(num64, overflow) := U256.Uint64WithOverflow num in
  let upper := u64 (BlockNumber (Context_ env)) in
  let lower := if Z.ltb upper 257 then 0 else upper - 256 in
  if negb overflow && Z.leb lower num64 && Z.ltb num64 upper then topBytes (arr_bytes (GetHash (Context_ env) num64))
  else setPeekS U256.Clear;; mret [].
Definition opCoinbase : Exec := pushBytes (arr_bytes (Coinbase (Context_ env))).
Definition opTimestamp : Exec := pushInt (fromBig (Time (Context_ env))).
Definition opNumber : Exec := pushInt (fromBig (BlockNumber (Context_ env))).
Definition opDifficulty : Exec := pushInt (fromBig (Difficulty (Context_ env))).
Definition opGasLimit : Exec := pushInt (U256.SetUint64 (GasLimit (Context_ env))).
Definition opPop : Exec := popS;; mret [].
Definition opMload : Exec :=
  v ← peekS; m ← gets sc_mem; b ← lift (GetPtr m (i64 (U256.Uint64 v)) 32); topBytes b.
Definition opMstore : Exec :=
  mStart ← popS; val ← popS;
  m ← gets sc_mem; m ← lift (Set32 m (U256.Uint64 mStart) val); modify (fun s => s <| sc_mem := m |>);; mret [].
Definition opMstore8 : Exec :=
  off ← popS; val ← popS;
  m ← gets sc_mem; b ← lift (setAt (store m) (U256.Uint64 off) (bZ (U256.Uint64 val)));
  modify (fun s => s <| sc_mem := m <| store := b |> |>);; mret [].
Definition opSload : Exec := loc ← peekS; a ← selfS; val ← db (GetState a (toHash loc)); topBytes (arr_bytes val).
Definition opSstore : Exec := loc ← popS; val ← popS; a ← selfS; db (SetState a (toHash loc) (toHash val));; mret [].
Definition setPc (p : Z) : M (Scope S) unit := modify (fun s => s <| sc_pc := p |>).
Definition opJump : Exec :=
  pos ← popS; ok ← validJumpdest pos;
  fail_if (negb ok) ErrInvalidJump;;
  setPc (U256.Uint64 pos);; mret [].
Definition opJumpi : Exec :=
  pos ← popS; cond ← popS;
  if negb (U256.IsZero cond) then
    ok ← validJumpdest pos;
    fail_if (negb ok) ErrInvalidJump;;
    setPc (U256.Uint64 pos);; mret []
  else p ← gets sc_pc; setPc (u64 (p + 1));; mret [].
Definition opJumpdest : Exec := mret [].
Definition opPc : Exec := p ← gets sc_pc; pushInt (U256.SetUint64 p).
Definition opMsize : Exec := m ← gets sc_mem; pushInt (U256.SetUint64 (Len m)).
Definition opGas : Exec := c ← gets sc_contract; pushInt (U256.SetUint64 (Gas c)).
Definition opSelfBalance : Exec := a ← selfS; b ← db (GetBalance a); pushInt (fromBig b).
Definition opChainID : Exec := pushInt (fromBig (ChainID env)).
Definition opBaseFee : Exec := pushInt (fromBig (BaseFee (Context_ env))).

(** ** Creations *)

Definition isErr (err : option error) (e : error) : bool := bool_decide (err = Some e).
Definition bigVal (v : Int) : Z := if U256.IsZero v then 0 else U256.ToBig v.
(** The data of a creation are kept only when it reverted. *)
Definition endCreate (sv : Int) (r : createResult) : Exec :=
  let '(res, _, returnGas, suberr) := r in
  pushS sv;; addGas returnGas;; mret (if isErr suberr ErrExecutionReverted then res else []).
Definition opCreate : Exec :=
  v ← popS; offset ← popS; size ← popS;
  input ← memCopy offset size;
  c ← gets sc_contract;
  let gas := if IsEIP150 rules then Gas c - Gas c / 64 else Gas c in
  useGas gas;;
  c ← gets sc_contract;
  r ← onEVM (Create (contractRef c) input gas (bigVal v));
  let '(_, addr, _, suberr) := r in
  sv ← (if (IsHomestead rules && isErr suberr ErrCodeStoreOutOfGas) || (negb (isErr suberr ErrCodeStoreOutOfGas) && bool_decide (is_Some suberr)) then mret U256.Clear
        else lift (U256.SetBytes (arr_bytes addr)));
  endCreate sv r.
Definition opCreate2 : Exec :=
  endowment ← popS; offset ← popS; size ← popS; salt ← popS;
  input ← memCopy offset size;
  c ← gets sc_contract;
  let gas := Gas c - Gas c / 64 in
  useGas gas;;
  c ← gets sc_contract;
  r ← onEVM (Create2 (contractRef c) input gas (bigVal endowment) salt);
  let '(_, addr, _, suberr) := r in
  sv ← (if bool_decide (is_Some suberr) then mret U256.Clear else lift (U256.SetBytes (arr_bytes addr)));
  endCreate sv r.

(** ** Calls *)

(** The bytes of a returned slice; the slice that was passed as input is the memory. *)
Definition readRet (inOffset inSize : Int) (r : retval) : M (Scope S) (list byte) :=
  match r with Own b => mret b | SameAsInput => memPtr inOffset inSize end.
(** The end of the four call instructions.  The returned slice is read again after the
    memory has been written. *)
Definition endCallOp (inOffset inSize retOffset retSize : Int) (r : callResult) : Exec :=
  let '(ret, returnGas, err) := r in
  pushS (ofBool (negb (bool_decide (is_Some err))));;
  when (bool_decide (err = None) || isErr err ErrExecutionReverted)
    (b ← readRet inOffset inSize ret; memSet (U256.Uint64 retOffset) (U256.Uint64 retSize) b);;
  addGas returnGas;;
  readRet inOffset inSize ret.
Definition opCall : Exec :=
  popS;; gas ← gets (fun s => callGasTemp (sc_evm s));
  addr ← popS; v ← popS; inOffset ← popS; inSize ← popS; retOffset ← popS; retSize ← popS;
  args ← memPtr inOffset inSize;
  let gas := if U256.IsZero v then gas else u64 (gas + params.CallStipend) in
  c ← gets sc_contract;
  r ← onEVM (Call (contractRef c) (toAddress addr) args gas (bigVal v));
  endCallOp inOffset inSize retOffset retSize r.
Definition opCallCode : Exec :=
  popS;; gas ← gets (fun s => callGasTemp (sc_evm s));
  addr ← popS; v ← popS; inOffset ← popS; inSize ← popS; retOffset ← popS; retSize ← popS;
  args ← memPtr inOffset inSize;
  let gas := if U256.IsZero v then gas else u64 (gas + params.CallStipend) in
  c ← gets sc_contract;
  r ← onEVM (CallCode (contractRef c) (toAddress addr) args gas (bigVal v));
  endCallOp inOffset inSize retOffset retSize r.
Definition opDelegateCall : Exec :=
  popS;; gas ← gets (fun s => callGasTemp (sc_evm s));
  addr ← popS; inOffset ← popS; inSize ← popS; retOffset ← popS; retSize ← popS;
  args ← memPtr inOffset inSize;
  c ← gets sc_contract;
  r ← onEVM (DelegateCall (contractRef c) (toAddress addr) args gas);
  endCallOp inOffset inSize retOffset retSize r.
Definition opStaticCall : Exec :=
  popS;; gas ← gets (fun s => callGasTemp (sc_evm s));
  addr ← popS; inOffset ← popS; inSize ← popS; retOffset ← popS; retSize ← popS;
  args ← memPtr inOffset inSize;
  c ← gets sc_contract;
  r ← onEVM (StaticCall (contractRef c) (toAddress addr) args gas);
  endCallOp inOffset inSize retOffset retSize r.

(** ** The end of a run, logs, and the families of instructions *)

Definition opReturn : Exec := offset ← popS; size ← popS; memPtr offset size.
Definition opRevert : Exec := offset ← popS; size ← popS; memPtr offset size.
Definition opStop : Exec := mret [].
Definition opSuicide : Exec :=
  beneficiary ← popS; a ← selfS;
  balance ← db (GetBalance a);
  db (AddBalance (toAddress beneficiary) balance);;
  db (Suicide a);; mret [].

Fixpoint popTopics (n : nat) : M (Scope S) (list Hash) :=
  match n with O => mret [] | Datatypes.S n => x ← popS; l ← popTopics n; mret (toHash x :: l) end.
Definition makeLog (size : nat) : Exec :=
  mStart ← popS; mSize ← popS;
  topics ← popTopics size;
  d ← memCopy mStart mSize;
  a ← selfS;
  db (AddLog (mkLog a topics d (u64 (BlockNumber (Context_ env))) HashZero 0 HashZero 0 false));; mret [].
Definition opPush1 : Exec :=
  c ← gets sc_contract; p ← gets sc_pc;
  let p := u64 (p + 1) in
  setPc p;;
  if Z.ltb p (len (Code c)) then b ← lift (at_Z (Code c) p); pushInt (U256.SetUint64 (Zb b)) else pushInt U256.Clear.
Definition makePush (size pushByteSize : Z) : Exec :=
  c ← gets sc_contract; p ← gets sc_pc;
  let codeLen := len (Code c) in
  let start := i64 (u64 (p + 1)) in
  let startMin := if Z.ltb start codeLen then start else codeLen in
  let endMin := if Z.ltb (startMin + pushByteSize) codeLen then startMin + pushByteSize else codeLen in
  b ← lift (slice_ (Code c) startMin endMin);
  x ← lift (U256.SetBytes (RightPadBytes b pushByteSize));
  pushS x;; setPc (u64 (p + size));; mret [].
Definition makeDup (size : nat) : Exec := st ← gets sc_stack; r ← lift (dup size st); modify (fun s => s <| sc_stack := r |>);; mret [].
Definition makeSwap (size : nat) : Exec := st ← gets sc_stack; r ← lift (swap (size + 1) st); modify (fun s => s <| sc_stack := r |>);; mret [].

Definition runOp (f : executionFunc) : Exec :=
  match f with
  | X_opAdd => opAdd | X_opAddmod => opAddmod | X_opAddress => opAddress | X_opAnd => opAnd
  | X_opBalance => opBalance | X_opBaseFee => opBaseFee | X_opBlockhash => opBlockhash | X_opByte => opByte
  | X_opCall => opCall | X_opCallCode => opCallCode | X_opCallDataCopy => opCallDataCopy | X_opCallDataLoad => opCallDataLoad
  | X_opCallDataSize => opCallDataSize | X_opCallValue => opCallValue | X_opCaller => opCaller | X_opChainID => opChainID
  | X_opCodeCopy => opCodeCopy | X_opCodeSize => opCodeSize | X_opCoinbase => opCoinbase | X_opCreate => opCreate
  | X_opCreate2 => opCreate2 | X_opDelegateCall => opDelegateCall | X_opDifficulty => opDifficulty | X_opDiv => opDiv
  | X_opEq => opEq | X_opExp => opExp | X_opExtCodeCopy => opExtCodeCopy | X_opExtCodeHash => opExtCodeHash
  | X_opExtCodeSize => opExtCodeSize | X_opGas => opGas | X_opGasLimit => opGasLimit | X_opGasprice => opGasprice
  | X_opGt => opGt | X_opIszero => opIszero | X_opJump => opJump | X_opJumpdest => opJumpdest
  | X_opJumpi => opJumpi | X_opLt => opLt | X_opMload => opMload | X_opMod => opMod
  | X_opMsize => opMsize | X_opMstore => opMstore | X_opMstore8 => opMstore8 | X_opMul => opMul
  | X_opMulmod => opMulmod | X_opNot => opNot | X_opNumber => opNumber | X_opOr => opOr
  | X_opOrigin => opOrigin | X_opPc => opPc | X_opPop => opPop | X_opPush1 => opPush1
  | X_opReturn => opReturn | X_opReturnDataCopy => opReturnDataCopy | X_opReturnDataSize => opReturnDataSize | X_opRevert => opRevert
  | X_opSAR => opSAR | X_opSHL => opSHL | X_opSHR => opSHR | X_opSdiv => opSdiv
  | X_opSelfBalance => opSelfBalance | X_opSgt => opSgt | X_opSha3 => opSha3 | X_opSignExtend => opSignExtend
  | X_opSload => opSload | X_opSlt => opSlt | X_opSmod => opSmod | X_opSstore => opSstore
  | X_opStaticCall => opStaticCall | X_opStop => opStop | X_opSub => opSub | X_opSuicide => opSuicide
  | X_opTimestamp => opTimestamp | X_opXor => opXor
  | X_makeLog n => makeLog n
  | X_makePush s n => makePush s n
  | X_makeDup n => makeDup n
  | X_makeSwap n => makeSwap n
  end.

(** * The interpreter (interpreter.go) *)

(** [operation.writes || (op == CALL && stack.Back(2).Sign() != 0)]. *)
Definition modifies (o : operation) (op : Z) : M (Scope S) bool :=
  if writes o then mret true
  else if Z.eqb op opcodes.CALL then v ← backS 2; mret (negb (Z.eqb (U256.Sign v) 0)) else mret false.

(** The memory that the operation needs, in whole words. *)
Definition operationMemory (o : operation) : M (Scope S) Z :=
  match memorySize o with
  | None => mret 0
  | Some f =>
    st ← gets sc_stack;
    '(memSize, overflow) ← lift (runMemorySize f st);
    fail_if overflow ErrGasUintOverflow;;
    orOverflow (SafeMul (toWordSize memSize) 32)
  end.

(** The gas function and the payment; any error is [ErrOutOfGas]. *)
Definition payDynamic (o : operation) (size : Z) : M (Scope S) unit :=
  if OverrideGasFailure (cfg env) then mret ()
  else match dynamicGas o with
       | None => mret ()
       | Some f =>
         r ← try_ (runGas f size);
         match r with
         | inr _ => fail ErrOutOfGas
         | inl dynamicCost => ok ← useGas dynamicCost; fail_if (negb ok) ErrOutOfGas
         end
       end.

(** The checks, the payment and the execution of one operation. *)
Definition operate (o : operation) (op : Z) : M (Scope S) (list byte) :=
  st ← gets sc_stack;
  fail_if (Z.ltb (len st) (op_minStack o)) (ErrStackUnderflow (len st) (op_minStack o));;
  fail_if (Z.ltb (op_maxStack o) (len st)) (ErrStackOverflow (len st) (op_maxStack o));;
  ro ← gets (fun s => readOnly (sc_evm s));
  when (ro && IsByzantium rules) (w ← modifies o op; fail_if w ErrWriteProtection);;
  when (negb (OverrideGasFailure (cfg env))) (ok ← useGas (constantGas o); fail_if (negb ok) ErrOutOfGas);;
  size ← operationMemory o;
  payDynamic o size;;
  when (Z.ltb 0 size) (modify (fun s => s <| sc_mem ::= fun m => Resize m size |>));;
  r ← try_ (runOp (execute o));
  when (returns o) (modify (fun s => s <| sc_evm ::= fun e => e <| returnData := match r with inl res => res | inr _ => [] end |> |>));;
  match r with inl res => mret res | inr e => fail e end.

(** One turn of the loop: nothing when it goes on, else what the run returns. *)
Definition turn : M (Scope S) (option (list byte * option error)) :=
  modify (fun s => s <| sc_steps ::= fun n => n + 1 |>);;
  n ← gets sc_steps; a ← gets (fun s => abort (sc_evm s));
  if Z.eqb (n mod 1000) 0 && negb (Z.eqb a 0) then mret (Some ([], None))
  else
  c ← gets sc_contract; p ← gets sc_pc;
  let op := GetOp c p in
  match table env !! op with
  | None => mret (Some ([], Some (ErrInvalidOpCode op)))
  | Some o =>
    r ← try_ (operate o op);
    match r with
    | inr e => mret (Some ([], Some e))
    | inl res =>
      if reverts o then mret (Some (res, Some ErrExecutionReverted))
      else if halts o then mret (Some (res, None))
      else when (negb (jumps o)) (modify (fun s => s <| sc_pc ::= fun p => u64 (p + 1) |>));; mret None
    end
  end.
End evm.

Section interpreter.
Context {S : Type} `{Crypto} `{PrecompileLibs} `{!StateDB S} (env : Env).

(** A run of [lp] in a new frame for the contract; the gas is the contract's at the end. *)
Definition inFrame (c : Contract) (lp : M (Scope S) (list byte * option error)) : M (EVM S) runResult := fun w =>
  let '(o, w') := lp (mkWorld (w_tick w) (mkScope (w_st w) NewMemory [] c 0 0)) in
  (outcome_map (fun r => (r, Gas (sc_contract (w_st w')))) o, mkWorld (w_tick w') (sc_evm (w_st w'))).

Definition runInternal (lp : M (Scope S) (list byte * option error)) (contract : Contract) (input : list byte) (ro : bool) : M (EVM S) runResult :=
  modify (fun e => e <| depth ::= fun d => d + 1 |>);;
  was ← gets readOnly;
  let sets := ro && negb was in
  when sets (modify (fun e => e <| readOnly := true |>));;
  modify (fun e => e <| returnData := [] |>);;
  r ← (if Z.eqb (len (Code contract)) 0 then mret ([], None, Gas contract) else inFrame (contract <| Input := input |>) lp);
  when sets (modify (fun e => e <| readOnly := false |>));;
  modify (fun e => e <| depth ::= fun d => d - 1 |>);;
  mret r.

(** The loop of a frame; the calls that it makes run with one unit of fuel less. *)
Fixpoint loop (fuel : nat) : M (Scope S) (list byte * option error) :=
  match fuel with
  | O => panic out_of_fuel
  | Datatypes.S fuel =>
    r ← turn env (runInternal (loop fuel));
    match r with None => loop fuel | Some r => mret r end
  end.

Definition Run_ (fuel : nat) : Contract -> list byte -> bool -> M (EVM S) runResult := runInternal (loop fuel).
(** The entry points with the interpreter plugged in. *)
Definition evmCall (fuel : nat) := Call env (Run_ fuel).
Definition evmCallCode (fuel : nat) := CallCode env (Run_ fuel).
Definition evmDelegateCall (fuel : nat) := DelegateCall env (Run_ fuel).
Definition evmStaticCall (fuel : nat) := StaticCall env (Run_ fuel).
Definition evmCreate (fuel : nat) := Create env (Run_ fuel).
Definition evmCreate2 (fuel : nat) := Create2 env (Run_ fuel).
End interpreter.
