(* ===== verification/EvmSim.v ===== *)
(** The EVM behaves the same over every state database that keeps its promise.

    The EVM is written against the interface [StateDB].  Here a run over an
    implementation ([StateDBSpec]) is related, turn by turn, to the run over the abstract
    state: the same result, the same error, and states that still represent each other.
    The theorems about the EVM are then proved over the abstract state. *)

From S2P Require Import Prelude Common Rlp RlpEnc Uint256 StateSpec EvmBase EvmTable EvmPre Evm.
From Stdlib Require Import Strings.Byte.
#[local] Open Scope Z_scope.

(** * Simulations *)

(** [m] does what [m'] does, up to [R]; when [m'] panics, [m] does too. *)
Definition sim {S T : Type} (R : S -> T -> Prop) {A} (m : M S A) (m' : M T A) : Prop :=
  forall t s s', R s s' ->
  match m' (mkWorld t s') with
  | (Panic _, _) => exists q w, m (mkWorld t s) = (Panic q, w)
  | (o, w') => exists s1, m (mkWorld t s) = (o, mkWorld (w_tick w') s1) /\ R s1 (w_st w')
  end.

Section sim.
Context {S T : Type} (R : S -> T -> Prop).

Lemma sim_ret {A} (a : A) : sim R (mret a) (mret a).
Proof. intros t s s' Hr. by exists s. Qed.
Lemma sim_fail {A} e : sim R (fail e : M S A) (fail e).
Proof. intros t s s' Hr. by exists s. Qed.
Lemma sim_panic {A} p : sim R (panic p : M S A) (panic p).
Proof. intros t s s' Hr. cbn. eauto. Qed.
Lemma sim_lift {A} (o : outcome A) : sim R (lift o) (lift o).
Proof. intros t s s' Hr. unfold lift. destruct o; [by exists s|by exists s|eauto]. Qed.
Lemma sim_gets {A} (f : S -> A) (f' : T -> A) : (forall s s', R s s' -> f s = f' s') -> sim R (gets f) (gets f').
Proof. intros Hf t s s' Hr. unfold gets. cbn. exists s. by rewrite (Hf s s' Hr). Qed.
Lemma sim_modify f f' : (forall s s', R s s' -> R (f s) (f' s')) -> sim R (modify f) (modify f').
Proof. intros Hf t s s' Hr. unfold modify. cbn. eauto. Qed.
Lemma sim_bind {A B} (m : M S A) (m' : M T A) (k : A -> M S B) (k' : A -> M T B) :
  sim R m m' -> (forall x, sim R (k x) (k' x)) -> sim R (m ≫= k) (m' ≫= k').
Proof.
  intros Hm Hk t s s' Hr. specialize (Hm t s s' Hr). unfold mbind, M_bind. destruct (m' (mkWorld t s')) as [[x|e|p] [t1 s1']] eqn:E.
  - destruct Hm as (s1 & E1 & Hr1). rewrite E1. cbn in *. by apply Hk.
  - destruct Hm as (s1 & E1 & Hr1). rewrite E1. eauto.
  - destruct Hm as (q & w & E1). rewrite E1. eauto.
Qed.
Lemma sim_try {A} (m : M S A) (m' : M T A) : sim R m m' -> sim R (try_ m) (try_ m').
Proof.
  intros Hm t s s' Hr. specialize (Hm t s s' Hr). unfold try_. destruct (m' (mkWorld t s')) as [[x|e|p] w'].
  - destruct Hm as (s1 & E1 & Hr1). rewrite E1. eauto.
  - destruct Hm as (s1 & E1 & Hr1). rewrite E1. eauto.
  - destruct Hm as (q & w & E1). rewrite E1. eauto.
Qed.
Lemma sim_when (b : bool) m m' : sim R m m' -> sim R (when b m) (when b m').
Proof. intros Hm. destruct b; [exact Hm|apply sim_ret]. Qed.
Lemma sim_fail_if (b : bool) e : sim R (fail_if b e) (fail_if b e).
Proof. destruct b; [apply sim_fail|apply sim_ret]. Qed.
Lemma sim_match_option {A B} (o : option A) (k : A -> M S B) k0 (k' : A -> M T B) k0' :
  (forall a, sim R (k a) (k' a)) -> sim R k0 k0' -> sim R (match o with Some a => k a | None => k0 end) (match o with Some a => k' a | None => k0' end).
Proof. destruct o; auto. Qed.
Lemma sim_zoom {U V A} (Q : U -> V -> Prop) (gs : S -> U) (ps : U -> S -> S) (gt : T -> V) (pt : V -> T -> T) (m : M U A) (m' : M V A) :
  (forall s s', R s s' -> Q (gs s) (gt s')) -> (forall s s' u v, R s s' -> Q u v -> R (ps u s) (pt v s')) -> sim Q m m' -> sim R (zoom gs ps m) (zoom gt pt m').
Proof.
  intros Hg Hp Hm t s s' Hr. specialize (Hm t (gs s) (gt s') (Hg s s' Hr)). unfold zoom. cbn [w_st w_tick].
  destruct (m' (mkWorld t (gt s'))) as [[x|e|p] w'] eqn:E.
  - destruct Hm as (s1 & E1 & Hr1). rewrite E1. cbn. eauto.
  - destruct Hm as (s1 & E1 & Hr1). rewrite E1. cbn. eauto.
  - destruct Hm as (q & w & E1). rewrite E1. cbn. eauto.
Qed.
End sim.

(** * The states *)

Section evm_sim.
Context `{Crypto} `{PrecompileLibs} {S : Type} `{!StateDB S} `{!StateDBSpec S} (env : Env).

Definition evmRel (e : EVM S) (v : EVM Abs) : Prop :=
  sdb_rep (e_db e) (e_db v) /\ depth e = depth v /\ abort e = abort v /\ callGasTemp e = callGasTemp v /\ readOnly e = readOnly v /\ returnData e = returnData v /\ jumpdests e = jumpdests v.
Definition scopeRel (s : Scope S) (v : Scope Abs) : Prop :=
  evmRel (sc_evm s) (sc_evm v) /\ sc_mem s = sc_mem v /\ sc_stack s = sc_stack v /\ sc_contract s = sc_contract v /\ sc_pc s = sc_pc v /\ sc_steps s = sc_steps v.

Lemma sim_implements {A} (m : M S A) f : implements sdb_rep m f -> (forall v e, f v <> Fail e) -> sim sdb_rep m (runAbs f).
Proof.
  intros Hm Hf t s v Hr. specialize (Hm t s v Hr). unfold runAbs. cbn [w_st w_tick]. destruct (f v) as [[x v']|e|p] eqn:E; [|by destruct (Hf v e)|exact Hm].
  destruct Hm as (s' & E' & Hr'). exists s'. eauto.
Qed.

Lemma reads_ok {A} (f : core -> A) v e : reads f v <> Fail e.
Proof. done. Qed.
Lemma writes_ok f v e : StateSpec.writes f v <> Fail e.
Proof. done. Qed.

Ltac sim_db := apply sim_implements; [eauto using
    CreateAccount_spec, SubBalance_spec, AddBalance_spec, GetBalance_spec, GetNonce_spec, SetNonce_spec, GetCodeHash_spec, GetCode_spec, SetCode_spec, GetCodeSize_spec, AddRefund_spec,
    SubRefund_spec, GetRefund_spec, GetCommittedState_spec, GetState_spec, SetState_spec, Suicide_spec, HasSuicided_spec, Exist_spec, Empty_spec, AddressInAccessList_spec, SlotInAccessList_spec,
    AddAddressToAccessList_spec, AddSlotToAccessList_spec, RevertToSnapshot_spec, Snapshot_spec, AddLog_spec, AddPreimage_spec
  |intros; unfold v_SubRefund, v_RevertToSnapshot; repeat case_match; done].

Lemma onDB_sim {A} (m : M S A) (m' : M Abs A) : sim sdb_rep m m' -> sim evmRel (onDB m) (onDB m').
Proof.
  apply sim_zoom; [by intros s s' (Hr & _)|]. intros s s' u v (_ & H1) Hr. split; [exact Hr|exact H1].
Qed.
Lemma onEVM_sim {A} (m : M (EVM S) A) (m' : M (EVM Abs) A) : sim evmRel m m' -> sim scopeRel (onEVM m) (onEVM m').
Proof.
  apply sim_zoom; [by intros s s' (Hr & _)|]. intros s s' u v (_ & H1) Hr. split; [exact Hr|exact H1].
Qed.
Lemma db_sim {A} (m : M S A) (m' : M Abs A) : sim sdb_rep m m' -> sim scopeRel (db m) (db m').
Proof. intros Hm. by apply onEVM_sim, onDB_sim. Qed.

(** Reads and writes of a field. *)
Ltac rel_field := intros [[? ? ? ? ? ? ?] ? ? ? ? ?] [[? ? ? ? ? ? ?] ? ? ? ? ?] ((? & ? & ? & ? & ? & ? & ?) & ? & ? & ? & ? & ?); cbn in *; subst; repeat split; done.
Ltac rel_evm := intros [? ? ? ? ? ? ?] [? ? ? ? ? ? ?] (? & ? & ? & ? & ? & ? & ?); cbn in *; subst; repeat split; done.

(** Follows the text of the two programs, which is the same. *)
Ltac sim_step :=
  lazymatch goal with
  | |- sim _ (_ ≫= _) _ => apply sim_bind; [|intros]
  | |- sim _ (mret _) _ => apply sim_ret
  | |- sim _ (fail _) _ => apply sim_fail
  | |- sim _ (panic _) _ => apply sim_panic
  | |- sim _ (lift _) _ => apply sim_lift
  | |- sim _ (when _ _) _ => apply sim_when
  | |- sim _ (fail_if _ _) _ => apply sim_fail_if
  | |- sim _ (try_ _) _ => apply sim_try
  | |- sim scopeRel (gets _) _ => apply sim_gets; rel_field
  | |- sim scopeRel (modify _) _ => apply sim_modify; rel_field
  | |- sim evmRel (gets _) _ => apply sim_gets; rel_evm
  | |- sim evmRel (modify _) _ => apply sim_modify; rel_evm
  | |- sim _ (db _) _ => apply db_sim; sim_db
  | |- sim _ (onDB _) _ => apply onDB_sim; sim_db
  | |- sim _ (onEVM _) _ => apply onEVM_sim
  | |- sim _ (let '(_, _) := ?x in _) _ => destruct x
  | |- sim _ (match ?x with _ => _ end) _ => destruct x
  end.
Ltac head_of t := lazymatch t with ?f _ => head_of f | _ => t end.
Ltac sims := repeat (sim_step || assumption ||
  match goal with Hr : forall c i r, sim evmRel (?f c i r) _ |- sim evmRel (?f _ _ _) _ => apply Hr end ||
  lazymatch goal with |- sim _ ?m _ => let h := head_of m in unfold h end).

Lemma runGas_sim f size : sim scopeRel (runGas env f size) (runGas env f size).
Proof. induction f; cbn [runGas]; sims. Qed.

(** ** Calls and instructions *)

Context (run : Contract -> list byte -> bool -> M (EVM S) runResult) (run' : Contract -> list byte -> bool -> M (EVM Abs) runResult).
Hypothesis run_sim : forall c input ro, sim evmRel (run c input ro) (run' c input ro).

Lemma Call_sim caller addr input gas v : sim evmRel (Call env run caller addr input gas v) (Call env run' caller addr input gas v).
Proof. sims. Qed.
Lemma CallCode_sim caller addr input gas v : sim evmRel (CallCode env run caller addr input gas v) (CallCode env run' caller addr input gas v).
Proof. sims. Qed.
Lemma DelegateCall_sim caller addr input gas : sim evmRel (DelegateCall env run caller addr input gas) (DelegateCall env run' caller addr input gas).
Proof. sims. Qed.
Lemma StaticCall_sim caller addr input gas : sim evmRel (StaticCall env run caller addr input gas) (StaticCall env run' caller addr input gas).
Proof. sims. Qed.
Lemma create_sim caller code hash gas v a : sim evmRel (create env run caller code hash gas v a) (create env run' caller code hash gas v a).
Proof. sims. Qed.

Lemma popTopics_sim n : sim scopeRel (popTopics n) (popTopics n).
Proof. induction n as [|n IH]; cbn [popTopics]; sims. Qed.

Lemma runOp_sim f : sim scopeRel (runOp env run f) (runOp env run' f).
Proof.
  destruct f; cbn [runOp]; try solve [sims].
  unfold makeLog. apply sim_bind; [sims|intros]. apply sim_bind; [sims|intros]. apply sim_bind; [apply popTopics_sim|intros]. sims.
Qed.

Lemma operate_sim o op : sim scopeRel (operate env run o op) (operate env run' o op).
Proof.
  unfold operate. repeat (apply sim_bind; [|intros]); try solve [sims].
  - unfold payDynamic. destruct (OverrideGasFailure _); [sims|]. destruct (dynamicGas o); [|sims]. apply sim_bind; [apply sim_try, runGas_sim|intros]. sims.
  - apply sim_try, runOp_sim.
Qed.

Lemma turn_sim : sim scopeRel (turn env run) (turn env run').
Proof.
  unfold turn. apply sim_bind; [sims|intros _]. apply sim_bind; [sims|intros n]. apply sim_bind; [sims|intros a]. destruct (_ && _); [sims|].
  apply sim_bind; [sims|intros c]. apply sim_bind; [sims|intros p]. cbv zeta. destruct (table env !! GetOp c p); [|sims].
  apply sim_bind; [apply sim_try, operate_sim|intros]. sims.
Qed.

(** ** The interpreter *)

Lemma inFrame_sim c lp lp' : sim scopeRel lp lp' -> sim evmRel (inFrame c lp) (inFrame c lp').
Proof.
  intros Hl t e v Hr. unfold inFrame. cbn [w_st w_tick]. specialize (Hl t (mkScope e NewMemory [] c 0 0) (mkScope v NewMemory [] c 0 0) ltac:(split; [exact Hr|done])).
  destruct (lp' _) as [[[x er]|er|p] [t1 s1']] eqn:E; cbn [outcome_map w_st w_tick] in *.
  - destruct Hl as (s1 & E1 & Hr1). rewrite E1. cbn. destruct Hr1 as (Hr1 & _ & _ & Hc & _). rewrite Hc. eauto.
  - destruct Hl as (s1 & E1 & Hr1). rewrite E1. cbn. destruct Hr1 as (Hr1 & _). eauto.
  - destruct Hl as (q & w & E1). rewrite E1. cbn. destruct w. eauto.
Qed.

Lemma runInternal_sim lp lp' c input ro : sim scopeRel lp lp' -> sim evmRel (runInternal lp c input ro) (runInternal lp' c input ro).
Proof.
  intros Hl. unfold runInternal. repeat (apply sim_bind; [|intros]); try solve [sims]. destruct (Z.eqb _ _); [sims|]. by apply inFrame_sim.
Qed.
End evm_sim.

Section loop_sim.
Context `{Crypto} `{PrecompileLibs} {S : Type} `{!StateDB S} `{!StateDBSpec S} (env : Env).

Lemma loop_sim fuel : sim scopeRel (loop (S := S) env fuel) (loop env fuel).
Proof.
  induction fuel as [|fuel IH]; cbn [loop]; [apply sim_panic|]. apply sim_bind; [apply turn_sim; intros; by apply runInternal_sim|]. intros [r|]; [apply sim_ret|exact IH].
Qed.

Lemma Run_sim fuel c input ro : sim evmRel (Run_ (S := S) env fuel c input ro) (Run_ env fuel c input ro).
Proof. apply runInternal_sim, loop_sim. Qed.

Lemma evmCall_sim fuel caller addr input gas v : sim evmRel (evmCall (S := S) env fuel caller addr input gas v) (evmCall env fuel caller addr input gas v).
Proof. apply Call_sim, Run_sim. Qed.
End loop_sim.
