(* ===== verification/EvmInv.v ===== *)
(** The invariants of a run of the EVM over the abstract state.

    What holds of the accounts and of the refund counter ([coreOk]), how a state may
    develop during a run ([grows], [stays]) and how the operations of the state database
    act on both. *)

From S2P Require Import Prelude Common Rlp RlpEnc Uint256 Uint256Spec Uint256Conv StateSpec EvmBase EvmTable EvmPre Evm.
From Stdlib Require Import Strings.Byte.
#[local] Open Scope Z_scope.

(** * Sums over accounts *)

Definition msum (f : account -> Z) (m : gmap Address account) : Z := zsum (map (fun p => f p.2) (map_to_list m)).

Lemma msum_empty f : msum f ∅ = 0.
Proof. unfold msum. by rewrite map_to_list_empty. Qed.

Lemma msum_insert_fresh f m a x : m !! a = None -> msum f (<[a := x]> m) = f x + msum f m.
Proof. intros Hn. unfold msum. by rewrite (zsum_perm _ _ (Permutation_map _ (map_to_list_insert m a x Hn))). Qed.

Lemma msum_insert f m a x : msum f (<[a := x]> m) = msum f m - from_option f 0 (m !! a) + f x.
Proof.
  destruct (m !! a) as [y|] eqn:E; cbn [from_option].
  - rewrite <- (insert_delete_id m a y E) at 2. rewrite <- insert_delete_eq. rewrite !msum_insert_fresh by apply lookup_delete_eq. lia.
  - rewrite msum_insert_fresh by done. lia.
Qed.

Lemma msum_nonneg f m : (forall x, 0 <= f x) -> 0 <= msum f m.
Proof. intros Hf. apply zsum_nonneg, Forall_map, Forall_true. intros p. apply Hf. Qed.

Lemma msum_lookup f m a x : (forall x, 0 <= f x) -> m !! a = Some x -> f x <= msum f m.
Proof.
  intros Hf E. rewrite <- (insert_delete_id m a x E). rewrite msum_insert_fresh by apply lookup_delete_eq. pose proof (msum_nonneg f (delete a m) Hf). lia.
Qed.

(** * Slots that were cleared *)

Lemma slot_put m k v k' : slot (put m k v) k' = if decide (k = k') then v else slot m k'.
Proof.
  unfold slot, put. destruct (decide (v = HashZero)) as [->|Hv], (decide (k = k')) as [->|Hk].
  - by rewrite lookup_delete_eq.
  - by rewrite lookup_delete_ne.
  - by rewrite lookup_insert_eq.
  - by rewrite lookup_insert_ne.
Qed.

Definition flag (b : bool) : Z := if b then 1 else 0.

(** The slots of an account that held something at the start of the transaction and hold
    nothing now. *)
Definition wasCleared (storage : gmap Hash Hash) (p : Hash * Hash) : Z := flag (negb (isZeroHash p.2) && isZeroHash (slot storage p.1)).
Definition cleared (x : account) : Z := zsum (map (wasCleared (ac_storage x)) (map_to_list (ac_committed x))).

Lemma cleared_nonneg x : 0 <= cleared x.
Proof. apply zsum_nonneg, Forall_map, Forall_true. intros p. unfold wasCleared, flag. by destruct (_ && _). Qed.

(** What writing a slot does to the count. *)
Lemma cleared_put x k v : let o := slot (ac_committed x) k in
  cleared (x <| ac_storage ::= fun m => put m k v |>) =
  cleared x - flag (negb (isZeroHash o) && isZeroHash (slot (ac_storage x) k)) + flag (negb (isZeroHash o) && isZeroHash v).
Proof.
  intros o. unfold cleared. cbn [ac_storage ac_committed upd set_ac_storage].
  assert (forall m : gmap Hash Hash, (forall p, p ∈ map_to_list m -> p.1 <> k) -> map (wasCleared (put (ac_storage x) k v)) (map_to_list m) = map (wasCleared (ac_storage x)) (map_to_list m)) as Hsame.
  { intros m Hm. apply map_ext_in. intros p Hp. apply list_elem_of_In in Hp. unfold wasCleared. rewrite slot_put, decide_False; [done|]. intros Hk. by destruct (Hm p Hp). }
  unfold o. destruct (ac_committed x !! k) as [c|] eqn:E.
  - assert (slot (ac_committed x) k = c) as -> by (unfold slot; by rewrite E).
    rewrite <- (insert_delete_id _ _ _ E) at 1 2. rewrite !(zsum_perm _ _ (Permutation_map _ (map_to_list_insert _ _ _ (lookup_delete_eq _ _)))). cbn [map].
    rewrite !zsum_cons, Hsame. 2:{ intros [k' c'] Hp Hk. cbn in Hk. subst k'. apply elem_of_map_to_list in Hp. by rewrite lookup_delete_eq in Hp. }
    unfold wasCleared at 1 3. cbn [fst snd]. rewrite slot_put, decide_True by done. lia.
  - assert (slot (ac_committed x) k = HashZero) as -> by (unfold slot; by rewrite E).
    rewrite Hsame. 2:{ intros [k' c'] Hp Hk. cbn in Hk. subst k'. apply elem_of_map_to_list in Hp. congruence. }
    unfold isZeroHash at 1 3. rewrite bool_decide_true by done. cbn [negb andb flag]. lia.
Qed.

(** * The invariant of the accounts and of the refund counter *)

Section core.
Context `{Crypto} (R : Z) (HR : 0 <= R).

Definition accountOk (x : account) : Prop := 0 <= ac_balance x /\ small (len (ac_code x)) /\ is_u64 (ac_nonce x).
Definition accountsOk (m : gmap Address account) : Prop := map_Forall (fun _ x => accountOk x) m.
Definition totalBalance (k : core) : Z := msum ac_balance (k_accounts k).
Definition clearedIn (k : core) : Z := msum cleared (k_accounts k).
(** Every slot that was cleared has its refund in the counter. *)
Definition coreOk (k : core) : Prop := accountsOk (k_accounts k) /\ R * clearedIn k <= k_refund k.

Lemma small_0 : small 0.
Proof. by vm_compute. Qed.
Lemma accountOk_new : accountOk newAccount.
Proof. split; [done|]. split; [apply small_0|by vm_compute]. Qed.
Lemma accountOk_orNew m a : accountsOk m -> accountOk (orNew (m !! a)).
Proof. intros Hm. destruct (m !! a) as [x|] eqn:E; [exact (Hm a x E)|apply accountOk_new]. Qed.

Lemma accountsOk_onAccount a f k : accountsOk (k_accounts k) -> (forall x, accountOk x -> accountOk (f x)) -> accountsOk (k_accounts (onAccount a f k)).
Proof. intros Hm Hf. cbn. apply map_Forall_insert_2; [|done]. by apply Hf, accountOk_orNew. Qed.

Lemma msum_onAccount g a f k : g newAccount = 0 -> msum g (k_accounts (onAccount a f k)) = msum g (k_accounts k) - g (orNew (k_accounts k !! a)) + g (f (orNew (k_accounts k !! a))).
Proof. intros Hg. cbn. rewrite msum_insert. destruct (k_accounts k !! a); cbn [from_option orNew default]; [done|]. unfold orNew. cbn. rewrite Hg. lia. Qed.

Lemma cleared_new : cleared newAccount = 0.
Proof. unfold cleared. cbn. by rewrite map_to_list_empty. Qed.

Lemma clearedIn_onAccount a f k : (forall x, cleared (f x) = cleared x) -> clearedIn (onAccount a f k) = clearedIn k.
Proof. intros Hf. unfold clearedIn. rewrite msum_onAccount by apply cleared_new. rewrite Hf. lia. Qed.

Lemma balanceOf_orNew k a : balanceOf k a = ac_balance (orNew (k_accounts k !! a)).
Proof. unfold balanceOf. by destruct (k_accounts k !! a). Qed.
Lemma storageOf_orNew k a s : storageOf k a s = slot (ac_storage (orNew (k_accounts k !! a))) s.
Proof. unfold storageOf. destruct (k_accounts k !! a); [done|]. cbn. unfold slot. by rewrite lookup_empty. Qed.
Lemma committedOf_orNew k a s : committedOf k a s = slot (ac_committed (orNew (k_accounts k !! a))) s.
Proof. unfold committedOf. destruct (k_accounts k !! a); [done|]. cbn. unfold slot. by rewrite lookup_empty. Qed.

Lemma balanceOf_nonneg k a : coreOk k -> 0 <= balanceOf k a.
Proof. intros [Hm _]. rewrite balanceOf_orNew. by apply accountOk_orNew. Qed.
Lemma codeOf_small k a : coreOk k -> small (len (codeOf k a)).
Proof. intros [Hm _]. unfold codeOf. destruct (k_accounts k !! a) as [x|] eqn:E; [apply (Hm a x E)|apply small_0]. Qed.
Lemma nonceOf_u64 k a : coreOk k -> is_u64 (nonceOf k a).
Proof. intros [Hm _]. unfold nonceOf. destruct (k_accounts k !! a) as [x|] eqn:E; [apply (Hm a x E)|by vm_compute]. Qed.

(** ** The operations *)

Lemma coreOk_onAccount a f k : coreOk k -> (forall x, accountOk x -> accountOk (f x)) -> (forall x, cleared (f x) = cleared x) -> coreOk (onAccount a f k).
Proof. intros [Hm Hr] Hf Hc. split; [by apply accountsOk_onAccount|]. rewrite clearedIn_onAccount by done. exact Hr. Qed.

Lemma coreOk_AddBalance a n k : coreOk k -> 0 <= n -> coreOk (k_AddBalance a n k).
Proof. intros Hk Hn. apply coreOk_onAccount; [done| |done]. intros x (H1 & H2 & H3). split; [cbn; lia|done]. Qed.
Lemma total_AddBalance a n k : totalBalance (k_AddBalance a n k) = totalBalance k + n.
Proof. unfold totalBalance, k_AddBalance. rewrite msum_onAccount by done. cbn. lia. Qed.

Lemma coreOk_SubBalance a n k : coreOk k -> n <= balanceOf k a -> coreOk (k_SubBalance a n k).
Proof.
  intros [Hm Hr] Hn. rewrite balanceOf_orNew in Hn. split.
  - cbn. apply map_Forall_insert_2; [|done]. destruct (accountOk_orNew _ a Hm) as (H1 & H2 & H3). split; [cbn; lia|done].
  - unfold k_SubBalance. by rewrite clearedIn_onAccount.
Qed.
Lemma total_SubBalance a n k : totalBalance (k_SubBalance a n k) = totalBalance k - n.
Proof. unfold totalBalance, k_SubBalance. rewrite msum_onAccount by done. cbn. lia. Qed.

Lemma coreOk_SetNonce a n k : coreOk k -> is_u64 n -> coreOk (k_SetNonce a n k).
Proof. intros Hk Hn. apply coreOk_onAccount; [done| |done]. intros x (H1 & H2 & H3). split; [done|]. split; [done|exact Hn]. Qed.
Lemma total_SetNonce a n k : totalBalance (k_SetNonce a n k) = totalBalance k.
Proof. unfold totalBalance, k_SetNonce. rewrite msum_onAccount by done. cbn. lia. Qed.

Lemma coreOk_SetCode a c k : coreOk k -> small (len c) -> coreOk (k_SetCode a c k).
Proof. intros Hk Hn. apply coreOk_onAccount; [done| |done]. intros x (H1 & H2 & H3). split; [done|]. split; [exact Hn|done]. Qed.
Lemma total_SetCode a c k : totalBalance (k_SetCode a c k) = totalBalance k.
Proof. unfold totalBalance, k_SetCode. rewrite msum_onAccount by done. cbn. lia. Qed.

Lemma total_SetState a s v k : totalBalance (k_SetState a s v k) = totalBalance k.
Proof. unfold totalBalance, k_SetState. rewrite msum_onAccount by done. cbn. lia. Qed.
Lemma clearedIn_SetState a s v k : clearedIn (k_SetState a s v k) = clearedIn k
  - flag (negb (isZeroHash (committedOf k a s)) && isZeroHash (storageOf k a s)) + flag (negb (isZeroHash (committedOf k a s)) && isZeroHash v).
Proof.
  unfold clearedIn, k_SetState. rewrite msum_onAccount by apply cleared_new. rewrite committedOf_orNew, storageOf_orNew. rewrite cleared_put. lia.
Qed.
Lemma accountsOk_SetState a s v k : accountsOk (k_accounts k) -> accountsOk (k_accounts (k_SetState a s v k)).
Proof. intros Hm. apply accountsOk_onAccount; [done|]. intros x Hx. exact Hx. Qed.

Lemma coreOk_CreateAccount a k : coreOk k -> coreOk (k_CreateAccount a k).
Proof.
  intros Hk. pose proof (balanceOf_nonneg k a Hk) as Hb. destruct Hk as [Hm Hr]. split.
  - cbn. apply map_Forall_insert_2; [|done]. split; [exact Hb|]. split; [apply small_0|by vm_compute].
  - unfold clearedIn in *. cbn. rewrite msum_insert. assert (cleared (newAccount <| ac_balance := balanceOf k a |>) = 0) as -> by (unfold cleared; cbn; by rewrite map_to_list_empty).
    assert (0 <= from_option cleared 0 (k_accounts k !! a)) by (destruct (k_accounts k !! a); [apply cleared_nonneg|done]). nia.
Qed.
Lemma total_CreateAccount a k : totalBalance (k_CreateAccount a k) = totalBalance k.
Proof. unfold totalBalance. cbn. rewrite msum_insert. unfold balanceOf. cbn. lia. Qed.

Lemma coreOk_Suicide a k : coreOk k -> coreOk (k_Suicide a k).
Proof.
  intros [Hm Hr]. unfold k_Suicide. destruct (k_accounts k !! a) as [x|] eqn:E; [|done]. split.
  - cbn. apply map_Forall_insert_2; [|done]. destruct (Hm a x E) as (H1 & H2 & H3). split; [cbn; lia|done].
  - unfold clearedIn in *. cbn. rewrite msum_insert, E. cbn [from_option]. unfold cleared at 2 3. cbn. lia.
Qed.
Lemma total_Suicide a k : totalBalance (k_Suicide a k) = totalBalance k - balanceOf k a.
Proof.
  unfold k_Suicide, balanceOf, totalBalance. destruct (k_accounts k !! a) as [x|] eqn:E; cbn; [|lia]. rewrite msum_insert, E. cbn. lia.
Qed.

(** Changes outside the accounts. *)
Lemma coreOk_same k k' : coreOk k -> k_accounts k' = k_accounts k -> k_refund k <= k_refund k' -> coreOk k'.
Proof. intros [Hm Hr] Ha Hf. unfold coreOk, clearedIn in *. rewrite Ha. split; [done|lia]. Qed.
End core.

(** * How a state develops *)

(** The snapshots of [v] are still there, below newer ones. *)
Definition stays (v v' : Abs) : Prop :=
  v_next v <= v_next v' /\ exists newer, v_snapshots v' = newer ++ v_snapshots v /\ Forall (fun p => v_next v <= p.1) newer.

#[export] Instance stays_pre : PreOrder stays.
Proof.
  split.
  - intros v. split; [done|]. by exists [].
  - intros v1 v2 v3 (H12 & n1 & E1 & F1) (H23 & n2 & E2 & F2). split; [lia|]. exists (n2 ++ n1). split; [by rewrite E2, E1, app_assoc|].
    apply Forall_app. split; [|done]. eapply Forall_impl; [exact F2|]. cbn. intros. lia.
Qed.

(** The state after a snapshot. *)
Definition snapped (v : Abs) : Abs := v <| v_snapshots ::= cons (v_next v, v_core v) |> <| v_next ::= fun n => n + 1 |>.

Lemma stays_snapped v : stays v (snapped v).
Proof. split; [cbn; lia|]. exists [(v_next v, v_core v)]. split; [done|]. constructor; [cbn; lia|done]. Qed.

Lemma findSnapshot_newer id k newer old : Forall (fun p => id + 1 <= p.1) newer -> findSnapshot id (newer ++ (id, k) :: old) = Some (k, old).
Proof.
  induction 1 as [|[i c] l Hi _ IH]; cbn; [by rewrite Z.eqb_refl|]. cbn in Hi. by rewrite (proj2 (Z.eqb_neq i id)) by lia.
Qed.

(** A snapshot that is still there can be reverted to, and brings back the accounts. *)
Lemma revert_snapped v v' : stays (snapped v) v' -> exists v'', v_RevertToSnapshot (v_next v) v' = Ok ((), v'') /\ v_core v'' = v_core v /\ stays v v''.
Proof.
  intros (Hn & newer & E & F). cbn in *. unfold v_RevertToSnapshot. rewrite E, findSnapshot_newer by done. eexists. split; [done|]. cbn. split; [done|].
  split; [cbn; lia|]. by exists [].
Qed.

Lemma stays_core v f : stays v (v <| v_core ::= f |>).
Proof. split; [done|]. by exists []. Qed.

Section develops.
Context `{Crypto}.

(** Nothing that a static call must not touch has changed. *)
Definition staticEq (k k' : core) : Prop :=
  (forall a, orNew (k_accounts k !! a) = orNew (k_accounts k' !! a)) /\ k_logs k = k_logs k' /\ k_logSize k = k_logSize k'.

#[export] Instance staticEq_pre : PreOrder staticEq.
Proof.
  split; [done|]. intros k1 k2 k3 (H1 & H2 & H3) (H4 & H5 & H6). split; [intros a; by rewrite H1, H4|]. split; congruence.
Qed.

Lemma staticEq_onAccount a f k : (forall x, f x = x) -> staticEq k (onAccount a f k).
Proof.
  intros Hf. split; [|done]. intros b. cbn. destruct (decide (a = b)) as [->|Hne]; [by rewrite lookup_insert_eq, Hf|by rewrite lookup_insert_ne].
Qed.
Lemma staticEq_AddBalance a k : staticEq k (k_AddBalance a 0 k).
Proof. apply staticEq_onAccount. intros [n b c h s m u]. change (mkAccount n (b + 0) c h s m u = mkAccount n b c h s m u). f_equal. lia. Qed.
Lemma staticEq_SubBalance a k : staticEq k (k_SubBalance a 0 k).
Proof. apply staticEq_onAccount. intros [n b c h s m u]. change (mkAccount n (b - 0) c h s m u = mkAccount n b c h s m u). f_equal. lia. Qed.
Lemma staticEq_CreateAccount a k : k_accounts k !! a = None -> staticEq k (k_CreateAccount a k).
Proof.
  intros E. split; [|done]. intros b. cbn. destruct (decide (a = b)) as [<-|Hne]; [|by rewrite lookup_insert_ne]. rewrite lookup_insert_eq, E. cbn. unfold balanceOf. by rewrite E.
Qed.

(** What a run does to the state, when it succeeds; [static] says that it must not write. *)
Definition grows (static : bool) (v v' : Abs) : Prop :=
  stays v v' /\ k_addresses (v_core v) ⊆ k_addresses (v_core v') /\ totalBalance (v_core v') <= totalBalance (v_core v) /\
  (static = true -> staticEq (v_core v) (v_core v')).

#[export] Instance grows_pre static : PreOrder (grows static).
Proof.
  split.
  - intros v. split; [done|]. split; [done|]. split; [done|]. done.
  - intros v1 v2 v3 (H1 & H2 & H3 & H4) (H5 & H6 & H7 & H8). split; [by etrans|]. split; [set_solver|]. split; [lia|]. intros Hs. etrans; eauto.
Qed.

Lemma grows_core static v f : k_addresses (v_core v) ⊆ k_addresses (f (v_core v)) -> totalBalance (f (v_core v)) <= totalBalance (v_core v) ->
  (static = true -> staticEq (v_core v) (f (v_core v))) -> grows static v (v <| v_core ::= f |>).
Proof. intros H1 H2 H3. split; [apply stays_core|]. done. Qed.

(** After a revert everything is as it was. *)
Lemma grows_reverted static v v' : stays v v' -> v_core v' = v_core v -> grows static v v'.
Proof. intros Hs Hc. split; [done|]. rewrite Hc. split; [done|]. split; [done|]. done. Qed.
End develops.
