(* ===== verification/EvmGas.v ===== *)
(** What the gas functions of the EVM charge and change.

    Over the abstract state: rules for the steps that instructions and gas functions are
    made of, and for each gas function that it leaves the accounts alone, charges at
    least the memory it accounts for and the gas it sets aside for a call, and adds no
    more to the refund counter than its price allows. *)

From S2P Require Import Prelude Common Rlp RlpEnc Uint256 Uint256Spec Uint256Conv StateSpec EvmBase EvmTable EvmPre Evm EvmInv.
From Stdlib Require Import Strings.Byte.
#[local] Open Scope Z_scope.

(** * Rules *)

Section rules.
Context `{Crypto}.
Implicit Types (e : EVM Abs) (m : Memory) (st : Stack) (c : Contract).

Lemma wp_popS (Q : outcome Int -> World (Scope Abs) -> Prop) t e m x st c p n :
  Q (Ok x) (mkWorld t (mkScope e m st c p n)) -> wp popS Q (mkWorld t (mkScope e m (x :: st) c p n)).
Proof. auto. Qed.
Lemma wp_pushS x (Q : outcome unit -> World (Scope Abs) -> Prop) t e m st c p n :
  Q (Ok ()) (mkWorld t (mkScope e m (x :: st) c p n)) -> wp (pushS x) Q (mkWorld t (mkScope e m st c p n)).
Proof. auto. Qed.
Lemma wp_peekS (Q : outcome Int -> World (Scope Abs) -> Prop) t e m x st c p n :
  Q (Ok x) (mkWorld t (mkScope e m (x :: st) c p n)) -> wp peekS Q (mkWorld t (mkScope e m (x :: st) c p n)).
Proof. auto. Qed.
Lemma wp_setPeekS y (Q : outcome unit -> World (Scope Abs) -> Prop) t e m x st c p n :
  Q (Ok ()) (mkWorld t (mkScope e m (y :: st) c p n)) -> wp (setPeekS y) Q (mkWorld t (mkScope e m (x :: st) c p n)).
Proof. auto. Qed.
Lemma wp_backS i x (Q : outcome Int -> World (Scope Abs) -> Prop) t e m st c p n : st !! i = Some x ->
  Q (Ok x) (mkWorld t (mkScope e m st c p n)) -> wp (backS i) Q (mkWorld t (mkScope e m st c p n)).
Proof. intros E HQ. unfold backS, Back. apply wp_bind, wp_gets. cbn. rewrite E. by apply wp_lift. Qed.
Lemma wp_selfS (Q : outcome Address -> World (Scope Abs) -> Prop) t e m st c p n :
  Q (Ok (self c)) (mkWorld t (mkScope e m st c p n)) -> wp selfS Q (mkWorld t (mkScope e m st c p n)).
Proof. auto. Qed.
Lemma wp_useGas g (Q : outcome bool -> World (Scope Abs) -> Prop) t e m st c p n :
  (Gas c < g -> Q (Ok false) (mkWorld t (mkScope e m st c p n))) ->
  (g <= Gas c -> Q (Ok true) (mkWorld t (mkScope e m st (c <| Gas ::= fun x => x - g |>) p n))) ->
  wp (useGas g) Q (mkWorld t (mkScope e m st c p n)).
Proof. intros H1 H2. unfold useGas, UseGas. apply wp_bind, wp_gets. cbn. destruct (Z.ltb_spec (Gas c) g); apply wp_bind, wp_modify; cbn; apply wp_ret; auto. Qed.

Lemma wp_db_reads {A} (f : core -> A) (Q : outcome A -> World (Scope Abs) -> Prop) t v d ab cg ro rd jd m st c p n :
  Q (Ok (f (v_core v))) (mkWorld t (mkScope (mkEVM v d ab cg ro rd jd) m st c p n)) ->
  wp (db (runAbs (reads f))) Q (mkWorld t (mkScope (mkEVM v d ab cg ro rd jd) m st c p n)).
Proof. auto. Qed.
Lemma wp_db_writes f (Q : outcome unit -> World (Scope Abs) -> Prop) t v d ab cg ro rd jd m st c p n :
  Q (Ok ()) (mkWorld t (mkScope (mkEVM (v <| v_core ::= f |>) d ab cg ro rd jd) m st c p n)) ->
  wp (db (runAbs (StateSpec.writes f))) Q (mkWorld t (mkScope (mkEVM v d ab cg ro rd jd) m st c p n)).
Proof. auto. Qed.
Lemma wp_db_SubRefund r (Q : outcome unit -> World (Scope Abs) -> Prop) t v d ab cg ro rd jd m st c p n : r <= k_refund (v_core v) ->
  Q (Ok ()) (mkWorld t (mkScope (mkEVM (v <| v_core ::= fun k => k <| k_refund ::= fun x => x - r |> |>) d ab cg ro rd jd) m st c p n)) ->
  wp (db (runAbs (v_SubRefund r))) Q (mkWorld t (mkScope (mkEVM v d ab cg ro rd jd) m st c p n)).
Proof.
  intros Hr HQ. unfold db, onEVM, onDB. apply wp_zoom, wp_zoom. unfold wp, runAbs, v_SubRefund. cbn [w_st w_tick sc_evm e_db]. by rewrite (proj2 (Z.ltb_ge _ _)) by lia.
Qed.

Lemma wp_mod_contract f (Q : outcome unit -> World (Scope Abs) -> Prop) t e m st c p n :
  Q (Ok ()) (mkWorld t (mkScope e m st (f c) p n)) -> wp (modify (fun s => s <| sc_contract ::= f |>)) Q (mkWorld t (mkScope e m st c p n)).
Proof. auto. Qed.
Lemma wp_mod_stack st' (Q : outcome unit -> World (Scope Abs) -> Prop) t e m st c p n :
  Q (Ok ()) (mkWorld t (mkScope e m st' c p n)) -> wp (modify (fun s => s <| sc_stack := st' |>)) Q (mkWorld t (mkScope e m st c p n)).
Proof. auto. Qed.
Lemma wp_mod_mem f (Q : outcome unit -> World (Scope Abs) -> Prop) t e m st c p n :
  Q (Ok ()) (mkWorld t (mkScope e (f m) st c p n)) -> wp (modify (fun s => s <| sc_mem ::= f |>)) Q (mkWorld t (mkScope e m st c p n)).
Proof. auto. Qed.
Lemma wp_mod_pc f (Q : outcome unit -> World (Scope Abs) -> Prop) t e m st c p n :
  Q (Ok ()) (mkWorld t (mkScope e m st c (f p) n)) -> wp (modify (fun s => s <| sc_pc ::= f |>)) Q (mkWorld t (mkScope e m st c p n)).
Proof. auto. Qed.
Lemma wp_mod_steps f (Q : outcome unit -> World (Scope Abs) -> Prop) t e m st c p n :
  Q (Ok ()) (mkWorld t (mkScope e m st c p (f n))) -> wp (modify (fun s => s <| sc_steps ::= f |>)) Q (mkWorld t (mkScope e m st c p n)).
Proof. auto. Qed.
Lemma wp_mod_evm f (Q : outcome unit -> World (Scope Abs) -> Prop) t e m st c p n :
  Q (Ok ()) (mkWorld t (mkScope (f e) m st c p n)) -> wp (modify (fun s => s <| sc_evm ::= f |>)) Q (mkWorld t (mkScope e m st c p n)).
Proof. auto. Qed.

(** ** Checked arithmetic *)

Lemma wp_SafeAdd x y (Q : outcome Z -> World (Scope Abs) -> Prop) w : is_u64 x -> is_u64 y ->
  (is_u64 (x + y) -> Q (Ok (x + y)) w) -> Q (Fail ErrGasUintOverflow) w -> wp (orOverflow (SafeAdd x y)) Q w.
Proof.
  intros Hx Hy H1 H2. unfold orOverflow. destruct (SafeAdd x y) as [s [|]] eqn:E; cbn; apply wp_bind; [by apply wp_fail|]. apply wp_ret. cbn. apply wp_ret.
  destruct (SafeAdd_ok x y s Hx Hy E) as [-> Hs]. auto.
Qed.
Lemma wp_SafeMul x y (Q : outcome Z -> World (Scope Abs) -> Prop) w : is_u64 x -> is_u64 y ->
  (is_u64 (x * y) -> Q (Ok (x * y)) w) -> Q (Fail ErrGasUintOverflow) w -> wp (orOverflow (SafeMul x y)) Q w.
Proof.
  intros Hx Hy H1 H2. unfold orOverflow. destruct (SafeMul x y) as [s [|]] eqn:E; cbn; apply wp_bind; [by apply wp_fail|]. apply wp_ret. cbn. apply wp_ret.
  destruct (SafeMul_ok x y s Hx Hy E) as [-> Hs]. auto.
Qed.
Lemma wp_Uint64 x (Q : outcome Z -> World (Scope Abs) -> Prop) w : wf x ->
  (is_u64 (toZ x) -> Q (Ok (toZ x)) w) -> Q (Fail ErrGasUintOverflow) w -> wp (orOverflow (U256.Uint64WithOverflow x)) Q w.
Proof.
  intros Hx H1 H2. unfold orOverflow. rewrite Uint64WithOverflow_spec by done. cbn [fst snd]. pose proof (toZ_range x Hx). destruct (Z.leb_spec B64 (toZ x)); cbn; apply wp_bind; [by apply wp_fail|].
  apply wp_ret. cbn. apply wp_ret. rewrite Z.mod_small by lia. apply H1. unfold is_u64, B64 in *. lia.
Qed.

Lemma wp_memoryGas words (Q : outcome Z -> World (Scope Abs) -> Prop) t e m st c p n : memOk m -> 0 <= words ->
  (forall fee m', 0 <= fee < 2 ^ 56 -> store m' = store m -> lastGasCost m' = lastGasCost m + fee -> memOk (Resize m' (32 * words)) -> Q (Ok fee) (mkWorld t (mkScope e m' st c p n))) ->
  (forall er, Q (Fail er) (mkWorld t (mkScope e m st c p n))) ->
  wp (memoryGas (32 * words)) Q (mkWorld t (mkScope e m st c p n)).
Proof.
  intros Hm Hw H1 H2. unfold memoryGas. apply wp_bind, wp_gets. cbn. apply wp_bind, wp_lift. pose proof (memoryGasCost_ok m words Hm Hw) as Hc.
  destruct (memoryGasCost m (32 * words)) as [[fee m']|er|q]; cbn; [|apply H2|done]. destruct Hc as (Hf & Hs & Hl & Ho). apply wp_bind, wp_modify. cbn. apply wp_ret. by apply H1.
Qed.
End rules.

(** One step of an instruction or a gas function. *)
Ltac evm_prim :=
  lazymatch goal with
  | |- wp popS _ _ => apply wp_popS
  | |- wp (pushS _) _ _ => apply wp_pushS
  | |- wp peekS _ _ => apply wp_peekS
  | |- wp (setPeekS _) _ _ => apply wp_setPeekS
  | |- wp (backS _) _ _ => eapply wp_backS; [reflexivity|]
  | |- wp selfS _ _ => apply wp_selfS
  | |- wp (modify _) _ _ => first [apply wp_mod_contract | apply wp_mod_stack | apply wp_mod_mem | apply wp_mod_pc | apply wp_mod_evm | apply wp_mod_steps | apply wp_modify]
  | |- wp (gets _) _ _ => apply wp_gets; cbn [w_st sc_evm sc_mem sc_stack sc_contract sc_pc sc_steps depth abort callGasTemp readOnly returnData jumpdests]
  | |- wp (useGas _) _ _ => apply wp_useGas; intros ?
  | |- wp (db _) _ _ => first [apply wp_db_reads | apply wp_db_writes]; cbv beta
  | _ => wp_prim
  end.
Ltac evm_step := wp_norm; evm_prim; wp_norm.
Ltac evm_steps := repeat evm_step.

Lemma be_bytes_zero n : be_bytes n 0 = replicate n Byte.x00.
Proof.
  unfold be_bytes. assert (le_bytes n 0 = replicate n Byte.x00) as -> by (induction n as [|n IH]; cbn [le_bytes replicate]; [done|by rewrite Z.shiftr_0_l, IH]).
  induction n as [|n IH]; [done|]. cbn [replicate rev]. rewrite IH. change [Byte.x00] with (replicate 1 Byte.x00). rewrite <- replicate_add. by rewrite Nat.add_comm.
Qed.

Lemma arr_bytes_toHash x : arr_bytes (toHash x) = U256.Bytes32 x.
Proof. apply arr_bytes_SetBytes_full, length_Bytes32. Qed.

Lemma isZeroHash_toHash x : wf x -> isZeroHash (toHash x) = Z.eqb (toZ x) 0.
Proof.
  intros Hx. unfold isZeroHash. pose proof (toZ_range x Hx). apply eq_bool_prop_intro. rewrite bool_decide_spec, Is_true_true, Z.eqb_eq.
  assert (arr_bytes HashZero = be_bytes 32 0) as Hz by (by rewrite be_bytes_zero). split.
  - intros E. apply (f_equal arr_bytes) in E. rewrite arr_bytes_toHash, Bytes32_be, Hz in E by done. apply (f_equal be_val) in E. rewrite !be_val_be_bytes in E.
    change (256 ^ Z.of_nat 32) with M256 in E. by rewrite !Z.mod_small in E by lia.
  - intros E. apply arr_bytes_inj. by rewrite arr_bytes_toHash, Bytes32_be, Hz, E.
Qed.

(** * Environments *)

(** A table made for the rules, gas that is charged, forks in their order from EIP-150
    on. *)
Record envOk (env : Env) : Prop := mkEnvOk {
  eo_table : table env = instructionSet (chainRules env);
  eo_override : OverrideGasFailure (cfg env) = false;
  eo_homestead : IsHomestead (chainRules env) = true;
  eo_150 : IsEIP150 (chainRules env) = true;
  eo_158 : IsByzantium (chainRules env) = true -> IsEIP158 (chainRules env) = true;
  eo_berlin : IsLondon (chainRules env) = true -> IsBerlin (chainRules env) = true;
  eo_gasLimit : is_u64 (GasLimit (Context_ env));
}.

(** The refund for clearing a slot. *)
Definition clearRefund (env : Env) : Z := if IsLondon (chainRules env) then params.SstoreClearsScheduleRefundEIP3529 else params.SstoreClearsScheduleRefundEIP2200.

(** * Frames *)

(** The refund counter never gets near its width: a unit of gas earns less than this. *)
Definition refundRate : Z := 256.
Definition creditLimit : Z := 2 ^ 63.

(** What a frame started from: the state, the depth, the flags, the gas ([g_mem]) and the
    value of its gas and of the refund counter together ([g_credit]). *)
Record ghost := mkGhost {
  g_db : Abs;
  g_depth : Z;
  g_abort : Z;
  g_ro : bool;
  g_mem : Z;
  g_credit : Z;
}.

(** Changes of the state outside accounts and logs. *)
Definition light (k k' : core) : Prop :=
  k_accounts k' = k_accounts k /\ k_addresses k ⊆ k_addresses k' /\ k_logs k' = k_logs k /\ k_logSize k' = k_logSize k.

Section frame.
Context `{Crypto} (env : Env) (g : ghost).

Definition static : bool := g_ro g && IsByzantium (chainRules env).

Record evmIn (e : EVM Abs) : Prop := mkEvmIn {
  ei_depth : depth e = g_depth g;
  ei_abort : abort e = g_abort g;
  ei_ro : readOnly e = g_ro g;
  ei_ret : small (len (returnData e));
}.

(** A running frame, with a condition [P] on the accounts: the memory, once grown to
    [size], is paid for, and [r] units of gas have been taken that are not spent. *)
Record frame (P : core -> Prop) (size r : Z) (sc : Scope Abs) : Prop := mkFrame {
  f_evm : evmIn (sc_evm sc);
  f_grows : grows static (g_db g) (e_db (sc_evm sc));
  f_core : P (v_core (e_db (sc_evm sc)));
  f_self : IsBerlin (chainRules env) = true -> self (sc_contract sc) ∈ k_addresses (v_core (e_db (sc_evm sc)));
  f_wf : Forall wf (sc_stack sc);
  f_stack : len (sc_stack sc) <= params.StackLimit;
  f_mem : memOk (Resize (sc_mem sc) size);
  f_gas : 0 <= Gas (sc_contract sc) <= g_mem g;
  f_paid : Gas (sc_contract sc) + r + lastGasCost (sc_mem sc) <= g_mem g;
  f_credit : k_refund (v_core (e_db (sc_evm sc))) + refundRate * (Gas (sc_contract sc) + r) <= g_credit g;
  f_code : small (len (Code (sc_contract sc)));
  f_input : small (len (Input (sc_contract sc)));
  f_pc : is_u64 (sc_pc sc);
}.

(** A frame that has failed: its caller can undo what it did. *)
Record failed (sc : Scope Abs) : Prop := mkFailed {
  d_evm : evmIn (sc_evm sc);
  d_stays : stays (g_db g) (e_db (sc_evm sc));
  d_gas : 0 <= Gas (sc_contract sc) <= g_mem g;
}.

Lemma frame_failed P size r sc : frame P size r sc -> failed sc.
Proof. intros []. split; [done| |done]. by destruct f_grows0. Qed.

Lemma grows_light b v0 v f : grows b v0 v -> light (v_core v) (f (v_core v)) -> grows b v0 (v <| v_core ::= f |>).
Proof.
  intros Hg (Ha & Hd & Hl & Hs). etrans; [exact Hg|]. apply grows_core; [done|unfold totalBalance; by rewrite Ha|]. intros _. split; [intros a; by rewrite Ha|]. by rewrite Hl, Hs.
Qed.

(** A change outside the accounts, with what it adds to the refund counter. *)
Lemma frame_light (P P' : core -> Prop) size r r' f v d ab cg ro rd jd m st c p n :
  frame P size r (mkScope (mkEVM v d ab cg ro rd jd) m st c p n) -> light (v_core v) (f (v_core v)) -> P' (f (v_core v)) ->
  k_refund (f (v_core v)) + refundRate * r' <= k_refund (v_core v) + refundRate * r -> r' <= r ->
  frame P' size r' (mkScope (mkEVM (v <| v_core ::= f |>) d ab cg ro rd jd) m st c p n).
Proof.
  intros [] Hl HP Hr Hr'. split; try done; cbn in *.
  - destruct f_evm0. by split.
  - by apply grows_light.
  - intros Hb. apply Hl. auto.
  - lia.
  - lia.
Qed.

Lemma frame_weaken (P P' : core -> Prop) size r r' sc : frame P size r sc -> r' <= r -> P' (v_core (e_db (sc_evm sc))) -> frame P' size r' sc.
Proof. intros [] Hr HP. split; try done; unfold refundRate in *; lia. Qed.
End frame.

(** * Gas functions *)

Section gas.
Context `{Crypto} (env : Env) (g : ghost).

(** The cost that a gas function gives, in a frame that has taken [r] units: its payment
    leaves [reserve] units more than that. *)
Definition gasPost (P : core -> Prop) (size r : Z) (sc : Scope Abs) (reserve : EVM Abs -> Z) (o : outcome Z) (w : World (Scope Abs)) : Prop :=
  match o with
  | Ok cost => is_u64 cost /\ 0 <= reserve (sc_evm (w_st w)) /\ frame env g P size (r + reserve (sc_evm (w_st w)) - cost) (w_st w) /\
      sc_stack (w_st w) = sc_stack sc /\ sc_contract (w_st w) = sc_contract sc /\ sc_pc (w_st w) = sc_pc sc
  | Fail _ => failed g (w_st w)
  | Panic _ => False
  end.

Lemma Resize_0 m : Resize m 0 = m.
Proof. unfold Resize. destruct (Z.ltb_spec (Len m) 0); [unfold Len, len in *; lia|done]. Qed.

Lemma frame_memoryGas P r words (Q : outcome Z -> World (Scope Abs) -> Prop) t e m st c p n :
  frame env g P 0 r (mkScope e m st c p n) -> 0 <= words ->
  (forall fee m', 0 <= fee < 2 ^ 56 -> frame env g P (32 * words) (r - fee) (mkScope e m' st c p n) -> Q (Ok fee) (mkWorld t (mkScope e m' st c p n))) ->
  (forall er, Q (Fail er) (mkWorld t (mkScope e m st c p n))) ->
  wp (memoryGas (32 * words)) Q (mkWorld t (mkScope e m st c p n)).
Proof.
  intros Hf Hw H1 H2. destruct Hf. cbn in *. rewrite Resize_0 in *. apply wp_memoryGas; [done|done| |done]. intros fee m' Hfee Hs Hl Hm. apply H1; [done|].
  split; try done; cbn; unfold refundRate in *; lia.
Qed.

Lemma frame_back P size r sc k : frame env g P size r sc -> (k < length (sc_stack sc))%nat -> exists x, sc_stack sc !! k = Some x /\ wf x.
Proof. intros Hf Hk. destruct (lookup_lt_is_Some_2 _ _ Hk) as [x E]. exists x. split; [done|]. exact (Forall_lookup_1 _ _ _ _ (f_wf _ _ _ _ _ _ Hf) E). Qed.

Lemma gasPost_ok P size r r' sc reserve cost t sc' : frame env g P size r' sc' -> 0 <= reserve (sc_evm sc') -> r + reserve (sc_evm sc') - cost <= r' -> is_u64 cost ->
  sc_stack sc' = sc_stack sc -> sc_contract sc' = sc_contract sc -> sc_pc sc' = sc_pc sc -> gasPost P size r sc reserve (Ok cost) (mkWorld t sc').
Proof. intros Hf Hr Hr' Hu Hs Hc Hp. cbn. split_and!; try done. eapply frame_weaken; [exact Hf|done|]. by destruct Hf. Qed.

Lemma gasPost_fail P P' size size' r r' sc reserve er t sc' : frame env g P' size' r' sc' -> gasPost P size r sc reserve (Fail er) (mkWorld t sc').
Proof. apply frame_failed. Qed.
Lemma is_u64_fee z : 0 <= z < 2 ^ 56 -> is_u64 z.
Proof. unfold is_u64. change (2 ^ 56) with 72057594037927936. change (2 ^ 64) with 18446744073709551616. lia. Qed.
End gas.

Lemma is_u64_words n : is_u64 n -> is_u64 (toWordSize n).
Proof. intros Hn. destruct (toWordSize_spec n Hn) as [[H1 H2] _]. unfold is_u64. change (2 ^ 59) with 576460752303423488 in *. change (2 ^ 64) with 18446744073709551616. lia. Qed.

(** The steps and the ends of a gas function. *)
Ltac gas_u64 := first [assumption | apply is_u64_fee; assumption | apply is_u64_words; assumption | unfold is_u64 in *; lia].
Ltac gas_lia := cbv beta; cbn [sc_evm]; unfold is_u64 in *; lia.
Ltac gas_end := cbn beta;
  lazymatch goal with
  | |- gasPost _ _ _ _ _ _ _ (Fail _) _ => eapply gasPost_fail; eassumption
  | |- gasPost _ _ _ _ _ _ _ (Ok (_ + if ?b then _ else _)) _ => destruct b; gas_end
  | |- gasPost _ _ _ _ _ _ _ (Ok _) _ => eapply gasPost_ok; [eassumption|gas_lia|gas_lia|gas_u64|done..]
  end.
Ltac gas_step := wp_norm;
  lazymatch goal with
  | |- wp (orOverflow (SafeAdd _ _)) _ _ => apply wp_SafeAdd; [gas_u64|gas_u64|intros ?|]
  | |- wp (orOverflow (SafeMul _ _)) _ _ => apply wp_SafeMul; [gas_u64|gas_u64|intros ?|]
  | |- wp (orOverflow (U256.Uint64WithOverflow _)) _ _ => apply wp_Uint64; [done|intros ?|]
  | |- wp (memoryGas _) _ _ => eapply frame_memoryGas; [eassumption|done|intros ? ? ? ?|intros ?]
  | |- wp (backS _) _ _ => eapply wp_backS; [first [eassumption | reflexivity]|]
  | |- gasPost _ _ _ _ _ _ _ _ _ => gas_end
  | _ => evm_step
  end; wp_norm.

Section gas_memory.
Context `{Crypto} (env : Env) (g : ghost) (P : core -> Prop) (r : Z).

Lemma pureMemoryGascost_ok words t sc : frame env g P 0 r sc -> 0 <= words -> wp (pureMemoryGascost (32 * words)) (gasPost env g P (32 * words) r sc (fun _ => 0)) (mkWorld t sc).
Proof. intros Hf Hw. destruct sc as [e m st c p n]. unfold pureMemoryGascost. repeat gas_step. Qed.

Lemma memoryCopierGas_ok words k t sc : frame env g P 0 r sc -> 0 <= words -> (k < length (sc_stack sc))%nat ->
  wp (memoryCopierGas k (32 * words)) (gasPost env g P (32 * words) r sc (fun _ => 0)) (mkWorld t sc).
Proof.
  intros Hf Hw Hk. destruct (frame_back _ _ _ _ _ _ _ Hf Hk) as (x & Ex & Hx). destruct sc as [e m st c p n]. unfold memoryCopierGas, params.CopyGas. repeat gas_step.
Qed.

(** [gasSha3] and [gasCreate2]. *)
Lemma wordGas_ok words k t sc : frame env g P 0 r sc -> 0 <= words -> (k < length (sc_stack sc))%nat ->
  wp (wordGas k (32 * words)) (gasPost env g P (32 * words) r sc (fun _ => 0)) (mkWorld t sc).
Proof.
  intros Hf Hw Hk. destruct (frame_back _ _ _ _ _ _ _ Hf Hk) as (x & Ex & Hx). destruct sc as [e m st c p n]. unfold wordGas, params.Sha3WordGas. repeat gas_step.
Qed.

Lemma makeGasLog_ok words k t sc : frame env g P 0 r sc -> 0 <= words -> (1 < length (sc_stack sc))%nat -> 0 <= k <= 4 ->
  wp (makeGasLog k (32 * words)) (gasPost env g P (32 * words) r sc (fun _ => 1)) (mkWorld t sc).
Proof.
  intros Hf Hw Hk Hn. destruct (frame_back _ _ _ _ _ _ _ Hf Hk) as (x & Ex & Hx). destruct sc as [e m st c p n]. unfold makeGasLog, params.LogGas, params.LogDataGas.
  rewrite u64_small by (unfold is_u64, params.LogTopicGas; change (2 ^ 64) with 18446744073709551616; lia). unfold params.LogTopicGas. repeat gas_step.
Qed.

Lemma expGas_ok perByte t sc : frame env g P 0 r sc -> (1 < length (sc_stack sc))%nat -> 0 <= perByte <= 100 ->
  wp (expGas perByte) (gasPost env g P 0 r sc (fun _ => 1)) (mkWorld t sc).
Proof.
  intros Hf Hk Hp. destruct (frame_back _ _ _ _ _ _ _ Hf Hk) as (x & Ex & Hx). destruct sc as [e m st c p n]. unfold expGas, params.ExpGas. destruct (BitLen_spec x Hx) as [HL _].
  assert (0 <= (U256.BitLen x + 7) / 8 <= 32) as HB by (split; [apply Z.div_pos; lia|apply Z.lt_succ_r, Z.div_lt_upper_bound; lia]).
  gas_step. set (b := (_ + 7) / 8) in *. assert (0 <= b * perByte <= 3200) by nia. rewrite u64_small by (unfold is_u64; lia). repeat gas_step.
Qed.
End gas_memory.

(** ** The state in gas functions *)

Section gas_state.
Context `{Crypto} (env : Env) (g : ghost) (R : Z).

Lemma frame_state (P P' : core -> Prop) size r r' v v' d ab cg cg' ro rd jd m st c p n :
  frame env g P size r (mkScope (mkEVM v d ab cg ro rd jd) m st c p n) -> v_snapshots v' = v_snapshots v -> v_next v' = v_next v ->
  light (v_core v) (v_core v') -> P' (v_core v') -> k_refund (v_core v') + refundRate * r' <= k_refund (v_core v) + refundRate * r -> r' <= r ->
  frame env g P' size r' (mkScope (mkEVM v' d ab cg' ro rd jd) m st c p n).
Proof.
  intros [] Es En Hl HP Hr Hr'. split; try done; cbn in *.
  - destruct f_evm0. by split.
  - etrans; [exact f_grows0|]. destruct Hl as (Ha & Hd & Hg & Hz). split; [split; [lia|exists []; by rewrite Es]|]. split; [done|].
    split; [unfold totalBalance; by rewrite Ha|]. intros _. split; [intros a; by rewrite Ha|]. by rewrite Hg, Hz.
  - intros Hb. apply Hl. auto.
  - lia.
  - lia.
Qed.

Lemma light_AddAddress a k : light k (k_AddAddress a k).
Proof. split; [done|]. split; [cbn; set_solver|done]. Qed.
Lemma light_AddSlot a s k : light k (k_AddSlot a s k).
Proof. split; [done|]. split; [cbn; set_solver|done]. Qed.

Lemma frame_AddAddress size r a (Q : outcome unit -> World (Scope Abs) -> Prop) t v d ab cg ro rd jd m st c p n :
  frame env g (coreOk R) size r (mkScope (mkEVM v d ab cg ro rd jd) m st c p n) ->
  (frame env g (coreOk R) size r (mkScope (mkEVM (v <| v_core ::= k_AddAddress a |>) d ab cg ro rd jd) m st c p n) ->
   Q (Ok ()) (mkWorld t (mkScope (mkEVM (v <| v_core ::= k_AddAddress a |>) d ab cg ro rd jd) m st c p n))) ->
  wp (db (AddAddressToAccessList a)) Q (mkWorld t (mkScope (mkEVM v d ab cg ro rd jd) m st c p n)).
Proof.
  intros Hf HQ. apply wp_db_writes, HQ. eapply frame_state; [exact Hf|done|done|apply light_AddAddress| |cbn; lia|done]. apply (coreOk_same R (v_core v)); [by destruct Hf|done|done].
Qed.

Lemma frame_AddSlot size r a s (Q : outcome unit -> World (Scope Abs) -> Prop) t v d ab cg ro rd jd m st c p n :
  frame env g (coreOk R) size r (mkScope (mkEVM v d ab cg ro rd jd) m st c p n) ->
  (frame env g (coreOk R) size r (mkScope (mkEVM (v <| v_core ::= k_AddSlot a s |>) d ab cg ro rd jd) m st c p n) ->
   Q (Ok ()) (mkWorld t (mkScope (mkEVM (v <| v_core ::= k_AddSlot a s |>) d ab cg ro rd jd) m st c p n))) ->
  wp (db (AddSlotToAccessList a s)) Q (mkWorld t (mkScope (mkEVM v d ab cg ro rd jd) m st c p n)).
Proof.
  intros Hf HQ. apply wp_db_writes, HQ. eapply frame_state; [exact Hf|done|done|apply light_AddSlot| |cbn; lia|done]. apply (coreOk_same R (v_core v)); [by destruct Hf|done|done].
Qed.

Context (HR : 0 <= R) (Hcredit : g_credit g <= creditLimit).

Lemma coreOk_refund k : coreOk R k -> 0 <= k_refund k.
Proof. intros [_ Hr]. assert (0 <= clearedIn k) by apply msum_nonneg, cleared_nonneg. nia. Qed.

Lemma frame_refund P size r sc : frame env g P size r sc -> 0 <= r -> k_refund (v_core (e_db (sc_evm sc))) <= 2 ^ 63.
Proof. intros [] Hr. unfold refundRate, creditLimit in *. lia. Qed.

Lemma wp_AddRefund x (Q : outcome unit -> World (Scope Abs) -> Prop) t v d ab cg ro rd jd m st c p n : is_u64 (k_refund (v_core v) + x) ->
  Q (Ok ()) (mkWorld t (mkScope (mkEVM (v <| v_core ::= fun k => k <| k_refund ::= fun y => y + x |> |>) d ab cg ro rd jd) m st c p n)) ->
  wp (db (AddRefund x)) Q (mkWorld t (mkScope (mkEVM v d ab cg ro rd jd) m st c p n)).
Proof.
  intros Hx HQ. apply wp_db_writes. destruct v as [k sn nx th ti], k as [ac rf ad sl lo ls pr]. unfold k_AddRefund, upd, set_v_core, set_k_refund in *. cbn in *. by rewrite u64_small.
Qed.

(** A refund, for a hundred units of gas. *)
Lemma frame_AddRefund size r x (Q : outcome unit -> World (Scope Abs) -> Prop) t v d ab cg ro rd jd m st c p n :
  frame env g (coreOk R) size r (mkScope (mkEVM v d ab cg ro rd jd) m st c p n) -> 0 <= r -> 0 <= x <= 25600 ->
  (forall v', frame env g (coreOk R) size (r - 100) (mkScope (mkEVM v' d ab cg ro rd jd) m st c p n) ->
   Q (Ok ()) (mkWorld t (mkScope (mkEVM v' d ab cg ro rd jd) m st c p n))) ->
  wp (db (AddRefund x)) Q (mkWorld t (mkScope (mkEVM v d ab cg ro rd jd) m st c p n)).
Proof.
  intros Hf Hr Hx HQ. pose proof (frame_refund _ _ _ _ Hf Hr). pose proof (f_core _ _ _ _ _ _ Hf) as Hk. pose proof (coreOk_refund _ Hk). cbn in *.
  apply wp_AddRefund; [unfold is_u64; lia|]. apply HQ. eapply frame_state; [exact Hf|done|done|done| |cbn; unfold refundRate; lia|lia].
  apply (coreOk_same R (v_core v)); [done|done|cbn; lia].
Qed.
End gas_state.

Ltac gas_state_step := wp_norm;
  lazymatch goal with
  | |- wp (db (AddAddressToAccessList _)) _ _ => eapply frame_AddAddress; [eassumption|intros ?]
  | |- wp (db (AddSlotToAccessList _ _)) _ _ => eapply frame_AddSlot; [eassumption|intros ?]
  | |- wp (db (AddRefund _)) _ _ => eapply frame_AddRefund; [| |eassumption|lia|lia|intros ? ?]; [assumption|assumption|]
  | _ => gas_step
  end; wp_norm.

Section gas_access.
Context `{Crypto} (env : Env) (g : ghost) (R r : Z) (HR : 0 <= R) (Hcredit : g_credit g <= creditLimit) (Hmem : g_mem g <= 2 ^ 55).

Lemma gasEip2929AccountCheck_ok t sc : frame env g (coreOk R) 0 r sc -> (0 < length (sc_stack sc))%nat ->
  wp gasEip2929AccountCheck (gasPost env g (coreOk R) 0 r sc (fun _ => 0)) (mkWorld t sc).
Proof.
  intros Hf Hk. destruct sc as [[v d ab cg ro rd jd] m [|x st] c p n]; [cbn in Hk; lia|].
  unfold gasEip2929AccountCheck, params.ColdAccountAccessCostEIP2929, params.WarmStorageReadCostEIP2929. repeat gas_state_step.
Qed.

Lemma gasSLoadEIP2929_ok t sc : frame env g (coreOk R) 0 r sc -> (0 < length (sc_stack sc))%nat ->
  wp gasSLoadEIP2929 (gasPost env g (coreOk R) 0 r sc (fun _ => 1)) (mkWorld t sc).
Proof.
  intros Hf Hk. destruct sc as [[v d ab cg ro rd jd] m [|x st] c p n]; [cbn in Hk; lia|].
  unfold gasSLoadEIP2929, params.ColdSloadCostEIP2929, params.WarmStorageReadCostEIP2929. repeat gas_state_step.
Qed.

Lemma gasExtCodeCopyEIP2929_ok words t sc : frame env g (coreOk R) 0 r sc -> 0 <= words -> (3 < length (sc_stack sc))%nat ->
  wp (gasExtCodeCopyEIP2929 (32 * words)) (gasPost env g (coreOk R) (32 * words) r sc (fun _ => 0)) (mkWorld t sc).
Proof.
  intros Hf Hw Hk. unfold gasExtCodeCopyEIP2929, params.ColdAccountAccessCostEIP2929, params.WarmStorageReadCostEIP2929. wp_use (memoryCopierGas_ok env g (coreOk R) r); [done|done|done|].
  intros [cost|er|q] [t' sc'] Hp; wp_norm; [|exact Hp|done]. destruct Hp as (Hu & _ & Hf' & Es & Ec & Ep), sc' as [[v d ab cg ro rd jd] m st c p n]. cbn [w_st sc_stack sc_contract sc_evm sc_pc] in *. subst c p.
  destruct st as [|x st]; [rewrite <- Es in Hk; cbn in Hk; lia|]. repeat gas_state_step.
Qed.

(** A refund for the destruction takes the place of a hundred units of gas. *)
Lemma makeSelfdestructGasFn_ok b t sc : frame env g (coreOk R) 0 r sc -> 100 <= r -> (0 < length (sc_stack sc))%nat ->
  wp (makeSelfdestructGasFn b) (gasPost env g (coreOk R) 0 (r - 100) sc (fun _ => 0)) (mkWorld t sc).
Proof.
  intros Hf Hr Hk. destruct sc as [[v d ab cg ro rd jd] m [|x st] c p n]; [cbn in Hk; lia|].
  unfold makeSelfdestructGasFn, params.ColdAccountAccessCostEIP2929, params.CreateBySelfdestructGas, params.SelfdestructRefundGas. repeat gas_state_step.
Qed.

Lemma gasSelfdestruct_ok t sc : IsEIP150 (chainRules env) = true -> frame env g (coreOk R) 0 r sc -> 0 <= r -> (0 < length (sc_stack sc))%nat ->
  wp (gasSelfdestruct env) (gasPost env g (coreOk R) 0 r sc (fun _ => 0)) (mkWorld t sc).
Proof.
  intros H150 Hf Hr Hk. destruct sc as [[v d ab cg ro rd jd] m [|x st] c p n]; [cbn in Hk; lia|].
  unfold gasSelfdestruct, params.SelfdestructGasEIP150, params.CreateBySelfdestructGas, params.SelfdestructRefundGas. rewrite H150. repeat gas_state_step.
Qed.
End gas_access.

(** ** Calls *)

Lemma callGas_ok avail base x : wf x -> exists t, callGas true avail base x = Ok t /\ 0 <= t <= 63 * 2 ^ 58.
Proof.
  intros Hx. pose proof (toZ_range x Hx). unfold callGas. cbn [andb]. pose proof (u64_range (avail - base)) as [H1 H2]. set (rest := u64 _) in *.
  pose proof (Z.div_mod rest 64 ltac:(lia)). pose proof (Z.mod_pos_bound rest 64 ltac:(lia)). change (2 ^ 64) with 18446744073709551616 in *. change (2 ^ 58) with 288230376151711744.
  assert (0 <= rest - rest / 64 <= 63 * 288230376151711744) by lia.
  rewrite IsUint64_spec by done. destruct (Z.ltb_spec (toZ x) B64) as [Hs|]; cbn [negb orb]; [|by eexists].
  assert (U256.Uint64 x = toZ x) as -> by (unfold U256.Uint64; symmetry; by apply toZ_IsUint64). destruct (Z.ltb_spec (rest - rest / 64) (toZ x)); eexists; (split; [done|]); lia.
Qed.

Section gas_call.
Context `{Crypto} (env : Env) (g : ghost) (R : Z) (H150 : IsEIP150 (chainRules env) = true).

(** The cost of a call leaves room for the cost of a cold account. *)
Definition callPost (size r : Z) (sc : Scope Abs) (reserve : EVM Abs -> Z) (o : outcome Z) (w : World (Scope Abs)) : Prop :=
  gasPost env g (coreOk R) size r sc reserve o w /\ match o with Ok cost => is_u64 (cost + 2500) | _ => True end.

(** What a call with a value gets on top. *)
Definition stipend (v : Int) : Z := if U256.IsZero v then 0 else params.CallStipend.
Lemma stipend_nonneg v : 0 <= stipend v.
Proof. unfold stipend. by destruct (U256.IsZero v). Qed.

Lemma setCallGas_ok size r base extra t e m x st c p n sc0 : frame env g (coreOk R) size (r + extra - base) (mkScope e m (x :: st) c p n) -> 0 <= base <= 2 ^ 57 -> 0 <= extra ->
  sc_stack sc0 = x :: st -> sc_contract sc0 = c -> sc_pc sc0 = p ->
  wp (setCallGas env base) (callPost size r sc0 (fun e => callGasTemp e + extra)) (mkWorld t (mkScope e m (x :: st) c p n)).
Proof.
  intros Hf Hb He Es Ec Ep. unfold setCallGas. assert (wf x) as Hx by (pose proof (f_wf _ _ _ _ _ _ Hf) as Hw; by apply Forall_inv in Hw).
  rewrite H150. destruct (callGas_ok (Gas c) base x Hx) as (tmp & E & Ht). change (2 ^ 57) with 144115188075855872 in *. change (2 ^ 58) with 288230376151711744 in *.
  repeat gas_step. rewrite E. unfold wp_k. repeat gas_step.
  - split; [|unfold is_u64 in *; lia]. eapply gasPost_ok with (r' := r + extra - base); try done; cbn [sc_evm callGasTemp upd]; [|cbn; lia|cbn; lia]. destruct Hf. split; try done. by destruct f_evm0.
  - split; [|done]. apply (frame_failed env) with (coreOk R) size (r + extra - base). destruct Hf. split; try done. by destruct f_evm0.
Qed.

Lemma frame_lower size r r' sc : frame env g (coreOk R) size r sc -> r' <= r -> frame env g (coreOk R) size r' sc.
Proof. intros Hf Hr. eapply frame_weaken; [exact Hf|done|]. by destruct Hf. Qed.

Lemma callPost_fail P size size' r r' sc reserve er t sc' : frame env g P size' r' sc' -> callPost size r sc reserve (Fail er) (mkWorld t sc').
Proof. intros Hf. split; [|done]. eapply gasPost_fail; exact Hf. Qed.

Lemma Sign_IsZero v : wf v -> negb (Z.eqb (U256.Sign v) 0) = negb (U256.IsZero v).
Proof.
  intros Hv. rewrite Sign_spec, IsZero_spec by done. pose proof (toZ_range v Hv). f_equal. unfold toS. destruct (Z.ltb_spec (toZ v) (2 ^ 255)); [by destruct (toZ v)|].
  rewrite !(proj2 (Z.eqb_neq _ _)); [done|lia|]. unfold M256 in *. lia.
Qed.

Ltac call_step :=
  lazymatch goal with
  | |- callPost _ _ _ _ (Fail _) _ => eapply callPost_fail; eassumption
  | |- wp (setCallGas _ _) _ _ => eapply setCallGas_ok; [eapply frame_lower; [eassumption|]|..]; try done
  | _ => gas_step
  end.

(** CALL and CALLCODE. *)
Lemma gasCall_ok words r a v x st t e m c p n : frame env g (coreOk R) 0 r (mkScope e m (x :: a :: v :: st) c p n) -> 0 <= words ->
  wp (gasCall env (32 * words)) (callPost (32 * words) r (mkScope e m (x :: a :: v :: st) c p n) (fun e => callGasTemp e + stipend v)) (mkWorld t (mkScope e m (x :: a :: v :: st) c p n)).
Proof.
  intros Hf Hw. destruct e as [k d ab cg ro rd jd]. pose proof (stipend_nonneg v). unfold gasCall, params.CallNewAccountGas, params.CallValueTransferGas. do 2 gas_step. set (w0 := mkWorld t _).
  eapply (wp_mono _ (fun o w => exists b, o = Ok b /\ w = w0)); [repeat evm_step; eauto|]. intros ? ? (new & -> & ->). wp_norm. set (base := Z.add (if new then _ else _) _).
  assert (stipend v <= base <= 40000) as Hb by (unfold base, stipend, params.CallStipend; destruct new, (U256.IsZero v); cbn; lia). clearbody base. subst w0.
  change (2 ^ 56) with 72057594037927936 in *. repeat call_step; change (2 ^ 57) with 144115188075855872; change (2 ^ 56) with 72057594037927936 in *; lia.
Qed.

Lemma gasCallCode_ok words r a v x st t e m c p n : frame env g (coreOk R) 0 r (mkScope e m (x :: a :: v :: st) c p n) -> 0 <= words ->
  wp (gasCallCode env (32 * words)) (callPost (32 * words) r (mkScope e m (x :: a :: v :: st) c p n) (fun e => callGasTemp e + stipend v)) (mkWorld t (mkScope e m (x :: a :: v :: st) c p n)).
Proof.
  intros Hf Hw. pose proof (stipend_nonneg v). unfold gasCallCode, params.CallValueTransferGas. assert (wf v) as Hv by (pose proof (f_wf _ _ _ _ _ _ Hf) as Hwf; by do 2 apply Forall_inv_tail in Hwf; apply Forall_inv in Hwf).
  gas_step; [|call_step]. gas_step. rewrite Sign_IsZero by done. set (base := if negb _ then _ else _).
  assert (stipend v <= base <= 40000) as Hb by (unfold base, stipend, params.CallStipend; destruct (U256.IsZero v); cbn; lia). clearbody base.
  repeat call_step; change (2 ^ 57) with 144115188075855872; change (2 ^ 56) with 72057594037927936 in *; lia.
Qed.

(** DELEGATECALL and STATICCALL. *)
Lemma plainCall_ok words r x st t e m c p n : frame env g (coreOk R) 0 r (mkScope e m (x :: st) c p n) -> 0 <= words ->
  wp (gasDelegateCall env (32 * words)) (callPost (32 * words) r (mkScope e m (x :: st) c p n) (fun e => callGasTemp e + 0)) (mkWorld t (mkScope e m (x :: st) c p n)).
Proof.
  intros Hf Hw. unfold gasDelegateCall. repeat call_step; change (2 ^ 57) with 144115188075855872; change (2 ^ 56) with 72057594037927936 in *; lia.
Qed.

Lemma frame_take size r k e m st c p n : frame env g (coreOk R) size r (mkScope e m st c p n) -> 0 <= k <= Gas c -> frame env g (coreOk R) size (r + k) (mkScope e m st (c <| Gas ::= fun x => x - k |>) p n).
Proof. intros [] Hk. split; try done; unfold upd, set_Gas; cbn in *; lia. Qed.

Lemma giveBack k c : 0 <= Gas c < 2 ^ 64 -> c <| Gas ::= fun x => x - k |> <| Gas ::= fun x => u64 (x + k) |> = c.
Proof. intros Hc. destruct c as [a1 a2 a3 a4 a5 a6 a7 a8 gas a10]. unfold upd, set_Gas. cbn in *. f_equal. rewrite u64_small; [lia|unfold is_u64; lia]. Qed.

End gas_call.

(** A frame can be seen as starting from any state that it has gone through. *)
Definition rebase (g : ghost) (v : Abs) : ghost := mkGhost v (g_depth g) (g_abort g) (g_ro g) (g_mem g) (g_credit g).

Section rebase.
Context `{Crypto} (env : Env) (g : ghost).

Lemma frame_rebase P size r sc : frame env g P size r sc -> frame env (rebase g (e_db (sc_evm sc))) P size r sc.
Proof. intros []. split; try done. by destruct f_evm0. Qed.
Lemma frame_unbase P size r v sc : grows (static env g) (g_db g) v -> frame env (rebase g v) P size r sc -> frame env g P size r sc /\ k_addresses (v_core v) ⊆ k_addresses (v_core (e_db (sc_evm sc))).
Proof.
  intros Hv []. split; [|by destruct f_grows0 as (_ & ? & _)]. split; try done; [by destruct f_evm0|]. etrans; [exact Hv|exact f_grows0].
Qed.
Lemma failed_unbase v sc : stays (g_db g) v -> failed (rebase g v) sc -> failed g sc.
Proof. intros Hv []. split; [by destruct d_evm0| |done]. etrans; [exact Hv|exact d_stays0]. Qed.

Lemma callPost_unbase R size r v sc reserve o w : grows (static env g) (g_db g) v -> callPost env (rebase g v) R size r sc reserve o w ->
  callPost env g R size r sc reserve o w /\ match o with Ok _ => k_addresses (v_core v) ⊆ k_addresses (v_core (e_db (sc_evm (w_st w)))) | _ => True end.
Proof.
  intros Hv [Hp Hc]. destruct o as [cost|er|q]; [|split; [split; [|done]|done]; eapply failed_unbase; [apply Hv|exact Hp]|done].
  destruct Hp as (H1 & H2 & H3 & H4). destruct (frame_unbase _ _ _ _ _ Hv H3) as [H5 H6]. done.
Qed.
End rebase.

Section gas_variant.
Context `{Crypto} (env : Env) (g : ghost) (R : Z) (Hmem : g_mem g <= 2 ^ 55).

(** The function for the old price, with the account already on the list. *)
Definition oldSpec (old : M (Scope Abs) Z) (size : Z) (reserve : EVM Abs -> Z) (st : Stack) : Prop :=
  forall g r t e m c p n, frame env g (coreOk R) 0 r (mkScope e m st c p n) -> wp old (callPost env g R size r (mkScope e m st c p n) reserve) (mkWorld t (mkScope e m st c p n)).

Lemma old_listed old size reserve r st a t e m c p n : oldSpec old size reserve st -> frame env g (coreOk R) 0 r (mkScope e m st c p n) -> a ∈ k_addresses (v_core (e_db e)) ->
  wp old (fun o w => callPost env g R size r (mkScope e m st c p n) reserve o w /\ match o with Ok _ => a ∈ k_addresses (v_core (e_db (sc_evm (w_st w)))) | _ => True end) (mkWorld t (mkScope e m st c p n)).
Proof.
  intros Hold Hf Ha. eapply wp_mono; [apply (Hold (rebase g (e_db e))); by apply (frame_rebase env g _ _ _ _ Hf)|]. intros o w Hp.
  destruct (callPost_unbase env g R size r (e_db e) _ _ _ _ (f_grows _ _ _ _ _ _ Hf) Hp) as [H1 H2]. split; [done|]. destruct o; [|done..]. set_solver.
Qed.

(** The cost of a cold account is taken before the old function runs, and given back. *)
Lemma makeCallVariantGasCallEIP2929_ok old size reserve r x a st t e m c p n : oldSpec old size reserve (x :: a :: st) -> frame env g (coreOk R) 0 r (mkScope e m (x :: a :: st) c p n) ->
  wp (makeCallVariantGasCallEIP2929 old) (fun o w => gasPost env g (coreOk R) size r (mkScope e m (x :: a :: st) c p n) reserve o w /\
    match o with Ok _ => toAddress a ∈ k_addresses (v_core (e_db (sc_evm (w_st w)))) | _ => True end) (mkWorld t (mkScope e m (x :: a :: st) c p n)).
Proof.
  intros Hold Hf. destruct e as [v d ab cg ro rd jd]. unfold makeCallVariantGasCallEIP2929, params.ColdAccountAccessCostEIP2929, params.WarmStorageReadCostEIP2929. change (2600 - 100) with 2500.
  do 2 gas_step. wp_norm. apply wp_when; intros Hw; wp_norm.
  - gas_state_step. gas_step; wp_norm.
    + apply wp_fail_if; intros ?; [wp_norm; split; [gas_end|done]|done].
    + gas_step; [done|]. wp_norm. eapply wp_mono; [apply old_listed with (a := toAddress a); [exact Hold|apply frame_take; [eassumption|lia]|cbn; set_solver]|].
      intros [cost|er|q] [t' sc'] [[Hp Hc] Ha]; wp_norm; [|split; [exact Hp|done]|done].
      apply negb_true_iff in Hw. rewrite Hw. destruct Hp as (Hu & Hr & Hf' & Es & Ec & Ep), sc' as [e' m' st' c' p' n']. cbn [w_st sc_stack sc_contract sc_evm sc_pc] in *. subst st' c' p'.
      unfold addGas. repeat gas_step. split; [|exact Ha]. destruct (f_gas _ _ _ _ _ _ Hf) as [Hg1 Hg2]. cbn [sc_contract] in *. change (2 ^ 55) with 36028797018963968 in *.
      rewrite giveBack, u64_small by (done || (unfold is_u64; change (2 ^ 64) with 18446744073709551616; lia)).
      eapply gasPost_ok with (r' := r + reserve e' - cost); try done; [|cbn; lia]. replace (r + 2500 + reserve e' - cost) with (r + reserve e' - cost + 2500) in Hf' by lia.
      destruct Hf'. split; try done; unfold upd, set_Gas in *; cbn in *; lia.
  - apply negb_false_iff in Hw. wp_norm. eapply wp_mono; [apply old_listed with (a := toAddress a); [exact Hold|exact Hf|by apply bool_decide_eq_true in Hw]|].
    intros [cost|er|q] [t' sc'] [[Hp Hc] Ha]; wp_norm; [|split; [exact Hp|done]|done]. rewrite Hw. gas_step. by split.
Qed.
End gas_variant.

(** ** SSTORE *)

Section gas_sstore.
Context `{Crypto} (env : Env) (g : ghost) (R r : Z) (HR : 0 <= R <= 15000) (Hcredit : g_credit g <= creditLimit) (Hr : 0 <= r).

Lemma sstore_core k k' a s val : coreOk R k -> k_accounts k' = k_accounts k ->
  R * flag (negb (isZeroHash (committedOf k a s)) && isZeroHash val) - R * flag (negb (isZeroHash (committedOf k a s)) && isZeroHash (storageOf k a s)) <= k_refund k' - k_refund k ->
  coreOk R (k_SetState a s val k').
Proof.
  intros [Hm Hc] Ha Hf. split; [apply accountsOk_SetState; by rewrite Ha|]. rewrite clearedIn_SetState. unfold clearedIn, committedOf, storageOf in *. rewrite Ha. cbn [k_SetState onAccount k_refund upd set_k_accounts]. lia.
Qed.

(** A slot that was cleared has its refund in the counter. *)
Lemma cleared_refund k a s val : coreOk R k -> isZeroHash (committedOf k a s) = false -> isZeroHash (storageOf k a s) = true -> isZeroHash val = false -> R <= k_refund k.
Proof.
  intros [Hm Hc] Ho Hs Hv. pose proof (clearedIn_SetState a s val k) as E. rewrite Ho, Hs, Hv in E. cbn [negb andb flag] in E.
  assert (0 <= clearedIn (k_SetState a s val k)) by apply msum_nonneg, cleared_nonneg. nia.
Qed.

Lemma zero_differ a b : a <> b -> isZeroHash a = true -> isZeroHash b = false.
Proof. unfold isZeroHash. intros Hne E%bool_decide_eq_true. apply bool_decide_eq_false. congruence. Qed.

(** The state once the price of a write is known. *)
Definition sstorePost (sc : Scope Abs) : outcome Z -> World (Scope Abs) -> Prop :=
  gasPost env g (fun k => match sc_stack sc with x :: y :: _ => coreOk R (k_SetState (self (sc_contract sc)) (toHash x) (toHash y) k) | _ => True end) 0 r sc (fun _ => 1).

Lemma sstorePost_ok v v' d ab cg ro rd jd m x y st c p n cost t : let sc v := mkScope (mkEVM v d ab cg ro rd jd) m (x :: y :: st) c p n in let k := v_core v in
  let o := isZeroHash (committedOf k (self c) (toHash x)) in let u := isZeroHash (storageOf k (self c) (toHash x)) in
  frame env g (coreOk R) 0 r (sc v) -> v_snapshots v' = v_snapshots v -> v_next v' = v_next v -> light k (v_core v') -> 1 <= cost <= 30000 ->
  R * flag (negb o && isZeroHash (toHash y)) - R * flag (negb o && u) <= k_refund (v_core v') - k_refund k <= 256 * (cost - 1) ->
  sstorePost (sc v) (Ok cost) (mkWorld t (sc v')).
Proof.
  intros sc k o u. subst sc k o u. cbv beta. intros Hf Es En Hl Hc Hd. eapply gasPost_ok with (r' := r + 1 - cost); try done; [|unfold is_u64; lia]. eapply frame_state; [exact Hf|done|done|done| |unfold refundRate; lia|lia].
  cbn. apply (sstore_core (v_core v)); [by apply (f_core _ _ _ _ _ _ Hf)|apply Hl|lia].
Qed.
End gas_sstore.

Lemma same_zero (a b : Hash) : bool_decide (a = b) = true -> isZeroHash a = isZeroHash b.
Proof. by intros ->%bool_decide_eq_true. Qed.
Lemma both_zero (a b : Hash) : bool_decide (a = b) = false -> isZeroHash a && isZeroHash b = false.
Proof. unfold isZeroHash. intros E%bool_decide_eq_false. apply andb_false_iff. destruct (decide (a = HashZero)); [right|left]; apply bool_decide_eq_false; congruence. Qed.

(** The change of the refund counter, in every case. *)
Ltac sst_lia := unfold upd, set_v_core, set_k_refund, set_k_addresses, set_k_slots in *; cbn in *; unfold is_u64; lia.
Ltac sst_params :=
  unfold params.SstoreSetGas, params.SstoreRefundGas, params.SstoreClearGas, params.SstoreResetGas, params.NetSstoreNoopGas, params.NetSstoreInitGas, params.NetSstoreClearRefund,
    params.NetSstoreCleanGas, params.NetSstoreResetClearRefund, params.NetSstoreResetRefund, params.NetSstoreDirtyGas, params.SstoreSentryGasEIP2200, params.SloadGasEIP2200,
    params.SstoreSetGasEIP2200, params.SstoreClearsScheduleRefundEIP2200, params.SstoreResetGasEIP2200, params.ColdSloadCostEIP2929, params.WarmStorageReadCostEIP2929.
Section gas_sstore_cases.
Context `{Crypto} (env : Env) (g : ghost) (R r : Z) (HR : 0 <= R <= 15000) (Hcredit : g_credit g <= creditLimit) (Hr : 0 <= r).

(** The cases of a write: what was in the slot at first ([o]), is there ([u]) and will be
    ([y]), as far as it matters; and what a price and a refund must obey in each. *)
Lemma sstore_cases v d ab cg ro rd jd m x y st c p n t (Q : Prop) : let sc v := mkScope (mkEVM v d ab cg ro rd jd) m (x :: y :: st) c p n in let k := v_core v in
  let o := committedOf k (self c) (toHash x) in let u := storageOf k (self c) (toHash x) in
  frame env g (coreOk R) 0 r (sc v) ->
  (forall bo bu bz buy bou boy, isZeroHash o = bo -> isZeroHash u = bu -> isZeroHash (toHash y) = bz -> bool_decide (u = toHash y) = buy -> bool_decide (o = u) = bou -> bool_decide (o = toHash y) = boy ->
    (buy = true -> bu = bz) /\ (buy = false -> bu && bz = false) /\ (bou = true -> bo = bu) /\ (boy = true -> bo = bz) /\ (boy = false -> bo && bz = false) ->
    0 <= k_refund k <= 2 ^ 63 -> (bo = false -> bu = true -> bz = false -> R <= k_refund k) ->
    (forall cost v', v_snapshots v' = v_snapshots v -> v_next v' = v_next v -> light k (v_core v') -> 1 <= cost <= 30000 ->
      R * flag (negb bo && bz) - R * flag (negb bo && bu) <= k_refund (v_core v') - k_refund k <= 256 * (cost - 1) ->
      sstorePost env g R r (sc v) (Ok cost) (mkWorld t (sc v'))) -> Q) -> Q.
Proof.
  intros sc k o u. subst sc k o u. cbv beta. intros Hf HQ. pose proof (f_core _ _ _ _ _ _ Hf) as Hcore. cbn in Hcore. eapply HQ; try done.
  - split_and!; first [apply same_zero | apply both_zero].
  - split; [by apply (coreOk_refund R); [lia|]|by apply (frame_refund env g Hcredit _ _ _ _ Hf)].
  - by apply cleared_refund; [lia|].
  - intros cost v' Es En Hl Hc Hd. by apply sstorePost_ok.
Qed.
End gas_sstore_cases.

(** Decide what is known ([K] rewrites with it), and run the rest. *)
Ltac sst_step K := wp_norm;
  lazymatch goal with
  | |- wp (when true ?m) ?Q ?w => change (wp m Q w)
  | |- wp (when false _) _ _ => apply wp_ret
  | |- wp (if true then ?m else _) ?Q ?w => change (wp m Q w)
  | |- wp (if false then _ else ?m) ?Q ?w => change (wp m Q w)
  | |- wp (if _ then _ else _) _ _ => progress (K; cbn [negb andb])
  | |- wp (when _ _) _ _ => progress (K; cbn [negb andb])
  | |- wp (db (AddRefund _)) _ _ => apply wp_AddRefund; [sst_lia|]
  | |- wp (db (SubRefund _)) _ _ => apply wp_db_SubRefund; [sst_lia|]
  | |- wp (backS _) _ _ => eapply wp_backS; [reflexivity|]
  | |- sstorePost _ _ _ _ _ (Fail _) _ => eapply gasPost_fail; eassumption
  | |- sstorePost _ _ _ _ _ (Ok _) _ => lazymatch goal with Hend : forall cost v', _ |- _ => apply Hend; [done|done|split_and!; first [done | apply union_subseteq_r]|lia|sst_lia] end
  | |- wp _ _ _ => evm_step
  end; wp_norm.
Ltac sst_cases Hf t K := eapply sstore_cases with (t := t); [| | |exact Hf|]; [assumption..|]; cbv zeta beta; intros [] [] [] [] [] [] Eo Eu Ez Euy Eou Eoy (F1 & F2 & F3 & F4 & F5) H0 Hclr Hend;
  try (by discriminate F1); try (by discriminate F2); try (by discriminate F3); try (by discriminate F4); try (by discriminate F5);
  clear F1 F2 F3 F4 F5; try specialize (Hclr eq_refl eq_refl eq_refl); repeat sst_step ltac:(K; rewrite ?Eo, ?Eu, ?Ez, ?Euy, ?Eou, ?Eoy).

Section gas_sstore_funcs.
Context `{Crypto} (env : Env) (g : ghost) (R r : Z) (HR : 0 <= R <= 15000) (Hcredit : g_credit g <= creditLimit) (Hr : 0 <= r).

Lemma gasSStoreEIP2200_ok t sc : R = 15000 -> frame env g (coreOk R) 0 r sc -> (1 < length (sc_stack sc))%nat -> wp gasSStoreEIP2200 (sstorePost env g R r sc) (mkWorld t sc).
Proof.
  intros ER Hf Hk. destruct sc as [[v d ab cg ro rd jd] m [|x [|y st]] c p n]; [cbn in Hk; lia..|]. unfold gasSStoreEIP2200; sst_params. sst_cases Hf t idtac.
Qed.

Lemma gasSStore_ok t sc : R = 15000 -> frame env g (coreOk R) 0 r sc -> (1 < length (sc_stack sc))%nat -> wp (gasSStore env) (sstorePost env g R r sc) (mkWorld t sc).
Proof.
  intros ER Hf Hk. destruct sc as [[v d ab cg ro rd jd] m [|x [|y st]] c p n]; [cbn in Hk; lia..|]. unfold gasSStore; sst_params.
  assert (wf y) as Hy by (pose proof (f_wf _ _ _ _ _ _ Hf) as Hwf; by apply Forall_inv_tail, Forall_inv in Hwf). assert (Z.eqb (U256.Sign y) 0 = isZeroHash (toHash y)) as Es.
  { rewrite isZeroHash_toHash, <- IsZero_spec by done. pose proof (Sign_IsZero y Hy). by destruct (Z.eqb _ _), (U256.IsZero y). }
  destruct (IsPetersburg (chainRules env) || negb (IsConstantinople (chainRules env))) eqn:Ep; sst_cases Hf t ltac:(rewrite ?Es).
Qed.

Lemma committedOf_AddSlot v a s b s' : committedOf (v_core (v <| v_core ::= k_AddSlot a s |>)) b s' = committedOf (v_core v) b s'.
Proof. done. Qed.

Lemma makeGasSStoreFunc_ok t sc : IsBerlin (chainRules env) = true -> frame env g (coreOk R) 0 r sc -> (1 < length (sc_stack sc))%nat -> wp (makeGasSStoreFunc R) (sstorePost env g R r sc) (mkWorld t sc).
Proof.
  intros HB Hf Hk. destruct sc as [[v d ab cg ro rd jd] m [|x [|y st]] c p n]; [cbn in Hk; lia..|]. unfold makeGasSStoreFunc; sst_params.
  pose proof (f_self _ _ _ _ _ _ Hf HB) as Hself. assert (bool_decide (self c ∈ k_addresses (v_core v)) = true) as Ea by (by apply bool_decide_eq_true_2).
  destruct (bool_decide ((self c, toHash x) ∈ k_slots (v_core v))) eqn:Esl; sst_cases Hf t ltac:(rewrite ?committedOf_AddSlot, ?Ea, ?Esl).
Qed.
End gas_sstore_funcs.
