(* ===== verification/EvmOps.v ===== *)
(** The instructions of the EVM keep a frame in order.

    First the payment of an operation, for every entry of the instruction tables; then
    each instruction that does not call: with its words on the stack, its memory in
    range and its gas paid, it does not panic, and leaves a frame again. *)

From S2P Require Import Prelude Common Rlp RlpEnc Uint256 Uint256Spec Uint256Div Uint256Conv StateSpec EvmBase EvmTable EvmPre Evm EvmInv EvmGas.
From Stdlib Require Import Strings.Byte.
#[local] Open Scope Z_scope.

(** * Entries of the tables *)

Record entryOk (r : Rules) (op : Z) (o : operation) : Prop := mkEntryOk {
  en_min : op_minStack o = Z.of_nat (fst (arity (execute o)));
  en_max : op_maxStack o = 1024 + Z.of_nat (fst (arity (execute o))) - Z.of_nat (snd (arity (execute o)));
  en_mem : memorySize o = memOf (execute o);
  en_gas : dynamicGas o ∈ gasOf (sstoreGas r) (execute o);
  en_sizes : sizesOk (execute o) = true;
  en_const : 0 <= constantGas o <= 32000;
  en_charges : finalOp (execute o) || charges (dynamicGas o) || Z.leb 1 (constantGas o) = true;
  en_destroy : forall b, dynamicGas o = Some (G_makeSelfdestructGasFn b) -> 5000 <= constantGas o;
  en_halts : halts o = bool_of (execute o) [X_opStop; X_opReturn; X_opSuicide];
  en_reverts : reverts o = bool_of (execute o) [X_opRevert];
  en_jumps : jumps o = bool_of (execute o) [X_opJump; X_opJumpi];
  en_returns : returns o = bool_of (execute o) [X_opCreate; X_opCreate2; X_opCall; X_opCallCode; X_opDelegateCall; X_opStaticCall; X_opRevert];
  en_writes : writes o = bool_of (execute o) [X_opSstore; X_opCreate; X_opCreate2; X_opSuicide] || match execute o with X_makeLog _ => true | _ => false end;
  en_call : execute o = X_opCall <-> op = opcodes.CALL;
  en_berlin : IsBerlin r = true \/ IsLondon r = true -> execute o = X_opCall \/ execute o = X_opStaticCall -> exists old, dynamicGas o = Some (G_makeCallVariantGasCallEIP2929 old);
  en_stop : op = opcodes.STOP -> execute o = X_opStop;
}.

Lemma instructionSet_entryOk r op o : instructionSet r !! op = Some o -> entryOk r op o.
Proof.
  intros E. apply instructionSet_entry in E. unfold operation_ok in E. rewrite !andb_true_iff in E. repeat match type of E with _ /\ _ => destruct E as [E ?] end.
  repeat match goal with
  | H : bool_decide _ = true |- _ => apply bool_decide_eq_true in H
  | H : Bool.eqb _ _ = true |- _ => apply Bool.eqb_prop in H
  | H : Z.eqb _ _ = true |- _ => apply Z.eqb_eq in H
  | H : Z.leb _ _ = true |- _ => apply Z.leb_le in H
  end.
  split; try done.
  - intros b Eb. rewrite Eb in *. by apply Z.leb_le.
  - rewrite <- Z.eqb_eq. match goal with E' : bool_decide _ = Z.eqb _ _ |- _ => rewrite <- E' end. by rewrite bool_decide_eq_true.
  - intros Hb Ef. assert (exists k, sstoreGas r = G_makeGasSStoreFunc k) as [k Ek]. { unfold sstoreGas. destruct (IsLondon r); [by eexists|]. destruct (IsBerlin r); [by eexists|]. by destruct Hb. }
    rewrite Ek in *. destruct Ef as [Ef|Ef]; rewrite Ef in *; destruct (dynamicGas o) as [[]|]; try discriminate; by eexists.
  - intros ->. rewrite Z.eqb_refl in *. match goal with E' : negb true || bool_decide _ = true |- _ => by apply bool_decide_eq_true in E' end.
Qed.

(** * Payment *)

(** What is set aside for a call, and what of the price is sure to be spent. *)
Definition reserveOf (f : executionFunc) (sc : Scope Abs) : Z :=
  match f with
  | X_opCall | X_opCallCode => callGasTemp (sc_evm sc) + match sc_stack sc with _ :: _ :: v :: _ => stipend v | _ => 0 end
  | X_opDelegateCall | X_opStaticCall => callGasTemp (sc_evm sc)
  | _ => 0
  end.
(** The account that is called, on the access list. *)
Definition listed (f : executionFunc) (st : Stack) (k : core) : Prop :=
  match f, st with
  | X_opCall, _ :: a :: _ | X_opStaticCall, _ :: a :: _ => toAddress a ∈ k_addresses k
  | _, _ => True
  end.
Definition slack (f : executionFunc) : Z := if finalOp f then 0 else 1.

Section pay.
Context `{Crypto} (env : Env) (He : envOk env) (g : ghost) (Hcredit : g_credit g <= creditLimit) (Hmem : g_mem g <= 2 ^ 55).

Abbreviation R := (clearRefund env).

(** The accounts before an operation; a write has its refund counted already. *)
Definition coreAt (f : executionFunc) (sc : Scope Abs) (k : core) : Prop :=
  match f with
  | X_opSstore => match sc_stack sc with x :: y :: _ => coreOk R (k_SetState (self (sc_contract sc)) (toHash x) (toHash y) k) | _ => True end
  | _ => coreOk R k
  end.

Lemma R_range : 0 <= R <= 15000.
Proof. unfold clearRefund. by destruct (IsLondon _). Qed.

(** After the payment for [f]. *)
Definition paid (f : executionFunc) (P : core -> Prop) (size : Z) (sc : Scope Abs) (o : outcome unit) (w : World (Scope Abs)) : Prop :=
  match o with
  | Ok _ => frame env g P size (reserveOf f (w_st w) + slack f) (w_st w) /\ 0 <= reserveOf f (w_st w) /\
      sc_stack (w_st w) = sc_stack sc /\ self (sc_contract (w_st w)) = self (sc_contract sc) /\
      Code (sc_contract (w_st w)) = Code (sc_contract sc) /\ sc_pc (w_st w) = sc_pc sc /\
      (IsBerlin (chainRules env) = true -> listed f (sc_stack sc) (v_core (e_db (sc_evm (w_st w)))))
  | Fail _ => failed g (w_st w)
  | Panic _ => False
  end.

Lemma pay_ok o gf P size r reserve f t sc : dynamicGas o = Some gf ->
  wp (runGas env gf size) (fun o w => gasPost env g P size r sc reserve o w /\
    match o with Ok _ => IsBerlin (chainRules env) = true -> listed f (sc_stack sc) (v_core (e_db (sc_evm (w_st w)))) | _ => True end) (mkWorld t sc) ->
  (forall sc', sc_stack sc' = sc_stack sc -> 0 <= reserve (sc_evm sc') -> reserveOf f sc' + slack f <= r + reserve (sc_evm sc') /\ 0 <= reserveOf f sc') ->
  wp (payDynamic env o size) (paid f P size sc) (mkWorld t sc).
Proof.
  intros Ed Hg Hr. unfold payDynamic. rewrite (eo_override env He), Ed. apply wp_bind, wp_try. eapply wp_mono; [exact Hg|]. intros [cost|er|q] [t' sc'] [Hp Hlist]; cbn beta iota; wp_norm; [|by apply wp_fail|done].
  destruct Hp as (Hu & Hres & Hf & Es & Ec & Ep). cbn [w_st] in *. destruct sc' as [e m st c p n]. cbn [sc_stack sc_contract sc_evm] in *. destruct (Hr (mkScope e m st c p n) Es Hres) as [Hr1 Hr2]. cbn [sc_evm] in *.
  apply wp_bind, wp_useGas; intros Hc; wp_norm; apply wp_fail_if; intros Hn; try discriminate Hn.
  - eapply frame_failed. exact Hf.
  - subst c. assert (frame env g P size (r + reserve e) (mkScope e m st ((sc_contract sc) <| Gas ::= fun x => x - cost |>) p n)) as Hf'.
    { destruct Hf. unfold is_u64 in Hu. split; try done; unfold upd, set_Gas in *; cbn in *; lia. }
    split_and!; try done. eapply frame_weaken; [exact Hf'|done|]. by destruct Hf'.
Qed.

Lemma pay_plain o gf P size r reserve f t sc : dynamicGas o = Some gf -> (forall st k, listed f st k) ->
  wp (runGas env gf size) (gasPost env g P size r sc reserve) (mkWorld t sc) ->
  (forall sc', sc_stack sc' = sc_stack sc -> 0 <= reserve (sc_evm sc') -> reserveOf f sc' + slack f <= r + reserve (sc_evm sc') /\ 0 <= reserveOf f sc') ->
  wp (payDynamic env o size) (paid f P size sc) (mkWorld t sc).
Proof. intros Ed Hl Hg Hr. eapply pay_ok; [exact Ed| |exact Hr]. eapply wp_mono; [exact Hg|]. intros [] w Hp; by split. Qed.

Lemma pay_none o P f t sc r : (forall st k, listed f st k) -> dynamicGas o = None -> frame env g P 0 r sc -> reserveOf f sc + slack f <= r -> 0 <= reserveOf f sc ->
  wp (payDynamic env o 0) (paid f P 0 sc) (mkWorld t sc).
Proof.
  intros Hl Ed Hf Hr H0. unfold payDynamic. rewrite (eo_override env He), Ed. apply wp_ret. split_and!; try done. eapply frame_weaken; [exact Hf|done|]. by destruct Hf.
Qed.

Lemma sstoreGas_ok r t sc : frame env g (coreOk R) 0 r sc -> 0 <= r -> (1 < length (sc_stack sc))%nat ->
  wp (runGas env (sstoreGas (chainRules env)) 0) (sstorePost env g R r sc) (mkWorld t sc).
Proof.
  intros Hf Hr Hk. pose proof R_range as HR. pose proof (eo_berlin env He) as HB. unfold sstoreGas, clearRefund in *.
  destruct (IsLondon _) eqn:EL; [apply makeGasSStoreFunc_ok with (env := env); auto|]. destruct (IsBerlin _) eqn:EB; [apply makeGasSStoreFunc_ok with (env := env); auto|].
  destruct (IsIstanbul _); [apply gasSStoreEIP2200_ok|apply gasSStore_ok]; auto.
Qed.
End pay.

Ltac elem_cases E :=
  repeat (apply elem_of_cons in E as [E|E]); try (by apply elem_of_nil in E); try discriminate E.

Ltac pay_simple He Egf L Hf :=
  eapply pay_plain; [exact He|exact Egf|done|cbn [runGas]; L; first [exact Hf | assumption | lia | by vm_compute]|intros; cbn; b2p; lia].

Section pay_all.
Context `{Crypto} (env : Env) (He : envOk env) (g : ghost) (Hcredit : g_credit g <= creditLimit) (Hmem : g_mem g <= 2 ^ 55).

Abbreviation R := (clearRefund env).

(** The calls, before and after Berlin. *)
Lemma pay_call o f inner extra size r t e m x a st c p n : let sc := mkScope e m (x :: a :: st) c p n in
  (dynamicGas o = Some inner /\ (IsBerlin (chainRules env) = true -> forall k, listed f (x :: a :: st) k)) \/ dynamicGas o = Some (G_makeCallVariantGasCallEIP2929 inner) ->
  oldSpec env R (runGas env inner size) size (fun e => callGasTemp e + extra) (x :: a :: st) ->
  frame env g (coreOk R) 0 r sc -> 1 <= r -> (forall sc', sc_stack sc' = x :: a :: st -> reserveOf f sc' = callGasTemp (sc_evm sc') + extra) -> finalOp f = false ->
  wp (payDynamic env o size) (paid env g f (coreOk R) size sc) (mkWorld t sc).
Proof.
  intros sc Hgf Hin Hf Hr Hres Hfin. assert (slack f = 1) as Hs by (unfold slack; by rewrite Hfin).
  destruct Hgf as [[Egf Hl]|Egf]; (eapply pay_ok with (r := r) (reserve := fun e => callGasTemp e + extra); [exact He|exact Egf| |intros sc' Es H0; rewrite (Hres sc' Es); lia]).
  - eapply wp_mono; [by apply Hin|]. intros o' w' [Hp _]. split; [exact Hp|]. destruct o'; auto.
  - cbn [runGas]. eapply wp_mono; [apply (makeCallVariantGasCallEIP2929_ok env g R Hmem (runGas env inner size) size (fun e => callGasTemp e + extra)); [done|exact Hf]|].
    intros o' w' [Hp Ha]. split; [exact Hp|]. destruct o'; [|done..]. intros _. by destruct f.
Qed.

Lemma payDynamic_ok op o words t sc : entryOk (chainRules env) op o -> frame env g (coreOk R) 0 (constantGas o) sc -> (fst (arity (execute o)) <= length (sc_stack sc))%nat ->
  0 <= words -> (memOf (execute o) = None -> words = 0) -> wp (payDynamic env o (32 * words)) (paid env g (execute o) (coreAt env (execute o) sc) (32 * words) sc) (mkWorld t sc).
Proof.
  intros En Hf Hk Hw Hz. pose proof (R_range env) as HR. pose proof (en_gas _ _ _ En) as Eg. pose proof (en_charges _ _ _ En) as Ec. pose proof (en_const _ _ _ En) as Hc. pose proof (en_sizes _ _ _ En) as Hs.
  destruct (dynamicGas o) as [gf|] eqn:Ed.
  2:{ rewrite orb_false_r in Ec. destruct (execute o); cbn [gasOf] in Eg; elem_cases Eg; rewrite (Hz eq_refl), Z.mul_0_r; (eapply pay_none; [done|done|done|exact Hf|cbn; b2p; try discriminate; lia|cbn; lia]). }
  assert (forall gf', Some gf = Some gf' -> dynamicGas o = Some gf') as Ed' by congruence.
  destruct (execute o) eqn:Ex; cbn [gasOf] in Eg; elem_cases Eg; apply Ed' in Eg as Egf; injection Eg as ->; cbn in Ec; try rewrite (Hz eq_refl), Z.mul_0_r; cbn [arity fst] in Hk; clear Ed' Hz.
  all: lazymatch type of Egf with
    | dynamicGas _ = Some G_pureMemoryGascost => pay_simple He Egf ltac:(apply pureMemoryGascost_ok) Hf
    | dynamicGas _ = Some (G_memoryCopierGas _) => pay_simple He Egf ltac:(apply memoryCopierGas_ok) Hf
    | dynamicGas _ = Some G_gasSha3 => pay_simple He Egf ltac:(apply wordGas_ok) Hf
    | dynamicGas _ = Some G_gasCreate2 => pay_simple He Egf ltac:(apply wordGas_ok) Hf
    | dynamicGas _ = Some (G_makeGasLog _) => apply Nat.leb_le in Hs; pay_simple He Egf ltac:(apply makeGasLog_ok) Hf
    | dynamicGas _ = Some G_gasExpFrontier => pay_simple He Egf ltac:(apply expGas_ok) Hf
    | dynamicGas _ = Some G_gasExpEIP158 => pay_simple He Egf ltac:(apply expGas_ok) Hf
    | dynamicGas _ = Some G_gasEip2929AccountCheck => pay_simple He Egf ltac:(apply gasEip2929AccountCheck_ok) Hf
    | dynamicGas _ = Some G_gasSLoadEIP2929 => pay_simple He Egf ltac:(apply gasSLoadEIP2929_ok) Hf
    | dynamicGas _ = Some G_gasExtCodeCopyEIP2929 => pay_simple He Egf ltac:(apply gasExtCodeCopyEIP2929_ok) Hf
    | dynamicGas _ = Some G_gasSelfdestruct => pay_simple He Egf ltac:(apply gasSelfdestruct_ok; [..|apply (eo_150 env He)| | |]) Hf
    | dynamicGas _ = Some (G_makeSelfdestructGasFn _) => pose proof (en_destroy _ _ _ En _ Egf); pay_simple He Egf ltac:(apply makeSelfdestructGasFn_ok) Hf
    | dynamicGas _ = Some (sstoreGas _) => eapply pay_plain; [exact He|exact Egf|done|exact (sstoreGas_ok env He g Hcredit (constantGas o) t sc Hf ltac:(lia) ltac:(lia))|intros; cbn; lia]
    | _ => idtac
    end.
  all: destruct sc as [e m [|x [|a [|v st]]] c p n]; try (cbn in Hk; lia); b2p; eapply pay_call; first [exact Hf | exact Ec | done | (right; exact Egf) | (left; split; [exact Egf|]) | idtac].
  all: cbn [runGas]; intros.
  all: lazymatch goal with
    | |- oldSpec _ _ (gasCall _ _) _ _ _ => intros ? ? ? ? ? ? ? ? ?; by apply gasCall_ok; [apply (eo_150 env He)| |]
    | |- oldSpec _ _ (gasCallCode _ _) _ _ _ => intros ? ? ? ? ? ? ? ? ?; by apply gasCallCode_ok; [apply (eo_150 env He)| |]
    | |- oldSpec _ _ (gasDelegateCall _ _) _ _ _ => intros ? ? ? ? ? ? ? ? ?; by apply plainCall_ok; [apply (eo_150 env He)| |]
    | |- oldSpec _ _ (gasStaticCall _ _) _ _ _ => intros ? ? ? ? ? ? ? ? ?; by apply plainCall_ok; [apply (eo_150 env He)| |]
    | |- listed _ _ _ => first [done | exfalso; by destruct (en_berlin _ _ _ En) as (old & Eold); [by left|auto|rewrite Egf in Eold; discriminate Eold]]
    | |- reserveOf _ ?sc' = _ => destruct sc'; cbn in *; subst; lia
    end.
Qed.
End pay_all.

(** * Memory *)

(** The parts of the memory that an instruction touches, as offset and size. *)
Definition accesses (f : executionFunc) (st : Stack) : list (Z * Z) :=
  match f, st with
  | X_opSha3, o :: n :: _ | X_opReturn, o :: n :: _ | X_opRevert, o :: n :: _ | X_makeLog _, o :: n :: _ => [(toZ o, toZ n)]
  | X_opCallDataCopy, o :: _ :: n :: _ | X_opReturnDataCopy, o :: _ :: n :: _ | X_opCodeCopy, o :: _ :: n :: _ => [(toZ o, toZ n)]
  | X_opExtCodeCopy, _ :: o :: _ :: n :: _ => [(toZ o, toZ n)]
  | X_opMload, o :: _ | X_opMstore, o :: _ => [(toZ o, 32)]
  | X_opMstore8, o :: _ => [(toZ o, 1)]
  | X_opCreate, _ :: o :: n :: _ | X_opCreate2, _ :: o :: n :: _ => [(toZ o, toZ n)]
  | X_opCall, _ :: _ :: _ :: i :: k :: o :: n :: _ | X_opCallCode, _ :: _ :: _ :: i :: k :: o :: n :: _ => [(toZ i, toZ k); (toZ o, toZ n)]
  | X_opDelegateCall, _ :: _ :: i :: k :: o :: n :: _ | X_opStaticCall, _ :: _ :: i :: k :: o :: n :: _ => [(toZ i, toZ k); (toZ o, toZ n)]
  | _, _ => []
  end.

(** An access lies below [size]. *)
Definition below (size : Z) (p : Z * Z) : Prop := p.2 = 0 \/ (0 <= p.1 /\ 0 < p.2 /\ p.1 + p.2 <= size).

Lemma below_mono s s' p : below s p -> s <= s' -> below s' p.
Proof. intros [?|?] Hs; [by left|right; lia]. Qed.

Lemma memNeed_below o n s : 0 <= o -> memNeed o n s -> below s (o, n).
Proof. intros Ho [_ [[-> _]|[Hn ->]]]; [by left|right; cbn; lia]. Qed.

Lemma calcMemSize64_below o n s : wf o -> wf n -> calcMemSize64 o n = (s, false) -> is_u64 s /\ below s (toZ o, toZ n).
Proof. intros Ho Hn E. destruct (calcMemSize64_ok o n s Ho Hn E) as [Hm _]. pose proof (toZ_range o Ho). split; [apply Hm|]. apply memNeed_below; [lia|done]. Qed.
Lemma calcMemSize64WithUint_below o n s : wf o -> is_u64 n -> calcMemSize64WithUint o n = (s, false) -> is_u64 s /\ below s (toZ o, n).
Proof. intros Ho Hn E. pose proof (calcMemSize64WithUint_ok o n s Ho Hn E) as Hm. pose proof (toZ_range o Ho). split; [apply Hm|]. apply memNeed_below; [lia|done]. Qed.

Lemma memory1 o n : wf o -> wf n -> exists s b, Ok (calcMemSize64 o n) = Ok (s, b) /\ (b = false -> is_u64 s /\ Forall (below s) [(toZ o, toZ n)]).
Proof.
  intros Ho Hn. destruct (calcMemSize64 o n) as [s b] eqn:E. exists s, b. split; [done|]. intros ->. destruct (calcMemSize64_below o n s Ho Hn E). auto.
Qed.
Lemma memoryK o k : wf o -> is_u64 k -> exists s b, Ok (calcMemSize64WithUint o k) = Ok (s, b) /\ (b = false -> is_u64 s /\ Forall (below s) [(toZ o, k)]).
Proof.
  intros Ho Hn. destruct (calcMemSize64WithUint o k) as [s b] eqn:E. exists s, b. split; [done|]. intros ->. destruct (calcMemSize64WithUint_below o k s Ho Hn E). auto.
Qed.
Lemma memory2 st i k o n ri rk ro rn : st !! ri = Some i -> st !! rk = Some k -> st !! ro = Some o -> st !! rn = Some n -> Forall wf st ->
  exists s b, memSizes st ro rn ri rk = Ok (s, b) /\ (b = false -> is_u64 s /\ Forall (below s) [(toZ i, toZ k); (toZ o, toZ n)]).
Proof.
  intros Ei Ek Eo En Hwf. pose proof (fun j x => Forall_lookup_1 _ _ j x Hwf) as Hl. unfold memSizes, memSize, back2, Back. rewrite Eo, En. cbn -[calcMemSize64].
  destruct (calcMemSize64 o n) as [x [|]] eqn:E1; [by exists 0, true|]. rewrite Ei, Ek. cbn -[calcMemSize64]. destruct (calcMemSize64 i k) as [y [|]] eqn:E2; [by exists 0, true|].
  destruct (calcMemSize64_below o n x (Hl _ _ Eo) (Hl _ _ En) E1) as [Hx1 Hx2]. destruct (calcMemSize64_below i k y (Hl _ _ Ei) (Hl _ _ Ek) E2) as [Hy1 Hy2].
  destruct (Z.ltb_spec y x); eexists _, false; (split; [done|]); intros _; (split; [done|]); rewrite !Forall_cons; split_and!; try done; eapply below_mono; try eassumption; lia.
Qed.

(** The memory function of an instruction gives enough for its accesses. *)
Lemma runMemorySize_ok f mf st : memOf f = Some mf -> Forall wf st -> (fst (arity f) <= length st)%nat ->
  exists s b, runMemorySize mf st = Ok (s, b) /\ (b = false -> is_u64 s /\ Forall (below s) (accesses f st)).
Proof.
  intros Em Hwf Hk. destruct f; try discriminate Em; injection Em as <-; cbn [arity fst] in Hk.
  all: repeat (destruct st as [|? st]; [cbn in Hk; exfalso; lia|]; cbn [length] in Hk; apply le_S_n in Hk); clear Hk.
  all: try (by apply memory2); repeat (apply Forall_cons in Hwf as [? Hwf]).
  all: try (by apply memory1); by apply memoryK.
Qed.

Section memory.
Context `{Crypto} (env : Env).

Lemma operationMemory_ok op o t sc (Q : outcome Z -> World (Scope Abs) -> Prop) : entryOk (chainRules env) op o -> Forall wf (sc_stack sc) -> (fst (arity (execute o)) <= length (sc_stack sc))%nat ->
  (forall words, 0 <= words -> (memOf (execute o) = None -> words = 0) -> Forall (below (32 * words)) (accesses (execute o) (sc_stack sc)) -> Q (Ok (32 * words)) (mkWorld t sc)) ->
  (forall er, Q (Fail er) (mkWorld t sc)) -> wp (operationMemory o) Q (mkWorld t sc).
Proof.
  intros En Hwf Hk HQ HF. unfold operationMemory. rewrite (en_mem _ _ _ En). destruct (memOf (execute o)) as [mf|] eqn:Em.
  - destruct (runMemorySize_ok _ _ _ Em Hwf Hk) as (s & b & E & Hs). apply wp_bind, wp_gets. cbn [w_st]. wp_norm. apply wp_lift. rewrite E. wp_norm. apply wp_fail_if; intros Hb; wp_norm; [apply HF|].
    destruct (Hs Hb) as [Hu Ha]. destruct (toWordSize_spec s Hu) as [[Hw1 Hw2] Hw3]. apply wp_SafeMul; [by apply is_u64_words|by vm_compute| |apply HF]. intros Hm. rewrite Z.mul_comm. apply HQ; [lia|done|].
    eapply Forall_impl; [exact Ha|]. intros p Hp. eapply below_mono; [exact Hp|lia].
  - apply wp_ret. apply (HQ 0); [lia|done|]. destruct (execute o); try discriminate Em; destruct (sc_stack sc) as [|? [|? [|? [|? [|? [|? [|? ?]]]]]]]; constructor.
Qed.
End memory.
