(* ===== verification/EvmExec.v ===== *)
(** The instructions of the EVM keep a frame in order.

    Each instruction that does not call: with its words on the stack and its memory in
    range, it does not panic, and leaves a frame again. *)

From S2P Require Import Prelude Common Rlp RlpEnc Uint256 Uint256Spec Uint256Div Uint256Conv StateSpec EvmBase EvmTable EvmPre Evm EvmInv EvmGas EvmOps.
From Stdlib Require Import Strings.Byte.
#[local] Open Scope Z_scope.

(** * Words *)

Create HintDb words.
Lemma wf_ofBool b : wf (ofBool b).
Proof. destruct b; [apply wf_SetOne|apply wf_Clear]. Qed.
Lemma wf_fromBig z : wf (fromBig z).
Proof. unfold fromBig. destruct (FromBig_spec z) as (x & -> & Hx). apply Hx. Qed.
Lemma wf_SetUint64_small z : small z -> wf (U256.SetUint64 z).
Proof. intros Hz. apply wf_SetUint64. unfold small, is_u64 in *. change (2 ^ 60) with 1152921504606846976 in *. change (2 ^ 64) with 18446744073709551616. lia. Qed.
#[export] Hint Resolve wf_ofBool wf_fromBig wf_Clear wf_SetAllOne wf_SetOne wf_SetUint64 wf_SetUint64_small : words.

(** Every operation of one, two and three words gives a word. *)
Definition total1 (f : Int -> Int) : Prop := forall x, wf x -> wf (f x).
Definition total2 (f : Int -> Int -> outcome Int) : Prop := forall x y, wf x -> wf y -> exists z, f x y = Ok z /\ wf z.
Definition total3 (f : Int -> Int -> Int -> outcome Int) : Prop := forall x y z, wf x -> wf y -> wf z -> exists r, f x y z = Ok r /\ wf r.

Lemma total2_pure f : (forall x y, wf x -> wf y -> wf (f x y)) -> total2 (fun x y => Ok (f x y)).
Proof. intros Hf x y Hx Hy. eauto. Qed.

Section frame_exec.
Context `{Crypto} `{PrecompileLibs} (env : Env) (g : ghost) (r : Z) (Hmem : g_mem g <= 2 ^ 55).

Abbreviation R := (clearRefund env).

(** What an instruction leaves. *)
Definition opPost (o : outcome (list byte)) (w : World (Scope Abs)) : Prop :=
  match o with
  | Ok res => frame env g (coreOk R) 0 r (w_st w) /\ small (len res)
  | Fail _ => failed g (w_st w)
  | Panic p => p = bitvecRange
  end.

Lemma frame_local (P : core -> Prop) e m m' st st' c p p' n : frame env g P 0 r (mkScope e m st c p n) -> Forall wf st' -> len st' <= params.StackLimit ->
  Len m' = Len m -> lastGasCost m' = lastGasCost m -> is_u64 p' -> frame env g P 0 r (mkScope e m' st' c p' n).
Proof.
  intros [] Hw Hl Hm Hg Hp. cbn in *. split; try done; cbn.
  - rewrite Resize_0 in *. destruct f_mem as (w & H1 & H2 & H3). exists w. by rewrite Hm, Hg.
  - by rewrite Hg.
Qed.

(** The stack changes, and nothing else. *)
Lemma opPost_stack e m st st' c p n t : frame env g (coreOk R) 0 r (mkScope e m st c p n) -> Forall wf st' -> len st' <= params.StackLimit ->
  opPost (Ok []) (mkWorld t (mkScope e m st' c p n)).
Proof. intros Hf Hw Hl. split; [|apply small_0]. eapply frame_local; try done. by destruct Hf. Qed.

Lemma Forall_wf_cons x st : wf x -> Forall wf st -> Forall wf (x :: st).
Proof. by constructor. Qed.

(** The words of a frame, and its room. *)
Ltac op_open Hf :=
  let Hw := fresh "Hwf" in let Hl := fresh "Hlen" in
  pose proof (f_wf _ _ _ _ _ _ Hf) as Hw; pose proof (f_stack _ _ _ _ _ _ Hf) as Hl; cbn [sc_stack] in Hw, Hl; unfold params.StackLimit, len in Hl; cbn [length] in Hl;
  rewrite ?Forall_cons in Hw; destruct_and? Hw.
Ltac op_stack := eapply opPost_stack; [eassumption|repeat first [eassumption | apply Forall_wf_cons]; eauto with words|unfold params.StackLimit, len in *; cbn [length] in *; lia].

Lemma top1_ok f t e m x st c p n : total1 f -> frame env g (coreOk R) 0 r (mkScope e m (x :: st) c p n) -> wp (top1 f) opPost (mkWorld t (mkScope e m (x :: st) c p n)).
Proof. intros Ht Hf. op_open Hf. unfold top1. evm_steps. op_stack. Qed.
Lemma top2_ok f t e m x y st c p n : total2 f -> frame env g (coreOk R) 0 r (mkScope e m (x :: y :: st) c p n) -> wp (top2 f) opPost (mkWorld t (mkScope e m (x :: y :: st) c p n)).
Proof. intros Ht Hf. op_open Hf. unfold top2. destruct (Ht x y) as (z & E & Hz); [done|done|]. evm_steps. rewrite E. wp_norm. evm_steps. op_stack. Qed.
Lemma top3_ok f t e m x y z st c p n : total3 f -> frame env g (coreOk R) 0 r (mkScope e m (x :: y :: z :: st) c p n) -> wp (top3 f) opPost (mkWorld t (mkScope e m (x :: y :: z :: st) c p n)).
Proof. intros Ht Hf. op_open Hf. unfold top3. destruct (Ht x y z) as (q & E & Hz); [done|done|done|]. evm_steps. rewrite E. wp_norm. evm_steps. op_stack. Qed.
Lemma pushInt_ok x t e m st c p n : wf x -> frame env g (coreOk R) 0 r (mkScope e m st c p n) -> (length st < 1024)%nat -> wp (pushInt x) opPost (mkWorld t (mkScope e m st c p n)).
Proof. intros Hx Hf Hk. op_open Hf. unfold pushInt. evm_steps. op_stack. Qed.
Lemma pushBytes_ok b t e m st c p n : frame env g (coreOk R) 0 r (mkScope e m st c p n) -> (length st < 1024)%nat -> wp (pushBytes b) opPost (mkWorld t (mkScope e m st c p n)).
Proof. intros Hf Hk. unfold pushBytes. destruct (SetBytes_spec b) as (z & E & Hz & _). evm_steps. rewrite E. wp_norm. by apply pushInt_ok. Qed.
Lemma setPeek_ok y t e m x st c p n : wf y -> frame env g (coreOk R) 0 r (mkScope e m (x :: st) c p n) -> wp (setPeekS y;; mret []) opPost (mkWorld t (mkScope e m (x :: st) c p n)).
Proof. intros Hy Hf. op_open Hf. evm_steps. op_stack. Qed.
Lemma topBytes_ok b t e m x st c p n : frame env g (coreOk R) 0 r (mkScope e m (x :: st) c p n) -> wp (topBytes b) opPost (mkWorld t (mkScope e m (x :: st) c p n)).
Proof. intros Hf. unfold topBytes. destruct (SetBytes_spec b) as (z & E & Hz & _). evm_steps. rewrite E. wp_norm. by apply setPeek_ok. Qed.
End frame_exec.

(** * Arithmetic *)

Lemma total_Div : total2 U256.Div.
Proof. intros x y Hx Hy. destruct (Div_spec x y Hx Hy) as (z & E & Hz & _). eauto. Qed.
Lemma total_SDiv : total2 U256.SDiv.
Proof. intros x y Hx Hy. destruct (SDiv_spec x y Hx Hy) as (z & E & Hz & _). eauto. Qed.
Lemma total_Mod : total2 U256.Mod.
Proof. intros x y Hx Hy. destruct (Mod_spec x y Hx Hy) as (z & E & Hz & _). eauto. Qed.
Lemma total_SMod : total2 U256.SMod.
Proof. intros x y Hx Hy. destruct (SMod_spec x y Hx Hy) as (z & E & Hz & _). eauto. Qed.
Lemma total_AddMod : total3 (fun x y z => if U256.IsZero z then Ok U256.Clear else U256.AddMod x y z).
Proof.
  intros x y z Hx Hy Hz. destruct (U256.IsZero z); [exists U256.Clear; auto using wf_Clear|]. destruct (AddMod_spec x y z Hx Hy Hz) as (q & E & Hq & _). eauto.
Qed.
Lemma total_MulMod : total3 U256.MulMod.
Proof. intros x y z Hx Hy Hz. destruct (MulMod_spec x y z Hx Hy Hz) as (q & E & Hq & _). eauto. Qed.

Lemma wf_Add x y : wf x -> wf y -> wf (U256.Add x y).
Proof. apply Add_is256. Qed.
Lemma wf_Sub x y : wf x -> wf y -> wf (U256.Sub x y).
Proof. apply Sub_is256. Qed.
Lemma wf_Mul x y : wf x -> wf y -> wf (U256.Mul x y).
Proof. apply Mul_is256. Qed.
Lemma wf_Exp x y : wf x -> wf y -> wf (U256.Exp x y).
Proof. apply Exp_is256. Qed.
Lemma wf_ExtendSign x y : wf x -> wf y -> wf (U256.ExtendSign x y).
Proof. apply ExtendSign_spec. Qed.
Lemma wf_And x y : wf x -> wf y -> wf (U256.And x y).
Proof. apply And_spec. Qed.
Lemma wf_Or x y : wf x -> wf y -> wf (U256.Or x y).
Proof. apply Or_spec. Qed.
Lemma wf_Xor x y : wf x -> wf y -> wf (U256.Xor x y).
Proof. apply Xor_spec. Qed.
Lemma wf_Byte x y : wf x -> wf y -> wf (U256.Byte x y).
Proof. apply Byte_spec. Qed.
Lemma wf_Not x : wf x -> wf (U256.Not x).
Proof. apply Not_spec. Qed.
Lemma Uint64_nonneg x : wf x -> 0 <= U256.Uint64 x.
Proof. intros (H0 & _). apply H0. Qed.
Lemma wf_Lsh x y : wf x -> wf y -> wf (U256.Lsh x (U256.Uint64 y)).
Proof. intros Hx Hy. by apply Lsh_is256, Uint64_nonneg. Qed.
Lemma wf_Rsh x y : wf x -> wf y -> wf (U256.Rsh x (U256.Uint64 y)).
Proof. intros Hx Hy. by apply Rsh_spec, Uint64_nonneg. Qed.
Lemma wf_SRsh x y : wf x -> wf y -> wf (U256.SRsh x (U256.Uint64 y)).
Proof. intros Hx Hy. by apply SRsh_spec, Uint64_nonneg. Qed.
#[export] Hint Resolve wf_Add wf_Sub wf_Mul wf_Exp wf_ExtendSign wf_And wf_Or wf_Xor wf_Byte wf_Not wf_Lsh wf_Rsh wf_SRsh total_Div total_SDiv total_Mod total_SMod total_AddMod total_MulMod : words.

(** * Access to the memory *)

Lemma memOk_Len m : memOk m -> Len m < 2 ^ 40.
Proof. intros (w & Hw & El & _). rewrite El. change (2 ^ 40) with 1099511627776. lia. Qed.

(** An access in range, as the code computes it. *)
Lemma below_inMem m o n : memOk m -> wf o -> wf n -> below (Len m) (toZ o, toZ n) ->
  inMem m (U256.Uint64 o) (U256.Uint64 n) /\ inMem m (i64 (U256.Uint64 o)) (i64 (U256.Uint64 n)) /\ U256.Uint64 n = toZ n /\ small (toZ n).
Proof.
  intros Hm Ho Hn Hb. pose proof (memOk_Len m Hm) as HL. pose proof (toZ_range o Ho). pose proof (toZ_range n Hn). change (2 ^ 40) with 1099511627776 in HL.
  assert (forall x, wf x -> toZ x < 1099511627776 -> U256.Uint64 x = toZ x /\ i64 (U256.Uint64 x) = toZ x) as Hx.
  { intros x Hx Hlt. assert (U256.Uint64 x = toZ x) as -> by (unfold U256.Uint64; symmetry; apply toZ_IsUint64; [done|unfold B64; lia]). split; [done|]. pose proof (toZ_range x Hx). apply i64_small. change (2 ^ 63) with 9223372036854775808. lia. }
  unfold below in Hb. cbn [fst snd] in Hb. destruct (Hx n Hn) as [-> ->]; [lia|]. split_and!; [| |done|unfold small; change (2 ^ 60) with 1152921504606846976; lia].
  all: destruct Hb as [E|(H1 & H2 & H3)]; [by left|right; destruct (Hx o Ho) as [Eo1 Eo2]; [lia|]; rewrite ?Eo2, ?Eo1; lia].
Qed.

Section memory_access.
Context `{Crypto}.

Lemma memSet_ok o n v (Q : outcome unit -> World (Scope Abs) -> Prop) t e m st c p k : memOk m -> wf o -> wf n -> below (Len m) (toZ o, toZ n) ->
  (forall m', Len m' = Len m -> lastGasCost m' = lastGasCost m -> Q (Ok ()) (mkWorld t (mkScope e m' st c p k))) ->
  wp (memSet (U256.Uint64 o) (U256.Uint64 n) v) Q (mkWorld t (mkScope e m st c p k)).
Proof.
  intros Hm Ho Hn Hb HQ. destruct (below_inMem m o n Hm Ho Hn Hb) as (Hi & _). destruct (Set_ok m _ _ v Hi (memOk_Len m Hm)) as (m' & E & HL & Hg & _).
  unfold memSet. evm_steps. rewrite E. wp_norm. evm_steps. auto.
Qed.

Lemma memPtr_ok o n (Q : outcome (list byte) -> World (Scope Abs) -> Prop) t e m st c p k : memOk m -> wf o -> wf n -> below (Len m) (toZ o, toZ n) ->
  (forall d, small (len d) -> Q (Ok d) (mkWorld t (mkScope e m st c p k))) -> wp (memPtr o n) Q (mkWorld t (mkScope e m st c p k)).
Proof.
  intros Hm Ho Hn Hb HQ. destruct (below_inMem m o n Hm Ho Hn Hb) as (Hi' & Hi & E & Hs). destruct (GetPtr_ok m _ _ Hi (memOk_Len m Hm)) as (d & E1 & E2 & Hd & _).
  unfold memPtr. evm_steps. rewrite E1. apply HQ. rewrite Hd, E. rewrite i64_small; [done|]. unfold small in Hs. change (2 ^ 60) with 1152921504606846976 in Hs. change (2 ^ 63) with 9223372036854775808. lia.
Qed.
Lemma memCopy_ok o n (Q : outcome (list byte) -> World (Scope Abs) -> Prop) t e m st c p k : memOk m -> wf o -> wf n -> below (Len m) (toZ o, toZ n) ->
  (forall d, small (len d) -> Q (Ok d) (mkWorld t (mkScope e m st c p k))) -> wp (memCopy o n) Q (mkWorld t (mkScope e m st c p k)).
Proof.
  intros Hm Ho Hn Hb HQ. destruct (below_inMem m o n Hm Ho Hn Hb) as (Hi' & Hi & E & Hs). destruct (GetPtr_ok m _ _ Hi (memOk_Len m Hm)) as (d & E1 & E2 & Hd & _).
  unfold memCopy. evm_steps. rewrite E2. apply HQ. rewrite Hd, E. rewrite i64_small; [done|]. unfold small in Hs. change (2 ^ 60) with 1152921504606846976 in Hs. change (2 ^ 63) with 9223372036854775808. lia.
Qed.
End memory_access.

(** * Jumps *)

Section jumps.
Context `{Crypto} `{PrecompileLibs} (env : Env) (g : ghost) (r : Z).

Lemma frame_analysis P bits e m st c p n : frame env g P 0 r (mkScope e m st c p n) -> frame env g P 0 r (mkScope e m st (c <| analysis := Some bits |>) p n).
Proof. intros []. by split. Qed.
Lemma frame_jumpdests P h bits e m st c p n : frame env g P 0 r (mkScope e m st c p n) -> frame env g P 0 r (mkScope (e <| jumpdests ::= fun x => <[h := bits]> x |>) m st c p n).
Proof. intros []. split; try done. by destruct f_evm. Qed.

(** The analysis of the code does not fail; only the reading of one that was made for
    another code can panic. *)
Definition jumpPost P (st : Stack) (o : outcome bool) (w : World (Scope Abs)) : Prop :=
  match o with
  | Ok _ => frame env g P 0 r (w_st w) /\ sc_stack (w_st w) = st
  | Fail _ => False
  | Panic p => p = bitvecRange
  end.

Lemma codeSegment_ok P bits pos t sc : frame env g P 0 r sc -> wp (lift (codeSegment bits pos)) (jumpPost P (sc_stack sc)) (mkWorld t sc).
Proof. intros Hf. apply wp_lift. unfold codeSegment. by destruct (bits !! _). Qed.

Lemma isCode_ok P pos t sc : frame env g P 0 r sc -> wp (isCode pos) (jumpPost P (sc_stack sc)) (mkWorld t sc).
Proof.
  intros Hf. destruct sc as [e m st c p n]. unfold isCode. destruct (codeBitmap_spec (Code c)) as (bits & Eb & _).
  evm_step. destruct (analysis c) as [b|]; [by apply (codeSegment_ok P b)|]. wp_norm.
  eapply (wp_mono _ (fun o w => match o with Ok _ => frame env g P 0 r (w_st w) /\ sc_stack (w_st w) = st | _ => False end)).
  - destruct (negb (isZeroHash (CodeHash c))); [|evm_steps; by rewrite Eb]. evm_step. destruct (jumpdests e !! CodeHash c) as [b|]; [by evm_steps|].
    evm_step. rewrite Eb. wp_norm. evm_steps. split; [|done]. by apply frame_jumpdests.
  - intros [b|er|q] [t' [e' m' st' c' p' n']]; [|done..]. cbn [w_st sc_stack]. intros [Hf' ->]. wp_norm. evm_step. apply (codeSegment_ok P b). by apply frame_analysis.
Qed.

Lemma validJumpdest_ok P dest t sc : wf dest -> frame env g P 0 r sc -> wp (validJumpdest dest) (jumpPost P (sc_stack sc)) (mkWorld t sc).
Proof.
  intros Hd Hf. unfold validJumpdest. rewrite Uint64WithOverflow_spec by done. pose proof (Z.mod_pos_bound (toZ dest) B64 ltac:(done)). set (u := toZ dest mod B64) in *.
  evm_step. cbn [w_st]. evm_step; [by evm_steps|]. b2p. destruct (at_Z_in (Code (sc_contract sc)) u) as (b & Eb & _); [lia|]. evm_step. rewrite Eb. wp_norm. evm_step; [by evm_steps|by apply isCode_ok].
Qed.
End jumps.

(** * Instructions that only touch their frame *)

Ltac op_open Hf :=
  let Hw := fresh "Hwf" in let Hl := fresh "Hlen" in
  pose proof (f_wf _ _ _ _ _ _ Hf) as Hw; pose proof (f_stack _ _ _ _ _ _ Hf) as Hl; cbn [sc_stack] in Hw, Hl; unfold params.StackLimit, len in Hl; cbn [length] in Hl;
  rewrite ?Forall_cons in Hw; destruct_and? Hw.
Ltac op_stack := eapply opPost_stack; [eassumption|repeat first [eassumption | apply Forall_wf_cons]; eauto with words|unfold params.StackLimit, len in *; cbn [length] in *; lia].
(** The stack and the memory have changed. *)
Ltac op_local := split; [eapply frame_local; [eassumption|eassumption|unfold params.StackLimit, len in *; cbn [length] in *; lia|assumption|assumption|assumption]|apply small_0].

Section quiet.
Context `{Crypto} `{PrecompileLibs} (env : Env) (g : ghost) (r : Z) (Hmem : g_mem g <= 2 ^ 55).

Abbreviation R := (clearRefund env).
Abbreviation here v d ab cg ro rd jd m st c p n := (mkScope (mkEVM v d ab cg ro rd jd) m st c p n).

Lemma frame_memOk P sc : frame env g P 0 r sc -> memOk (sc_mem sc).
Proof. intros []. by rewrite Resize_0 in f_mem. Qed.

Lemma opPost_fail P size r' er e m m' st st' c p p' n n' t : frame env g P size r' (mkScope e m st c p n) -> opPost env g r (Fail er) (mkWorld t (mkScope e m' st' c p' n')).
Proof. intros Hf. apply frame_failed in Hf as []. by split. Qed.

Lemma getData_within b start size : small (len b) -> 0 <= start -> small size -> exists d, getData b start size = Ok d /\ len d = size.
Proof.
  unfold small. change (2 ^ 60) with 1152921504606846976. intros Hb Hs Hz. destruct (getData_ok b start size) as (d & E & Hd & _); change (2 ^ 63) with 9223372036854775808; [lia..|]. eauto.
Qed.

Lemma Uint64WithOverflow_range x u b : wf x -> U256.Uint64WithOverflow x = (u, b) -> is_u64 u /\ (b = false -> u = toZ x).
Proof.
  intros Hx. rewrite Uint64WithOverflow_spec by done. intros [= <- <-]. pose proof (toZ_range x Hx). split; [by apply Z.mod_pos_bound|]. intros E%Z.leb_gt. apply Z.mod_small. lia.
Qed.
Lemma offset64_nonneg x : wf x -> 0 <= offset64 x.
Proof. intros Hx. unfold offset64. destruct (U256.Uint64WithOverflow x) as [u b] eqn:E. destruct (Uint64WithOverflow_range x u b Hx E) as [Hu _]. unfold is_u64 in Hu. destruct b; lia. Qed.

Lemma opCallDataLoad_ok t e m x st c p n : frame env g (coreOk R) 0 r (mkScope e m (x :: st) c p n) -> wp opCallDataLoad (opPost env g r) (mkWorld t (mkScope e m (x :: st) c p n)).
Proof.
  intros Hf. op_open Hf. pose proof (f_input _ _ _ _ _ _ Hf) as Hi. unfold opCallDataLoad. do 3 evm_step. destruct (Uint64WithOverflow_range x z b) as [[Hu _] _]; [done|done|].
  destruct (getData_within (Input c) z 32) as (data & E & _); [done|done|by vm_compute|]. evm_step; [|by apply setPeek_ok; [apply wf_Clear|]]. evm_step. rewrite E. wp_norm. by apply topBytes_ok.
Qed.

(** The three copies into memory. *)
Lemma copy_ok data o n t e m st st' c p k : frame env g (coreOk R) 0 r (mkScope e m st c p k) -> Forall wf st' -> (length st' <= length st)%nat ->
  wf o -> wf n -> below (Len m) (toZ o, toZ n) ->
  wp (memSet (U256.Uint64 o) (U256.Uint64 n) data;; mret []) (opPost env g r) (mkWorld t (mkScope e m st' c p k)).
Proof.
  intros Hf Hst Hl Ho Hn Hb. op_open Hf. pose proof (frame_memOk _ _ Hf) as Hm; cbn [sc_mem] in Hm. pose proof (f_pc _ _ _ _ _ _ Hf) as Hp. wp_norm. apply memSet_ok; [done..|]. intros m' HL Hg. evm_steps. op_local.
Qed.

Lemma sized_small m o n : memOk m -> wf o -> wf n -> below (Len m) (toZ o, toZ n) -> small (U256.Uint64 n).
Proof. intros Hm Ho Hn Hb. by destruct (below_inMem m o n Hm Ho Hn Hb) as (_ & _ & -> & Hs). Qed.

Lemma opCallDataCopy_ok t e m o a n st c p k : frame env g (coreOk R) 0 r (mkScope e m (o :: a :: n :: st) c p k) -> below (Len m) (toZ o, toZ n) ->
  wp opCallDataCopy (opPost env g r) (mkWorld t (mkScope e m (o :: a :: n :: st) c p k)).
Proof.
  intros Hf Hb. op_open Hf. pose proof (f_input _ _ _ _ _ _ Hf) as Hi. pose proof (frame_memOk _ _ Hf) as Hm; cbn [sc_mem] in Hm. unfold opCallDataCopy. do 4 evm_step.
  pose proof (sized_small m o n).
  destruct (getData_within (Input c) (offset64 a) (U256.Uint64 n)) as (data & E & _); [done|by apply offset64_nonneg|auto|]. evm_step. rewrite E. eapply copy_ok; eauto. cbn. lia.
Qed.
Lemma opCodeCopy_ok t e m o a n st c p k : frame env g (coreOk R) 0 r (mkScope e m (o :: a :: n :: st) c p k) -> below (Len m) (toZ o, toZ n) ->
  wp opCodeCopy (opPost env g r) (mkWorld t (mkScope e m (o :: a :: n :: st) c p k)).
Proof.
  intros Hf Hb. op_open Hf. pose proof (f_code _ _ _ _ _ _ Hf) as Hi. pose proof (frame_memOk _ _ Hf) as Hm; cbn [sc_mem] in Hm. unfold opCodeCopy. do 4 evm_step.
  pose proof (sized_small m o n).
  destruct (getData_within (Code c) (offset64 a) (U256.Uint64 n)) as (data & E & _); [done|by apply offset64_nonneg|auto|]. evm_step. rewrite E. eapply copy_ok; eauto. cbn. lia.
Qed.
Lemma opExtCodeCopy_ok t v d ab cg ro rd jd m x o a n st c p k : frame env g (coreOk R) 0 r (here v d ab cg ro rd jd m (x :: o :: a :: n :: st) c p k) -> below (Len m) (toZ o, toZ n) ->
  wp opExtCodeCopy (opPost env g r) (mkWorld t (here v d ab cg ro rd jd m (x :: o :: a :: n :: st) c p k)).
Proof.
  intros Hf Hb. op_open Hf. pose proof (f_core _ _ _ _ _ _ Hf) as Hc. pose proof (frame_memOk _ _ Hf) as Hm; cbn [sc_mem] in Hm. unfold opExtCodeCopy. do 5 evm_step.
  pose proof (sized_small m o n).
  destruct (getData_within (codeOf (v_core v) (toAddress x)) (offset64 a) (U256.Uint64 n)) as (data & E & _); [by eapply codeOf_small|by apply offset64_nonneg|auto|]. evm_step. rewrite E. eapply copy_ok; eauto. cbn. lia.
Qed.
Lemma opReturnDataCopy_ok t e m o a n st c p k : frame env g (coreOk R) 0 r (mkScope e m (o :: a :: n :: st) c p k) -> below (Len m) (toZ o, toZ n) ->
  wp opReturnDataCopy (opPost env g r) (mkWorld t (mkScope e m (o :: a :: n :: st) c p k)).
Proof.
  intros Hf Hb. op_open Hf. pose proof (frame_memOk _ _ Hf) as Hm; cbn [sc_mem] in Hm. unfold opReturnDataCopy. do 4 evm_step. evm_step; [by eapply opPost_fail|].
  evm_step. evm_step. evm_step; [by eapply opPost_fail|]. b2p. subst. destruct (Uint64WithOverflow_range a z false) as [Hz1 Hz2]; [done|done|]. specialize (Hz2 eq_refl).
  destruct (Add_is256 a n) as [Hw Ew]; [done|done|]. destruct (Uint64WithOverflow_range _ z0 false Hw Heqp1) as [_ Hz0]. rewrite Ew in Hz0. specialize (Hz0 eq_refl).
  destruct (below_inMem m o n) as (_ & _ & _ & Hs); [done..|]. unfold small, is_u64 in *. change (2 ^ 60) with 1152921504606846976 in Hs. change (2 ^ 64) with 18446744073709551616 in Hz1.
  rewrite Z.mod_small in Hz0 by (unfold M256; lia). evm_step. rewrite slice_ok by lia. eapply copy_ok; eauto. cbn. lia.
Qed.

(** ** Memory *)

Lemma below_word m o k : memOk m -> wf o -> 0 < k -> below (Len m) (toZ o, k) -> U256.Uint64 o = toZ o /\ i64 (U256.Uint64 o) = toZ o /\ 0 <= toZ o /\ toZ o + k <= Len m.
Proof.
  intros Hm Ho Hk Hb. pose proof (memOk_Len m Hm) as HL. pose proof (toZ_range o Ho). unfold below in Hb. cbn [fst snd] in Hb. change (2 ^ 40) with 1099511627776 in HL.
  assert (U256.Uint64 o = toZ o) as -> by (unfold U256.Uint64; symmetry; apply toZ_IsUint64; [done|unfold B64; lia]). split_and!; [done| |lia|lia]. apply i64_small. change (2 ^ 63) with 9223372036854775808. lia.
Qed.

Lemma opMload_ok t e m o st c p k : frame env g (coreOk R) 0 r (mkScope e m (o :: st) c p k) -> below (Len m) (toZ o, 32) -> wp opMload (opPost env g r) (mkWorld t (mkScope e m (o :: st) c p k)).
Proof.
  intros Hf Hb. op_open Hf. pose proof (frame_memOk _ _ Hf) as Hm; cbn [sc_mem] in Hm. destruct (below_word m o 32 Hm ltac:(done) ltac:(done) Hb) as (Eo & Ei & H1' & H2').
  destruct (GetPtr_ok m (toZ o) 32) as (b & E & _); [right; lia|by apply memOk_Len|]. unfold opMload. do 3 evm_step. rewrite Ei, E. wp_norm. by apply topBytes_ok.
Qed.

Lemma opMstore_ok t e m o v st c p k : frame env g (coreOk R) 0 r (mkScope e m (o :: v :: st) c p k) -> below (Len m) (toZ o, 32) -> wp opMstore (opPost env g r) (mkWorld t (mkScope e m (o :: v :: st) c p k)).
Proof.
  intros Hf Hb. op_open Hf. pose proof (frame_memOk _ _ Hf) as Hm; cbn [sc_mem] in Hm. pose proof (f_pc _ _ _ _ _ _ Hf) as Hp. destruct (below_word m o 32 Hm ltac:(done) ltac:(done) Hb) as (Eo & Ei & H1' & H2').
  destruct (Set32_ok m (toZ o) v) as (m' & E & HL' & Hg & _); [done|lia|lia|by apply memOk_Len|]. unfold opMstore. do 4 evm_step. rewrite Eo, E. wp_norm. evm_steps. op_local.
Qed.

Lemma opMstore8_ok t e m o v st c p k : frame env g (coreOk R) 0 r (mkScope e m (o :: v :: st) c p k) -> below (Len m) (toZ o, 1) -> wp opMstore8 (opPost env g r) (mkWorld t (mkScope e m (o :: v :: st) c p k)).
Proof.
  intros Hf Hb. op_open Hf. pose proof (frame_memOk _ _ Hf) as Hm; cbn [sc_mem] in Hm. pose proof (f_pc _ _ _ _ _ _ Hf) as Hp. destruct (below_word m o 1 Hm ltac:(done) ltac:(done) Hb) as (Eo & Ei & H1' & H2').
  unfold opMstore8. do 4 evm_step. rewrite Eo, setAt_in by (unfold Len in *; lia). wp_norm. set (m' := m <| store := _ |>).
  assert (Len m' = Len m) by (unfold m', Len, len; unfold upd, set_store; cbn; by rewrite length_insert). assert (lastGasCost m' = lastGasCost m) by done. clearbody m'. evm_steps. op_local.
Qed.

Lemma opReturn_ok t e m o n st c p k : frame env g (coreOk R) 0 r (mkScope e m (o :: n :: st) c p k) -> below (Len m) (toZ o, toZ n) -> wp opReturn (opPost env g r) (mkWorld t (mkScope e m (o :: n :: st) c p k)).
Proof.
  intros Hf Hb. op_open Hf. pose proof (frame_memOk _ _ Hf) as Hm; cbn [sc_mem] in Hm. pose proof (f_pc _ _ _ _ _ _ Hf) as Hp. unfold opReturn. do 2 evm_step. apply memPtr_ok; [done..|]. intros data Hd. split; [|done].
  eapply frame_local; try done. unfold len, params.StackLimit. lia.
Qed.

Lemma opSha3_ok t v d ab cg ro rd jd m o n st c p k : frame env g (coreOk R) 0 r (here v d ab cg ro rd jd m (o :: n :: st) c p k) -> below (Len m) (toZ o, toZ n) ->
  wp (opSha3 env) (opPost env g r) (mkWorld t (here v d ab cg ro rd jd m (o :: n :: st) c p k)).
Proof.
  intros Hf Hb. op_open Hf. pose proof (frame_memOk _ _ Hf) as Hm; cbn [sc_mem] in Hm. pose proof (f_pc _ _ _ _ _ _ Hf) as Hp. pose proof (f_core _ _ _ _ _ _ Hf) as Hc. unfold opSha3. do 2 evm_step. apply memPtr_ok; [done..|]. intros data Hd. wp_norm.
  assert (frame env g (coreOk R) 0 r (here v d ab cg ro rd jd m (n :: st) c p k)) as Hf' by (eapply frame_local; try done; [by constructor|unfold len, params.StackLimit; cbn; lia]).
  evm_step; [|by apply topBytes_ok]. evm_step. apply topBytes_ok. eapply frame_state; [exact Hf'|done|done| | |cbn; lia|done]; [by split_and!|]. by apply (coreOk_same R (v_core v)).
Qed.

(** ** Control *)

Lemma is_u64_Uint64 x : wf x -> is_u64 (U256.Uint64 x).
Proof. by intros (H0' & _). Qed.

(** A jump, once the destination is off the stack. *)
Lemma jump_ok pos t e m st st' c p k : frame env g (coreOk R) 0 r (mkScope e m st c p k) -> Forall wf st' -> (length st' <= length st)%nat -> wf pos ->
  wp (ok ← validJumpdest pos; fail_if (negb ok) ErrInvalidJump;; setPc (U256.Uint64 pos);; mret []) (opPost env g r) (mkWorld t (mkScope e m st' c p k)).
Proof.
  intros Hf Hst Hl Hpos. op_open Hf. assert (frame env g (coreOk R) 0 r (mkScope e m st' c p k)) as Hf'.
  { eapply frame_local; try done; [unfold len, params.StackLimit; lia|by destruct Hf]. }
  wp_norm. eapply wp_mono; [by apply (validJumpdest_ok env g r)|]. intros [ok|er|q] [t' [e' m' st1 c' p' k']] Hp; [|done..]. destruct Hp as [Hf1 Es]. cbn in Es. subst st1. wp_norm. cbn [w_st] in Hf1.
  evm_step; [by eapply opPost_fail|]. unfold setPc. evm_steps. split; [|apply small_0]. eapply frame_local; [exact Hf1|done|unfold len, params.StackLimit; lia|done|done|by apply is_u64_Uint64].
Qed.

Lemma opJump_ok t e m x st c p k : frame env g (coreOk R) 0 r (mkScope e m (x :: st) c p k) -> wp opJump (opPost env g r) (mkWorld t (mkScope e m (x :: st) c p k)).
Proof. intros Hf. op_open Hf. unfold opJump. evm_step. apply wp_bind_inv. eapply jump_ok; try done. cbn. lia. Qed.

Lemma opJumpi_ok t e m x y st c p k : frame env g (coreOk R) 0 r (mkScope e m (x :: y :: st) c p k) -> wp opJumpi (opPost env g r) (mkWorld t (mkScope e m (x :: y :: st) c p k)).
Proof.
  intros Hf. op_open Hf. unfold opJumpi. do 2 evm_step. destruct (negb (U256.IsZero y)); [eapply jump_ok; try done; cbn; lia|]. unfold setPc. evm_steps. split; [|apply small_0].
  eapply frame_local; [exact Hf|done|unfold len, params.StackLimit; lia|done|done|apply u64_range].
Qed.

Lemma opPush1_ok t e m st c p k : frame env g (coreOk R) 0 r (mkScope e m st c p k) -> (length st < 1024)%nat -> wp opPush1 (opPost env g r) (mkWorld t (mkScope e m st c p k)).
Proof.
  intros Hf Hk. op_open Hf. unfold opPush1, setPc. do 3 evm_step. pose proof (u64_range (p + 1)) as Hu. assert (frame env g (coreOk R) 0 r (mkScope e m st c (u64 (p + 1)) k)) as Hf' by (by eapply frame_local).
  evm_step; [|by apply pushInt_ok; [apply wf_Clear| |]]. b2p. destruct (at_Z_in (Code c) (u64 (p + 1))) as (b & E & _); [unfold is_u64 in Hu; lia|]. evm_step. rewrite E. wp_norm.
  apply pushInt_ok; [|done|done]. apply wf_SetUint64. unfold is_u64. pose proof (Zb_range b). change (2 ^ 64) with 18446744073709551616. lia.
Qed.

Lemma makePush_ok size t e m st c p k : frame env g (coreOk R) 0 r (mkScope e m st c p k) -> (length st < 1024)%nat -> 1 <= size <= 32 -> p < len (Code c) ->
  wp (makePush size size) (opPost env g r) (mkWorld t (mkScope e m st c p k)).
Proof.
  intros Hf Hk Hs Hp. op_open Hf. pose proof (f_pc _ _ _ _ _ _ Hf) as Hp0. pose proof (f_code _ _ _ _ _ _ Hf) as Hc. cbn [sc_pc sc_contract] in *. unfold is_u64, small in *. change (2 ^ 60) with 1152921504606846976 in *.
  unfold makePush, setPc. do 2 evm_step. rewrite u64_small, i64_small by (unfold is_u64; change (2 ^ 64) with 18446744073709551616; change (2 ^ 63) with 9223372036854775808; lia).
  assert (forall x y, (if Z.ltb x y then x else y) = Z.min x y) as Hmin by (intros x y; destruct (Z.ltb_spec x y); lia). rewrite !Hmin.
  set (a := Z.min (p + 1) _). set (b := Z.min (a + size) _). assert (0 <= a <= b /\ b <= len (Code c)) as [Ha Hb] by lia.
  destruct (SetBytes_spec (RightPadBytes (take (Z.to_nat (b - a)) (drop (Z.to_nat a) (Code c))) size)) as (x & E & Hx & _).
  evm_step. rewrite slice_ok by lia. wp_norm. evm_step. rewrite E. wp_norm. evm_steps. split; [|apply small_0].
  eapply frame_local; [exact Hf|by constructor|unfold len, params.StackLimit; cbn; lia|done|done|apply u64_range].
Qed.

Lemma makeDup_ok j t e m st c p k : frame env g (coreOk R) 0 r (mkScope e m st c p k) -> (1 <= j <= length st)%nat -> (length st < 1024)%nat -> wp (makeDup j) (opPost env g r) (mkWorld t (mkScope e m st c p k)).
Proof.
  intros Hf Hj Hk. op_open Hf. destruct (frame_back _ _ _ _ _ _ (j - 1)%nat Hf) as (x & Ex & Hx); [cbn; lia|]. cbn in Ex. unfold makeDup, dup, Back. evm_steps. rewrite Ex. wp_norm. cbn. evm_steps. op_stack.
Qed.

Lemma makeSwap_ok j t e m st c p k : frame env g (coreOk R) 0 r (mkScope e m st c p k) -> (j + 1 <= length st)%nat -> wp (makeSwap j) (opPost env g r) (mkWorld t (mkScope e m st c p k)).
Proof.
  intros Hf Hj. op_open Hf. destruct (frame_back _ _ _ _ _ _ j Hf) as (x & Ex & Hx); [cbn; lia|]. destruct (frame_back _ _ _ _ _ _ 0%nat Hf) as (y & Ey & Hy); [cbn; lia|]. cbn [sc_stack] in *.
  unfold makeSwap, swap, Back. replace (j + 1 - 1)%nat with j by lia. evm_steps. rewrite Ey, Ex. cbn [mbind outcome_bind]. wp_norm. evm_steps.
  eapply opPost_stack; [exact Hf|by repeat apply Forall_insert|]. unfold len, params.StackLimit. rewrite !length_insert. lia.
Qed.
End quiet.

(** * All of them *)

(** Instructions that neither write to the state nor call. *)
Definition quiet (f : executionFunc) : bool :=
  match f with
  | X_opSstore | X_makeLog _ | X_opSuicide | X_opCreate | X_opCreate2 | X_opCall | X_opCallCode | X_opDelegateCall | X_opStaticCall => false
  | _ => true
  end.

(** What an instruction finds: its words and its room on the stack, its memory, and a
    program counter in the code. *)
Record ready (f : executionFunc) (sc : Scope Abs) : Prop := mkReady {
  rd_words : (fst (arity f) <= length (sc_stack sc))%nat;
  rd_room : (length (sc_stack sc) + snd (arity f) <= 1024 + fst (arity f))%nat;
  rd_mem : Forall (below (Len (sc_mem sc))) (accesses f (sc_stack sc));
  rd_pc : f = X_opStop \/ sc_pc sc < len (Code (sc_contract sc));
}.

Ltac quiet_open :=
  unfold opAdd, opSub, opMul, opDiv, opSdiv, opMod, opSmod, opExp, opSignExtend, opNot, opLt, opGt, opSlt, opSgt, opEq, opIszero, opAnd, opOr, opXor, opByte, opAddmod, opMulmod, opSHL, opSHR, opSAR,
    opAddress, opBalance, opOrigin, opCaller, opCallValue, opCallDataSize, opReturnDataSize, opExtCodeSize, opCodeSize, opExtCodeHash, opGasprice, opBlockhash, opCoinbase, opTimestamp, opNumber,
    opDifficulty, opGasLimit, opPop, opSload, opJumpdest, opPc, opMsize, opGas, opSelfBalance, opChainID, opBaseFee, opStop.
Ltac quiet_word := intros; repeat match goal with |- wf (if ?b then _ else _) => destruct b end; eauto with words.
(** A step of an instruction; the instructions with a lemma of their own are done by it. *)
Ltac quiet_step := wp_norm;
  lazymatch goal with
  | |- wp (top1 _) _ _ => apply top1_ok; [intros ? ?; quiet_word|assumption]
  | |- wp (top2 (fun _ _ => Ok _)) _ _ => apply top2_ok; [apply total2_pure; quiet_word|assumption]
  | |- wp (top2 _) _ _ => apply top2_ok; [auto with words|assumption]
  | |- wp (top3 _) _ _ => apply top3_ok; [auto with words|assumption]
  | |- wp (pushInt _) _ _ => apply pushInt_ok; [quiet_word|assumption|lia]
  | |- wp (pushBytes _) _ _ => apply pushBytes_ok; [assumption|lia]
  | |- wp (topBytes _) _ _ => by apply topBytes_ok
  | |- wp (setPeekS _) _ _ => apply wp_bind_inv, setPeek_ok; [quiet_word|assumption]
  | |- wp _ _ _ => evm_step
  end.

Section quiet_all.
Context `{Crypto} `{PrecompileLibs} (env : Env) (He : envOk env) (g : ghost) (r : Z) (Hmem : g_mem g <= 2 ^ 55).
Context (run : Contract -> list byte -> bool -> M (EVM Abs) runResult).

Lemma quiet_ok f t sc : quiet f = true -> sizesOk f = true -> frame env g (coreOk (clearRefund env)) 0 r sc -> ready f sc -> wp (runOp env run f) (opPost env g r) (mkWorld t sc).
Proof.
  intros Hq Hs Hf [Hk Hroom Ha Hpc]. destruct sc as [[v d ab cg ro rd jd] m st c p n]. cbn [sc_stack sc_mem sc_pc sc_contract] in *.
  pose proof (f_core _ _ _ _ _ _ Hf) as Hcore. pose proof (f_code _ _ _ _ _ _ Hf) as Hcode. pose proof (f_input _ _ _ _ _ _ Hf) as Hinput. pose proof (f_pc _ _ _ _ _ _ Hf) as Hp.
  pose proof (ei_ret _ _ (f_evm _ _ _ _ _ _ Hf)) as Hret. pose proof (f_gas _ _ _ _ _ _ Hf) as Hgas. cbn [sc_evm e_db sc_contract returnData sc_pc] in *.
  pose proof (memOk_Len m ltac:(by eapply (frame_memOk env g r _ _ Hf))) as HL.
  destruct f; try discriminate Hq; cbn [arity fst snd] in Hk, Hroom.
  all: try (repeat (destruct st as [|? st]; [cbn in Hk; exfalso; lia|]; cbn [length] in Hk, Hroom; apply le_S_n in Hk)).
  all: cbn [runOp]; quiet_open; repeat quiet_step; cbn [accesses] in Ha.
  all: lazymatch goal with
    | |- wf (U256.SetUint64 (Gas _)) => apply wf_SetUint64; unfold is_u64; lia
    | |- wf (U256.SetUint64 (Len _)) => apply wf_SetUint64; unfold is_u64; change (2 ^ 40) with 1099511627776 in *; unfold Len, len in *; lia
    | |- wf (U256.SetUint64 (GasLimit _)) => apply wf_SetUint64, (eo_gasLimit env He)
    | |- wf (U256.SetUint64 (len (codeOf _ _))) => apply wf_SetUint64_small; by eapply codeOf_small
    | |- wp opCallDataCopy _ _ => apply opCallDataCopy_ok; [done|by apply Forall_inv in Ha]
    | |- wp opCodeCopy _ _ => apply opCodeCopy_ok; [done|by apply Forall_inv in Ha]
    | |- wp opExtCodeCopy _ _ => apply opExtCodeCopy_ok; [done|by apply Forall_inv in Ha]
    | |- wp opReturnDataCopy _ _ => apply opReturnDataCopy_ok; [done|by apply Forall_inv in Ha]
    | |- wp opCallDataLoad _ _ => by apply opCallDataLoad_ok
    | |- wp opMload _ _ => apply opMload_ok; [done|by apply Forall_inv in Ha]
    | |- wp opMstore _ _ => apply opMstore_ok; [done|by apply Forall_inv in Ha]
    | |- wp opMstore8 _ _ => apply opMstore8_ok; [done|by apply Forall_inv in Ha]
    | |- wp opReturn _ _ => apply opReturn_ok; [done|by apply Forall_inv in Ha]
    | |- wp opRevert _ _ => apply opReturn_ok; [done|by apply Forall_inv in Ha]
    | |- wp (opSha3 _) _ _ => apply opSha3_ok; [done|by apply Forall_inv in Ha]
    | |- wp opJump _ _ => by apply opJump_ok
    | |- wp opJumpi _ _ => by apply opJumpi_ok
    | |- wp opPush1 _ _ => apply opPush1_ok; [done|lia]
    | |- wp (makePush _ _) _ _ => cbn in Hs; b2p; subst; apply makePush_ok; [done|lia|lia|by destruct Hpc]
    | |- wp (makeDup _) _ _ => apply andb_prop in Hs as [H1%Nat.leb_le H2%Nat.leb_le]; apply makeDup_ok; [done|lia|lia]
    | |- wp (makeSwap _) _ _ => apply makeSwap_ok; [done|lia]
    | |- opPost _ _ _ (Ok []) _ => op_open Hf; op_stack
    end.
Qed.
End quiet_all.
