(* ===== verification/EvmWrite.v ===== *)
(** The instructions of the EVM that write to the state.

    SSTORE, LOG and SELFDESTRUCT keep a frame in order when it may write. *)

From S2P Require Import Prelude Common Rlp RlpEnc Uint256 Uint256Spec Uint256Div Uint256Conv StateSpec EvmBase EvmTable EvmPre Evm EvmInv EvmGas EvmOps EvmExec.
From Stdlib Require Import Strings.Byte.
#[local] Open Scope Z_scope.

(** * Writes *)

Section writes.
Context `{Crypto} `{PrecompileLibs} (env : Env) (g : ghost) (r : Z) (Hstatic : static env g = false).

Abbreviation R := (clearRefund env).
Abbreviation here v d ab cg ro rd jd m st c p n := (mkScope (mkEVM v d ab cg ro rd jd) m st c p n).

Lemma frame_write (P P' : core -> Prop) f v d ab cg ro rd jd m st c p n : frame env g P 0 r (here v d ab cg ro rd jd m st c p n) ->
  k_addresses (f (v_core v)) = k_addresses (v_core v) -> k_refund (f (v_core v)) = k_refund (v_core v) -> totalBalance (f (v_core v)) <= totalBalance (v_core v) -> P' (f (v_core v)) ->
  frame env g P' 0 r (here (v <| v_core ::= f |>) d ab cg ro rd jd m st c p n).
Proof.
  intros [] Ea Er Ht HP. split; try done; cbn in *.
  - destruct f_evm. by split.
  - etrans; [exact f_grows|]. apply grows_core; [by rewrite Ea|done|]. by rewrite Hstatic.
  - rewrite Ea. auto.
  - by rewrite Er.
Qed.

Lemma opSstore_ok t sc : frame env g (coreAt env X_opSstore sc) 0 r sc -> (2 <= length (sc_stack sc))%nat -> wp opSstore (opPost env g r) (mkWorld t sc).
Proof.
  intros Hf Hk. destruct sc as [[v d ab cg ro rd jd] m [|x [|y st]] c p n]; [cbn in Hk; lia..|]. op_open Hf. unfold opSstore. do 4 evm_step. evm_step. split; [|apply small_0].
  eapply frame_local; [eapply (frame_write _ (coreOk R)); [exact Hf|done|done|by rewrite total_SetState|]|done|unfold len, params.StackLimit; lia|done|done|by destruct Hf].
  exact (f_core _ _ _ _ _ _ Hf).
Qed.

Lemma wp_Suicide a (Q : outcome bool -> World (Scope Abs) -> Prop) t v d ab cg ro rd jd m st c p n :
  Q (Ok (existsIn (v_core v) a)) (mkWorld t (here (v <| v_core ::= k_Suicide a |>) d ab cg ro rd jd m st c p n)) -> wp (db (Suicide a)) Q (mkWorld t (here v d ab cg ro rd jd m st c p n)).
Proof. auto. Qed.
Lemma wp_AddLog l (Q : outcome unit -> World (Scope Abs) -> Prop) t v d ab cg ro rd jd m st c p n :
  (forall f, (forall k, k_accounts (f k) = k_accounts k /\ k_addresses (f k) = k_addresses k /\ k_refund (f k) = k_refund k) -> Q (Ok ()) (mkWorld t (here (v <| v_core ::= f |>) d ab cg ro rd jd m st c p n))) ->
  wp (db (AddLog l)) Q (mkWorld t (here v d ab cg ro rd jd m st c p n)).
Proof.
  intros HQ. unfold db, onEVM, onDB. apply wp_zoom, wp_zoom. unfold wp, AddLog, AbsStateDB, runAbs, v_AddLog, StateSpec.writes. cbn [w_st w_tick sc_evm e_db]. apply HQ. by intros k.
Qed.

Lemma refund_Suicide a k : k_refund (k_Suicide a k) = k_refund k.
Proof. unfold k_Suicide. by destruct (k_accounts k !! a). Qed.
Lemma addresses_Suicide a k : k_addresses (k_Suicide a k) = k_addresses k.
Proof. unfold k_Suicide. by destruct (k_accounts k !! a). Qed.
Lemma balanceOf_AddBalance a n k b : 0 <= n -> balanceOf k b <= balanceOf (k_AddBalance a n k) b.
Proof.
  intros Hn. rewrite !balanceOf_orNew. cbn. destruct (decide (a = b)) as [<-|Hne]; [rewrite lookup_insert_eq; cbn; lia|by rewrite lookup_insert_ne].
Qed.

Lemma opSuicide_ok t sc : frame env g (coreOk R) 0 r sc -> (1 <= length (sc_stack sc))%nat -> wp opSuicide (opPost env g r) (mkWorld t sc).
Proof.
  intros Hf Hk. destruct sc as [[v d ab cg ro rd jd] m [|x st] c p n]; [cbn in Hk; lia..|]. op_open Hf. pose proof (f_core _ _ _ _ _ _ Hf) as Hcore. cbn in Hcore. unfold opSuicide. do 4 evm_step.
  apply wp_Suicide. wp_norm. evm_steps. split; [|apply small_0]. set (b := balanceOf (v_core v) (self c)). assert (0 <= b) as Hb by (by eapply balanceOf_nonneg).
  eapply frame_local; [|done|unfold len, params.StackLimit; lia|done|done|by destruct Hf].
  refine (frame_write (coreOk R) (coreOk R) (fun k => k_Suicide (self c) (k_AddBalance (toAddress x) b k)) v d ab cg ro rd jd m (x :: st) c p n Hf _ _ _ _); [by rewrite addresses_Suicide|by rewrite refund_Suicide| |].
  - rewrite total_Suicide, total_AddBalance. pose proof (balanceOf_AddBalance (toAddress x) b (v_core v) (self c) Hb). lia.
  - by apply coreOk_Suicide, coreOk_AddBalance.
Qed.

Lemma popTopics_ok l (Q : outcome (list Hash) -> World (Scope Abs) -> Prop) t e m st c p n : Q (Ok (map toHash l)) (mkWorld t (mkScope e m st c p n)) ->
  wp (popTopics (length l)) Q (mkWorld t (mkScope e m (l ++ st) c p n)).
Proof.
  revert Q. induction l as [|x l IH]; intros Q HQ; cbn [length popTopics map app]; [by apply wp_ret|]. evm_step. apply IH. wp_norm. by apply wp_ret.
Qed.

Lemma makeLog_ok j t sc : frame env g (coreOk R) 0 r sc -> ready (X_makeLog j) sc -> wp (makeLog env j) (opPost env g r) (mkWorld t sc).
Proof.
  intros Hf [Hk _ Ha _]. destruct sc as [[v d ab cg ro rd jd] m [|o [|k st]] c p n]; [cbn in Hk; lia..|]. op_open Hf. pose proof (frame_memOk _ _ _ _ _ Hf) as Hm. cbn [sc_mem sc_stack accesses arity fst length] in *. apply Forall_inv in Ha.
  unfold makeLog. do 2 evm_step. rewrite <- (take_drop j st). rewrite <- (length_take_le st j) at 1 by lia. apply popTopics_ok. wp_norm. apply memCopy_ok; [done..|]. intros data _. wp_norm. evm_step.
  apply wp_AddLog. intros f Hl. wp_norm. evm_steps. split; [|apply small_0]. destruct (Hl (v_core v)) as (E1 & E2 & E3).
  eapply frame_local; [eapply (frame_write _ (coreOk R)); [exact Hf|done|done|by unfold totalBalance; rewrite E1|]|by apply Forall_drop|unfold len, params.StackLimit; rewrite length_drop; lia|done|done|by destruct Hf].
  apply (coreOk_same R (v_core v)); [exact (f_core _ _ _ _ _ _ Hf)|done|by rewrite E3].
Qed.
End writes.
