(* ===== verification/EvmCalls.v ===== *)
(** Calls and creations keep the state in order.

    A call that ends with an error leaves the state as it was, except for what a creation
    does before its snapshot; one that succeeds gives back no more gas than it got, in
    the shape that the caller's frame needs.  What is assumed of the interpreter is
    [runSpec], for contracts with less gas than a bound; EvmRun proves it. *)

From S2P Require Import Prelude Common Rlp RlpEnc Uint256 Uint256Spec Uint256Div Uint256Conv StateSpec EvmBase EvmTable EvmPre Evm EvmInv EvmGas EvmOps EvmExec EvmWrite.
From Stdlib Require Import Strings.Byte.
#[local] Open Scope Z_scope.

(** * Rules *)

Section rules.
Context `{Crypto}.

Lemma wp_onDB_reads {A} (f : core -> A) (Q : outcome A -> World (EVM Abs) -> Prop) t v d ab cg ro rd jd :
  Q (Ok (f (v_core v))) (mkWorld t (mkEVM v d ab cg ro rd jd)) -> wp (onDB (runAbs (reads f))) Q (mkWorld t (mkEVM v d ab cg ro rd jd)).
Proof. auto. Qed.
Lemma wp_onDB_writes f (Q : outcome unit -> World (EVM Abs) -> Prop) t v d ab cg ro rd jd :
  Q (Ok ()) (mkWorld t (mkEVM (v <| v_core ::= f |>) d ab cg ro rd jd)) -> wp (onDB (runAbs (StateSpec.writes f))) Q (mkWorld t (mkEVM v d ab cg ro rd jd)).
Proof. auto. Qed.
Lemma wp_onDB_Snapshot (Q : outcome Z -> World (EVM Abs) -> Prop) t v d ab cg ro rd jd :
  Q (Ok (v_next v)) (mkWorld t (mkEVM (snapped v) d ab cg ro rd jd)) -> wp (onDB Snapshot) Q (mkWorld t (mkEVM v d ab cg ro rd jd)).
Proof. auto. Qed.
(** Back to a snapshot that is still there. *)
Lemma wp_onDB_Revert v0 (Q : outcome unit -> World (EVM Abs) -> Prop) t v d ab cg ro rd jd : stays (snapped v0) v ->
  (forall v', v_core v' = v_core v0 -> stays v0 v' -> Q (Ok ()) (mkWorld t (mkEVM v' d ab cg ro rd jd))) ->
  wp (onDB (RevertToSnapshot (v_next v0))) Q (mkWorld t (mkEVM v d ab cg ro rd jd)).
Proof.
  intros Hs HQ. destruct (revert_snapped v0 v Hs) as (v' & E & Hc & Hst). unfold onDB. apply wp_zoom. unfold wp, RevertToSnapshot, AbsStateDB, runAbs. cbn [w_st w_tick e_db]. rewrite E. by apply HQ.
Qed.
End rules.

Ltac call_prim :=
  lazymatch goal with
  | |- wp (onDB Snapshot) _ _ => apply wp_onDB_Snapshot
  | |- wp (onDB _) _ _ => first [apply wp_onDB_reads | apply wp_onDB_writes]; cbv beta
  | |- wp (gets _) _ _ => apply wp_gets; cbn [w_st depth abort callGasTemp readOnly returnData jumpdests]
  | _ => wp_prim
  end.
Ltac call_step := wp_norm; call_prim; wp_norm.
Ltac call_steps := repeat call_step.

(** * The balance of a transfer *)

Section transfer.
Context `{Crypto}.

Lemma balanceOf_CreateAccount a k b : balanceOf (k_CreateAccount a k) b = balanceOf k b.
Proof. unfold balanceOf at 1. cbn. destruct (decide (a = b)) as [<-|Hne]; [by rewrite lookup_insert_eq|by rewrite lookup_insert_ne]. Qed.

Lemma transfer_ok R a b n k : 0 <= R -> coreOk R k -> 0 <= n <= balanceOf k a -> let k' := k_AddBalance b n (k_SubBalance a n k) in
  coreOk R k' /\ totalBalance k' = totalBalance k /\ k_addresses k' = k_addresses k /\ k_refund k' = k_refund k /\ (n = 0 -> staticEq k k').
Proof.
  intros HR Hk Hn k'. split_and!; [|by unfold k'; rewrite total_AddBalance, total_SubBalance; lia|done|done|].
  - apply coreOk_AddBalance; [apply coreOk_SubBalance; [done|lia]|lia].
  - intros E. unfold k'. rewrite E. etrans; [apply staticEq_SubBalance|apply staticEq_AddBalance].
Qed.
End transfer.

(** * Calls *)

Definition credit (k : core) (gas : Z) : Z := k_refund k + refundRate * gas.

Section calls.
Context `{Crypto} `{PrecompileLibs} (env : Env) (He : envOk env).

Abbreviation R := (clearRefund env).
Abbreviation byz := (IsByzantium (chainRules env)).

Record callable (e : EVM Abs) (gas : Z) : Prop := mkCallable {
  ca_core : coreOk R (v_core (e_db e));
  ca_gas : 0 <= gas <= 2 ^ 55;
  ca_credit : credit (v_core (e_db e)) gas <= creditLimit;
  ca_ret : small (len (returnData e));
}.

(** The flags are as before. *)
Record sameFlags (e e' : EVM Abs) : Prop := mkSameFlags {
  sf_depth : depth e' = depth e;
  sf_abort : abort e' = abort e;
  sf_ro : readOnly e' = readOnly e;
  sf_ret : small (len (returnData e'));
}.

(** The state from [e] to [e'], when what was started with [gas] ends with [gas'] and
    without an error; [static] says that nothing may have been written. *)
Record settled (static : bool) (e e' : EVM Abs) (gas gas' : Z) : Prop := mkSettled {
  se_core : coreOk R (v_core (e_db e'));
  se_grows : grows static (e_db e) (e_db e');
  se_credit : credit (v_core (e_db e')) gas' <= credit (v_core (e_db e)) gas;
}.

(** A run of the interpreter. *)
Definition runPost (static : bool) (e : EVM Abs) (gas : Z) (o : outcome runResult) (w : World (EVM Abs)) : Prop :=
  match o with
  | Ok (ret, err, gas') => sameFlags e (w_st w) /\ 0 <= gas' <= gas /\ small (len ret) /\
      match err with None => settled static e (w_st w) gas gas' | Some _ => stays (e_db e) (e_db (w_st w)) end
  | Fail _ => False
  | Panic p => p = bitvecRange
  end.
Definition runSpec (bound : Z) (run : Contract -> list byte -> bool -> M (EVM Abs) runResult) : Prop :=
  forall c input ro e t, callable e (Gas c) -> Gas c < bound -> small (len (Code c)) -> small (len input) ->
  (IsBerlin (chainRules env) = true -> self c ∈ k_addresses (v_core (e_db e))) ->
  wp (run c input ro) (runPost ((readOnly e || ro) && byz) e (Gas c)) (mkWorld t e).

(** A call before and after [endCall]. *)
Definition innerPost (static : bool) (e : EVM Abs) (input : list byte) (gas : Z) (o : outcome callResult) (w : World (EVM Abs)) : Prop :=
  match o with
  | Ok (ret, gas', err) => sameFlags e (w_st w) /\ 0 <= gas' <= gas /\ small (len (retBytes input ret)) /\
      match err with None => settled static e (w_st w) gas gas' | Some _ => stays (e_db e) (e_db (w_st w)) end
  | Fail _ => False
  | Panic p => p = bitvecRange
  end.
Definition callDone (static : bool) (e : EVM Abs) (input : list byte) (gas : Z) (o : outcome callResult) (w : World (EVM Abs)) : Prop :=
  match o with
  | Ok (ret, gas', err) => sameFlags e (w_st w) /\ 0 <= gas' <= gas /\ small (len (retBytes input ret)) /\ settled static e (w_st w) gas gas' /\
      (is_Some err -> v_core (e_db (w_st w)) = v_core (e_db e))
  | Fail _ => False
  | Panic p => p = bitvecRange
  end.

Lemma grows_snapped b v : grows b v (snapped v).
Proof. split; [apply stays_snapped|]. by split_and!. Qed.

Lemma settled_refl b e gas gas' : coreOk R (v_core (e_db e)) -> gas' <= gas -> settled b e e gas gas'.
Proof. intros Hc Hg. split; [done|done|]. unfold credit, refundRate. lia. Qed.

(** From a state that is reached without spending gas. *)
Definition leads (static : bool) (e e' : EVM Abs) : Prop :=
  grows static (e_db e) (e_db e') /\ k_refund (v_core (e_db e')) = k_refund (v_core (e_db e)) /\ depth e' = depth e /\ abort e' = abort e /\ readOnly e' = readOnly e.

Lemma leads_flags b e1 e2 e3 : leads b e1 e2 -> sameFlags e2 e3 -> sameFlags e1 e3.
Proof. intros (_ & _ & H1 & H2 & H3) []. split; congruence. Qed.
Lemma leads_settled b e1 e2 e3 gas gas' : leads b e1 e2 -> settled b e2 e3 gas gas' -> settled b e1 e3 gas gas'.
Proof. intros (Hg & Hr & _) []. split; [done|by etrans|]. unfold credit in *. lia. Qed.
Lemma leads_trans b e1 e2 e3 : leads b e1 e2 -> leads b e2 e3 -> leads b e1 e3.
Proof. intros (H1 & H2 & H3 & H4 & H5) (H6 & H7 & H8 & H9 & H10). split_and!; try congruence. by etrans. Qed.
Lemma leads_inner b e1 e2 input gas o w : leads b e1 e2 -> innerPost b e2 input gas o w -> innerPost b e1 input gas o w.
Proof.
  intros Hl. destruct o as [[[ret gas'] err]|er|q]; [|done..]. intros (H1 & H2 & H3 & H4). split_and!; try done; [by eapply leads_flags|lia..|]. destruct err; [|by eapply leads_settled].
  etrans; [apply Hl|done].
Qed.
Lemma leads_callable b e1 e2 gas : leads b e1 e2 -> callable e1 gas -> coreOk R (v_core (e_db e2)) -> small (len (returnData e2)) -> callable e2 gas.
Proof. intros (_ & Hr & _) [] Hc Hs. split; try done. unfold credit in *. by rewrite Hr. Qed.

(** Writing the accounts. *)
Lemma leads_write b f v d ab cg ro rd jd cg' rd' jd' : k_addresses (v_core v) ⊆ k_addresses (f (v_core v)) -> k_refund (f (v_core v)) = k_refund (v_core v) -> totalBalance (f (v_core v)) <= totalBalance (v_core v) ->
  (b = true -> staticEq (v_core v) (f (v_core v))) -> leads b (mkEVM v d ab cg ro rd jd) (mkEVM (v <| v_core ::= f |>) d ab cg' ro rd' jd').
Proof. intros H1 H2 H3 H4. split_and!; try done. by apply grows_core. Qed.

(** The end of a call: what failed is undone. *)
Lemma endCall_ok b v d ab cg ro rd jd input gas r t e : callable (mkEVM v d ab cg ro rd jd) gas -> innerPost b (mkEVM (snapped v) d ab cg ro rd jd) input gas (Ok r) (mkWorld t e) ->
  wp (endCall (v_next v) r) (callDone b (mkEVM v d ab cg ro rd jd) input gas) (mkWorld t e).
Proof.
  intros [Hcore Hgas Hcr Hret]. destruct r as [[ret gas'] err]. intros (Hfl & Hg & Hs & Hi). cbn [w_st] in *. unfold endCall. destruct err as [er|].
  - destruct e as [v2 d2 ab2 cg2 ro2 rd2 jd2]. cbn [e_db] in *. wp_norm. apply (wp_onDB_Revert v); [done|]. intros v' Ec Hst. wp_norm. apply wp_ret. destruct Hfl. cbn in *.
    assert (0 <= (if bool_decide (er = ErrExecutionReverted) then gas' else 0) <= gas) as Hg' by (destruct (bool_decide _); lia).
    split_and!; cbn; try done; try lia. split; cbn; [by rewrite Ec|by apply grows_reverted|]. unfold credit, refundRate in *. rewrite Ec. lia.
  - apply wp_ret. assert (leads b (mkEVM v d ab cg ro rd jd) (mkEVM (snapped v) d ab cg ro rd jd)) as Hl by (split_and!; try done; apply grows_snapped).
    split_and!; try done; try lia; [by eapply leads_flags|by eapply leads_settled].
Qed.

(** ** What runs inside a call *)

Lemma grows_weaken (b b' : bool) v v' : (b' = true -> b = true) -> grows b v v' -> grows b' v v'.
Proof. intros Hb (H1 & H2 & H3 & H4). split_and!; auto. Qed.
Lemma settled_weaken (b b' : bool) e e' gas gas' : (b' = true -> b = true) -> settled b e e' gas gas' -> settled b' e e' gas gas'.
Proof. intros Hb []. split; try done. by eapply grows_weaken. Qed.
Lemma inner_weaken (b b' : bool) e input gas o w : (b' = true -> b = true) -> innerPost b e input gas o w -> innerPost b' e input gas o w.
Proof.
  intros Hb. destruct o as [[[ret gas'] err]|er|q]; [|done..]. intros (H1 & H2 & H3 & H4). split_and!; try done; [lia..|]. destruct err; [done|by eapply settled_weaken].
Qed.

Lemma precompiled_ok b p e input gas t : callable e gas -> small (len input) -> wp (lift (RunPrecompiledContract p input gas)) (innerPost b e input gas) (mkWorld t e).
Proof.
  intros [] Hi. destruct (RunPrecompiledContract_ok p input gas) as (ret & gas' & err & E & Hg & Hs); [done|unfold small; change (2 ^ 55) with 36028797018963968 in *; change (2 ^ 60) with 1152921504606846976; lia|].
  apply wp_lift. rewrite E. split_and!; try done; [lia..|]. destruct err; [done|]. apply settled_refl; [done|lia].
Qed.

Context (bound : Z) (run : Contract -> list byte -> bool -> M (EVM Abs) runResult) (Hrun : runSpec bound run).

Lemma runContract_ok c input ro e t : callable e (Gas c) -> Gas c < bound -> small (len (Code c)) -> small (len input) ->
  (IsBerlin (chainRules env) = true -> self c ∈ k_addresses (v_core (e_db e))) -> wp (runContract run c input ro) (innerPost ((readOnly e || ro) && byz) e input (Gas c)) (mkWorld t e).
Proof.
  intros Hca Hb Hc Hi Hs. unfold runContract. wp_use Hrun; [done..|]. intros [[[ret err] gas']|er|q] w Hp; wp_norm; [|done..]. apply wp_ret. exact Hp.
Qed.

(** The contract of an account, or of nothing. *)
Lemma NewContract_ok cl object v gas (Q : outcome Contract -> World (EVM Abs) -> Prop) t s d ab cg ro rd jd :
  (forall jd', Q (Ok (mkContract (refAddress cl) cl object None [] HashZero None [] gas v)) (mkWorld t (mkEVM s d ab cg ro rd jd'))) -> wp (NewContract cl object v gas) Q (mkWorld t (mkEVM s d ab cg ro rd jd)).
Proof. intros HQ. unfold NewContract. destruct cl; call_steps; apply HQ. Qed.

Lemma leads_jumpdests b v d ab cg ro rd jd jd' : leads b (mkEVM v d ab cg ro rd jd) (mkEVM v d ab cg ro rd jd').
Proof. by split_and!. Qed.

(** The code of an account run by a contract [mk] makes. *)
Lemma runAt_ok (b ro' : bool) mk c addr input gas v d ab cg ro rd jd t : let e := mkEVM v d ab cg ro rd jd in
  (forall (Q : outcome Contract -> World (EVM Abs) -> Prop), (forall jd', Q (Ok c) (mkWorld t (mkEVM v d ab cg ro rd jd'))) -> wp mk Q (mkWorld t e)) ->
  callable e gas -> gas < bound -> small (len input) -> Gas c = gas -> (IsBerlin (chainRules env) = true -> self c ∈ k_addresses (v_core v)) -> (b = true -> (ro || ro') && byz = true) ->
  wp (runAt env run mk addr input gas ro') (innerPost b e input gas) (mkWorld t e).
Proof.
  intros e Hmk Hca Hb Hi Hg Hs Hro. unfold runAt. destruct (precompile _ _); [by apply precompiled_ok|]. wp_norm. apply Hmk. intros jd'. call_steps.
  set (c' := SetCallCode _ _ _ c). assert (Gas c' = gas) as Hg' by done. assert (callable (mkEVM v d ab cg ro rd jd') gas) as Hca' by (by destruct Hca). rewrite <- Hg' in Hca', Hb.
  eapply wp_mono; [apply runContract_ok; [exact Hca'|done|by eapply codeOf_small; apply Hca|done|exact Hs]|]. intros o w Hp. rewrite Hg' in Hp.
  eapply leads_inner; [apply leads_jumpdests|]. eapply inner_weaken; [|exact Hp]. done.
Qed.

(** ** The four calls *)

Lemma callDone_refused b e input gas err t : callable e gas -> callDone b e input gas (Ok (Own [], gas, err)) (mkWorld t e).
Proof. intros []. split_and!; try done; lia. Qed.

Lemma callDone_early b v d ab cg ro rd jd input gas t : callable (mkEVM v d ab cg ro rd jd) gas -> callDone b (mkEVM v d ab cg ro rd jd) input gas (Ok (Own [], gas, None)) (mkWorld t (mkEVM (snapped v) d ab cg ro rd jd)).
Proof. intros []. split_and!; try done; try lia. split; [done|apply grows_snapped|done]. Qed.

Lemma callable_snapped v d ab cg ro rd jd gas : callable (mkEVM v d ab cg ro rd jd) gas -> callable (mkEVM (snapped v) d ab cg ro rd jd) gas.
Proof. by intros []. Qed.

(** A call from its snapshot on, through a state [e1] that it has prepared. *)
Lemma snapCall_ok b m v d ab cg ro rd jd e1 input gas t : callable (mkEVM v d ab cg ro rd jd) gas -> leads b (mkEVM (snapped v) d ab cg ro rd jd) e1 ->
  wp m (innerPost b e1 input gas) (mkWorld t e1) -> wp (r ← m; endCall (v_next v) r) (callDone b (mkEVM v d ab cg ro rd jd) input gas) (mkWorld t e1).
Proof.
  intros Hca Hl Hm. wp_norm. eapply wp_mono; [exact Hm|]. intros o [t' e2] Hp. apply (leads_inner _ _ _ _ _ _ _ Hl) in Hp. destruct o as [r|er|q]; [|done..]. wp_norm. by apply endCall_ok.
Qed.

Lemma CallCode_ok cl addr input gas val v d ab cg ro rd jd t : let e := mkEVM v d ab cg ro rd jd in
  callable e gas -> gas < bound -> small (len input) -> (IsBerlin (chainRules env) = true -> refAddress cl ∈ k_addresses (v_core v)) ->
  wp (CallCode env run cl addr input gas val) (callDone (ro && byz) e input gas) (mkWorld t e).
Proof.
  intros e Hca Hb Hi Hs. unfold CallCode, recursionOff, tooDeep, CanTransfer. do 2 call_step. call_step; [apply wp_ret; by apply callDone_refused|]. do 2 call_step. call_step; [apply wp_ret; by apply callDone_refused|].
  do 2 call_step. call_step; [apply wp_ret; by apply callDone_refused|]. call_step. eapply wp_bind_inv, snapCall_ok; [done|by split_and!|].
  eapply runAt_ok; [intros Q HQ; by apply NewContract_ok|by apply callable_snapped|done|done|done|exact Hs|by rewrite orb_false_r].
Qed.

Lemma DelegateCall_ok cl addr input gas v d ab cg ro rd jd t : let e := mkEVM v d ab cg ro rd jd in (exists a b z, cl = ContractPtr a b z) ->
  callable e gas -> gas < bound -> small (len input) -> (IsBerlin (chainRules env) = true -> refAddress cl ∈ k_addresses (v_core v)) ->
  wp (DelegateCall env run cl addr input gas) (callDone (ro && byz) e input gas) (mkWorld t e).
Proof.
  intros e (a & ca & z & ->) Hca Hb Hi Hs. unfold DelegateCall, recursionOff, tooDeep. do 2 call_step. call_step; [apply wp_ret; by apply callDone_refused|]. do 2 call_step. call_step; [apply wp_ret; by apply callDone_refused|].
  call_step. eapply wp_bind_inv, snapCall_ok; [done|by split_and!|].
  eapply runAt_ok; [intros Q HQ; wp_norm; apply NewContract_ok; intros jd'; wp_norm; apply wp_lift; apply HQ|by apply callable_snapped|done|done|done|exact Hs|by rewrite orb_false_r].
Qed.

Lemma StaticCall_ok cl addr input gas v d ab cg ro rd jd t : let e := mkEVM v d ab cg ro rd jd in
  callable e gas -> gas < bound -> small (len input) -> (IsBerlin (chainRules env) = true -> addr ∈ k_addresses (v_core v)) ->
  wp (StaticCall env run cl addr input gas) (callDone byz e input gas) (mkWorld t e).
Proof.
  intros e Hca Hb Hi Hs. unfold StaticCall, recursionOff, tooDeep. do 2 call_step. call_step; [apply wp_ret; by apply callDone_refused|]. do 2 call_step. call_step; [apply wp_ret; by apply callDone_refused|].
  do 2 call_step. set (e1 := mkEVM _ _ _ _ _ _ _). assert (leads byz (mkEVM (snapped v) d ab cg ro rd jd) e1) as Hl.
  { apply leads_write; try done; [by rewrite total_AddBalance; lia|]. intros _. apply staticEq_AddBalance. }
  eapply wp_bind_inv, snapCall_ok; [done|exact Hl|]. eapply runAt_ok; [intros Q HQ; by apply NewContract_ok| |done|done|done|exact Hs|].
  - eapply leads_callable; [exact Hl|by apply callable_snapped| |by apply Hca]. apply coreOk_AddBalance; [|done]. apply Hca.
  - by rewrite orb_true_r.
Qed.

(** The state that a call with a value starts from. *)
Definition prepared (ex : bool) (from to : Address) (n : Z) (k : core) : core :=
  k_AddBalance to n (k_SubBalance from n (if ex then k else k_CreateAccount to k)).

Lemma prepared_ok b from to n k : coreOk R k -> 0 <= n <= balanceOf k from -> (b = true -> n = 0) ->
  let k' := prepared (existsIn k to) from to n k in
  coreOk R k' /\ totalBalance k' = totalBalance k /\ k_addresses k' = k_addresses k /\ k_refund k' = k_refund k /\ (b = true -> staticEq k k').
Proof.
  intros Hk Hn Hb. cbv zeta. unfold prepared, existsIn. pose proof (R_range env) as HR. case_bool_decide as He'.
  - destruct (transfer_ok R from to n k) as (H1 & H2 & H3 & H4 & H5); [lia|done|done|]. split_and!; auto.
  - destruct (transfer_ok R from to n (k_CreateAccount to k)) as (H1 & H2 & H3 & H4 & H5); [lia|apply coreOk_CreateAccount; [lia|done]|by rewrite balanceOf_CreateAccount|]. rewrite total_CreateAccount in H2.
    split_and!; auto. intros Hb'. etrans; [|by apply H5, Hb]. apply staticEq_CreateAccount. by apply eq_None_not_Some.
Qed.

Lemma Call_ok cl addr input gas val v d ab cg ro rd jd t : let e := mkEVM v d ab cg ro rd jd in
  callable e gas -> gas < bound -> small (len input) -> 0 <= val -> (ro && byz = true -> val = 0) -> (IsBerlin (chainRules env) = true -> addr ∈ k_addresses (v_core v)) ->
  wp (Call env run cl addr input gas val) (callDone (ro && byz) e input gas) (mkWorld t e).
Proof.
  intros e Hca Hb Hi Hval Hst Hs. unfold Call, recursionOff, tooDeep, CanTransfer, Transfer. do 2 call_step. call_step; [apply wp_ret; by apply callDone_refused|]. do 2 call_step. call_step; [apply wp_ret; by apply callDone_refused|].
  wp_norm. eapply (wp_mono _ (fun o w => exists can, o = Ok can /\ (can = true -> val <= balanceOf (v_core v) (refAddress cl)) /\ w = mkWorld t e)).
  { pose proof (balanceOf_nonneg R (v_core v) (refAddress cl) (ca_core _ _ Hca)). destruct (Z.eqb val 0) eqn:Ev; cbn [negb]; call_steps; eexists; (split; [done|]); (split; [|done]); [apply Z.eqb_eq in Ev; intros _; lia|by intros ?%Z.leb_le]. }
  intros ? ? (can & -> & Hcan & ->). wp_norm. call_step; [apply wp_ret; by apply callDone_refused|]. apply negb_false_iff in Heqb1. subst can. specialize (Hcan eq_refl).
  do 2 call_step. set (b := ro && byz) in *. set (e1 := mkEVM (snapped v) d ab cg ro rd jd).
  call_step.
  { apply wp_ret. by apply callDone_early. }
  destruct (prepared_ok b (refAddress cl) addr val (v_core v)) as (P1 & P2 & P3 & P4 & P5); [apply Hca|lia|done|].
  change (existsIn (v_core (snapped v)) addr) with (existsIn (v_core v) addr). set (ex := existsIn (v_core v) addr) in *. set (v2 := (snapped v) <| v_core ::= prepared ex (refAddress cl) addr val |>).
  assert (leads b e1 (mkEVM v2 d ab cg ro rd jd)) as Hl by (apply leads_write; change (v_core (snapped v)) with (v_core v); [by rewrite P3|done|by rewrite P2|done]).
  assert (callable (mkEVM v2 d ab cg ro rd jd) gas) as Hca2 by (eapply leads_callable; [exact Hl|by apply callable_snapped|exact P1|apply Hca]).
  apply (wp_bind_inv _ (fun _ : unit => _)). eapply (wp_mono _ (fun o w => callDone b e input gas o w)); [|done].
  assert (forall m, wp m (innerPost b (mkEVM v2 d ab cg ro rd jd) input gas) (mkWorld t (mkEVM v2 d ab cg ro rd jd)) ->
    wp (when (negb ex) (onDB (CreateAccount addr));; (onDB (SubBalance (refAddress cl) val);; onDB (AddBalance addr val));; r ← m; endCall (v_next v) r) (callDone b e input gas) (mkWorld t e1)) as Hgo.
  { intros m Hm. destruct ex; cbn [negb when]; call_steps; apply wp_bind_inv; exact (snapCall_ok b m v d ab cg ro rd jd (mkEVM v2 d ab cg ro rd jd) input gas t Hca Hl Hm). }
  apply Hgo. destruct (precompile _ _); [by apply precompiled_ok|]. do 2 call_step; [apply wp_ret|].
  - destruct Hca2. split_and!; try done; lia.
  - apply NewContract_ok. intros jd'. call_steps. set (c := SetCallCode _ _ _ _). change gas with (Gas c) in Hb. assert (callable (mkEVM v2 d ab cg ro rd jd') (Gas c)) as Hca' by (by destruct Hca2).
    eapply wp_mono; [apply runContract_ok; [exact Hca'|done|by eapply codeOf_small; apply Hca2|done|intros HB; specialize (Hs HB); rewrite <- P3 in Hs; exact Hs]|]. intros o w Hp.
    eapply leads_inner; [apply leads_jumpdests|]. eapply inner_weaken; [|exact Hp]. cbn. by rewrite orb_false_r.
Qed.

(** ** Creations *)

(** A creation that fails leaves nothing, or what it did before its snapshot: [k1]. *)
Definition createDone (k1 : core) (e : EVM Abs) (gas : Z) (o : outcome createResult) (w : World (EVM Abs)) : Prop :=
  match o with
  | Ok (ret, _, gas', err) => sameFlags e (w_st w) /\ 0 <= gas' <= gas /\ small (len ret) /\ settled false e (w_st w) gas gas' /\
      (is_Some err -> v_core (e_db (w_st w)) = v_core (e_db e) \/ v_core (e_db (w_st w)) = k1)
  | Fail _ => False
  | Panic p => p = bitvecRange
  end.

(** What a creation does before its snapshot, and after it before the code runs. *)
Definition announced (from address : Address) (k : core) : core :=
  let k := k_SetNonce from (u64 (nonceOf k from + 1)) k in if IsBerlin (chainRules env) then k_AddAddress address k else k.
Definition endowed (from address : Address) (n : Z) (k : core) : core :=
  let k := k_CreateAccount address k in k_AddBalance address n (k_SubBalance from n (if IsEIP158 (chainRules env) then k_SetNonce address 1 k else k)).

Lemma balanceOf_SetNonce a n k b : balanceOf (k_SetNonce a n k) b = balanceOf k b.
Proof. rewrite !balanceOf_orNew. cbn. destruct (decide (a = b)) as [<-|Hne]; [by rewrite lookup_insert_eq|by rewrite lookup_insert_ne]. Qed.

Lemma announced_ok from address k : coreOk R k -> let k' := announced from address k in
  coreOk R k' /\ totalBalance k' = totalBalance k /\ k_addresses k ⊆ k_addresses k' /\ k_refund k' = k_refund k /\ balanceOf k' from = balanceOf k from /\ (IsBerlin (chainRules env) = true -> address ∈ k_addresses k').
Proof.
  intros Hk. cbv zeta. unfold announced. assert (coreOk R (k_SetNonce from (u64 (nonceOf k from + 1)) k)) as Hk' by (apply coreOk_SetNonce; [done|apply u64_range]).
  destruct (IsBerlin _); split_and!; try done; try (by rewrite total_SetNonce); try (by rewrite balanceOf_SetNonce).
  - exact (total_SetNonce from _ k).
  - cbn. set_solver.
  - exact (balanceOf_SetNonce from _ k from).
  - cbn. set_solver.
Qed.

Lemma endowed_ok from address n k : coreOk R k -> 0 <= n <= balanceOf k from -> let k' := endowed from address n k in
  coreOk R k' /\ totalBalance k' = totalBalance k /\ k_addresses k' = k_addresses k /\ k_refund k' = k_refund k.
Proof.
  intros Hk Hn. cbv zeta. unfold endowed. pose proof (R_range env) as HR. set (k1 := if IsEIP158 _ then _ else _).
  assert (coreOk R k1 /\ totalBalance k1 = totalBalance k /\ k_addresses k1 = k_addresses k /\ k_refund k1 = k_refund k /\ balanceOf k1 from = balanceOf k from) as (H1 & H2 & H3 & H4 & H5).
  { assert (coreOk R (k_CreateAccount address k)) by (apply coreOk_CreateAccount; [lia|done]). unfold k1. destruct (IsEIP158 _); split_and!; rewrite ?total_SetNonce, ?total_CreateAccount, ?balanceOf_SetNonce, ?balanceOf_CreateAccount; try done.
    by apply coreOk_SetNonce. }
  destruct (transfer_ok R from address n k1) as (T1 & T2 & T3 & T4 & _); [lia|done|by rewrite H5|]. split_and!; congruence || done.
Qed.

(** Storing the code of a creation that went well. *)
Lemma storeCode_ok address ret gas gas' e v d ab cg ro rd jd t : small (len ret) -> 0 <= gas' <= gas -> sameFlags e (mkEVM v d ab cg ro rd jd) -> settled false e (mkEVM v d ab cg ro rd jd) gas gas' ->
  wp (storeCode env address ret gas') (fun o w => match o with
    | Ok (err, gas'') => 0 <= gas'' <= gas /\ sameFlags e (w_st w) /\ match err with None => settled false e (w_st w) gas gas'' | Some _ => stays (e_db e) (e_db (w_st w)) end
    | _ => False
    end) (mkWorld t (mkEVM v d ab cg ro rd jd)).
Proof.
  intros Hr Hg Hfl Hse. unfold storeCode. assert (stays (e_db e) v) as Hst by apply Hse. do 3 (call_step; [apply wp_ret; done|]). apply Z.ltb_ge in Heqb1. pose proof (u64_range (len ret * params.CreateDataGas)) as [Hu _].
  call_steps. destruct Hfl, Hse. cbn in *. split_and!; [lia|lia|done|]. split; cbn.
  - by apply coreOk_SetCode.
  - etrans; [exact se_grows0|]. apply grows_core; [done|by rewrite total_SetCode|done].
  - unfold credit, refundRate in *. cbn in *. lia.
Qed.

(** A creation from its snapshot on. *)
Lemma createTail_ok k1 address c v d ab cg ro rd jd e2 t : let gas := Gas c in callable (mkEVM v d ab cg ro rd jd) gas -> callable e2 gas -> leads false (mkEVM (snapped v) d ab cg ro rd jd) e2 ->
  gas < bound -> small (len (Code c)) -> (IsBerlin (chainRules env) = true -> self c ∈ k_addresses (v_core (e_db e2))) ->
  wp ('(ret, err, gas) ← run c [] false;
      '(err, gas) ← match err with None => storeCode env address ret gas | Some e => mret (Some e, gas) end;
      match err with
      | Some e => if IsHomestead (chainRules env) || negb (bool_decide (e = ErrCodeStoreOutOfGas)) then onDB (RevertToSnapshot (v_next v));; mret (ret, address, if bool_decide (e = ErrExecutionReverted) then gas else 0, err)
                  else mret (ret, address, gas, err)
      | None => mret (ret, address, gas, None)
      end) (createDone k1 (mkEVM v d ab cg ro rd jd) gas) (mkWorld t e2).
Proof.
  intros gas Hca Hca2 Hl Hb Hc Hs. wp_use Hrun; [done|done|done|apply small_0|done|]. intros [[[ret err] gas']|er|q] [t' [v3 d3 ab3 cg3 ro3 rd3 jd3]] Hp; wp_norm; [|done..]. destruct Hp as (Hfl & Hg & Hr & Hi). cbn [w_st] in *.
  set (e3 := mkEVM v3 d3 ab3 cg3 ro3 rd3 jd3) in *.
  eapply (wp_mono _ (fun o w => match o with Ok (err, gas'') => 0 <= gas'' <= gas /\ sameFlags e2 (w_st w) /\ match err with None => settled false e2 (w_st w) gas gas'' | Some _ => stays (e_db e2) (e_db (w_st w)) end | _ => False end)).
  { destruct err as [er|]; [by apply wp_ret|]. apply storeCode_ok; [done|done|done|]. eapply settled_weaken; [|exact Hi]. done. }
  intros [[err' gas'']|er|q] [t4 e4] Hp; wp_norm; [|done..]. destruct Hp as (Hg' & Hfl' & Hi'). cbn [w_st] in *. pose proof (leads_flags _ _ _ _ Hl Hfl') as Hfl4. rewrite (eo_homestead env He). cbn [orb]. destruct err' as [er|].
  - destruct e4 as [v4 d4 ab4 cg4 ro4 rd4 jd4]. wp_norm. apply (wp_onDB_Revert v); [etrans; [apply Hl|done]|]. intros v' Ec Hst. wp_norm. apply wp_ret. destruct Hfl4. cbn in *.
    assert (0 <= (if bool_decide (er = ErrExecutionReverted) then gas'' else 0) <= gas) as Hg4 by (destruct (bool_decide _); lia).
    split_and!; cbn; try done; try lia; [|by left]. split; cbn; [rewrite Ec; apply Hca|by apply grows_reverted|]. unfold credit, refundRate in *. rewrite Ec. lia.
  - apply wp_ret. assert (leads false (mkEVM v d ab cg ro rd jd) e2) as Hl2 by (eapply leads_trans; [|exact Hl]; split_and!; try done; apply grows_snapped).
    split_and!; try done; try lia; [by eapply leads_flags|by eapply leads_settled].
Qed.

Lemma createDone_refused k1 e e' gas gas' address err t : callable e gas -> leads false e e' -> coreOk R (v_core (e_db e')) -> small (len (returnData e')) -> 0 <= gas' <= gas ->
  (is_Some err -> v_core (e_db e') = v_core (e_db e) \/ v_core (e_db e') = k1) -> createDone k1 e gas (Ok ([], address, gas', err)) (mkWorld t e').
Proof.
  intros [] Hl Hc Hr Hg Hk. split_and!; try lia; [|apply small_0| |exact Hk]; cbn [w_st].
  - destruct Hl as (_ & _ & H1 & H2 & H3). by split.
  - eapply leads_settled; [exact Hl|]. apply settled_refl; [done|lia].
Qed.

Lemma createDone_leads k1 e e1 gas o w : leads false e e1 -> v_core (e_db e1) = k1 -> createDone k1 e1 gas o w -> createDone k1 e gas o w.
Proof.
  intros Hl Ek. destruct o as [[[[ret a] gas'] err]|er|q]; [|done..]. intros (H1 & H2 & H3 & H4 & H5). split_and!; try done; try lia; [by eapply leads_flags|by eapply leads_settled|]. rewrite Ek in H5. tauto.
Qed.

Lemma create_ok cl code hash gas val address v d ab cg ro rd jd t : let e := mkEVM v d ab cg ro rd jd in
  callable e gas -> gas < bound -> small (len code) -> 0 <= val -> wp (create env run cl code hash gas val address) (createDone (announced (refAddress cl) address (v_core v)) e gas) (mkWorld t e).
Proof.
  intros e Hca Hb Hcode Hval. pose proof Hca as [Hcore Hgas Hcr Hret]. cbn in Hcore. set (k1 := announced _ _ _). assert (leads false e e) as Hl0 by (by split_and!).
  unfold create, tooDeep, CanTransfer, Transfer, recursionOff. do 2 call_step. call_step; [apply wp_ret; apply createDone_refused; try done; try lia; by left|]. do 2 call_step. call_step; [apply wp_ret; apply createDone_refused; try done; try lia; by left|].
  apply negb_false_iff, Z.leb_le in Heqb0. destruct (announced_ok (refAddress cl) address (v_core v) Hcore) as (A1 & A2 & A3 & A4 & A5 & A6).
  set (v1 := v <| v_core ::= announced (refAddress cl) address |>). set (e1 := mkEVM v1 d ab cg ro rd jd). assert (leads false e e1) as Hl1 by (apply leads_write; [done|done|by rewrite A2|done]).
  assert (callable e1 gas) as Hca1 by (by eapply leads_callable).
  assert (forall (k : unit -> M (EVM Abs) createResult), wp (k ()) (createDone k1 e gas) (mkWorld t e1) -> wp (nonce ← onDB (GetNonce (refAddress cl)); onDB (SetNonce (refAddress cl) (u64 (nonce + 1)));; when (IsBerlin (chainRules env)) (onDB (AddAddressToAccessList address)) ≫= k) (createDone k1 e gas) (mkWorld t e)) as Hstart.
  { intros k Hk. do 2 call_step. unfold e1, v1, announced in Hk. destruct (IsBerlin (chainRules env)); cbn [when]; call_steps; exact Hk. }
  apply Hstart. clear Hstart. call_step. call_step. call_step; [apply wp_ret; apply createDone_refused; try done; try lia; by right|]. call_step.
  apply wp_bind_inv. eapply wp_mono; [|intros o w Hd; exact (createDone_leads k1 e e1 gas o w Hl1 eq_refl Hd)].
  destruct (endowed_ok (refAddress cl) address val (v_core v1) A1) as (E1 & E2 & E3 & E4); [split; [done|]; etrans; [exact Heqb0|]; apply Z.eq_le_incl; symmetry; exact A5|].
  set (v2 := (snapped v1) <| v_core ::= endowed (refAddress cl) address val |>). assert (forall jd', leads false (mkEVM (snapped v1) d ab cg ro rd jd) (mkEVM v2 d ab cg ro rd jd')) as Hl2.
  { intros jd'. apply leads_write; change (v_core (snapped v1)) with (v_core v1); [by rewrite E3|done|by rewrite E2|done]. }
  assert (forall jd', callable (mkEVM v2 d ab cg ro rd jd') gas) as Hca2 by (intros jd'; eapply leads_callable; [apply Hl2|by apply callable_snapped|exact E1|done]).
  assert (forall (k : unit -> M (EVM Abs) createResult), wp (k ()) (createDone k1 e1 gas) (mkWorld t (mkEVM v2 d ab cg ro rd jd)) ->
    wp (onDB (CreateAccount address);; when (IsEIP158 (chainRules env)) (onDB (SetNonce address 1));; (onDB (SubBalance (refAddress cl) val);; onDB (AddBalance address val)) ≫= k) (createDone k1 e1 gas)
      (mkWorld t (mkEVM (snapped v1) d ab cg ro rd jd))) as Hmid.
  { intros k Hk. call_step. unfold v2, endowed in Hk. destruct (IsEIP158 (chainRules env)); cbn [when]; call_steps; exact Hk. }
  apply Hmid. clear Hmid. wp_norm. apply NewContract_ok. intros jd'. do 2 call_step. call_step.
  - apply wp_ret. apply createDone_refused; [done| |apply Hca2|done|lia|by intros []]. eapply leads_trans; [|apply Hl2]. split_and!; try done. apply grows_snapped.
  - apply wp_bind_inv. set (c := SetCallCode _ _ _ _). change gas with (Gas c). apply createTail_ok; [done|apply Hca2|apply Hl2|done|done|]. intros HB. cbn. change (address ∈ k_addresses (endowed (refAddress cl) address val (v_core v1))). rewrite E3. by apply A6.
Qed.

Lemma len_enc_string b : len b <= 32 -> len (enc_string b) <= 64.
Proof.
  intros Hb. assert (forall n, 0 <= n <= 32 -> len (puthead 0x80 0xB7 n) <= 9) as Hp.
  { intros n Hn. unfold puthead. rewrite (proj2 (Z.ltb_lt _ _)) by lia. done. }
  unfold enc_string. destruct b as [|c [|c' b]]; [done|destruct (Z.leb _ _); done|]. unfold len in *. rewrite length_app. specialize (Hp (Z.of_nat (length (c :: c' :: b)))). lia.
Qed.

Lemma CreateAddress_ok a n : is_u64 n -> exists b, CreateAddress a n = Ok b.
Proof.
  intros Hn. unfold CreateAddress. rewrite EncodeToBytes_typed; [by eexists|cbn; tauto|]. cbn -[enc_string Z.pow]. rewrite arr_bytes_length.
  assert (len (min_bytes n) <= 8) as Hm. { destruct (Z.eq_dec n 0) as [->|Hne]; [by rewrite min_bytes_0|]. unfold is_u64 in Hn. pose proof (min_bytes_len n). lia. }
  assert (len (arr_bytes a) <= 32) as Ha by (unfold len; rewrite arr_bytes_length; lia). pose proof (len_enc_string _ Ha). pose proof (len_enc_string (min_bytes n) ltac:(lia)).
  unfold is_u64, len in *. rewrite !length_app. cbn [length]. split_and!; try done; lia.
Qed.

Lemma Create_ok cl code gas val v d ab cg ro rd jd t : let e := mkEVM v d ab cg ro rd jd in
  callable e gas -> gas < bound -> small (len code) -> 0 <= val -> exists a, CreateAddress (refAddress cl) (nonceOf (v_core v) (refAddress cl)) = Ok a /\ wp (Create env run cl code gas val) (createDone (announced (refAddress cl) a (v_core v)) e gas) (mkWorld t e).
Proof.
  intros e Hca Hb Hc Hv. destruct (CreateAddress_ok (refAddress cl) (nonceOf (v_core v) (refAddress cl))) as (a & E); [eapply nonceOf_u64; apply Hca|]. exists a. split; [done|]. unfold Create. do 2 call_step. rewrite E. by apply create_ok.
Qed.
Lemma Create2_ok cl code gas val salt v d ab cg ro rd jd t : let e := mkEVM v d ab cg ro rd jd in
  callable e gas -> gas < bound -> small (len code) -> 0 <= val -> 
  wp (Create2 env run cl code gas val salt) (createDone (announced (refAddress cl) (CreateAddress2 (refAddress cl) (U256.Bytes32 salt) (arr_bytes (Keccak256Hash [code]))) (v_core v)) e gas) (mkWorld t e).
Proof. intros e Hca Hb Hc Hv. by apply create_ok. Qed.
End calls.
