(* ===== verification/EvmRun.v ===== *)
(** The interpreter keeps every frame in order, and ends.

    The instructions that call and create, one turn of the loop, and the loop: with more
    fuel than the contract has gas it returns, nothing panics but the reading of a jump
    analysis past its end, and the state that it leaves is one that the caller can go on
    from ([runSpec]). *)

From S2P Require Import Prelude Common Rlp RlpEnc Uint256 Uint256Spec Uint256Div Uint256Conv StateSpec EvmBase EvmTable EvmPre Evm EvmInv EvmGas EvmOps EvmExec EvmWrite EvmCalls.
From Stdlib Require Import Strings.Byte.
#[local] Open Scope Z_scope.

(** * Calls from a frame *)

Section frame_calls.
Context `{Crypto} `{PrecompileLibs} (env : Env) (He : envOk env) (g : ghost) (Hcredit : g_credit g <= creditLimit) (Hmem : g_mem g <= 2 ^ 55).
Context (bound : Z) (run : Contract -> list byte -> bool -> M (EVM Abs) runResult) (Hrun : runSpec env bound run) (Hbound : g_mem g <= bound).

Abbreviation R := (clearRefund env).

Lemma wp_onEVM {A} (m : M (EVM Abs) A) (Q : outcome A -> World (Scope Abs) -> Prop) t e mem st c p n :
  wp m (fun o w => Q o (mkWorld (w_tick w) (mkScope (w_st w) mem st c p n))) (mkWorld t e) -> wp (onEVM m) Q (mkWorld t (mkScope e mem st c p n)).
Proof. intros Hm. unfold onEVM. apply wp_zoom. exact Hm. Qed.

Lemma memOk_paid m : memOk m -> 0 <= lastGasCost m.
Proof. intros (w & Hw & _ & ->). by apply memFee_range. Qed.

(** The gas set aside for a call can start one. *)
Lemma frame_callable gas e m st c p n : frame env g (coreOk R) 0 (gas + 1) (mkScope e m st c p n) -> 0 <= gas -> callable env e gas /\ gas < bound.
Proof.
  intros Hf Hg. pose proof (memOk_paid m ltac:(exact (frame_memOk _ _ _ _ _ Hf))). destruct Hf. cbn in *. split; [|lia]. split; [done|lia| |by destruct f_evm]. unfold credit, refundRate, creditLimit in *. lia.
Qed.

(** The frame after a call that has come back with [gas']. *)
Lemma frame_called gas gas' e e' m st st' c p n : frame env g (coreOk R) 0 (gas + 1) (mkScope e m st c p n) -> sameFlags e e' -> settled env (static env g) e e' gas gas' -> gas' <= gas ->
  Forall wf st' -> (length st' <= 1024)%nat -> frame env g (coreOk R) 0 (gas' + 1) (mkScope e' m st' c p n).
Proof.
  intros [] [] [] Hg Hw Hl. cbn in *. split; try done; cbn; unfold credit, refundRate in *; try lia.
  - destruct f_evm. split; congruence.
  - by etrans.
  - intros HB. destruct se_grows as (_ & Hs & _). apply Hs. auto.
  - unfold len, params.StackLimit. lia.
Qed.

(** Gas that comes back. *)
Lemma frame_addGas gas m r e st c p n : frame env g (coreOk R) 0 (gas + r) (mkScope e m st c p n) -> 0 <= gas -> 0 <= r ->
  frame env g (coreOk R) 0 r (mkScope e m st (c <| Gas ::= fun x => u64 (x + gas) |>) p n).
Proof.
  intros Hf Hg Hr. pose proof (memOk_paid m ltac:(exact (frame_memOk _ _ _ _ _ Hf))). destruct Hf. cbn in *. change (2 ^ 55) with 36028797018963968 in Hmem.
  assert (u64 (Gas c + gas) = Gas c + gas) as E by (apply u64_small; unfold is_u64; change (2 ^ 64) with 18446744073709551616; lia).
  split; try done; unfold upd, set_Gas; cbn; rewrite ?E; lia.
Qed.

Lemma endCallOp_ok io is_ oo os args ret gas' err t e m st c p n : frame env g (coreOk R) 0 (gas' + 1) (mkScope e m st c p n) -> 0 <= gas' -> (length st < 1024)%nat ->
  wf io -> wf is_ -> wf oo -> wf os -> below (Len m) (toZ io, toZ is_) -> below (Len m) (toZ oo, toZ os) -> small (len (retBytes args ret)) ->
  wp (endCallOp io is_ oo os (ret, gas', err)) (opPost env g 1) (mkWorld t (mkScope e m st c p n)).
Proof.
  intros Hf Hg Hl Hio His Hoo Hos Hb1 Hb2 Hs. unfold endCallOp, addGas. evm_step. set (x := ofBool _). assert (wf x) as Hx by apply wf_ofBool. clearbody x.
  assert (frame env g (coreOk R) 0 (gas' + 1) (mkScope e m (x :: st) c p n)) as Hf1.
  { eapply frame_local; [exact Hf|constructor; [done|by apply (f_wf _ _ _ _ _ _ Hf)]|unfold len, params.StackLimit; cbn; lia|done|done|by destruct Hf]. }
  assert (forall m' (Q : outcome (list byte) -> World (Scope Abs) -> Prop) c', memOk m' -> below (Len m') (toZ io, toZ is_) -> (forall b, small (len b) -> Q (Ok b) (mkWorld t (mkScope e m' (x :: st) c' p n))) -> wp (readRet io is_ ret) Q (mkWorld t (mkScope e m' (x :: st) c' p n))) as Hread.
  { intros m' Q c' Hm' Hb' HQ. unfold readRet. destruct ret as [b|]; [apply wp_ret; by apply HQ|]. by apply memPtr_ok. }
  pose proof (frame_memOk _ _ _ _ _ Hf) as Hm. cbn [sc_mem] in Hm.
  assert (forall m', Len m' = Len m -> lastGasCost m' = lastGasCost m -> wp (modify (fun s => s <| sc_contract ::= fun c => c <| Gas ::= fun g => u64 (g + gas') |> |>);; readRet io is_ ret) (opPost env g 1) (mkWorld t (mkScope e m' (x :: st) c p n))) as Hend.
  { intros m' HL Hgc. assert (frame env g (coreOk R) 0 (gas' + 1) (mkScope e m' (x :: st) c p n)) as Hf2 by (eapply frame_local; [exact Hf1|by destruct Hf1|by destruct Hf1|done|done|by destruct Hf1]).
    evm_step. apply Hread; [exact (frame_memOk _ _ _ _ _ Hf2)|by rewrite HL|]. intros b Hb. split; [|done]. cbn [w_st]. by apply frame_addGas. }
  evm_step.
  - wp_norm. apply Hread; [done|done|]. intros b _. wp_norm. apply memSet_ok; [done..|]. intros m' HL Hgc. wp_norm. apply wp_bind_inv. by apply Hend.
  - apply wp_bind_inv. by apply Hend.
Qed.

Lemma bigVal_nonneg v : wf v -> 0 <= bigVal v /\ (U256.IsZero v = true -> bigVal v = 0).
Proof. intros Hv. unfold bigVal. destruct (U256.IsZero v) eqn:E; [done|]. split; [|done]. rewrite ToBig_spec by done. by apply toZ_range. Qed.

(** The four calls end in the same way. *)
Lemma called_ok (b : bool) (m : M (EVM Abs) callResult) io is_ oo os args gas st0 st t v d ab cg ro rd jd mem c p n : let e := mkEVM v d ab cg ro rd jd in
  frame env g (coreOk R) 0 (gas + 1) (mkScope e mem st0 c p n) -> Forall wf st -> (length st < 1024)%nat -> wf io -> wf is_ -> wf oo -> wf os ->
  below (Len mem) (toZ io, toZ is_) -> below (Len mem) (toZ oo, toZ os) -> (static env g = true -> b = true) ->
  wp m (callDone env b e args gas) (mkWorld t e) ->
  wp (r ← onEVM m; endCallOp io is_ oo os r) (opPost env g 1) (mkWorld t (mkScope e mem st c p n)).
Proof.
  intros e Hf Hw Hl Hio His Hoo Hos Hb1 Hb2 Hb Hm. wp_norm. apply wp_onEVM. eapply wp_mono; [exact Hm|]. intros o [t' e'] Hp. cbn [w_tick w_st]. destruct o as [[[ret gas'] err]|er|q]; [|done..].
  destruct Hp as (Hfl & Hg & Hs & Hse & _). wp_norm. cbn [w_st] in *. eapply endCallOp_ok; try done; try lia. eapply frame_called; [exact Hf|done| |lia|done|lia]. by eapply settled_weaken.
Qed.

Ltac call_open Hf Ha := op_open Hf; cbn [accesses sc_stack sc_mem] in Ha; rewrite !Forall_cons in Ha; destruct_and! Ha.

(** The gas that CALL passes on. *)
Lemma stipend_gas cg v m e st c p n : frame env g (coreOk R) 0 (cg + stipend v + 1) (mkScope e m st c p n) -> 0 <= cg + stipend v -> (if U256.IsZero v then cg else u64 (cg + params.CallStipend)) = cg + stipend v.
Proof.
  intros Hf H0'. destruct (frame_callable _ _ _ _ _ _ _ Hf H0') as [[] _]. change (2 ^ 55) with 36028797018963968 in *. unfold stipend in *. destruct (U256.IsZero v); [lia|]. apply u64_small. unfold is_u64. change (2 ^ 64) with 18446744073709551616. lia.
Qed.

Lemma opCall_ok t sc : frame env g (coreOk R) 0 (reserveOf X_opCall sc + 1) sc -> 0 <= reserveOf X_opCall sc -> ready X_opCall sc ->
  (IsBerlin (chainRules env) = true -> listed X_opCall (sc_stack sc) (v_core (e_db (sc_evm sc)))) ->
  (static env g = true -> match sc_stack sc with _ :: _ :: v :: _ => U256.IsZero v = true | _ => True end) -> wp (opCall env run) (opPost env g 1) (mkWorld t sc).
Proof.
  intros Hf Hr [Hk _ Ha _] Hli Hst. destruct sc as [[v d ab cg ro rd jd] m [|x0 [|a [|val [|io [|is_ [|oo [|os st]]]]]]] c p n]; [cbn in Hk; lia..|].
  cbn [reserveOf sc_evm callGasTemp sc_stack listed e_db] in *. call_open Hf Ha. pose proof (frame_memOk _ _ _ _ _ Hf) as Hm. pose proof (stipend_gas _ _ _ _ _ _ _ _ Hf Hr) as Eg. destruct (bigVal_nonneg val ltac:(done)) as [Hv1 Hv2].
  destruct (frame_callable _ _ _ _ _ _ _ Hf Hr) as [Hca Hb]. pose proof (ei_ro _ _ (f_evm _ _ _ _ _ _ Hf)) as Ero. cbn in Ero. subst ro.
  unfold opCall. do 8 evm_step. wp_norm. apply memPtr_ok; [done..|]. intros args Hargs. evm_step. rewrite Eg. apply wp_bind_inv. eapply called_ok with (b := static env g) (args := args); try done; [lia|].
  apply (Call_ok env bound run Hrun); try done. intros Hs. apply Hv2, Hst, Hs.
Qed.

Lemma opCallCode_ok t sc : frame env g (coreOk R) 0 (reserveOf X_opCallCode sc + 1) sc -> 0 <= reserveOf X_opCallCode sc -> ready X_opCallCode sc -> wp (opCallCode env run) (opPost env g 1) (mkWorld t sc).
Proof.
  intros Hf Hr [Hk _ Ha _]. destruct sc as [[v d ab cg ro rd jd] m [|x0 [|a [|val [|io [|is_ [|oo [|os st]]]]]]] c p n]; [cbn in Hk; lia..|].
  cbn [reserveOf sc_evm callGasTemp sc_stack] in *. call_open Hf Ha. pose proof (frame_memOk _ _ _ _ _ Hf) as Hm. pose proof (stipend_gas _ _ _ _ _ _ _ _ Hf Hr) as Eg.
  destruct (frame_callable _ _ _ _ _ _ _ Hf Hr) as [Hca Hb]. pose proof (ei_ro _ _ (f_evm _ _ _ _ _ _ Hf)) as Ero. cbn in Ero. subst ro.
  unfold opCallCode. do 8 evm_step. wp_norm. apply memPtr_ok; [done..|]. intros args Hargs. evm_step. rewrite Eg. apply wp_bind_inv. eapply called_ok with (b := static env g) (args := args); try done; [lia|].
  apply (CallCode_ok env bound run Hrun); try done. exact (f_self _ _ _ _ _ _ Hf).
Qed.

Lemma opDelegateCall_ok t sc : frame env g (coreOk R) 0 (reserveOf X_opDelegateCall sc + 1) sc -> 0 <= reserveOf X_opDelegateCall sc -> ready X_opDelegateCall sc -> wp (opDelegateCall env run) (opPost env g 1) (mkWorld t sc).
Proof.
  intros Hf Hr [Hk _ Ha _]. destruct sc as [[v d ab cg ro rd jd] m [|x0 [|a [|io [|is_ [|oo [|os st]]]]]] c p n]; [cbn in Hk; lia..|].
  cbn [reserveOf sc_evm callGasTemp sc_stack] in *. call_open Hf Ha. pose proof (frame_memOk _ _ _ _ _ Hf) as Hm.
  destruct (frame_callable _ _ _ _ _ _ _ Hf Hr) as [Hca Hb]. pose proof (ei_ro _ _ (f_evm _ _ _ _ _ _ Hf)) as Ero. cbn in Ero. subst ro.
  unfold opDelegateCall. do 7 evm_step. wp_norm. apply memPtr_ok; [done..|]. intros args Hargs. evm_step. apply wp_bind_inv. eapply called_ok with (b := static env g) (args := args); try done; [lia|].
  apply (DelegateCall_ok env bound run Hrun); try done; [by do 3 eexists|]. exact (f_self _ _ _ _ _ _ Hf).
Qed.

Lemma opStaticCall_ok t sc : frame env g (coreOk R) 0 (reserveOf X_opStaticCall sc + 1) sc -> 0 <= reserveOf X_opStaticCall sc -> ready X_opStaticCall sc ->
  (IsBerlin (chainRules env) = true -> listed X_opStaticCall (sc_stack sc) (v_core (e_db (sc_evm sc)))) -> wp (opStaticCall env run) (opPost env g 1) (mkWorld t sc).
Proof.
  intros Hf Hr [Hk _ Ha _] Hli. destruct sc as [[v d ab cg ro rd jd] m [|x0 [|a [|io [|is_ [|oo [|os st]]]]]] c p n]; [cbn in Hk; lia..|].
  cbn [reserveOf sc_evm callGasTemp sc_stack listed e_db] in *. call_open Hf Ha. pose proof (frame_memOk _ _ _ _ _ Hf) as Hm.
  destruct (frame_callable _ _ _ _ _ _ _ Hf Hr) as [Hca Hb].
  unfold opStaticCall. do 7 evm_step. wp_norm. apply memPtr_ok; [done..|]. intros args Hargs. evm_step. apply wp_bind_inv. eapply called_ok with (b := IsByzantium (chainRules env)) (args := args); try done; [lia|by intros [_ ?]%andb_prop|].
  by apply (StaticCall_ok env bound run Hrun).
Qed.

(** The creations. *)
Lemma created_ok (m : M (EVM Abs) createResult) (sv : Address -> option error -> M (Scope Abs) Int) k k1 gas st0 st t e mem c p n :
  static env g = false -> frame env g (coreOk R) 0 (gas + 1) (mkScope e mem st0 c p n) -> Forall wf st -> (length st < 1024)%nat ->
  wp m (createDone env k1 e gas) (mkWorld t e) -> (forall ret a gas' err, k (ret, a, gas', err) = (x ← sv a err; endCreate x (ret, a, gas', err))) ->
  (forall a err s (Q : outcome Int -> World (Scope Abs) -> Prop) t, (forall x, wf x -> Q (Ok x) (mkWorld t s)) -> wp (sv a err) Q (mkWorld t s)) ->
  wp (onEVM m ≫= k) (opPost env g 1) (mkWorld t (mkScope e mem st c p n)).
Proof.
  intros Hst Hf Hw Hl Hm Hk Hsv. wp_norm. apply wp_onEVM. eapply wp_mono; [exact Hm|]. intros o [t' e'] Hp. cbn [w_tick w_st]. destruct o as [[[[ret a] gas'] err]|er|q]; [|done..].
  destruct Hp as (Hfl & Hg & Hs & Hse & _). wp_norm. cbn [w_st] in *. rewrite Hk. wp_norm. apply Hsv. intros x Hx. wp_norm. unfold endCreate, addGas. evm_steps. split; [|destruct (isErr _ _); [done|apply small_0]]. cbn [w_st].
  apply frame_addGas; [|lia|lia]. eapply frame_called; [exact Hf|done| |lia|by constructor|cbn; lia]. by rewrite Hst.
Qed.

Lemma addressWord_ok (a : Address) s (Q : outcome Int -> World (Scope Abs) -> Prop) t : (forall x, wf x -> Q (Ok x) (mkWorld t s)) -> wp (lift (U256.SetBytes (arr_bytes a))) Q (mkWorld t s).
Proof. intros HQ. destruct (SetBytes_spec (arr_bytes a)) as (x & E & Hx & _). apply wp_lift. rewrite E. by apply HQ. Qed.

(** The gas that a creation gets: all but a part of what is left. *)
Lemma most_gas x : 0 <= x -> 0 <= x - x / 64 <= x.
Proof. intros Hx. pose proof (Z.div_mod x 64 ltac:(lia)). pose proof (Z.mod_pos_bound x 64 ltac:(lia)). lia. Qed.

Lemma opCreate_ok t sc : static env g = false -> frame env g (coreOk R) 0 1 sc -> ready X_opCreate sc -> wp (opCreate env run) (opPost env g 1) (mkWorld t sc).
Proof.
  intros Hst Hf [Hk _ Ha _]. destruct sc as [[v d ab cg ro rd jd] m [|val [|o [|k st]]] c p n]; [cbn in Hk; lia..|]. call_open Hf Ha. pose proof (frame_memOk _ _ _ _ _ Hf) as Hm. destruct (bigVal_nonneg val ltac:(done)) as [Hv1 _].
  destruct (f_gas _ _ _ _ _ _ Hf) as [Hg1 Hg2]. cbn [sc_contract] in *. pose proof (most_gas _ Hg1) as Hmost.
  unfold opCreate. do 3 evm_step. wp_norm. apply memCopy_ok; [done..|]. intros code Hcode. evm_step. rewrite (eo_150 env He). set (gas := Gas c - Gas c / 64) in *. evm_step; [lia|]. evm_step.
  assert (frame env g (coreOk R) 0 (gas + 1) (mkScope (mkEVM v d ab cg ro rd jd) m (val :: o :: k :: st) (c <| Gas ::= fun x => x - gas |>) p n)) as Hf' by (rewrite Z.add_comm; apply frame_take; [exact Hf|lia]).
  destruct (frame_callable _ _ _ _ _ _ _ Hf' ltac:(lia)) as [Hca Hb]. apply wp_bind_inv.
  destruct (Create_ok env He bound run Hrun (contractRef (c <| Gas ::= fun x => x - gas |>)) code gas (bigVal val) v d ab cg ro rd jd t) as (a & _ & Hcr); [done..|].
  eapply (created_ok _ (fun addr suberr => if (IsHomestead (chainRules env) && isErr suberr ErrCodeStoreOutOfGas) || (negb (isErr suberr ErrCodeStoreOutOfGas) && bool_decide (is_Some suberr)) then mret U256.Clear else lift (U256.SetBytes (arr_bytes addr))));
    [done|exact Hf'|done|lia|exact Hcr|done|].
  intros b err s Q t' HQ. destruct (_ || _); [apply wp_ret, HQ, wf_Clear|by apply addressWord_ok].
Qed.

Lemma opCreate2_ok t sc : static env g = false -> frame env g (coreOk R) 0 1 sc -> ready X_opCreate2 sc -> wp (opCreate2 env run) (opPost env g 1) (mkWorld t sc).
Proof.
  intros Hst Hf [Hk _ Ha _]. destruct sc as [[v d ab cg ro rd jd] m [|val [|o [|k [|salt st]]]] c p n]; [cbn in Hk; lia..|]. call_open Hf Ha. pose proof (frame_memOk _ _ _ _ _ Hf) as Hm. destruct (bigVal_nonneg val ltac:(done)) as [Hv1 _].
  destruct (f_gas _ _ _ _ _ _ Hf) as [Hg1 Hg2]. cbn [sc_contract] in *. pose proof (most_gas _ Hg1) as Hmost.
  unfold opCreate2. do 4 evm_step. wp_norm. apply memCopy_ok; [done..|]. intros code Hcode. evm_step. set (gas := Gas c - Gas c / 64) in *. evm_step; [lia|]. evm_step.
  assert (frame env g (coreOk R) 0 (gas + 1) (mkScope (mkEVM v d ab cg ro rd jd) m (val :: o :: k :: salt :: st) (c <| Gas ::= fun x => x - gas |>) p n)) as Hf' by (rewrite Z.add_comm; apply frame_take; [exact Hf|lia]).
  destruct (frame_callable _ _ _ _ _ _ _ Hf' ltac:(lia)) as [Hca Hb]. apply wp_bind_inv.
  eapply (created_ok _ (fun addr suberr => if bool_decide (is_Some suberr) then mret U256.Clear else lift (U256.SetBytes (arr_bytes addr)))); [done|exact Hf'|done|lia|by apply (Create2_ok env He bound run Hrun)|done|].
  intros a err s Q t' HQ. destruct (bool_decide _); [apply wp_ret, HQ, wf_Clear|by apply addressWord_ok].
Qed.

(** ** Every instruction *)

(** Instructions that a read-only frame does not run. *)
Definition writing (f : executionFunc) : bool :=
  bool_of f [X_opSstore; X_opCreate; X_opCreate2; X_opSuicide] || match f with X_makeLog _ => true | _ => false end.
Definition permitted (f : executionFunc) (st : Stack) : Prop :=
  writing f = false /\ match f, st with X_opCall, _ :: _ :: v :: _ => U256.IsZero v = true | _, _ => True end.

Lemma runOp_ok f t sc : sizesOk f = true -> frame env g (coreAt env f sc) 0 (reserveOf f sc + slack f) sc -> 0 <= reserveOf f sc -> ready f sc ->
  (IsBerlin (chainRules env) = true -> listed f (sc_stack sc) (v_core (e_db (sc_evm sc)))) -> (static env g = true -> permitted f (sc_stack sc)) ->
  wp (runOp env run f) (opPost env g (slack f)) (mkWorld t sc).
Proof.
  intros Hs Hf Hr Hrd Hli Hpe. destruct (quiet f) eqn:Eq.
  - apply quiet_ok; try done. by destruct f.
  - assert (writing f = true -> static env g = false) as Hw by (intros Ew; destruct (static env g); [destruct (Hpe eq_refl) as [Hp _]; congruence|done]).
    pose proof (rd_words _ _ Hrd) as Hk. destruct f; try discriminate Eq; cbn [runOp].
    + by apply opCall_ok; [..|intros Hst; apply Hpe in Hst; destruct Hst].
    + by apply opCallCode_ok.
    + apply opCreate_ok; [by apply Hw|exact Hf|done].
    + apply opCreate2_ok; [by apply Hw|exact Hf|done].
    + by apply opDelegateCall_ok.
    + apply opSstore_ok; [by apply Hw|exact Hf|exact Hk].
    + by apply opStaticCall_ok.
    + apply opSuicide_ok; [by apply Hw|exact Hf|exact Hk].
    + apply makeLog_ok; [by apply Hw|exact Hf|done].
Qed.

(** ** One operation *)

(** The check for read-only frames lets through only what a static frame may run. *)
Lemma modifies_ok op o t sc (Q : outcome bool -> World (Scope Abs) -> Prop) : entryOk (chainRules env) op o -> Forall wf (sc_stack sc) -> (fst (arity (execute o)) <= length (sc_stack sc))%nat ->
  (forall b, (b = false -> permitted (execute o) (sc_stack sc)) -> Q (Ok b) (mkWorld t sc)) -> wp (modifies o op) Q (mkWorld t sc).
Proof.
  intros En Hwf Hk HQ. unfold modifies. rewrite (en_writes _ _ _ En). change (_ || _) with (writing (execute o)). destruct (writing (execute o)) eqn:Ew; [by apply wp_ret, HQ|].
  destruct (Z.eqb_spec op opcodes.CALL) as [Eop|Hne].
  - rewrite (proj2 (en_call _ _ _ En) Eop) in *. destruct sc as [e m [|x0 [|a [|v st]]] c p n]; [cbn in Hk; lia..|]. cbn [sc_stack] in *. evm_steps. apply HQ. intros Hb. split; [done|]. rewrite Sign_IsZero in Hb by (by repeat (apply Forall_cons in Hwf as [? Hwf])). by apply negb_false_iff in Hb.
  - apply wp_ret, HQ. intros _. split; [done|]. destruct (execute o) eqn:Ex; try done. by destruct (Hne (proj1 (en_call _ _ _ En) Ex)).
Qed.

Lemma frame_resize P words r e m st c p n : frame env g P (32 * words) r (mkScope e m st c p n) -> frame env g P 0 r (mkScope e (Resize m (32 * words)) st c p n).
Proof. intros []. split; try done; cbn in *; [by rewrite Resize_0|by rewrite lastGasCost_Resize]. Qed.

Lemma coreAt_eq f sc sc' k : sc_stack sc' = sc_stack sc -> self (sc_contract sc') = self (sc_contract sc) -> coreAt env f sc k -> coreAt env f sc' k.
Proof. intros Es Ec. unfold coreAt. by rewrite Es, Ec. Qed.

Lemma frame_returnData P r b e m st c p n : small (len b) -> frame env g P 0 r (mkScope e m st c p n) -> frame env g P 0 r (mkScope (e <| returnData := b |>) m st c p n).
Proof. intros Hb []. split; try done. by destruct f_evm. Qed.
Lemma failed_returnData b e m st c p n : small (len b) -> failed g (mkScope e m st c p n) -> failed g (mkScope (e <| returnData := b |>) m st c p n).
Proof. intros Hb []. split; try done. by destruct d_evm. Qed.

Lemma execute_ok o t sc : wp (runOp env run (execute o)) (opPost env g (slack (execute o))) (mkWorld t sc) ->
  wp (r ← try_ (runOp env run (execute o));
      when (returns o) (modify (fun s => s <| sc_evm ::= fun e => e <| returnData := match r with inl res => res | inr _ => [] end |> |>));;
      match r with inl res => mret res | inr e => fail e end) (opPost env g (slack (execute o))) (mkWorld t sc).
Proof.
  intros Hr. wp_norm. apply wp_try. eapply wp_mono; [exact Hr|]. intros [res|er|q] [t' [e m st c p n]] Hp; wp_norm; [| |exact Hp].
  - destruct Hp as [Hf Hs]. apply wp_when; intros _; evm_steps; (split; [|done]); [by apply frame_returnData|done].
  - apply wp_when; intros _; evm_steps; [apply failed_returnData; [apply small_0|done]|done].
Qed.

Lemma guard_ok op o t sc (Q : outcome unit -> World (Scope Abs) -> Prop) : entryOk (chainRules env) op o -> Forall wf (sc_stack sc) -> (fst (arity (execute o)) <= length (sc_stack sc))%nat ->
  ((static env g = true -> permitted (execute o) (sc_stack sc)) -> Q (Ok ()) (mkWorld t sc)) -> (forall er, Q (Fail er) (mkWorld t sc)) ->
  wp (when (static env g) (w ← modifies o op; fail_if w ErrWriteProtection)) Q (mkWorld t sc).
Proof.
  intros En Hwf Hk HQ HF. apply wp_when; intros Hs; [|apply HQ; congruence]. wp_norm. eapply modifies_ok; [done..|]. intros b Hb. wp_norm. apply wp_fail_if; intros ->; [apply HF|]. apply HQ. auto.
Qed.

(** The payment, the memory and the execution. *)
Lemma paid_ok op o words t sc : entryOk (chainRules env) op o -> paid env g (execute o) (coreAt env (execute o) sc) (32 * words) sc (Ok ()) (mkWorld t sc) ->
  0 <= words -> ready (execute o) (sc <| sc_mem ::= fun m => Resize m (32 * words) |>) -> (static env g = true -> permitted (execute o) (sc_stack sc)) ->
  wp (when (Z.ltb 0 (32 * words)) (modify (fun s => s <| sc_mem ::= fun m => Resize m (32 * words) |>));;
      r ← try_ (runOp env run (execute o));
      when (returns o) (modify (fun s => s <| sc_evm ::= fun e => e <| returnData := match r with inl res => res | inr _ => [] end |> |>));;
      match r with inl res => mret res | inr e => fail e end) (opPost env g (slack (execute o))) (mkWorld t sc).
Proof.
  intros En (Hf & Hr & _ & _ & _ & _ & Hli) Hw Hrd Hpe. destruct sc as [e m st c p n]. cbn [w_st] in *.
  assert (forall m', m' = Resize m (32 * words) -> wp (runOp env run (execute o)) (opPost env g (slack (execute o))) (mkWorld t (mkScope e m' st c p n))) as Hrun'.
  { intros m' ->. apply runOp_ok; [exact (en_sizes _ _ _ En)|exact (frame_resize _ _ _ _ _ _ _ _ _ Hf)|exact Hr|exact Hrd|exact Hli|exact Hpe]. }
  wp_norm. apply wp_when; intros Hs.
  - evm_step. apply wp_bind_inv, execute_ok, Hrun'. done.
  - apply Z.ltb_ge in Hs. wp_norm. apply wp_bind_inv, execute_ok, Hrun'. replace (32 * words) with 0 by lia. by rewrite Resize_0.
Qed.

Lemma operate_ok op o t sc : entryOk (chainRules env) op o -> frame env g (coreOk R) 0 0 sc -> execute o = X_opStop \/ sc_pc sc < len (Code (sc_contract sc)) ->
  wp (operate env run o op) (opPost env g (slack (execute o))) (mkWorld t sc).
Proof.
  intros En Hf Hpc. destruct sc as [e m st c p n]. cbn [sc_pc sc_contract] in Hpc. pose proof (f_wf _ _ _ _ _ _ Hf) as Hwf. pose proof (en_const _ _ _ En) as Hcg.
  assert (forall er, opPost env g (slack (execute o)) (Fail er) (mkWorld t (mkScope e m st c p n))) as HF by (intros er; exact (frame_failed _ _ _ _ _ _ Hf)).
  unfold operate. evm_step. apply wp_fail_if; intros Hmin; wp_norm; [apply HF|]. apply wp_fail_if; intros Hmax; wp_norm; [apply HF|].
  apply Z.ltb_ge in Hmin, Hmax. rewrite (en_min _ _ _ En) in Hmin. rewrite (en_max _ _ _ En) in Hmax. unfold len in Hmin, Hmax.
  assert (fst (arity (execute o)) <= length st)%nat as Hk by lia. evm_step. pose proof (ei_ro _ _ (f_evm _ _ _ _ _ _ Hf)) as Ero. cbn [sc_evm] in Ero. rewrite Ero. change (g_ro g && _) with (static env g).
  eapply guard_ok; [exact En|done|done| |exact HF]. cbn [sc_stack]. intros Hpe. wp_norm. rewrite (eo_override env He). cbn [when negb]. evm_step; [by apply HF|].
  assert (frame env g (coreOk R) 0 (constantGas o) (mkScope e m st (c <| Gas ::= fun x => x - constantGas o |>) p n)) as Hf1 by (apply (frame_take env g R 0 0); [exact Hf|lia]).
  evm_step; [discriminate|]. eapply operationMemory_ok; [exact En|done|done| |intros er; exact (frame_failed _ _ _ _ _ _ Hf1)]. intros words Hw Hz Ha. wp_norm.
  eapply wp_mono; [by eapply payDynamic_ok|]. intros [[]|er|q] [t' sc'] Hp; wp_norm; [|exact Hp|done]. pose proof Hp as (Hf2 & Hr & Es & Ec & Ecode & Epc & Hli). cbn [w_st sc_stack sc_contract sc_pc] in *.
  apply wp_bind_inv. eapply paid_ok; [exact En| |exact Hw| |by rewrite Es].
  - split_and!; try done; [|by rewrite Es]. eapply frame_weaken; [exact Hf2|done|]. by refine (coreAt_eq _ _ sc' _ _ _ (f_core _ _ _ _ _ _ Hf2)).
  - split; cbn; [by rewrite Es|rewrite Es; lia| |by rewrite Ecode, Epc]. rewrite Es. eapply Forall_impl; [exact Ha|]. intros pr Hpr. eapply below_mono; [exact Hpr|]. rewrite Len_Resize; lia.
Qed.

(** ** One turn *)

Definition turnPost (o : outcome (option (list byte * option error))) (w : World (Scope Abs)) : Prop :=
  match o with
  | Ok None => frame env g (coreOk R) 0 1 (w_st w)
  | Ok (Some (res, None)) => frame env g (coreOk R) 0 0 (w_st w) /\ small (len res)
  | Ok (Some (res, Some _)) => failed g (w_st w) /\ small (len res)
  | Fail _ => False
  | Panic p => p = bitvecRange
  end.

Lemma frame_steps P size r e m st c p n n' : frame env g P size r (mkScope e m st c p n) -> frame env g P size r (mkScope e m st c p n').
Proof. intros []. by split. Qed.

(** An operation that goes on has been paid for. *)
Lemma slack_going op o : entryOk (chainRules env) op o -> reverts o = false -> halts o = false -> slack (execute o) = 1.
Proof. intros En. rewrite (en_reverts _ _ _ En), (en_halts _ _ _ En). unfold slack. by destruct (execute o). Qed.

Lemma GetOp_inside c p op o : GetOp c p = op -> entryOk (chainRules env) op o -> execute o = X_opStop \/ p < len (Code c).
Proof. intros E En. unfold GetOp, GetByte in E. destruct (Z.ltb_spec p (len (Code c))); [by right|]. left. by apply (en_stop _ _ _ En). Qed.

Lemma turn_ok t sc : frame env g (coreOk R) 0 0 sc -> wp (turn env run) turnPost (mkWorld t sc).
Proof.
  intros Hf. destruct sc as [e m st c p n]. unfold turn. evm_step. evm_step. evm_step. apply (frame_steps _ _ _ _ _ _ _ _ _ (n + 1)) in Hf. set (n' := n + 1) in *. clearbody n'.
  destruct (Z.eqb _ 0 && _); [apply wp_ret; split; [done|apply small_0]|]. evm_step. evm_step. rewrite (eo_table env He). destruct (instructionSet _ !! _) as [o|] eqn:Eo; [|apply wp_ret; split; [by eapply frame_failed|apply small_0]].
  apply instructionSet_entryOk in Eo as En. wp_norm. apply wp_try. eapply wp_mono; [apply operate_ok; [exact En|exact Hf|by eapply GetOp_inside]|]. intros [res|er|q] [t' [e' m' st' c' p' k']] Hp; wp_norm; [|apply wp_ret; split; [exact Hp|apply small_0]|exact Hp].
  destruct Hp as [Hf' Hs]. cbn [w_st] in Hf'. destruct (reverts o) eqn:Er; [apply wp_ret; split; [by eapply frame_failed|done]|]. destruct (halts o) eqn:Eh.
  - apply wp_ret. split; [|done]. eapply frame_weaken; [exact Hf'|unfold slack; by destruct (finalOp _)|by destruct Hf'].
  - rewrite (slack_going _ _ En Er Eh) in Hf'. wp_norm. apply wp_when; intros _; evm_steps; [|done]. eapply frame_local; [exact Hf'|by destruct Hf'|by destruct Hf'|done|done|apply u64_range].
Qed.
End frame_calls.

(** * The loop *)

Section loops.
Context `{Crypto} `{PrecompileLibs} (env : Env) (He : envOk env).

Abbreviation R := (clearRefund env).

(** The same frame, a turn later. *)
Definition later (g : ghost) : ghost := mkGhost (g_db g) (g_depth g) (g_abort g) (g_ro g) (g_mem g - 1) (g_credit g).

Lemma frame_later g sc : frame env g (coreOk R) 0 1 sc -> frame env (later g) (coreOk R) 0 0 sc.
Proof.
  intros Hf. destruct sc as [e m st c p n]. pose proof (memOk_paid m ltac:(exact (frame_memOk _ _ _ _ _ Hf))). destruct Hf. cbn in *. split; try done; cbn; [by destruct f_evm|lia..|]. unfold refundRate in *. lia.
Qed.
Lemma frame_earlier g P r sc : frame env (later g) P 0 r sc -> frame env g P 0 r sc.
Proof. intros []. cbn in *. split; try done; cbn; [by destruct f_evm|lia..]. Qed.
Lemma failed_earlier g sc : failed (later g) sc -> failed g sc.
Proof. intros []. cbn in *. split; try done; [by destruct d_evm|lia]. Qed.

Definition loopPost (g : ghost) (o : outcome (list byte * option error)) (w : World (Scope Abs)) : Prop :=
  match o with
  | Ok (res, None) => frame env g (coreOk R) 0 0 (w_st w) /\ small (len res)
  | Ok (res, Some _) => failed g (w_st w) /\ small (len res)
  | Fail _ => False
  | Panic p => p = bitvecRange
  end.
Lemma loopPost_earlier g o w : loopPost (later g) o w -> loopPost g o w.
Proof. destruct o as [[res [er|]]|er|q]; [| |done..]; intros [H1 H2]; (split; [|done]); [by apply failed_earlier|by apply frame_earlier]. Qed.

Definition loopSpec (fuel : nat) : Prop :=
  forall g t sc, g_credit g <= creditLimit -> g_mem g <= 2 ^ 55 -> g_mem g < Z.of_nat fuel -> frame env g (coreOk R) 0 0 sc -> wp (loop env fuel) (loopPost g) (mkWorld t sc).

(** ** From the loop to a run *)

Lemma wp_inFrame c (lp : M (Scope Abs) (list byte * option error)) (Q : outcome runResult -> World (EVM Abs) -> Prop) t e :
  wp lp (fun o w => Q (outcome_map (fun r => (r, Gas (sc_contract (w_st w)))) o) (mkWorld (w_tick w) (sc_evm (w_st w)))) (mkWorld t (mkScope e NewMemory [] c 0 0)) -> wp (inFrame c lp) Q (mkWorld t e).
Proof. unfold wp, inFrame. cbn [w_tick w_st]. by destruct (lp _) as [o w']. Qed.

(** What the frame of a run starts from. *)
Definition started (e : EVM Abs) (ro : bool) (gas : Z) : ghost := mkGhost (e_db e) (depth e + 1) (abort e) (readOnly e || ro) gas (credit (v_core (e_db e)) gas).

Lemma frame_started e ro c input v d ab cg r rd jd : e = mkEVM v d ab cg r rd jd -> callable env e (Gas c) -> small (len (Code c)) -> small (len input) -> (IsBerlin (chainRules env) = true -> self c ∈ k_addresses (v_core v)) ->
  frame env (started e ro (Gas c)) (coreOk R) 0 0 (mkScope (mkEVM v (d + 1) ab cg (r || ro) [] jd) NewMemory [] (c <| Input := input |>) 0 0).
Proof.
  intros -> [] Hc Hi Hl. cbn in *. split; try done; cbn; try lia.
  - rewrite Resize_0. apply memOk_New.
  - unfold credit. lia.
Qed.

(** The end of a run that has gone through the frame. *)
Lemma run_ended v d ab cg (ro r : bool) rd jd gas o w : loopPost (started (mkEVM v d ab cg r rd jd) ro gas) o w ->
  match outcome_map (fun x => (x, Gas (sc_contract (w_st w)))) o with
  | Ok x => forall t ro', ro' = r -> runPost env ((r || ro) && IsByzantium (chainRules env)) (mkEVM v d ab cg r rd jd) gas (Ok x)
      (mkWorld t ((sc_evm (w_st w)) <| readOnly := ro' |> <| depth ::= fun d => d - 1 |>)) /\ readOnly (sc_evm (w_st w)) = r || ro
  | Fail _ => False
  | Panic p => p = bitvecRange
  end.
Proof.
  destruct o as [[res [er|]]|er|q]; [| |done..]; intros [Hf Hs]; cbn [outcome_map]; intros t ro' ->; destruct Hf; (destruct f_evm || destruct d_evm); cbn in *; (split; [|done]).
  - split_and!; try done; try lia. split; cbn; try done. lia.
  - split_and!; try done; try lia; split; cbn; try done; try lia. unfold credit, refundRate in *. lia.
Qed.

Lemma run_body fuel c input (ro r : bool) t v d ab cg rd jd : let e := mkEVM v d ab cg r rd jd in
  loopSpec fuel -> callable env e (Gas c) -> Gas c < Z.of_nat fuel -> small (len (Code c)) -> small (len input) -> (IsBerlin (chainRules env) = true -> self c ∈ k_addresses (v_core v)) ->
  wp (x ← (if Z.eqb (len (Code c)) 0 then mret ([], None, Gas c) else inFrame (c <| Input := input |>) (loop env fuel));
      when (ro && negb r) (modify (fun e => e <| readOnly := false |>));; modify (fun e => e <| depth ::= fun d => d - 1 |>);; mret x)
    (runPost env ((r || ro) && IsByzantium (chainRules env)) e (Gas c)) (mkWorld t (mkEVM v (d + 1) ab cg (r || ro) [] jd)).
Proof.
  intros e Hl Hca Hb Hc Hi Hself. subst e.
  assert (forall x t' e', (forall ro', ro' = r -> runPost env ((r || ro) && IsByzantium (chainRules env)) (mkEVM v d ab cg r rd jd) (Gas c) (Ok x) (mkWorld t' (e' <| readOnly := ro' |> <| depth ::= fun d => d - 1 |>)) /\ readOnly e' = r || ro) ->
    wp (when (ro && negb r) (modify (fun e => e <| readOnly := false |>));; modify (fun e => e <| depth ::= fun d => d - 1 |>);; mret x)
      (runPost env ((r || ro) && IsByzantium (chainRules env)) (mkEVM v d ab cg r rd jd) (Gas c)) (mkWorld t' e')) as Htail.
  { intros x t' [v' d' ab' cg' ro' rd' jd'] Hx. destruct (Hx r eq_refl) as [Hp Ero]. cbn in Ero. subst ro'. wp_norm. apply wp_when; intros Hs; wp_norm; repeat (wp_prim; wp_norm); destruct r, ro; try discriminate Hs; exact Hp. }
  wp_norm. destruct (Z.eqb _ 0).
  - wp_norm. apply wp_ret. wp_norm. apply wp_bind_inv. apply Htail. intros ro' ->. split; [|done]. destruct Hca. cbn in *. split_and!; try done; try lia. split; cbn; try done; lia.
  - apply wp_inFrame. eapply wp_mono; [apply (Hl (started (mkEVM v d ab cg r rd jd) ro (Gas c))); [apply Hca|apply Hca|exact Hb|by eapply frame_started]|].
    intros o w Hp. apply run_ended in Hp. destruct (outcome_map _ _) as [x|er|q]; wp_norm; [|done..]. apply wp_bind_inv, Htail. intros ro' E. by apply Hp.
Qed.

Lemma runInternal_ok fuel : loopSpec fuel -> runSpec env (Z.of_nat fuel) (runInternal (loop env fuel)).
Proof.
  intros Hl c input ro [v d ab cg r rd jd] t Hca Hb Hc Hi Hself. pose proof (run_body fuel c input ro r t v d ab cg rd jd Hl Hca Hb Hc Hi Hself) as Hbody. unfold runInternal. do 2 (wp_norm; wp_prim; wp_norm). cbn [w_st readOnly upd set_depth] in *.
  apply wp_when; intros Hs; wp_norm; [wp_prim; wp_norm|]; wp_prim; wp_norm; apply wp_bind_inv; destruct r, ro; try discriminate Hs; exact Hbody.
Qed.

Lemma loop_ok fuel : loopSpec fuel.
Proof.
  induction fuel as [|fuel IH]; intros g t sc Hcr Hm Hfu Hf; [destruct (f_gas _ _ _ _ _ _ Hf); lia|]. cbn [loop]. wp_norm.
  eapply wp_mono; [eapply (turn_ok env He g Hcr Hm (Z.of_nat fuel)); [by apply runInternal_ok|lia|exact Hf]|]. intros [[[res [er|]]|]|er|q] w Hp; wp_norm; [by apply wp_ret..| |done|done].
  destruct w as [t' sc']. eapply wp_mono; [apply (IH (later g)); [done|cbn; lia|cbn; lia|by apply frame_later]|]. intros o w. apply loopPost_earlier.
Qed.

(** With more fuel than gas, the interpreter does what its callers rely on. *)
Lemma interpreter_ok fuel : runSpec env (Z.of_nat fuel) (Run_ env fuel).
Proof. apply runInternal_ok, loop_ok. Qed.
End loops.
