(* ===== verification/EvmProps.v ===== *)
(** What the EVM promises.

    Calls and creations from the outside, with the interpreter plugged in: they return,
    within their gas, and keep the state in order; a frame at any turn of the loop; the
    analysis of jump destinations; the return data of the identity contract; and
    examples. *)

From S2P Require Import Prelude Common Rlp RlpEnc Uint256 Uint256Spec Uint256Div Uint256Conv StateSpec StateDB StateRefine StateProps EvmBase EvmTable EvmPre Evm EvmSim EvmInv EvmGas EvmOps EvmExec EvmWrite EvmCalls EvmRun.
From Stdlib Require Import Strings.Byte.
#[local] Open Scope Z_scope.

(** * Calls *)

(** What can be read of an account that is as before, or touched. *)
Lemma orNew_reads `{Crypto} {A} (f : account -> A) (o o' : option account) : orNew o = orNew o' -> from_option f (f newAccount) o' = from_option f (f newAccount) o.
Proof. unfold orNew. destruct o, o'; cbn; congruence. Qed.

Section evm_call.
Context `{Crypto} `{PrecompileLibs} (env : Env) (He : envOk env) (fuel : nat).
Context (cl : ContractRef) (addr : Address) (input : list byte) (gas val : Z) (t : nat) (e : EVM Abs).
Context (Hca : callable env e gas) (Hfuel : gas < Z.of_nat fuel) (Hinput : small (len input)) (Hval : 0 <= val).
Context (Hlisted : IsBerlin (chainRules env) = true -> addr ∈ k_addresses (v_core (e_db e))).

Lemma evmCall_done : (readOnly e && IsByzantium (chainRules env) = true -> val = 0) ->
  wp (evmCall env fuel cl addr input gas val) (callDone env (readOnly e && IsByzantium (chainRules env)) e input gas) (mkWorld t e).
Proof. intros Hst. destruct e as [v d ab cg ro rd jd]. by apply (Call_ok env _ _ (interpreter_ok env He fuel)). Qed.

Lemma evmStaticCall_done : wp (evmStaticCall env fuel cl addr input gas) (callDone env (IsByzantium (chainRules env)) e input gas) (mkWorld t e).
Proof. destruct e as [v d ab cg ro rd jd]. by apply (StaticCall_ok env _ _ (interpreter_ok env He fuel)). Qed.

(** C11: A call returns when the fuel exceeds its gas, whatever the code that it runs and
    whatever that code calls or creates: no fault of the stack, the memory, the state or
    the arithmetic, and no more gas back than it got.  The one panic that is not excluded
    is the reading of a jump analysis past its end: analyses are shared by code hash, and
    nothing is assumed of the hash function.  The rules are those of Homestead and
    EIP-150 or later, and the gas is at most 2^55. *)
Theorem evmCall_returns : (readOnly e && IsByzantium (chainRules env) = true -> val = 0) ->
  match evmCall env fuel cl addr input gas val (mkWorld t e) with
  | (Ok (_, gas', _), w) => 0 <= gas' <= gas /\ depth (w_st w) = depth e /\ readOnly (w_st w) = readOnly e
  | (Fail _, _) => False
  | (Panic p, _) => p = bitvecRange
  end.
Proof.
  intros Hst. pose proof (evmCall_done Hst) as Hp. unfold wp in Hp. destruct (evmCall _ _ _ _ _ _ _ _) as [[[[ret gas'] err]|er|q] w]; [|done..]. destruct Hp as ([] & Hg & _). done.
Qed.

(** C13: A call that ends with an error leaves every account, the refund counter, the
    access list and the logs exactly as they were. *)
Theorem evmCall_failure_restores : (readOnly e && IsByzantium (chainRules env) = true -> val = 0) ->
  match evmCall env fuel cl addr input gas val (mkWorld t e) with
  | (Ok (_, _, Some _), w) => v_core (e_db (w_st w)) = v_core (e_db e)
  | _ => True
  end.
Proof.
  intros Hst. pose proof (evmCall_done Hst) as Hp. unfold wp in Hp. destruct (evmCall _ _ _ _ _ _ _ _) as [[[[ret gas'] [err|]]|er|q] w]; [|done..]. destruct Hp as (_ & _ & _ & _ & Hr). by apply Hr.
Qed.

(** C15: A call creates no money: the sum of all balances does not grow, and every balance
    stays non-negative. *)
Theorem evmCall_no_inflation : (readOnly e && IsByzantium (chainRules env) = true -> val = 0) ->
  match evmCall env fuel cl addr input gas val (mkWorld t e) with
  | (Ok _, w) => totalBalance (v_core (e_db (w_st w))) <= totalBalance (v_core (e_db e)) /\ forall a, 0 <= balanceOf (v_core (e_db (w_st w))) a
  | _ => True
  end.
Proof.
  intros Hst. pose proof (evmCall_done Hst) as Hp. unfold wp in Hp. destruct (evmCall _ _ _ _ _ _ _ _) as [[[[ret gas'] err]|er|q] w]; [|done..]. destruct Hp as (_ & _ & _ & [Hc Hg _] & _).
  split; [apply Hg|]. intros a. by eapply balanceOf_nonneg.
Qed.

(** C26: The refund counter stays far below its 64 bits: it grows by no more than 256 for
    each unit of gas that the call has used, and it always covers the refunds of the
    slots that are cleared by now. *)
Theorem evmCall_refund_bounded : (readOnly e && IsByzantium (chainRules env) = true -> val = 0) ->
  match evmCall env fuel cl addr input gas val (mkWorld t e) with
  | (Ok (_, gas', _), w) => let k := v_core (e_db (w_st w)) in
      clearRefund env * clearedIn k <= k_refund k <= k_refund (v_core (e_db e)) + 256 * (gas - gas') /\ k_refund k < 2 ^ 64
  | _ => True
  end.
Proof.
  intros Hst. pose proof (evmCall_done Hst) as Hp. unfold wp in Hp. destruct (evmCall _ _ _ _ _ _ _ _) as [[[[ret gas'] err]|er|q] w]; [|done..]. destruct Hp as (_ & Hg & _ & [[_ Hc] _ Hr] & _).
  destruct Hca as [_ _ Hl _]. unfold credit, refundRate, creditLimit in *. change (2 ^ 63) with 9223372036854775808 in *. change (2 ^ 64) with 18446744073709551616. cbv zeta. lia.
Qed.

(** C14: A static call changes nothing: neither an account nor the logs, however deep the
    calls in it go. *)
Theorem evmStaticCall_reads_only : IsByzantium (chainRules env) = true ->
  match evmStaticCall env fuel cl addr input gas (mkWorld t e) with
  | (Ok _, w) => let k := v_core (e_db e) in let k' := v_core (e_db (w_st w)) in
      (forall a, balanceOf k' a = balanceOf k a /\ nonceOf k' a = nonceOf k a /\ codeOf k' a = codeOf k a /\ suicidedOf k' a = suicidedOf k a /\
        forall s, storageOf k' a s = storageOf k a s) /\
      k_logs k' = k_logs k
  | (Fail _, _) => False
  | (Panic p, _) => p = bitvecRange
  end.
Proof.
  intros Hbyz. pose proof evmStaticCall_done as Hp. unfold wp in Hp. rewrite Hbyz in Hp. destruct (evmStaticCall _ _ _ _ _ _ _) as [[[[ret gas'] err]|er|q] w]; [|done..]. destruct Hp as (_ & _ & _ & [_ (_ & _ & _ & Hs) _] & _).
  destruct (Hs eq_refl) as (Ha & Hl & _). cbv zeta. split; [|done]. intros a. specialize (Ha a).
  split_and!; [exact (orNew_reads ac_balance _ _ Ha)|exact (orNew_reads ac_nonce _ _ Ha)|exact (orNew_reads ac_code _ _ Ha)|exact (orNew_reads ac_suicided _ _ Ha)|]. intros s. exact (orNew_reads (fun x => slot (ac_storage x) s) _ _ Ha).
Qed.
End evm_call.

(** * Creations *)

Section evm_create.
Context `{Crypto} `{PrecompileLibs} (env : Env) (He : envOk env) (fuel : nat).

(** C27: A creation returns when the fuel exceeds its gas; one that ends with an error
    leaves nothing of itself but the nonce of its creator and the new address on the
    access list, and no creation makes the sum of all balances grow. *)
Theorem evmCreate_failure_restores cl code gas val t e : callable env e gas -> gas < Z.of_nat fuel -> small (len code) -> 0 <= val ->
  exists a, CreateAddress (refAddress cl) (nonceOf (v_core (e_db e)) (refAddress cl)) = Ok a /\
  match evmCreate env fuel cl code gas val (mkWorld t e) with
  | (Ok (_, _, gas', err), w) => let k := v_core (e_db e) in let k' := v_core (e_db (w_st w)) in
      0 <= gas' <= gas /\ totalBalance k' <= totalBalance k /\ (is_Some err -> k' = k \/ k' = announced env (refAddress cl) a k)
  | (Fail _, _) => False
  | (Panic p, _) => p = bitvecRange
  end.
Proof.
  intros Hca Hf Hc Hv. destruct e as [v d ab cg ro rd jd]. destruct (Create_ok env He _ _ (interpreter_ok env He fuel) cl code gas val v d ab cg ro rd jd t) as (a & Ea & Hp); [done..|]. exists a. split; [done|].
  unfold wp, evmCreate in *. destruct (Create _ _ _ _ _ _ _) as [[[[[ret a'] gas'] err]|er|q] w]; [|done..]. destruct Hp as (_ & Hg & _ & [_ (_ & _ & Ht & _) _] & Hr). done.
Qed.
End evm_create.

(** * Over a state database *)

Section over_database.
Context `{Crypto} `{PrecompileLibs} {S : Type} `{!StateDB S} `{!StateDBSpec S} (env : Env).

Context (He : envOk env) (fuel : nat).

(** C12: The EVM and the journaled state database together: over a database that
    represents an abstract state, a call returns within its gas, the database represents
    an abstract state again with no more money in it, and after an error that state has
    the accounts, the refunds, the access list and the logs of before, although the
    database has undone them entry by entry.  A panic is that of the jump analysis, of
    the run over the abstract state too.  Same rules and bounds as for the plain call. *)
Theorem evmCall_over_database cl addr input gas val t (s : EVM S) e : evmRel s e -> callable env e gas -> gas < Z.of_nat fuel -> small (len input) -> 0 <= val ->
  (readOnly e && IsByzantium (chainRules env) = true -> val = 0) -> (IsBerlin (chainRules env) = true -> addr ∈ k_addresses (v_core (e_db e))) ->
  match evmCall env fuel cl addr input gas val (mkWorld t s) with
  | (Ok (_, gas', err), w) => 0 <= gas' <= gas /\ exists v, sdb_rep (e_db (w_st w)) v /\ totalBalance (v_core v) <= totalBalance (v_core (e_db e)) /\ (is_Some err -> v_core v = v_core (e_db e))
  | (Fail _, _) => False
  | (Panic _, _) => exists w, evmCall env fuel cl addr input gas val (mkWorld t e) = (Panic bitvecRange, w)
  end.
Proof.
  intros Hr Hca Hf Hi Hv Hst Hl. pose proof (evmCall_sim env fuel cl addr input gas val t s e Hr) as Hs.
  pose proof (evmCall_done env He fuel cl addr input gas val t e Hca Hf Hi Hv Hl Hst) as Hp. unfold wp, evmCall in *. destruct (Call env (Run_ env fuel) cl addr input gas val (mkWorld t e)) as [[[[ret gas'] err]|er|q] w].
  - destruct Hs as (s1 & -> & Hrel & _). destruct Hp as (_ & Hg & _ & [_ (_ & _ & Ht & _) _] & Hk). split; [done|]. by exists (e_db (w_st w)).
  - done.
  - destruct Hs as (q' & w' & ->). cbn in Hp. subst q. by eexists.
Qed.
End over_database.

(** * A frame at every turn *)

Section turns.
Context `{Crypto} `{PrecompileLibs} (env : Env) (He : envOk env) (fuel : nat).

(** The turns of a frame that goes on. *)
Inductive turns : nat -> World (Scope Abs) -> World (Scope Abs) -> Prop :=
  | turns_none w : turns 0 w w
  | turns_more k w1 w2 w3 : turns k w1 w2 -> turn env (Run_ env fuel) w2 = (Ok None, w3) -> turns (S k) w1 w3.

Context (c : Contract) (e : EVM Abs) (t : nat) (Hca : callable env e (Gas c)) (Hfuel : Gas c <= Z.of_nat fuel) (Hcode : small (len (Code c))) (Hinput : small (len (Input c))).
Context (Hself : IsBerlin (chainRules env) = true -> self c ∈ k_addresses (v_core (e_db e))).

Definition opened : ghost := mkGhost (e_db e) (depth e) (abort e) (readOnly e) (Gas c) (credit (v_core (e_db e)) (Gas c)).

Lemma frame_opened : frame env opened (coreOk (clearRefund env)) 0 0 (mkScope e NewMemory [] c 0 0).
Proof. destruct Hca. split; try done; cbn; try lia; [rewrite Resize_0; apply memOk_New|unfold credit; lia]. Qed.

Lemma later_iter k g : g_mem (Nat.iter k later g) = g_mem g - Z.of_nat k /\ g_credit (Nat.iter k later g) = g_credit g.
Proof. induction k as [|k [IH1 IH2]]; [cbn; split; [lia|done]|]. change (Nat.iter (S k) later g) with (later (Nat.iter k later g)). unfold later at 1 3. cbn [g_mem g_credit]. rewrite IH1, IH2. split; [lia|done]. Qed.

Lemma turns_frame k w : turns k (mkWorld t (mkScope e NewMemory [] c 0 0)) w -> frame env (Nat.iter k later opened) (coreOk (clearRefund env)) 0 0 (w_st w).
Proof.
  remember (mkWorld t _) as w0 eqn:E0. induction 1 as [w|k w1 w2 w3 Ht IH Eturn]; subst; [apply frame_opened|]. destruct (later_iter k opened) as [Em Ec]. specialize (IH eq_refl). destruct w2 as [t2 sc2]. cbn [w_st] in IH.
  pose proof (turn_ok env He (Nat.iter k later opened)) as Hturn. rewrite Ec, Em in Hturn. destruct Hca. cbn [g_credit g_mem opened] in Hturn.
  specialize (Hturn ca_credit ltac:(lia) (Z.of_nat fuel) (Run_ env fuel) (interpreter_ok env He fuel) ltac:(lia) t2 sc2 IH). unfold wp in Hturn. rewrite Eturn in Hturn. by apply frame_later.
Qed.

(** C24: At every turn the frame is well typed: the stack holds at most 1024 numbers, each
    of four 64-bit words, and the program counter is a 64-bit number. *)
Theorem turns_typed k w : turns k (mkWorld t (mkScope e NewMemory [] c 0 0)) w -> Forall wf (sc_stack (w_st w)) /\ len (sc_stack (w_st w)) <= 1024 /\ is_u64 (sc_pc (w_st w)).
Proof. intros Ht. by destruct (turns_frame _ _ Ht). Qed.

(** C25: Gas bounds what a frame uses: at every turn its memory is a whole number of words
    whose price, and one unit for each turn so far, have been taken from the gas that it
    started with. *)
Theorem turns_paid k w : turns k (mkWorld t (mkScope e NewMemory [] c 0 0)) w ->
  exists words, 0 <= words /\ Len (sc_mem (w_st w)) = 32 * words /\ 0 <= Gas (sc_contract (w_st w)) /\ Gas (sc_contract (w_st w)) + (3 * words + words * words / 512) + Z.of_nat k <= Gas c.
Proof.
  intros Ht. destruct (later_iter k opened) as [Em _]. destruct (turns_frame _ _ Ht). rewrite Em in *. rewrite Resize_0 in f_mem. destruct f_mem as (words & Hw & HL & Hg). exists words. cbn [g_mem opened] in *. unfold memFee in Hg. lia.
Qed.
End turns.

(** * Jump destinations *)

Section jumps.
Context `{Crypto}.

(** The reference: a JUMPDEST of the code that is no argument of a PUSH. *)
Definition jumpable (code : list byte) (dest : Z) : bool :=
  from_option (fun b => Z.eqb (Zb b) opcodes.JUMPDEST) false (code !! Z.to_nat dest) && negb (default false (pushData 0 code !! Z.to_nat dest)).

(** The analyses that are kept are those of the contract's code. *)
Definition analysed (sc : Scope Abs) : Prop :=
  let c := sc_contract sc in
  (forall bits, analysis c = Some bits -> codeBitmap (Code c) = Ok bits) /\
  (forall bits, jumpdests (sc_evm sc) !! CodeHash c = Some bits -> codeBitmap (Code c) = Ok bits).

Lemma codeSegment_jumpable code bits dest b t (sc : Scope Abs) : codeBitmap code = Ok bits -> 0 <= dest < len code -> code !! Z.to_nat dest = Some b -> Zb b = opcodes.JUMPDEST ->
  wp (lift (codeSegment bits dest)) (fun o w => o = Ok (jumpable code dest) /\ w = mkWorld t sc) (mkWorld t sc).
Proof.
  intros Eb Hd El Ej. destruct (codeBitmap_spec code) as (bits' & Eb' & Hs). assert (bits' = bits) as -> by congruence. apply wp_lift. rewrite (Hs dest Hd). split; [|done]. unfold jumpable. rewrite El. cbn [from_option]. by rewrite Ej.
Qed.

Lemma isCode_jumpable dest b t sc : analysed sc -> 0 <= dest < len (Code (sc_contract sc)) -> Code (sc_contract sc) !! Z.to_nat dest = Some b -> Zb b = opcodes.JUMPDEST ->
  wp (isCode dest) (fun o w => o = Ok (jumpable (Code (sc_contract sc)) dest) /\ analysed (w_st w)) (mkWorld t sc).
Proof.
  intros [Ha Hj] Hd El Ej. destruct sc as [e m st c p n]. cbn [sc_contract sc_evm] in *. unfold isCode. evm_step. destruct (codeBitmap_spec (Code c)) as (bits & Eb & _).
  assert (forall bits' e', codeBitmap (Code c) = Ok bits' -> jumpdests e' = jumpdests e \/ jumpdests e' = <[CodeHash c := bits]> (jumpdests e) -> forall c', Code c' = Code c -> CodeHash c' = CodeHash c -> analysis c' = Some bits' ->
    wp (lift (codeSegment bits' dest)) (fun o w => o = Ok (jumpable (Code c) dest) /\ analysed (w_st w)) (mkWorld t (mkScope e' m st c' p n))) as Hend.
  { intros bits' e' Eb' He' c' Ec Eh Ean. eapply wp_mono; [by eapply (codeSegment_jumpable (Code c))|]. intros o w [-> ->]. split; [done|]. split; cbn [w_st sc_contract sc_evm]; intros b'; rewrite Ec; [congruence|].
    rewrite Eh. destruct He' as [->| ->]; [apply Hj|]. rewrite lookup_insert_eq. congruence. }
  destruct (analysis c) as [bits'|] eqn:Ea; [apply (Hend bits'); auto|]. destruct (negb (isZeroHash (CodeHash c))).
  - evm_step. destruct (jumpdests e !! CodeHash c) as [bits'|] eqn:Ejd; evm_step.
    + evm_step. apply (Hend bits'); auto.
    + rewrite Eb. wp_norm. do 3 evm_step. apply (Hend bits); auto.
  - evm_step. rewrite Eb. wp_norm. evm_step. apply (Hend bits); auto.
Qed.

(** C28: A jump is let through exactly when it goes to a JUMPDEST that is no argument of a
    PUSH, and the analyses that this leaves for the next jump are those of the code. *)
Theorem validJumpdest_correct dest t sc : wf dest -> small (len (Code (sc_contract sc))) -> analysed sc -> exists w, validJumpdest dest (mkWorld t sc) = (Ok (jumpable (Code (sc_contract sc)) (toZ dest)), w) /\ analysed (w_st w).
Proof.
  intros Hd Hs Ha. cut (wp (validJumpdest dest) (fun o w => o = Ok (jumpable (Code (sc_contract sc)) (toZ dest)) /\ analysed (w_st w)) (mkWorld t sc)).
  { unfold wp. destruct (validJumpdest _ _) as [o w]. intros [-> Hw]. by exists w. }
  unfold validJumpdest. rewrite Uint64WithOverflow_spec by done. pose proof (toZ_range dest Hd). evm_step. cbn [w_st]. set (code := Code (sc_contract sc)) in *.
  assert (len code <= toZ dest -> jumpable code (toZ dest) = false) as Hout by (intros Hl; unfold jumpable; rewrite lookup_ge_None_2; [done|unfold len in Hl; lia]).
  destruct (Z.leb_spec B64 (toZ dest)) as [Hb|Hb]; cbn [orb].
  - apply wp_ret. rewrite Hout; [done|]. unfold small in Hs. unfold B64 in Hb. lia.
  - rewrite Z.mod_small by lia. destruct (Z.leb_spec (len code) (toZ dest)) as [Hl|Hl]; [apply wp_ret; by rewrite Hout|]. destruct (at_Z_in code (toZ dest)) as (b & Eb & El); [lia|]. evm_step. rewrite Eb. wp_norm.
    destruct (Z.eqb_spec (Zb b) opcodes.JUMPDEST) as [Ej|Hne]; cbn [negb]; [eapply isCode_jumpable; [done|fold code; lia|exact El|exact Ej]|]. apply wp_ret. split; [|done]. unfold jumpable. rewrite El. cbn [from_option]. by rewrite (proj2 (Z.eqb_neq _ _)).
Qed.
End jumps.

(** * The identity precompile *)

Section identity.
Context `{Crypto} `{PrecompileLibs} (env : Env) (run : Contract -> list byte -> bool -> M (EVM Abs) runResult) (Hrec : NoRecursion (cfg env) = false).

Definition identity : Address := precompileAddress 4.
Definition identityGas (size : Z) : Z := 15 + 3 * ((size + 31) / 32).

Lemma precompile_identity r : precompile r identity = Some dataCopy.
Proof. unfold precompile. destruct (IsBerlin r), (IsIstanbul r), (IsByzantium r); by vm_compute. Qed.

Lemma perWord_identity input : small (len input) -> perWord input params.IdentityPerWordGas params.IdentityBaseGas = identityGas (len input).
Proof.
  unfold small, perWord, identityGas, params.IdentityPerWordGas, params.IdentityBaseGas. change (2 ^ 60) with 1152921504606846976. intros Hs.
  rewrite (u64_small (len input + 31)) by (unfold is_u64; change (2 ^ 64) with 18446744073709551616; lia).
  assert (0 <= (len input + 31) / 32 <= 1152921504606846976) by (split; [apply Z.div_pos; lia|apply Z.div_le_upper_bound; lia]).
  rewrite u64_small by (unfold is_u64; change (2 ^ 64) with 18446744073709551616; lia). lia.
Qed.

(** A call of it hands back the slice that it was given. *)
Lemma Call_identity cl input gas (e : EVM Abs) t : depth e <= params.CallCreateDepth -> small (len input) -> identityGas (len input) <= gas ->
  wp (Call env run cl identity input gas 0) (fun o _ => o = Ok (SameAsInput, gas - identityGas (len input), None)) (mkWorld t e).
Proof.
  intros Hd Hs Hg. destruct e as [v d ab cg ro rd jd]. cbn in Hd. unfold Call, recursionOff, tooDeep, Transfer. rewrite Hrec, precompile_identity. change (Z.eqb 0 0) with true. cbn [negb andb].
  do 4 call_step. rewrite (proj2 (Z.ltb_ge _ _)) by done. call_step. cbn [negb]. do 2 call_step. rewrite andb_false_r. cbn [andb].
  assert (RunPrecompiledContract dataCopy input gas = Ok (SameAsInput, gas - identityGas (len input), None)) as E.
  { unfold RunPrecompiledContract. cbn -[Z.ltb]. rewrite perWord_identity by done. by rewrite (proj2 (Z.ltb_ge _ _)). }
  destruct (existsIn _ _); cbn [negb when]; call_steps; rewrite E; by call_steps.
Qed.

Lemma lookup_splice {A} (l : list A) i n v j : (i + n <= length l)%nat ->
  splice l i n v !! j = if decide (i <= j < i + min n (length v))%nat then v !! (j - i)%nat else l !! j.
Proof.
  intros Hl. unfold splice. assert (length (take n v) = min n (length v)) as Ev by apply length_take. destruct (decide _) as [Hj|Hj].
  - rewrite lookup_app_r, length_take_le by (rewrite ?length_take; lia). rewrite lookup_app_l by lia. by rewrite lookup_take_lt by lia.
  - destruct (decide (j < i)%nat) as [Hlt|Hge]; [by rewrite lookup_app_l, lookup_take_lt by (rewrite ?length_take; lia)|].
    rewrite lookup_app_r, length_take_le by (rewrite ?length_take; lia). rewrite lookup_app_r, Ev, lookup_drop by lia. f_equal. lia.
Qed.

Lemma splice_nil {A} (l : list A) i v : splice l i 0 v = l.
Proof. unfold splice. rewrite take_0. cbn. rewrite Nat.add_0_r. apply take_drop. Qed.

Lemma below_start m o n : memOk m -> wf o -> below (Len m) (toZ o, toZ n) -> 0 < toZ n -> U256.Uint64 o = toZ o /\ i64 (toZ o) = toZ o.
Proof.
  intros Hm Ho [Hz|(_ & _ & Hl)] Hn; cbn [fst snd] in *; [lia|]. pose proof (memOk_Len m Hm) as HL. pose proof (toZ_range o Ho). change (2 ^ 40) with 1099511627776 in HL.
  split; [unfold U256.Uint64; symmetry; apply toZ_IsUint64; [done|unfold B64; lia]|]. apply i64_small. change (2 ^ 63) with 9223372036854775808. lia.
Qed.

(** The input area after the input has been written to the output area. *)
Lemma reread_lookup (s : list byte) io is_ oo os i : 0 <= i < is_ -> 0 <= io -> io + is_ <= len s -> os = 0 \/ 0 <= oo /\ 0 < os /\ oo + os <= len s ->
  let area (s : list byte) := take (Z.to_nat is_) (drop (Z.to_nat io) s) in
  area (splice s (Z.to_nat oo) (Z.to_nat os) (area s)) !! Z.to_nat i = s !! Z.to_nat (if decide (oo <= io + i < oo + Z.min os is_) then io + (io + i - oo) else io + i).
Proof.
  intros Hi Hio Hl Hb area. unfold area. unfold len in *. rewrite lookup_take_lt, lookup_drop by lia.
  destruct Hb as [->|(Hoo & Hos & Hl2)].
  { rewrite splice_nil, decide_False by lia. f_equal. lia. }
  rewrite lookup_splice by lia. rewrite length_take, length_drop. destruct (decide (oo <= _ < _)) as [Hj|Hj].
  - rewrite decide_True by lia. rewrite lookup_take_lt, lookup_drop by lia. f_equal. lia.
  - rewrite decide_False by lia. f_equal. lia.
Qed.

(** Where the two areas do not meet, or start together, the input area is as before. *)
Lemma reread_area (s ret : list byte) io is_ oo os : 0 <= io -> len ret = is_ ->
  (forall i, 0 <= i < is_ -> ret !! Z.to_nat i = s !! Z.to_nat (if decide (oo <= io + i < oo + Z.min os is_) then io + (io + i - oo) else io + i)) ->
  (forall i, 0 <= i < is_ -> ret !! Z.to_nat i = s !! Z.to_nat (if decide (oo <= io + i < oo + Z.min os is_) then io + (io + i - oo) else io + i)) /\
  (oo + os <= io \/ io + is_ <= oo \/ oo = io -> ret = take (Z.to_nat is_) (drop (Z.to_nat io) s)).
Proof.
  intros Hio Hl Hi. split; [done|]. intros Hcase. apply list_eq. intros j. unfold len in Hl. destruct (decide (j < Z.to_nat is_)%nat) as [Hj|Hj].
  - rewrite lookup_take_lt, lookup_drop by done. specialize (Hi (Z.of_nat j) ltac:(lia)). rewrite Nat2Z.id in Hi. rewrite Hi. destruct (decide _); f_equal; lia.
  - rewrite !lookup_ge_None_2; [done|rewrite length_take; lia|lia].
Qed.

(** C40: After a CALL of the identity precompile RETURNDATA is the input area of the memory as
    it is when the output has been written, since the precompile returns the slice that it
    was given: byte [i] of it is byte [i] of the input where the output area does not reach,
    and a byte of the input from elsewhere where it does.  It is the data that the
    precompile was called with when the areas are disjoint or start at the same place, and
    not in general. *)
Theorem identity_returndata x0 a val io is_ oo os st e m c p n t :
  wf io -> wf is_ -> wf oo -> wf os -> toAddress a = identity -> U256.IsZero val = true -> depth e <= params.CallCreateDepth ->
  memOk m -> below (Len m) (toZ io, toZ is_) -> below (Len m) (toZ oo, toZ os) -> identityGas (toZ is_) <= callGasTemp e ->
  exists ret w, opCall env run (mkWorld t (mkScope e m (x0 :: a :: val :: io :: is_ :: oo :: os :: st) c p n)) = (Ok ret, w) /\ len ret = toZ is_ /\
    (forall i, 0 <= i < toZ is_ -> ret !! Z.to_nat i = store m !! Z.to_nat
      (if decide (toZ oo <= toZ io + i < toZ oo + Z.min (toZ os) (toZ is_)) then toZ io + (toZ io + i - toZ oo) else toZ io + i)) /\
    (toZ oo + toZ os <= toZ io \/ toZ io + toZ is_ <= toZ oo \/ toZ oo = toZ io -> ret = take (Z.to_nat (toZ is_)) (drop (Z.to_nat (toZ io)) (store m))).
Proof.
  intros Hio His Hoo Hos Ha Hv Hd Hm Hb1 Hb2 Hg.
  destruct (below_inMem m io is_ Hm Hio His Hb1) as (_ & Hin & Eis & Hsm). destruct (below_inMem m oo os Hm Hoo Hos Hb2) as (Hout & _ & Eos & _).
  destruct (GetPtr_ok m _ _ Hin (memOk_Len m Hm)) as (args & Ea & _ & Hla & Hargs). destruct (Set_ok m _ _ args Hout (memOk_Len m Hm)) as (m' & Es & HL & _ & Hst).
  assert (inMem m' (i64 (U256.Uint64 io)) (i64 (U256.Uint64 is_))) as Hin' by (unfold inMem in *; by rewrite HL).
  destruct (GetPtr_ok m' _ _ Hin' ltac:(rewrite HL; exact (memOk_Len m Hm))) as (ret & Er & _ & Hlr & Hret).
  cut (wp (opCall env run) (fun o _ => o = Ok ret) (mkWorld t (mkScope e m (x0 :: a :: val :: io :: is_ :: oo :: os :: st) c p n))).
  { unfold wp. destruct (opCall env run _) as [o w]. intros ->. exists ret, w. split; [done|]. rewrite Eis in *. rewrite i64_small in * by (unfold small in Hsm; change (2 ^ 60) with 1152921504606846976 in Hsm; change (2 ^ 63) with 9223372036854775808; lia).
    split; [done|]. apply reread_area; [apply toZ_range, Hio|done|]. intros i Hi. destruct (below_start m io is_ Hm Hio Hb1 ltac:(lia)) as [Eu Ei]. rewrite Eu, Ei in Hargs, Hret. specialize (Hargs ltac:(lia)). specialize (Hret ltac:(lia)).
    pose proof (toZ_range os Hos) as Hos0. assert (store m' = splice (store m) (Z.to_nat (toZ oo)) (Z.to_nat (toZ os)) args) as Hst'.
    { destruct (decide (toZ os = 0)) as [E0|]; [rewrite Eos, E0 in Es; injection Es as <-; by rewrite E0, splice_nil|].
      destruct (below_start m oo os Hm Hoo Hb2 ltac:(lia)) as [Euo _]. rewrite <- Euo, <- Eos. apply Hst. lia. }
    rewrite Hret, Hst', Hargs. destruct Hb1 as [?|(_ & _ & ?)]; cbn [fst snd] in *; [lia|]. apply reread_lookup; [done|pose proof (toZ_range io Hio); lia|done|exact Hb2]. }
  unfold opCall. do 8 evm_step. unfold memPtr at 1. do 2 evm_step. rewrite Ea. wp_norm. evm_step. unfold bigVal. rewrite Hv, Ha. apply wp_onEVM.
  assert (len args = toZ is_) as El by (rewrite Hla, Eis; apply i64_small; unfold small in Hsm; change (2 ^ 60) with 1152921504606846976 in Hsm; change (2 ^ 63) with 9223372036854775808; lia).
  eapply wp_mono; [apply Call_identity; [done|by rewrite El..]|]. intros o [t' e'] ->. unfold endCallOp, readRet, memPtr, memSet, addGas. wp_norm. rewrite (bool_decide_true (None = None)) by done. cbn [orb when].
  do 3 evm_step. rewrite Ea. wp_norm. do 2 evm_step. rewrite Es. wp_norm. do 4 evm_step. by rewrite Er.
Qed.
End identity.

(** * A chain for closed examples *)

Module Ledger.
Definition libs : PrecompileLibs.
Proof.
  refine {| sha256_Sum256 b := replicate 32 Byte.x00; ripemd160_Sum b := replicate 20 Byte.x00; G1 := unit; G2 := unit; G1_Unmarshal b := inl (); G1_Marshal b := replicate 64 Byte.x00;
    G1_Add _ _ := (); G1_ScalarMult _ _ := (); G2_Unmarshal b := inl (); PairingCheck _ _ := true; blake2b_F h m t f r := h |}; intros; done.
Defined.
#[local] Existing Instances StateProps.Sample.prefixHash libs.

Definition london : Rules := mkRules true true true true true true true true true true false.
Definition env : Env := mkEnv (mkBlockContext (fun _ => HashZero) HashZero 1000000 100 5 1 0) (mkTxContext HashZero 1) london 7 (mkConfig false false false) (instructionSet london).
Definition user : Address := precompileAddress 99.
Definition contract : Address := precompileAddress 100.
Definition bytes : list Z -> list byte := map bZ.
(** A user with 100 coins, and a contract with the code. *)
Definition accounts (code : list Z) : gmap Address account :=
  <[contract := mkAccount 1 5 (bytes code) (Keccak256Hash [bytes code]) ∅ ∅ false]> (<[user := mkAccount 0 100 [] emptyCodeHash ∅ ∅ false]> ∅).
Definition ledger (code : list Z) : Abs := mkAbs (mkCore (accounts code) 0 {[user; contract]} ∅ ∅ 0 ∅) [] 0 HashZero 0.
Definition start (code : list Z) : EVM Abs := mkEVM (ledger code) 0 0 0 false [] ∅.

Lemma env_ok : envOk env.
Proof. by split. Qed.

Lemma start_callable code gas : len code < 1000 -> 0 <= gas <= 100000 -> callable env (start code) gas.
Proof.
  intros Hc Hg. split.
  - split.
    + assert (small (len (bytes code))) as Hs by (unfold small, len, bytes in *; rewrite length_map; change (2 ^ 60) with 1152921504606846976; lia).
      apply map_Forall_insert_2; [by split_and!; [..|done|split]|]. apply map_Forall_insert_2; [|apply map_Forall_empty]. split; [done|]. by split; [apply small_0|split].
    + done.
  - change (2 ^ 55) with 36028797018963968. lia.
  - unfold credit, refundRate, creditLimit. cbn. lia.
  - apply small_0.
Qed.

(** 3 + 4, returned in a word; a log, and an opcode that is not one. *)
Definition adder : list Z := [0x60; 3; 0x60; 4; 0x01; 0x60; 0; 0x52; 0x60; 32; 0x60; 0; 0xf3].
Definition failing : list Z := [0x60; 1; 0x60; 0; 0x60; 0; 0xa1; 0xfe].
(** A slot that is set and cleared again. *)
Definition setter : list Z := [0x60; 1; 0x60; 0; 0x55; 0x60; 0; 0x60; 0; 0x55; 0].
Definition fuel : nat := Z.to_nat 9001.
Lemma fuel_enough : 9000 < Z.of_nat fuel.
Proof. done. Qed.
(** The call of the examples: the user sends 10 coins and 9000 units of gas. *)
Definition send (code : list Z) := evmCall env fuel (AccountRef user) contract [] 9000 10 (mkWorld 0 (start code)).

Lemma listed code : IsBerlin (chainRules env) = true -> contract ∈ k_addresses (v_core (e_db (start code))).
Proof. intros _. cbn. set_solver. Qed.
Lemma not_static code : readOnly (start code) && IsByzantium (chainRules env) = true -> 10 = 0.
Proof. cbn. discriminate. Qed.
End Ledger.

#[local] Existing Instances StateProps.Sample.prefixHash Ledger.libs.

Lemma evmCall_returns_witness :
  (exists gas', fst (Ledger.send Ledger.adder) = Ok (Own (replicate 31 Byte.x00 ++ [Byte.x07]), gas', None)) /\
  match Ledger.send Ledger.adder with
  | (Ok (_, gas', _), w) => 0 <= gas' <= 9000 /\ depth (w_st w) = 0 /\ readOnly (w_st w) = false
  | (Fail _, _) => False
  | (Panic p, _) => p = bitvecRange
  end.
Proof.
  split; [eexists; vm_compute; reflexivity|]. unfold Ledger.send.
  pose proof (evmCall_returns Ledger.env Ledger.env_ok Ledger.fuel (AccountRef Ledger.user) Ledger.contract [] 9000 10 0 (Ledger.start Ledger.adder)
    (Ledger.start_callable Ledger.adder 9000 eq_refl ltac:(lia)) Ledger.fuel_enough small_0 ltac:(lia) (Ledger.listed _) (Ledger.not_static _)) as Hp. exact Hp.
Defined.

Lemma evmCall_failure_restores_witness :
  fst (Ledger.send Ledger.failing) = Ok (Own [], 0, Some (ErrInvalidOpCode 0xfe)) /\
  match Ledger.send Ledger.failing with
  | (Ok (_, _, Some _), w) => v_core (e_db (w_st w)) = v_core (Ledger.ledger Ledger.failing)
  | _ => True
  end.
Proof.
  split; [vm_compute; reflexivity|]. unfold Ledger.send.
  pose proof (evmCall_failure_restores Ledger.env Ledger.env_ok Ledger.fuel (AccountRef Ledger.user) Ledger.contract [] 9000 10 0 (Ledger.start Ledger.failing)
    (Ledger.start_callable Ledger.failing 9000 eq_refl ltac:(lia)) Ledger.fuel_enough small_0 ltac:(lia) (Ledger.listed _) (Ledger.not_static _)) as Hp. exact Hp.
Defined.

Lemma evmCall_no_inflation_witness :
  (match Ledger.send Ledger.adder with (Ok _, w) => balanceOf (v_core (e_db (w_st w))) Ledger.contract | _ => 0 end) = 15 /\
  match Ledger.send Ledger.adder with
  | (Ok _, w) => totalBalance (v_core (e_db (w_st w))) <= totalBalance (v_core (Ledger.ledger Ledger.adder)) /\ forall a, 0 <= balanceOf (v_core (e_db (w_st w))) a
  | _ => True
  end.
Proof.
  split; [vm_compute; reflexivity|]. unfold Ledger.send.
  pose proof (evmCall_no_inflation Ledger.env Ledger.env_ok Ledger.fuel (AccountRef Ledger.user) Ledger.contract [] 9000 10 0 (Ledger.start Ledger.adder)
    (Ledger.start_callable Ledger.adder 9000 eq_refl ltac:(lia)) Ledger.fuel_enough small_0 ltac:(lia) (Ledger.listed _) (Ledger.not_static _)) as Hp. exact Hp.
Defined.

Lemma evmCall_refund_bounded_witness :
  let r := evmCall Ledger.env (Z.to_nat 30001) (AccountRef Ledger.user) Ledger.contract [] 30000 10 (mkWorld 0 (Ledger.start Ledger.setter)) in
  (match r with (Ok (_, gas', None), w) => (gas', k_refund (v_core (e_db (w_st w)))) | _ => (0, 0) end) = (7788, 19900) /\
  match r with
  | (Ok (_, gas', _), w) => let k := v_core (e_db (w_st w)) in clearRefund Ledger.env * clearedIn k <= k_refund k <= 0 + 256 * (30000 - gas') /\ k_refund k < 2 ^ 64
  | _ => True
  end.
Proof.
  split; [vm_compute; reflexivity|].
  pose proof (evmCall_refund_bounded Ledger.env Ledger.env_ok (Z.to_nat 30001) (AccountRef Ledger.user) Ledger.contract [] 30000 10 0 (Ledger.start Ledger.setter)
    (Ledger.start_callable Ledger.setter 30000 eq_refl ltac:(lia)) ltac:(rewrite Z2Nat.id; lia) small_0 ltac:(lia) (Ledger.listed _) (Ledger.not_static _)) as Hp. exact Hp.
Defined.

Lemma evmStaticCall_reads_only_witness :
  let r := evmStaticCall Ledger.env Ledger.fuel (AccountRef Ledger.user) Ledger.contract [] 9000 (mkWorld 0 (Ledger.start Ledger.failing)) in
  fst r = Ok (Own [], 0, Some ErrWriteProtection) /\
  match r with
  | (Ok _, w) => let k := v_core (Ledger.ledger Ledger.failing) in let k' := v_core (e_db (w_st w)) in
      (forall a, balanceOf k' a = balanceOf k a /\ nonceOf k' a = nonceOf k a /\ codeOf k' a = codeOf k a /\ suicidedOf k' a = suicidedOf k a /\ forall s, storageOf k' a s = storageOf k a s) /\ k_logs k' = k_logs k
  | (Fail _, _) => False
  | (Panic p, _) => p = bitvecRange
  end.
Proof.
  split; [vm_compute; reflexivity|].
  pose proof (evmStaticCall_reads_only Ledger.env Ledger.env_ok Ledger.fuel (AccountRef Ledger.user) Ledger.contract [] 9000 0 (Ledger.start Ledger.failing)
    (Ledger.start_callable Ledger.failing 9000 eq_refl ltac:(lia)) Ledger.fuel_enough small_0 (Ledger.listed _) eq_refl) as Hp. exact Hp.
Defined.

Lemma evmCreate_failure_restores_witness : exists a, CreateAddress Ledger.user 0 = Ok a /\
  match evmCreate Ledger.env Ledger.fuel (AccountRef Ledger.user) (Ledger.bytes Ledger.failing) 9000 10 (mkWorld 0 (Ledger.start Ledger.adder)) with
  | (Ok (_, _, gas', err), w) => let k := v_core (Ledger.ledger Ledger.adder) in let k' := v_core (e_db (w_st w)) in
      0 <= gas' <= 9000 /\ totalBalance k' <= totalBalance k /\ (is_Some err -> k' = k \/ k' = announced Ledger.env Ledger.user a k)
  | (Fail _, _) => False
  | (Panic p, _) => p = bitvecRange
  end.
Proof.
  pose proof (evmCreate_failure_restores Ledger.env Ledger.env_ok Ledger.fuel (AccountRef Ledger.user) (Ledger.bytes Ledger.failing) 9000 10 0 (Ledger.start Ledger.adder)
    (Ledger.start_callable Ledger.adder 9000 eq_refl ltac:(lia)) Ledger.fuel_enough ltac:(by split) ltac:(lia)) as Hp. exact Hp.
Defined.

Lemma validJumpdest_correct_witness :
  let sc := mkScope (Ledger.start []) NewMemory [] (mkContract Ledger.user (AccountRef Ledger.user) Ledger.contract None (Ledger.bytes [0x60; 0x5b; 0x5b]) HashZero None [] 0 0) 0 0 in
  (exists w, validJumpdest (U256.SetUint64 1) (mkWorld 0 sc) = (Ok false, w) /\ analysed (w_st w)) /\ (exists w, validJumpdest (U256.SetUint64 2) (mkWorld 0 sc) = (Ok true, w) /\ analysed (w_st w)).
Proof.
  intros sc. assert (analysed sc) as Ha by (split; cbn; [done|intros bits; by rewrite lookup_empty]). assert (small (len (Code (sc_contract sc)))) as Hs by (by split).
  split; [apply (validJumpdest_correct (U256.SetUint64 1) 0 sc)|apply (validJumpdest_correct (U256.SetUint64 2) 0 sc)]; try done; by apply wf_SetUint64.
Defined.

(** ** The journaled database of StateProps *)

Module Journaled.
#[local] Existing Instances StateProps.Sample.database StateProps.Sample.base.
Definition istanbul : Rules := mkRules true true true true true true true true false false false.
Definition env : Env := mkEnv (Context_ Ledger.env) (Tx Ledger.env) istanbul 7 (cfg Ledger.env) (instructionSet istanbul).
Definition database : EVM (sdb (gmap (list byte) (list byte)) unit) := mkEVM (db_New HashZero StateProps.Sample.accounts None) 0 0 0 false [] ∅.
Definition opened : EVM Abs := mkEVM openedAbs 0 0 0 false [] ∅.

Lemma istanbul_ok : envOk env.
Proof. by split. Qed.
Lemma related : evmRel database opened.
Proof. split; [exact (db_New_represents HashZero StateProps.Sample.accounts None eq_refl)|done]. Qed.
Lemma opened_callable : callable env opened 100.
Proof.
  split; [|by split|by vm_compute|apply small_0]. split; [|by vm_compute].
  intros a x Ha. cbn in Ha. rewrite accounts_of_lookup, lookup_empty in Ha. destruct (decide (a = StateProps.Sample.contract)) as [->|Hne].
  - cbn [b_accounts StateProps.Sample.base] in Ha. rewrite lookup_singleton_eq in Ha. injection Ha as <-. by split; [|split; [split|split]].
  - cbn [b_accounts StateProps.Sample.base] in Ha. by rewrite lookup_singleton_ne in Ha.
Qed.
End Journaled.

#[local] Existing Instances StateProps.Sample.database StateProps.Sample.base.

Lemma evmCall_over_database_witness :
  match evmCall Journaled.env 101 (AccountRef Ledger.user) StateProps.Sample.contract [] 100 0 (mkWorld 0 Journaled.database) with
  | (Ok (_, gas', err), w) => 0 <= gas' <= 100 /\ exists v, represents (e_db (w_st w)) v /\ totalBalance (v_core v) <= totalBalance (v_core openedAbs) /\ (is_Some err -> v_core v = v_core openedAbs)
  | (Fail _, _) => False
  | (Panic _, _) => exists w, evmCall Journaled.env 101 (AccountRef Ledger.user) StateProps.Sample.contract [] 100 0 (mkWorld 0 Journaled.opened) = (Panic bitvecRange, w)
  end.
Proof.
  pose proof (evmCall_over_database Journaled.env Journaled.istanbul_ok 101 (AccountRef Ledger.user) StateProps.Sample.contract [] 100 0 0 Journaled.database Journaled.opened Journaled.related
    Journaled.opened_callable eq_refl small_0 ltac:(lia) (fun _ => eq_refl) ltac:(discriminate)) as Hp. exact Hp.
Defined.

(** ** Turns *)

Module Turns.
Definition contract : Contract := mkContract Ledger.user (AccountRef Ledger.user) Ledger.contract None (Ledger.bytes Ledger.adder) HashZero None [] 9000 0.
Definition world (k : nat) : World (Scope Abs) := Nat.iter k (fun w => snd (turn Ledger.env (Run_ Ledger.env Ledger.fuel) w)) (mkWorld 0 (mkScope (Ledger.start Ledger.adder) NewMemory [] contract 0 0)).
Lemma world_step k : turns Ledger.env Ledger.fuel k (world 0) (world k) -> fst (turn Ledger.env (Run_ Ledger.env Ledger.fuel) (world k)) = Ok None -> turns Ledger.env Ledger.fuel (S k) (world 0) (world (S k)).
Proof.
  intros Ht E. eapply turns_more; [exact Ht|]. change (world (S k)) with (snd (turn Ledger.env (Run_ Ledger.env Ledger.fuel) (world k))). rewrite <- E. apply surjective_pairing.
Qed.
(** Every turn of the adder but the last. *)
Lemma seven : turns Ledger.env Ledger.fuel 7 (world 0) (world 7).
Proof. do 7 (apply world_step; [|vm_compute; reflexivity]). apply turns_none. Qed.
End Turns.

Lemma turns_typed_witness : Forall wf (sc_stack (w_st (Turns.world 7))) /\ len (sc_stack (w_st (Turns.world 7))) <= 1024 /\ is_u64 (sc_pc (w_st (Turns.world 7))).
Proof.
  pose proof (turns_typed Ledger.env Ledger.env_ok Ledger.fuel Turns.contract (Ledger.start Ledger.adder) 0 (Ledger.start_callable Ledger.adder 9000 eq_refl ltac:(lia)) ltac:(by vm_compute) ltac:(by split) small_0
    (Ledger.listed _) 7 (Turns.world 7) Turns.seven) as Hp. exact Hp.
Defined.

Lemma turns_paid_witness : Gas (sc_contract (w_st (Turns.world 7))) = 8976 /\
  exists words, 0 <= words /\ Len (sc_mem (w_st (Turns.world 7))) = 32 * words /\ 0 <= Gas (sc_contract (w_st (Turns.world 7))) /\ Gas (sc_contract (w_st (Turns.world 7))) + (3 * words + words * words / 512) + 7 <= 9000.
Proof.
  split; [vm_compute; reflexivity|].
  pose proof (turns_paid Ledger.env Ledger.env_ok Ledger.fuel Turns.contract (Ledger.start Ledger.adder) 0 (Ledger.start_callable Ledger.adder 9000 eq_refl ltac:(lia)) ltac:(by vm_compute) ltac:(by split) small_0
    (Ledger.listed _) 7 (Turns.world 7) Turns.seven) as Hp. exact Hp.
Defined.

(** * What the code does not mean to do *)

(** The identity precompile called on the bytes 0x77 and 0x88 with its output one byte
    further: RETURNDATA is 0x77 and 0x77. *)
Module Identity.
Definition memory : Memory := mkMemory (Ledger.bytes [0x77; 0x88] ++ replicate 30 Byte.x00) 3.
Definition scope : Scope Abs := mkScope ((Ledger.start []) <| callGasTemp := 200 |>) memory
  [U256.SetUint64 200; U256.SetUint64 4; U256.SetUint64 0; U256.SetUint64 0; U256.SetUint64 2; U256.SetUint64 1; U256.SetUint64 2] Turns.contract 0 0.
End Identity.

Lemma identity_returndata_witness : fst (opCall Ledger.env (Run_ Ledger.env Ledger.fuel) (mkWorld 0 Identity.scope)) = Ok (Ledger.bytes [0x77; 0x77]) /\
  exists ret w, opCall Ledger.env (Run_ Ledger.env Ledger.fuel) (mkWorld 0 Identity.scope) = (Ok ret, w) /\ len ret = 2 /\
    forall i, 0 <= i < 2 -> ret !! Z.to_nat i = store Identity.memory !! Z.to_nat (if decide (1 <= 0 + i < 1 + Z.min 2 2) then 0 + (0 + i - 1) else 0 + i).
Proof.
  split; [vm_compute; reflexivity|].
  destruct (identity_returndata Ledger.env (Run_ Ledger.env Ledger.fuel) eq_refl (U256.SetUint64 200) (U256.SetUint64 4) (U256.SetUint64 0) (U256.SetUint64 0) (U256.SetUint64 2) (U256.SetUint64 1) (U256.SetUint64 2) []
    ((Ledger.start []) <| callGasTemp := 200 |>) Identity.memory Turns.contract 0 0 0) as (ret & w & E & Hl & Hi & _).
  1-4: by apply wf_SetUint64.
  1: apply arr_bytes_inj; vm_compute; reflexivity.
  1: vm_compute; reflexivity.
  1: by vm_compute.
  1: exists 1; by vm_compute.
  1-2: right; by vm_compute.
  1: by vm_compute.
  rewrite !toZ_SetUint64 in *. exists ret, w. split; [exact E|]. split; [exact Hl|exact Hi].
Defined.

(** The loop of NewEVMInterpreter over the extra EIPs shifts the array that it ranges
    over: after an unknown EIP the next one is kept in the configuration and not enabled,
    and two unknown EIPs at the end of the list are a panic. *)
Example extra_eips_skipped :
  (match NewEVMInterpreter Journaled.istanbul [9999; 3198; 1884] with Ok (kept, jt) => bool_decide (kept = [3198; 1884]) && bool_decide (jt !! opcodes.BASEFEE = None) | _ => false end) = true /\
  (match NewEVMInterpreter Journaled.istanbul [3198; 1884] with Ok (kept, jt) => bool_decide (kept = [3198; 1884]) && bool_decide (is_Some (jt !! opcodes.BASEFEE)) | _ => false end) = true /\
  (match NewEVMInterpreter Journaled.istanbul [9999; 9998] with Panic _ => true | _ => false end) = true.
Proof. by vm_compute. Qed.
